(* ===== verification/_CoqProject ===== *)
-Q . S2P
Prelude.v
StdMap.v
BinaryIO.v
Buffer.v
Codec.v
Rpc.v
CDouble.v
Http.v
Monitor.v
Queues.v
ThreadPool.v
Threads.v
Calendar.v
LogStream.v
LogFile.v
Logging.v
AsyncLogging.v
TimerQueue.v
JsonValue.v
JsonContainers.v
InternalMap.v
BatchAllocator.v
InternalArray.v
JsonWriter.v
JsonReader.v
JsonText.v
JsonSafety.v
JsonReport.v
JsonTyping.v
Mysql.v
MysqlBusiness.v
UserManager.v
ClientSession.v
TcpConnection.v
ConnThreads.v
Sockets.v
Acceptor.v
Client.v
Poller.v
EventLoop.v
Server.v
Main.v
Process.v
Inspector.v
Base.v
