(* ===== verification/Prelude.v ===== *)
(** * A verification library for the instant-messaging server

    The program (src/IMServer/src) is a chat server: it accepts TCP connections
    with the muduo network library, cuts the byte stream of each connection into
    packets, reads commands whose parameters are JSON texts, keeps its users in
    a cache backed by MySQL, and answers with packets.  This library translates
    its code to executable definitions and proves what they do.  Definitions
    follow the code as it is written, mistakes included; where a theorem states
    behaviour that looks wrong, the code has it.

    ** Parts and how they interact

    - [TcpServer] accepts a connection and hands it to [IMServer::OnConnection],
      which makes a [ClientSession] and keeps it in a map under the connection's
      name; [TcpConnection] moves bytes between the socket and two [Buffer]s.
    - [ClientSession::onRead] cuts the input buffer into packets and gives each
      to [process], which reads a command with [BinaryReader] and calls a
      handler; handlers parse JSON ([Json::Reader], [Json::Value]), ask the
      [UserManager] and answer with [Json::FastWriter] and [BinaryWriter].
    - [UserManager] keeps the users and stores them through [MysqlManager],
      which knows the tables, over [MysqlTool], [QueryResult] and [Field].
    - The event loop runs everything in one thread: it asks its [Poller] for
      the channels that are ready, lets them call back, and calls the functors
      that any thread has queued; its [TimerQueue] fires timers, and the
      conversions of [Timestamp], [Date] and [TimeZone] give it the time.

    ** Files

    - [Prelude]: machine integers, bytes, and [outcome], the result of running
      C++ code: a value, undefined behaviour, a failed [assert] (the build sets
      no build type, so [NDEBUG] is not defined), an exception, or no fuel.
    - [StdMap]: [std::map] as a strictly sorted sequence, over an order class;
      its operations are related to [gmap].

    The program itself:
    - [BinaryIO]: BinaryReader.h, BinaryReader.cpp, BinaryWriter.h,
      BinaryWriter.cpp.
    - [Mysql], [MysqlBusiness]: MysqlTool, QueryResult, Field; MysqlBusiness.
    - [UserManager]: UserManager.h, UserManager.cpp, over the class [Database].
    - [ClientSession]: ClientSession.h, ClientSession.cpp; the loop of [onRead]
      is stated for any byte queue and any packet handler.
    - [Server]: IMServer and muduo's TcpServer, the composition of the others.
    - [Main]: main.cpp and muduo/base/Singleton.h, the start of the process over
      [MysqlBusiness], [UserManager] and [Server].

    jsoncpp:
    - [CDouble], [JsonValue], [JsonWriter], [JsonReader]: value.h,
      json_value.cpp, json_writer.cpp, json_reader.cpp.  A value is a tree; the
      reader works on paths into the tree it builds.
    - [JsonContainers]: json_valueiterator.inl and [Json::Path].
    - [JsonText]: the grammar of JSON texts and their values, against which
      parser and writer are proved; [JsonSafety]: the parser on any input;
      [JsonReport]: positions and messages of errors; [JsonTyping]: the
      invariant of the values the parser makes.
    - [InternalMap], [InternalArray], [BatchAllocator]: json_internalmap.inl,
      json_internalarray.inl and json_batchallocator.h, which the build can
      select instead of [std::map]; the array takes its pages from the allocator.

    muduo/net:
    - [Buffer]: Endian.h, Buffer.h, Buffer.cc; the class [ByteQueue] is the
      interface clients of a buffer are proved against, and the buffer
      implements it.
    - [TcpConnection]: TcpConnection and Channel in the thread of the loop;
      [ConnThreads]: the same connection called from other threads.
    - [Sockets]: InetAddress and SocketsOps; [Acceptor]: Acceptor over the class
      [Kernel] of descriptors and waiting peers; [Client]: Connector, TcpClient.
    - [Poller]: Poller, EPollPoller and PollPoller, two instances of the class
      [Poller], which is what the event loop is proved against.
    - [EventLoop]: EventLoop, as interleaved steps of its thread and of other
      threads; [TimerQueue]: Timer, TimerId and TimerQueue.
    - [Http]: http, the request parser and the server on a [Buffer].
    - [Codec], [Rpc]: protobuf's ProtobufCodecLite and protorpc's RpcChannel.
    - [Inspector]: inspect's Inspector and the commands it is given.

    muduo/base:
    - [Monitor]: Mutex and Condition as interleaved steps, for any object whose
      members run under a mutex; its instances [Queues] (BlockingQueue,
      BoundedBlockingQueue, CountDownLatch), [ThreadPool] and [AsyncLogging].
    - [Threads]: Thread, CurrentThread, and muduo/net's EventLoopThread and
      EventLoopThreadPool.
    - [LogStream], [LogFile], [Logging]: the text, the files and the statements
      of the log.
    - [Calendar]: Timestamp, Date and TimeZone.
    - [Base]: StringPiece and AtomicIntegerT.
    - [Process]: ProcessInfo, with the pages of inspect's ProcessInspector and
      SystemInspector.

    ** Theorems

    - Start: [Main.main_never_serves] composes the models of the database layer
      and the users: [main] ends before the server is started;
      [daemon_detached], [singleton_one_object].
    - Framing: [ClientSession.framing_refines_stream] relates the loop of
      [onRead] to a decomposition of the stream; [segmentation_irrelevant] and
      [packets_roundtrip] follow the stream through segments and back.
    - Connection: [TcpConnection.connection_never_faults] and the invariants
      [output_in_order] and [callbacks_bracket_life] hold for every history of
      operations and results of system calls;
      [ConnThreads.threads_share_connection] for calls from any threads, under
      the discipline it states.
    - Buffer: [Buffer.buffer_implements_queue], over all operations that change
      it, and the integer round trips.
    - JSON: [JsonText.parse_text] (the parser accepts the grammar and gives each
      text its value), [fastwriter_roundtrip], [integers_exact];
      [JsonSafety.parse_total] (it ends on every document of at most [INT_MAX]
      bytes, given a call stack for its nested calls);
      [JsonTyping.parse_well_typed]; [JsonReport.error_position_exact].
    - Containers: [JsonContainers.object_implements_map] and
      [array_implements_list] (simulations of a finite map and of a list with
      holes), [path_roundtrip]; [InternalMap.internal_map_implements_map] and
      [InternalArray.internal_array_implements_list] for the alternatives - the
      array as long as its account of index entries and pages has room - with the
      operations that do not do what they should as examples.
    - Event loop: [Poller.pollers_agree] (the two pollers are interchangeable);
      [EventLoop.event_loop_never_faults] and [queued_functors_run] (no wake-up
      is lost, functors run once each and in order).
    - Timers: [TimerQueue.timer_queue_refines] (a simulation of an abstract
      queue, with memory safety) and [scheduled_timer_fires] (liveness).
    - Accepting and connecting: [Acceptor.acceptor_serves_queue] (any errors of
      the system, which are fatal exactly where the code makes them so),
      [Client.client_correct], [Sockets.address_roundtrip].
    - Protocols: [Http.http_request_answered] (any segmentation of a request is
      answered once) and [http_bad_request_aborts]; [Codec.codec_roundtrip];
      [Rpc.rpc_calls_answered]; [Inspector.inspector_answers].
    - Threads: [Queues.bounded_queue_correct] (linearisable, no lost wake-up),
      [ThreadPool.thread_pool_in_order] and [thread_pool_comes_to_rest],
      [Threads.event_loop_thread_correct].
    - Logging: [LogStream.log_line_formatted], [LogFile.log_file_in_order] (with
      short writes and files that cannot be opened),
      [Logging.log_statement_written], [AsyncLogging.async_log_in_order].
    - Calendar and process: [Calendar.date_counts_days], [utc_roundtrip],
      [Process.thread_line_of_stat]; [Base.StringPiece.pieces_compare_texts].
    - Users and database: the functional behaviour of [addUser], [loadUsers],
      [loadRelation], [init] and [execute].
    - Sessions and server: [login_behaviour], [register_behaviour],
      [newConnection_registers], and what the code does where it departs from
      its intent: [process_never_dispatches], [disconnect_aborts],
      [unknown_user_passes_login] and others.

    ** Bounds and fuel

    Integers are [Z] with the wrap-around of unsigned types written out
    ([u32], [u64], [s32]); signed overflow is undefined ([int32]).  In two
    places it is given the value compiled code has: [-Value::minInt] of
    [decodeNumber] and [index() + 1] of [Value::size] at [INT_MAX].
    A [StringPiece] has an [int] length: strings that reach the buffer or a
    connection through one are bounded by [INT_MAX] in theorems.
    Loops that are not structural take fuel, and theorems give the fuel that is
    enough: [read_packets] the readable bytes plus one, the parser twice the
    length of the document plus four ([parse_total]), token and string loops
    the length of what is left, [InternalMap] the buckets and links there are,
    [InternalArray] the size of the array.  Models of threads are step relations
    without fuel; [Threads] explores the finitely many states of a loop thread.
    [compress_loop] has none that is enough for
    128 bytes and more ([compress_digits_then_diverges]).

    ** Reading of code that is not standard C++

    BinaryReader.h:32 (a [char] assigned to a pointer) compiles only with
    [-fpermissive] and is read as the assignment it is; Field.cpp does not match
    Field.h and is read as the header's members; the [const_cast] that renames a
    connection is read as an assignment to the name.

    ** Parameters

    libmysqlclient (class [MysqlClient]), the results of system calls, the
    clock, the allocator's addresses, the random session identifiers, the
    iteration order of hash tables, messages and services generated by protobuf,
    [inet_ntop] and its relatives (class [AddressText]) and the files of /proc
    (record [Process.system]) are arguments of the definitions.

    ** Not modelled

    Exceptions with their stack traces as objects, gzip files and zlib streams,
    thread-local storage, weak callbacks and compiler macros of muduo: wrappers
    of a library or of the compiler without logic of their own.
    The performance inspector is compiled only with gperftools and passes on
    what that library prints.  What the program writes to the console is left
    out. *)

From Stdlib Require Export ZArith Lia.
From Stdlib Require Export Strings.Byte Sorting.Sorted.
From stdpp Require Export base tactics numbers list option gmap strings.

(** * Machine integers *)

Declare Scope im_scope.
Delimit Scope im_scope with im.

(** Unsigned wrap-around at [w] bits (C++ conversion to an unsigned type). *)
Definition wrapu (w z : Z) : Z := z mod 2 ^ w.

(** Two's complement conversion to a signed type of [w] bits. *)
Definition wraps (w z : Z) : Z := (z + 2 ^ (w - 1)) mod 2 ^ w - 2 ^ (w - 1).

Notation u32 := (wrapu 32).
Notation u64 := (wrapu 64).
Notation s32 := (wraps 32).
Notation s64 := (wraps 64).

Definition INT_MAX : Z := 2147483647.
Definition INT_MIN : Z := -2147483648.
Definition UINT_MAX : Z := 4294967295.
Definition SIZE_MAX : Z := 18446744073709551615.

(** * Outcomes of C++ code *)

(** How an execution can fail to produce a value: it reaches behaviour the
    language leaves undefined, a failed [assert] (the build has no [NDEBUG]),
    an uncaught exception, or it exhausts the fuel of the model. *)
Inductive fault : Type :=
  | Undefined (what : string)
  | AssertFailed (what : string)
  | Thrown (what : string)
  | OutOfFuel.

Inductive outcome (A : Type) : Type :=
  | Done (a : A)
  | Fault (f : fault).
Arguments Done {A} _.
Arguments Fault {A} _.

#[global] Instance fault_eq_dec : EqDecision fault.
Proof. solve_decision. Defined.

#[global] Instance outcome_eq_dec {A} `{EqDecision A} : EqDecision (outcome A).
Proof. solve_decision. Defined.

#[global] Instance outcome_ret : MRet outcome := @Done.
#[global] Instance outcome_bind : MBind outcome := λ A B k m,
  match m with Done a => k a | Fault f => Fault f end.
#[global] Instance outcome_fmap : FMap outcome := λ A B g m,
  match m with Done a => Done (g a) | Fault f => Fault f end.

(** [assert( b )] *)
Definition cassert (b : bool) (what : string) : outcome unit :=
  if b then Done tt else Fault (AssertFailed what).

(** An operation whose behaviour is undefined unless [b]. *)
Definition defined_if (b : bool) (what : string) : outcome unit :=
  if b then Done tt else Fault (Undefined what).

(** The execution produced a value. *)
Definition is_done {A} (m : outcome A) : bool :=
  match m with Done _ => true | Fault _ => false end.

(** * Signed arithmetic *)

Definition in_int32 (z : Z) : bool := ((INT_MIN <=? z) && (z <=? INT_MAX))%Z.
Definition in_int64 (z : Z) : bool := ((- 2 ^ 63 <=? z) && (z <? 2 ^ 63))%Z.
(** A value computed in [int] or [int64_t]: undefined when it does not fit. *)
Definition int32 (z : Z) : outcome Z := _ ← defined_if (in_int32 z) "int overflow"; Done z.
Definition int64 (z : Z) : outcome Z := _ ← defined_if (in_int64 z) "int64_t overflow"; Done z.

(** * Bytes *)

Notation byte := (Corelib.Init.Byte.byte).
Notation bytes := (list byte).

#[global] Instance byte_eq_dec : EqDecision byte := Byte.byte_eq_dec.

(** [size()] of a string or vector. *)
Notation szof b := (Z.of_nat (length b)).

(** The bytes of a source literal. *)
Definition bs (s : string) : bytes := String.list_byte_of_string s.

#[global] Instance byte_countable : Countable byte :=
  inj_countable Byte.to_N Byte.of_N Byte.of_to_N.

(** [unsigned char] value of a byte, and the byte of an integer. *)
Definition ub (b : byte) : Z := Z.of_N (Byte.to_N b).
Definition of_Z (z : Z) : byte :=
  default x00 (Byte.of_N (Z.to_N (z mod 256))).

(** [char] is signed on the target: the value used by comparisons of [char]. *)
Definition sb (b : byte) : Z := wraps 8 (ub b).

(** A [char] constant of the source. *)
Definition ch (a : Ascii.ascii) : byte := Ascii.byte_of_ascii a.

(** [n] bytes of an integer, least significant first (the target is little
    endian), and the integer they hold. *)
Fixpoint le_bytes (n : nat) (z : Z) : bytes :=
  match n with
  | O => []
  | S n => of_Z z :: le_bytes n (z / 256)
  end.

Fixpoint le_value (l : bytes) : Z :=
  match l with
  | [] => 0
  | b :: l => ub b + 256 * le_value l
  end.

(** Network byte order. *)
Definition be_bytes (n : nat) (z : Z) : bytes := rev (le_bytes n z).
Definition be_value (l : bytes) : Z := le_value (rev l).

(** The C string a byte sequence holds: up to its first NUL. *)
Fixpoint c_str (s : bytes) : bytes :=
  match s with
  | [] => []
  | b :: s => if decide (b = x00) then [] else b :: c_str s
  end.

(** [strcmp( a, b ) < 0], also [std::string::operator<]: both compare as
    [unsigned char]. *)
Fixpoint bytes_lt (a b : bytes) : bool :=
  match a, b with
  | [], [] => false
  | [], _ :: _ => true
  | _ :: _, [] => false
  | x :: a, y :: b =>
      if ub x <? ub y then true
      else if ub y <? ub x then false
      else bytes_lt a b
  end%Z.

(** * Lemmas *)

Create HintDb im.
Ltac im := auto with im.

Lemma bind_done {A B} (m : outcome A) (k : A → outcome B) b :
  mbind k m = Done b ↔ ∃ a, m = Done a ∧ k a = Done b.
Proof. destruct m; cbn; naive_solver. Qed.

Lemma bind_ret_l {A B} (a : A) (k : A → outcome B) : mbind k (Done a) = k a.
Proof. reflexivity. Qed.

(** Case analysis on the binds of a hypothesis that ends in [Done]. *)
Ltac destruct_done H :=
  repeat match type of H with
  | mbind _ _ = Done _ =>
      let a := fresh "a" in let E := fresh "E" in
      apply bind_done in H; destruct H as (a & E & H)
  end.

Lemma cassert_true b what : cassert b what = Done tt ↔ b = true.
Proof. by destruct b. Qed.

Lemma cassert_bind {B} b what (k : unit → outcome B) : b = true → cassert b what ≫= k = k tt.
Proof. by intros ->. Qed.
Lemma defined_if_bind {B} b what (k : unit → outcome B) : b = true → defined_if b what ≫= k = k tt.
Proof. by intros ->. Qed.

Lemma defined_if_true b what : defined_if b what = Done tt ↔ b = true.
Proof. by destruct b. Qed.

Lemma int32_ok z : (INT_MIN ≤ z ≤ INT_MAX)%Z → int32 z = Done z.
Proof.
  intros [H1 H2]. unfold int32, in_int32.
  by rewrite (proj2 (Z.leb_le _ _) H1), (proj2 (Z.leb_le _ _) H2).
Qed.
Lemma int64_ok z : (- 2 ^ 63 ≤ z < 2 ^ 63)%Z → int64 z = Done z.
Proof.
  intros [H1 H2]. unfold int64, in_int64.
  by rewrite (proj2 (Z.leb_le _ _) H1), (proj2 (Z.ltb_lt _ _) H2).
Qed.

Lemma bind_int32 {B} z (k : Z → outcome B) : (INT_MIN ≤ z ≤ INT_MAX)%Z → int32 z ≫= k = k z.
Proof. intros H. by rewrite int32_ok. Qed.

Lemma ub_range b : (0 ≤ ub b < 256)%Z.
Proof.
  unfold ub. pose proof (Byte.to_N_bounded b). lia.
Qed.

Lemma ub_of_Z z : ub (of_Z z) = (z mod 256)%Z.
Proof.
  unfold ub, of_Z.
  pose proof (Z.mod_pos_bound z 256 eq_refl) as Hz.
  destruct (Byte.of_N (Z.to_N (z mod 256))) as [b|] eqn:E; cbn.
  - apply Byte.to_of_N in E. rewrite E. lia.
  - apply Byte.of_N_None_iff in E. lia.
Qed.

Lemma ub_inj a b : ub a = ub b → a = b.
Proof.
  unfold ub. intros H%N2Z.inj.
  pose proof (Byte.of_to_N a) as Ha. pose proof (Byte.of_to_N b) as Hb.
  rewrite H in Ha. congruence.
Qed.

Lemma of_Z_ub b : of_Z (ub b) = b.
Proof.
  apply ub_inj. rewrite ub_of_Z. apply Z.mod_small, ub_range.
Qed.

Lemma length_le_bytes n z : length (le_bytes n z) = n.
Proof. revert z; induction n; intros z; cbn; [done | by rewrite IHn]. Qed.

Lemma le_value_bytes n z :
  le_value (le_bytes n z) = (z mod 256 ^ Z.of_nat n)%Z.
Proof.
  revert z; induction n as [|n IH]; intros z.
  - cbn. by rewrite Z.mod_1_r.
  - cbn [le_bytes le_value]. rewrite IH, ub_of_Z, Nat2Z.inj_succ, Z.pow_succ_r by lia.
    rewrite Z.rem_mul_r; [done | lia |]. apply Z.pow_pos_nonneg; lia.
Qed.

Lemma le_bytes_value l : le_bytes (length l) (le_value l) = l.
Proof.
  induction l as [|b l IH]; [done|].
  cbn [length le_bytes le_value]. pose proof (ub_range b).
  replace ((ub b + 256 * le_value l) / 256)%Z with (le_value l)
    by (apply Z.div_unique with (ub b); lia).
  rewrite IH. f_equal. apply ub_inj. rewrite ub_of_Z.
  symmetry. apply Z.mod_unique with (le_value l); lia.
Qed.

Lemma le_value_range l : (0 ≤ le_value l < 256 ^ Z.of_nat (length l))%Z.
Proof.
  rewrite <-(le_bytes_value l), le_value_bytes, length_le_bytes.
  apply Z.mod_pos_bound. apply Z.pow_pos_nonneg; lia.
Qed.

Lemma length_be_bytes n z : length (be_bytes n z) = n.
Proof. unfold be_bytes. by rewrite length_rev, length_le_bytes. Qed.

Lemma be_value_bytes n z :
  be_value (be_bytes n z) = (z mod 256 ^ Z.of_nat n)%Z.
Proof. unfold be_value, be_bytes. by rewrite rev_involutive, le_value_bytes. Qed.

Lemma wrapu_range w z : (0 ≤ w)%Z → (0 ≤ wrapu w z < 2 ^ w)%Z.
Proof. intros. apply Z.mod_pos_bound, Z.pow_pos_nonneg; lia. Qed.

Lemma wrapu_small w z : (0 ≤ z < 2 ^ w)%Z → wrapu w z = z.
Proof. apply Z.mod_small. Qed.

Lemma wraps_small w z :
  (0 < w)%Z → (- 2 ^ (w - 1) ≤ z < 2 ^ (w - 1))%Z → wraps w z = z.
Proof.
  intros Hw Hz. unfold wraps.
  assert (2 ^ w = 2 * 2 ^ (w - 1))%Z as ->
    by (rewrite <-Z.pow_succ_r by lia; f_equal; lia).
  rewrite Z.mod_small by lia. lia.
Qed.

Lemma wraps_wrapu w z : (0 < w)%Z → wraps w (z mod 2 ^ w) = wraps w z.
Proof. intros. unfold wraps. by rewrite Z.add_mod_idemp_l by (apply Z.pow_nonzero; lia). Qed.

Lemma c_str_idemp s : c_str (c_str s) = c_str s.
Proof. induction s; cbn; [done|]. case_decide; [done|]. cbn. rewrite decide_False by done. congruence. Qed.

Lemma c_str_no_nul s : x00 ∉ c_str s.
Proof.
  induction s as [|b s IH]; cbn; [set_solver|]. case_decide; set_solver.
Qed.

Lemma c_str_id s : x00 ∉ s → c_str s = s.
Proof.
  induction s as [|b s IH]; cbn; [done|]. intros H.
  rewrite decide_False by set_solver. rewrite IH; set_solver.
Qed.

Lemma bytes_lt_irrefl a : bytes_lt a a = false.
Proof. induction a; cbn; [done|]. by rewrite Z.ltb_irrefl. Qed.

Lemma bytes_lt_trans a b c :
  bytes_lt a b = true → bytes_lt b c = true → bytes_lt a c = true.
Proof.
  revert b c; induction a as [|x a IH]; intros [|y b] [|z c]; cbn; try done.
  destruct (Z.ltb_spec (ub x) (ub y)), (Z.ltb_spec (ub y) (ub x)),
    (Z.ltb_spec (ub y) (ub z)), (Z.ltb_spec (ub z) (ub y)),
    (Z.ltb_spec (ub x) (ub z)), (Z.ltb_spec (ub z) (ub x)); intros;
    try done; try lia; eauto.
Qed.

Lemma bytes_lt_total a b :
  bytes_lt a b = false → bytes_lt b a = false → a = b.
Proof.
  revert b; induction a as [|x a IH]; intros [|y b]; cbn; try done.
  destruct (Z.ltb_spec (ub x) (ub y)), (Z.ltb_spec (ub y) (ub x)); intros;
    try done; try lia.
  f_equal; [apply ub_inj; lia | auto].
Qed.

(** ** Sums over maps *)

Definition sum_map {K A} `{Countable K} (f : A → nat) (m : gmap K A) : nat :=
  map_fold (λ _ x n, f x + n)%nat O m.
Definition weigh_option {A} (f : A → nat) (x : option A) : nat := match x with Some x => f x | None => O end.

Lemma sum_map_insert_None {K A} `{Countable K} (f : A → nat) k x (m : gmap K A) :
  m !! k = None → sum_map f (<[k := x]> m) = (f x + sum_map f m)%nat.
Proof. intros Hk. unfold sum_map. rewrite map_fold_insert_L; [done|intros; lia|done]. Qed.
Lemma sum_map_delete {K A} `{Countable K} (f : A → nat) k (m : gmap K A) :
  (sum_map f (delete k m) + weigh_option f (m !! k) = sum_map f m)%nat.
Proof.
  destruct (m !! k) as [x|] eqn:E; cbn; [|rewrite delete_id by done; lia].
  rewrite <-(insert_delete_id m k x E) at 2. rewrite sum_map_insert_None by apply lookup_delete_eq. lia.
Qed.
Lemma sum_map_insert {K A} `{Countable K} (f : A → nat) k x (m : gmap K A) :
  (sum_map f (<[k := x]> m) + weigh_option f (m !! k) = sum_map f m + f x)%nat.
Proof.
  rewrite <-insert_delete_eq, sum_map_insert_None by apply lookup_delete_eq.
  pose proof (sum_map_delete f k m). lia.
Qed.

(** ** Termination by three numbers in lexicographic order *)
Lemma acc_lexicographic {A} (P : A → Prop) (R : A → A → Prop) (a b c : A → nat) :
  (∀ x y, P x → R y x → P y ∧
    (a y < a x ∨ a y ≤ a x ∧ (b y < b x ∨ b y ≤ b x ∧ c y < c x))%nat) →
  ∀ x, P x → Acc R x.
Proof.
  intros Hdec.
  assert (∀ na nb nc x, P x → (a x ≤ na)%nat → (b x ≤ nb)%nat → (c x ≤ nc)%nat → Acc R x) as H.
  { induction na as [na IHa] using lt_wf_ind. induction nb as [nb IHb] using lt_wf_ind.
    induction nc as [nc IHc] using lt_wf_ind. intros x Hx Ha Hb Hc. constructor. intros y Hy.
    destruct (Hdec x y Hx Hy) as [HP [Hlt|[Hle [Hlt|[Hle' Hlt]]]]].
    - eapply (IHa (a y)); (lia || done).
    - eapply (IHb (b y)) with (nc := c y); (lia || done).
    - eapply (IHc (c y)); (lia || done). }
  intros x Hx. by eapply H.
Qed.

#[export] Hint Resolve ub_range bytes_lt_irrefl bytes_lt_trans bytes_lt_total
  c_str_no_nul : im.
#[export] Hint Rewrite length_le_bytes length_be_bytes le_value_bytes be_value_bytes
  ub_of_Z of_Z_ub c_str_idemp bytes_lt_irrefl : im.
