(* ===== verification/StdMap.v ===== *)
(** [std::map] as the containers of the program use it: a sequence of pairs
    with strictly increasing keys, iterated in key order.  The order of the
    keys is a parameter ([KeyOrder]); the instances are [operator<] of
    [std::string] / [strcmp] and of [int].  Each operation is related to
    stdpp's [gmap] by [to_gmap], so that clients reason with lookups. *)

From S2P Require Import Prelude.

(** The comparison object of a [std::map]: a strict total order. *)
Class KeyOrder (K : Type) := {
  key_lt : K → K → bool;
  key_lt_irrefl k : key_lt k k = false;
  key_lt_trans a b c : key_lt a b = true → key_lt b c = true → key_lt a c = true;
  key_lt_total a b : key_lt a b = false → key_lt b a = false → a = b;
}.

#[export] Instance bytes_order : KeyOrder bytes := {|
  key_lt := bytes_lt;
  key_lt_irrefl := bytes_lt_irrefl;
  key_lt_trans := bytes_lt_trans;
  key_lt_total := bytes_lt_total;
|}.

#[export] Program Instance Z_order : KeyOrder Z := {| key_lt := Z.ltb |}.
Next Obligation. intros. apply Z.ltb_irrefl. Qed.
Next Obligation. intros a b c ?%Z.ltb_lt ?%Z.ltb_lt. apply Z.ltb_lt. lia. Qed.
Next Obligation. intros a b ?%Z.ltb_ge ?%Z.ltb_ge. lia. Qed.

Module StdMap.
Section ops.
Context {K V : Type} `{KeyOrder K}.
Implicit Types (m : list (K * V)) (k : K) (v : V).

(** [m.find( k )] *)
Fixpoint find k m : option V :=
  match m with
  | [] => None
  | (k', v) :: m =>
      if key_lt k' k then find k m
      else if key_lt k k' then None else Some v
  end.

(** [m[ k ] = v] *)
Fixpoint assign k v m : list (K * V) :=
  match m with
  | [] => [(k, v)]
  | (k', v') :: m =>
      if key_lt k' k then (k', v') :: assign k v m
      else if key_lt k k' then (k, v) :: (k', v') :: m
      else (k', v) :: m
  end.

(** [m.insert( { k, v } )]: an existing entry stays. *)
Definition insert k v m : list (K * V) :=
  match find k m with Some _ => m | None => assign k v m end.

(** [m[ k ]] on the left: the entry exists afterwards. *)
Definition subscript k (dflt : V) m : list (K * V) := insert k dflt m.

(** [m.erase( k )], with the number of entries it removed. *)
Fixpoint erase k m : list (K * V) * nat :=
  match m with
  | [] => ([], 0)
  | (k', v') :: m' =>
      if key_lt k' k then let '(m'', n) := erase k m' in ((k', v') :: m'', n)
      else if key_lt k k' then (m, 0)
      else (m', 1)
  end.

(** Updates the value of an existing entry through a reference to it. *)
Fixpoint update (g : V → V) k m : list (K * V) :=
  match m with
  | [] => []
  | (k', v) :: m =>
      if key_lt k' k then (k', v) :: update g k m
      else if key_lt k k' then (k', v) :: m
      else (k', g v) :: m
  end.

(** The keys strictly increase: the representation invariant. *)
Definition wf m : Prop :=
  StronglySorted (λ a b, key_lt a.1 b.1 = true) m.
End ops.

(** The finite map a sequence stands for. *)
Definition to_gmap {K V} `{Countable K} (m : list (K * V)) : gmap K V :=
  list_to_map m.

Section lemmas.
Context {K V : Type} `{KeyOrder K}.
Implicit Types (m : list (K * V)) (k : K) (v : V).

Lemma key_lt_asym a b : key_lt a b = true → key_lt b a = false.
Proof.
  intros Hab. destruct (key_lt b a) eqn:Hba; [|done].
  pose proof (key_lt_trans _ _ _ Hab Hba) as E. by rewrite key_lt_irrefl in E.
Qed.

Lemma key_lt_ne a b : key_lt a b = true → a ≠ b.
Proof. intros Hab ->. by rewrite key_lt_irrefl in Hab. Qed.

(** The three-way comparison every operation performs. *)
Lemma key_cases (P : Prop) a b :
  (key_lt a b = true → key_lt b a = false → P) →
  (key_lt a b = false → key_lt b a = true → P) →
  (a = b → key_lt a b = false → key_lt b a = false → P) → P.
Proof.
  intros H1 H2 H3.
  destruct (key_lt a b) eqn:E1, (key_lt b a) eqn:E2; auto.
  - apply key_lt_asym in E1. congruence.
  - apply H3; auto. by apply key_lt_total.
Qed.

Ltac cases a b :=
  apply (key_cases _ a b);
  [ let E1 := fresh "E" in let E2 := fresh "E" in
    intros E1 E2; rewrite ?E1, ?E2
  | let E1 := fresh "E" in let E2 := fresh "E" in
    intros E1 E2; rewrite ?E1, ?E2
  | intros ->; rewrite ?key_lt_irrefl; intros _ _ ].

Lemma wf_nil : wf ([] : list (K * V)).
Proof. constructor. Qed.

Lemma wf_cons k v m :
  wf ((k, v) :: m) ↔ wf m ∧ Forall (λ p, key_lt k p.1 = true) m.
Proof.
  split; [intros Hw; by inversion Hw | intros [? ?]; by constructor].
Qed.

Lemma find_assign_eq k v m : find k (assign k v m) = Some v.
Proof.
  induction m as [|[k' v'] m IH]; cbn; [by rewrite key_lt_irrefl|].
  cases k' k; cbn; rewrite ?E, ?E0, ?key_lt_irrefl; done.
Qed.

Lemma find_assign_ne k k' v m : k ≠ k' → find k (assign k' v m) = find k m.
Proof.
  intros Hne. induction m as [|[k0 v0] m IH]; cbn.
  - apply (key_cases _ k' k); intros; subst; try done; by rewrite ?H0, ?H1.
  - cases k0 k'; cbn.
    + by rewrite IH.
    + destruct (key_lt k' k) eqn:E1; [done|].
      destruct (key_lt k k') eqn:E2.
      * rewrite (key_lt_asym _ _ (key_lt_trans _ _ _ E2 E0)).
        by rewrite (key_lt_trans _ _ _ E2 E0).
      * by apply key_lt_total in E1.
    + apply (key_cases _ k' k); intros; subst; try done; by rewrite ?H0, ?H1.
Qed.

Lemma find_insert k k' v m :
  find k (insert k' v m) =
    match find k m with
    | Some x => Some x
    | None => if key_lt k k' then None else if key_lt k' k then None else Some v
    end.
Proof.
  unfold insert. destruct (find k' m) as [v'|] eqn:E'.
  - destruct (find k m) eqn:E; [done|]. apply (key_cases _ k k'); intros; subst.
    + by rewrite H0.
    + by rewrite H0, H1.
    + congruence.
  - apply (key_cases _ k k'); [intros E1 E2..|intros -> E1 E2]; rewrite ?E1, ?E2.
    + rewrite find_assign_ne by (by apply key_lt_ne). by destruct (find k m).
    + rewrite find_assign_ne by (by apply not_eq_sym, key_lt_ne). by destruct (find k m).
    + by rewrite find_assign_eq, E'.
Qed.

(** Creating an entry does not change what a lookup with the same default
    sees. *)
Lemma find_subscript_default k k' v m :
  default v (find k (subscript k' v m)) = default v (find k m).
Proof.
  unfold subscript. rewrite find_insert. destruct (find k m); [done|].
  cbn. by repeat case_match.
Qed.

Lemma Forall_assign (P : K * V → Prop) k v m :
  P (k, v) → Forall P m → (∀ v', P (k, v') → P (k, v)) → Forall P (assign k v m).
Proof.
  intros Hk Hm HP. induction Hm as [|[k' v'] m Hp Hm IH]; cbn; [by constructor|].
  cases k' k; repeat constructor; eauto.
Qed.

Lemma wf_assign k v m : wf m → wf (assign k v m).
Proof.
  induction m as [|[k' v'] m IH]; cbn; intros Hw.
  - apply wf_cons; split; [apply wf_nil | constructor].
  - apply wf_cons in Hw as [Hw Hf]. cases k' k.
    + apply wf_cons; split; [auto|]. apply Forall_assign; eauto.
    + rewrite !wf_cons. repeat split; auto. constructor; [done|].
      eapply Forall_impl; [exact Hf|]. intros [k0 v0] Hlt; cbn in *.
      eapply key_lt_trans; eauto.
    + by apply wf_cons.
Qed.

Lemma wf_insert k v m : wf m → wf (insert k v m).
Proof. intros Hw. unfold insert. destruct (find k m); auto using wf_assign. Qed.

Lemma Forall_erase (P : K * V → Prop) k m : Forall P m → Forall P (erase k m).1.
Proof.
  induction 1 as [|[k' v'] m Hp Hm IH]; cbn; [constructor|].
  cases k' k; cbn; auto.
  destruct (erase k m) as [m' n]; cbn in *. by constructor.
Qed.

Lemma wf_erase k m : wf m → wf (erase k m).1.
Proof.
  induction m as [|[k' v'] m IH]; cbn; [done|]. intros Hw.
  pose proof Hw as Hw0. apply wf_cons in Hw as [Hw Hf]. cases k' k; cbn; auto.
  pose proof (Forall_erase _ k _ Hf). specialize (IH Hw).
  destruct (erase k m) as [m' n]; cbn in *. by apply wf_cons.
Qed.

(** Keys below every key of a map are not in it. *)
Lemma find_below k m : Forall (λ p, key_lt k p.1 = true) m → find k m = None.
Proof.
  intros Hf. destruct m as [|[k' v'] m]; cbn; [done|].
  inversion Hf as [|?? Hlt ?]; subst; cbn in *.
  by rewrite (key_lt_asym _ _ Hlt), Hlt.
Qed.

Lemma find_erase_eq k m : wf m → find k (erase k m).1 = None.
Proof.
  induction m as [|[k' v'] m IH]; cbn; [done|]. intros [Hw Hf]%wf_cons.
  cases k' k; cbn.
  - specialize (IH Hw). destruct (erase k m); cbn in *. by rewrite E.
  - by rewrite E, E0.
  - by apply find_below.
Qed.

Lemma find_erase_ne k k' m : wf m → k ≠ k' → find k (erase k' m).1 = find k m.
Proof.
  intros Hw Hne. induction m as [|[k0 v0] m IH]; cbn; [done|].
  apply wf_cons in Hw as [Hw Hf]. cases k0 k'; cbn; auto.
  - specialize (IH Hw). destruct (erase k' m); cbn in *. by rewrite IH.
  - apply (key_cases _ k' k); intros; subst; try done.
    + by rewrite H0.
    + rewrite H0, H1. apply find_below. eapply Forall_impl; [exact Hf|].
      intros [k1 v1] Hlt; cbn in *. eapply key_lt_trans; eauto.
Qed.

Lemma erase_count k m :
  (erase k m).2 = match find k m with Some _ => 1 | None => 0 end.
Proof.
  induction m as [|[k' v'] m IH]; cbn; [done|]. cases k' k; cbn; auto.
  destruct (erase k m); cbn in *. done.
Qed.

Lemma erase_absent k m : find k m = None → (erase k m).1 = m.
Proof.
  induction m as [|[k' v'] m IH]; cbn; [done|]. cases k' k; cbn; try done.
  intros Hn. specialize (IH Hn). destruct (erase k m); cbn in *. congruence.
Qed.

Lemma length_erase k m :
  length m = length (erase k m).1 + (erase k m).2.
Proof.
  induction m as [|[k' v'] m IH]; cbn; [done|]. cases k' k; cbn; try lia.
  destruct (erase k m); cbn in *. lia.
Qed.

Lemma erase_sublist k m : (erase k m).1 `sublist_of` m.
Proof.
  induction m as [|[k' v'] m IH]; cbn; [constructor|]. cases k' k; cbn; [|done|by constructor].
  destruct (erase k m); cbn in *. by constructor.
Qed.

Lemma length_insert k v m : find k m = None → length (insert k v m) = S (length m).
Proof.
  unfold insert. intros H1. rewrite H1. revert H1.
  induction m as [|[k' v'] m IH]; cbn; [done|]. cases k' k; intros Hf; cbn; [by rewrite IH|done|done].
Qed.

Lemma find_insert_fresh `{EqDecision K} k k' v m :
  find k' m = None → find k (insert k' v m) = if decide (k = k') then Some v else find k m.
Proof.
  intros Hn. unfold insert. rewrite Hn. case_decide as Hk.
  - subst. apply find_assign_eq.
  - by apply find_assign_ne.
Qed.

Lemma find_elem k v m : find k m = Some v → (k, v) ∈ m.
Proof.
  induction m as [|[k' v'] m IH]; cbn; [done|]. cases k' k; cbn; rewrite elem_of_cons; try done.
  - auto.
  - intros [= ->]. by left.
Qed.

Lemma find_not_key (P : K → Prop) k m : Forall (λ p, P p.1) m → ¬ P k → find k m = None.
Proof.
  intros Hf Hk. destruct (find k m) as [v|] eqn:E; [|done]. apply find_elem in E.
  by pose proof (proj1 (Forall_forall _ _) Hf _ E).
Qed.

Lemma find_In k v m : wf m → find k m = Some v ↔ (k, v) ∈ m.
Proof.
  induction m as [|[k' v'] m IH]; cbn; intros Hw.
  - split; [done|]. by intros ?%elem_of_nil.
  - pose proof Hw as [Hw' Hf]%wf_cons. rewrite elem_of_cons. cases k' k.
    + rewrite IH by done. split; [auto|]. intros [[= -> ->]|?]; [|done].
      by rewrite key_lt_irrefl in E.
    + split; [done|]. intros [[= -> ->]|Hin]; [by rewrite key_lt_irrefl in E0|].
      rewrite Forall_forall in Hf. apply Hf in Hin; cbn in Hin. congruence.
    + split; [intros [= ->]; auto|]. intros [[= ->]|Hin]; [done|].
      rewrite Forall_forall in Hf. apply Hf in Hin; cbn in Hin.
      by rewrite key_lt_irrefl in Hin.
Qed.

Lemma find_cons `{EqDecision K} k k' v m :
  wf ((k', v) :: m) → find k ((k', v) :: m) = if decide (k = k') then Some v else find k m.
Proof.
  intros [Hw Hf]%wf_cons. cbn. cases k' k.
  - by rewrite decide_False by (apply not_eq_sym, key_lt_ne, E).
  - rewrite decide_False by (apply key_lt_ne, E0). symmetry. apply find_below.
    eapply Forall_impl; [exact Hf|]. intros [k1 v1] Hlt; cbn in *. eapply key_lt_trans; eauto.
  - by rewrite decide_True.
Qed.

Lemma wf_fst_NoDup m : wf m → NoDup m.*1.
Proof.
  induction m as [|[k v] m IH]; cbn; [constructor|].
  intros [Hw Hf]%wf_cons. constructor; [|auto].
  intros ([k' v'] & -> & Hin)%list_elem_of_fmap.
  rewrite Forall_forall in Hf. apply Hf in Hin. cbn in Hin.
  by rewrite key_lt_irrefl in Hin.
Qed.

Lemma find_update_eq g k m : find k (update g k m) = g <$> find k m.
Proof.
  induction m as [|[k' v'] m IH]; cbn; [done|].
  cases k' k; cbn; rewrite ?E, ?E0, ?key_lt_irrefl; done.
Qed.

Lemma find_update_ne g k k' m : k ≠ k' → find k (update g k' m) = find k m.
Proof.
  intros Hne. induction m as [|[k0 v0] m IH]; cbn; [done|].
  cases k0 k'; cbn; try done.
  - by rewrite IH.
  - subst. apply (key_cases _ k' k); intros; subst; try done;
      repeat match goal with H : key_lt _ _ = _ |- _ => rewrite H end; done.
Qed.

Lemma update_keys g k m : (update g k m).*1 = m.*1.
Proof.
  induction m as [|[k' v] m IH]; cbn; [done|]. cases k' k; cbn; by rewrite ?IH.
Qed.

Lemma wf_update g k m : wf m → wf (update g k m).
Proof.
  induction m as [|[k' v] m IH]; cbn; intros Hw; [done|]. apply wf_cons in Hw as [Hw Hf].
  assert (Hf' : Forall (λ p, key_lt k' p.1 = true) (update g k m)).
  { change (Forall ((λ x, key_lt k' x = true) ∘ fst) (update g k m)).
    rewrite <-Forall_fmap, update_keys, Forall_fmap. exact Hf. }
  cases k' k; apply wf_cons; auto.
Qed.

Lemma update_ext g h k m :
  (∀ v, find k m = Some v → g v = h v) → update g k m = update h k m.
Proof.
  induction m as [|[k' v'] m IH]; cbn; [done|].
  cases k' k; cbn; intros Hgh; f_equal; auto. by rewrite Hgh.
Qed.

Lemma update_update g h k m : update g k (update h k m) = update (g ∘ h) k m.
Proof.
  induction m as [|[k' v'] m IH]; cbn; [done|].
  cases k' k; cbn; rewrite ?E, ?E0, ?key_lt_irrefl; congruence.
Qed.

Lemma update_assign g k v m : update g k (assign k v m) = assign k (g v) m.
Proof.
  induction m as [|[k' v'] m IH]; cbn; [by rewrite key_lt_irrefl|].
  cases k' k; cbn; rewrite ?E, ?E0, ?key_lt_irrefl; congruence.
Qed.

(** Appending a greatest key is the common case of building a map in
    iteration order. *)
Lemma assign_snoc k v m :
  Forall (λ p, key_lt p.1 k = true) m → assign k v m = m ++ [(k, v)].
Proof.
  induction 1 as [|[k' v'] m Hlt _ IH]; cbn in *; [done|]. by rewrite Hlt, IH.
Qed.

Lemma find_above k m : Forall (λ p, key_lt p.1 k = true) m → find k m = None.
Proof.
  induction 1 as [|[k' v'] m Hlt _ IH]; cbn in *; [done|]. by rewrite Hlt.
Qed.

Lemma wf_snoc k v m :
  wf (m ++ [(k, v)]) ↔ wf m ∧ Forall (λ p, key_lt p.1 k = true) m.
Proof.
  induction m as [|[k' v'] m IH]; cbn.
  - split; [repeat constructor|]. intros _. repeat constructor.
  - rewrite !wf_cons, IH, Forall_app, Forall_singleton, Forall_cons. cbn.
    naive_solver.
Qed.
End lemmas.

(** ** Refinement to finite maps *)
Section refinement.
Context {K V : Type} `{KeyOrder K, EqDecision K, !Countable K}.
Implicit Types (m : list (K * V)) (k : K) (v : V).

Lemma lookup_to_gmap m k : wf m → to_gmap m !! k = find k m.
Proof.
  intros Hw. unfold to_gmap. apply option_eq. intros v.
  rewrite <-elem_of_list_to_map by (by apply wf_fst_NoDup).
  symmetry. by apply find_In.
Qed.

Lemma to_gmap_assign k v m :
  wf m → to_gmap (assign k v m) = <[k := v]> (to_gmap m).
Proof.
  intros Hw. apply map_eq. intros i.
  rewrite lookup_to_gmap by auto using wf_assign.
  destruct (decide (i = k)) as [->|].
  - by rewrite find_assign_eq, lookup_insert_eq.
  - by rewrite find_assign_ne, lookup_insert_ne, lookup_to_gmap by done.
Qed.

Lemma to_gmap_insert k v m :
  wf m → find k m = None → to_gmap (insert k v m) = <[k := v]> (to_gmap m).
Proof. intros Hw E. unfold insert. rewrite E. by apply to_gmap_assign. Qed.

Lemma to_gmap_erase k m :
  wf m → to_gmap (erase k m).1 = delete k (to_gmap m).
Proof.
  intros Hw. apply map_eq. intros i.
  rewrite lookup_to_gmap by auto using wf_erase.
  destruct (decide (i = k)) as [->|].
  - by rewrite find_erase_eq, lookup_delete_eq.
  - by rewrite find_erase_ne, lookup_delete_ne, lookup_to_gmap by done.
Qed.
Lemma to_gmap_update g k m :
  wf m → to_gmap (update g k m) = alter g k (to_gmap m).
Proof.
  intros Hw. apply map_eq. intros i. rewrite lookup_to_gmap by auto using wf_update.
  destruct (decide (i = k)) as [->|Hne].
  - by rewrite find_update_eq, lookup_alter_eq, lookup_to_gmap.
  - by rewrite find_update_ne, lookup_alter_ne, lookup_to_gmap by done.
Qed.

Lemma to_gmap_size m : wf m → size (to_gmap m) = length m.
Proof.
  induction m as [|[k v] m IH]; intros Hw; [apply map_size_empty|]. apply wf_cons in Hw as [Hw Hf].
  change (to_gmap ((k, v) :: m)) with (<[k := v]> (to_gmap m)).
  rewrite map_size_insert_None, IH by (done || by rewrite lookup_to_gmap, find_below). done.
Qed.
End refinement.
End StdMap.

#[export] Hint Resolve StdMap.wf_nil StdMap.wf_assign StdMap.wf_insert
  StdMap.wf_erase : im.
