(* ===== verification/BinaryIO.v ===== *)
(** The packet reader and writer of the chat protocol (BinaryReader.h/.cpp,
    BinaryWriter.h/.cpp).  A typed object [T] is the list of its bytes; only
    its size enters the control flow. *)

From S2P Require Import Prelude.
Local Open Scope Z_scope.

Notation szof b := (Z.of_nat (length b)).

Module BinaryReader.
(** [_msg] and [_index]. *)
Record t := mk { msg : bytes; index : Z }.

(** [BinaryReader( const string& msg )] *)
Definition make (m : bytes) : t := mk m 0.

Definition setMsg (m : bytes) (r : t) : t := mk m 0.
Definition reset (r : t) : t := mk (msg r) 0.
Definition size (r : t) : Z := szof (msg r).

(** The offset into [c_str()] that iteration [i] of the copy loop reads:
    [_index + sizeof(T) - (i - 1)], where [i - 1] is computed in [size_t]. *)
Definition read_offset (idx n i : Z) : Z := u64 (u64 idx + n - u64 (i - 1)).

(** The loop of [readData<T>].  It assigns each character to the pointer
    [pData] and never to what [pData] points to, so the only effect of an
    iteration is its read; a read past the terminating NUL is undefined. *)
Fixpoint read_loop (m : bytes) (idx n : Z) (iters : nat) (i : Z) : outcome unit :=
  match iters with
  | O => Done tt
  | S iters =>
      _ ← defined_if (read_offset idx n i <=? szof m) "BinaryReader: read past the message";
      read_loop m idx n iters (i + 1)
  end.

(** [template<class T> bool readData( T& data )], [n = sizeof(T)]. *)
Definition readData (n : Z) (data : bytes) (r : t) : outcome (bool * bytes * t) :=
  if u64 (u64 (index r) + n) >? size r then Done (false, data, r)
  else
    _ ← read_loop (msg r) (index r) n (Z.to_nat n) 0;
    Done (true, data, mk (msg r) (s32 (index r + n))).

(** [bool readData( std::string& data )]: [memcpy] of [data.size()] bytes, with
    no check that the message holds them. *)
Definition readString (data : bytes) (r : t) : outcome (bool * bytes * t) :=
  let n := szof data in
  _ ← defined_if ((0 <=? index r) && (index r + n <=? size r + 1))
        "BinaryReader: memcpy past the message";
  let src := take (length data) (drop (Z.to_nat (index r)) (msg r ++ [x00])) in
  Done (true, src, mk (msg r) (s32 (index r + n))).

(** [operator=]: the second assignment converts [reader._index] to a character
    and overwrites the message copied by the first. *)
Definition operator_assign (same_object : bool) (self reader : t) : t :=
  if same_object then self else mk [of_Z (index reader)] (index self).

(** One hexadecimal digit of [printf( "%02X " )]. *)
Definition hex_digit (d : Z) : byte := if d <? 10 then of_Z (48 + d) else of_Z (55 + d).

(** [dump]: what it prints. *)
Fixpoint dump_from (i : Z) (buf : bytes) : bytes :=
  match buf with
  | [] => bs (String (Ascii.ascii_of_nat 13) (String (Ascii.ascii_of_nat 10) ""))
  | b :: buf =>
      (if negb (i =? 0) && (i mod 16 =? 0) then [x0d; x0a] else []) ++
      [hex_digit (ub b / 16); hex_digit (ub b mod 16); x20] ++ dump_from (i + 1) buf
  end.
Definition dump (buf : bytes) : bytes := dump_from 0 buf.

(** The [BinaryReader] invariant: the read position is inside the message. *)
Definition wf (r : t) : Prop := 0 ≤ index r ≤ size r ∧ size r ≤ INT_MAX.
End BinaryReader.

Module BinaryWriter.
(** [_msg] and [_index] (a [uint32_t]). *)
Record t := mk { msg : bytes; index : Z }.

Definition empty : t := mk [] 0.

(** [std::string::resize] *)
Definition str_resize (n : Z) (s : bytes) : bytes := resize (Z.to_nat n) x00 s.

(** [memcpy] onto the start of a string. *)
Definition copy_to_front (d s : bytes) : bytes := d ++ drop (length d) s.

(** [template<class T> bool writeData( T& data )]: [data] are the bytes of the
    object.  The copy goes to [_msg.c_str()], not to the old [_index]. *)
Definition writeData (data : bytes) (w : t) : bool * t :=
  let m := str_resize (index w + szof data) (msg w) in
  (true, mk (copy_to_front data m) (u32 (index w + szof data))).

(** The loop of [compress]: [for( size_t i = 4; i >= 0; i-- )]. The condition
    is always true, so the loop is left only by a fault. *)
Fixpoint compress_loop (fuel : nat) (i len : Z) (out : bytes) : outcome bytes :=
  match fuel with
  | O => Fault OutOfFuel
  | S fuel =>
      let sh := u64 (7 * i) in
      _ ← defined_if (sh <? 64) "BinaryWriter::compress: shift count";
      let c := Z.land (Z.shiftr len sh) 127 in
      if (c =? 0) && (szof out =? 0) then compress_loop fuel (u64 (i - 1)) len out
      else
        let c := if 0 <? i then Z.lor c 128 else c in
        compress_loop fuel (u64 (i - 1)) len (out ++ [of_Z c])
  end.

(** [compress( size_t len, string& out )].  Six iterations reach the fault. *)
Definition compress (len : Z) (out : bytes) : outcome bytes :=
  if len <? 128 then Done (out ++ [of_Z (Z.land len 127)])
  else compress_loop 6 4 len out.

(** [bool writeData( std::string& data )] *)
Definition writeString (data : bytes) (w : t) : outcome (bool * t) :=
  out ← compress (szof data) [];
  let w := mk (msg w ++ out) (u32 (index w + szof out)) in
  let w := if 0 <? szof data
           then mk (msg w ++ data) (u32 (index w + szof data)) else w in
  Done (false, w).

Definition size (w : t) : Z := index w.
Definition getMsg (w : t) : bytes := msg w.
Definition clear (w : t) : t := mk [] 0.

(** [_index] counts the bytes of [_msg]. *)
Definition wf (w : t) : Prop := index w = szof (msg w) ∧ szof (msg w) < 2 ^ 32.
End BinaryWriter.

(** ** The base-128 length prefix [compress] is written to produce *)

(** Reference: the base-128 digits of [n], most significant first, with the
    continuation bit on all but the last. *)
Fixpoint varint_cont (k : nat) (n : Z) : bytes :=
  match k with
  | O => []
  | S k => if n =? 0 then [] else varint_cont k (n / 128) ++ [of_Z (n mod 128 + 128)]
  end.
Definition varint (n : Z) : bytes := varint_cont 4 (n / 128) ++ [of_Z (n mod 128)].

Fixpoint varint_value_from (acc : Z) (l : bytes) : Z :=
  match l with
  | [] => acc
  | b :: l => varint_value_from (acc * 128 + ub b mod 128) l
  end.
Definition varint_value (l : bytes) : Z := varint_value_from 0 l.

(** * BinaryReader *)

Lemma u64_small z : 0 ≤ z < 2 ^ 64 → u64 z = z.
Proof. apply Z.mod_small. Qed.

Lemma s32_small z : INT_MIN ≤ z ≤ INT_MAX → s32 z = z.
Proof. unfold INT_MIN, INT_MAX. intros. apply wraps_small; lia. Qed.

Lemma read_offset_eq idx n i :
  0 ≤ idx ≤ INT_MAX → 0 ≤ i ≤ n → n < 2 ^ 31 →
  BinaryReader.read_offset idx n i = idx + n + 1 - i.
Proof.
  unfold BinaryReader.read_offset, INT_MAX. intros.
  rewrite (u64_small idx) by lia.
  destruct (decide (i = 0)) as [->|].
  - change (u64 (0 - 1)) with (2 ^ 64 - 1). unfold wrapu.
    symmetry. apply Z.mod_unique with (-1); lia.
  - rewrite (u64_small (i - 1)) by lia. rewrite u64_small by lia. lia.
Qed.

(** The first iteration decides: it reads the highest offset. *)
Lemma read_loop_done m idx n iters i :
  0 ≤ idx ≤ INT_MAX → n < 2 ^ 31 → 0 ≤ i → i + Z.of_nat iters ≤ n →
  idx + n + 1 - i ≤ szof m →
  BinaryReader.read_loop m idx n iters i = Done tt.
Proof.
  revert i. induction iters as [|k IH]; intros i Hidx Hn Hi Hk Hm; cbn [BinaryReader.read_loop]; [done|].
  rewrite read_offset_eq by lia.
  rewrite (proj2 (Z.leb_le _ _)) by lia. cbn.
  apply IH; lia.
Qed.

Lemma read_loop_fault m idx n iters :
  0 ≤ idx ≤ INT_MAX → 0 < n < 2 ^ 31 → (0 < iters)%nat → szof m ≤ idx + n →
  BinaryReader.read_loop m idx n iters 0 =
    Fault (Undefined "BinaryReader: read past the message").
Proof.
  destruct iters as [|k]; [lia|]. intros. cbn [BinaryReader.read_loop].
  rewrite read_offset_eq by lia.
  by rewrite (proj2 (Z.leb_gt _ _)) by lia.
Qed.

(** The three outcomes of [readData<T>] on a well-formed reader. *)
Lemma readData_spec n data r :
  BinaryReader.wf r → 0 < n < 2 ^ 31 →
  BinaryReader.readData n data r =
    if BinaryReader.size r <? BinaryReader.index r + n then Done (false, data, r)
    else if BinaryReader.size r =? BinaryReader.index r + n
    then Fault (Undefined "BinaryReader: read past the message")
    else Done (true, data, BinaryReader.mk (BinaryReader.msg r) (BinaryReader.index r + n)).
Proof.
  intros [Hi Hs] Hn. unfold BinaryReader.readData. unfold BinaryReader.size, INT_MAX in *.
  rewrite (u64_small (BinaryReader.index r)) by lia. rewrite u64_small by lia.
  rewrite Z.gtb_ltb.
  destruct (Z.ltb_spec (szof (BinaryReader.msg r)) (BinaryReader.index r + n)); [done|].
  destruct (Z.eqb_spec (szof (BinaryReader.msg r)) (BinaryReader.index r + n)).
  - rewrite read_loop_fault; unfold INT_MAX; try lia; done.
  - rewrite read_loop_done; unfold INT_MAX; try lia.
    cbn. rewrite s32_small by (unfold INT_MIN, INT_MAX; lia). done.
Qed.

(** The reader stays well-formed as long as it does not fault. *)
Lemma readData_wf n data r ok data' r' :
  BinaryReader.wf r → 0 < n < 2 ^ 31 →
  BinaryReader.readData n data r = Done (ok, data', r') →
  BinaryReader.wf r' ∧ data' = data ∧ BinaryReader.msg r' = BinaryReader.msg r.
Proof.
  intros Hr Hn. rewrite readData_spec by done. destruct Hr as [Hi Hs].
  unfold BinaryReader.wf, BinaryReader.size in *.
  repeat case_match; intros; simplify_eq; cbn; repeat split; lia.
Qed.

(** * BinaryWriter *)

Lemma length_str_resize n s : 0 ≤ n → szof (BinaryWriter.str_resize n s) = n.
Proof. intros. unfold BinaryWriter.str_resize. rewrite length_resize. lia. Qed.

Lemma length_copy_to_front d s :
  (length d ≤ length s)%nat → length (BinaryWriter.copy_to_front d s) = length s.
Proof. intros. unfold BinaryWriter.copy_to_front. rewrite length_app, length_drop. lia. Qed.

Lemma writeData_length data w :
  0 ≤ BinaryWriter.index w →
  szof (BinaryWriter.msg (BinaryWriter.writeData data w).2) = BinaryWriter.index w + szof data.
Proof.
  intros Hi. cbn.
  pose proof (length_str_resize (BinaryWriter.index w + szof data) (BinaryWriter.msg w)).
  rewrite length_copy_to_front; lia.
Qed.

Lemma writeData_wf data w :
  BinaryWriter.wf w → BinaryWriter.index w + szof data < 2 ^ 32 →
  BinaryWriter.wf (BinaryWriter.writeData data w).2.
Proof.
  intros [Hi Hm] Hlt. split.
  - rewrite writeData_length by lia. cbn. apply wrapu_small. lia.
  - rewrite writeData_length by lia. done.
Qed.

Lemma land_127 z : Z.land z 127 = z mod 128.
Proof. change 127 with (Z.ones 7). by rewrite Z.land_ones. Qed.

Lemma lor_128 z : 0 ≤ z < 128 → Z.lor z 128 = z + 128.
Proof.
  intros Hz. rewrite <-Z.add_nocarry_lor; [done|].
  rewrite <-(Z.mod_small z 128), <-land_127 by done.
  rewrite <-Z.land_assoc. by rewrite Z.land_0_r.
Qed.

(** One iteration of the loop at an index below the word size. *)
Lemma compress_step fuel i len out :
  0 ≤ i ≤ 4 →
  BinaryWriter.compress_loop (S fuel) i len out =
    let d := (len / 2 ^ (7 * i)) mod 128 in
    BinaryWriter.compress_loop fuel (u64 (i - 1)) len
      (if (d =? 0) && (szof out =? 0) then out
       else out ++ [of_Z (if 0 <? i then d + 128 else d)]).
Proof.
  intros Hi. cbn [BinaryWriter.compress_loop].
  rewrite (u64_small (7 * i)) by lia.
  rewrite (proj2 (Z.ltb_lt (7 * i) 64)) by lia. cbn [defined_if mbind outcome_bind].
  rewrite Z.shiftr_div_pow2, land_127 by lia.
  pose proof (Z.mod_pos_bound (len / 2 ^ (7 * i)) 128 eq_refl).
  rewrite (lor_128 (_ mod 128)) by lia.
  cbn zeta. by case_match.
Qed.

(** At the wrapped index the shift count exceeds the word size. *)
Lemma compress_wrapped fuel len out :
  BinaryWriter.compress_loop (S fuel) SIZE_MAX len out =
    Fault (Undefined "BinaryWriter::compress: shift count").
Proof. reflexivity. Qed.

Lemma emit_nonempty (out : bytes) b : (szof (out ++ [b]) =? 0) = false.
Proof. rewrite length_app. cbn. apply Z.eqb_neq. lia. Qed.

(** After the first digit every iteration emits one. *)
Ltac emit_all :=
  repeat first [ rewrite emit_nonempty | rewrite andb_false_r | rewrite app_nil_l
               | progress change (szof (@nil byte) =? 0) with true
               | progress cbn [andb] ].

(** The first five iterations append exactly the base-128 form of the length;
    then the index wraps. *)
Lemma compress_five fuel len :
  128 ≤ len < 2 ^ 35 →
  BinaryWriter.compress_loop (5 + fuel) 4 len [] =
    BinaryWriter.compress_loop fuel SIZE_MAX len (varint len).
Proof.
  intros Hlen. cbn [Nat.add].
  do 5 (rewrite compress_step by lia; cbn zeta;
        match goal with |- context [u64 ?i] =>
          let v := eval vm_compute in (u64 i) in change (u64 i) with v end).
  change (0 <? 4) with true; change (0 <? 3) with true; change (0 <? 2) with true;
    change (0 <? 1) with true; change (0 <? 0) with false; cbn match.
  unfold varint. cbn [varint_cont].
  change (7 * 4) with (7 + 7 + 7 + 7). change (7 * 3) with (7 + 7 + 7).
  change (7 * 2) with (7 + 7). change (7 * 1) with 7. change (2 ^ (7 * 0)) with 1.
  rewrite !Z.pow_add_r by lia. change (2 ^ 7) with 128.
  rewrite <-!Z.div_div by lia. rewrite Z.div_1_r.
  set (q1 := len / 128). set (q2 := q1 / 128). set (q3 := q2 / 128). set (q4 := q3 / 128).
  assert (0 ≤ q4 < 128) by (subst q4 q3 q2 q1; rewrite !Z.div_div by lia;
    split; [apply Z.div_pos; lia | apply Z.div_lt_upper_bound; lia]).
  assert (Hd : ∀ q, q = 128 * (q / 128) + q mod 128) by (intros; apply Z.div_mod; lia).
  assert (1 ≤ q1) by (apply Z.div_le_lower_bound; lia).
  assert (Hb : ∀ q, q = 128 * 0 + q mod 128 → q mod 128 = q) by lia.
  assert (Hp : ∀ q, 0 ≤ q mod 128) by (intros; apply Z.mod_pos_bound; lia).
  pose proof (Hp q1); pose proof (Hp q2); pose proof (Hp q3).
  pose proof (Hd q1) as Q1. pose proof (Hd q2) as Q2. pose proof (Hd q3) as Q3.
  fold q2 in Q1. fold q3 in Q2. fold q4 in Q3.
  rewrite (Z.mod_small q4) by lia. rewrite (proj2 (Z.eqb_neq q1 0)) by lia.
  clearbody q1 q2 q3 q4. cbn [length].
  destruct (Z.eqb_spec q4 0) as [->|]; cbn [andb];
    [rewrite (Hb _ Q3) | rewrite (proj2 (Z.eqb_neq q3 0)) by lia;
       rewrite (proj2 (Z.eqb_neq q2 0)) by lia; emit_all; rewrite <-?app_assoc];
    [|done].
  destruct (Z.eqb_spec q3 0) as [->|]; cbn [andb];
    [rewrite (Hb _ Q2) |
       rewrite (proj2 (Z.eqb_neq q2 0)) by lia; emit_all; rewrite <-?app_assoc]; [|done].
  destruct (Z.eqb_spec q2 0) as [->|]; cbn [andb];
    [rewrite (Hb _ Q1) | emit_all; rewrite <-?app_assoc]; [|done].
  rewrite (proj2 (Z.eqb_neq q1 0)) by lia. emit_all. done.
Qed.

(** Every length of 128 or more reaches the shift by [SIZE_MAX * 7]. *)
Lemma compress_wraps fuel len out0 :
  ∃ out, BinaryWriter.compress_loop (5 + fuel) 4 len out0 =
         BinaryWriter.compress_loop fuel SIZE_MAX len out.
Proof.
  cbn [Nat.add].
  do 5 (rewrite compress_step by lia; cbn zeta;
        match goal with |- context [u64 ?i] =>
          let v := eval vm_compute in (u64 i) in change (u64 i) with v end).
  eauto.
Qed.

Lemma compress_small len : 0 ≤ len < 128 → BinaryWriter.compress len [] = Done [of_Z len].
Proof.
  intros. unfold BinaryWriter.compress. rewrite (proj2 (Z.ltb_lt _ _)) by lia.
  rewrite land_127, Z.mod_small by lia. done.
Qed.

Lemma compress_large len :
  128 ≤ len → BinaryWriter.compress len [] =
    Fault (Undefined "BinaryWriter::compress: shift count").
Proof.
  intros. unfold BinaryWriter.compress. rewrite (proj2 (Z.ltb_ge _ _)) by lia.
  change 6%nat with (5 + 1)%nat.
  destruct (compress_wraps 1 len []) as [out ->]. apply compress_wrapped.
Qed.

(** [writeData( std::string& )] on short and on long strings. *)
Lemma writeString_short data w :
  szof data < 128 →
  BinaryWriter.writeString data w =
    Done (false, BinaryWriter.mk (BinaryWriter.msg w ++ of_Z (szof data) :: data)
                   (u32 (BinaryWriter.index w + 1 + szof data))).
Proof.
  intros Hd. unfold BinaryWriter.writeString. rewrite compress_small by lia.
  cbn -[Z.of_nat wrapu Z.ltb]. rewrite <-app_assoc.
  destruct (Z.ltb_spec 0 (szof data)); destruct data as [|b data]; cbn [length] in *; try lia;
    cbn -[Z.of_nat wrapu].
  - unfold wrapu at 1 2. rewrite Z.add_mod_idemp_l by done.
    cbn [length]. done.
  - change (Z.of_nat 0) with 0. by rewrite Z.add_0_r.
Qed.

Lemma writeString_long data w :
  128 ≤ szof data →
  BinaryWriter.writeString data w =
    Fault (Undefined "BinaryWriter::compress: shift count").
Proof. intros. unfold BinaryWriter.writeString. by rewrite compress_large. Qed.

Lemma writeString_wf data w w' ok :
  BinaryWriter.wf w → szof (BinaryWriter.msg w) + szof data + 1 < 2 ^ 32 →
  BinaryWriter.writeString data w = Done (ok, w') → BinaryWriter.wf w'.
Proof.
  intros [Hi Hm] Hlt Hw. destruct (decide (szof data < 128)).
  - rewrite writeString_short in Hw by done. simplify_eq. split; cbn -[Z.of_nat wrapu].
    + rewrite wrapu_small; rewrite ?length_app; cbn [length]; lia.
    + rewrite length_app; cbn [length]; lia.
  - rewrite writeString_long in Hw by lia. done.
Qed.

Lemma varint_value_app acc a b :
  varint_value_from acc (a ++ b) = varint_value_from (varint_value_from acc a) b.
Proof. revert acc; induction a; intros; cbn; auto. Qed.

Lemma varint_cont_value k n :
  0 ≤ n < 128 ^ Z.of_nat k → varint_value_from 0 (varint_cont k n) = n.
Proof.
  revert n. induction k as [|k IH]; intros n Hn; [cbn in *; lia|].
  cbn [varint_cont]. rewrite Nat2Z.inj_succ, Z.pow_succ_r in Hn by lia.
  destruct (Z.eqb_spec n 0) as [->|]; [done|].
  rewrite varint_value_app, IH
    by (split; [apply Z.div_pos; lia | apply Z.div_lt_upper_bound; lia]).
  cbn [varint_value_from]. rewrite ub_of_Z.
  rewrite (Z.mod_small (_ + 128)) by (pose proof (Z.mod_pos_bound n 128); lia).
  rewrite <-Z.add_mod_idemp_r by done. change (128 mod 128) with 0.
  rewrite Z.add_0_r, Z.mod_mod by done.
  pose proof (Z.div_mod n 128). lia.
Qed.

Lemma varint_value_eq n : 0 ≤ n < 2 ^ 35 → varint_value (varint n) = n.
Proof.
  intros Hn. unfold varint_value, varint.
  rewrite varint_value_app, varint_cont_value.
  - cbn [varint_value_from]. rewrite ub_of_Z.
    rewrite (Z.mod_small (n mod 128) 256) by (pose proof (Z.mod_pos_bound n 128); lia).
    rewrite Z.mod_mod by done. pose proof (Z.div_mod n 128). lia.
  - split; [apply Z.div_pos; lia | apply Z.div_lt_upper_bound; lia].
Qed.

#[export] Hint Rewrite land_127 length_str_resize : im.
#[export] Hint Resolve writeData_wf : im.

(** * Properties *)

(** [readData<T>] never stores into its argument.  On a well-formed reader
    it fails when fewer than [n] bytes remain, reads past the terminating NUL
    when exactly [n] remain, and otherwise leaves [data] as it was and only
    advances the index. *)
Theorem readData_never_stores n data r :
  BinaryReader.wf r → 0 < n < 2 ^ 31 →
  BinaryReader.readData n data r =
    (if BinaryReader.size r <? BinaryReader.index r + n then Done (false, data, r)
     else if BinaryReader.size r =? BinaryReader.index r + n
     then Fault (Undefined "BinaryReader: read past the message")
     else Done (true, data, BinaryReader.mk (BinaryReader.msg r) (BinaryReader.index r + n))).
Proof. apply readData_spec. Qed.

Lemma readData_never_stores_witness :
  BinaryReader.readData 4 (le_bytes 4 (-1)) (BinaryReader.make (le_bytes 4 1000 ++ le_bytes 4 1)) =
    Done (true, le_bytes 4 (-1), BinaryReader.mk (le_bytes 4 1000 ++ le_bytes 4 1) 4).
Proof.
  rewrite readData_never_stores; [reflexivity| |lia].
  split; unfold BinaryReader.size, INT_MAX; cbn; lia.
Defined.

(** The length prefix of [compress]: one byte below 128.  From 128 on the
    first five iterations produce the base-128 digits, most significant first
    with continuation bits, of a length below 2^35, which decode to it; but
    the loop counter is unsigned, so the loop goes on to a shift by more than
    the word size and never returns a result. *)
Theorem compress_digits_then_diverges len :
  0 ≤ len < 2 ^ 35 →
  varint_value (varint len) = len ∧
  if len <? 128 then BinaryWriter.compress len [] = Done (varint len)
  else (∀ fuel, BinaryWriter.compress_loop (5 + fuel) 4 len [] =
                  BinaryWriter.compress_loop fuel SIZE_MAX len (varint len)) ∧
       BinaryWriter.compress len [] = Fault (Undefined "BinaryWriter::compress: shift count").
Proof.
  intros Hl. split; [by apply varint_value_eq|].
  destruct (Z.ltb_spec len 128).
  - rewrite compress_small by lia. unfold varint. rewrite Z.div_small, Z.mod_small by lia. done.
  - split; [intros fuel; apply compress_five; lia | by apply compress_large].
Qed.

Lemma compress_digits_then_diverges_witness :
  varint_value (varint 300) = 300 ∧
  (∀ fuel, BinaryWriter.compress_loop (5 + fuel) 4 300 [] =
             BinaryWriter.compress_loop fuel SIZE_MAX 300 (varint 300)) ∧
  BinaryWriter.compress 300 [] = Fault (Undefined "BinaryWriter::compress: shift count").
Proof. exact (compress_digits_then_diverges 300 ltac:(lia)). Defined.

(** Every typed [writeData] copies to the start of the message: after two of
    them the second object is first, followed by what is left of the first
    one and zero bytes, while the index counts both; so of two objects of the
    same size only the second can be recovered. *)
Theorem writeData_overwrites a b :
  szof a + szof b < 2 ^ 32 →
  let w := (BinaryWriter.writeData b (BinaryWriter.writeData a BinaryWriter.empty).2).2 in
  BinaryWriter.msg w = b ++ drop (length b) (a ++ replicate (length b) x00) ∧
  BinaryWriter.index w = szof a + szof b ∧
  (length a = length b → BinaryWriter.msg w = b ++ replicate (length b) x00).
Proof.
  intros Hl w.
  assert (Hi : u32 (0 + szof a) = szof a) by (apply wrapu_small; lia).
  assert (Hm : BinaryWriter.msg w = b ++ drop (length b) (a ++ replicate (length b) x00)).
  { subst w. unfold BinaryWriter.writeData, BinaryWriter.empty.
    cbn [BinaryWriter.msg BinaryWriter.index fst snd]. rewrite Hi.
    unfold BinaryWriter.copy_to_front, BinaryWriter.str_resize. f_equal. f_equal.
    rewrite (drop_ge (resize _ _ [])) by (rewrite length_resize; lia). rewrite app_nil_r.
    rewrite resize_ge by lia. do 2 f_equal. lia. }
  split_and!; [done| |].
  - subst w. unfold BinaryWriter.writeData, BinaryWriter.empty.
    cbn [BinaryWriter.msg BinaryWriter.index fst snd]. rewrite Hi. apply wrapu_small. lia.
  - intros E. rewrite Hm. rewrite drop_app_ge by lia. rewrite E, Nat.sub_diag. done.
Qed.

Lemma writeData_overwrites_witness :
  let w := (BinaryWriter.writeData (le_bytes 4 7)
              (BinaryWriter.writeData (le_bytes 4 1001) BinaryWriter.empty).2).2 in
  BinaryWriter.msg w = le_bytes 4 7 ++ replicate 4 x00.
Proof.
  intros w.
  exact (proj2 (proj2 (writeData_overwrites (le_bytes 4 1001) (le_bytes 4 7) ltac:(cbn; lia)))
           eq_refl).
Defined.

(** Assigning a reader to another one replaces its message by the single
    character of the source's index and keeps its own index, so the copy is
    not the source unless the source is a one-character message in the same
    position; assigning a reader to itself changes nothing. *)
Theorem operator_assign_loses_message self reader :
  BinaryReader.operator_assign true self self = self ∧
  (BinaryReader.operator_assign false self reader = reader ↔
   BinaryReader.msg reader = [of_Z (BinaryReader.index reader)] ∧
   BinaryReader.index self = BinaryReader.index reader).
Proof.
  split; [done|]. unfold BinaryReader.operator_assign. destruct reader as [m i]; cbn.
  split; [intros [= -> ->]; done | intros [-> ->]; done].
Qed.
