(* ===== verification/Buffer.v ===== *)
(** muduo's [Buffer] (muduo/net/Buffer.h, Buffer.cc) and the byte-order
    helpers of Endian.h.  A pointer into the buffer is its offset from
    [begin()]; [NULL] is [None].  The abstract view of a buffer is the queue of
    its readable bytes ([contents]); [ByteQueue] is the part of that contract
    the clients of an input buffer use. *)

From S2P Require Import Prelude.
Local Open Scope Z_scope.


(** [htobeN] and [beNtoh] on a little-endian host: the integer whose bytes in
    memory are those of [x] in network order. *)
Definition byteswap (n : nat) (x : Z) : Z := le_value (be_bytes n x).
Definition hostToNetwork64 (host64 : Z) : Z := byteswap 8 host64.
Definition hostToNetwork32 (host32 : Z) : Z := byteswap 4 host32.
Definition hostToNetwork16 (host16 : Z) : Z := byteswap 2 host16.
Definition networkToHost64 (net64 : Z) : Z := byteswap 8 net64.
Definition networkToHost32 (net32 : Z) : Z := byteswap 4 net32.
Definition networkToHost16 (net16 : Z) : Z := byteswap 2 net16.

Module Buffer.
Definition kCheapPrepend : Z := 8.
Definition kInitialSize : Z := 1024.
Definition kCRLF : bytes := [x0d; x0a].

Record t := mk { buffer_ : bytes; readerIndex_ : Z; writerIndex_ : Z }.

Definition readableBytes (b : t) : Z := u64 (writerIndex_ b - readerIndex_ b).
Definition writableBytes (b : t) : Z := u64 (szof (buffer_ b) - writerIndex_ b).
Definition prependableBytes (b : t) : Z := readerIndex_ b.
Definition peek (b : t) : Z := readerIndex_ b.
Definition beginWrite (b : t) : Z := writerIndex_ b.

(** [Buffer( size_t initialSize )] *)
Definition make (initialSize : Z) : outcome t :=
  let b := mk (replicate (Z.to_nat (u64 (kCheapPrepend + initialSize))) x00)
              kCheapPrepend kCheapPrepend in
  _ ← cassert (readableBytes b =? 0) "readableBytes() == 0";
  _ ← cassert (writableBytes b =? initialSize) "writableBytes() == initialSize";
  _ ← cassert (prependableBytes b =? kCheapPrepend) "prependableBytes() == kCheapPrepend";
  Done b.

(** [swap( Buffer& rhs )]: the pair after the call. *)
Definition swap (b rhs : t) : t * t := (rhs, b).

(** The bytes in [[first, last)]. *)
Definition range (first last : Z) (b : t) : bytes :=
  take (Z.to_nat (last - first)) (drop (Z.to_nat first) (buffer_ b)).

(** [std::search( first, last, kCRLF, kCRLF + 2 )] and [memchr]: the offset of
    the first match in a sequence that starts at offset [at_]. *)
Fixpoint search_crlf (at_ : Z) (l : bytes) : option Z :=
  match l with
  | [] => None
  | c :: l' =>
      if decide (take 2 l = kCRLF) then Some at_ else search_crlf (at_ + 1) l'
  end.
Fixpoint memchr (c : byte) (at_ : Z) (l : bytes) : option Z :=
  match l with
  | [] => None
  | d :: l => if decide (d = c) then Some at_ else memchr c (at_ + 1) l
  end.

Definition findCRLF (b : t) : option Z :=
  search_crlf (peek b) (range (peek b) (beginWrite b) b).
Definition findCRLF_from (start : Z) (b : t) : outcome (option Z) :=
  _ ← cassert (peek b <=? start) "peek() <= start";
  _ ← cassert (start <=? beginWrite b) "start <= beginWrite()";
  Done (search_crlf start (range start (beginWrite b) b)).
Definition findEOL (b : t) : option Z :=
  memchr x0a (peek b) (range (peek b) (beginWrite b) b).
Definition findEOL_from (start : Z) (b : t) : outcome (option Z) :=
  _ ← cassert (peek b <=? start) "peek() <= start";
  _ ← cassert (start <=? beginWrite b) "start <= beginWrite()";
  Done (memchr x0a start (range start (beginWrite b) b)).

Definition retrieveAll (b : t) : t := mk (buffer_ b) kCheapPrepend kCheapPrepend.

Definition retrieve (len : Z) (b : t) : outcome t :=
  _ ← cassert (len <=? readableBytes b) "len <= readableBytes()";
  if len <? readableBytes b
  then Done (mk (buffer_ b) (u64 (readerIndex_ b + len)) (writerIndex_ b))
  else Done (retrieveAll b).

Definition retrieveUntil (end_ : Z) (b : t) : outcome t :=
  _ ← cassert (peek b <=? end_) "peek() <= end";
  _ ← cassert (end_ <=? beginWrite b) "end <= beginWrite()";
  retrieve (end_ - peek b) b.

Definition retrieveInt64 : t → outcome t := retrieve 8.
Definition retrieveInt32 : t → outcome t := retrieve 4.
Definition retrieveInt16 : t → outcome t := retrieve 2.
Definition retrieveInt8 : t → outcome t := retrieve 1.

Definition retrieveAsString (len : Z) (b : t) : outcome (bytes * t) :=
  _ ← cassert (len <=? readableBytes b) "len <= readableBytes()";
  let result := range (peek b) (peek b + len) b in
  b' ← retrieve len b;
  Done (result, b').
Definition retrieveAllAsString (b : t) : outcome (bytes * t) :=
  retrieveAsString (readableBytes b) b.

(** [toStringPiece]: the length is converted to [int]. *)
Definition toStringPiece (b : t) : bytes * Z :=
  (range (peek b) (peek b + s32 (readableBytes b)) b, s32 (readableBytes b)).

(** [std::copy] of [d] to offset [at_]; the caller has made room. *)
Definition copy_at (at_ : Z) (d l : bytes) : bytes :=
  take (Z.to_nat at_) l ++ d ++ drop (Z.to_nat at_ + length d) l.

Definition makeSpace (len : Z) (b : t) : outcome t :=
  if u64 (writableBytes b + prependableBytes b) <? u64 (len + kCheapPrepend) then
    Done (mk (resize (Z.to_nat (u64 (writerIndex_ b + len))) x00 (buffer_ b))
             (readerIndex_ b) (writerIndex_ b))
  else
    _ ← cassert (kCheapPrepend <? readerIndex_ b) "kCheapPrepend < readerIndex_";
    let readable := readableBytes b in
    let moved := copy_at kCheapPrepend (range (readerIndex_ b) (writerIndex_ b) b) (buffer_ b) in
    let b' := mk moved kCheapPrepend (u64 (kCheapPrepend + readable)) in
    _ ← cassert (readable =? readableBytes b') "readable == readableBytes()";
    Done b'.

Definition ensureWritableBytes (len : Z) (b : t) : outcome t :=
  b' ← (if writableBytes b <? len then makeSpace len b else Done b);
  _ ← cassert (len <=? writableBytes b') "writableBytes() >= len";
  Done b'.

Definition hasWritten (len : Z) (b : t) : outcome t :=
  _ ← cassert (len <=? writableBytes b) "len <= writableBytes()";
  Done (mk (buffer_ b) (readerIndex_ b) (u64 (writerIndex_ b + len))).

Definition unwrite (len : Z) (b : t) : outcome t :=
  _ ← cassert (len <=? readableBytes b) "len <= readableBytes()";
  Done (mk (buffer_ b) (readerIndex_ b) (u64 (writerIndex_ b - len))).

(** [append( const char* data, size_t len )] *)
Definition append (data : bytes) (b : t) : outcome t :=
  b' ← ensureWritableBytes (szof data) b;
  hasWritten (szof data)
    (mk (copy_at (beginWrite b') data (buffer_ b')) (readerIndex_ b') (writerIndex_ b')).

(** [append( const StringPiece& str )]: a negative [int] length becomes a huge
    [size_t]. *)
Definition appendPiece (str : bytes * Z) (b : t) : outcome t :=
  _ ← defined_if (0 <=? str.2) "append: negative StringPiece length";
  append str.1 b.

(** The piece made of a string: its length is converted to [int]. *)
Definition pieceOf (str : bytes) : bytes * Z :=
  (take (Z.to_nat (s32 (szof str))) str, s32 (szof str)).
Definition appendString (str : bytes) : t → outcome t := appendPiece (pieceOf str).

Definition appendInt64 (x : Z) : t → outcome t := append (le_bytes 8 (hostToNetwork64 x)).
Definition appendInt32 (x : Z) : t → outcome t := append (le_bytes 4 (hostToNetwork32 x)).
Definition appendInt16 (x : Z) : t → outcome t := append (le_bytes 2 (hostToNetwork16 x)).
Definition appendInt8 (x : Z) : t → outcome t := append (le_bytes 1 x).

(** The object of [n] bytes that starts at [peek()]. *)
Definition load (n : Z) (b : t) : Z := le_value (range (peek b) (peek b + n) b).

Definition peekInt64 (b : t) : outcome Z :=
  _ ← cassert (8 <=? readableBytes b) "readableBytes() >= sizeof(int64_t)";
  Done (wraps 64 (networkToHost64 (load 8 b))).
Definition peekInt32 (b : t) : outcome Z :=
  _ ← cassert (4 <=? readableBytes b) "readableBytes() >= sizeof(int32_t)";
  Done (wraps 32 (networkToHost32 (load 4 b))).
Definition peekInt16 (b : t) : outcome Z :=
  _ ← cassert (2 <=? readableBytes b) "readableBytes() >= sizeof(int16_t)";
  Done (wraps 16 (networkToHost16 (load 2 b))).
Definition peekInt8 (b : t) : outcome Z :=
  _ ← cassert (1 <=? readableBytes b) "readableBytes() >= sizeof(int8_t)";
  Done (wraps 8 (load 1 b)).

Definition readInt64 (b : t) : outcome (Z * t) :=
  result ← peekInt64 b; b' ← retrieveInt64 b; Done (result, b').
Definition readInt32 (b : t) : outcome (Z * t) :=
  result ← peekInt32 b; b' ← retrieveInt32 b; Done (result, b').
Definition readInt16 (b : t) : outcome (Z * t) :=
  result ← peekInt16 b; b' ← retrieveInt16 b; Done (result, b').
Definition readInt8 (b : t) : outcome (Z * t) :=
  result ← peekInt8 b; b' ← retrieveInt8 b; Done (result, b').

Definition prepend (data : bytes) (b : t) : outcome t :=
  _ ← cassert (szof data <=? prependableBytes b) "len <= prependableBytes()";
  let r := u64 (readerIndex_ b - szof data) in
  Done (mk (copy_at r data (buffer_ b)) r (writerIndex_ b)).
Definition prependInt64 (x : Z) : t → outcome t := prepend (le_bytes 8 (hostToNetwork64 x)).
Definition prependInt32 (x : Z) : t → outcome t := prepend (le_bytes 4 (hostToNetwork32 x)).
Definition prependInt16 (x : Z) : t → outcome t := prepend (le_bytes 2 (hostToNetwork16 x)).
Definition prependInt8 (x : Z) : t → outcome t := prepend (le_bytes 1 x).

Definition shrink (reserve : Z) (b : t) : outcome t :=
  other ← make kInitialSize;
  other ← ensureWritableBytes (u64 (readableBytes b + reserve)) other;
  other ← appendPiece (toStringPiece b) other;
  let '(b', _) := swap b other in Done b'.

(** The result of [readv]: an error with its [errno], or the bytes read. *)
Inductive readv_result := ReadError (errno : Z) | ReadBytes (data : bytes).

(** Capacity offered to [readv]: the writable bytes, and [extrabuf] when they
    are fewer than its 65536. *)
Definition readv_capacity (b : t) : Z :=
  let writable := writableBytes b in
  if writable <? 65536 then writable + 65536 else writable.

(** [readFd]: returns [n] and the saved errno.  [readv] fills the writable
    bytes first and [extrabuf] with the rest. *)
Definition readFd (r : readv_result) (b : t) : outcome (Z * option Z * t) :=
  let writable := writableBytes b in
  match r with
  | ReadError errno => Done (-1, Some errno, b)
  | ReadBytes data =>
      let n := szof data in
      if n <=? writable then
        Done (n, None, mk (copy_at (writerIndex_ b) data (buffer_ b))
                          (readerIndex_ b) (u64 (writerIndex_ b + n)))
      else
        let inbuf := take (Z.to_nat writable) data in
        let extrabuf := drop (Z.to_nat writable) data in
        let b' := mk (copy_at (writerIndex_ b) inbuf (buffer_ b))
                     (readerIndex_ b) (szof (buffer_ b)) in
        b'' ← append extrabuf b';
        Done (n, None, b'')
  end.

(** The readable bytes: the abstract value of a buffer. *)
Definition contents (b : t) : bytes := range (readerIndex_ b) (writerIndex_ b) b.

(** Memory for [n] more bytes: a buffer grows to less than the sum on the left
    (see [ensureWritableBytes_spec]). *)
Definition fits (n : Z) (b : t) : Prop := szof (contents b) + 2 * n + 8 < 2 ^ 62.

(** [0 <= readerIndex <= writerIndex <= size], and sizes the allocator can
    serve. *)
Definition wf (b : t) : Prop :=
  0 ≤ readerIndex_ b ≤ writerIndex_ b ∧ writerIndex_ b ≤ szof (buffer_ b) < 2 ^ 62 ∧
  kCheapPrepend ≤ szof (buffer_ b).
End Buffer.

(** What a consumer of an input buffer relies on: a queue of bytes that can be
    inspected at its front and retrieved from. *)
Class ByteQueue (B : Type) := {
  bq_valid : B → Prop;
  bq_contents : B → bytes;
  bq_readable : B → Z;
  bq_peek : Z → B → bytes;
  bq_retrieve : Z → B → outcome B;
  bq_readable_spec b : bq_valid b → bq_readable b = szof (bq_contents b);
  bq_peek_spec b n :
    bq_valid b → 0 ≤ n ≤ szof (bq_contents b) →
    bq_peek n b = take (Z.to_nat n) (bq_contents b);
  bq_retrieve_spec b n :
    bq_valid b → 0 ≤ n ≤ szof (bq_contents b) →
    ∃ b', bq_retrieve n b = Done b' ∧ bq_valid b' ∧
          bq_contents b' = drop (Z.to_nat n) (bq_contents b);
}.

(** * Lemmas *)
Import Buffer.

Section wf_facts.
Context (b : t) (Hb : wf b).

Lemma readable_eq : readableBytes b = writerIndex_ b - readerIndex_ b.
Proof. destruct Hb. apply Z.mod_small. lia. Qed.

Lemma writable_eq : writableBytes b = szof (buffer_ b) - writerIndex_ b.
Proof. destruct Hb. apply Z.mod_small. lia. Qed.

Lemma length_contents : szof (contents b) = readableBytes b.
Proof.
  rewrite readable_eq. destruct Hb. unfold contents, range.
  rewrite length_take, length_drop. lia.
Qed.
End wf_facts.

Lemma range_take first n m b :
  0 ≤ n ≤ m → range first (first + n) b = take (Z.to_nat n) (range first (first + m) b).
Proof.
  intros. unfold range. rewrite take_take. f_equal. lia.
Qed.

Lemma range_peek b n :
  wf b → 0 ≤ n ≤ readableBytes b →
  range (peek b) (peek b + n) b = take (Z.to_nat n) (contents b).
Proof.
  intros Hb Hn. unfold contents, peek.
  rewrite (range_take _ n (readableBytes b)) by done. do 2 f_equal.
  rewrite readable_eq by done. lia.
Qed.

Lemma length_copy_at at_ d l :
  0 ≤ at_ → at_ + szof d ≤ szof l → length (copy_at at_ d l) = length l.
Proof.
  intros. unfold copy_at. rewrite !length_app, length_take, length_drop. lia.
Qed.

(** Reading back what a copy wrote, and what it did not touch. *)
Lemma copy_at_read at_ d l :
  0 ≤ at_ ≤ szof l →
  take (length d) (drop (Z.to_nat at_) (copy_at at_ d l)) = d.
Proof.
  intros. unfold copy_at. rewrite drop_app_ge by (rewrite length_take; lia).
  rewrite length_take, Nat.min_l by lia. rewrite Nat.sub_diag, drop_0.
  by rewrite take_app_length.
Qed.

Lemma copy_at_before at_ d l n :
  0 ≤ at_ ≤ szof l → (n ≤ Z.to_nat at_)%nat → take n (copy_at at_ d l) = take n l.
Proof.
  intros. unfold copy_at. rewrite take_app_le by (rewrite length_take; lia).
  rewrite take_take. f_equal. lia.
Qed.

Lemma copy_at_snoc at_ d l r :
  0 ≤ r ≤ at_ → at_ ≤ szof l →
  take (Z.to_nat (at_ + szof d - r)) (drop (Z.to_nat r) (copy_at at_ d l)) =
    take (Z.to_nat (at_ - r)) (drop (Z.to_nat r) l) ++ d.
Proof.
  intros. unfold copy_at.
  rewrite drop_app_le by (rewrite length_take; lia).
  rewrite take_app_ge by (rewrite length_drop, length_take; lia).
  rewrite length_drop, length_take.
  rewrite take_app_le by lia.
  rewrite (take_ge d) by lia. f_equal.
  rewrite skipn_firstn_comm. f_equal. lia.
Qed.

Ltac unfold_wf H :=
  let H1 := fresh "Hr" in let H2 := fresh "Hw" in let H3 := fresh "Hs" in
  pose proof H as (H1 & H2 & H3); unfold kCheapPrepend in H3.

Lemma retrieveAll_spec b : wf b → wf (retrieveAll b) ∧ contents (retrieveAll b) = [].
Proof.
  intros Hb. unfold_wf Hb. split; [|done].
  repeat split; cbn; unfold kCheapPrepend; lia.
Qed.

Lemma retrieve_spec b n :
  wf b → 0 ≤ n ≤ szof (contents b) →
  ∃ b', retrieve n b = Done b' ∧ wf b' ∧ contents b' = drop (Z.to_nat n) (contents b).
Proof.
  intros Hb Hn. unfold_wf Hb. rewrite length_contents in Hn by done.
  unfold retrieve. rewrite (proj2 (Z.leb_le _ _)) by lia. cbn [cassert mbind outcome_bind].
  destruct (Z.ltb_spec n (readableBytes b)).
  - rewrite readable_eq in * by done. eexists; split; [done|].
    rewrite (wrapu_small 64) by lia. split; [repeat split; cbn; unfold kCheapPrepend; lia|].
    unfold contents, range; cbn.
    rewrite skipn_firstn_comm, drop_drop. f_equal; [lia | f_equal; lia].
  - destruct (retrieveAll_spec b Hb) as [? E]. exists (retrieveAll b). split_and!; [done..|].
    rewrite E, drop_ge; [done|]. pose proof (length_contents b Hb). lia.
Qed.

#[export] Program Instance Buffer_queue : ByteQueue Buffer.t := {|
  bq_valid := wf;
  bq_contents := contents;
  bq_readable := readableBytes;
  bq_peek := λ n b, range (peek b) (peek b + n) b;
  bq_retrieve := retrieve;
|}.
Next Obligation. intros b Hb. symmetry. by apply length_contents. Qed.
Next Obligation.
  intros b n Hb Hn. rewrite length_contents in Hn by done. by apply range_peek.
Qed.
Next Obligation. intros b n Hb Hn. by apply retrieve_spec. Qed.

(** The reference queue: a list. *)
#[export] Program Instance list_queue : ByteQueue bytes := {|
  bq_valid := λ _, True;
  bq_contents := id;
  bq_readable := λ b, szof b;
  bq_peek := λ n b, take (Z.to_nat n) b;
  bq_retrieve := λ n b, Done (drop (Z.to_nat n) b);
|}.
Solve All Obligations with naive_solver.

(** Making room keeps the contents. *)
Lemma ensureWritableBytes_spec b n :
  wf b → 0 ≤ n → fits n b →
  ∃ b', ensureWritableBytes n b = Done b' ∧ wf b' ∧ contents b' = contents b ∧
        n ≤ writableBytes b'.
Proof.
  unfold fits. intros Hb Hn Hlt. rewrite length_contents, readable_eq in Hlt by done.
  unfold_wf Hb. unfold ensureWritableBytes.
  destruct (Z.ltb_spec (writableBytes b) n) as [Hsmall|]; cycle 1.
  { exists b. cbn. by rewrite (proj2 (Z.leb_le _ _)). }
  unfold makeSpace. rewrite writable_eq in * by done.
  unfold prependableBytes, kCheapPrepend. rewrite !(wrapu_small 64) by lia.
  destruct (Z.ltb_spec (szof (buffer_ b) - writerIndex_ b + readerIndex_ b) (n + 8)).
  - set (b' := Buffer.mk _ _ _). assert (Hb' : wf b').
    { repeat split; cbn; rewrite ?length_resize; unfold kCheapPrepend; lia. }
    exists b'. cbn [mbind outcome_bind].
    assert (n ≤ writableBytes b').
    { rewrite writable_eq by done. cbn. rewrite length_resize. lia. }
    rewrite (proj2 (Z.leb_le _ _)) by done. split_and!; [done..| |done].
    unfold contents, range, b'; cbn. rewrite resize_ge by lia.
    rewrite drop_app_le by lia. rewrite take_app_le; [done|]. rewrite length_drop. lia.
  - rewrite (proj2 (Z.ltb_lt 8 _)) by lia. cbn [cassert mbind outcome_bind].
    rewrite readable_eq by done. rewrite (wrapu_small 64) by lia.
    set (b' := Buffer.mk _ _ _).
    pose proof (length_contents b Hb) as Hc. rewrite readable_eq in Hc by done.
    assert (Hlen : length (buffer_ b') = length (buffer_ b)).
    { cbn. apply length_copy_at; [lia|]. change (range _ _ b) with (contents b). lia. }
    assert (Hb' : wf b').
    { repeat split; cbn [readerIndex_ writerIndex_ b']; rewrite ?Hlen; unfold kCheapPrepend; lia. }
    assert (n ≤ writableBytes b').
    { rewrite writable_eq by done. rewrite Hlen. cbn. lia. }
    rewrite (readable_eq b') by done. cbn [readerIndex_ writerIndex_ b'].
    rewrite (proj2 (Z.eqb_eq _ _)) by lia. cbn [cassert mbind outcome_bind].
    rewrite (proj2 (Z.leb_le _ _)) by done. exists b'. split_and!; [done..| |done].
    unfold contents at 1, range, b'; cbn. change (range _ _ b) with (contents b).
    replace (Z.to_nat _) with (length (contents b)) by lia.
    apply (copy_at_read 8); lia.
Qed.

(** Appending what there is room for, which it then lacks. *)
Lemma append_room b data :
  wf b → szof data ≤ writableBytes b →
  ∃ b', append data b = Done b' ∧ wf b' ∧ contents b' = contents b ++ data ∧
        writableBytes b' = writableBytes b - szof data.
Proof.
  intros Hb Hroom. unfold append, ensureWritableBytes. rewrite (proj2 (Z.ltb_ge _ _)) by done.
  cbn [mbind outcome_bind]. rewrite (proj2 (Z.leb_le _ _)) by done. cbn [cassert mbind outcome_bind].
  unfold_wf Hb. rewrite writable_eq in * by done.
  set (b2 := Buffer.mk _ _ _).
  assert (Hlen : length (buffer_ b2) = length (buffer_ b))
    by (cbn; unfold beginWrite; apply length_copy_at; lia).
  assert (H2 : wf b2) by (repeat split; rewrite ?Hlen; cbn; unfold kCheapPrepend; lia).
  unfold hasWritten. rewrite writable_eq, Hlen by done. cbn [writerIndex_ b2].
  rewrite (proj2 (Z.leb_le _ _)) by lia. cbn [cassert mbind outcome_bind].
  rewrite (wrapu_small 64) by lia. set (b' := Buffer.mk _ _ _).
  assert (Hb' : wf b').
  { repeat split; cbn; cbn in Hlen; rewrite ?Hlen; unfold kCheapPrepend; lia. }
  exists b'. split_and!; [done..| |].
  - unfold contents, range; cbn. apply copy_at_snoc; lia.
  - rewrite writable_eq by done. cbn. cbn in Hlen. rewrite Hlen. lia.
Qed.

Lemma append_spec b data :
  wf b → fits (szof data) b →
  ∃ b', append data b = Done b' ∧ wf b' ∧ contents b' = contents b ++ data.
Proof.
  intros Hb Hlt.
  destruct (ensureWritableBytes_spec b (szof data) Hb) as (b1 & He & H1 & Hc & Hroom); [lia|done|].
  destruct (append_room b1 data H1 Hroom) as (b2 & Ha & H2 & Hc2 & _).
  exists b2. rewrite Hc2, Hc. split; [|done]. rewrite <-Ha. unfold append. rewrite He.
  unfold ensureWritableBytes. rewrite (proj2 (Z.ltb_ge _ _)) by done. cbn [mbind outcome_bind].
  by rewrite (proj2 (Z.leb_le _ _)) by done.
Qed.

Lemma prepend_spec b data :
  wf b → szof data ≤ readerIndex_ b →
  ∃ b', prepend data b = Done b' ∧ wf b' ∧ contents b' = data ++ contents b.
Proof.
  intros Hb Hd. unfold_wf Hb. unfold prepend, prependableBytes.
  rewrite (proj2 (Z.leb_le _ _)) by done. cbn [cassert mbind outcome_bind].
  rewrite (wrapu_small 64) by lia. eexists; split; [done|].
  assert (Hl : length (copy_at (readerIndex_ b - szof data) data (buffer_ b)) =
               length (buffer_ b)) by (apply length_copy_at; lia).
  split; [repeat split; cbn; rewrite ?Hl; unfold kCheapPrepend; lia|].
  unfold contents, range, copy_at; cbn.
  rewrite drop_app_ge by (rewrite length_take; lia).
  rewrite length_take, Nat.min_l, Nat.sub_diag, drop_0 by lia.
  rewrite take_app_ge by lia. f_equal. f_equal; [lia | f_equal; lia].
Qed.

Lemma readFd_spec b data :
  wf b → fits (szof data) b →
  ∃ b', readFd (ReadBytes data) b = Done (szof data, None, b') ∧ wf b' ∧
        contents b' = contents b ++ data.
Proof.
  intros Hb Hlt. unfold_wf Hb. unfold readFd. rewrite writable_eq by done.
  destruct (Z.leb_spec (szof data) (szof (buffer_ b) - writerIndex_ b)).
  - rewrite (wrapu_small 64) by lia. eexists; split; [done|].
    assert (Hl : length (copy_at (writerIndex_ b) data (buffer_ b)) = length (buffer_ b))
      by (apply length_copy_at; lia).
    split; [repeat split; cbn; rewrite ?Hl; unfold kCheapPrepend; lia|].
    unfold contents, range; cbn. apply copy_at_snoc; lia.
  - set (w := szof (buffer_ b) - writerIndex_ b) in *.
    set (inbuf := take (Z.to_nat w) data). set (extra := drop (Z.to_nat w) data).
    assert (Hin : szof inbuf = w) by (unfold inbuf; rewrite length_take; lia).
    assert (Hex : szof inbuf + szof extra = szof data)
      by (unfold extra; rewrite length_drop; lia).
    set (b1 := Buffer.mk _ _ _).
    assert (Hl : length (buffer_ b1) = length (buffer_ b))
      by (cbn; apply length_copy_at; lia).
    assert (H1 : wf b1)
      by (repeat split; rewrite ?Hl; cbn; unfold kCheapPrepend; lia).
    assert (Hc1 : contents b1 = contents b ++ inbuf).
    { unfold contents, range, b1; cbn.
      rewrite <-(copy_at_snoc (writerIndex_ b) inbuf (buffer_ b) (readerIndex_ b)) by lia.
      do 2 f_equal. lia. }
    destruct (append_spec b1 extra H1) as (b2 & -> & H2 & Hc).
    { unfold fits in *. rewrite Hc1, length_app. lia. }
    exists b2. split_and!; [done..|].
    rewrite Hc, Hc1, <-app_assoc. unfold inbuf, extra. by rewrite take_drop.
Qed.

(** ** Integers in network order *)

Lemma le_bytes_byteswap n x : le_bytes n (byteswap n x) = be_bytes n x.
Proof.
  unfold byteswap. rewrite <-(length_be_bytes n x) at 1. apply le_bytes_value.
Qed.

Lemma byteswap_bytes n x l :
  l = be_bytes n x → byteswap n (le_value l) = x mod 256 ^ Z.of_nat n.
Proof.
  intros ->. unfold byteswap at 1. unfold be_bytes at 1.
  rewrite <-(length_be_bytes n x) at 1. rewrite le_bytes_value.
  unfold be_bytes. by rewrite rev_involutive, le_value_bytes.
Qed.

(** Reading an [n]-byte object at the front of the readable bytes. *)
Lemma load_front b n x rest :
  wf b → contents b = be_bytes n x ++ rest →
  byteswap n (load (Z.of_nat n) b) = x mod 256 ^ Z.of_nat n ∧
  Z.of_nat n ≤ readableBytes b.
Proof.
  intros Hb E. pose proof (length_contents b Hb) as Hl.
  rewrite E, length_app, length_be_bytes in Hl. split; [|lia].
  apply byteswap_bytes. rewrite range_peek by (done || lia).
  rewrite E, Nat2Z.id. rewrite <-(length_be_bytes n x) at 1. apply take_app_length.
Qed.

Lemma retrieve_front b n x rest :
  wf b → contents b = be_bytes n x ++ rest →
  ∃ b', retrieve (Z.of_nat n) b = Done b' ∧ wf b' ∧ contents b' = rest.
Proof.
  intros Hb E. destruct (retrieve_spec b (Z.of_nat n) Hb) as (b' & ? & ? & Hc).
  { rewrite E, length_app, length_be_bytes. lia. }
  exists b'. split_and!; [done..|]. rewrite Hc, E, Nat2Z.id.
  rewrite <-(length_be_bytes n x) at 1. apply drop_app_length.
Qed.

Lemma readInt64_front b x rest :
  wf b → contents b = be_bytes 8 x ++ rest →
  ∃ b', readInt64 b = Done (wraps 64 x, b') ∧ wf b' ∧ contents b' = rest.
Proof.
  intros Hb E. destruct (load_front b 8 x rest Hb E) as [Hx Hr].
  destruct (retrieve_front b 8 x rest Hb E) as (b' & Hret & Hb' & Hc').
  exists b'. unfold readInt64, peekInt64, retrieveInt64.
  rewrite (proj2 (Z.leb_le 8 _)) by exact Hr. cbn [cassert mbind outcome_bind].
  change 8 with (Z.of_nat 8). rewrite Hret. unfold networkToHost64. rewrite Hx.
  cbn [mbind outcome_bind]. change (256 ^ Z.of_nat 8) with (2 ^ 64). by rewrite wraps_wrapu by lia.
Qed.

Lemma readInt32_front b x rest :
  wf b → contents b = be_bytes 4 x ++ rest →
  ∃ b', readInt32 b = Done (wraps 32 x, b') ∧ wf b' ∧ contents b' = rest.
Proof.
  intros Hb E. destruct (load_front b 4 x rest Hb E) as [Hx Hr].
  destruct (retrieve_front b 4 x rest Hb E) as (b' & Hret & Hb' & Hc').
  exists b'. unfold readInt32, peekInt32, retrieveInt32.
  rewrite (proj2 (Z.leb_le 4 _)) by exact Hr. cbn [cassert mbind outcome_bind].
  change 4 with (Z.of_nat 4). rewrite Hret. unfold networkToHost32. rewrite Hx.
  cbn [mbind outcome_bind]. change (256 ^ Z.of_nat 4) with (2 ^ 32). by rewrite wraps_wrapu by lia.
Qed.

(** ** Searching *)

Lemma search_crlf_spec at_ l :
  match search_crlf at_ l with
  | Some p => ∃ pre post, l = pre ++ kCRLF ++ post ∧ p = at_ + szof pre ∧
                          search_crlf at_ pre = None
  | None => ∀ pre post, l ≠ pre ++ kCRLF ++ post
  end.
Proof.
  revert at_. induction l as [|c l IH]; intros at_.
  - cbn [search_crlf]. intros pre post E. symmetry in E.
    apply app_eq_nil in E as [_ E]. done.
  - cbn [search_crlf]. case_decide as Hc.
    + exists [], (drop 2 (c :: l)). split_and!; [|cbn; lia|done].
      rewrite <-(take_drop 2 (c :: l)) at 1. by rewrite Hc.
    + specialize (IH (at_ + 1)). destruct (search_crlf (at_ + 1) l) as [p|].
      * destruct IH as (pre & post & -> & -> & Hn). exists (c :: pre), post.
        split_and!; [done | cbn [length]; lia |]. cbn [search_crlf].
        rewrite decide_False; [done|]. intros E. apply Hc.
        destruct pre; cbn in *; [|done]. by injection E.
      * intros [|c' pre] post E; cbn in E.
        { apply Hc. rewrite E. done. }
        injection E as -> E. by apply (IH pre post).
Qed.

Lemma search_crlf_none at_ l :
  search_crlf at_ l = None ↔ ∀ pre post, l ≠ pre ++ kCRLF ++ post.
Proof.
  pose proof (search_crlf_spec at_ l) as Hs.
  destruct (search_crlf at_ l); [|done]. destruct Hs as (pre & post & -> & _).
  split; [done|]. intros Hn. by destruct (Hn pre post).
Qed.

Lemma memchr_spec c at_ l :
  match memchr c at_ l with
  | Some p => ∃ pre post, l = pre ++ c :: post ∧ p = at_ + szof pre ∧ c ∉ pre
  | None => c ∉ l
  end.
Proof.
  revert at_. induction l as [|d l IH]; intros at_; cbn [memchr]; [set_solver|].
  case_decide as Hd.
  - subst. exists [], l. split_and!; [done|cbn; lia|set_solver].
  - specialize (IH (at_ + 1)). destruct (memchr c (at_ + 1) l).
    + destruct IH as (pre & post & -> & -> & Hn). exists (d :: pre), post.
      split_and!; [done|cbn [length]; lia|set_solver].
    + set_solver.
Qed.

(** ** The buffer as a queue *)

(** The integers of the typed operations. *)
Inductive width := W64 | W32 | W16 | W8.
Definition nbytes (w : width) : nat := match w with W64 => 8 | W32 => 4 | W16 => 2 | W8 => 1 end.
Definition nbits (w : width) : Z := 8 * Z.of_nat (nbytes w).
Definition appendInt (w : width) : Z → t → outcome t :=
  match w with W64 => appendInt64 | W32 => appendInt32 | W16 => appendInt16 | W8 => appendInt8 end.
Definition prependInt (w : width) : Z → t → outcome t :=
  match w with W64 => prependInt64 | W32 => prependInt32 | W16 => prependInt16 | W8 => prependInt8 end.
Definition peekInt (w : width) : t → outcome Z :=
  match w with W64 => peekInt64 | W32 => peekInt32 | W16 => peekInt16 | W8 => peekInt8 end.
Definition retrieveInt (w : width) : t → outcome t :=
  match w with W64 => retrieveInt64 | W32 => retrieveInt32 | W16 => retrieveInt16 | W8 => retrieveInt8 end.
Definition readInt (w : width) : t → outcome (Z * t) :=
  match w with W64 => readInt64 | W32 => readInt32 | W16 => readInt16 | W8 => readInt8 end.

(** The operations that change a buffer, [Swap] with another one, and what they
    return. *)
Inductive op :=
  | Append (data : bytes) | AppendString (str : bytes) | AppendInt (w : width) (x : Z)
  | ReadFd (r : readv_result) | Prepend (data : bytes) | PrependInt (w : width) (x : Z)
  | Retrieve (len : Z) | RetrieveUntil (end_ : Z) | RetrieveInt (w : width) | RetrieveAll
  | RetrieveAsString (len : Z) | RetrieveAllAsString | ReadInt (w : width)
  | EnsureWritableBytes (len : Z) | HasWritten (len : Z) | Unwrite (len : Z)
  | Shrink (reserve : Z) | Swap.
Inductive result := Nothing | Text (s : bytes) | Number (x : Z) | Count (n : Z) (savedErrno : option Z).

Definition run_op (o : op) (b rhs : t) : outcome (result * t * t) :=
  let silent (m : outcome t) := b ← m; Done (Nothing, b, rhs) in
  match o with
  | Append data => silent (append data b)
  | AppendString str => silent (appendString str b)
  | AppendInt w x => silent (appendInt w x b)
  | ReadFd r => '(n, savedErrno, b) ← readFd r b; Done (Count n savedErrno, b, rhs)
  | Prepend data => silent (prepend data b)
  | PrependInt w x => silent (prependInt w x b)
  | Retrieve len => silent (retrieve len b)
  | RetrieveUntil end_ => silent (retrieveUntil end_ b)
  | RetrieveInt w => silent (retrieveInt w b)
  | RetrieveAll => silent (Done (retrieveAll b))
  | RetrieveAsString len => '(s, b) ← retrieveAsString len b; Done (Text s, b, rhs)
  | RetrieveAllAsString => '(s, b) ← retrieveAllAsString b; Done (Text s, b, rhs)
  | ReadInt w => '(x, b) ← readInt w b; Done (Number x, b, rhs)
  | EnsureWritableBytes len => silent (ensureWritableBytes len b)
  | HasWritten len => silent (hasWritten len b)
  | Unwrite len => silent (unwrite len b)
  | Shrink reserve => silent (shrink reserve b)
  | Swap => let '(b, rhs) := swap b rhs in Done (Nothing, b, rhs)
  end.

(** The bytes after the readable ones, which [hasWritten] makes readable. *)
Definition spare (b : t) : bytes := drop (Z.to_nat (writerIndex_ b)) (buffer_ b).

(** The same operation on the queue [q] of readable bytes, and the queue [q'] of
    the other buffer; of the buffer itself [retrieveUntil] uses the address of
    the first byte and [hasWritten] the bytes the caller has written. *)
Definition queue_op (o : op) (b : t) (q q' : bytes) : result * bytes * bytes :=
  match o with
  | Append data | AppendString data => (Nothing, q ++ data, q')
  | AppendInt w x => (Nothing, q ++ be_bytes (nbytes w) x, q')
  | ReadFd (ReadBytes data) => (Count (szof data) None, q ++ data, q')
  | ReadFd (ReadError errno) => (Count (-1) (Some errno), q, q')
  | Prepend data => (Nothing, data ++ q, q')
  | PrependInt w x => (Nothing, be_bytes (nbytes w) x ++ q, q')
  | Retrieve len => (Nothing, drop (Z.to_nat len) q, q')
  | RetrieveUntil end_ => (Nothing, drop (Z.to_nat (end_ - peek b)) q, q')
  | RetrieveInt w => (Nothing, drop (nbytes w) q, q')
  | RetrieveAll => (Nothing, [], q')
  | RetrieveAsString len => (Text (take (Z.to_nat len) q), drop (Z.to_nat len) q, q')
  | RetrieveAllAsString => (Text q, [], q')
  | ReadInt w => (Number (wraps (nbits w) (be_value (take (nbytes w) q))), drop (nbytes w) q, q')
  | EnsureWritableBytes _ | Shrink _ => (Nothing, q, q')
  | HasWritten len => (Nothing, q ++ take (Z.to_nat len) (spare b), q')
  | Unwrite len => (Nothing, take (length q - Z.to_nat len) q, q')
  | Swap => (Nothing, q', q)
  end.

(** The assertion of the operation. *)
Definition op_assert (o : op) (b : t) : bool :=
  match o with
  | Prepend data => szof data <=? readerIndex_ b
  | PrependInt w _ => Z.of_nat (nbytes w) <=? readerIndex_ b
  | Retrieve len | RetrieveAsString len | Unwrite len => len <=? szof (contents b)
  | RetrieveUntil end_ => (peek b <=? end_) && (end_ <=? beginWrite b)
  | RetrieveInt w | ReadInt w => Z.of_nat (nbytes w) <=? szof (contents b)
  | HasWritten len => len <=? szof (spare b)
  | _ => true
  end.

(** The arguments are sizes, there is memory for the bytes an operation makes
    room for, and lengths the code converts to [int] are in its range. *)
Definition op_args (o : op) (b : t) : Prop :=
  match o with
  | Append data | ReadFd (ReadBytes data) => fits (szof data) b
  | AppendString str => fits (szof str) b ∧ szof str ≤ INT_MAX
  | AppendInt w _ => fits (Z.of_nat (nbytes w)) b
  | EnsureWritableBytes len => 0 ≤ len ∧ fits len b
  | Retrieve len | RetrieveAsString len | HasWritten len | Unwrite len => 0 ≤ len
  | Shrink reserve => 0 ≤ reserve < 2 ^ 60 ∧ szof (contents b) ≤ INT_MAX
  | _ => True
  end.

(** The room an operation promises to make. *)
Definition op_room (o : op) : Z :=
  match o with EnsureWritableBytes len => len | Shrink reserve => reserve | _ => 0 end.

Lemma retrieveAsString_spec b n :
  wf b → 0 ≤ n ≤ szof (contents b) →
  ∃ b', retrieveAsString n b = Done (take (Z.to_nat n) (contents b), b') ∧ wf b' ∧
        contents b' = drop (Z.to_nat n) (contents b).
Proof.
  intros Hb Hn. destruct (retrieve_spec b n Hb Hn) as (b' & Hr & Hb' & Hc').
  exists b'. split; [|done]. rewrite length_contents in Hn by done. unfold retrieveAsString.
  rewrite (proj2 (Z.leb_le _ _)) by lia. rewrite Hr. cbn [cassert mbind outcome_bind].
  by rewrite range_peek.
Qed.

Lemma unwrite_spec b n :
  wf b → 0 ≤ n ≤ szof (contents b) →
  ∃ b', unwrite n b = Done b' ∧ wf b' ∧
        contents b' = take (length (contents b) - Z.to_nat n) (contents b).
Proof.
  intros Hb Hn. unfold_wf Hb. pose proof (length_contents b Hb) as Hl.
  rewrite Hl in Hn. unfold unwrite.
  rewrite (proj2 (Z.leb_le _ _)) by lia. cbn [cassert mbind outcome_bind].
  rewrite readable_eq in * by done. rewrite (wrapu_small 64) by lia.
  eexists; split; [done|]. split.
  - repeat split; cbn; unfold kCheapPrepend; lia.
  - unfold contents at 1, range; cbn. unfold contents at 2, range. rewrite take_take. f_equal. lia.
Qed.

Lemma make_spec n :
  0 ≤ n < 2 ^ 61 →
  ∃ b, make n = Done b ∧ wf b ∧ contents b = [] ∧ writableBytes b = n.
Proof.
  intros Hn. unfold make. rewrite (wrapu_small 64) by (unfold kCheapPrepend; lia).
  set (b := Buffer.mk _ _ _).
  assert (Hb : wf b).
  { repeat split; cbn; rewrite ?length_replicate; unfold kCheapPrepend; lia. }
  assert (Hw : writableBytes b = n).
  { rewrite writable_eq by done. cbn. rewrite length_replicate. unfold kCheapPrepend. lia. }
  rewrite readable_eq, Hw, Z.eqb_refl by done. exists b. split_and!; try done.
  cbn [writerIndex_ readerIndex_ b]. by rewrite Z.sub_diag, Z.eqb_refl.
Qed.

Lemma toStringPiece_spec b :
  wf b → szof (contents b) ≤ INT_MAX →
  toStringPiece b = (contents b, szof (contents b)).
Proof.
  unfold INT_MAX. intros Hb Hm. unfold toStringPiece. rewrite length_contents in * by done.
  unfold_wf Hb. rewrite readable_eq in * by done.
  rewrite (wraps_small 32) by lia. unfold contents, peek. do 2 f_equal. lia.
Qed.

Lemma shrink_spec b n :
  wf b → 0 ≤ n < 2 ^ 60 → szof (contents b) ≤ INT_MAX →
  ∃ b', shrink n b = Done b' ∧ wf b' ∧ contents b' = contents b ∧ n ≤ writableBytes b'.
Proof.
  unfold INT_MAX. intros Hb Hn Hm. unfold shrink.
  destruct (make_spec kInitialSize) as (b0 & -> & H0 & Hc0 & _); [unfold kInitialSize; lia|].
  cbn [mbind outcome_bind]. rewrite <-length_contents by done.
  rewrite (wrapu_small 64) by lia.
  destruct (ensureWritableBytes_spec b0 (szof (contents b) + n) H0) as (b1 & -> & H1 & Hc1 & Hw1);
    [lia | unfold fits; rewrite Hc0; cbn [length]; lia |].
  cbn [mbind outcome_bind]. unfold appendPiece. rewrite toStringPiece_spec by done. cbn [fst snd].
  rewrite (proj2 (Z.leb_le _ _)) by lia. cbn [defined_if mbind outcome_bind].
  destruct (append_room b1 (contents b) H1) as (b2 & -> & H2 & Hc2 & Hw2); [lia|].
  exists b2. split_and!; [done..| |]; [by rewrite Hc2, Hc1, Hc0|lia].
Qed.

Lemma readInt16_front b x rest :
  wf b → contents b = be_bytes 2 x ++ rest →
  ∃ b', readInt16 b = Done (wraps 16 x, b') ∧ wf b' ∧ contents b' = rest.
Proof.
  intros Hb E. destruct (load_front b 2 x rest Hb E) as [Hx Hr].
  destruct (retrieve_front b 2 x rest Hb E) as (b' & Hret & Hb' & Hc').
  exists b'. unfold readInt16, peekInt16, retrieveInt16.
  rewrite (proj2 (Z.leb_le 2 _)) by exact Hr. cbn [cassert mbind outcome_bind].
  change 2 with (Z.of_nat 2). rewrite Hret. unfold networkToHost16. rewrite Hx.
  cbn [mbind outcome_bind]. change (256 ^ Z.of_nat 2) with (2 ^ 16). by rewrite wraps_wrapu by lia.
Qed.

Lemma readInt8_front b x rest :
  wf b → contents b = le_bytes 1 x ++ rest →
  ∃ b', readInt8 b = Done (wraps 8 x, b') ∧ wf b' ∧ contents b' = rest.
Proof.
  intros Hb E. destruct (load_front b 1 x rest Hb E) as [_ Hr].
  destruct (retrieve_front b 1 x rest Hb E) as (b' & Hret & Hb' & Hc').
  exists b'. unfold readInt8, peekInt8, retrieveInt8.
  rewrite (proj2 (Z.leb_le 1 _)) by exact Hr. cbn [cassert mbind outcome_bind].
  change (retrieve (Z.of_nat 1) b) with (retrieve 1 b) in Hret. rewrite Hret.
  cbn [mbind outcome_bind]. unfold load. rewrite range_peek by (done || lia).
  rewrite E. change (Z.to_nat 1) with 1%nat. rewrite take_app_le by (by rewrite length_le_bytes).
  rewrite (take_ge (le_bytes 1 x)) by (by rewrite length_le_bytes).
  rewrite le_value_bytes. change (256 ^ Z.of_nat 1) with (2 ^ 8). by rewrite wraps_wrapu by lia.
Qed.

(** ** Every operation *)

Lemma be_bytes_value l : be_bytes (length l) (be_value l) = l.
Proof. unfold be_bytes, be_value. by rewrite <-length_rev, le_bytes_value, rev_involutive. Qed.

Lemma readInt_spec w b :
  wf b → Z.of_nat (nbytes w) ≤ szof (contents b) →
  ∃ b', readInt w b = Done (wraps (nbits w) (be_value (take (nbytes w) (contents b))), b') ∧ wf b' ∧
        contents b' = drop (nbytes w) (contents b).
Proof.
  intros Hb Hn. set (l := take (nbytes w) (contents b)).
  assert (Hl : length l = nbytes w) by (unfold l; rewrite length_take; lia).
  assert (E : contents b = be_bytes (nbytes w) (be_value l) ++ drop (nbytes w) (contents b)).
  { rewrite <-Hl, be_bytes_value, Hl. unfold l. by rewrite take_drop. }
  destruct w; cbn [nbytes readInt] in *;
    [by apply readInt64_front|by apply readInt32_front|by apply readInt16_front|by apply readInt8_front].
Qed.

Lemma readInt_short w b :
  wf b → szof (contents b) < Z.of_nat (nbytes w) →
  (∃ what, readInt w b = Fault (AssertFailed what)) ∧ ∃ what, retrieveInt w b = Fault (AssertFailed what).
Proof.
  intros Hb Hn. rewrite length_contents in Hn by done.
  destruct w; cbn [nbytes readInt retrieveInt] in *;
    unfold readInt64, readInt32, readInt16, readInt8, peekInt64, peekInt32, peekInt16, peekInt8,
      retrieveInt64, retrieveInt32, retrieveInt16, retrieveInt8, retrieve;
    rewrite (proj2 (Z.leb_gt _ _)) by lia; split; by eexists.
Qed.

Lemma appendInt_eq w x b : appendInt w x b = append (be_bytes (nbytes w) x) b.
Proof.
  destruct w; cbn [appendInt nbytes]; unfold appendInt64, appendInt32, appendInt16,
    hostToNetwork64, hostToNetwork32, hostToNetwork16; by rewrite ?le_bytes_byteswap.
Qed.
Lemma prependInt_eq w x b : prependInt w x b = prepend (be_bytes (nbytes w) x) b.
Proof.
  destruct w; cbn [prependInt nbytes]; unfold prependInt64, prependInt32, prependInt16,
    hostToNetwork64, hostToNetwork32, hostToNetwork16; by rewrite ?le_bytes_byteswap.
Qed.
Lemma retrieveInt_eq w b : retrieveInt w b = retrieve (Z.of_nat (nbytes w)) b.
Proof. by destruct w. Qed.

Lemma appendString_spec b str :
  szof str ≤ INT_MAX → appendString str b = append str b.
Proof.
  unfold INT_MAX. intros Hs. unfold appendString, appendPiece, pieceOf. rewrite (wraps_small 32) by lia.
  cbn [fst snd]. rewrite (proj2 (Z.leb_le _ _)) by lia. cbn [defined_if mbind outcome_bind].
  by rewrite take_ge by lia.
Qed.

(** From 2^31 bytes on the length of the piece is negative. *)
Lemma appendString_too_long b str :
  2 ^ 31 ≤ szof str < 2 ^ 32 → appendString str b = Fault (Undefined "append: negative StringPiece length").
Proof.
  intros Hs. unfold appendString, appendPiece, pieceOf. cbn [snd].
  rewrite (proj2 (Z.leb_gt _ _)); [done|]. unfold wraps. rewrite <-(Z.mod_unique _ (2 ^ 32) 1 (szof str - 2 ^ 31)); lia.
Qed.

Lemma spare_length b : wf b → szof (spare b) = writableBytes b.
Proof. intros Hb. rewrite writable_eq by done. unfold_wf Hb. unfold spare. rewrite length_drop. lia. Qed.

Lemma hasWritten_spec b n :
  wf b → 0 ≤ n ≤ writableBytes b →
  ∃ b', hasWritten n b = Done b' ∧ wf b' ∧ contents b' = contents b ++ take (Z.to_nat n) (spare b).
Proof.
  intros Hb Hn. unfold_wf Hb. unfold hasWritten. rewrite (proj2 (Z.leb_le _ _)) by lia.
  rewrite writable_eq in Hn by done. cbn [cassert mbind outcome_bind]. rewrite (wrapu_small 64) by lia.
  eexists; split; [done|]. split; [repeat split; cbn; unfold kCheapPrepend; lia|].
  unfold contents, range, spare; cbn.
  replace (drop (Z.to_nat (writerIndex_ b)) (buffer_ b))
    with (drop (Z.to_nat (writerIndex_ b - readerIndex_ b)) (drop (Z.to_nat (readerIndex_ b)) (buffer_ b)))
    by (rewrite drop_drop; f_equal; lia).
  rewrite take_take_drop. f_equal. lia.
Qed.

(** What an operation has to do; the cases of [op_simulates] have this form. *)
Definition does (m : outcome (result * t * t)) (room : Z) (spec : result * bytes * bytes) : Prop :=
  ∃ res b' rhs', m = Done (res, b', rhs') ∧ wf b' ∧ wf rhs' ∧
    (res, contents b', contents rhs') = spec ∧ room ≤ writableBytes b'.

Lemma writable_nonneg b : 0 ≤ writableBytes b.
Proof. apply Z.mod_pos_bound. lia. Qed.

Lemma does_with {A} (f : A → result) (m : outcome (A * t)) rhs a c :
  wf rhs → (∃ b', m = Done (a, b') ∧ wf b' ∧ contents b' = c) →
  does ('(a, b) ← m; Done (f a, b, rhs)) 0 (f a, c, contents rhs).
Proof. intros Hr (b' & -> & Hb & <-). do 3 eexists. split; [done|]. split_and!; [done..|apply writable_nonneg]. Qed.

Lemma does_silent m rhs c :
  wf rhs → (∃ b', m = Done b' ∧ wf b' ∧ contents b' = c) →
  does (b ← m; Done (Nothing, b, rhs)) 0 (Nothing, c, contents rhs).
Proof. intros Hr (b' & -> & Hb & <-). do 3 eexists. split; [done|]. split_and!; [done..|apply writable_nonneg]. Qed.

Lemma op_simulates o b rhs :
  wf b → wf rhs → op_args o b → op_assert o b = true →
  does (run_op o b rhs) (op_room o) (queue_op o b (contents b) (contents rhs)).
Proof.
  intros Hb Hr Ha Hc. destruct o as [data|str|w x|r|data|w x|n|p|w| |n| |w|n|n|n|n|];
    cbn [op_assert op_args run_op queue_op op_room] in *; cbv zeta;
    rewrite ?Z.leb_le, ?andb_true_iff in Hc.
  - by apply does_silent, append_spec.
  - destruct Ha. rewrite appendString_spec by done. by apply does_silent, append_spec.
  - rewrite appendInt_eq. apply does_silent, append_spec; [done..|]. by rewrite length_be_bytes.
  - destruct r as [errno|data].
    + do 3 eexists. split; [done|]. split_and!; [done..|apply writable_nonneg].
    + destruct (readFd_spec b data Hb Ha) as (b' & -> & Hb' & Hc'). do 3 eexists. split; [done|].
      rewrite Hc'. split_and!; [done..|apply writable_nonneg].
  - by apply does_silent, prepend_spec.
  - rewrite prependInt_eq. apply does_silent, prepend_spec; [done..|]. by rewrite length_be_bytes.
  - by apply does_silent, retrieve_spec.
  - unfold retrieveUntil. rewrite !(proj2 (Z.leb_le _ _)) by lia. cbn [cassert mbind outcome_bind].
    apply does_silent, retrieve_spec; [done..|]. rewrite length_contents, readable_eq by done.
    unfold peek, beginWrite in *. lia.
  - rewrite retrieveInt_eq. apply does_silent; [done|].
    destruct (retrieve_spec b (Z.of_nat (nbytes w)) Hb) as (b' & Hd); [lia|]. rewrite Nat2Z.id in Hd. by exists b'.
  - apply does_silent; [done|]. destruct (retrieveAll_spec b Hb). eauto.
  - by apply does_with, retrieveAsString_spec.
  - unfold retrieveAllAsString. rewrite <-length_contents by done.
    apply does_with; [done|]. destruct (retrieveAsString_spec b (szof (contents b)) Hb) as (b' & -> & Hb' & Hc'); [lia|].
    exists b'. rewrite Hc', Nat2Z.id, take_ge, drop_ge by lia. done.
  - by apply does_with, readInt_spec.
  - destruct Ha as [Hn Hf]. destruct (ensureWritableBytes_spec b n Hb Hn Hf) as (b' & -> & Hb' & Hc' & Hw).
    do 3 eexists. split; [done|]. by rewrite Hc'.
  - apply does_silent, hasWritten_spec; [done..|]. rewrite <-spare_length by done. lia.
  - by apply does_silent, unwrite_spec.
  - destruct Ha as [Hn Hf]. destruct (shrink_spec b n Hb Hn Hf) as (b' & -> & Hb' & Hc' & Hw).
    do 3 eexists. split; [done|]. by rewrite Hc'.
  - do 3 eexists. split; [done|]. split_and!; [done..|apply writable_nonneg].
Qed.

Lemma op_fails o b rhs :
  wf b → op_assert o b = false → ∃ what, run_op o b rhs = Fault (AssertFailed what).
Proof.
  intros Hb Hc. destruct o as [data|str|w x|r|data|w x|n|p|w| |n| |w|n|n|n|n|];
    cbn [op_assert run_op] in *; cbv zeta; try done.
  - unfold prepend, prependableBytes. rewrite Hc. by eexists.
  - rewrite prependInt_eq. unfold prepend, prependableBytes. rewrite length_be_bytes, Hc. by eexists.
  - unfold retrieve. rewrite length_contents in Hc by done. rewrite Hc. by eexists.
  - unfold retrieveUntil. destruct (peek b <=? p); [|by eexists]. cbn in Hc. rewrite Hc. by eexists.
  - apply Z.leb_gt in Hc. destruct (readInt_short w b Hb Hc) as [_ [what ->]]. by eexists.
  - unfold retrieveAsString. rewrite length_contents in Hc by done. rewrite Hc. by eexists.
  - apply Z.leb_gt in Hc. destruct (readInt_short w b Hb Hc) as [[what ->] _]. by eexists.
  - unfold hasWritten. rewrite spare_length in Hc by done. rewrite Hc. by eexists.
  - unfold unwrite. rewrite length_contents in Hc by done. rewrite Hc. by eexists.
Qed.

(** Reading back an integer appended to an empty buffer. *)
Lemma append_then b data :
  wf b → contents b = [] → (length data ≤ 8)%nat →
  ∃ b', append data b = Done b' ∧ wf b' ∧ contents b' = data.
Proof.
  intros Hb Hc Hl. destruct (append_spec b data Hb) as (b' & ? & ? & E).
  { unfold fits. rewrite Hc. cbn [length]. lia. }
  exists b'. by rewrite E, Hc.
Qed.

(** * Properties *)

(** C12. [Buffer] implements a queue of bytes.  Every operation that changes a
    well-formed buffer - [append] of bytes, strings and integers, [readFd] with
    any result of [readv] (through [extrabuf] or not), [prepend], the [retrieve]
    and [read] families, [ensureWritableBytes], [hasWritten], [unwrite],
    [shrink], [swap] with another buffer - either performs the same operation on
    the readable bytes, returns the same bytes or integer, keeps the buffer well
    formed however the space was found, and makes the room it promises; or,
    exactly when its assertion does not hold, aborts.  [op_args] states the
    sizes this is for: lengths are not negative, there is memory for what an
    operation makes room for, and strings given to [append] and the readable
    bytes of a buffer that is shrunk number at most [INT_MAX]. *)
Theorem buffer_implements_queue o b rhs :
  wf b → wf rhs → op_args o b →
  if op_assert o b
  then ∃ res b' rhs', run_op o b rhs = Done (res, b', rhs') ∧ wf b' ∧ wf rhs' ∧
         (res, contents b', contents rhs') = queue_op o b (contents b) (contents rhs) ∧
         op_room o ≤ writableBytes b'
  else ∃ what, run_op o b rhs = Fault (AssertFailed what).
Proof. intros Hb Hr Ha. destruct (op_assert o b) eqn:E; [by apply op_simulates|by apply op_fails]. Qed.

Lemma buffer_implements_queue_witness :
  let b := Buffer.mk (replicate 16 x61) 10 15 in
  wf b ∧ op_assert (Append (replicate 40 x62)) b = true ∧
  ∃ res b' rhs', run_op (Append (replicate 40 x62)) b b = Done (res, b', rhs') ∧ wf b' ∧ wf rhs' ∧
    (res, contents b', contents rhs') = (Nothing, replicate 5 x61 ++ replicate 40 x62, replicate 5 x61) ∧
    0 ≤ writableBytes b'.
Proof.
  assert (Hb : wf (Buffer.mk (replicate 16 x61) 10 15)).
  { repeat split; cbn; unfold kCheapPrepend; lia. }
  split; [exact Hb|]. split; [reflexivity|].
  exact (buffer_implements_queue (Append (replicate 40 x62)) _ _ Hb Hb eq_refl).
Defined.

(** An integer appended to an empty buffer is read back unchanged modulo
    its width, and the read leaves the buffer empty: the host/network
    conversions of [appendIntN] and [readIntN] cancel for 8, 16, 32 and 64
    bits. *)
Theorem int_roundtrip b x :
  wf b → contents b = [] →
  (∃ b1 b2, appendInt64 x b = Done b1 ∧ readInt64 b1 = Done (wraps 64 x, b2) ∧ contents b2 = []) ∧
  (∃ b1 b2, appendInt32 x b = Done b1 ∧ readInt32 b1 = Done (wraps 32 x, b2) ∧ contents b2 = []) ∧
  (∃ b1 b2, appendInt16 x b = Done b1 ∧ readInt16 b1 = Done (wraps 16 x, b2) ∧ contents b2 = []) ∧
  (∃ b1 b2, appendInt8 x b = Done b1 ∧ readInt8 b1 = Done (wraps 8 x, b2) ∧ contents b2 = []).
Proof.
  intros Hb Hc. unfold appendInt64, appendInt32, appendInt16, appendInt8,
    hostToNetwork64, hostToNetwork32, hostToNetwork16. rewrite !le_bytes_byteswap.
  split_and!.
  - destruct (append_then b (be_bytes 8 x) Hb Hc) as (b1 & E1 & H1 & C1);
      [by rewrite length_be_bytes|].
    destruct (readInt64_front b1 x [] H1) as (b2 & E2 & _ & C2); [by rewrite app_nil_r|]. eauto.
  - destruct (append_then b (be_bytes 4 x) Hb Hc) as (b1 & E1 & H1 & C1);
      [rewrite length_be_bytes; lia|].
    destruct (readInt32_front b1 x [] H1) as (b2 & E2 & _ & C2); [by rewrite app_nil_r|]. eauto.
  - destruct (append_then b (be_bytes 2 x) Hb Hc) as (b1 & E1 & H1 & C1);
      [rewrite length_be_bytes; lia|].
    destruct (readInt16_front b1 x [] H1) as (b2 & E2 & _ & C2); [by rewrite app_nil_r|]. eauto.
  - destruct (append_then b (le_bytes 1 x) Hb Hc) as (b1 & E1 & H1 & C1);
      [rewrite length_le_bytes; lia|].
    destruct (readInt8_front b1 x [] H1) as (b2 & E2 & _ & C2); [by rewrite app_nil_r|]. eauto.
Qed.

Lemma int_roundtrip_witness :
  let b := Buffer.mk (replicate 8 x00) 8 8 in
  wf b ∧ ∃ b1 b2, appendInt32 (-2) b = Done b1 ∧ readInt32 b1 = Done (-2, b2) ∧ contents b2 = [].
Proof.
  assert (Hb : wf (Buffer.mk (replicate 8 x00) 8 8)).
  { repeat split; cbn; unfold kCheapPrepend; lia. }
  split; [exact Hb|].
  destruct (int_roundtrip _ (-2) Hb eq_refl) as (_ & Hx & _). exact Hx.
Defined.

(** [findCRLF] returns the first CR LF of the readable bytes: the text
    before the returned offset has none, two characters CR LF follow it, and
    null is returned exactly when the readable bytes have none; [findEOL] finds
    the first LF likewise. *)
Theorem findCRLF_first b :
  match findCRLF b with
  | Some p => ∃ pre post, contents b = pre ++ kCRLF ++ post ∧ p = peek b + szof pre ∧
                          ∀ x y, pre ≠ x ++ kCRLF ++ y
  | None => ∀ pre post, contents b ≠ pre ++ kCRLF ++ post
  end ∧
  match findEOL b with
  | Some p => ∃ pre post, contents b = pre ++ x0a :: post ∧ p = peek b + szof pre ∧ x0a ∉ pre
  | None => x0a ∉ contents b
  end.
Proof.
  split; [|apply memchr_spec].
  unfold findCRLF. fold (contents b).
  pose proof (search_crlf_spec (peek b) (contents b)) as Hs.
  change (range (peek b) (beginWrite b) b) with (contents b).
  destruct (search_crlf (peek b) (contents b)) as [p|]; [|done].
  destruct Hs as (pre & post & ? & ? & Hn). exists pre, post. split_and!; [done..|].
  by apply (search_crlf_none (peek b) pre).
Qed.
