(* ===== verification/Codec.v ===== *)
(** Protobuf messages on a stream
    (src/IMServer/src/muduo/net/protobuf: ProtobufCodecLite.h,
    ProtobufCodecLite.cc).  A frame is a length, a tag, the serialized message
    and a checksum.  The library of protocol buffers and zlib are parameters: how
    a message is serialized and parsed, and [adler32]. *)

From S2P Require Import Prelude Buffer.
Local Open Scope Z_scope.

(** What the code uses of [google::protobuf::Message]. *)
Class ProtobufMessage (M : Type) := {
  IsInitialized : M → bool;
  ByteSize : M → Z;                       (* [ByteSize()], or [ToIntSize( ByteSizeLong() )] *)
  SerializeToArray : M → bytes;           (* what [SerializeWithCachedSizesToArray] writes *)
  ParseFromArray : bytes → option M       (* into a message just made by [New()] *)
}.
(** What the library documents of them. *)
Class ProtobufLaws (M : Type) `{!ProtobufMessage M} := {
  ByteSize_spec m : ByteSize m = szof (SerializeToArray m);
  Parse_serialized m : IsInitialized m = true → ParseFromArray (SerializeToArray m) = Some m
}.

Module ProtobufCodecLite.

Definition kHeaderLen : Z := 4.
Definition kChecksumLen : Z := 4.
Definition kMaxMessageLen : Z := 64 * 1024 * 1024.

Inductive ErrorCode := kNoError | kInvalidLength | kCheckSumError | kInvalidNameLen | kUnknownMessageType | kParseError.
#[export] Instance ErrorCode_eq_dec : EqDecision ErrorCode.
Proof. solve_decision. Defined.

(** [errorCodeToString( errorCode )] *)
Definition errorCodeToString (errorCode : ErrorCode) : bytes :=
  bs match errorCode with
     | kNoError => "NoError" | kInvalidLength => "InvalidLength" | kCheckSumError => "CheckSumError"
     | kInvalidNameLen => "InvalidNameLen" | kUnknownMessageType => "UnknownMessageType" | kParseError => "ParseError"
     end.

(** [asInt32( buf )] *)
Definition asInt32 (buf : bytes) : Z := s32 (Buffer.networkToHost32 (le_value (take 4 buf))).

Section codec.
Context {M : Type} `{!ProtobufMessage M}.
Context (adler32 : bytes → Z) (tag_ : bytes).
(** [rawCb_]: whether it is set, and its result. *)
Context (rawCb_ : option (bytes → bool)).

(** [kMinMessageLen( tagArg.size() + kChecksumLen )] *)
Definition kMinMessageLen : Z := s32 (szof tag_ + kChecksumLen).

(** [checksum( buf, len )] *)
Definition checksum (buf : bytes) : Z := s32 (adler32 buf).

(** [validateChecksum( buf, len )] *)
Definition validateChecksum (buf : bytes) : bool :=
  let expectedCheckSum := asInt32 (drop (length buf - 4) buf) in
  let checkSum := checksum (take (length buf - 4) buf) in
  checkSum =? expectedCheckSum.

(** [parse( buf, len, message )]: the error, and the message if there is none. *)
Definition parse (buf : bytes) : ErrorCode * option M :=
  if validateChecksum buf then
    if decide (take (length tag_) buf = tag_) then
      let dataLen := (length buf - 4 - length tag_)%nat in
      match ParseFromArray (take dataLen (drop (length tag_) buf)) with
      | Some message => (kNoError, Some message)
      | None => (kParseError, None)
      end
    else (kUnknownMessageType, None)
  else (kCheckSumError, None).

(** [serializeToBuffer( message, buf )]: the message is written to the writable
    memory of the buffer. *)
Definition serializeToBuffer (message : M) (buf : Buffer.t) : outcome (Z * Buffer.t) :=
  _ ← cassert (IsInitialized message) "message.IsInitialized()";
  let byte_size := ByteSize message in
  buf ← Buffer.ensureWritableBytes (u64 (byte_size + kChecksumLen)) buf;
  let data := SerializeToArray message in
  _ ← defined_if (szof data <=? Buffer.writableBytes buf) "write behind the buffer";
  let buf := Buffer.mk (Buffer.copy_at (Buffer.beginWrite buf) data (Buffer.buffer_ buf))
               (Buffer.readerIndex_ buf) (Buffer.writerIndex_ buf) in
  _ ← cassert (szof data =? byte_size) "ByteSizeConsistencyError";
  buf ← Buffer.hasWritten byte_size buf;
  Done (byte_size, buf).

(** [fillEmptyBuffer( buf, message )] *)
Definition fillEmptyBuffer (message : M) (buf : Buffer.t) : outcome Buffer.t :=
  _ ← cassert (Buffer.readableBytes buf =? 0) "buf->readableBytes() == 0";
  buf ← Buffer.appendString tag_ buf;
  '(byte_size, buf) ← serializeToBuffer message buf;
  let checkSum := checksum (Buffer.contents buf) in
  buf ← Buffer.appendInt32 checkSum buf;
  _ ← cassert (Buffer.readableBytes buf =? u64 (szof tag_ + byte_size + kChecksumLen))
        "buf->readableBytes() == tag_.size() + byte_size + kChecksumLen";
  let len := Buffer.hostToNetwork32 (s32 (Buffer.readableBytes buf)) in
  Buffer.prepend (le_bytes 4 len) buf.

(** [send( conn, message )]: what is sent on the connection. *)
Definition send (message : M) : outcome bytes :=
  buf ← Buffer.make Buffer.kInitialSize;
  buf ← fillEmptyBuffer message buf;
  Done (Buffer.contents buf).

(** What [onMessage] calls. *)
Inductive call :=
  | Raw (piece : bytes)                   (* [rawCb_] *)
  | Received (message : M)                (* [messageCallback_] *)
  | Failed (errorCode : ErrorCode).       (* [errorCallback_] *)

(** The loop of [onMessage( conn, buf, receiveTime )]. *)
Fixpoint onMessage_loop (fuel : nat) (buf : Buffer.t) : outcome (list call * Buffer.t) :=
  match fuel with
  | O => Fault OutOfFuel
  | S fuel =>
      if u32 (kMinMessageLen + kHeaderLen) <=? Buffer.readableBytes buf then
        len ← Buffer.peekInt32 buf;
        if (kMaxMessageLen <? len) || (len <? kMinMessageLen) then Done ([Failed kInvalidLength], buf)
        else if u64 (kHeaderLen + len) <=? Buffer.readableBytes buf then
          let piece := Buffer.range (Buffer.peek buf) (Buffer.peek buf + kHeaderLen + len) buf in
          let raw := match rawCb_ with Some _ => [Raw piece] | None => [] end in
          let go_on := match rawCb_ with Some f => f piece | None => true end in
          if negb go_on then
            buf ← Buffer.retrieve (u64 (kHeaderLen + len)) buf;
            '(calls, buf) ← onMessage_loop fuel buf;
            Done (raw ++ calls, buf)
          else
            match parse (drop 4 piece) with
            | (kNoError, Some message) =>
                buf ← Buffer.retrieve (u64 (kHeaderLen + len)) buf;
                '(calls, buf) ← onMessage_loop fuel buf;
                Done (raw ++ Received message :: calls, buf)
            | (errorCode, _) => Done (raw ++ [Failed errorCode], buf)
            end
        else Done ([], buf)
      else Done ([], buf)
  end.
Definition onMessage (buf : Buffer.t) : outcome (list call * Buffer.t) :=
  onMessage_loop (S (length (Buffer.contents buf))) buf.

(** Segments of the stream arrive one by one. *)
Fixpoint deliver (segments : list bytes) (buf : Buffer.t) : outcome (list call * Buffer.t) :=
  match segments with
  | [] => Done ([], buf)
  | data :: segments =>
      buf ← Buffer.append data buf;
      '(calls, buf) ← onMessage buf;
      '(more, buf) ← deliver segments buf;
      Done (calls ++ more, buf)
  end.

End codec.
Arguments Raw {M} piece. Arguments Received {M} message. Arguments Failed {M} errorCode.

(** [defaultErrorCallback( conn, buf, ... )]: whether the connection, if it is
    connected, is shut down. *)
Definition defaultErrorCallback (connected : option bool) (errorCode : ErrorCode) : bool :=
  match connected with Some connected => connected | None => false end.

End ProtobufCodecLite.

(** * Frames *)
Section frames.
Import ProtobufCodecLite.
Context {M : Type} `{!ProtobufMessage M, !ProtobufLaws M}.
Context (adler32 : bytes → Z) (tag_ : bytes) (rawCb_ : option (bytes → bool)).
Context (Htag : szof tag_ + 4 ≤ kMaxMessageLen).
Notation kMinMessageLen := (kMinMessageLen tag_).
Notation checksum := (checksum adler32).
Notation parse := (parse adler32 tag_).
Notation onMessage_loop := (onMessage_loop adler32 tag_ rawCb_).
Notation onMessage := (onMessage adler32 tag_ rawCb_).
Notation deliver := (deliver adler32 tag_ rawCb_).
Notation call := (@call M).

(** The frame of a message, from its wire format. *)
Definition payload (m : M) : bytes := tag_ ++ SerializeToArray m.
Definition body (m : M) : bytes := payload m ++ be_bytes 4 (checksum (payload m)).
Definition frame (m : M) : bytes := be_bytes 4 (szof (body m)) ++ body m.
Definition message_ok (m : M) : Prop := IsInitialized m = true ∧ szof (body m) ≤ kMaxMessageLen.

Lemma min_len : kMinMessageLen = szof tag_ + 4.
Proof. unfold ProtobufCodecLite.kMinMessageLen, kChecksumLen, kMaxMessageLen in *. apply wraps_small; cbn; lia. Qed.

Lemma body_length m : szof (body m) = szof tag_ + szof (SerializeToArray m) + 4.
Proof. unfold body, payload. rewrite !length_app, length_be_bytes. lia. Qed.
Lemma frame_length m : szof (frame m) = 4 + szof (body m).
Proof. unfold frame. rewrite length_app, length_be_bytes. lia. Qed.

Lemma asInt32_be x l : asInt32 (be_bytes 4 x ++ l) = s32 x.
Proof.
  unfold asInt32. rewrite <-(length_be_bytes 4 x) at 1. rewrite take_app_length.
  unfold Buffer.networkToHost32. rewrite (byteswap_bytes 4 x) by done.
  change (256 ^ Z.of_nat 4) with (2 ^ 32). by apply wraps_wrapu.
Qed.

(** A frame is accepted. *)
Lemma validate_body m : validateChecksum adler32 (body m) = true.
Proof.
  assert (length (body m) - 4 = length (payload m))%nat as El.
  { unfold body. rewrite length_app, length_be_bytes. lia. }
  unfold validateChecksum. rewrite El. apply Z.eqb_eq. unfold body. rewrite take_app_length, drop_app_length.
  rewrite <-(app_nil_r (be_bytes 4 _)), asInt32_be. symmetry. unfold ProtobufCodecLite.checksum. apply wraps_small; [done|].
  unfold wraps. pose proof (Z.mod_pos_bound (adler32 (payload m) + 2 ^ (32 - 1)) (2 ^ 32) eq_refl). cbn in *. lia.
Qed.
Lemma parse_body m : IsInitialized m = true → parse (body m) = (kNoError, Some m).
Proof.
  intros Hi. unfold ProtobufCodecLite.parse. rewrite validate_body.
  assert (body m = tag_ ++ SerializeToArray m ++ be_bytes 4 (checksum (payload m))) as Eb.
  { unfold body, payload. by rewrite <-app_assoc. }
  rewrite decide_True by (by rewrite Eb, take_app_length). cbv zeta.
  assert (length (body m) - 4 - length tag_ = length (SerializeToArray m))%nat as El.
  { rewrite Eb, !length_app, length_be_bytes. lia. }
  rewrite El. rewrite Eb, drop_app_length, take_app_length. by rewrite Parse_serialized.
Qed.

(** ** Sending *)

Lemma append_reader data b b' : Buffer.append data b = Done b' → 8 ≤ Buffer.readerIndex_ b → 8 ≤ Buffer.readerIndex_ b'.
Proof.
  unfold Buffer.append, Buffer.ensureWritableBytes, Buffer.makeSpace, Buffer.hasWritten. intros H Hr.
  destruct (Buffer.writableBytes b <? szof data); [destruct (_ <? _)|]; destruct_done H; injection H as <-;
    repeat match goal with
      | E : mbind _ _ = Done _ |- _ => destruct_done E
      | E : Done _ = Done _ |- _ => injection E as <-
    end; cbn; done || lia.
Qed.

Lemma serialize_ok m b : Buffer.wf b → 8 ≤ Buffer.readerIndex_ b → IsInitialized m = true → szof (Buffer.contents b) ≤ 2 ^ 32 →
  szof (SerializeToArray m) ≤ 2 ^ 32 →
  ∃ b', serializeToBuffer m b = Done (szof (SerializeToArray m), b') ∧ Buffer.wf b' ∧ 8 ≤ Buffer.readerIndex_ b' ∧
    Buffer.contents b' = Buffer.contents b ++ SerializeToArray m.
Proof.
  intros Hb Hr Hi Hc Hs. unfold serializeToBuffer. rewrite cassert_bind by done. cbv zeta. rewrite ByteSize_spec.
  unfold kChecksumLen. rewrite wrapu_small by lia.
  set (data := SerializeToArray m) in *.
  destruct (ensureWritableBytes_spec b (szof data + 4) Hb) as (b1 & He & Hb1 & Hc1 & Hw1); [lia|unfold Buffer.fits; lia|].
  rewrite He, bind_ret_l. rewrite defined_if_bind by (apply Z.leb_le; lia). rewrite cassert_bind by apply Z.eqb_refl.
  assert (8 ≤ Buffer.readerIndex_ b1) as Hr1.
  { unfold Buffer.ensureWritableBytes, Buffer.makeSpace in He.
    destruct (Buffer.writableBytes b <? szof data + 4); [destruct (_ <? _)|]; destruct_done He; injection He as <-;
      repeat match goal with
      | E : mbind _ _ = Done _ |- _ => destruct_done E
      | E : Done _ = Done _ |- _ => injection E as <-
      end; cbn; done || lia. }
  (* what append does once there is room *)
  assert (Buffer.append data b1 = Buffer.hasWritten (szof data) (Buffer.mk (Buffer.copy_at (Buffer.beginWrite b1) data (Buffer.buffer_ b1))
            (Buffer.readerIndex_ b1) (Buffer.writerIndex_ b1))) as Ea.
  { unfold Buffer.append, Buffer.ensureWritableBytes. rewrite (proj2 (Z.ltb_ge _ _)) by lia. rewrite bind_ret_l.
    by rewrite (proj2 (Z.leb_le _ _)) by lia. }
  destruct (append_spec b1 data Hb1) as (b2 & Hap & Hb2 & Hc2); [unfold Buffer.fits; rewrite Hc1; lia|].
  rewrite <-Ea, Hap, bind_ret_l. exists b2. split_and!; [done|done|by eapply append_reader|by rewrite Hc2, Hc1].
Qed.

Lemma send_frame m : message_ok m → send adler32 tag_ m = Done (frame m).
Proof.
  intros [Hi Hlen]. pose proof (body_length m) as Hbl. unfold kMaxMessageLen in *. unfold send.
  destruct (make_spec Buffer.kInitialSize) as (b0 & Hmake & Hb0 & Hc0 & _); [unfold Buffer.kInitialSize; lia|].
  rewrite Hmake, bind_ret_l. unfold fillEmptyBuffer.
  rewrite <-length_contents, Hc0 by done. rewrite cassert_bind by done.
  assert (8 ≤ Buffer.readerIndex_ b0) as Hr0 by (unfold Buffer.make in Hmake; destruct_done Hmake; by injection Hmake as <-).
  destruct (append_spec b0 tag_ Hb0) as (b1 & Ha1 & Hb1 & Hc1); [unfold Buffer.fits; rewrite Hc0; cbn; lia|].
  rewrite appendString_spec, Ha1, bind_ret_l by (unfold INT_MAX; lia).
  rewrite Hc0 in Hc1. cbn in Hc1. pose proof (append_reader _ _ _ Ha1 Hr0) as Hr1.
  destruct (serialize_ok m b1 Hb1 Hr1 Hi) as (b2 & Hs & Hb2 & Hr2 & Hc2); [rewrite Hc1; lia|lia|]. rewrite Hs, bind_ret_l. cbv beta iota zeta.
  rewrite Hc1 in Hc2. fold (payload m) in Hc2. rewrite Hc2.
  unfold Buffer.appendInt32, Buffer.hostToNetwork32. rewrite le_bytes_byteswap.
  destruct (append_spec b2 (be_bytes 4 (checksum (payload m))) Hb2) as (b3 & Ha3 & Hb3 & Hc3).
  { unfold Buffer.fits. rewrite Hc2, length_be_bytes. unfold payload. rewrite length_app. lia. }
  rewrite Ha3, bind_ret_l. rewrite Hc2 in Hc3. fold (body m) in Hc3. pose proof (append_reader _ _ _ Ha3 Hr2) as Hr3.
  rewrite <-length_contents, Hc3 by done. unfold kChecksumLen.
  rewrite cassert_bind by (apply Z.eqb_eq; rewrite wrapu_small; lia).
  rewrite wraps_small by (cbn; lia). rewrite le_bytes_byteswap.
  destruct (prepend_spec b3 (be_bytes 4 (szof (body m))) Hb3) as (b4 & Hp & Hb4 & Hc4); [rewrite length_be_bytes; lia|].
  rewrite Hp, bind_ret_l, Hc4, Hc3. done.
Qed.

(** ** Receiving: a decoder of byte strings *)

Definition raw_calls (piece : bytes) : list call := match rawCb_ with Some _ => [Raw piece] | None => [] end.
Definition go_on (piece : bytes) : bool := match rawCb_ with Some f => f piece | None => true end.

(** What happens at the front of a stream: nothing yet, an error, or a frame is
    consumed. *)
Inductive verdict :=
  | Wait
  | Refuse (calls : list call)
  | Consume (calls : list call) (rest : bytes).
Definition front (l : bytes) : verdict :=
  if kMinMessageLen + 4 <=? szof l then
    let len := asInt32 l in
    if (kMaxMessageLen <? len) || (len <? kMinMessageLen) then Refuse [Failed kInvalidLength]
    else if 4 + len <=? szof l then
      let piece := take (Z.to_nat (4 + len)) l in
      let rest := drop (Z.to_nat (4 + len)) l in
      if negb (go_on piece) then Consume (raw_calls piece) rest
      else match parse (drop 4 piece) with
           | (kNoError, Some m) => Consume (raw_calls piece ++ [Received m]) rest
           | (e, _) => Refuse (raw_calls piece ++ [Failed e])
           end
    else Wait
  else Wait.
Fixpoint decode (fuel : nat) (l : bytes) : list call * bytes :=
  match fuel with
  | O => ([], l)
  | S fuel =>
      match front l with
      | Wait => ([], l)
      | Refuse calls => (calls, l)
      | Consume calls rest => let '(more, rest) := decode fuel rest in (calls ++ more, rest)
      end
  end.

Lemma parse_result piece : match parse piece with (kNoError, None) => False | _ => True end.
Proof.
  unfold ProtobufCodecLite.parse. destruct (validateChecksum adler32 piece); [|done]. case_decide; [|done]. cbv zeta.
  by destruct (ParseFromArray _).
Qed.

Lemma front_shorter l calls rest : front l = Consume calls rest → (length rest < length l)%nat ∧ ∃ k, rest = drop k l.
Proof.
  unfold front. rewrite min_len. destruct (Z.leb_spec (szof tag_ + 4 + 4) (szof l)); [|done]. cbv zeta.
  destruct (_ || _) eqn:E; [done|]. apply orb_false_iff in E as [_ E]. apply Z.ltb_ge in E.
  destruct (Z.leb_spec (4 + asInt32 l) (szof l)); [|done].
  assert (∀ c, Consume c (drop (Z.to_nat (4 + asInt32 l)) l) = Consume calls rest →
    (length rest < length l)%nat ∧ ∃ k, rest = drop k l) as Hd.
  { intros c [= _ <-]. split; [rewrite length_drop; lia|by eexists]. }
  destruct (negb _); [by apply Hd|]. pose proof (parse_result (drop 4 (take (Z.to_nat (4 + asInt32 l)) l))).
  destruct (parse _) as [[] [m|]]; done || by apply Hd.
Qed.

(** The loop over a buffer is the decoder on its contents. *)
Lemma onMessage_decodes fuel b : Buffer.wf b → (length (Buffer.contents b) < fuel)%nat →
  ∃ b', onMessage_loop fuel b = Done ((decode fuel (Buffer.contents b)).1, b') ∧ Buffer.wf b' ∧
    Buffer.contents b' = (decode fuel (Buffer.contents b)).2 ∧ (front (Buffer.contents b) = Wait → b' = b) ∧
    (∀ c, front (Buffer.contents b) = Refuse c → b' = b).
Proof.
  revert b. induction fuel as [|fuel IH]; intros b Hb Hf; [lia|].
  cbn [ProtobufCodecLite.onMessage_loop decode]. pose proof (length_contents b Hb) as Hl. set (l := Buffer.contents b) in *.
  unfold front at 1 2 3 4. rewrite min_len in *. unfold kHeaderLen, kMaxMessageLen in *. rewrite wrapu_small by lia. rewrite <-Hl.
  destruct (Z.leb_spec (szof tag_ + 4 + 4) (szof l)) as [Hge|]; [|exists b; by split_and!].
  unfold Buffer.peekInt32. rewrite <-Hl. rewrite cassert_bind by (apply Z.leb_le; lia). rewrite bind_ret_l.
  assert (s32 (Buffer.networkToHost32 (Buffer.load 4 b)) = asInt32 l) as ->.
  { unfold asInt32, Buffer.load. rewrite range_peek by (done || lia). done. }
  cbv zeta. destruct ((64 * 1024 * 1024 <? asInt32 l) || (asInt32 l <? szof tag_ + 4)) eqn:E; [exists b; by split_and!|].
  apply orb_false_iff in E as [E1 E2]. apply Z.ltb_ge in E1, E2. rewrite wrapu_small by lia.
  destruct (Z.leb_spec (4 + asInt32 l) (szof l)) as [Hfull|]; [|exists b; by split_and!].
  assert (Buffer.range (Buffer.peek b) (Buffer.peek b + 4 + asInt32 l) b = take (Z.to_nat (4 + asInt32 l)) l) as ->.
  { rewrite <-Z.add_assoc. apply range_peek; [done|lia]. }
  set (piece := take (Z.to_nat (4 + asInt32 l)) l).
  destruct (retrieve_spec b (4 + asInt32 l) Hb) as (b1 & Hr & Hb1 & Hc1); [fold l; lia|]. fold l in Hc1.
  assert (∀ c, ∃ b', (buf ← Buffer.retrieve (4 + asInt32 l) b; '(calls, buf) ← onMessage_loop fuel buf; Done (c ++ calls, buf)) =
      Done ((let '(more, rest) := decode fuel (drop (Z.to_nat (4 + asInt32 l)) l) in (c ++ more, rest)).1, b') ∧ Buffer.wf b' ∧
    Buffer.contents b' = (let '(more, rest) := decode fuel (drop (Z.to_nat (4 + asInt32 l)) l) in (c ++ more, rest)).2) as Hgo.
  { intros c. rewrite Hr, bind_ret_l. destruct (IH b1 Hb1) as (b' & Hm & Hb' & Hc' & _); [rewrite Hc1, length_drop; lia|].
    rewrite Hm, bind_ret_l, Hc1 in *. exists b'. destruct (decode fuel _). by split_and!. }
  change (match rawCb_ with Some f => f piece | None => true end) with (go_on piece).
  change (match rawCb_ with Some _ => [Raw piece] | None => [] end) with (raw_calls piece).
  destruct (negb (go_on piece)); [destruct (Hgo (raw_calls piece)) as (b' & -> & Hb' & Hc'); exists b'; by split_and!|].
  pose proof (parse_result (drop 4 piece)) as Hp.
  destruct (parse (drop 4 piece)) as [[] [m|]]; try done; try (exists b; by split_and!).
  destruct (Hgo (raw_calls piece ++ [Received m])) as (b' & Hd & Hb' & Hc'). exists b'. split_and!; [|done..].
  rewrite <-Hd, Hr, !bind_ret_l. destruct (onMessage_loop fuel b1) as [[more b2]|]; [|done]. cbn. by rewrite <-app_assoc.
Qed.

(** ** Streams of frames *)

(** The calls for the frame of a message. *)
Definition reaction (m : M) : list call :=
  raw_calls (frame m) ++ if go_on (frame m) then [Received m] else [].
Definition decode_all (l : bytes) : list call * bytes := decode (S (length l)) l.

Lemma decode_fuel f1 f2 l : (length l < f1)%nat → (length l < f2)%nat → decode f1 l = decode f2 l.
Proof.
  revert f2 l. induction f1 as [|f1 IH]; intros [|f2] l H1 H2; try lia. cbn [decode].
  destruct (front l) as [| |c rest] eqn:E; try done. apply front_shorter in E as [? _]. by rewrite (IH f2) by lia.
Qed.
Lemma decode_all_eq l : decode_all l =
  match front l with
  | Wait => ([], l)
  | Refuse calls => (calls, l)
  | Consume calls rest => let '(more, rest) := decode_all rest in (calls ++ more, rest)
  end.
Proof.
  unfold decode_all at 1. cbn [decode]. destruct (front l) as [| |c rest] eqn:E; try done.
  apply front_shorter in E as [? _]. unfold decode_all. by rewrite (decode_fuel _ (S (length rest))) by lia.
Qed.

Lemma asInt32_app l y : (4 <= length l)%nat → asInt32 (l ++ y) = asInt32 l.
Proof. intros Hl. unfold asInt32. by rewrite take_app_le by lia. Qed.

(** What comes later does not change what was decided. *)
Lemma front_app l y : match front l with
  | Wait => True
  | Refuse c => front (l ++ y) = Refuse c
  | Consume c rest => front (l ++ y) = Consume c (rest ++ y)
  end.
Proof.
  unfold front. rewrite min_len, length_app.
  destruct (Z.leb_spec (szof tag_ + 4 + 4) (szof l)); [|done].
  rewrite (proj2 (Z.leb_le (szof tag_ + 4 + 4) _)), asInt32_app by lia. cbv zeta. destruct (_ || _) eqn:E; [done|]. apply orb_false_iff in E as [_ E]. apply Z.ltb_ge in E.
  destruct (Z.leb_spec (4 + asInt32 l) (szof l)); [|done]. rewrite (proj2 (Z.leb_le (4 + asInt32 l) _)) by lia.
  rewrite take_app_le, drop_app_le by lia. destruct (negb _); [done|].
  by destruct (parse _) as [[] [m|]].
Qed.

Lemma front_frame m y : message_ok m → front (frame m ++ y) = Consume (reaction m) y.
Proof.
  intros [Hi Hlen]. pose proof (body_length m) as Hbl. pose proof (frame_length m) as Hfl. unfold front. rewrite min_len, length_app.
  rewrite (proj2 (Z.leb_le _ _)) by lia.
  assert (asInt32 (frame m ++ y) = szof (body m)) as ->.
  { unfold frame. rewrite <-app_assoc, asInt32_be. apply wraps_small; [done|]. unfold kMaxMessageLen in *. cbn. lia. }
  cbv zeta. rewrite (proj2 (orb_false_iff _ _)) by (split; apply Z.ltb_ge; lia). rewrite (proj2 (Z.leb_le _ _)) by lia.
  assert (Z.to_nat (4 + szof (body m)) = length (frame m)) as -> by lia.
  rewrite take_app_length, drop_app_length. unfold reaction. destruct (go_on (frame m)); cbn [negb]; [|by rewrite app_nil_r].
  assert (drop 4 (frame m) = body m) as ->.
  { unfold frame. rewrite <-(length_be_bytes 4 (szof (body m))) at 1. by rewrite drop_app_length. }
  by rewrite parse_body.
Qed.
Lemma front_prefix m l z : message_ok m → frame m = l ++ z → z ≠ [] → front l = Wait.
Proof.
  intros [Hi Hlen] Hf Hz. pose proof (body_length m) as Hbl. pose proof (frame_length m) as Hfl.
  assert (szof l < szof (frame m)) as Hlt by (rewrite Hf, length_app; destruct z; [done|cbn; lia]).
  unfold front. rewrite min_len. destruct (Z.leb_spec (szof tag_ + 4 + 4) (szof l)); [|done].
  assert (asInt32 l = szof (body m)) as ->.
  { rewrite <-(asInt32_app l z), <-Hf by lia. unfold frame. rewrite asInt32_be. apply wraps_small; [done|].
    unfold kMaxMessageLen in *. cbn. lia. }
  cbv zeta. rewrite (proj2 (orb_false_iff _ _)) by (split; apply Z.ltb_ge; lia). by rewrite (proj2 (Z.leb_gt _ _)) by lia.
Qed.

(** A part of a stream of frames is decoded up to its last whole frame. *)
Lemma decode_part ms : Forall message_ok ms → ∀ l y, l ++ y = concat (map frame ms) →
  ∃ ms1 ms2 r, ms = ms1 ++ ms2 ∧ decode_all l = (concat (map reaction ms1), r) ∧ r ++ y = concat (map frame ms2) ∧ front r = Wait.
Proof.
  induction 1 as [|m ms Hm Hms IH]; intros l y Hl; cbn [map concat] in Hl.
  - apply app_eq_nil in Hl as [-> ->]. assert (front [] = Wait) as Hw.
    { unfold front. rewrite min_len. by rewrite (proj2 (Z.leb_gt _ _)) by (cbn; lia). }
    exists [], [], []. by rewrite decode_all_eq, Hw.
  - apply app_eq_app in Hl as (z & [[-> Hy]|[Hf ->]]).
    + destruct (IH z y (eq_sym Hy)) as (ms1 & ms2 & r & -> & Hd & Hr & Hw).
      exists (m :: ms1), ms2, r. rewrite decode_all_eq, front_frame, Hd by done. by split_and!.
    + destruct z as [|x z].
      * rewrite app_nil_r in Hf. subst l. destruct (IH [] _ eq_refl) as (ms1 & ms2 & r & -> & Hd & Hr & Hw).
        exists (m :: ms1), ms2, r. rewrite <-(app_nil_r (frame m)) at 1. rewrite decode_all_eq, front_frame, Hd by done. by split_and!.
      * assert (front l = Wait) as Hw by by eapply front_prefix. exists [], (m :: ms), l. rewrite decode_all_eq, Hw. split_and!; try done.
        cbn [map concat]. by rewrite Hf, <-app_assoc.
Qed.

Lemma onMessage_whole b : Buffer.wf b → ∃ b', onMessage b = Done ((decode_all (Buffer.contents b)).1, b') ∧ Buffer.wf b' ∧
  Buffer.contents b' = (decode_all (Buffer.contents b)).2.
Proof.
  intros Hb. destruct (onMessage_decodes (S (length (Buffer.contents b))) b Hb) as (b' & ? & ? & ? & _); [lia|]. by exists b'.
Qed.

Lemma deliver_frames segments : ∀ ms b, Forall message_ok ms → Buffer.wf b → front (Buffer.contents b) = Wait →
  Buffer.contents b ++ concat segments = concat (map frame ms) → szof (Buffer.contents b ++ concat segments) < 2 ^ 60 →
  ∃ b', deliver segments b = Done (concat (map reaction ms), b') ∧ Buffer.wf b' ∧ Buffer.contents b' = [].
Proof.
  induction segments as [|data segments IH]; intros ms b Hms Hb Hw Hc Hs; cbn [ProtobufCodecLite.deliver].
  - rewrite app_nil_r in Hc. destruct Hms as [|m ms Hm]; [by exists b|]. cbn [map concat] in Hc. by rewrite Hc, front_frame in Hw.
  - cbn [concat] in Hc, Hs. rewrite !length_app in Hs.
    destruct (append_spec b data Hb) as (b1 & -> & Hb1 & Hc1); [unfold Buffer.fits; lia|]. rewrite bind_ret_l.
    destruct (onMessage_whole b1 Hb1) as (b2 & -> & Hb2 & Hc2). rewrite bind_ret_l, Hc1 in *.
    destruct (decode_part ms Hms (Buffer.contents b ++ data) (concat segments)) as (ms1 & ms2 & r & -> & Hd & Hr & Hwr).
    { by rewrite <-app_assoc. }
    rewrite Hd in *. cbn [fst snd] in *. apply Forall_app in Hms as [_ Hms2]. assert (szof (r ++ concat segments) < 2 ^ 60) as Hs2.
    { rewrite Hr. apply (f_equal length) in Hc. rewrite map_app, concat_app, !length_app in Hc. lia. }
    destruct (IH ms2 b2) as (b' & -> & Hb' & Hc'); try done; [by rewrite Hc2..|].
    exists b'. by rewrite bind_ret_l, map_app, concat_app.
Qed.

(** Once a frame is refused nothing else is read: its bytes stay in the buffer
    and with every later segment the same error is reported again. *)
Theorem refused_frame_stays b data c : Buffer.wf b → szof (Buffer.contents b) + szof data < 2 ^ 60 →
  front (Buffer.contents b) = Refuse c →
  ∃ b', deliver [data] b = Done (c, b') ∧ Buffer.contents b' = Buffer.contents b ++ data ∧ front (Buffer.contents b') = Refuse c.
Proof.
  intros Hb Hs Hf. cbn [ProtobufCodecLite.deliver].
  destruct (append_spec b data Hb) as (b1 & -> & Hb1 & Hc1); [unfold Buffer.fits; lia|]. rewrite bind_ret_l.
  destruct (onMessage_whole b1 Hb1) as (b2 & -> & Hb2 & Hc2). rewrite bind_ret_l.
  pose proof (front_app (Buffer.contents b) data) as Ha. rewrite Hf in Ha. rewrite Hc1, decode_all_eq, Ha in *.
  exists b2. cbn [fst snd] in *. by rewrite Hc2, bind_ret_l, app_nil_r.
Qed.
End frames.

(** C39. Messages survive the wire: each is sent as the frame of its wire format,
    and however the frames of some messages are cut into segments, the codec
    hands every message over once and in order (and first its frame to the raw
    callback, which may keep it back), reports no error and leaves nothing in
    the buffer; every step completes. *)
Theorem codec_roundtrip {M} `{!ProtobufMessage M, !ProtobufLaws M} adler32 tag_ rawCb_ (ms : list M) segments b :
  szof tag_ + 4 ≤ ProtobufCodecLite.kMaxMessageLen → Forall (message_ok adler32 tag_) ms →
  Buffer.wf b → Buffer.contents b = [] →
  concat segments = concat (map (frame adler32 tag_) ms) → szof (concat segments) < 2 ^ 60 →
  Forall (λ m, ProtobufCodecLite.send adler32 tag_ m = Done (frame adler32 tag_ m)) ms ∧
  ∃ b', ProtobufCodecLite.deliver adler32 tag_ rawCb_ segments b = Done (concat (map (reaction adler32 tag_ rawCb_) ms), b') ∧
    Buffer.wf b' ∧ Buffer.contents b' = [].
Proof.
  intros Htag Hms Hb Hc Hseg Hs. split.
  - eapply Forall_impl; [exact Hms|]. intros m Hm. by apply send_frame.
  - apply deliver_frames; rewrite ?Hc; try done. unfold front. rewrite min_len by done. by rewrite (proj2 (Z.leb_gt _ _)) by (cbn; lia).
Qed.

Module Sample.
(** Messages that are a string without zeros, written as it is. *)
#[export] Instance text_message : ProtobufMessage bytes := {
  IsInitialized m := forallb (λ c, negb (Byte.eqb c x00)) m;
  ByteSize m := szof m;
  SerializeToArray m := m;
  ParseFromArray l := Some l
}.
#[export] Instance text_laws : ProtobufLaws bytes.
Proof. by split. Qed.
(** [adler32] of zlib. *)
Definition adler (l : bytes) : Z :=
  let '(a, b) := fold_left (λ '(a, b) c, let a := (a + ub c) mod 65521 in (a, (b + a) mod 65521)) l (1, 0) in b * 65536 + a.

Lemma codec_roundtrip_witness :
  let ms := [bs "hello"; []; bs "world"] in
  let stream := concat (map (frame adler (bs "RPC0")) ms) in
  let b := Buffer.mk (replicate 16 x00) 8 8 in
  Forall (λ m, ProtobufCodecLite.send adler (bs "RPC0") m = Done (frame adler (bs "RPC0") m)) ms ∧
  ∃ b', ProtobufCodecLite.deliver adler (bs "RPC0") None [take 3 stream; take 20 (drop 3 stream); drop 23 stream] b =
      Done (map ProtobufCodecLite.Received ms, b') ∧ Buffer.wf b' ∧ Buffer.contents b' = [].
Proof.
  intros ms stream b.
  destruct (codec_roundtrip adler (bs "RPC0") None ms [take 3 stream; take 20 (drop 3 stream); drop 23 stream] b)
    as (Hsend & b' & Hd & Hb' & Hc').
  - vm_compute. discriminate.
  - repeat apply List.Forall_cons; try apply List.Forall_nil; (split; [reflexivity|vm_compute; discriminate]).
  - repeat split; cbn; unfold Buffer.kCheapPrepend; lia.
  - reflexivity.
  - reflexivity.
  - vm_compute. reflexivity.
  - split; [exact Hsend|]. exists b'. split; [rewrite Hd; reflexivity|split; assumption].
Defined.
End Sample.
