(* ===== verification/Rpc.v ===== *)
(** Remote procedure calls (src/IMServer/src/muduo/net/protorpc: rpc.proto,
    RpcCodec.h, RpcCodec.cc, RpcChannel.h, RpcChannel.cc, RpcServer.h, RpcServer.cc)
    over the codec of Codec.v: channels at the two ends of a connection, each with
    threads that call and services that answer, and the bytes between them.  The
    library of protocol buffers is a parameter: the code it generates for
    [RpcMessage] serializes as Codec.v says, the messages and services of the
    application are given by what the channel calls of them. *)

From S2P Require Import Prelude Buffer Codec.
Local Open Scope Z_scope.

(** * rpc.proto *)
Inductive MessageType := REQUEST | RESPONSE | ERROR.
#[export] Instance MessageType_eq_dec : EqDecision MessageType.
Proof. solve_decision. Defined.

Inductive ErrorCode := NO_ERROR | WRONG_PROTO | NO_SERVICE | NO_METHOD | INVALID_REQUEST | INVALID_RESPONSE | TIMEOUT.
#[export] Instance ErrorCode_eq_dec : EqDecision ErrorCode.
Proof. solve_decision. Defined.

Record RpcMessage := mkRpcMessage {
  type_ : option MessageType;             (* required *)
  id_ : option Z;                         (* required fixed64 *)
  service_ : option bytes;
  method_ : option bytes;
  request_ : option bytes;
  response_ : option bytes;
  error_ : option ErrorCode
}.

(** [rpctag] *)
Definition rpctag : bytes := bs "RPC0".

(** What the channel uses of the messages of the application. *)
Class UserMessage (U : Type) := {
  SerializeAsString : U → bytes;
  ParseFromString : bytes → U → bool * U  (* into an object, whose type and content may matter *)
}.

Section messages.
Context {U : Type}.
(** What a caller hands to [CallMethod]: the method, the request, the object for
    the response and whether there is a closure [done]; the pointers may be null. *)
Record invocation := mkInvocation {
  service_full_name : bytes;
  method_name : bytes;
  request : U;
  response : option U;
  done_ : bool
}.
(** A method of a service: the prototype of its requests, and which responses it
    may give to a request. *)
Record MethodDescriptor := mkMethod {
  request_prototype : U;
  serves : U → U → Prop
}.
Record Service := mkService { full_name : bytes; FindMethodByName : bytes → option MethodDescriptor }.
End messages.
Arguments invocation U : clear implicits. Arguments MethodDescriptor U : clear implicits. Arguments Service U : clear implicits.

Module RpcChannel.
Section channel.
Context {U : Type} `{!UserMessage U, !ProtobufMessage RpcMessage} (adler32 : bytes → Z).

(** [OutstandingCall] *)
Record OutstandingCall := mkOutstanding { out_response : option U; out_done : bool }.

Record t := mk {
  conn_ : option Z;                       (* which connection *)
  next_id : Z;                            (* [id_] *)
  outstandings_ : gmap Z OutstandingCall;
  services_ : option (gmap bytes (Service U))
}.
Definition set_outstandings o s := mk (conn_ s) (next_id s) o (services_ s).

(** [RpcChannel()], [RpcChannel( conn )], [setConnection], [setServices] *)
Definition make (conn : option Z) : t := mk conn 0 ∅ None.
Definition setConnection (conn : Z) (s : t) : t := mk (Some conn) (next_id s) (outstandings_ s) (services_ s).
Definition setServices (services : gmap bytes (Service U)) (s : t) : t := mk (conn_ s) (next_id s) (outstandings_ s) (Some services).

(** [~RpcChannel()]: the objects that are deleted, and how many closures. *)
Definition dtor (s : t) : list U * nat :=
  (omap (λ kv, out_response kv.2) (map_to_list (outstandings_ s)),
   length (filter (λ kv, out_done kv.2 = true) (map_to_list (outstandings_ s)))).

(** [message.id()] as [int64_t] *)
Definition message_id (message : RpcMessage) : Z := s64 (default 0 (id_ message)).
Definition message_type (message : RpcMessage) : MessageType := default REQUEST (type_ message).

(** [CallMethod] in its three parts, between which other threads may run: the
    message with its number, *)
Definition request_message (id : Z) (c : invocation U) : RpcMessage :=
  mkRpcMessage (Some REQUEST) (Some (u64 id)) (Some (service_full_name c)) (Some (method_name c))
    (Some (SerializeAsString (request c))) None None.
Definition CallMethod_number (c : invocation U) (s : t) : Z * RpcMessage * t :=
  let id := s64 (next_id s + 1) in
  (id, request_message id c, mk (conn_ s) id (outstandings_ s) (services_ s)).
(** the entry in [outstandings_], under the mutex, *)
Definition CallMethod_record (id : Z) (out : OutstandingCall) (s : t) : t :=
  set_outstandings (<[id := out]> (outstandings_ s)) s.
(** and sending the message. *)
Definition codec_send (message : RpcMessage) : outcome bytes := ProtobufCodecLite.send adler32 rpctag message.

(** [doneCallback( response, id )]: the message it sends. *)
Definition response_message (response : U) (id : Z) : RpcMessage :=
  mkRpcMessage (Some RESPONSE) (Some (u64 id)) None None None (Some (SerializeAsString response)) None.
Definition doneCallback (response : U) (id : Z) : outcome bytes := codec_send (response_message response id).

(** The method a request is for and the request, or the error. *)
Definition find_method (services : option (gmap bytes (Service U))) (message : RpcMessage) :
    ErrorCode + (MethodDescriptor U * U) :=
  match services with
  | Some services =>
      match services !! default [] (service_ message) with
      | Some service =>
          match FindMethodByName service (default [] (method_ message)) with
          | Some method =>
              let '(parsed, request) := ParseFromString (default [] (request_ message)) (request_prototype method) in
              if parsed then inr (method, request) else inl INVALID_REQUEST
          | None => inl NO_METHOD
          end
      | None => inl NO_SERVICE
      end
  | None => inl NO_SERVICE
  end.

(** What became of a call when its response was handled: the object for the
    response as [done] saw it and whether there was a [done]; nothing happens if
    the object was null. *)
Inductive result := Completed (response : U) (done_run : bool) | Ignored.

(** A closure on [doneCallback] that a service holds: of which request. *)
Record closure := mkClosure { of_method : MethodDescriptor U; of_request : U; of_id : Z }.

(** The effects of [onRpcMessage]: what is sent, the result of a call, a closure
    given to a service. *)
Record effects := mkEffects { sent : bytes; results : list (Z * result); given : list closure }.
Definition no_effects : effects := mkEffects [] [] [].
Definition error_message (message : RpcMessage) (error : ErrorCode) : RpcMessage :=
  mkRpcMessage (Some RESPONSE) (Some (u64 (default 0 (id_ message)))) None None None None (Some error).

(** [onRpcMessage( conn, message, receiveTime )]; [answer] is the response if the
    service runs its closure before [CallMethod] returns. *)
Definition onRpcMessage (conn : Z) (message : RpcMessage) (answer : option U) (s : t) : outcome (effects * t) :=
  _ ← cassert (bool_decide (conn_ s = Some conn)) "conn == conn_";
  match message_type message with
  | RESPONSE =>
      let id := message_id message in
      _ ← cassert (bool_decide (is_Some (response_ message) ∨ is_Some (error_ message)))
            "message.has_response() || message.has_error()";
      let out := default (mkOutstanding None false) (outstandings_ s !! id) in
      let s := set_outstandings (delete id (outstandings_ s)) s in
      match out_response out with
      | Some response =>
          let response := match response_ message with
                          | Some text => (ParseFromString text response).2
                          | None => response
                          end in
          Done (mkEffects [] [(id, Completed response (out_done out))] [], s)
      | None => Done (mkEffects [] [(id, Ignored)] [], s)
      end
  | REQUEST =>
      match find_method (services_ s) message with
      | inr (method, request) =>
          let id := message_id message in
          match answer with
          | Some response =>
              text ← doneCallback response id;
              Done (mkEffects text [] [], s)
          | None => Done (mkEffects [] [] [mkClosure method request id], s)
          end
      | inl error =>
          text ← codec_send (error_message message error);
          Done (mkEffects text [] [], s)
      end
  | ERROR => Done (no_effects, s)
  end.

End channel.
Arguments OutstandingCall U : clear implicits. Arguments t U : clear implicits. Arguments result U : clear implicits.
Arguments closure U : clear implicits. Arguments effects U : clear implicits.
End RpcChannel.

Module RpcServer.
Section server.
Context {U : Type}.
(** [registerService( service )] *)
Definition registerService (service : Service U) (services_ : gmap bytes (Service U)) : gmap bytes (Service U) :=
  <[full_name service := service]> services_.
(** [onConnection( conn )]: the channel in the context of the connection. *)
Definition onConnection (conn : Z) (connected : bool) (services_ : gmap bytes (Service U)) : option (RpcChannel.t U) :=
  if connected then Some (RpcChannel.setServices services_ (RpcChannel.make (Some conn))) else None.
End server.
End RpcServer.

(** * The two ends of a connection *)
Module Endpoint.
Import RpcChannel.
Section endpoint.
Context {U : Type} `{!UserMessage U, !ProtobufMessage RpcMessage} (adler32 : bytes → Z).

(** A thread inside [CallMethod]. *)
Inductive thread :=
  | Numbered (id : Z) (message : RpcMessage) (out : OutstandingCall U)
  | Recorded (id : Z) (message : RpcMessage).

Record t := mk {
  channel : RpcChannel.t U;
  conn : Z;
  threads : list thread;
  queue : list (ProtobufCodecLite.call (M := RpcMessage));  (* what the loop of the codec has still to call *)
  buf : Buffer.t;                         (* the input buffer of the connection *)
  wire : bytes;                           (* sent and not yet arrived at the peer *)
  closures : list (closure U);            (* held by the services *)
  made : gmap Z (invocation U);           (* the calls so far *)
  finished : list (Z * result U);         (* the responses handled so far *)
  shut_down : bool                        (* [defaultErrorCallback] was called *)
}.
Definition set_channel x s := mk x (conn s) (threads s) (queue s) (buf s) (wire s) (closures s) (made s) (finished s) (shut_down s).
Definition set_threads x s := mk (channel s) (conn s) x (queue s) (buf s) (wire s) (closures s) (made s) (finished s) (shut_down s).
Definition set_input q b s := mk (channel s) (conn s) (threads s) q b (wire s) (closures s) (made s) (finished s) (shut_down s).
Definition set_wire x s := mk (channel s) (conn s) (threads s) (queue s) (buf s) x (closures s) (made s) (finished s) (shut_down s).
Definition set_closures x s := mk (channel s) (conn s) (threads s) (queue s) (buf s) (wire s) x (made s) (finished s) (shut_down s).
Definition set_made x s := mk (channel s) (conn s) (threads s) (queue s) (buf s) (wire s) (closures s) x (finished s) (shut_down s).
Definition set_finished x s := mk (channel s) (conn s) (threads s) (queue s) (buf s) (wire s) (closures s) (made s) x (shut_down s).
Definition set_shut_down s := mk (channel s) (conn s) (threads s) (queue s) (buf s) (wire s) (closures s) (made s) (finished s) true.

Definition make (channel : RpcChannel.t U) (conn : Z) (buf : Buffer.t) : t := mk channel conn [] [] buf [] [] ∅ [] false.

Inductive op :=
  | Call (c : invocation U)               (* a thread begins a call *)
  | Enter (i : nat)                       (* thread [i] records its call *)
  | Send (i : nat)                        (* thread [i] sends its request *)
  | Arrive (n : nat)                      (* [n] bytes from the peer; the codec runs *)
  | Handle (answer : option U)            (* the next callback of the codec *)
  | Answer (i : nat) (response : U).      (* a service runs closure [i] *)

Definition run (o : op) (me peer : t) : outcome (t * t) :=
  match o with
  | Call c =>
      let '(id, message, ch) := CallMethod_number c (channel me) in
      let me := set_made (<[id := c]> (made me)) (set_channel ch me) in
      Done (set_threads (Numbered id message (mkOutstanding (response c) (done_ c)) :: threads me) me, peer)
  | Enter i =>
      match threads me !! i with
      | Some (Numbered id message out) =>
          Done (set_threads (<[i := Recorded id message]> (threads me))
                  (set_channel (CallMethod_record id out (channel me)) me), peer)
      | _ => Done (me, peer)
      end
  | Send i =>
      match threads me !! i with
      | Some (Recorded id message) =>
          text ← codec_send adler32 message;
          Done (set_threads (delete i (threads me)) (set_wire (wire me ++ text) me), peer)
      | _ => Done (me, peer)
      end
  | Arrive n =>
      buf ← Buffer.append (take n (wire peer)) (buf me);
      '(calls, buf) ← ProtobufCodecLite.onMessage adler32 rpctag None buf;
      Done (set_input (queue me ++ calls) buf me, set_wire (drop n (wire peer)) peer)
  | Handle answer =>
      match queue me with
      | ProtobufCodecLite.Received message :: rest =>
          '(e, ch) ← onRpcMessage adler32 (conn me) message answer (channel me);
          let me := set_channel ch (set_input rest (buf me) me) in
          let me := set_closures (closures me ++ given e) (set_finished (finished me ++ results e) me) in
          Done (set_wire (wire me ++ sent e) me, peer)
      | ProtobufCodecLite.Failed _ :: rest => Done (set_shut_down (set_input rest (buf me) me), peer)
      | _ :: rest => Done (set_input rest (buf me) me, peer)
      | [] => Done (me, peer)
      end
  | Answer i response =>
      match closures me !! i with
      | Some c =>
          text ← doneCallback adler32 response (of_id c);
          Done (set_closures (delete i (closures me)) (set_wire (wire me ++ text) me), peer)
      | None => Done (me, peer)
      end
  end.

(** When an operation may happen: identifiers do not run out, messages fit in a
    frame, services answer as they may, and memory can hold what arrives. *)
Definition fits (message : RpcMessage) : Prop := message_ok adler32 rpctag message.
Definition enabled (o : op) (me peer : t) : Prop :=
  match o with
  | Call _ => next_id (channel me) < 2 ^ 63 - 1
  | Enter i => ∃ id message out, threads me !! i = Some (Numbered id message out)
  | Send i => ∃ id message, threads me !! i = Some (Recorded id message) ∧ fits message
  | Arrive n => queue me = [] ∧ szof (Buffer.contents (buf me)) + Z.of_nat n < 2 ^ 60
  | Handle answer =>
      ∃ c rest, queue me = c :: rest ∧
      match c with
      | ProtobufCodecLite.Received message =>
          message_type message = REQUEST →
          match find_method (services_ (channel me)) message with
          | inr (method, request) =>
              ∀ r, answer = Some r → serves method request r ∧ fits (response_message r (message_id message))
          | inl error => fits (error_message message error)
          end
      | _ => True
      end
  | Answer i r => ∃ c, closures me !! i = Some c ∧ serves (of_method c) (of_request c) r ∧ fits (response_message r (of_id c))
  end.

(** A step of either end. *)
Inductive step : t * t → t * t → Prop :=
  | step_left o x y x' y' : enabled o x y → run o x y = Done (x', y') → step (x, y) (x', y')
  | step_right o x y x' y' : enabled o y x → run o y x = Done (y', x') → step (x, y) (x', y').

End endpoint.
Arguments t U : clear implicits. Arguments thread U : clear implicits. Arguments op U : clear implicits.
End Endpoint.

(** * Permutations by counting *)
Lemma perm_count (l k : list Z) : l ≡ₚ k ↔ ∀ x, count_occ Z.eq_dec l x = count_occ Z.eq_dec k x.
Proof. apply Permutation_count_occ. Qed.
Lemma occ_cons (a : Z) l x : count_occ Z.eq_dec (a :: l) x = (count_occ Z.eq_dec [a] x + count_occ Z.eq_dec l x)%nat.
Proof. change (a :: l) with ([a] ++ l). apply count_occ_app. Qed.
Ltac count H := apply perm_count; intros ?x; try (apply (proj1 (perm_count _ _)) with (x := x) in H; revert H);
  repeat first [rewrite count_occ_app | rewrite (occ_cons _ (_ :: _)) | rewrite (occ_cons _ (_ ++ _))
    | match goal with |- context [count_occ Z.eq_dec (?a :: ?l) x] => lazymatch l with nil => fail | _ => rewrite (occ_cons a l x) end end];
  cbn [count_occ]; lia.

Lemma at_index {A} (l : list A) i t : l !! i = Some t →
  ∃ l1 l2, l = l1 ++ t :: l2 ∧ delete i l = l1 ++ l2 ∧ ∀ t', <[i := t']> l = l1 ++ t' :: l2.
Proof.
  intros H. exists (take i l), (drop (S i) l). split_and!.
  - by rewrite take_drop_middle.
  - by rewrite delete_take_drop.
  - intros t'. rewrite insert_take_drop; [done|]. by eapply lookup_lt_Some.
Qed.

(** * The calls of one end *)
Section half.
Import RpcChannel Endpoint.
Context {U : Type} `{!UserMessage U, !ProtobufMessage RpcMessage}.
Notation invocation := (invocation U).
Notation result := (result U).

Definition out_of (c : invocation) : OutstandingCall U := mkOutstanding (response c) (done_ c).
Definition is_request (m : RpcMessage) : bool := bool_decide (type_ m = Some REQUEST).
Definition ids (want : bool) (ms : list RpcMessage) : list Z := omap (λ m, if eqb (is_request m) want then Some (message_id m) else None) ms.

(** What the services of the peer may reply to a call. *)
Inductive reply (services : option (gmap bytes (Service U))) (id : Z) (c : invocation) : RpcMessage → Prop :=
  | reply_response method req r :
      find_method services (request_message id c) = inr (method, req) → serves method req r →
      reply services id c (response_message r id)
  | reply_error e :
      find_method services (request_message id c) = inl e →
      reply services id c (error_message (request_message id c) e).
(** The result the caller must see: nothing if it gave no object, else the object
    with the response of the service, or as it was if the service was not called. *)
Definition result_ok (services : option (gmap bytes (Service U))) (id : Z) (c : invocation) (x : result) : Prop :=
  match response c with
  | None => x = Ignored
  | Some object =>
      match find_method services (request_message id c) with
      | inr (method, req) => ∃ r, serves method req r ∧ x = Completed (ParseFromString (SerializeAsString r) object).2 (done_ c)
      | inl _ => x = Completed object (done_ c)
      end
  end.

Definition numbered (ths : list (thread U)) : list Z := omap (λ t, match t with Numbered id _ _ => Some id | _ => None end) ths.
Definition recorded (ths : list (thread U)) : list Z := omap (λ t, match t with Recorded id _ => Some id | _ => None end) ths.
(** The calls between [outstandings_] and the result: recorded, on the way, with
    the service, on the way back. *)
Definition pending ths (cls : list (closure U)) (out inn : list RpcMessage) : list Z :=
  recorded ths ++ ids true out ++ (of_id <$> cls) ++ ids false inn.

Lemma numbered_cons id m o ths : numbered (Numbered id m o :: ths) = id :: numbered ths.
Proof. done. Qed.
Lemma numbered_recorded id m ths : numbered (Recorded id m :: ths) = numbered ths.
Proof. done. Qed.
Lemma recorded_cons id m ths : recorded (Recorded id m :: ths) = id :: recorded ths.
Proof. done. Qed.
Lemma recorded_numbered id m o ths : recorded (Numbered id m o :: ths) = recorded ths.
Proof. done. Qed.
Lemma numbered_app l k : numbered (l ++ k) = numbered l ++ numbered k.
Proof. apply omap_app. Qed.
Lemma recorded_app l k : recorded (l ++ k) = recorded l ++ recorded k.
Proof. apply omap_app. Qed.

Definition thread_ok (made : gmap Z invocation) (t : thread U) : Prop :=
  match t with
  | Numbered id m o => ∃ c, made !! id = Some c ∧ m = request_message id c ∧ o = out_of c
  | Recorded id m => ∃ c, made !! id = Some c ∧ m = request_message id c
  end.
Definition closure_ok services (made : gmap Z invocation) (cl : closure U) : Prop :=
  ∃ c, made !! of_id cl = Some c ∧ find_method services (request_message (of_id cl) c) = inr (of_method cl, of_request cl).
Definition request_ok (made : gmap Z invocation) (m : RpcMessage) : Prop :=
  is_request m = true → ∃ id c, made !! id = Some c ∧ m = request_message id c.
Definition reply_ok services (made : gmap Z invocation) (m : RpcMessage) : Prop :=
  is_request m = false → ∃ id c, made !! id = Some c ∧ reply services id c m.
Definition finished_ok services (made : gmap Z invocation) (x : Z * result) : Prop :=
  ∃ c, made !! x.1 = Some c ∧ result_ok services x.1 c x.2.

(** [me]: its channel, threads and log; the services of the peer and the closures
    they hold; the messages on the way out and in. *)
Record half (last : Z) (made : gmap Z invocation) (outst : gmap Z (OutstandingCall U)) (ths : list (thread U))
    (fin : list (Z * result)) services (cls : list (closure U)) (out inn : list RpcMessage) : Prop := {
  h_range : 0 ≤ last < 2 ^ 63;
  h_ids : numbered ths ++ pending ths cls out inn ++ fin.*1 ≡ₚ seqZ 1 last;
  h_made : ∀ id, is_Some (made !! id) ↔ 1 ≤ id ≤ last;
  h_outst : ∀ id, outst !! id = if bool_decide (id ∈ pending ths cls out inn) then out_of <$> made !! id else None;
  h_threads : Forall (thread_ok made) ths;
  h_requests : Forall (request_ok made) out;
  h_closures : Forall (closure_ok services made) cls;
  h_replies : Forall (reply_ok services made) inn;
  h_finished : Forall (finished_ok services made) fin
}.

Lemma s64_u64 id : 1 ≤ id < 2 ^ 63 → s64 (u64 id) = id.
Proof. intros H. unfold wrapu. rewrite wraps_wrapu by done. apply wraps_small; [done|cbn in *; lia]. Qed.

Lemma ids_app want l k : ids want (l ++ k) = ids want l ++ ids want k.
Proof. apply omap_app. Qed.

(** A numbered call is new. *)
Lemma half_call last made outst ths fin services cls out inn c :
  half last made outst ths fin services cls out inn → last < 2 ^ 63 - 1 →
  half (last + 1) (<[last + 1 := c]> made) outst (Numbered (last + 1) (request_message (last + 1) c) (out_of c) :: ths) fin services cls out inn.
Proof.
  intros [Hr Hids Hm Ho Ht Hq Hc Hp Hf] Hl.
  assert (made !! (last + 1) = None) as Hnew.
  { apply eq_None_not_Some. intros H%Hm. lia. }
  assert (∀ id c', made !! id = Some c' → <[last + 1 := c]> made !! id = Some c') as Hext.
  { intros id c' H. rewrite lookup_insert_ne; [done|]. intros <-. by rewrite Hnew in H. }
  split.
  - lia.
  - assert (seqZ 1 (last + 1) = seqZ 1 last ++ [last + 1]) as ->.
    { pose proof (seqZ_S 1 (Z.to_nat last)) as H. rewrite Nat2Z.inj_succ, Z2Nat.id in H by lia.
      replace (Z.succ last) with (last + 1) in H by lia. rewrite H. do 2 f_equal. lia. }
    unfold pending in *. rewrite numbered_cons, recorded_numbered. count Hids.
  - intros id. destruct (decide (id = last + 1)) as [->|Hne].
    + rewrite lookup_insert_eq. split; [lia|by eexists].
    + rewrite lookup_insert_ne, Hm by done. lia.
  - intros id. change (pending (Numbered _ _ _ :: ths) cls out inn) with (pending ths cls out inn). rewrite Ho.
    case_bool_decide as Hin; [|done]. rewrite lookup_insert_ne; [done|]. intros <-.
    assert (last + 1 ∈ seqZ 1 last) as H%elem_of_seqZ; [|lia]. rewrite <-Hids. set_solver.
  - constructor; [exists c; by rewrite lookup_insert_eq|]. eapply Forall_impl; [exact Ht|].
    intros [] (c' & H & ?); exists c'; by split; [apply Hext|].
  - eapply Forall_impl; [exact Hq|]. intros m H Hi. destruct (H Hi) as (id & c' & ? & ?). exists id, c'. by split; [apply Hext|].
  - eapply Forall_impl; [exact Hc|]. intros cl (c' & ? & ?). exists c'. by split; [apply Hext|].
  - eapply Forall_impl; [exact Hp|]. intros m H Hi. destruct (H Hi) as (id & c' & ? & ?). exists id, c'. by split; [apply Hext|].
  - eapply Forall_impl; [exact Hf|]. intros x (c' & ? & ?). exists c'. by split; [apply Hext|].
Qed.

(** Calls move between the places where they are pending. *)
Lemma half_move last made outst ths fin services cls out inn ths' cls' out' inn' :
  half last made outst ths fin services cls out inn →
  numbered ths' = numbered ths → pending ths' cls' out' inn' ≡ₚ pending ths cls out inn →
  Forall (thread_ok made) ths' → Forall (request_ok made) out' → Forall (closure_ok services made) cls' → Forall (reply_ok services made) inn' →
  half last made outst ths' fin services cls' out' inn'.
Proof.
  intros [Hr Hids Hm Ho _ _ _ _ Hf] Hn Hp ????. split; try done; [by rewrite Hn, Hp|].
  intros id. rewrite Ho. by rewrite (bool_decide_ext _ _ (elem_of_Permutation_proper id _ _ Hp)).
Qed.

Lemma request_fields last made outst ths fin services cls out inn id c : half last made outst ths fin services cls out inn → made !! id = Some c →
  is_request (request_message id c) = true ∧ message_id (request_message id c) = id ∧ 1 ≤ id < 2 ^ 63.
Proof.
  intros H Hc. destruct (H.(h_range _ _ _ _ _ _ _ _ _)). assert (1 ≤ id ≤ last) as Hid by (apply H; by eexists).
  split_and!; [done|by apply s64_u64; lia|lia..].
Qed.
Lemma reply_fields services id c m : 1 ≤ id < 2 ^ 63 → reply services id c m →
  is_request m = false ∧ message_type m = RESPONSE ∧ message_id m = id ∧ (is_Some (response_ m) ∨ is_Some (error_ m)).
Proof.
  intros Hid []; (split_and!; [done..| |by cbn; eauto]); unfold message_id; cbn; [by apply s64_u64|].
  unfold wrapu at 1. rewrite Z.mod_small by (apply Z.mod_pos_bound; done). by apply s64_u64.
Qed.

(** A numbered call is recorded. *)
Lemma half_enter last made outst l1 l2 fin services cls out inn id m o :
  half last made outst (l1 ++ Numbered id m o :: l2) fin services cls out inn →
  half last made (<[id := o]> outst) (l1 ++ Recorded id m :: l2) fin services cls out inn.
Proof.
  intros [Hr Hids Hm Ho Ht Hq Hc Hp Hf]. apply Forall_app in Ht as [Ht1 Ht2]. apply List.Forall_cons_iff in Ht2 as [(c & Hmade & -> & ->) Ht2].
  rewrite !numbered_app in Hids. rewrite numbered_cons in Hids.
  assert (pending (l1 ++ Recorded id (request_message id c) :: l2) cls out inn ≡ₚ
    id :: pending (l1 ++ Numbered id (request_message id c) (out_of c) :: l2) cls out inn) as Hpend.
  { unfold pending. rewrite !recorded_app, recorded_cons, recorded_numbered. count Hids. }
  split; try done.
  - rewrite numbered_app, numbered_recorded. rewrite Hpend. rewrite <-Hids. solve_Permutation.
  - intros id'. rewrite (bool_decide_ext _ _ (elem_of_Permutation_proper id' _ _ Hpend)). destruct (decide (id' = id)) as [->|Hne].
    + rewrite lookup_insert_eq, bool_decide_eq_true_2 by set_solver. by rewrite Hmade.
    + rewrite lookup_insert_ne, Ho by done. rewrite (bool_decide_ext (id' ∈ id :: _) (id' ∈ pending (l1 ++ Numbered id (request_message id c) (out_of c) :: l2) cls out inn)) by set_solver.
      done.
  - apply Forall_app. split; [done|]. constructor; [by exists c|done].
Qed.

Lemma ids_one want m : ids want [m] = if eqb (is_request m) want then [message_id m] else [].
Proof. unfold ids. cbn. by destruct (eqb _ _). Qed.
Lemma ids_cons want m ms : ids want (m :: ms) = ids want [m] ++ ids want ms.
Proof. apply (ids_app want [m] ms). Qed.

(** A recorded call is sent. *)
Lemma half_send last made outst l1 l2 fin services cls out inn id m :
  half last made outst (l1 ++ Recorded id m :: l2) fin services cls out inn →
  is_request m = true ∧ half last made outst (l1 ++ l2) fin services cls (out ++ [m]) inn.
Proof.
  intros H. pose proof H.(h_threads _ _ _ _ _ _ _ _ _) as Ht. pose proof H.(h_requests _ _ _ _ _ _ _ _ _) as Hq.
  apply Forall_app in Ht as [Ht1 Ht2]. apply List.Forall_cons_iff in Ht2 as [(c & Hmade & ->) Ht2].
  destruct (request_fields _ _ _ _ _ _ _ _ _ _ _ H Hmade) as (Hreq & Hid & _). split; [done|].
  eapply half_move; [exact H|..]; try apply H.
  - by rewrite !numbered_app, numbered_recorded.
  - unfold pending. rewrite !recorded_app, recorded_cons, ids_app, ids_one, Hreq, Hid. cbn [eqb]. solve_Permutation.
  - by apply Forall_app.
  - apply Forall_app. split; [done|]. constructor; [|done]. intros _. by exists id, c.
Qed.

(** Messages of the calls of the other end. *)
Lemma half_out_reply last made outst ths fin services cls out inn m : half last made outst ths fin services cls out inn → is_request m = false →
  half last made outst ths fin services cls (out ++ [m]) inn.
Proof.
  intros H Hm. eapply half_move; [exact H|..]; try apply H; try done.
  - unfold pending. by rewrite ids_app, ids_one, Hm, app_nil_r.
  - apply Forall_app. split; [apply H|]. constructor; [|done]. intros Hr. by rewrite Hr in Hm.
Qed.
Lemma half_in_request last made outst ths fin services cls out inn m : half last made outst ths fin services cls out inn → is_request m = true →
  half last made outst ths fin services cls out (inn ++ [m]).
Proof.
  intros H Hm. eapply half_move; [exact H|..]; try apply H; try done.
  - unfold pending. by rewrite ids_app, ids_one, Hm, app_nil_r.
  - apply Forall_app. split; [apply H|]. constructor; [|done]. intros Hr. by rewrite Hr in Hm.
Qed.
Lemma half_drop_reply last made outst ths fin services cls out inn m : half last made outst ths fin services cls (m :: out) inn → is_request m = false →
  half last made outst ths fin services cls out inn.
Proof.
  intros H Hm. eapply half_move; [exact H|..]; try apply H; try done.
  - unfold pending. by rewrite ids_cons, ids_one, Hm.
  - by apply (List.Forall_inv_tail (a := m)), H.
Qed.
Lemma half_drop_request last made outst ths fin services cls out inn m : half last made outst ths fin services cls out (m :: inn) → is_request m = true →
  half last made outst ths fin services cls out inn.
Proof.
  intros H Hm. eapply half_move; [exact H|..]; try apply H; try done.
  - unfold pending. by rewrite (ids_cons false m), ids_one, Hm.
  - by apply (List.Forall_inv_tail (a := m)), H.
Qed.

(** A request is given to a service, *)
Lemma half_accept last made outst ths fin services cls out inn m method req :
  half last made outst ths fin services cls (m :: out) inn → is_request m = true → find_method services m = inr (method, req) →
  half last made outst ths fin services (cls ++ [mkClosure method req (message_id m)]) out inn.
Proof.
  intros H Hm Hf. pose proof H.(h_requests _ _ _ _ _ _ _ _ _) as Hq. apply List.Forall_cons_iff in Hq as [Hok Hq].
  destruct (Hok Hm) as (id & c & Hmade & ->). destruct (request_fields _ _ _ _ _ _ _ _ _ _ _ H Hmade) as (_ & Hid & _).
  eapply half_move; [exact H|..]; try apply H; try done.
  - unfold pending. rewrite ids_cons, ids_one, Hm, fmap_app. cbn [eqb]. cbn. solve_Permutation.
  - apply Forall_app. split; [apply H|]. constructor; [|done]. exists c. by rewrite Hid.
Qed.
(** which answers, *)
Lemma half_answer last made outst ths fin services k1 cl k2 out inn r :
  half last made outst ths fin services (k1 ++ cl :: k2) out inn → serves (of_method cl) (of_request cl) r →
  half last made outst ths fin services (k1 ++ k2) out (inn ++ [response_message r (of_id cl)]).
Proof.
  intros H Hs. pose proof H.(h_closures _ _ _ _ _ _ _ _ _) as Hc. apply Forall_app in Hc as [Hc1 Hc2].
  apply List.Forall_cons_iff in Hc2 as [(c & Hmade & Hfind) Hc2]. destruct (request_fields _ _ _ _ _ _ _ _ _ _ _ H Hmade) as (_ & _ & Hid).
  assert (reply services (of_id cl) c (response_message r (of_id cl))) as Hrep by by eapply reply_response.
  destruct (reply_fields _ _ _ _ Hid Hrep) as (Hm & _ & Hid' & _).
  eapply half_move; [exact H|..]; try apply H; try done.
  - unfold pending. rewrite ids_app, ids_one, Hm, Hid', !fmap_app. cbn [eqb]. rewrite fmap_cons. solve_Permutation.
  - by apply Forall_app.
  - apply Forall_app. split; [apply H|]. constructor; [|done]. intros _. by exists (of_id cl), c.
Qed.
(** or is refused. *)
Lemma half_refuse last made outst ths fin services cls out inn m e :
  half last made outst ths fin services cls (m :: out) inn → is_request m = true → find_method services m = inl e →
  half last made outst ths fin services cls out (inn ++ [error_message m e]).
Proof.
  intros H Hm Hf. pose proof H.(h_requests _ _ _ _ _ _ _ _ _) as Hq. apply List.Forall_cons_iff in Hq as [Hok Hq].
  destruct (Hok Hm) as (id & c & Hmade & ->). destruct (request_fields _ _ _ _ _ _ _ _ _ _ _ H Hmade) as (_ & Hid & Hrange).
  assert (reply services id c (error_message (request_message id c) e)) as Hrep by by eapply reply_error.
  destruct (reply_fields _ _ _ _ Hrange Hrep) as (Hm' & _ & Hid' & _).
  eapply half_move; [exact H|..]; try apply H; try done.
  - unfold pending. rewrite ids_cons, (ids_one true), Hm, ids_app, (ids_one false), Hm', Hid, Hid'. cbn [eqb]. solve_Permutation.
  - apply Forall_app. split; [apply H|]. constructor; [|done]. intros _. by exists id, c.
Qed.

(** What [onRpcMessage] makes of a response. *)
Definition result_of (m : RpcMessage) (o : OutstandingCall U) : result :=
  match out_response o with
  | Some object => Completed (match response_ m with Some text => (ParseFromString text object).2 | None => object end) (out_done o)
  | None => Ignored
  end.
Lemma half_finish last made outst ths fin services cls out inn m :
  half last made outst ths fin services cls out (m :: inn) → is_request m = false →
  message_type m = RESPONSE ∧ (is_Some (response_ m) ∨ is_Some (error_ m)) ∧ ∃ o, outst !! message_id m = Some o ∧
  half last made (delete (message_id m) outst) ths (fin ++ [(message_id m, result_of m o)]) services cls out inn.
Proof.
  intros H Hm. pose proof H.(h_replies _ _ _ _ _ _ _ _ _) as Hp. apply List.Forall_cons_iff in Hp as [Hok Hp].
  destruct (Hok Hm) as (id & c & Hmade & Hrep). destruct (request_fields _ _ _ _ _ _ _ _ _ _ _ H Hmade) as (_ & _ & Hrange).
  destruct (reply_fields _ _ _ _ Hrange Hrep) as (_ & Htype & Hid & Hhas). rewrite Hid. split; [done|split; [done|]].
  pose proof (H.(h_outst _ _ _ _ _ _ _ _ _)) as Ho. pose proof (H.(h_ids _ _ _ _ _ _ _ _ _)) as Hids.
  assert (pending ths cls out (m :: inn) ≡ₚ id :: pending ths cls out inn) as Hpend.
  { unfold pending. rewrite (ids_cons false m), ids_one, Hm, Hid. cbn [eqb]. solve_Permutation. }
  exists (out_of c). split; [by rewrite Ho, bool_decide_eq_true_2, Hmade by (rewrite Hpend; set_solver)|].
  assert (NoDup (pending ths cls out (m :: inn))) as Hnd.
  { pose proof (NoDup_seqZ 1 last) as Hn. rewrite <-Hids in Hn. apply NoDup_app in Hn as (_ & _ & Hn). by apply NoDup_app in Hn as [? _]. }
  rewrite Hpend in Hnd. apply NoDup_cons in Hnd as [Hnin _].
  destruct H as [Hr _ Hmd _ Ht Hq Hc _ Hf]. split; try done.
  - rewrite Hpend in Hids. rewrite <-Hids, fmap_app. cbn. solve_Permutation.
  - intros id'. destruct (decide (id' = id)) as [->|Hne].
    + by rewrite lookup_delete_eq, bool_decide_eq_false_2.
    + rewrite lookup_delete_ne, Ho by done. rewrite (bool_decide_ext _ (id' ∈ pending ths cls out inn)); [done|].
      rewrite Hpend. set_solver.
  - apply Forall_app. split; [done|]. constructor; [|done]. exists c. split; [done|]. unfold result_ok, result_of. cbn.
    destruct (response c) as [object|]; [|done].
    destruct Hrep as [method req r -> ?|e ->]; [by exists r|done].
Qed.
End half.

(** * The bytes between the ends *)
Section line.
Import ProtobufCodecLite.
Context `{!ProtobufMessage RpcMessage, !ProtobufLaws RpcMessage} (adler32 : bytes → Z).
Notation frame := (frame adler32 rpctag).
Notation front := (front adler32 rpctag None).
Notation fits := (message_ok adler32 rpctag).

Lemma rpctag_short : szof rpctag + 4 ≤ kMaxMessageLen.
Proof. by vm_compute. Qed.

(** The messages [out] on the way to an end: first those the codec found, then
    the frames of the others, in its buffer and on the wire. *)
Definition line (q : list (call (M := RpcMessage))) (b : Buffer.t) (w : bytes) (out : list RpcMessage) : Prop :=
  ∃ ms1 ms2, q = map Received ms1 ∧ out = ms1 ++ ms2 ∧ Buffer.wf b ∧ Buffer.contents b ++ w = concat (map frame ms2) ∧
    front (Buffer.contents b) = Wait ∧ Forall fits ms2.

Lemma line_start b : Buffer.wf b → Buffer.contents b = [] → line [] b [] [].
Proof.
  intros Hb Hc. exists [], []. rewrite Hc. by split_and!.
Qed.

Lemma line_send q b w out m : line q b w out → fits m → line q b (w ++ frame m) (out ++ [m]).
Proof.
  intros (ms1 & ms2 & -> & -> & Hb & Hc & Hf & Hms) Hm. exists ms1, (ms2 ++ [m]). split_and!; try done.
  - by rewrite <-app_assoc.
  - rewrite app_assoc, Hc, map_app, concat_app. cbn. by rewrite app_nil_r.
  - apply Forall_app. split; [done|by constructor].
Qed.

Lemma line_arrive b w out n : line [] b w out → szof (Buffer.contents b) + Z.of_nat n < 2 ^ 60 →
  ∃ b1 q b', Buffer.append (take n w) b = Done b1 ∧ onMessage adler32 rpctag None b1 = Done (q, b') ∧ line q b' (drop n w) out.
Proof.
  intros (ms1 & ms2 & Hq & -> & Hb & Hc & Hf & Hms) Hn. apply eq_sym, map_eq_nil in Hq as ->.
  destruct (append_spec b (take n w) Hb) as (b1 & -> & Hb1 & Hc1); [unfold Buffer.fits; rewrite length_take; lia|].
  destruct (onMessage_whole adler32 rpctag None rpctag_short b1 Hb1) as (b2 & Hm & Hb2 & Hc2). rewrite Hc1 in *.
  destruct (decode_part adler32 rpctag None rpctag_short ms2 Hms (Buffer.contents b ++ take n w) (drop n w)) as (ms21 & ms22 & r & -> & Hd & Hr & Hw).
  { by rewrite <-app_assoc, take_drop. }
  rewrite Hd in *. cbn [fst snd] in *. do 3 eexists. split; [done|split; [exact Hm|]]. apply Forall_app in Hms as [_ Hms].
  exists ms21, ms22. rewrite Hc2. split_and!; try done. clear. induction ms21 as [|m ms21 IH]; [done|]. cbn [map concat]. by rewrite IH.
Qed.

Lemma line_pop c q b w out : line (c :: q) b w out → ∃ m out', c = Received m ∧ out = m :: out' ∧ line q b w out'.
Proof.
  intros ([|m ms1] & ms2 & Hq & -> & Hrest); [done|]. injection Hq as -> ->. exists m, (ms1 ++ ms2). split_and!; [done..|]. by exists ms1, ms2.
Qed.

Lemma line_end b out : line [] b [] out → out = [].
Proof.
  intros (ms1 & ms2 & Hq & -> & Hb & Hc & Hf & Hms). apply eq_sym, map_eq_nil in Hq as ->. rewrite app_nil_r in Hc.
  destruct Hms as [|m ms2 Hm]; [done|]. cbn [map concat] in Hc. by rewrite Hc, (front_frame adler32 rpctag None rpctag_short) in Hf by done.
Qed.
End line.

(** * The invariant *)
Section invariant.
Import RpcChannel Endpoint.
Context {U : Type} `{!UserMessage U, !ProtobufMessage RpcMessage, !ProtobufLaws RpcMessage} (adler32 : bytes → Z).
Notation endpoint := (Endpoint.t U).

Definition half_of (x y : endpoint) (out inn : list RpcMessage) : Prop :=
  half (next_id (channel x)) (made x) (outstandings_ (channel x)) (threads x) (finished x) (services_ (channel y)) (closures y) out inn.
Definition fixed (services : option (gmap bytes (Service U))) (x : endpoint) : Prop :=
  conn_ (channel x) = Some (conn x) ∧ services_ (channel x) = services ∧ shut_down x = false.
Definition inv (sx sy : option (gmap bytes (Service U))) (x y : endpoint) : Prop :=
  fixed sx x ∧ fixed sy y ∧ ∃ ox oy, half_of x y ox oy ∧ half_of y x oy ox ∧
    line adler32 (queue y) (buf y) (wire x) ox ∧ line adler32 (queue x) (buf x) (wire y) oy.

Lemma inv_sym sx sy x y : inv sx sy x y → inv sy sx y x.
Proof. intros (? & ? & ox & oy & ? & ? & ? & ?). by split_and!; [| |exists oy, ox]. Qed.

Lemma send_fits m : fits adler32 m → codec_send adler32 m = Done (frame adler32 rpctag m).
Proof. apply send_frame, rpctag_short. Qed.

Lemma run_inv sx sy o x y : inv sx sy x y → enabled adler32 o x y → ∃ x' y', run adler32 o x y = Done (x', y') ∧ inv sx sy x' y'.
Proof.
  intros (Fx & Fy & ox & oy & Hx & Hy & Lx & Ly) He. destruct o as [c|i|i|n|answer|i r]; cbn [enabled] in He.
  - (* Call *)
    pose proof (h_range _ _ _ _ _ _ _ _ _ Hx). cbn [run]. unfold CallMethod_number.
    rewrite (wraps_small 64 (next_id (channel x) + 1)) by (cbn in *; lia). do 2 eexists. split; [done|].
    split_and!; [done..|]. exists ox, oy. split_and!; [|done..]. by apply half_call.
  - (* Enter *)
    destruct He as (id & m & out & Hi). cbn [run]. rewrite Hi. destruct (at_index _ _ _ Hi) as (l1 & l2 & Hths & _ & Hins).
    do 2 eexists. split; [done|]. split_and!; [done..|]. exists ox, oy. split_and!; [|done..].
    unfold half_of in *. cbn. rewrite Hins. rewrite Hths in Hx. by apply half_enter.
  - (* Send *)
    destruct He as (id & m & Hi & Hm). cbn [run]. rewrite Hi, send_fits, bind_ret_l by done. destruct (at_index _ _ _ Hi) as (l1 & l2 & Hths & Hdel & _).
    do 2 eexists. split; [done|]. unfold half_of in *. rewrite Hths in Hx. apply half_send in Hx as [Hreq Hx].
    split_and!; [done..|]. exists (ox ++ [m]), oy. cbn. rewrite Hdel. split_and!; [done| |by apply line_send|done].
    by apply half_in_request.
  - (* Arrive *)
    destruct He as [Hq Hn]. cbn [run]. rewrite Hq in *. destruct (line_arrive _ _ _ _ n Ly Hn) as (b1 & q & b & Ha & Hm & Ly').
    rewrite Ha, bind_ret_l, Hm, bind_ret_l.
    do 2 eexists. split; [done|]. split_and!; [done..|]. by exists ox, oy.
  - (* Handle *)
    destruct He as (c & rest & Hq & He). cbn [run]. rewrite Hq in *. destruct (line_pop _ _ _ _ _ _ Ly) as (m & oy' & -> & -> & Ly').
    destruct Fx as (Fconn & Fserv & Fshut). unfold onRpcMessage. rewrite Fconn. rewrite cassert_bind by (by apply bool_decide_eq_true).
    unfold half_of in *. destruct (is_request m) eqn:Hreq.
    + (* a request *)
      assert (message_type m = REQUEST) as Htype.
      { unfold is_request in Hreq. apply bool_decide_eq_true in Hreq. unfold message_type. by rewrite Hreq. }
      rewrite Htype in *. specialize (He eq_refl). apply half_drop_request in Hx; [|done].
      destruct (find_method (services_ (channel x)) m) as [e|[method req]] eqn:Hfind.
      * rewrite send_fits, bind_ret_l by done. do 2 eexists. split; [done|]. split_and!; [done..|].
        exists (ox ++ [error_message m e]), oy'. cbn. rewrite !app_nil_r. split_and!; [by apply half_out_reply| |by apply line_send|done].
        by apply half_refuse.
      * destruct answer as [r|].
        -- destruct (He r eq_refl) as [Hs Hm]. unfold doneCallback. rewrite send_fits, bind_ret_l by done. do 2 eexists. split; [done|].
           split_and!; [done..|]. exists (ox ++ [response_message r (message_id m)]), oy'. cbn. rewrite !app_nil_r.
           split_and!; [by apply half_out_reply| |by apply line_send|done].
           pose proof (half_accept _ _ _ _ _ _ _ _ _ _ _ _ Hy Hreq Hfind) as Ha.
           apply (half_answer _ _ _ _ _ _ _ (mkClosure method req (message_id m)) []  _ _ r) in Ha; [|done]. by rewrite app_nil_r in Ha.
        -- do 2 eexists. split; [done|]. split_and!; [done..|]. exists ox, oy'. cbn. rewrite !app_nil_r.
           split_and!; [done| |done|done]. by apply half_accept.
    + (* a response *)
      destruct (half_finish _ _ _ _ _ _ _ _ _ _ Hx Hreq) as (Htype & Hhas & o & Ho & Hx'). rewrite Htype. cbv zeta.
      rewrite cassert_bind by (by apply bool_decide_eq_true). rewrite Ho. change (default (mkOutstanding None false) (Some o)) with o. apply half_drop_reply in Hy; [|done].
      unfold result_of in Hx'. destruct (out_response o) as [object|];
        (do 2 eexists; split; [done|]; split_and!; [done..|]; exists ox, oy'; cbn; rewrite !app_nil_r; by split_and!).
  - (* Answer *)
    destruct He as (cl & Hi & Hs & Hm). cbn [run]. unfold doneCallback. rewrite Hi, send_fits, bind_ret_l by done.
    destruct (at_index _ _ _ Hi) as (l1 & l2 & Hcls & Hdel & _). do 2 eexists. split; [done|].
    unfold half_of in *. rewrite Hcls in Hy. split_and!; [done..|]. exists (ox ++ [response_message r (of_id cl)]), oy. cbn. rewrite Hdel.
    split_and!; [by apply half_out_reply| |by apply line_send|done].
    by apply half_answer.
Qed.

Lemma step_inv sx sy s s' : inv sx sy s.1 s.2 → step adler32 s s' → inv sx sy s'.1 s'.2.
Proof.
  intros Hi Hs. destruct Hs as [o x y x' y' He Hr|o x y x' y' He Hr]; cbn in *.
  - destruct (run_inv _ _ _ _ _ Hi He) as (x1 & y1 & Hrun & Hi'). rewrite Hr in Hrun. by injection Hrun as -> ->.
  - apply inv_sym in Hi. destruct (run_inv _ _ _ _ _ Hi He) as (y1 & x1 & Hrun & Hi'). rewrite Hr in Hrun. injection Hrun as -> ->.
    by apply inv_sym.
Qed.

Lemma reachable_inv sx sy s s' : inv sx sy s.1 s.2 → rtc (step adler32) s s' → inv sx sy s'.1 s'.2.
Proof. intros Hi Hr. induction Hr as [|s s1 s' Hs _ IH]; [done|]. apply IH. by eapply step_inv. Qed.

(** A new end of a connection. *)
Definition fresh (services : option (gmap bytes (Service U))) (x : endpoint) : Prop :=
  ∃ b conn, x = Endpoint.make (RpcChannel.mk (Some conn) 0 ∅ services) conn b ∧ Buffer.wf b ∧ Buffer.contents b = [].
Lemma half_start services : half 0 ∅ ∅ [] [] services [] [] [].
Proof.
  split; try done.
  - intros id. split; [intros [? H]; by rewrite lookup_empty in H|lia].
Qed.
Lemma fresh_inv sx sy x y : fresh sx x → fresh sy y → inv sx sy x y.
Proof.
  intros (bx & cx & -> & Hbx & Hcx) (b_y & cy & -> & Hby & Hcy). split_and!; try done.
  exists [], []. split_and!; [apply half_start..|by apply line_start|by apply line_start].
Qed.

(** Nothing is going on at an end. *)
Definition at_rest (x : endpoint) : Prop := threads x = [] ∧ queue x = [] ∧ wire x = [] ∧ closures x = [].

(** What is known of the calls of an end. *)
Definition calls_correct (services : option (gmap bytes (Service U))) (x : endpoint) : Prop :=
  NoDup (finished x).*1 ∧
  Forall (finished_ok services (made x)) (finished x) ∧
  (∀ id, is_Some (outstandings_ (channel x) !! id) ↔ is_Some (made x !! id) ∧ id ∉ (finished x).*1 ∧ id ∉ numbered (threads x)).

Lemma half_correct x y out inn : half_of x y out inn → calls_correct (services_ (channel y)) x.
Proof.
  intros H. unfold half_of in H. pose proof (h_ids _ _ _ _ _ _ _ _ _ H) as Hids. pose proof (NoDup_seqZ 1 (next_id (channel x))) as Hnd.
  rewrite <-Hids in Hnd. apply NoDup_app in Hnd as (_ & Hdn & Hnd). apply NoDup_app in Hnd as (_ & Hdp & Hnd).
  split; [done|split; [apply H|]]. intros id. rewrite (h_outst _ _ _ _ _ _ _ _ _ H). rewrite (h_made _ _ _ _ _ _ _ _ _ H).
  assert (1 ≤ id ≤ next_id (channel x) ↔ id ∈ numbered (threads x) ++ pending (threads x) (closures y) out inn ++ (finished x).*1) as ->.
  { rewrite Hids, elem_of_seqZ. lia. }
  rewrite !elem_of_app. specialize (Hdn id). specialize (Hdp id). rewrite elem_of_app in Hdn.
  case_bool_decide as Hin; [|rewrite is_Some_alt; tauto]. assert (is_Some (made x !! id)) as [c Hc].
  { apply (h_made _ _ _ _ _ _ _ _ _ H). assert (id ∈ seqZ 1 (next_id (channel x))) as ?%elem_of_seqZ; [|lia]. rewrite <-Hids, !elem_of_app. tauto. }
  rewrite Hc. cbn. split; [|by eexists]. intros _. split_and!; [tauto..|]. intros Hn. by apply (Hdn Hn); left.
Qed.

Lemma rest_correct sx sy x y : inv sx sy x y → at_rest x → at_rest y →
  outstandings_ (channel x) = ∅ ∧ ∀ id, is_Some (made x !! id) → id ∈ (finished x).*1.
Proof.
  intros (_ & _ & ox & oy & H & _ & Lx & Ly) (Ht & Hq & Hw & Hc) (Ht' & Hq' & Hw' & Hc').
  rewrite Hq', Hw in Lx. rewrite Hq, Hw' in Ly. apply line_end in Lx as ->. apply line_end in Ly as ->.
  unfold half_of in H. rewrite Ht, Hc' in H. split.
  - apply map_eq. intros id. by rewrite (h_outst _ _ _ _ _ _ _ _ _ H), lookup_empty.
  - intros id Hid%(h_made _ _ _ _ _ _ _ _ _ H). pose proof (h_ids _ _ _ _ _ _ _ _ _ H) as Hids. cbn in Hids. rewrite Hids, elem_of_seqZ. lia.
Qed.
End invariant.

(** C37. Remote calls over one connection, both ends calling and serving, with any
    number of threads and any segmentation of the streams: whatever the
    interleaving, every step completes without a failed assertion or a shut down
    connection; every call ends at most once, and the object of its response then
    holds what a service of the peer answered to its request (or is as it was if
    there is no such method or the request does not parse), with [done] run if
    there is one; the outstanding calls are those recorded and not ended; and
    when nothing is under way all calls have ended. *)
Theorem rpc_calls_answered {U} `{!UserMessage U, !ProtobufMessage RpcMessage, !ProtobufLaws RpcMessage} adler32
    sx sy (x0 y0 x y : Endpoint.t U) :
  fresh sx x0 → fresh sy y0 → rtc (Endpoint.step adler32) (x0, y0) (x, y) →
  (∀ o, Endpoint.enabled adler32 o x y → ∃ s, Endpoint.run adler32 o x y = Done s) ∧
  (∀ o, Endpoint.enabled adler32 o y x → ∃ s, Endpoint.run adler32 o y x = Done s) ∧
  Endpoint.shut_down x = false ∧ Endpoint.shut_down y = false ∧
  calls_correct sy x ∧ calls_correct sx y ∧
  (at_rest x → at_rest y → RpcChannel.outstandings_ (Endpoint.channel x) = ∅ ∧ RpcChannel.outstandings_ (Endpoint.channel y) = ∅ ∧
    (∀ id, is_Some (Endpoint.made x !! id) → id ∈ (Endpoint.finished x).*1) ∧
    (∀ id, is_Some (Endpoint.made y !! id) → id ∈ (Endpoint.finished y).*1)).
Proof.
  intros Hx0 Hy0 Hr. pose proof (reachable_inv adler32 sx sy _ _ (fresh_inv adler32 _ _ x0 y0 Hx0 Hy0 : inv adler32 sx sy (x0, y0).1 (x0, y0).2) Hr) as Hi. cbn in Hi.
  pose proof (inv_sym _ _ _ _ _ Hi) as Hi'. destruct Hi as ((_ & <- & ?) & (_ & <- & ?) & ox & oy & Hx & Hy & Hl).
  split_and!; try done.
  - intros o He. apply inv_sym in Hi'. destruct (run_inv _ _ _ _ _ _ Hi' He) as (x' & y' & ? & _). by exists (x', y').
  - intros o He. destruct (run_inv _ _ _ _ _ _ Hi' He) as (x' & y' & ? & _). by exists (x', y').
  - by eapply half_correct.
  - by eapply half_correct.
  - intros Rx Ry. destruct (rest_correct _ _ _ _ _ Hi' Ry Rx) as [? ?]. apply inv_sym in Hi'.
    destruct (rest_correct _ _ _ _ _ Hi' Rx Ry) as [? ?]. done.
Qed.

Module Sample.
Import Endpoint.
#[export] Instance RpcMessage_eq_dec : EqDecision RpcMessage.
Proof. solve_decision. Defined.

(** Application messages that are strings. *)
#[export] Instance text_user : UserMessage bytes := { SerializeAsString m := m; ParseFromString text _ := (true, text) }.

(** A wire format for [RpcMessage], for short fields. *)
Definition put (field : option bytes) : bytes :=
  match field with None => [x00] | Some text => x01 :: le_bytes 1 (szof text) ++ text end.
Definition get (l : bytes) : option (option bytes * bytes) :=
  match l with
  | x00 :: l => Some (None, l)
  | _ :: n :: l => Some (Some (take (Z.to_nat (ub n)) l), drop (Z.to_nat (ub n)) l)
  | _ => None
  end.
Definition types : list MessageType := [REQUEST; RESPONSE; ERROR].
Definition errors : list ErrorCode := [NO_ERROR; WRONG_PROTO; NO_SERVICE; NO_METHOD; INVALID_REQUEST; INVALID_RESPONSE; TIMEOUT].
Definition place {A} `{EqDecision A} (l : list A) (x : option A) : bytes :=
  le_bytes 1 (match x with Some x => match list_find (x =.) l with Some (i, _) => Z.of_nat i | None => 255 end | None => 255 end).
Definition encode (m : RpcMessage) : bytes :=
  place types (type_ m) ++ place errors (error_ m) ++ le_bytes 8 (default 0 (id_ m)) ++
  put (service_ m) ++ put (method_ m) ++ put (request_ m) ++ put (response_ m).
Definition decode (l : bytes) : option RpcMessage :=
  match l with
  | t :: e :: l =>
      '(service, l1) ← get (drop 8 l); '(method, l1) ← get l1; '(request, l1) ← get l1; '(response, _) ← get l1;
      Some (mkRpcMessage (types !! Z.to_nat (ub t)) (Some (le_value (take 8 l))) service method request response (errors !! Z.to_nat (ub e)))
  | _ => None
  end.
#[export] Instance sample_message : ProtobufMessage RpcMessage := {
  IsInitialized m := bool_decide (decode (encode m) = Some m);
  ByteSize m := szof (encode m);
  SerializeToArray := encode;
  ParseFromArray := decode
}.
#[export] Instance sample_laws : ProtobufLaws RpcMessage.
Proof. split; [done|]. intros m H. by apply bool_decide_eq_true in H. Qed.
Definition adler (l : bytes) : Z := foldl (λ a c, (a * 31 + ub c) mod 65521) 1 l.

(** A server that echoes, and a client. *)
Definition echo : MethodDescriptor bytes := mkMethod [] (λ req r, r = req).
Definition service : Service bytes := mkService (bs "Echo") (λ name, if bool_decide (name = bs "echo") then Some echo else None).
Definition services := RpcServer.registerService service ∅.
Definition buffer := Buffer.mk (replicate 16 x00) 8 8.
Definition client : t bytes := make (RpcChannel.make (Some 5)) 5 buffer.
Definition server : t bytes := make (RpcChannel.setServices services (RpcChannel.make (Some 7))) 7 buffer.

Lemma client_fresh : fresh None client.
Proof. exists buffer, 5. split; [done|]. split; [|done]. repeat split; cbn; unfold Buffer.kCheapPrepend; lia. Qed.
Lemma server_fresh : fresh (Some services) server.
Proof. exists buffer, 7. split; [done|]. split; [|done]. repeat split; cbn; unfold Buffer.kCheapPrepend; lia. Qed.

Ltac left_step o := eapply rtc_l; [apply (step_left _ o); [|vm_compute; reflexivity]|].
Ltac right_step o := eapply rtc_l; [apply (step_right _ o); [|vm_compute; reflexivity]|].
Ltac fit := split; [vm_compute; reflexivity|vm_compute; discriminate].

Definition c1 := mkInvocation (bs "Echo") (bs "echo") (bs "hello") (Some []) true.
Definition c2 := mkInvocation (bs "Echo") (bs "none") (bs "hello") (Some (bs "old")) false.
(** A call that is answered and one of an unknown method. *)
Lemma calls_run : ∃ x y, rtc (step adler) (client, server) (x, y) ∧ at_rest x ∧ at_rest y ∧
  finished x = [(2, RpcChannel.Completed (bs "old") false); (1, RpcChannel.Completed (bs "hello") true)].
Proof.
  do 2 eexists. split.
  - left_step (Call c1); [vm_compute; reflexivity|].
    left_step (Call c2); [vm_compute; reflexivity|].
    left_step (Enter (U := bytes) 1%nat); [vm_compute; by repeat eexists|].
    left_step (Enter (U := bytes) 0%nat); [vm_compute; by repeat eexists|].
    left_step (Send (U := bytes) 1%nat); [do 2 eexists; split; [reflexivity|fit]|].
    right_step (Arrive (U := bytes) 11%nat); [split; [reflexivity|vm_compute; reflexivity]|].
    left_step (Send (U := bytes) 0%nat); [do 2 eexists; split; [reflexivity|fit]|].
    right_step (Arrive (U := bytes) 1000%nat); [split; [reflexivity|vm_compute; reflexivity]|].
    right_step (Handle (U := bytes) None); [do 2 eexists; split; [reflexivity|]; intros _ ? [=]|].
    right_step (Handle (U := bytes) None); [do 2 eexists; split; [reflexivity|]; intros _; fit|].
    right_step (Answer 0%nat (bs "hello")); [eexists; split; [reflexivity|split; [reflexivity|fit]]|].
    left_step (Arrive (U := bytes) 1000%nat); [split; [reflexivity|vm_compute; reflexivity]|].
    left_step (Handle (U := bytes) None); [do 2 eexists; split; [reflexivity|]; intros [=]|].
    left_step (Handle (U := bytes) None); [do 2 eexists; split; [reflexivity|]; intros [=]|].
    apply rtc_refl.
  - unfold at_rest. by vm_compute.
Qed.

Lemma rpc_calls_answered_witness : ∃ x y,
  rtc (step adler) (client, server) (x, y) ∧ calls_correct (Some services) x ∧ finished x ≠ [] ∧ RpcChannel.outstandings_ (channel x) = ∅.
Proof.
  destruct calls_run as (x & y & Hr & Rx & Ry & Hf). exists x, y.
  destruct (rpc_calls_answered adler None (Some services) client server x y client_fresh server_fresh Hr) as (_ & _ & _ & _ & Hc & _ & Hrest).
  split; [exact Hr|split; [exact Hc|split; [rewrite Hf; discriminate|]]]. apply (Hrest Rx Ry).
Defined.
End Sample.
