(* ===== verification/CDouble.v ===== *)
(** The text forms of [double] the JSON code obtains from the C library:
    [sscanf( buffer, "%lf" )] and [sprintf( buffer, "%#.16g" )], for binary64
    with round-to-nearest-even as glibc implements them, and the decimal forms
    of integers. *)

From Stdlib Require Import Floats.SpecFloat.
From S2P Require Import Prelude.
Local Open Scope Z_scope.

Definition is_digit (c : byte) : bool := (48 <=? ub c) && (ub c <=? 57).
Definition digit_value (c : byte) : Z := ub c - 48.
Definition digit_char (d : Z) : byte := of_Z (48 + d).

(** The decimal digits of a nonnegative integer, at least one. *)
Fixpoint digits_loop (fuel : nat) (n : Z) (acc : bytes) : bytes :=
  match fuel with
  | O => acc
  | S fuel =>
      let acc := digit_char (n mod 10) :: acc in
      if n / 10 =? 0 then acc else digits_loop fuel (n / 10) acc
  end.
Definition decimal (n : Z) : bytes := digits_loop (S (Z.to_nat (Z.log2 n))) n [].

(** [%d] and [%ld] of [printf] *)
Definition signed_decimal (z : Z) : bytes := if z <? 0 then x2d :: decimal (- z) else decimal z.

Definition decimal_value_from (acc : Z) (l : bytes) : Z :=
  foldl (λ a c, a * 10 + digit_value c) acc l.
Definition decimal_value (l : bytes) : Z := decimal_value_from 0 l.

(** The longest prefix of digits, and the rest. *)
Fixpoint span_digits (l : bytes) : bytes * bytes :=
  match l with
  | [] => ([], [])
  | c :: l' => if is_digit c then let '(d, r) := span_digits l' in (c :: d, r) else ([], l)
  end.

Definition span_sign (l : bytes) : bool * bytes :=
  match l with
  | c :: l' => if decide (c = x2d) then (true, l')
               else if decide (c = x2b) then (false, l') else (false, l)
  | [] => (false, [])
  end.

(** The exponent part, if one is present and complete. *)
Definition scan_exponent (l : bytes) : Z :=
  match l with
  | c :: l' =>
      if decide (c = x65 ∨ c = x45) then
        let '(neg, l'') := span_sign l' in
        let '(ds, _) := span_digits l'' in
        if neg then - decimal_value ds else decimal_value ds
      else 0
  | [] => 0
  end.

(** Conversions between [double] and the integer types. *)
Definition double_of_int (z : Z) : spec_float := binary_normalize 53 1024 z 0 false.
(** Truncation toward zero; [None] if infinite or not a number. *)
Definition trunc (d : spec_float) : option Z :=
  match d with
  | S754_zero _ => Some 0
  | S754_finite s m e =>
      let a := Z.shiftl (Zpos m) e in Some (if s then - a else a)
  | _ => None
  end.

(** Correctly rounded [(-1)^s * m * 10^e]. *)
Definition double_of_decimal (s : bool) (m e : Z) : spec_float :=
  let digits := Z.of_nat (length (decimal m)) in
  if m =? 0 then S754_zero s
  else if 400 <? digits + e then S754_infinity s
  else if digits + e <? -400 then S754_zero s
  else if 0 <=? e then binary_normalize 53 1024 ((if s then -1 else 1) * m * 10 ^ e) 0 s
  else
    let '(mz, ez, lz) := SFdiv_core_binary 53 1024 m 0 (10 ^ (- e)) 0 in
    binary_round_aux 53 1024 s mz ez lz.

(** [sscanf( l, "%lf", &value )]: [None] when the count is not 1. *)
Definition sscanf_lf (l : bytes) : option spec_float :=
  let '(neg, l1) := span_sign l in
  let '(ip, l2) := span_digits l1 in
  let '(fp, l3) := match l2 with
                   | c :: l2' => if decide (c = x2e) then span_digits l2' else ([], l2)
                   | [] => ([], [])
                   end in
  match ip ++ fp with
  | [] => None
  | ds => Some (double_of_decimal neg (decimal_value ds)
                  (scan_exponent l3 - Z.of_nat (length fp)))
  end.

(** Round half to even of [n / d]. *)
Definition round_div (n d : Z) : Z :=
  let q := n / d in let r := n mod d in
  if 2 * r <? d then q else if d <? 2 * r then q + 1
  else if Z.even q then q else q + 1.

(** The largest [x] at most [x0] with [10^x <= n / d]. *)
Fixpoint log10_from (fuel : nat) (x n d : Z) : Z :=
  match fuel with
  | O => x
  | S fuel =>
      if (if 0 <=? x then 10 ^ x * d <=? n else d <=? n * 10 ^ (- x)) then x
      else log10_from fuel (x - 1) n d
  end.

(** Sixteen significant digits and the decimal exponent of [n / d]. *)
Definition digits16 (n d : Z) : Z * Z :=
  let x := log10_from 640 309 n d in
  let s := if x <=? 15 then round_div (n * 10 ^ (15 - x)) d
           else round_div n (d * 10 ^ (x - 15)) in
  if s =? 10 ^ 16 then (10 ^ 15, x + 1) else (s, x).

Definition pad2 (n : Z) : bytes := if n <? 10 then x30 :: decimal n else decimal n.

Definition format_g16 (s x : Z) : bytes :=
  let ds := decimal s in
  if (-4 <=? x) && (x <? 16) then
    if 0 <=? x then
      take (Z.to_nat (x + 1)) ds ++ [x2e] ++ drop (Z.to_nat (x + 1)) ds
    else [x30; x2e] ++ replicate (Z.to_nat (- x - 1)) x30 ++ ds
  else
    take 1 ds ++ [x2e] ++ drop 1 ds ++
    [x65; if x <? 0 then x2d else x2b] ++ pad2 (Z.abs x).

(** [sprintf( buffer, "%#.16g", value )] *)
Definition sprintf_g16 (value : spec_float) : bytes :=
  let sign (s : bool) := if s then [x2d] else [] in
  match value with
  | S754_nan => bs "nan"
  | S754_infinity s => sign s ++ bs "inf"
  | S754_zero s => sign s ++ format_g16 0 0 ++ replicate 15 x30
  | S754_finite s m e =>
      let '(n, d) := if 0 <=? e then (Zpos m * 2 ^ e, 1) else (Zpos m, 2 ^ (- e)) in
      let '(ds, x) := digits16 n d in
      sign s ++ format_g16 ds x
  end.

(** * Decimal digits *)

Lemma digit_char_spec d : 0 ≤ d < 10 → is_digit (digit_char d) = true ∧ digit_value (digit_char d) = d.
Proof.
  intros Hd. unfold is_digit, digit_value, digit_char. rewrite ub_of_Z.
  rewrite Z.mod_small by lia. lia.
Qed.

Lemma decimal_value_from_app acc a b :
  decimal_value_from acc (a ++ b) = decimal_value_from (decimal_value_from acc a) b.
Proof. apply foldl_app. Qed.

(** The digits the loop puts in front of [acc]. *)
Lemma digits_loop_spec fuel n acc :
  0 ≤ n < 2 ^ Z.of_nat (S fuel) →
  ∃ ds, digits_loop (S fuel) n acc = ds ++ acc ∧ Forall (λ c, is_digit c = true) ds ∧
        decimal_value ds = n ∧ ds ≠ [] ∧
        10 ^ (Z.of_nat (length ds) - 1) ≤ Z.max n 1 ∧ n < 10 ^ Z.of_nat (length ds).
Proof.
  revert n acc. induction fuel as [|fuel IH]; intros n acc Hn;
    pose proof (Z.mod_pos_bound n 10 eq_refl) as Hm; pose proof (Z.div_mod n 10) as Hd;
    destruct (digit_char_spec (n mod 10) Hm) as [Hc Hv].
  - change (2 ^ Z.of_nat 1) with 2 in Hn. rewrite (Z.mod_small n 10) in * by lia.
    exists [digit_char n]. cbn [digits_loop]. rewrite Z.div_small, Z.mod_small by lia.
    split_and!; [done|by constructor| |done|cbn; lia|].
    + unfold decimal_value, decimal_value_from. cbn [foldl]. lia.
    + change (10 ^ Z.of_nat (length [digit_char n])) with 10. lia.
  - remember (S fuel) as f eqn:Ef. cbn [digits_loop].
    destruct (Z.eqb_spec (n / 10) 0) as [E|E].
    + exists [digit_char (n mod 10)]. split_and!; [done|by constructor| |done| |].
      * unfold decimal_value, decimal_value_from. cbn [foldl]. rewrite Hv. lia.
      * cbn. lia.
      * change (10 ^ Z.of_nat (length [digit_char (n mod 10)])) with 10. lia.
    + assert (Hq : 0 ≤ n / 10 < 2 ^ Z.of_nat f).
      { rewrite Nat2Z.inj_succ, Z.pow_succ_r in Hn by lia.
        split; [apply Z.div_pos; lia | apply Z.div_lt_upper_bound; lia]. }
      destruct (IH (n / 10) (digit_char (n mod 10) :: acc) Hq) as (ds & -> & Hds & Hval & Hne & Hlo & Hhi).
      exists (ds ++ [digit_char (n mod 10)]). split_and!.
      * by rewrite <-app_assoc.
      * apply Forall_app; split; [done|]. by repeat constructor.
      * unfold decimal_value in *. rewrite decimal_value_from_app, Hval.
        unfold decimal_value_from. cbn [foldl]. rewrite Hv. lia.
      * by destruct ds.
      * rewrite length_app. cbn [length].
        replace (Z.of_nat (length ds + 1) - 1) with (Z.succ (Z.of_nat (length ds) - 1)) by lia.
        destruct ds as [|? ds]; [done|]. cbn [length] in *.
        rewrite Z.pow_succ_r by lia. lia.
      * rewrite length_app. cbn [length].
        replace (Z.of_nat (length ds + 1)) with (Z.succ (Z.of_nat (length ds))) by lia.
        rewrite Z.pow_succ_r by lia. lia.
Qed.

Lemma decimal_spec n :
  0 ≤ n →
  Forall (λ c, is_digit c = true) (decimal n) ∧ decimal_value (decimal n) = n ∧ decimal n ≠ [] ∧
  10 ^ (Z.of_nat (length (decimal n)) - 1) ≤ Z.max n 1 ∧ n < 10 ^ Z.of_nat (length (decimal n)).
Proof.
  intros Hn. unfold decimal.
  destruct (digits_loop_spec (Z.to_nat (Z.log2 n)) n []) as (ds & E & H).
  { split; [done|]. rewrite Nat2Z.inj_succ, Z2Nat.id by apply Z.log2_nonneg.
    destruct (decide (n = 0)) as [->|]; [done|]. apply Z.log2_spec. lia. }
  by rewrite E, app_nil_r.
Qed.

Lemma decimal_digits n : 0 ≤ n → Forall (λ c, is_digit c = true) (decimal n).
Proof. intros. by apply decimal_spec. Qed.
Lemma decimal_value_decimal n : 0 ≤ n → decimal_value (decimal n) = n.
Proof. intros. by apply decimal_spec. Qed.
Lemma decimal_nonempty n : 0 ≤ n → decimal n ≠ [].
Proof. intros. by apply decimal_spec. Qed.
Lemma decimal_length n k : 0 ≤ n < 10 ^ Z.of_nat (S k) → (length (decimal n) ≤ S k)%nat.
Proof.
  intros Hn. destruct (decimal_spec n) as (_ & _ & _ & Hlo & _); [lia|].
  destruct (decide (length (decimal n) ≤ S k)%nat) as [|Hgt]; [done|]. exfalso.
  assert (10 ^ Z.of_nat (S k) ≤ 10 ^ (Z.of_nat (length (decimal n)) - 1))
    by (apply Z.pow_le_mono_r; lia).
  assert (1 < 10 ^ Z.of_nat (S k)) by (apply Z.pow_gt_1; lia). lia.
Qed.

#[export] Hint Resolve decimal_digits decimal_nonempty : im.
