(* ===== verification/Http.v ===== *)
(** The HTTP server of muduo (src/IMServer/src/muduo/net/http: HttpRequest.h,
    HttpContext.h, HttpContext.cc, HttpResponse.h, HttpResponse.cc,
    HttpServer.cc): the incremental parser of requests over a [Buffer], the
    writer of responses, and the handler of messages.  What a handler sends on
    its connection is the list of its calls; the callback of the application is
    a parameter. *)

From S2P Require Import Prelude StdMap Buffer CDouble.
Local Open Scope Z_scope.

(** [isspace] in the C locale *)
Definition isspace (c : byte) : bool := bool_decide (c ∈ [x20; x09; x0a; x0b; x0c; x0d]).

(** [std::find( start, end, c )]: the text before the first [c] and after it. *)
Fixpoint cut (c : byte) (l : bytes) : option (bytes * bytes) :=
  match l with
  | [] => None
  | d :: l =>
      if decide (d = c) then Some ([], l)
      else match cut c l with Some (a, b) => Some (d :: a, b) | None => None end
  end.

Fixpoint drop_spaces (l : bytes) : bytes :=
  match l with c :: l' => if isspace c then drop_spaces l' else l | [] => [] end.

(** * Requests *)

Module HttpRequest.
Inductive Method := kInvalid | kGet | kPost | kHead | kPut | kDelete.
Inductive Version := kUnknown | kHttp10 | kHttp11.
#[global] Instance Method_eq_dec : EqDecision Method.
Proof. solve_decision. Defined.
#[global] Instance Version_eq_dec : EqDecision Version.
Proof. solve_decision. Defined.

Record t := mk {
  method_ : Method; version_ : Version; path_ : bytes; query_ : bytes;
  receiveTime_ : Z; headers_ : list (bytes * bytes)
}.

(** [HttpRequest()]; an unset time is invalid, zero. *)
Definition make : t := mk kInvalid kUnknown [] [] 0 [].

Definition setVersion (v : Version) (r : t) : t :=
  mk (method_ r) v (path_ r) (query_ r) (receiveTime_ r) (headers_ r).
Definition setPath (path : bytes) (r : t) : t :=
  mk (method_ r) (version_ r) path (query_ r) (receiveTime_ r) (headers_ r).
Definition setQuery (query : bytes) (r : t) : t :=
  mk (method_ r) (version_ r) (path_ r) query (receiveTime_ r) (headers_ r).
Definition setReceiveTime (time : Z) (r : t) : t :=
  mk (method_ r) (version_ r) (path_ r) (query_ r) time (headers_ r).

(** [setMethod( start, end )] *)
Definition method_of (m : bytes) : Method :=
  if decide (m = bs "GET") then kGet
  else if decide (m = bs "POST") then kPost
  else if decide (m = bs "HEAD") then kHead
  else if decide (m = bs "PUT") then kPut
  else if decide (m = bs "DELETE") then kDelete
  else kInvalid.
Definition setMethod (m : bytes) (r : t) : outcome (bool * t) :=
  _ ← cassert (bool_decide (method_ r = kInvalid)) "method_ == kInvalid";
  let r := mk (method_of m) (version_ r) (path_ r) (query_ r) (receiveTime_ r) (headers_ r) in
  Done (bool_decide (method_ r ≠ kInvalid), r).

Definition methodString (r : t) : bytes :=
  match method_ r with
  | kGet => bs "GET" | kPost => bs "POST" | kHead => bs "HEAD" | kPut => bs "PUT"
  | kDelete => bs "DELETE" | kInvalid => bs "UNKNOWN"
  end.

(** [addHeader( start, colon, end )]: the text before and after the colon;
    spaces around the value are dropped. *)
Definition addHeader (field rest : bytes) (r : t) : t :=
  let value := reverse (drop_spaces (reverse (drop_spaces rest))) in
  mk (method_ r) (version_ r) (path_ r) (query_ r) (receiveTime_ r) (StdMap.assign field value (headers_ r)).

Definition getHeader (field : bytes) (r : t) : bytes := default [] (StdMap.find field (headers_ r)).

Definition swap (r that : t) : t * t := (that, r).
End HttpRequest.

(** * Parsing *)

Module HttpContext.
Inductive HttpRequestParseState := kExpectRequestLine | kExpectHeaders | kExpectBody | kGotAll.
#[global] Instance state_eq_dec : EqDecision HttpRequestParseState.
Proof. solve_decision. Defined.

Record t := mk { state_ : HttpRequestParseState; request_ : HttpRequest.t }.
Definition make : t := mk kExpectRequestLine HttpRequest.make.
Definition gotAll (c : t) : bool := bool_decide (state_ c = kGotAll).
Definition reset (c : t) : t :=
  let dummy := HttpRequest.make in mk kExpectRequestLine (HttpRequest.swap (request_ c) dummy).1.

(** [processRequestLine( begin, end )] *)
Definition processRequestLine (line : bytes) (c : t) : outcome (bool * t) :=
  match cut x20 line with
  | None => Done (false, c)
  | Some (method, rest) =>
      '(ok, r) ← HttpRequest.setMethod method (request_ c);
      let c := mk (state_ c) r in
      if (ok : bool) then
        match cut x20 rest with
        | None => Done (false, c)
        | Some (target, version) =>
            let r := match cut x3f target with
                     | Some (path, query) => HttpRequest.setQuery (x3f :: query) (HttpRequest.setPath path r)
                     | None => HttpRequest.setPath target r
                     end in
            if bool_decide (length version = 8%nat) && bool_decide (take 7 version = bs "HTTP/1.") then
              match last version with
              | Some x31 => Done (true, mk (state_ c) (HttpRequest.setVersion HttpRequest.kHttp11 r))
              | Some x30 => Done (true, mk (state_ c) (HttpRequest.setVersion HttpRequest.kHttp10 r))
              | _ => Done (false, mk (state_ c) r)
              end
            else Done (false, mk (state_ c) r)
        end
      else Done (false, c)
  end.

(** [parseRequest( buf, receiveTime )].  In the states [kExpectBody] and
    [kGotAll] the loop has nothing to do and does not end. *)
Fixpoint parse_loop (fuel : nat) (receiveTime : Z) (buf : Buffer.t) (c : t) : outcome (bool * Buffer.t * t) :=
  match fuel with
  | O => Fault OutOfFuel
  | S fuel =>
      match state_ c with
      | kExpectRequestLine =>
          match Buffer.findCRLF buf with
          | Some crlf =>
              '(ok, c) ← processRequestLine (Buffer.range (Buffer.peek buf) crlf buf) c;
              if (ok : bool) then
                let c := mk (state_ c) (HttpRequest.setReceiveTime receiveTime (request_ c)) in
                buf ← Buffer.retrieveUntil (crlf + 2) buf;
                parse_loop fuel receiveTime buf (mk kExpectHeaders (request_ c))
              else Done (false, buf, c)
          | None => Done (true, buf, c)
          end
      | kExpectHeaders =>
          match Buffer.findCRLF buf with
          | Some crlf =>
              match cut x3a (Buffer.range (Buffer.peek buf) crlf buf) with
              | Some (field, rest) =>
                  let c := mk (state_ c) (HttpRequest.addHeader field rest (request_ c)) in
                  buf ← Buffer.retrieveUntil (crlf + 2) buf;
                  parse_loop fuel receiveTime buf c
              | None =>
                  buf ← Buffer.retrieveUntil (crlf + 2) buf;
                  Done (true, buf, mk kGotAll (request_ c))
              end
          | None => Done (true, buf, c)
          end
      | kExpectBody | kGotAll => parse_loop fuel receiveTime buf c
      end
  end.

(** The fuel is enough in the first two states: every round takes two bytes. *)
Definition parseRequest (buf : Buffer.t) (receiveTime : Z) (c : t) : outcome (bool * Buffer.t * t) :=
  parse_loop (S (Z.to_nat (Buffer.readableBytes buf))) receiveTime buf c.
End HttpContext.

(** * Responses *)

Module HttpResponse.
(** [HttpStatusCode], by its number *)
Definition kUnknown : Z := 0.
Definition k200Ok : Z := 200.
Definition k301MovedPermanently : Z := 301.
Definition k400BadRequest : Z := 400.
Definition k404NotFound : Z := 404.

Record t := mk {
  headers_ : list (bytes * bytes); statusCode_ : Z; statusMessage_ : bytes;
  closeConnection_ : bool; body_ : bytes
}.
Definition make (close : bool) : t := mk [] kUnknown [] close [].
Definition setStatusCode (code : Z) (r : t) : t := mk (headers_ r) code (statusMessage_ r) (closeConnection_ r) (body_ r).
Definition setStatusMessage (message : bytes) (r : t) : t :=
  mk (headers_ r) (statusCode_ r) message (closeConnection_ r) (body_ r).
Definition setCloseConnection (on : bool) (r : t) : t := mk (headers_ r) (statusCode_ r) (statusMessage_ r) on (body_ r).
Definition addHeader (key value : bytes) (r : t) : t :=
  mk (StdMap.assign key value (headers_ r)) (statusCode_ r) (statusMessage_ r) (closeConnection_ r) (body_ r).
Definition setContentType (contentType : bytes) (r : t) : t := addHeader (bs "Content-Type") contentType r.
Definition setBody (body : bytes) (r : t) : t :=
  mk (headers_ r) (statusCode_ r) (statusMessage_ r) (closeConnection_ r) body.

(** [snprintf( buf, 32, ... )] keeps 31 characters. *)
Definition snprintf32 (text : bytes) : bytes := take 31 text.
Definition crlf : bytes := [x0d; x0a].

(** [for ( const auto& header : headers_ )] *)
Fixpoint append_headers (headers : list (bytes * bytes)) (output : Buffer.t) : outcome Buffer.t :=
  match headers with
  | [] => Done output
  | (key, value) :: headers =>
      output ← Buffer.appendString key output;
      output ← Buffer.appendString (bs ": ") output;
      output ← Buffer.appendString value output;
      output ← Buffer.appendString crlf output;
      append_headers headers output
  end.

Definition appendToBuffer (r : t) (output : Buffer.t) : outcome Buffer.t :=
  output ← Buffer.appendString (snprintf32 (bs "HTTP/1.1 " ++ decimal (statusCode_ r) ++ bs " ")) output;
  output ← Buffer.appendString (statusMessage_ r) output;
  output ← Buffer.appendString crlf output;
  output ← (if closeConnection_ r then Buffer.appendString (bs "Connection: close" ++ crlf) output
            else
              output ← Buffer.appendString (snprintf32 (bs "Content-Length: " ++ decimal (szof (body_ r)) ++ crlf)) output;
              Buffer.appendString (bs "Connection: Keep-Alive" ++ crlf) output);
  output ← append_headers (headers_ r) output;
  output ← Buffer.appendString crlf output;
  Buffer.appendString (body_ r) output.
End HttpResponse.

(** * The server *)

Module HttpServer.
(** What is called on the connection. *)
Inductive call := Send (data : bytes) | Shutdown.

Definition defaultHttpCallback (resp : HttpResponse.t) : HttpResponse.t :=
  HttpResponse.setCloseConnection true
    (HttpResponse.setStatusMessage (bs "Not Found") (HttpResponse.setStatusCode HttpResponse.k404NotFound resp)).

Section server.
Context (httpCallback_ : HttpRequest.t → HttpResponse.t → HttpResponse.t).

(** [onConnection( conn )] of a connection that is up: a fresh context *)
Definition onConnection (connected : bool) (context : option HttpContext.t) : option HttpContext.t :=
  if connected then Some HttpContext.make else context.

(** Whether the client wants the connection closed. *)
Definition wants_close (req : HttpRequest.t) : bool :=
  let connection := HttpRequest.getHeader (bs "Connection") req in
  bool_decide (connection = bs "close") ||
  (bool_decide (HttpRequest.version_ req = HttpRequest.kHttp10) && negb (bool_decide (connection = bs "Keep-Alive"))).

Definition onRequest (req : HttpRequest.t) : outcome (list call) :=
  let close := wants_close req in
  let response := httpCallback_ req (HttpResponse.make close) in
  buf ← Buffer.make Buffer.kInitialSize;
  buf ← HttpResponse.appendToBuffer response buf;
  Done (Send (Buffer.contents buf) :: (if HttpResponse.closeConnection_ response then [Shutdown] else [])).

Definition bad_request : bytes := bs "HTTP/1.1 400 Bad Request" ++ HttpResponse.crlf ++ HttpResponse.crlf.

Definition onMessage (buf : Buffer.t) (receiveTime : Z) (context : HttpContext.t) :
    outcome (list call * Buffer.t * HttpContext.t) :=
  '(ok, buf, context) ← HttpContext.parseRequest buf receiveTime context;
  let calls := if (ok : bool) then [] else [Send bad_request; Shutdown] in
  if HttpContext.gotAll context then
    replies ← onRequest (HttpContext.request_ context);
    Done (calls ++ replies, buf, HttpContext.reset context)
  else Done (calls, buf, context).

(** Segments of the stream arrive one by one. *)
Fixpoint deliver (segments : list (bytes * Z)) (buf : Buffer.t) (context : HttpContext.t) :
    outcome (list call * Buffer.t * HttpContext.t) :=
  match segments with
  | [] => Done ([], buf, context)
  | (data, time) :: segments =>
      buf ← Buffer.append data buf;
      '(calls, buf, context) ← onMessage buf time context;
      '(more, buf, context) ← deliver segments buf context;
      Done (calls ++ more, buf, context)
  end.
End server.
End HttpServer.

(** * The parser on the stream of bytes *)

Import HttpContext.

(** The first line of a text, and what follows it. *)
Fixpoint cut_crlf (l : bytes) : option (bytes * bytes) :=
  match l with
  | [] => None
  | c :: l' =>
      if decide (take 2 l = Buffer.kCRLF) then Some ([], drop 2 l)
      else match cut_crlf l' with Some (a, b) => Some (c :: a, b) | None => None end
  end.

Lemma search_cut at_ l :
  Buffer.search_crlf at_ l = match cut_crlf l with Some (a, _) => Some (at_ + szof a) | None => None end.
Proof.
  revert at_. induction l as [|c l IH]; intros at_; [done|].
  cbn [Buffer.search_crlf cut_crlf]. destruct (decide (take 2 (c :: l) = Buffer.kCRLF)) as [Hc|Hc].
  - f_equal. cbn. lia.
  - rewrite IH. destruct (cut_crlf l) as [[a b]|]; [|done]. f_equal. cbn [length]. lia.
Qed.

Lemma cut_crlf_Some l a b : cut_crlf l = Some (a, b) → l = a ++ Buffer.kCRLF ++ b.
Proof.
  revert a. induction l as [|c l IH]; intros a; [done|]. cbn [cut_crlf].
  destruct (decide (take 2 (c :: l) = Buffer.kCRLF)) as [Hc|Hc].
  - intros [= <- <-]. rewrite <-(take_drop 2 (c :: l)) at 1. by rewrite Hc.
  - destruct (cut_crlf l) as [[a' b']|]; [|done]. intros [= <- <-]. cbn. by rewrite (IH a').
Qed.

Lemma cut_crlf_app l a b s : cut_crlf l = Some (a, b) → cut_crlf (l ++ s) = Some (a, b ++ s).
Proof.
  revert a. induction l as [|c l IH]; intros a; [done|]. cbn [cut_crlf app].
  destruct (decide (take 2 (c :: l) = Buffer.kCRLF)) as [Hc|Hc].
  - intros [= <- <-]. destruct l as [|d l]; [by destruct c|]. cbn in Hc |- *. rewrite decide_True by done. done.
  - destruct (cut_crlf l) as [[a' b']|] eqn:E; [|done]. intros [= <- <-].
    destruct l as [|d l]; [done|]. cbn in Hc |- *. rewrite decide_False by done. cbn in IH. by rewrite (IH a').
Qed.

Lemma cut_crlf_line line rest : x0d ∉ line → cut_crlf (line ++ Buffer.kCRLF ++ rest) = Some (line, rest).
Proof.
  induction line as [|c line IH]; intros Hn; [done|]. apply not_elem_of_cons in Hn as [Hc Hn].
  cbn [app cut_crlf]. rewrite decide_False; [by rewrite IH|]. cbn. intros E. injection E. congruence.
Qed.

Lemma crlf_step (buf : Buffer.t) :
  Buffer.wf buf →
  match cut_crlf (Buffer.contents buf) with
  | Some (line, rest) =>
      ∃ p buf', Buffer.findCRLF buf = Some p ∧ Buffer.range (Buffer.peek buf) p buf = line ∧
        Buffer.retrieveUntil (p + 2) buf = Done buf' ∧ Buffer.wf buf' ∧ Buffer.contents buf' = rest
  | None => Buffer.findCRLF buf = None
  end.
Proof.
  intros Hb. unfold Buffer.findCRLF.
  change (Buffer.range (Buffer.peek buf) (Buffer.beginWrite buf) buf) with (Buffer.contents buf).
  rewrite search_cut. destruct (cut_crlf (Buffer.contents buf)) as [[line rest]|] eqn:E; [|done].
  apply cut_crlf_Some in E. exists (Buffer.peek buf + szof line).
  assert (Hl : szof (Buffer.contents buf) = szof line + 2 + szof rest).
  { rewrite E, !length_app. cbn. lia. }
  destruct (retrieve_spec buf (szof line + 2) Hb) as (buf' & Hd & Hb' & Hc); [lia|].
  exists buf'. split; [done|]. split; [|split; [|split; [done|]]].
  - rewrite range_peek by (done || (rewrite <-length_contents by done; lia)). rewrite E, Nat2Z.id. by rewrite take_app_length.
  - unfold Buffer.retrieveUntil. pose proof Hb as (H1 & H2 & H3).
    rewrite cassert_bind by (apply Z.leb_le; lia).
    rewrite length_contents, readable_eq in Hl by done.
    rewrite cassert_bind by (apply Z.leb_le; unfold Buffer.peek, Buffer.beginWrite; lia).
    replace (Buffer.peek buf + szof line + 2 - Buffer.peek buf) with (szof line + 2) by lia. done.
  - rewrite Hc, E. replace (Z.to_nat (szof line + 2)) with (length (line ++ Buffer.kCRLF)) by (rewrite length_app; cbn; lia).
    by rewrite app_assoc, drop_app_length.
Qed.

(** One round of the loop of [parseRequest]. *)
Inductive round := Stop (ok : bool) (q : bytes) (c : t) | Go (q : bytes) (c : t) | Crash (f : fault).

Definition iter (time : Z) (c : t) (q : bytes) : round :=
  match state_ c with
  | kExpectRequestLine =>
      match cut_crlf q with
      | Some (line, rest) =>
          match processRequestLine line c with
          | Done (true, c) => Go rest (mk kExpectHeaders (HttpRequest.setReceiveTime time (request_ c)))
          | Done (false, c) => Stop false q c
          | Fault f => Crash f
          end
      | None => Stop true q c
      end
  | kExpectHeaders =>
      match cut_crlf q with
      | Some (line, rest) =>
          match cut x3a line with
          | Some (field, value) => Go rest (mk kExpectHeaders (HttpRequest.addHeader field value (request_ c)))
          | None => Stop true rest (mk kGotAll (request_ c))
          end
      | None => Stop true q c
      end
  | _ => Go q c
  end.

Fixpoint rounds (fuel : nat) (time : Z) (c : t) (q : bytes) : outcome (bool * bytes * t) :=
  match fuel with
  | O => Fault OutOfFuel
  | S fuel =>
      match iter time c q with
      | Stop ok q c => Done (ok, q, c)
      | Go q c => rounds fuel time c q
      | Crash f => Fault f
      end
  end.

Lemma parse_rounds fuel time buf c :
  Buffer.wf buf →
  match rounds fuel time c (Buffer.contents buf) with
  | Done (ok, q, c') => ∃ buf', parse_loop fuel time buf c = Done (ok, buf', c') ∧ Buffer.wf buf' ∧ Buffer.contents buf' = q
  | Fault f => parse_loop fuel time buf c = Fault f
  end.
Proof.
  revert buf c. induction fuel as [|fuel IH]; intros buf c Hb; [done|].
  cbn [rounds parse_loop]. unfold iter. pose proof (crlf_step buf Hb) as Hs.
  destruct (state_ c) eqn:Es.
  - destruct (cut_crlf (Buffer.contents buf)) as [[line rest]|]; [|rewrite Hs; by exists buf].
    destruct Hs as (p & buf' & -> & -> & Hd & Hb' & <-).
    destruct (processRequestLine line c) as [[[|] c']|f] eqn:Ep; [| |done].
    + rewrite bind_ret_l. cbv zeta. rewrite Hd, bind_ret_l. by apply IH.
    + by exists buf.
  - destruct (cut_crlf (Buffer.contents buf)) as [[line rest]|]; [|rewrite Hs; by exists buf].
    destruct Hs as (p & buf' & -> & -> & Hd & Hb' & <-).
    destruct (cut x3a line) as [[field value]|].
    + cbv zeta. rewrite Hd, bind_ret_l. by apply IH.
    + rewrite Hd, bind_ret_l. by exists buf'.
  - by apply IH.
  - by apply IH.
Qed.

(** ** Segments *)

(** The states the parser is in between messages. *)
Definition live (c : t) : bool := match state_ c with kExpectRequestLine | kExpectHeaders => true | _ => false end.

Lemma iter_Go time c q q' c' : live c = true → iter time c q = Go q' c' → live c' = true ∧ (length q' < length q)%nat.
Proof.
  unfold live, iter. destruct (state_ c); try done; intros _.
  - destruct (cut_crlf q) as [[line rest]|] eqn:E; [|done]. destruct (processRequestLine line c) as [[[|] c1]|]; try done.
    intros [= <- <-]. split; [done|]. apply cut_crlf_Some in E. rewrite E, !length_app. cbn. lia.
  - destruct (cut_crlf q) as [[line rest]|] eqn:E; [|done]. destruct (cut x3a line) as [[field value]|]; [|done].
    intros [= <- <-]. split; [done|]. apply cut_crlf_Some in E. rewrite E, !length_app. cbn. lia.
Qed.

(** More bytes behind the end do not change a round that has a line. *)
Lemma iter_app time c q s :
  live c = true →
  match iter time c q with
  | Go q' c' => iter time c (q ++ s) = Go (q' ++ s) c'
  | Stop false q' c' => iter time c (q ++ s) = Stop false (q' ++ s) c'
  | Stop true q' c' => if gotAll c' then iter time c (q ++ s) = Stop true (q' ++ s) c' else q' = q ∧ c' = c
  | Crash f => iter time c (q ++ s) = Crash f
  end.
Proof.
  unfold live, iter, gotAll. destruct (state_ c) eqn:Es; try done; intros _.
  - destruct (cut_crlf q) as [[line rest]|] eqn:E.
    + rewrite (cut_crlf_app _ _ _ s E). by destruct (processRequestLine line c) as [[[|] c1]|].
    + by rewrite bool_decide_eq_false_2 by by rewrite Es.
  - destruct (cut_crlf q) as [[line rest]|] eqn:E.
    + rewrite (cut_crlf_app _ _ _ s E). destruct (cut x3a line) as [[field value]|]; [done|].
      by rewrite bool_decide_eq_true_2.
    + by rewrite bool_decide_eq_false_2 by by rewrite Es.
Qed.

(** Enough fuel is enough. *)
Lemma rounds_fuel n m time c q :
  live c = true → (length q < n)%nat → (length q < m)%nat → rounds n time c q = rounds m time c q.
Proof.
  revert m c q. induction n as [|n IH]; intros [|m] c q Hc Hn Hm; [lia|lia|lia|]. cbn [rounds].
  destruct (iter time c q) as [| |] eqn:E; [done| |done].
  destruct (iter_Go time c q _ _ Hc E) as [Hc' Hl]. apply IH; [done|lia|lia].
Qed.

Definition parse (time : Z) (c : t) (q : bytes) : outcome (bool * bytes * t) := rounds (S (length q)) time c q.

Lemma parse_step time c q :
  live c = true →
  parse time c q =
    match iter time c q with Stop ok q c => Done (ok, q, c) | Go q c => parse time c q | Crash f => Fault f end.
Proof.
  intros Hc. unfold parse at 1. cbn [rounds]. destruct (iter time c q) as [| |] eqn:E; try done.
  destruct (iter_Go time c q _ _ Hc E) as [Hc' Hl]. apply rounds_fuel; [done|lia|lia].
Qed.

(** Parsing what has arrived, and later the rest with what is still there, is
    parsing everything at once. *)
Lemma parse_app time c q s :
  live c = true →
  match parse time c q with
  | Done (ok, q', c') =>
      if negb ok || gotAll c' then parse time c (q ++ s) = Done (ok, q' ++ s, c')
      else live c' = true ∧ parse time c (q ++ s) = parse time c' (q' ++ s)
  | Fault f => parse time c (q ++ s) = Fault f
  end.
Proof.
  remember (length q) as n eqn:En. revert c q En. induction n as [n IH] using lt_wf_ind. intros c q -> Hc.
  rewrite (parse_step time c q Hc). pose proof (iter_app time c q s Hc) as Hi.
  destruct (iter time c q) as [ok q' c'|q' c'|f] eqn:E.
  - destruct ok; cbn [negb orb].
    + destruct (gotAll c') eqn:Eg; [by rewrite (parse_step time c (q ++ s) Hc), Hi|]. by destruct Hi as [-> ->].
    + by rewrite (parse_step time c (q ++ s) Hc), Hi.
  - destruct (iter_Go time c q q' c' Hc E) as [Hc' Hl].
    rewrite (parse_step time c (q ++ s) Hc), Hi. by apply (IH (length q')).
  - by rewrite (parse_step time c (q ++ s) Hc), Hi.
Qed.

Lemma rounds_length n time c q ok q' c' :
  rounds n time c q = Done (ok, q', c') → (length q' ≤ length q)%nat.
Proof.
  revert c q. induction n as [|n IH]; intros c q; [done|]. cbn [rounds].
  assert (Hi : match iter time c q with Stop _ p _ | Go p _ => (length p ≤ length q)%nat | Crash _ => True end).
  { unfold iter. destruct (state_ c); try done.
    - destruct (cut_crlf q) as [[line rest]|] eqn:E; [|done]. apply cut_crlf_Some in E.
      destruct (processRequestLine line c) as [[[|] ?]|]; try done. rewrite E, !length_app. lia.
    - destruct (cut_crlf q) as [[line rest]|] eqn:E; [|done]. apply cut_crlf_Some in E.
      destruct (cut x3a line) as [[? ?]|]; rewrite E, !length_app; lia. }
  destruct (iter time c q); [by intros [= <- <- <-]| |done]. intros Hr. specialize (IH _ _ Hr). lia.
Qed.

(** ** The receive time *)

(** A context without the time, which the parser only stores. *)
Definition untimed (c : t) : t := mk (state_ c) (HttpRequest.setReceiveTime 0 (request_ c)).

Definition same (a b : outcome (bool * bytes * t)) : Prop :=
  match a, b with
  | Done (ok, q, c), Done (ok', q', c') => ok = ok' ∧ q = q' ∧ untimed c = untimed c'
  | Fault f, Fault f' => f = f'
  | _, _ => False
  end.

Lemma untimed_eq c c' :
  untimed c = untimed c' ↔
    state_ c = state_ c' ∧ ∃ time, request_ c = HttpRequest.setReceiveTime time (request_ c').
Proof.
  unfold untimed. split.
  - destruct c as [s [m v p u r h]], c' as [s' [m' v' p' u' r' h']]. cbn. intros [= -> -> -> -> -> ->]. split; [done|]. by exists r.
  - destruct c as [s [m v p u r h]], c' as [s' [m' v' p' u' r' h']]. cbn. by intros (-> & time & [= -> -> -> -> -> ->]).
Qed.

Lemma processRequestLine_untimed line c c' :
  untimed c = untimed c' →
  match processRequestLine line c, processRequestLine line c' with
  | Done (ok, d), Done (ok', d') => ok = ok' ∧ untimed d = untimed d'
  | Fault f, Fault f' => f = f'
  | _, _ => False
  end.
Proof.
  destruct c as [s [m v p u r h]], c' as [s' [m' v' p' u' r' h']]. intros [= -> -> -> -> -> ->].
  unfold processRequestLine, HttpRequest.setMethod. cbn.
  destruct (cut x20 line) as [[method rest]|]; [|done]. destruct (bool_decide (m' = HttpRequest.kInvalid)); [|done]. cbn.
  destruct (bool_decide (HttpRequest.method_of method ≠ HttpRequest.kInvalid)); [|done].
  destruct (cut x20 rest) as [[target version]|]; [|done].
  destruct (_ && _); [|by destruct (cut x3f target) as [[? ?]|]].
  destruct (last version) as [[]|]; by destruct (cut x3f target) as [[? ?]|].
Qed.

Lemma iter_untimed time time' c c' q :
  untimed c = untimed c' →
  match iter time c q, iter time' c' q with
  | Stop ok p d, Stop ok' p' d' => ok = ok' ∧ p = p' ∧ untimed d = untimed d'
  | Go p d, Go p' d' => p = p' ∧ untimed d = untimed d'
  | Crash f, Crash f' => f = f'
  | _, _ => False
  end.
Proof.
  intros Hc. pose proof (f_equal state_ Hc) as Hs. cbn in Hs. unfold iter. rewrite Hs.
  destruct (state_ c').
  - destruct (cut_crlf q) as [[line rest]|]; [|done]. pose proof (processRequestLine_untimed line c c' Hc) as Hp.
    destruct (processRequestLine line c) as [[ok d]|], (processRequestLine line c') as [[ok' d']|]; try done.
    destruct Hp as [-> Hd]. destruct ok'; [|done]. split; [done|].
    destruct d as [? []], d' as [? []]. unfold untimed in *. cbn in *. by injection Hd as -> -> -> -> -> ->.
  - destruct (cut_crlf q) as [[line rest]|]; [|done].
    destruct c as [? []], c' as [? []]. unfold untimed in *. cbn in *. injection Hc as -> -> -> -> -> ->.
    by destruct (cut x3a line) as [[field value]|].
  - done.
  - done.
Qed.

Lemma parse_untimed time time' c c' q :
  live c = true → untimed c = untimed c' → same (parse time c q) (parse time' c' q).
Proof.
  unfold parse. generalize (S (length q)) as n. intros n. revert c c' q. induction n as [|n IH]; intros c c' q Hl Hc; [done|].
  cbn [rounds]. pose proof (iter_untimed time time' c c' q Hc) as Hi.
  destruct (iter time c q) as [ok p d|p d|f] eqn:E, (iter time' c' q) as [ok' p' d'|p' d'|f']; try done.
  destruct Hi as [-> Hd]. apply IH; [|done]. by destruct (iter_Go time c q _ _ Hl E).
Qed.

(** ** The text of a request *)

Record request := mkRequest {
  r_method : HttpRequest.Method; r_path : bytes; r_query : option bytes;
  r_version : HttpRequest.Version; r_headers : list (bytes * bytes)
}.

Definition method_text (m : HttpRequest.Method) : bytes :=
  HttpRequest.methodString (HttpRequest.mk m HttpRequest.kUnknown [] [] 0 []).
Definition version_text (v : HttpRequest.Version) : bytes :=
  match v with HttpRequest.kHttp10 => bs "HTTP/1.0" | _ => bs "HTTP/1.1" end.
Definition query_text (q : option bytes) : bytes := match q with Some q => x3f :: q | None => [] end.
Definition request_line (r : request) : bytes :=
  method_text (r_method r) ++ x20 :: r_path r ++ query_text (r_query r) ++ x20 :: version_text (r_version r).
Definition header_line (h : bytes * bytes) : bytes := h.1 ++ x3a :: x20 :: h.2.
Definition header_text (h : bytes * bytes) : bytes := header_line h ++ Buffer.kCRLF.
Definition request_text (r : request) : bytes :=
  request_line r ++ Buffer.kCRLF ++ (r_headers r ≫= header_text) ++ Buffer.kCRLF.

(** No spaces at either end. *)
Definition trimmed (v : bytes) : Prop :=
  (∀ c l, v = c :: l → isspace c = false) ∧ (∀ c l, v = l ++ [c] → isspace c = false).
Definition header_ok (h : bytes * bytes) : Prop := x3a ∉ h.1 ∧ x0d ∉ h.1 ∧ x0d ∉ h.2 ∧ trimmed h.2.
Record request_ok (r : request) : Prop := mkRequestOk {
  ok_method : r_method r ≠ HttpRequest.kInvalid;
  ok_path : x20 ∉ r_path r ∧ x3f ∉ r_path r ∧ x0d ∉ r_path r;
  ok_query : ∀ q, r_query r = Some q → x20 ∉ q ∧ x0d ∉ q;
  ok_version : r_version r ≠ HttpRequest.kUnknown;
  ok_headers : Forall header_ok (r_headers r)
}.

(** What the parser makes of it; later headers replace earlier ones. *)
Definition parsed (r : request) : HttpRequest.t :=
  HttpRequest.mk (r_method r) (r_version r) (r_path r) (query_text (r_query r)) 0
    (foldl (λ m h, StdMap.assign h.1 h.2 m) [] (r_headers r)).

Lemma cut_Some c a b : c ∉ a → cut c (a ++ c :: b) = Some (a, b).
Proof.
  induction a as [|d a IH]; intros Hn; cbn; [by rewrite decide_True|].
  apply not_elem_of_cons in Hn as [Hd Hn]. by rewrite decide_False, IH.
Qed.
Lemma cut_None c l : c ∉ l → cut c l = None.
Proof.
  induction l as [|d l IH]; intros Hn; cbn; [done|]. apply not_elem_of_cons in Hn as [Hd Hn].
  by rewrite decide_False, IH.
Qed.

Lemma drop_spaces_trim v : (∀ c l, v = c :: l → isspace c = false) → drop_spaces v = v.
Proof. destruct v as [|c v]; [done|]. intros H. cbn. by rewrite (H c v). Qed.

Lemma trim_value v : trimmed v → reverse (drop_spaces (reverse (drop_spaces v))) = v.
Proof.
  intros [Hh Ht]. rewrite (drop_spaces_trim v Hh).
  rewrite drop_spaces_trim; [apply reverse_involutive|]. intros c l E. apply (Ht c (reverse l)).
  rewrite <-(reverse_involutive v), E. by rewrite reverse_cons.
Qed.

Lemma addHeader_ok f v r :
  trimmed v →
  HttpRequest.addHeader f (x20 :: v) r =
    HttpRequest.mk (HttpRequest.method_ r) (HttpRequest.version_ r) (HttpRequest.path_ r) (HttpRequest.query_ r)
      (HttpRequest.receiveTime_ r) (StdMap.assign f v (HttpRequest.headers_ r)).
Proof.
  intros Hv. unfold HttpRequest.addHeader. change (drop_spaces (x20 :: v)) with (drop_spaces v). by rewrite trim_value.
Qed.

Lemma method_text_spec m :
  x20 ∉ method_text m ∧ x0d ∉ method_text m ∧ (m ≠ HttpRequest.kInvalid → HttpRequest.method_of (method_text m) = m).
Proof. destruct m; (split; [|split]); try done; by apply (bool_decide_unpack _); vm_compute. Qed.

Lemma version_text_spec v :
  x0d ∉ version_text v ∧ length (version_text v) = 8%nat ∧ take 7 (version_text v) = bs "HTTP/1.".
Proof. destruct v; (split; [by apply (bool_decide_unpack _); vm_compute|done]). Qed.

Lemma request_line_ok r :
  request_ok r →
  x0d ∉ request_line r ∧
  processRequestLine (request_line r) make =
    Done (true, mk kExpectRequestLine
      (HttpRequest.mk (r_method r) (r_version r) (r_path r) (query_text (r_query r)) 0 [])).
Proof.
  intros [Hm (Hp1 & Hp2 & Hp3) Hq Hv _]. destruct (method_text_spec (r_method r)) as (Hm1 & Hm2 & Hm3).
  destruct (version_text_spec (r_version r)) as (Hv1 & Hv2 & Hv3).
  assert (Hqt : x20 ∉ query_text (r_query r) ∧ x0d ∉ query_text (r_query r)).
  { destruct (r_query r) as [q|]; cbn; [|set_solver]. destruct (Hq q eq_refl). set_solver. }
  destruct Hqt as [Hq1 Hq2]. split; [unfold request_line; set_solver|].
  unfold processRequestLine, request_line. rewrite cut_Some by done. unfold HttpRequest.setMethod. cbn.
  rewrite Hm3 by done. rewrite bool_decide_eq_true_2 by done.
  rewrite app_assoc, cut_Some by set_solver. rewrite Hv2, Hv3. cbn.
  destruct (r_query r) as [q|]; cbn [query_text];
    [rewrite cut_Some by done|rewrite app_nil_r, cut_None by done]; by destruct (r_version r).
Qed.

Lemma headers_ok time hs req :
  Forall header_ok hs →
  parse time (mk kExpectHeaders req) ((hs ≫= header_text) ++ Buffer.kCRLF) =
    Done (true, [], mk kGotAll (HttpRequest.mk (HttpRequest.method_ req) (HttpRequest.version_ req) (HttpRequest.path_ req)
      (HttpRequest.query_ req) (HttpRequest.receiveTime_ req)
      (foldl (λ m h, StdMap.assign h.1 h.2 m) (HttpRequest.headers_ req) hs))).
Proof.
  intros Hhs. revert req. induction Hhs as [|[f v] hs (Hf1 & Hf2 & Hv1 & Hv2) _ IH]; intros req.
  - rewrite parse_step by done. by destruct req.
  - cbn in Hf1, Hf2, Hv1, Hv2. rewrite parse_step by done. cbn [mbind list_bind].
    unfold iter. cbn [state_]. unfold header_text at 1. rewrite <-!app_assoc.
    change (list_bind _ _ header_text hs) with (hs ≫= header_text).
    rewrite cut_crlf_line by (unfold header_line; cbn; set_solver).
    unfold header_line. cbn [fst snd]. rewrite cut_Some by done. cbn [request_].
    by rewrite addHeader_ok, IH.
Qed.

(** The whole text, at once. *)
Lemma request_text_parsed time r :
  request_ok r →
  parse time make (request_text r) = Done (true, [], mk kGotAll (HttpRequest.setReceiveTime time (parsed r))).
Proof.
  intros Hr. destruct (request_line_ok r Hr) as [Hl Hp]. rewrite parse_step by done.
  unfold iter. cbn [state_ make]. unfold request_text. rewrite cut_crlf_line by done. rewrite Hp. cbn [request_].
  by rewrite headers_ok by apply Hr.
Qed.

(** ** Responses *)

Definition header_bytes (h : bytes * bytes) : bytes := h.1 ++ bs ": " ++ h.2 ++ HttpResponse.crlf.
Definition response_bytes (r : HttpResponse.t) : bytes :=
  HttpResponse.snprintf32 (bs "HTTP/1.1 " ++ decimal (HttpResponse.statusCode_ r) ++ bs " ") ++
  HttpResponse.statusMessage_ r ++ HttpResponse.crlf ++
  (if HttpResponse.closeConnection_ r then bs "Connection: close" ++ HttpResponse.crlf
   else HttpResponse.snprintf32 (bs "Content-Length: " ++ decimal (szof (HttpResponse.body_ r)) ++ HttpResponse.crlf) ++
        bs "Connection: Keep-Alive" ++ HttpResponse.crlf) ++
  (HttpResponse.headers_ r ≫= header_bytes) ++ HttpResponse.crlf ++ HttpResponse.body_ r.

(** An operation that appends [data], as long as the result is short enough for
    [int]. *)
Definition appends (m : Buffer.t → outcome Buffer.t) (data : bytes) : Prop :=
  ∀ b, Buffer.wf b → szof (Buffer.contents b ++ data) ≤ INT_MAX →
    ∃ b', m b = Done b' ∧ Buffer.wf b' ∧ Buffer.contents b' = Buffer.contents b ++ data.

Lemma arrival_appends data b :
  Buffer.wf b → szof (Buffer.contents b ++ data) < 2 ^ 50 →
  ∃ b', Buffer.append data b = Done b' ∧ Buffer.wf b' ∧ Buffer.contents b' = Buffer.contents b ++ data.
Proof. intros Hb Hl. rewrite length_app in Hl. apply append_spec; [done|]. unfold Buffer.fits. lia. Qed.

Lemma appends_append str : appends (Buffer.appendString str) str.
Proof.
  intros b Hb Hl. unfold INT_MAX in Hl. rewrite length_app in Hl.
  rewrite appendString_spec by (unfold INT_MAX; lia). apply append_spec; [done|]. unfold Buffer.fits. lia.
Qed.

Lemma appends_bind m k data data' :
  appends m data → appends k data' → appends (λ b, b ← m b; k b) (data ++ data').
Proof.
  intros Hm Hk b Hb Hl. destruct (Hm b Hb) as (b1 & -> & Hb1 & Hc1).
  { rewrite !length_app in *. lia. }
  rewrite bind_ret_l. destruct (Hk b1 Hb1) as (b2 & -> & Hb2 & Hc2); [by rewrite Hc1, <-app_assoc|].
  exists b2. by rewrite Hc2, Hc1, <-app_assoc.
Qed.

Lemma appends_ext m m' data : (∀ b, m b = m' b) → appends m data → appends m' data.
Proof. intros H Hm b Hb Hl. destruct (Hm b Hb Hl) as (b' & Hd & Hr). exists b'. by rewrite <-H. Qed.

Lemma append_headers_ok headers : appends (HttpResponse.append_headers headers) (headers ≫= header_bytes).
Proof.
  induction headers as [|[key value] headers IH].
  - intros b Hb _. exists b. by rewrite app_nil_r.
  - cbn [mbind list_bind]. change (list_bind _ _ header_bytes headers) with (headers ≫= header_bytes).
    unfold header_bytes at 1. rewrite <-!app_assoc. repeat (apply appends_bind; [apply appends_append|]). exact IH.
Qed.

Lemma appends_connection (close : bool) data1 data2 data3 :
  appends (λ output, if close then Buffer.appendString data1 output
                     else output ← Buffer.appendString data2 output; Buffer.appendString data3 output)
    (if close then data1 else data2 ++ data3).
Proof. destruct close; [|apply appends_bind]; apply appends_append. Qed.

Lemma appendToBuffer_ok r : appends (HttpResponse.appendToBuffer r) (response_bytes r).
Proof.
  unfold HttpResponse.appendToBuffer, response_bytes.
  repeat (apply appends_bind; [apply appends_append|]). apply appends_bind; [apply appends_connection|].
  apply appends_bind; [apply append_headers_ok|]. apply appends_bind; apply appends_append.
Qed.

(** ** Messages *)

Import HttpServer.

Section serve.
Context (httpCallback : HttpRequest.t → HttpResponse.t → HttpResponse.t).

(** What the application makes of a request, and how it is answered. *)
Definition response_to (req : HttpRequest.t) : HttpResponse.t := httpCallback req (HttpResponse.make (wants_close req)).
Definition answer (req : HttpRequest.t) : list call :=
  Send (response_bytes (response_to req)) ::
  (if HttpResponse.closeConnection_ (response_to req) then [Shutdown] else []).

Lemma onRequest_ok req :
  szof (response_bytes (response_to req)) ≤ INT_MAX → onRequest httpCallback req = Done (answer req).
Proof.
  intros Hl. unfold onRequest. destruct (make_spec Buffer.kInitialSize) as (b & -> & Hb & Hc & _); [unfold Buffer.kInitialSize; lia|].
  rewrite bind_ret_l. destruct (appendToBuffer_ok (response_to req) b Hb) as (b' & Hd & Hb' & Hc'); [by rewrite Hc|].
  unfold response_to in *. rewrite Hd, bind_ret_l, Hc', Hc. done.
Qed.

Lemma parseRequest_ok time buf c :
  Buffer.wf buf →
  match parse time c (Buffer.contents buf) with
  | Done (ok, q, c') => ∃ buf', parseRequest buf time c = Done (ok, buf', c') ∧ Buffer.wf buf' ∧ Buffer.contents buf' = q
  | Fault f => parseRequest buf time c = Fault f
  end.
Proof.
  intros Hb. unfold parse, parseRequest. rewrite <-length_contents, Nat2Z.id by done. by apply parse_rounds.
Qed.

(** A message whose parse neither fails nor completes a request. *)
Lemma onMessage_more time buf c q c' :
  Buffer.wf buf → parse time c (Buffer.contents buf) = Done (true, q, c') → gotAll c' = false →
  ∃ buf', onMessage httpCallback buf time c = Done ([], buf', c') ∧ Buffer.wf buf' ∧ Buffer.contents buf' = q.
Proof.
  intros Hb Hp Hg. pose proof (parseRequest_ok time buf c Hb) as Hr. rewrite Hp in Hr.
  destruct Hr as (buf' & Hd & Hb' & Hc). exists buf'. unfold onMessage. by rewrite Hd, bind_ret_l, Hg.
Qed.

Lemma onMessage_all time buf c q c' :
  Buffer.wf buf → parse time c (Buffer.contents buf) = Done (true, q, c') → gotAll c' = true →
  szof (response_bytes (response_to (request_ c'))) ≤ INT_MAX →
  ∃ buf', onMessage httpCallback buf time c = Done (answer (request_ c'), buf', make) ∧ Buffer.wf buf' ∧ Buffer.contents buf' = q.
Proof.
  intros Hb Hp Hg Hl. pose proof (parseRequest_ok time buf c Hb) as Hr. rewrite Hp in Hr.
  destruct Hr as (buf' & Hd & Hb' & Hc). exists buf'. unfold onMessage.
  by rewrite Hd, bind_ret_l, Hg, onRequest_ok, bind_ret_l.
Qed.

Lemma same_done a ok q d : same a (Done (ok, q, d)) → ∃ c, a = Done (ok, q, c) ∧ untimed c = untimed d.
Proof. destruct a as [[[ok' q'] c]|]; [|done]. intros (-> & -> & H). by exists c. Qed.

Lemma gotAll_untimed c d : untimed c = untimed d → gotAll c = gotAll d.
Proof. intros H. unfold gotAll. apply (f_equal state_) in H. cbn in H. by rewrite H. Qed.

Lemma live_untimed c d : untimed c = untimed d → live c = live d.
Proof. intros H. unfold live. apply (f_equal state_) in H. cbn in H. by rewrite H. Qed.

(** After a part [p] of the text: the parser has done what it does with [p]. *)
Definition received (p : bytes) (buf : Buffer.t) (c : t) : Prop :=
  Buffer.wf buf ∧ ∃ d, parse 0 make p = Done (true, Buffer.contents buf, d) ∧ gotAll d = false ∧ live d = true ∧ untimed c = untimed d.

Lemma received_more p buf c data time :
  received p buf c → szof (Buffer.contents buf ++ data) < 2 ^ 50 →
  ∃ buf', Buffer.append data buf = Done buf' ∧ Buffer.wf buf' ∧
    same (parse time c (Buffer.contents buf')) (parse 0 make (p ++ data)).
Proof.
  intros (Hb & d & Hp & Hg & Hl & Hu) Hlen.
  destruct (arrival_appends data buf Hb Hlen) as (buf' & Hd & Hb' & Hc). exists buf'. split; [done|]. split; [done|].
  pose proof (parse_app 0 make p data eq_refl) as Ha. rewrite Hp, Hg in Ha. cbn [negb orb] in Ha. destruct Ha as [_ ->].
  rewrite Hc. apply parse_untimed; [|done]. by rewrite (live_untimed _ _ Hu).
Qed.

Lemma deliver_ok r segments p buf c :
  request_ok r → szof (request_text r) < 2 ^ 50 → (∀ req, szof (response_bytes (response_to req)) ≤ INT_MAX) →
  received p buf c → p ++ concat segments.*1 = request_text r → segments ≠ [] → Forall (λ s, s.1 ≠ []) segments →
  ∃ req buf', HttpRequest.setReceiveTime 0 req = parsed r ∧ Buffer.wf buf' ∧ Buffer.contents buf' = [] ∧
    deliver httpCallback segments buf c = Done (answer req, buf', make).
Proof.
  intros Hr Hlen Hresp. revert p buf c. induction segments as [|[data time] segments IH]; intros p buf c Hrec Ht Hne Hall; [done|].
  apply Forall_cons in Hall as [Hdata Hall]. cbn in Ht, Hdata.
  pose proof Hrec as (Hb & d & Hp & _). cbn [deliver].
  assert (Hshort : szof (Buffer.contents buf ++ data) < 2 ^ 50).
  { apply rounds_length in Hp. rewrite <-Ht in Hlen. rewrite !length_app in *. lia. }
  destruct (received_more p buf c data time Hrec Hshort) as (buf1 & -> & Hb1 & Hsame). rewrite bind_ret_l.
  pose proof (request_text_parsed 0 r Hr) as Hfull.
  destruct segments as [|s segments].
  - cbn in Ht. rewrite app_nil_r in Ht. rewrite Ht, Hfull in Hsame. apply same_done in Hsame as (c1 & Hp1 & Hu1).
    assert (Hg : gotAll c1 = true) by by rewrite (gotAll_untimed _ _ Hu1).
    destruct (onMessage_all time buf1 c [] c1 Hb1 Hp1 Hg (Hresp _)) as (buf2 & Hd & Hb2 & Hc2).
    exists (request_ c1), buf2. rewrite Hd, bind_ret_l. cbn. rewrite app_nil_r. split_and!; [|done..].
    apply (f_equal request_) in Hu1. cbn in Hu1. rewrite Hu1. by destruct r.
  - rewrite app_assoc in Ht. set (rest := concat (s :: segments).*1) in *.
    assert (Hrest : rest ≠ []).
    { apply Forall_cons in Hall as [Hs _]. unfold rest. cbn. destruct s.1; done. }
    pose proof (parse_app 0 make (p ++ data) rest eq_refl) as Happ. rewrite Ht, Hfull in Happ.
    destruct (parse 0 make (p ++ data)) as [[[ok q'] d']|f] eqn:Ed; [|done].
    destruct (negb ok || gotAll d') eqn:Estop.
    { injection Happ as _ Hq _. symmetry in Hq. by apply app_eq_nil in Hq as [_ ?]. }
    apply orb_false_iff in Estop as [Hok Hg']. destruct ok; [|done]. destruct Happ as [Hl' _].
    apply same_done in Hsame as (c1 & Hp1 & Hu1).
    destruct (onMessage_more time buf1 c q' c1 Hb1 Hp1) as (buf2 & Hd & Hb2 & Hc2); [by rewrite (gotAll_untimed _ _ Hu1)|].
    destruct (IH (p ++ data) buf2 c1) as (req & buf' & Hreq & Hb' & Hc' & Hd'); [|done|done|done|].
    { split; [done|]. exists d'. by rewrite Hc2. }
    exists req, buf'. rewrite Hd, bind_ret_l, Hd', bind_ret_l. done.
Qed.
Lemma received_nothing buf : Buffer.wf buf → Buffer.contents buf = [] → received [] buf make.
Proof. intros Hb Hc. split; [done|]. exists make. by rewrite Hc. Qed.

(** A request line whose method is known but that is refused leaves the method
    behind. *)
Lemma refused_line line c1 :
  processRequestLine line make = Done (false, c1) → HttpRequest.method_ (request_ c1) ≠ HttpRequest.kInvalid →
  state_ c1 = kExpectRequestLine ∧ processRequestLine line c1 = Fault (AssertFailed "method_ == kInvalid").
Proof.
  unfold processRequestLine. destruct (cut x20 line) as [[method rest]|]; [|by intros [= <-]].
  cbn [HttpRequest.setMethod]. intros Hp Hm. split.
  - unfold HttpRequest.setMethod in Hp. cbn [make request_ HttpRequest.make HttpRequest.method_] in Hp.
    rewrite (bool_decide_eq_true_2 (HttpRequest.kInvalid = HttpRequest.kInvalid)) in Hp by done. unfold cassert in Hp. rewrite !bind_ret_l in Hp.
    destruct (bool_decide _); [|by injection Hp as <-].
    destruct (cut x20 rest) as [[target version]|]; [|by injection Hp as <-].
    destruct (_ && _); [|by injection Hp as <-].
    destruct (last version) as [[]|]; first [discriminate Hp|by injection Hp as <-].
  - unfold HttpRequest.setMethod. rewrite (bool_decide_eq_false_2 (HttpRequest.method_ (request_ c1) = HttpRequest.kInvalid)) by done. done.
Qed.
End serve.

(** C30. A request in any segmentation of its bytes is parsed exactly once and
    answered with what the application makes of it: for every request of the
    grammar and every way its text arrives in non-empty segments (with any
    receive times), nothing is sent before the last byte, then the exact bytes
    of the response, the connection is shut down if the response says so, and
    the parser is ready for the next request with nothing left over.  The
    responses are taken to have at most [INT_MAX] bytes: [append] of a string
    converts its length to [int] (see [long_body_fails]). *)
Theorem http_request_answered httpCallback r segments buf :
  request_ok r → szof (request_text r) < 2 ^ 50 →
  (∀ req, szof (response_bytes (response_to httpCallback req)) ≤ INT_MAX) →
  Buffer.wf buf → Buffer.contents buf = [] →
  concat segments.*1 = request_text r → Forall (λ s, s.1 ≠ []) segments →
  ∃ req buf', HttpRequest.setReceiveTime 0 req = parsed r ∧ Buffer.wf buf' ∧ Buffer.contents buf' = [] ∧
    deliver httpCallback segments buf make = Done (answer httpCallback req, buf', make).
Proof.
  intros Hr Hlen Hresp Hb Hc Ht Hall. apply (deliver_ok httpCallback r segments [] buf make); try done.
  - by apply received_nothing.
  - intros ->. unfold request_text in Ht. cbn in Ht. symmetry in Ht. apply app_eq_nil in Ht as [_ Ht]. done.
Qed.

(** A response with a body of 2^31 bytes or more is never sent: the length of
    the body as a [StringPiece] is negative. *)
Definition stops (k : Buffer.t → outcome Buffer.t) (data : bytes) (f : fault) : Prop :=
  ∀ b, Buffer.wf b → szof (Buffer.contents b ++ data) ≤ INT_MAX → k b = Fault f.

Lemma stops_bind m k data data' f : appends m data → stops k data' f → stops (λ b, b ← m b; k b) (data ++ data') f.
Proof.
  intros Hm Hk b Hb Hl. destruct (Hm b Hb) as (b1 & -> & Hb1 & Hc1); [rewrite !length_app in *; lia|].
  rewrite bind_ret_l. apply Hk; [done|]. by rewrite Hc1, <-app_assoc.
Qed.

Lemma long_body_fails r b :
  2 ^ 31 ≤ szof (HttpResponse.body_ r) < 2 ^ 32 → Buffer.wf b → Buffer.contents b = [] →
  szof (HttpResponse.headers_ r ≫= header_bytes) + szof (HttpResponse.statusMessage_ r) ≤ 2 ^ 30 →
  HttpResponse.appendToBuffer r b = Fault (Undefined "append: negative StringPiece length").
Proof.
  intros Hl Hb Hc Hs.
  assert (Hbody : stops (Buffer.appendString (HttpResponse.body_ r)) [] (Undefined "append: negative StringPiece length"))
    by (intros ? _ _; by apply appendString_too_long).
  unfold HttpResponse.appendToBuffer.
  eapply (stops_bind _ _ _ _ _ (appends_append _)); [|exact Hb|].
  - do 2 (apply stops_bind; [apply appends_append|]). apply stops_bind; [apply appends_connection|].
    apply stops_bind; [apply append_headers_ok|]. apply stops_bind; [apply appends_append|exact Hbody].
  - rewrite Hc. unfold HttpResponse.snprintf32, INT_MAX. rewrite !length_app.
    assert (E : length (bs "Connection: close") = 17%nat ∧ length (bs "Connection: Keep-Alive") = 22%nat ∧
      length HttpResponse.crlf = 2%nat) by done. destruct E as (E1 & E2 & E3).
    destruct (HttpResponse.closeConnection_ r); rewrite ?length_app, ?length_take; cbn [length]; lia.
Qed.

(** C31. A refused request line crashes the server on the next message: a line
    whose method is known but whose rest is not (a missing target, another
    version) is answered with 400 and the connection is shut down for writing,
    but the line stays in the buffer and the method in the request, so that
    anything else the client sends fails the assertion of [setMethod]. *)
Theorem http_bad_request_aborts httpCallback line rest buf time c1 :
  Buffer.wf buf → x0d ∉ line → Buffer.contents buf = line ++ Buffer.kCRLF ++ rest →
  processRequestLine line make = Done (false, c1) → HttpRequest.method_ (request_ c1) ≠ HttpRequest.kInvalid →
  onMessage httpCallback buf time make = Done ([Send bad_request; Shutdown], buf, c1) ∧
  ∀ data time', szof (Buffer.contents buf ++ data) < 2 ^ 50 →
    ∃ buf', Buffer.append data buf = Done buf' ∧
      onMessage httpCallback buf' time' c1 = Fault (AssertFailed "method_ == kInvalid").
Proof.
  intros Hb Hl Hc Hp Hm. destruct (refused_line line c1 Hp Hm) as [Hs Hf]. split.
  - pose proof (crlf_step buf Hb) as Hcr. rewrite Hc, cut_crlf_line in Hcr by done.
    destruct Hcr as (p & buf' & Hfind & Hrange & _).
    unfold onMessage, parseRequest. cbn [parse_loop make state_]. rewrite Hfind, Hrange, Hp, !bind_ret_l.
    unfold gotAll. by rewrite Hs.
  - intros data time' Hlen. destruct (arrival_appends data buf Hb Hlen) as (buf' & Hd & Hb' & Hc').
    exists buf'. split; [done|]. pose proof (crlf_step buf' Hb') as Hcr.
    rewrite Hc', Hc, <-!app_assoc, cut_crlf_line in Hcr by done.
    destruct Hcr as (p & buf2 & Hfind & Hrange & _).
    unfold onMessage, parseRequest. cbn [parse_loop]. by rewrite Hs, Hfind, Hrange, Hf.
Qed.

(** ** Examples *)

Definition sample_request : request :=
  mkRequest HttpRequest.kGet (bs "/hello") (Some (bs "x=1")) HttpRequest.kHttp11 [(bs "Host", bs "a.b"); (bs "Connection", bs "close")].
Definition not_found (req : HttpRequest.t) (resp : HttpResponse.t) : HttpResponse.t := defaultHttpCallback resp.
Definition empty_buffer : Buffer.t := Buffer.mk (replicate 1032 x00) 8 8.

Lemma empty_buffer_wf : Buffer.wf empty_buffer.
Proof. repeat split; vm_compute; congruence. Qed.

Lemma sample_request_ok : request_ok sample_request.
Proof.
  split; [done|split_and!; by apply (bool_decide_unpack _); vm_compute| |done|].
  - intros q [= <-]. split; by apply (bool_decide_unpack _); vm_compute.
  - repeat (apply Forall_cons; split); [| |by apply Forall_nil];
      (split_and!; [by apply (bool_decide_unpack _); vm_compute..|]; split;
        [by intros c l [= <- <-]|]; intros c l E;
        apply (f_equal last) in E; rewrite last_snoc in E; by injection E as <-).
Qed.

Theorem http_request_answered_witness :
  request_text sample_request = bs "GET /hello?x=1 HTTP/1.1" ++ Buffer.kCRLF ++ bs "Host: a.b" ++ Buffer.kCRLF ++
    bs "Connection: close" ++ Buffer.kCRLF ++ Buffer.kCRLF ∧
  ∃ req buf', HttpRequest.setReceiveTime 0 req = parsed sample_request ∧ Buffer.wf buf' ∧ Buffer.contents buf' = [] ∧
    deliver not_found [(take 30 (request_text sample_request), 5); (drop 30 (request_text sample_request), 6)] empty_buffer make
      = Done (answer not_found req, buf', make).
Proof.
  split; [vm_compute; reflexivity|]. apply http_request_answered.
  - exact sample_request_ok.
  - vm_compute. reflexivity.
  - intros req. unfold response_to, not_found, INT_MAX. cbn. by destruct (wants_close req).
  - exact empty_buffer_wf.
  - reflexivity.
  - vm_compute. reflexivity.
  - repeat constructor; done.
Defined.

Theorem http_bad_request_aborts_witness :
  ∃ buf c1, onMessage not_found buf 0 make = Done ([Send bad_request; Shutdown], buf, c1) ∧
    ∃ buf', Buffer.append (bs "x") buf = Done buf' ∧
      onMessage not_found buf' 0 c1 = Fault (AssertFailed "method_ == kInvalid").
Proof.
  exists (Buffer.mk (replicate 8 x00 ++ bs "GET / HTTP/2.0" ++ Buffer.kCRLF) 8 24).
  destruct (processRequestLine (bs "GET / HTTP/2.0") make) as [[ok c1]|] eqn:E; [|by vm_compute in E].
  exists c1.
  destruct (http_bad_request_aborts not_found (bs "GET / HTTP/2.0") []
    (Buffer.mk (replicate 8 x00 ++ bs "GET / HTTP/2.0" ++ Buffer.kCRLF) 8 24) 0 c1) as [H1 H2].
  - repeat split; vm_compute; congruence.
  - by apply (bool_decide_unpack _); vm_compute.
  - reflexivity.
  - rewrite E. vm_compute in E. by injection E as <- <-.
  - vm_compute in E. injection E as <- <-. done.
  - split; [exact H1|]. apply H2. vm_compute. reflexivity.
Defined.
