(* ===== verification/Monitor.v ===== *)
(** Mutexes and condition variables (src/IMServer/src/muduo/base: Mutex.h,
    Condition.h), and objects whose members run under them.  The members of a
    monitor are known by labels; [section] is what a member does from the point
    where it holds the mutex to the point where it gives it up, by waiting or by
    returning.  The steps of the threads interleave freely; a notification wakes
    any one of the threads that wait, and waking up for no reason is a step of
    its own.  A monitor whose members are [Balanced] never loses a wake-up. *)

From S2P Require Import Prelude.
Local Open Scope Z_scope.

(** * [muduo::MutexLock] *)
Module MutexLock.

(** The thread that holds the pthread mutex, and [holder_] (0 for none). *)
Record t := mk { owner : option Z; holder_ : Z }.

Definition make : t := mk None 0.
Definition unassignHolder (x : t) : t := mk (owner x) 0.
Definition assignHolder (tid : Z) (x : t) : t := mk (owner x) tid.

Definition isLockedByThisThread (tid : Z) (x : t) : bool := bool_decide (holder_ x = tid).
Definition assertLocked (tid : Z) (x : t) : outcome unit := cassert (isLockedByThisThread tid x) "isLockedByThisThread()".

(** [lock()]: blocks while another thread holds the mutex. *)
Definition lock (tid : Z) (x : t) : option t :=
  match owner x with
  | Some _ => None
  | None => Some (assignHolder tid (mk (Some tid) (holder_ x)))
  end.

(** [pthread_mutex_unlock] by a thread that does not hold the mutex is
    undefined. *)
Definition release (tid : Z) (x : t) : outcome t :=
  _ ← defined_if (bool_decide (owner x = Some tid)) "unlocking a mutex that another thread holds";
  Done (mk None (holder_ x)).
Definition unlock (tid : Z) (x : t) : outcome t := release tid (unassignHolder x).

(** [~MutexLock()] *)
Definition dtor (x : t) : outcome unit :=
  _ ← cassert (bool_decide (holder_ x = 0)) "holder_ == 0";
  cassert (bool_decide (owner x = None)) "errnum == 0".

End MutexLock.

(** * Monitors *)
Module Monitor.

(** [notify()] and [notifyAll()] *)
Inductive signal (C : Type) := Notify (c : C) | NotifyAll (c : C).
Arguments Notify {C} c. Arguments NotifyAll {C} c.

(** How a section ends: the thread waits on a condition, to continue as the
    given member once it holds the mutex again, or the member returns. *)
Inductive action (S C M R : Type) := Block (c : C) (m : M) | Finish (r : R) (s : S) (signals : list (signal C)).
Arguments Block {S C M R} c m. Arguments Finish {S C M R} r s signals.

(** [section locked m s]: [locked] is [isLockedByThisThread()].  An [entry] is a
    member that may be called, the others are where a wait continues. *)
Class Guarded (S C M R : Type) := {
  section : bool → M → S → outcome (action S C M R);
  entry : M → bool
}.

(** Where a call is. *)
Inductive thread (C M : Type) :=
  | Locking (m : M)              (* in [mutex_.lock()], at first or after a wait *)
  | Inside (m : M)               (* holds the mutex *)
  | Waiting (c : C) (m : M).     (* in [pthread_cond_wait] *)
Arguments Locking {C M} m. Arguments Inside {C M} m. Arguments Waiting {C M} c m.

Section monitor.
Context {S C M R : Type} `{!EqDecision C} `{!Guarded S C M R}.

Record t := mk { data : S; mutex_ : MutexLock.t; threads : gmap Z (thread C M) }.

Definition make (s : S) : t := mk s MutexLock.make ∅.
Definition set_thread (tid : Z) (x : thread C M) (s : t) : t := mk (data s) (mutex_ s) (<[tid := x]> (threads s)).

(** [notify()] wakes the next of the given threads, which has to be one that
    waits, if there is any; [notifyAll()] wakes all of them. *)
Definition waits_on (c : C) (x : thread C M) : bool :=
  match x with Waiting c' _ => bool_decide (c' = c) | _ => false end.
Definition woken (x : thread C M) : thread C M :=
  match x with Waiting _ m => Locking m | _ => x end.
Definition someone_waits (c : C) (ths : gmap Z (thread C M)) : bool :=
  existsb (λ p, waits_on c p.2) (map_to_list ths).

Fixpoint wake_up (signals : list (signal C)) (wakes : list Z) (ths : gmap Z (thread C M)) : option (gmap Z (thread C M)) :=
  match signals with
  | [] => Some ths
  | NotifyAll c :: signals => wake_up signals wakes ((λ x, if waits_on c x then woken x else x) <$> ths)
  | Notify c :: signals =>
      if someone_waits c ths then
        match wakes with
        | tid :: wakes =>
            match ths !! tid with
            | Some x => if waits_on c x then wake_up signals wakes (<[tid := woken x]> ths) else None
            | None => None
            end
        | [] => None
        end
      else wake_up signals wakes ths
  end.

Inductive event :=
  | Call (tid : Z) (m : M)               (* a member is called *)
  | Lock (tid : Z)                       (* [mutex_.lock()] returns *)
  | Run (tid : Z) (wakes : list Z)       (* a section runs; its notifications wake these threads *)
  | Wake (tid : Z).                      (* [pthread_cond_wait] returns for no reason *)

(** A call that has returned: the thread, the member and its result, in the
    order of the last sections. *)
Notation returned := (Z * M * R)%type.

(** [None]: the event cannot happen now. *)
Definition step (e : event) (s : t) : option (outcome (t * list returned)) :=
  match e with
  | Call tid m =>
      match threads s !! tid with
      | None => if entry m then Some (Done (set_thread tid (Locking m) s, [])) else None
      | Some _ => None
      end
  | Lock tid =>
      match threads s !! tid, MutexLock.lock tid (mutex_ s) with
      | Some (Locking m), Some x => Some (Done (mk (data s) x (<[tid := Inside m]> (threads s)), []))
      | _, _ => None
      end
  | Wake tid =>
      match threads s !! tid with
      | Some (Waiting c m) => Some (Done (set_thread tid (Locking m) s, []))
      | _ => None
      end
  | Run tid wakes =>
      match threads s !! tid with
      | Some (Inside m) =>
          match section (MutexLock.isLockedByThisThread tid (mutex_ s)) m (data s) with
          | Fault f => Some (Fault f)
          | Done (Block c m') =>
              Some (x ← MutexLock.unlock tid (mutex_ s);
                    Done (mk (data s) x (<[tid := Waiting c m']> (threads s)), []))
          | Done (Finish r d signals) =>
              match wake_up signals wakes (delete tid (threads s)) with
              | Some ths => Some (x ← MutexLock.unlock tid (mutex_ s); Done (mk d x ths, [(tid, m, r)]))
              | None => None
              end
          end
      | _ => None
      end
  end.

(** Histories: the calls that have returned, in order. *)
Inductive reaches (s0 : t) : list event → t → list returned → Prop :=
  | reaches_nil : reaches s0 [] s0 []
  | reaches_snoc es s h e s' h' :
      reaches s0 es s h → step e s = Some (Done (s', h')) → reaches s0 (es ++ [e]) s' (h ++ h').

Lemma reaches_trans s0 es s h es' s' h' :
  reaches s0 es s h → reaches s es' s' h' → reaches s0 (es ++ es') s' (h ++ h').
Proof.
  intros H. induction 1 as [|es' s' h' e s'' h'' _ IH Hs]; [by rewrite !app_nil_r|].
  rewrite !app_assoc. by econstructor.
Qed.

(** A history, executed. *)
Fixpoint perform (es : list event) (s : t) : option (t * list returned) :=
  match es with
  | [] => Some (s, [])
  | e :: es =>
      match step e s with
      | Some (Done (s, h)) => match perform es s with Some (s, h') => Some (s, h ++ h') | None => None end
      | _ => None
      end
  end.
Lemma perform_reaches es s s' h : perform es s = Some (s', h) → reaches s es s' h.
Proof.
  revert s s' h. induction es as [|e es IH]; intros s s' h; cbn; [intros [= <- <-]; constructor|].
  destruct (step e s) as [[[s1 h1]|]|] eqn:Hs; try done.
  destruct (perform es s1) as [[s2 h2]|] eqn:Hp; [|done]. intros [= <- <-].
  apply (reaches_trans _ [e] s1 h1); [|by apply IH].
  apply (reaches_snoc s [] s [] e s1 h1); [constructor|done].
Qed.

End monitor.
Arguments t S C M : clear implicits.
Arguments event M : clear implicits.

(** ** Balanced monitors

    [ready c s] is how many of the calls that wait on [c] could go on ([None]:
    all of them); a section that lets one more go on sends a notification. *)

Definition notifies {C} `{!EqDecision C} (c : C) (x : signal C) : bool :=
  match x with Notify c' => bool_decide (c' = c) | NotifyAll _ => false end.
Fixpoint notified {C} `{!EqDecision C} (c : C) (signals : list (signal C)) : nat :=
  match signals with [] => O | x :: signals => Nat.b2n (notifies c x) + notified c signals end.

Definition balance {C} `{!EqDecision C} (c : C) (mine : bool) (before after : option nat) (signals : list (signal C)) : Prop :=
  NotifyAll c ∈ signals ∨
  match before with
  | None => after = None
  | Some n => ∃ n', after = Some n' ∧ (n' + Nat.b2n mine ≤ n + notified c signals)%nat
  end.

(** Evaluates comparisons of constructors, then counts. *)
Ltac bools :=
  repeat match goal with
  | |- context [bool_decide ?P] =>
      first [rewrite (bool_decide_eq_true_2 P) by congruence | rewrite (bool_decide_eq_false_2 P) by congruence]
  end.
Ltac weigh := right; eexists; split; [done|]; cbn; bools; cbn; lia.

Class Balanced (S C M R : Type) `{!EqDecision C} `{!Guarded S C M R} := {
  ok : S → Prop;                  (* the invariant of the data *)
  uses : M → option C;            (* the condition a member may wait on *)
  ready : C → S → option nat;
  tolerated : fault → Prop;       (* how a section may fail all the same *)
  section_balanced m s : ok s →
    match section (R := R) true m s with
    | Done (Block c m') => uses m = Some c ∧ uses m' = Some c ∧ ready c s = Some O
    | Done (Finish r s' signals) =>
        ok s' ∧ ∀ c, balance c (bool_decide (uses m = Some c)) (ready c s) (ready c s') signals
    | Fault f => tolerated f
    end
}.

Section balanced.
Context {S C M R : Type} `{!EqDecision C} `{!Guarded S C M R} `{HB : !Balanced S C M R}.
Notation t := (t S C M).
Notation threads_t := (gmap Z (thread C M)).

Definition label (x : thread C M) : M := match x with Locking m | Inside m | Waiting _ m => m end.
(** A call that does not wait. *)
Definition awake (x : thread C M) : bool := match x with Waiting _ _ => false | _ => true end.
(** A call that may take advantage of [ready c]. *)
Definition active (c : C) (x : thread C M) : bool := awake x && bool_decide (uses (label x) = Some c).

(** How many threads satisfy [f]. *)
Definition count (f : thread C M → bool) (ths : threads_t) : nat := size (filter (λ p, f p.2 = true) ths).
Definition here (f : thread C M → bool) (x : option (thread C M)) : nat :=
  match x with Some x => Nat.b2n (f x) | None => O end.

Lemma count_delete f tid ths : (count f (delete tid ths) + here f (ths !! tid) = count f ths)%nat.
Proof.
  unfold count. destruct (ths !! tid) as [x|] eqn:E.
  - rewrite map_filter_delete. cbn [here]. destruct (f x) eqn:Ef; cbn [Nat.b2n].
    + rewrite Nat.add_1_r. set (m := filter _ ths).
      rewrite <-(map_size_insert_None tid x (delete tid m) (lookup_delete_eq m tid)).
      rewrite insert_delete_id; [done|]. by apply map_lookup_filter_Some.
    + rewrite Nat.add_0_r. rewrite delete_id; [done|]. apply map_lookup_filter_None. right.
      intros y Hy. cbn. congruence.
  - rewrite delete_id by done. cbn. lia.
Qed.
Lemma count_insert f tid x ths : (count f (<[tid := x]> ths) + here f (ths !! tid) = count f ths + Nat.b2n (f x))%nat.
Proof.
  rewrite <-insert_delete_eq. pose proof (count_delete f tid ths).
  assert (count f (<[tid := x]> (delete tid ths)) = count f (delete tid ths) + Nat.b2n (f x))%nat; [|lia].
  unfold count. destruct (f x) eqn:Ef; cbn [Nat.b2n].
  - rewrite map_filter_insert_True by done. rewrite map_size_insert_None; [lia|].
    apply map_lookup_filter_None. left. apply lookup_delete_eq.
  - rewrite map_filter_insert_False by (cbn; congruence). rewrite delete_delete_eq. lia.
Qed.

Lemma count_pos f tid x ths : ths !! tid = Some x → f x = true → (0 < count f ths)%nat.
Proof. intros Hx Hf. pose proof (count_delete f tid ths) as H. rewrite Hx in H. cbn in H. rewrite Hf in H. cbn in H. lia. Qed.
Lemma count_witness f ths : (0 < count f ths)%nat → ∃ tid x, ths !! tid = Some x ∧ f x = true.
Proof.
  unfold count. intros H. destruct (map_choose (filter (λ p, f p.2 = true) ths)) as (tid & x & Hx).
  { intros E. rewrite E, map_size_empty in H. lia. }
  apply map_lookup_filter_Some in Hx as [Hx Hf]. by exists tid, x.
Qed.
Lemma count_le f g ths : (∀ x, f x = true → g x = true) → (count f ths ≤ count g ths)%nat.
Proof.
  intros Hfg. unfold count. apply map_subseteq_size. apply map_subseteq_spec. intros tid x Hx.
  apply map_lookup_filter_Some in Hx as [Hx Hf]. apply map_lookup_filter_Some. auto.
Qed.

Lemma someone_waits_true (c : C) (ths : threads_t) : someone_waits c ths = true ↔ ∃ tid x, ths !! tid = Some x ∧ waits_on c x = true.
Proof.
  unfold someone_waits. rewrite existsb_exists. split.
  - intros ([tid x] & Hin & Hx). exists tid, x. split; [|done].
    by apply elem_of_map_to_list, list_elem_of_In.
  - intros (tid & x & Hin & Hx). exists (tid, x). split; [|done].
    by apply list_elem_of_In, elem_of_map_to_list.
Qed.

(** What notifications do to the threads: some that wait no longer do. *)
Definition rouse (ths ths' : threads_t) : Prop := ∀ tid,
  ths' !! tid = ths !! tid ∨ ∃ c m, ths !! tid = Some (Waiting c m) ∧ ths' !! tid = Some (Locking m).

Lemma rouse_refl ths : rouse ths ths.
Proof. by left. Qed.
Lemma rouse_trans ths1 ths2 ths3 : rouse ths1 ths2 → rouse ths2 ths3 → rouse ths1 ths3.
Proof.
  intros H1 H2 tid. destruct (H1 tid) as [E1|(c & m & E1 & E1')], (H2 tid) as [E2|(c' & m' & E2 & E2')].
  - left. congruence.
  - right. exists c', m'. split; congruence.
  - right. exists c, m. split; congruence.
  - congruence.
Qed.
Lemma rouse_insert ths tid c m : ths !! tid = Some (Waiting c m) → rouse ths (<[tid := Locking m]> ths).
Proof.
  intros Hx i. destruct (decide (i = tid)) as [->|Hne]; [right|left].
  - exists c, m. by rewrite lookup_insert_eq.
  - by rewrite lookup_insert_ne by done.
Qed.
Lemma rouse_all (ths : threads_t) (c : C) : rouse ths ((λ x, if waits_on c x then woken x else x) <$> ths).
Proof.
  intros i. rewrite lookup_fmap. destruct (ths !! i) as [[m|m|c' m]|]; [by left..| |by left].
  cbn. case_bool_decide; [right|left; done]. by exists c', m.
Qed.
#[local] Hint Resolve rouse_refl rouse_trans rouse_insert rouse_all : core.

Lemma rouse_dom ths ths' : rouse ths ths' → dom ths' = dom ths.
Proof.
  intros H. apply set_eq. intros i. rewrite !elem_of_dom. unfold is_Some.
  destruct (H i) as [->|(c & m & -> & ->)]; naive_solver.
Qed.
Lemma rouse_size ths ths' : rouse ths ths' → size ths' = size ths.
Proof. intros H. by rewrite <-!size_dom, (rouse_dom ths ths'). Qed.
Lemma rouse_awake ths ths' tid x : rouse ths ths' → ths !! tid = Some x → awake x = true → ths' !! tid = Some x.
Proof. intros H Hx Ha. destruct (H tid) as [->|(c & m & E & _)]; [done|]. rewrite E in Hx. by injection Hx as <-. Qed.
Lemma rouse_waiting ths ths' tid c m : rouse ths ths' → ths' !! tid = Some (Waiting c m) → ths !! tid = Some (Waiting c m).
Proof. intros H Hx. destruct (H tid) as [E|(c' & m' & _ & E)]; congruence. Qed.
Lemma rouse_active c ths ths' : rouse ths ths' → (count (active c) ths ≤ count (active c) ths')%nat.
Proof.
  intros H. unfold count. apply map_subseteq_size, map_subseteq_spec. intros tid x Hx.
  apply map_lookup_filter_Some in Hx as [Hx Hf]. cbn in Hf. apply map_lookup_filter_Some. split; [|done].
  eapply rouse_awake; [done..|]. unfold active in Hf. by apply andb_true_iff in Hf as [? _].
Qed.

(** A call that waits on [c] does so in a member that uses [c]. *)
Definition labelled (ths : threads_t) : Prop := ∀ tid c m, ths !! tid = Some (Waiting c m) → uses m = Some c.
Lemma rouse_labelled ths ths' : rouse ths ths' → labelled ths → labelled ths'.
Proof. intros H Hl tid c m Hx. eapply Hl, rouse_waiting; done. Qed.

Definition no_waiter (c : C) (ths : threads_t) : Prop := ∀ tid m, ths !! tid ≠ Some (Waiting c m).
Lemma rouse_no_waiter c ths ths' : rouse ths ths' → no_waiter c ths → no_waiter c ths'.
Proof. intros H Hn tid m Hx. eapply Hn, rouse_waiting; done. Qed.
Lemma someone_waits_false c ths : someone_waits c ths = false → no_waiter c ths.
Proof.
  intros E tid m Hx. apply not_true_iff_false in E. apply E, someone_waits_true.
  exists tid, (Waiting c m). split; [done|]. cbn. by apply bool_decide_eq_true.
Qed.

Lemma waits_on_inv (c : C) (x : thread C M) : waits_on c x = true → ∃ m : M, x = Waiting c m.
Proof. destruct x as [| |c' m]; [done..|]. cbn. intros ->%bool_decide_eq_true. by exists m. Qed.

Lemma wake_up_rouse signals wakes ths ths' : wake_up signals wakes ths = Some ths' → rouse ths ths'.
Proof.
  revert wakes ths. induction signals as [|[c|c] signals IH]; intros wakes ths; cbn.
  - intros [= ->]. done.
  - destruct (someone_waits c ths); [|by apply IH].
    destruct wakes as [|tid wakes]; [done|]. destruct (ths !! tid) as [x|] eqn:E; [|done].
    destruct (waits_on c x) eqn:Ex; [|done]. apply waits_on_inv in Ex as [m ->]. intros H%IH. eauto.
  - intros H%IH. eauto.
Qed.

Lemma wake_up_all c signals wakes ths ths' :
  wake_up signals wakes ths = Some ths' → NotifyAll c ∈ signals → no_waiter c ths'.
Proof.
  revert wakes ths. induction signals as [|[c'|c'] signals IH]; intros wakes ths; cbn; [set_solver| |].
  - intros H Hin. assert (NotifyAll c ∈ signals) as Hin' by set_solver.
    destruct (someone_waits c' ths); [|by eapply IH].
    destruct wakes as [|tid wakes]; [done|]. destruct (ths !! tid) as [x|] eqn:E; [|done].
    destruct (waits_on c' x) eqn:Ex; [|done]. by eapply IH.
  - intros H Hin. destruct (decide (c' = c)) as [->|Hne].
    + eapply rouse_no_waiter; [by eapply wake_up_rouse|]. intros tid m.
      rewrite lookup_fmap. destruct (ths !! tid) as [[| |c0 m0]|]; cbn; [done..| |done].
      case_bool_decide; cbn; congruence.
    + eapply IH; [done|]. set_solver.
Qed.

Lemma wake_up_notified c signals wakes ths ths' :
  wake_up signals wakes ths = Some ths' → labelled ths →
  no_waiter c ths' ∨ (count (active c) ths + notified c signals ≤ count (active c) ths')%nat.
Proof.
  revert wakes ths. induction signals as [|[c'|c'] signals IH]; intros wakes ths; cbn [wake_up].
  - intros [= ->] _. right. cbn. lia.
  - destruct (someone_waits c' ths) eqn:Ew.
    + destruct wakes as [|tid wakes]; [done|]. destruct (ths !! tid) as [x|] eqn:E; [|done].
      destruct (waits_on c' x) eqn:Ex; [|done]. apply waits_on_inv in Ex as [m ->]. intros H Hl.
      pose proof (rouse_insert ths tid c' m E) as Hr. cbn [woken] in H.
      destruct (IH _ _ H (rouse_labelled _ _ Hr Hl)) as [Hn|Hle]; [by left|right].
      pose proof (count_insert (active c) tid (Locking m) ths) as Hc. rewrite E in Hc. cbn [here] in Hc.
      assert (active c (Locking m) = bool_decide (c' = c)) as Ea.
      { unfold active. cbn. rewrite (Hl _ _ _ E). apply bool_decide_ext. naive_solver. }
      rewrite Ea in Hc. cbn in *. lia.
    + intros H Hl. destruct (decide (c' = c)) as [->|Hne].
      * left. eapply rouse_no_waiter; [by eapply wake_up_rouse|]. by apply someone_waits_false.
      * destruct (IH _ _ H Hl) as [Hn|Hle]; [by left|right].
        cbn. by rewrite bool_decide_eq_false_2.
  - intros H Hl. pose proof (rouse_all ths c') as Hr.
    destruct (IH _ _ H (rouse_labelled _ _ Hr Hl)) as [Hn|Hle]; [by left|right].
    pose proof (rouse_active c _ _ Hr). cbn. lia.
Qed.

(** ** Mutual exclusion *)

Record exclusive (s : t) : Prop := mkExclusive {
  excl_owner tid : MutexLock.owner (mutex_ s) = Some tid ↔ ∃ m, threads s !! tid = Some (Inside m);
  excl_holder : MutexLock.holder_ (mutex_ s) = default 0 (MutexLock.owner (mutex_ s))
}.

(** The thread inside finds that it holds the mutex, and giving it up succeeds. *)
Lemma exclusive_inside s tid m : exclusive s → threads s !! tid = Some (Inside m) →
  MutexLock.isLockedByThisThread tid (mutex_ s) = true ∧ MutexLock.unlock tid (mutex_ s) = Done MutexLock.make.
Proof.
  intros [Ho Hh] Hm. assert (MutexLock.owner (mutex_ s) = Some tid) as E by (apply Ho; eauto).
  rewrite E in Hh. cbn in Hh. split.
  - unfold MutexLock.isLockedByThisThread. by apply bool_decide_eq_true.
  - unfold MutexLock.unlock, MutexLock.release. cbn. by rewrite E, bool_decide_eq_true_2.
Qed.

Lemma exclusive_unlocked s : exclusive s → MutexLock.owner (mutex_ s) = None → mutex_ s = MutexLock.make.
Proof. intros [_ Hh] E. destruct (mutex_ s) as [o h]. cbn in *. subst. done. Qed.

Lemma exclusive_make s0 : exclusive (make s0).
Proof. split; [|done]. intros tid. cbn. rewrite lookup_empty. naive_solver. Qed.

(** Nobody is inside after a section of [tid]. *)
Lemma exclusive_left s tid m d ths :
  exclusive s → threads s !! tid = Some (Inside m) → (∀ i m', ths !! i = Some (Inside m') → threads s !! i = Some (Inside m') ∧ i ≠ tid) →
  exclusive (mk d MutexLock.make ths).
Proof.
  intros [Ho _] Hm Hths. split; [|done]. intros i. cbn. split; [done|]. intros [m' Hi].
  apply Hths in Hi as [Hi Hne]. assert (MutexLock.owner (mutex_ s) = Some i) by (apply Ho; eauto).
  assert (MutexLock.owner (mutex_ s) = Some tid) by (apply Ho; eauto). congruence.
Qed.

(** What a step does, the mutex apart. *)
Inductive effect (s : t) : event M → t → list (Z * M * R) → Prop :=
  | effect_call tid m : threads s !! tid = None → entry m = true →
      effect s (Call tid m) (set_thread tid (Locking m) s) []
  | effect_lock tid m : threads s !! tid = Some (Locking m) → MutexLock.owner (mutex_ s) = None →
      effect s (Lock tid) (mk (data s) (MutexLock.mk (Some tid) tid) (<[tid := Inside m]> (threads s))) []
  | effect_wake tid c m : threads s !! tid = Some (Waiting c m) →
      effect s (Wake tid) (set_thread tid (Locking m) s) []
  | effect_block tid wakes m c m' : threads s !! tid = Some (Inside m) →
      section (R := R) true m (data s) = Done (Block c m') →
      effect s (Run tid wakes) (mk (data s) MutexLock.make (<[tid := Waiting c m']> (threads s))) []
  | effect_finish tid wakes m r d signals ths : threads s !! tid = Some (Inside m) →
      section true m (data s) = Done (Finish r d signals) →
      wake_up signals wakes (delete tid (threads s)) = Some ths →
      effect s (Run tid wakes) (mk d MutexLock.make ths) [(tid, m, r)].

Lemma step_effect e s s' h : exclusive s → step e s = Some (Done (s', h)) → effect s e s' h.
Proof.
  intros Hx. destruct e as [tid m|tid|tid wakes|tid]; cbn [step].
  - destruct (threads s !! tid) eqn:E; [done|]. destruct (entry m) eqn:Ee; [|done].
    intros [= <- <-]. by constructor.
  - destruct (threads s !! tid) as [[m| |]|] eqn:E; try done. unfold MutexLock.lock.
    destruct (MutexLock.owner (mutex_ s)) eqn:Eo; [done|]. intros [= <- <-]. by constructor.
  - destruct (threads s !! tid) as [[|m|]|] eqn:E; try done.
    destruct (exclusive_inside s tid m Hx E) as [-> ->].
    destruct (section true m (data s)) as [[c m'|r d signals]|f] eqn:Es; [| |done].
    + intros [= <- <-]. by eapply effect_block.
    + destruct (wake_up signals wakes (delete tid (threads s))) as [ths|] eqn:Ew; [|done].
      intros [= <- <-]. by eapply effect_finish.
  - destruct (threads s !! tid) as [[| |c m]|] eqn:E; try done. intros [= <- <-]. by eapply effect_wake.
Qed.

(** A step completes if the sections that may run do. *)
Lemma step_completes e s o : exclusive s →
  (∀ tid m, threads s !! tid = Some (Inside m) → is_done (section (R := R) true m (data s)) = true) →
  step e s = Some o → ∃ s' h, o = Done (s', h) ∧ effect s e s' h.
Proof.
  intros Hx Hd Hs. enough (∃ s' h, o = Done (s', h)) as (s' & h & ->).
  { exists s', h. split; [done|]. by apply step_effect. }
  destruct e as [tid m|tid|tid wakes|tid]; cbn [step] in Hs.
  - destruct (threads s !! tid); [done|]. destruct (entry m); [|done]. injection Hs as <-. eauto.
  - destruct (threads s !! tid) as [[m| |]|]; try done. destruct (MutexLock.lock tid (mutex_ s)); [|done].
    injection Hs as <-. eauto.
  - destruct (threads s !! tid) as [[|m|]|] eqn:E; try done.
    destruct (exclusive_inside s tid m Hx E) as [H1 H2]. rewrite H1, H2 in Hs.
    specialize (Hd _ _ E). destruct (section true m (data s)) as [[c m'|r d signals]|f]; [| |done].
    + injection Hs as <-. eauto.
    + destruct (wake_up signals wakes (delete tid (threads s))); [|done]. injection Hs as <-. eauto.
  - destruct (threads s !! tid) as [[| |c m]|]; try done. injection Hs as <-. eauto.
Qed.

Lemma exclusive_set_thread s tid x :
  exclusive s → (∀ m, threads s !! tid ≠ Some (Inside m)) → (∀ m, x ≠ Inside m) → exclusive (set_thread tid x s).
Proof.
  intros [Ho Hh] Hs Hx. split; [|done]. intros i. cbn. rewrite Ho. destruct (decide (i = tid)) as [->|Hne].
  - rewrite lookup_insert_eq. split; intros [m Hm]; [by apply Hs in Hm|]. injection Hm as Hm. by apply Hx in Hm.
  - by rewrite lookup_insert_ne.
Qed.

Lemma effect_exclusive e s s' h : exclusive s → effect s e s' h → exclusive s'.
Proof.
  intros Hx He. destruct He as [tid m E|tid m E Ho|tid c m E|tid wakes m c m' E Es|tid wakes m r d signals ths E Es Ew].
  - apply exclusive_set_thread; try done. intros m'. by rewrite E.
  - split; [|done]. intros i. cbn. destruct (decide (i = tid)) as [->|Hne].
    + rewrite lookup_insert_eq. naive_solver.
    + rewrite lookup_insert_ne by done. rewrite <-(excl_owner _ Hx i), Ho. naive_solver.
  - apply exclusive_set_thread; try done. intros m'. by rewrite E.
  - apply (exclusive_left s tid m); [done..|]. intros i m0. destruct (decide (i = tid)) as [->|Hne].
    + by rewrite lookup_insert_eq.
    + by rewrite lookup_insert_ne.
  - apply (exclusive_left s tid m); [done..|]. intros i m0 Hi.
    destruct (wake_up_rouse _ _ _ _ Ew i) as [E'|(c & m1 & _ & E')]; [|congruence].
    rewrite E' in Hi. by apply lookup_delete_Some in Hi as [Hne Hi].
Qed.

Lemma reaches_exclusive s0 es s h : exclusive s0 → reaches s0 es s h → exclusive s.
Proof.
  intros Hx. induction 1 as [|es s h e s' h' _ IH Hs]; [done|].
  eapply effect_exclusive; [done|]. by apply step_effect.
Qed.

(** ** The members in progress *)

Definition labels (s : t) : gmap Z M := label <$> threads s.

Lemma labels_none s tid : labels s !! tid = None ↔ threads s !! tid = None.
Proof. unfold labels. rewrite lookup_fmap. by destruct (threads s !! tid). Qed.
Lemma labels_some s tid m : labels s !! tid = Some m ↔ ∃ x, threads s !! tid = Some x ∧ label x = m.
Proof. unfold labels. rewrite lookup_fmap. destruct (threads s !! tid); cbn; naive_solver. Qed.

Lemma rouse_labels ths ths' : rouse ths ths' → label <$> ths' = label <$> ths.
Proof.
  intros H. apply map_eq. intros i. rewrite !lookup_fmap.
  destruct (H i) as [->|(c & m & -> & ->)]; done.
Qed.

Lemma labels_replace (ths : threads_t) tid x y : ths !! tid = Some x → label y = label x →
  label <$> <[tid := y]> ths = label <$> ths.
Proof. intros Hx Hl. rewrite fmap_insert, Hl. apply insert_id. by rewrite lookup_fmap, Hx. Qed.

(** Steps by their effect on the data and the members in progress, for members
    that continue as they were after a wait. *)
Inductive outline (s : t) : event M → t → list (Z * M * R) → Prop :=
  | outline_call tid m s' : threads s !! tid = None → entry m = true →
      labels s' = <[tid := m]> (labels s) → data s' = data s → outline s (Call tid m) s' []
  | outline_quiet e s' : (∀ tid m, e ≠ Call tid m) → labels s' = labels s → data s' = data s → outline s e s' []
  | outline_return tid wakes m r signals s' : threads s !! tid = Some (Inside m) →
      section true m (data s) = Done (Finish r (data s') signals) →
      labels s' = delete tid (labels s) → outline s (Run tid wakes) s' [(tid, m, r)].

Lemma effect_outline e s s' h :
  (∀ c m m' d, section (R := R) true m d = Done (Block c m') → m' = m) → effect s e s' h → outline s e s' h.
Proof.
  intros Hsame He. destruct He as [tid m E Ee|tid m E Eo|tid c m E|tid wakes m c m' E Es|tid wakes m r d signals ths E Es Ew].
  - apply outline_call; [done..| |done]. unfold labels. cbn. by rewrite fmap_insert.
  - apply outline_quiet; [done| |done]. by eapply labels_replace.
  - apply outline_quiet; [done| |done]. by eapply labels_replace.
  - apply outline_quiet; [done| |done]. eapply labels_replace; [done|]. by rewrite (Hsame _ _ _ _ Es).
  - eapply outline_return; [done|done|]. unfold labels. cbn.
    by rewrite (rouse_labels _ _ (wake_up_rouse _ _ _ _ Ew)), fmap_delete.
Qed.

(** Two threads are never inside together. *)
Lemma mutual_exclusion s tid m tid' m' : exclusive s →
  threads s !! tid = Some (Inside m) → threads s !! tid' = Some (Inside m') → tid = tid'.
Proof.
  intros [Ho _] H1 H2. assert (MutexLock.owner (mutex_ s) = Some tid) by (apply Ho; eauto).
  assert (MutexLock.owner (mutex_ s) = Some tid') by (apply Ho; eauto). congruence.
Qed.

(** ** No lost wake-up *)

(** While calls wait on [c], no more of them could go on than there are calls
    awake that will see to it. *)
Definition covered (c : C) (d : S) (ths : threads_t) : Prop :=
  no_waiter c ths ∨ ∃ n, ready c d = Some n ∧ (n ≤ count (active c) ths)%nat.

Record inv (s : t) : Prop := mkInv {
  inv_exclusive : exclusive s;
  inv_ok : ok (data s);
  inv_labelled : labelled (threads s);
  inv_covered c : covered c (data s) (threads s)
}.

Lemma monitor_inv_make s0 : ok s0 → inv (make s0).
Proof. split; [apply exclusive_make|done|intros tid c m; cbn; by rewrite lookup_empty|left; intros tid m; cbn; by rewrite lookup_empty]. Qed.

(** Replacing a call by one that is awake and uses the same condition. *)
Lemma covered_insert c d ths tid x y :
  (here (active c) x ≤ Nat.b2n (active c y))%nat → x = ths !! tid → (∀ c' m, y ≠ Waiting c' m) →
  covered c d ths → covered c d (<[tid := y]> ths).
Proof.
  intros Hle -> Hy [Hn|(n & Hr & Hc)].
  - left. intros i m. destruct (decide (i = tid)) as [->|Hne].
    + rewrite lookup_insert_eq. intros [= E]. by apply Hy in E.
    + rewrite lookup_insert_ne by done. apply Hn.
  - right. exists n. split; [done|]. pose proof (count_insert (active c) tid y ths). lia.
Qed.

Lemma labelled_insert ths tid y : labelled ths → (∀ c m, y = Waiting c m → uses m = Some c) → labelled (<[tid := y]> ths).
Proof.
  intros Hl Hy i c m. destruct (decide (i = tid)) as [->|Hne].
  - rewrite lookup_insert_eq. intros [= E]. by apply Hy.
  - rewrite lookup_insert_ne by done. apply Hl.
Qed.

Lemma covered_block c c' d ths tid m m' :
  ths !! tid = Some (Inside m) → uses m = Some c' → uses m' = Some c' → ready c' d = Some O →
  covered c d ths → covered c d (<[tid := Waiting c' m']> ths).
Proof.
  intros Hm Hu Hu' Hr Hc. pose proof (count_insert (active c) tid (Waiting c' m') ths) as Hi. rewrite Hm in Hi.
  cbn [here] in Hi. change (active c (Waiting c' m')) with false in Hi.
  change (active c (Inside m)) with (bool_decide (uses m = Some c)) in Hi. rewrite Hu in Hi.
  destruct (decide (c' = c)) as [->|Hne]; [right; exists O; split; [done|lia]|].
  rewrite bool_decide_eq_false_2 in Hi by congruence. cbn in Hi.
  destruct Hc as [Hn|(n & Hr' & Hc)]; [left|right; exists n; split; [done|lia]].
  intros i m0. destruct (decide (i = tid)) as [->|Hne'].
  - rewrite lookup_insert_eq. congruence.
  - rewrite lookup_insert_ne by done. apply Hn.
Qed.

Lemma covered_finish c d d' ths ths' tid m signals wakes :
  ths !! tid = Some (Inside m) → labelled ths →
  balance c (bool_decide (uses m = Some c)) (ready c d) (ready c d') signals →
  wake_up signals wakes (delete tid ths) = Some ths' →
  covered c d ths → covered c d' ths'.
Proof.
  intros Hm Hl Hb Hw Hc. pose proof (wake_up_rouse _ _ _ _ Hw) as Hr.
  assert (labelled (delete tid ths)) as Hl'.
  { intros i c' m' E. apply lookup_delete_Some in E as [_ E]. eauto. }
  destruct Hb as [Hall|Hb]; [left; by eapply wake_up_all|].
  destruct (wake_up_notified c _ _ _ _ Hw Hl') as [Hn|Hle]; [by left|].
  destruct Hc as [Hn|(n & Hrd & Hc)].
  - left. eapply rouse_no_waiter; [done|]. intros i m' E. apply lookup_delete_Some in E as [_ E]. by apply Hn in E.
  - rewrite Hrd in Hb. destruct Hb as (n' & Hn' & Hb). right. exists n'. split; [done|].
    pose proof (count_delete (active c) tid ths) as Hd. rewrite Hm in Hd.
    cbn [here] in Hd. change (active c (Inside m)) with (bool_decide (uses m = Some c)) in Hd. lia.
Qed.

Lemma effect_inv e s s' h : inv s → effect s e s' h → inv s'.
Proof.
  intros [Hx Ho Hl Hc] He. pose proof (effect_exclusive _ _ _ _ Hx He) as Hx'.
  destruct He as [tid m E Ee|tid m E Eo|tid c m E|tid wakes m c m' E Es|tid wakes m r d signals ths E Es Ew]; split; try done; cbn in *.
  - by apply labelled_insert.
  - intros c. eapply covered_insert; [|symmetry; exact E|done|apply Hc]. cbn. lia.
  - by apply labelled_insert.
  - intros c. by eapply covered_insert; [|symmetry; exact E| |apply Hc].
  - by apply labelled_insert.
  - intros c'. eapply covered_insert; [|symmetry; exact E|done|apply Hc]. cbn. lia.
  - pose proof (section_balanced m (data s) Ho) as Hb. rewrite Es in Hb. destruct Hb as (Hu & Hu' & Hr).
    apply labelled_insert; [done|]. by intros ? ? [= <- <-].
  - pose proof (section_balanced m (data s) Ho) as Hb. rewrite Es in Hb. destruct Hb as (Hu & Hu' & Hr).
    intros c'. by eapply covered_block.
  - pose proof (section_balanced m (data s) Ho) as Hb. rewrite Es in Hb. apply Hb.
  - eapply rouse_labelled; [by eapply wake_up_rouse|]. intros i c m' Ei.
    apply lookup_delete_Some in Ei as [_ Ei]. eauto.
  - pose proof (section_balanced m (data s) Ho) as Hb. rewrite Es in Hb. destruct Hb as [_ Hb].
    intros c. by eapply covered_finish.
Qed.

(** Every step that can happen completes, tolerated faults apart. *)
Lemma step_done e s o : inv s → step e s = Some o →
  (∃ s' h, o = Done (s', h) ∧ effect s e s' h ∧ inv s') ∨ (∃ f, o = Fault f ∧ tolerated f).
Proof.
  intros Hi Hs. enough ((∃ s' h, o = Done (s', h)) ∨ ∃ f, o = Fault f ∧ tolerated f) as [(s' & h & ->)|Hf]; [left|by right|].
  { pose proof (step_effect _ _ _ _ (inv_exclusive _ Hi) Hs) as He. exists s', h. split; [done|].
    split; [done|]. by eapply effect_inv. }
  destruct e as [tid m|tid|tid wakes|tid]; cbn [step] in Hs.
  - left. destruct (threads s !! tid); [done|]. destruct (entry m); [|done]. injection Hs as <-. eauto.
  - left. destruct (threads s !! tid) as [[m| |]|]; try done. destruct (MutexLock.lock tid (mutex_ s)); [|done].
    injection Hs as <-. eauto.
  - destruct (threads s !! tid) as [[|m|]|] eqn:E; try done.
    destruct (exclusive_inside s tid m (inv_exclusive _ Hi) E) as [H1 H2]. rewrite H1, H2 in Hs.
    pose proof (section_balanced m (data s) (inv_ok _ Hi)) as Hb.
    destruct (section true m (data s)) as [[c m'|r d signals]|f].
    + left. injection Hs as <-. eauto.
    + left. destruct (wake_up signals wakes (delete tid (threads s))); [|done]. injection Hs as <-. eauto.
    + right. injection Hs as <-. eauto.
  - left. destruct (threads s !! tid) as [[| |c m]|]; try done. injection Hs as <-. eauto.
Qed.

Lemma reaches_inv s0 es s h : inv s0 → reaches s0 es s h → inv s.
Proof.
  intros Hi. induction 1 as [|es s h e s' h' _ IH Hs]; [done|].
  destruct (step_done e s _ IH Hs) as [(? & ? & [= <- <-] & _ & Hi')|(f & [=] & _)]. done.
Qed.

(** A call that waits although it could go on: some call of its condition is
    awake. *)
Lemma no_lost_wakeup s tid c m : inv s → threads s !! tid = Some (Waiting c m) → ready c (data s) ≠ Some O →
  ∃ tid' x, threads s !! tid' = Some x ∧ active c x = true.
Proof.
  intros Hi Hw Hr. destruct (inv_covered _ Hi c) as [Hn|(n & Hn & Hc)]; [by apply Hn in Hw|].
  apply count_witness. destruct n; [done|lia].
Qed.

(** ** Calls come to an end

    Without new calls and without waking up for no reason, the threads take only
    so many steps; when no step is left, every call has returned or waits for
    something that is not there. *)

Definition internal (e : event M) : bool := match e with Lock _ | Run _ _ => true | _ => false end.
Definition settled (s : t) : Prop := ∀ tid x, threads s !! tid = Some x →
  ∃ c m, x = Waiting c m ∧ ready c (data s) = Some O.

Definition is_locking (x : thread C M) : bool := match x with Locking _ => true | _ => false end.
Definition weight (ths : threads_t) : nat := count awake ths + count is_locking ths.
Definition measure (s : t) : nat := (2 * size (threads s) + 1) * size (threads s) + weight (threads s).

Lemma weight_insert ths tid x y : ths !! tid = Some x →
  (weight (<[tid := y]> ths) + (Nat.b2n (awake x) + Nat.b2n (is_locking x)) =
   weight ths + (Nat.b2n (awake y) + Nat.b2n (is_locking y)))%nat.
Proof.
  intros Hx. unfold weight. pose proof (count_insert awake tid y ths) as H1.
  pose proof (count_insert is_locking tid y ths) as H2. rewrite Hx in H1, H2. cbn [here] in *. lia.
Qed.
Lemma weight_le ths : (weight ths ≤ 2 * size ths)%nat.
Proof.
  unfold weight. assert (∀ f, count f ths ≤ size ths)%nat as H.
  { intros f. apply map_subseteq_size, map_filter_subseteq. }
  pose proof (H awake). pose proof (H is_locking). lia.
Qed.

Lemma effect_measure e s s' h : effect s e s' h → internal e = true → (measure s' < measure s)%nat.
Proof.
  assert (∀ tid x y, threads s !! tid = Some x → size (<[tid := y]> (threads s)) = size (threads s)) as Hsize.
  { intros tid x y Hx. by apply map_size_insert_Some. }
  intros He Hint. destruct He as [|tid m E Eo| |tid wakes m c m' E Es|tid wakes m r d signals ths E Es Ew]; try done; unfold measure; cbn.
  - rewrite (Hsize _ _ _ E). pose proof (weight_insert _ tid _ (Inside m) E) as H. cbn in H. lia.
  - rewrite (Hsize _ _ _ E). pose proof (weight_insert _ tid _ (Waiting c m') E) as H. cbn in H. lia.
  - pose proof (rouse_size _ _ (wake_up_rouse _ _ _ _ Ew)) as Hs. pose proof (weight_le ths) as Hw.
    pose proof (map_size_delete_Some tid (threads s)) as Hd. rewrite Hd in Hs by (by eexists).
    assert (size (threads s) ≠ 0%nat) by (intros Hz; apply map_size_empty_inv in Hz; by rewrite Hz, lookup_empty in E).
    rewrite Hs in *. nia.
Qed.

Lemma wake_up_some signals (ths : threads_t) : ∃ wakes ths', wake_up signals wakes ths = Some ths'.
Proof.
  revert ths. induction signals as [|[c|c] signals IH]; intros ths; cbn.
  - by exists [], ths.
  - destruct (someone_waits c ths) eqn:E; [|apply IH].
    apply someone_waits_true in E as (tid & x & Hx & Hw).
    destruct (IH (<[tid := woken x]> ths)) as (wakes & ths' & H).
    exists (tid :: wakes), ths'. by rewrite Hx, Hw.
  - apply IH.
Qed.

Lemma settled_or_step s : inv s → settled s ∨ ∃ e o, internal e = true ∧ step e s = Some o.
Proof.
  intros Hi. destruct (MutexLock.owner (mutex_ s)) as [tid|] eqn:Eo.
  - right. apply (excl_owner _ (inv_exclusive _ Hi)) in Eo as [m E].
    destruct (exclusive_inside s tid m (inv_exclusive _ Hi) E) as [H1 H2].
    destruct (section true m (data s)) as [[c m'|r d signals]|f] eqn:Es.
    + exists (Run tid []). cbn. rewrite E, H1, Es. eauto.
    + destruct (wake_up_some signals (delete tid (threads s))) as (wakes & ths & Hw).
      exists (Run tid wakes). cbn. rewrite E, H1, Es, Hw. eauto.
    + exists (Run tid []). cbn. rewrite E, H1, Es. eauto.
  - destruct (count is_locking (threads s)) eqn:En.
    + left. intros tid x Hx.
      assert (∀ i m, threads s !! i = Some (Locking m) → False) as Hno.
      { intros i m Hm. pose proof (count_pos is_locking i _ _ Hm eq_refl). lia. }
      destruct x as [m|m|c m]; [by apply Hno in Hx| |].
      * assert (MutexLock.owner (mutex_ s) = Some tid) by (apply Hi; eauto). congruence.
      * exists c, m. split; [done|]. destruct (ready c (data s)) as [[|n]|] eqn:Er; [done| |].
        all: destruct (no_lost_wakeup s tid c m Hi Hx) as (i & y & Hy & Ha); [by rewrite Er|].
        all: unfold active in Ha; apply andb_true_iff in Ha as [Ha _].
        all: destruct y as [m'|m'|]; [by apply Hno in Hy| |done].
        all: assert (MutexLock.owner (mutex_ s) = Some i) by (apply Hi; eauto); congruence.
    + right. destruct (count_witness is_locking (threads s)) as (tid & x & Hx & Hl); [lia|].
      destruct x as [m| |]; try done. exists (Lock tid). cbn. rewrite Hx. unfold MutexLock.lock. rewrite Eo. eauto.
Qed.

Lemma settles s es s' h : inv s → reaches s es s' h → Forall (λ e, internal e = true) es →
  (length es ≤ measure s)%nat ∧ (settled s' ∨ ∃ e o, internal e = true ∧ step e s' = Some o).
Proof.
  intros Hi Hr Hint. enough (length es + measure s' ≤ measure s ∧ inv s')%nat as [Hm Hi'].
  { split; [lia|]. by apply settled_or_step. }
  induction Hr as [|es s' h e s'' h' Hr IH Hs]; [split; [cbn; lia|done]|].
  apply Forall_app in Hint as [Hint He]. apply Forall_cons in He as [He _].
  destruct (IH Hint) as [Hm Hi']. destruct (step_done e s' _ Hi' Hs) as [(? & ? & [= <- <-] & Hef & Hi'')|(f & [=] & _)].
  pose proof (effect_measure _ _ _ _ Hef He). rewrite length_app. cbn [length]. split; [lia|done].
Qed.

(** ** Calls take effect one after the other

    The results of the calls are those of a sequential specification that
    performs them in the order of their last sections. *)

Section sequential.
Context {A : Type} (abs : S → A) (spec : M → A → R → A → Prop).

Inductive replays (a : A) : list (Z * M * R) → A → Prop :=
  | replays_nil : replays a [] a
  | replays_snoc h a' tid m r a'' : replays a h a' → spec m a' r a'' → replays a (h ++ [(tid, m, r)]) a''.

Context (Hspec : ∀ m s r s' signals, ok s → section true m s = Done (Finish r s' signals) → spec m (abs s) r (abs s')).

Lemma reaches_replays s0 es s h : inv s0 → reaches s0 es s h → replays (abs (data s0)) h (abs (data s)).
Proof.
  intros Hi. induction 1 as [|es s h e s' h' Hr IH Hs]; [constructor|].
  pose proof (reaches_inv _ _ _ _ Hi Hr) as Hi'.
  pose proof (step_effect _ _ _ _ (inv_exclusive _ Hi') Hs) as He.
  destruct He as [tid m E Ee|tid m E Eo|tid c m E|tid wakes m c m' E Es|tid wakes m r d signals ths E Es Ew];
    rewrite ?app_nil_r; try done.
  econstructor; [done|]. eapply Hspec; [apply Hi'|done].
Qed.
End sequential.
End balanced.
End Monitor.
