(* ===== verification/Queues.v ===== *)
(** Objects shared by threads (src/IMServer/src/muduo/base: BlockingQueue.h,
    BoundedBlockingQueue.h, CountDownLatch.h, CountDownLatch.cc), as balanced
    monitors.  [boost::circular_buffer] is a parameter: the class
    [CircularBuffer] has the members the code calls, with their documented
    behaviour. *)

From S2P Require Import Prelude Monitor.
Local Open Scope Z_scope.
Import Monitor.

(** * [muduo::BlockingQueue<T>] *)
Module BlockingQueue.
Section queue.
Context {T : Type}.

Inductive condition := notEmpty_.
Inductive member := put (x : T) | take | drain | size.
Inductive result := Void | Front (x : T) | Queue (q : list T) | Size (n : Z).
#[global] Instance condition_eq_dec : EqDecision condition.
Proof. solve_decision. Defined.

(** The members, from the lock to its release; [queue_] is the data. *)
Definition members (locked : bool) (m : member) (queue_ : list T) : outcome (action (list T) condition member result) :=
  match m with
  | put x => Done (Finish Void (queue_ ++ [x]) [Notify notEmpty_])
  | take =>
      if bool_decide (queue_ = []) then Done (Block notEmpty_ take)
      else
        _ ← cassert (negb (bool_decide (queue_ = []))) "!queue_.empty()";
        match queue_ with
        | front :: queue_ => Done (Finish (Front front) queue_ [])
        | [] => Fault (Undefined "front() of an empty deque")
        end
  | drain =>
      let '(queue, queue_) := (queue_, []) in
      _ ← cassert (bool_decide (queue_ = [])) "queue_.empty()";
      Done (Finish (Queue queue) queue_ [])
  | size => Done (Finish (Size (szof queue_)) queue_ [])
  end.
#[global] Instance blocking_queue : Guarded (list T) condition member result := {
  section := members; entry _ := true
}.
Definition make : t (list T) condition member := Monitor.make [].
End queue.
Arguments member T : clear implicits.
Arguments result T : clear implicits.
End BlockingQueue.

(** * [muduo::BoundedBlockingQueue<T>] *)

(** [boost::circular_buffer<T>]: the members that are called. *)
Class CircularBuffer (B T : Type) := {
  with_capacity : Z → outcome B;       (* [circular_buffer( capacity )], which allocates *)
  capacity : B → Z;
  full : B → bool;
  empty : B → bool;
  size : B → Z;
  front : B → option T;                (* undefined when empty *)
  push_back : T → B → B;
  pop_front : B → outcome B
}.

(** Their documented behaviour, by the sequence of the elements. *)
Class CircularBufferLaws (B T : Type) `{!CircularBuffer B T} := {
  items : B → list T;
  items_make n b : with_capacity n = Done b → items b = [] ∧ capacity b = n;
  items_size b : size b = szof (items b);
  items_full b : full b = bool_decide (size b = capacity b);
  items_empty b : empty b = bool_decide (items b = []);
  items_front b : front b = head (items b);
  items_push x b : full b = false → items (push_back x b) = items b ++ [x] ∧ capacity (push_back x b) = capacity b;
  items_pop b : items b ≠ [] → ∃ b', pop_front b = Done b' ∧ items b' = tail (items b) ∧ capacity b' = capacity b
}.

Module BoundedBlockingQueue.
Section queue.
Context {B T : Type} `{!CircularBuffer B T}.

Inductive condition := notEmpty_ | notFull_.
Inductive member := put (x : T) | take | empty | full | size | capacity.
Inductive result := Void | Front (x : T) | Bool (b : bool) | Size (n : Z).
#[global] Instance condition_eq_dec : EqDecision condition.
Proof. solve_decision. Defined.

Definition members (locked : bool) (m : member) (queue_ : B) : outcome (action B condition member result) :=
  match m with
  | put x =>
      if Queues.full queue_ then Done (Block notFull_ (put x))
      else
        _ ← cassert (negb (Queues.full queue_)) "!queue_.full()";
        Done (Finish Void (push_back x queue_) [Notify notEmpty_])
  | take =>
      if Queues.empty queue_ then Done (Block notEmpty_ take)
      else
        _ ← cassert (negb (Queues.empty queue_)) "!queue_.empty()";
        match front queue_ with
        | Some x => queue_ ← pop_front queue_; Done (Finish (Front x) queue_ [Notify notFull_])
        | None => Fault (Undefined "front() of an empty buffer")
        end
  | empty => Done (Finish (Bool (Queues.empty queue_)) queue_ [])
  | full => Done (Finish (Bool (Queues.full queue_)) queue_ [])
  | size => Done (Finish (Size (Queues.size queue_)) queue_ [])
  | capacity => Done (Finish (Size (Queues.capacity queue_)) queue_ [])
  end.
#[global] Instance bounded_blocking_queue : Guarded B condition member result := {
  section := members; entry _ := true
}.

(** [BoundedBlockingQueue( int maxSize )]: the buffer takes a [size_t]. *)
Definition make (maxSize : Z) : outcome (t B condition member) :=
  queue_ ← with_capacity (u64 maxSize); Done (Monitor.make queue_).
End queue.
Arguments member T : clear implicits.
Arguments result T : clear implicits.
End BoundedBlockingQueue.

(** * [muduo::CountDownLatch] *)
Module CountDownLatch.

Inductive condition := condition_.
Inductive member := wait | countDown | getCount.
Inductive result := Void | Int (n : Z).
#[global] Instance condition_eq_dec : EqDecision condition.
Proof. solve_decision. Defined.

Definition members (locked : bool) (m : member) (count_ : Z) : outcome (action Z condition member result) :=
  match m with
  | wait => if 0 <? count_ then Done (Block condition_ wait) else Done (Finish Void count_ [])
  | countDown =>
      count_ ← int32 (count_ - 1);
      Done (Finish Void count_ (if count_ =? 0 then [NotifyAll condition_] else []))
  | getCount => Done (Finish (Int count_) count_ [])
  end.
#[global] Instance count_down_latch : Guarded Z condition member result := {
  section := members; entry _ := true
}.
Definition make (count : Z) : t Z condition member := Monitor.make count.

End CountDownLatch.

(** * Balance *)

Section blocking.
Context {T : Type}.
Import BlockingQueue.

#[global] Instance blocking_queue_balanced : Balanced (list T) condition (member T) (result T).
Proof.
  refine {| ok _ := True; uses m := match m with take => Some notEmpty_ | _ => None end;
            ready _ q := Some (length q); tolerated _ := False |}.
  intros m q _. destruct m as [x| | |]; cbn.
  - split; [done|]. intros []. rewrite length_app. weigh.
  - destruct q as [|x q]; cbn; [done|]. split; [done|]. intros []. weigh.
  - split; [done|]. intros []. weigh.
  - split; [done|]. intros []. weigh.
Defined.

(** What the members do to a queue, one at a time. *)
Definition blocking_spec (m : member T) (q : list T) (r : result T) (q' : list T) : Prop :=
  match m with
  | put x => r = Void ∧ q' = q ++ [x]
  | take => ∃ x, r = Front x ∧ q = x :: q'
  | drain => r = Queue q ∧ q' = []
  | size => r = Size (szof q) ∧ q' = q
  end.
End blocking.

Section bounded.
Context {B T : Type} `{HL : CircularBufferLaws B T} (cap : Z).
Import BoundedBlockingQueue.

Definition bounded_ok (q : B) : Prop := Queues.capacity q = cap ∧ szof (items q) ≤ cap.

Lemma not_full q : bounded_ok q → Queues.full q = false → szof (items q) < cap.
Proof. intros [Hc Hs] Hf. rewrite items_full, items_size, Hc in Hf. apply bool_decide_eq_false in Hf. lia. Qed.

#[global] Instance bounded_balanced : Balanced B condition (member T) (result T).
Proof.
  refine {| ok := bounded_ok;
            uses m := match m with take => Some notEmpty_ | put _ => Some notFull_ | _ => None end;
            ready c q := Some (match c with notEmpty_ => length (items q) | notFull_ => Z.to_nat (cap - szof (items q)) end);
            tolerated _ := False |}.
  intros m q Hok. pose proof Hok as [Hc Hs]. destruct m as [x| | | | |]; cbn [section bounded_blocking_queue members];
    try (split; [done|]; intros []; weigh).
  - destruct (Queues.full q) eqn:Ef; cbn.
    + rewrite items_full, items_size, Hc in Ef. apply bool_decide_eq_true in Ef.
      split; [done|]. split; [done|]. f_equal. lia.
    + destruct (items_push x q Ef) as [Hi Hc']. pose proof (not_full q Hok Ef).
      split; [split; [by rewrite Hc'|rewrite Hi, length_app; cbn; lia]|].
      rewrite Hi, length_app. intros []; weigh.
  - rewrite items_empty. destruct (items q) as [|x l] eqn:Ei; [by rewrite bool_decide_eq_true_2|].
    rewrite bool_decide_eq_false_2 by done. cbn [negb cassert mbind outcome_bind].
    destruct (items_pop q) as (q' & Hp & Hi & Hc'); [by rewrite Ei|].
    rewrite items_front, Ei, Hp. cbn [head mbind outcome_bind]. rewrite Ei in Hi. cbn [tail length] in Hi, Hs |- *.
    split; [split; [congruence|rewrite Hi; lia]|].
    rewrite Hi. intros []; weigh.
Defined.

Definition bounded_spec (m : member T) (q : list T) (r : result T) (q' : list T) : Prop :=
  match m with
  | put x => r = Void ∧ q' = q ++ [x] ∧ szof q < cap
  | take => ∃ x, r = Front x ∧ q = x :: q'
  | empty => r = Bool (bool_decide (q = [])) ∧ q' = q
  | full => r = Bool (bool_decide (szof q = cap)) ∧ q' = q
  | size => r = Size (szof q) ∧ q' = q
  | capacity => r = Size cap ∧ q' = q
  end.

Lemma bounded_refines m q r q' signals : bounded_ok q →
  section true m q = Done (Finish r q' signals) → bounded_spec m (items q) r (items q').
Proof.
  intros Hok. pose proof Hok as [Hc Hs]. destruct m as [x| | | | |]; cbn;
    rewrite ?items_full, ?items_size, ?Hc; try by intros [= <- <- <-].
  - destruct (bool_decide (szof (items q) = cap)) eqn:Ef; [done|]. cbn. intros [= <- <- <-].
    assert (Queues.full q = false) as Ef' by (rewrite items_full, items_size, Hc; done).
    split; [done|]. split; [by apply items_push|by apply not_full].
  - rewrite items_empty. destruct (items q) as [|x l] eqn:Ei; [done|]. rewrite bool_decide_eq_false_2 by done. cbn.
    destruct (items_pop q) as (q0 & Hp & Hi & Hc'); [by rewrite Ei|].
    rewrite items_front, Ei, Hp. cbn. intros [= <- <- <-]. exists x. by rewrite Hi, Ei.
  - rewrite items_empty. by intros [= <- <- <-].
Qed.
End bounded.

(** * The queue *)
Section bounded_theorems.
Context {B T : Type} `{HL : CircularBufferLaws B T}.
Import BoundedBlockingQueue.

Definition puts (h : list (Z * member T * result T)) : list T :=
  omap (λ x, match x with (_, put x, _) => Some x | _ => None end) h.
Definition takes (h : list (Z * member T * result T)) : list T :=
  omap (λ x, match x with (_, take, Front x) => Some x | _ => None end) h.

Lemma bounded_fifo cap h q : replays (bounded_spec cap) [] h q → puts h = takes h ++ q.
Proof.
  induction 1 as [|h q tid m r q' _ IH Hs]; [done|]. unfold puts, takes in *.
  rewrite !omap_app, IH. destruct m as [x| | | | |]; cbn in Hs |- *.
  - destruct Hs as (-> & -> & _). by rewrite !app_nil_r, app_assoc.
  - destruct Hs as (x & -> & ->). by rewrite !app_nil_r, <-app_assoc.
  - destruct Hs as [-> ->]. by rewrite !app_nil_r.
  - destruct Hs as [-> ->]. by rewrite !app_nil_r.
  - destruct Hs as [-> ->]. by rewrite !app_nil_r.
  - destruct Hs as [-> ->]. by rewrite !app_nil_r.
Qed.

(** All calls have returned, except takes that wait on an empty queue and puts
    that wait on a full one. *)
Definition at_rest (cap : Z) (s : t B condition (member T)) : Prop := ∀ tid x, threads s !! tid = Some x →
  (x = Waiting notEmpty_ take ∧ items (data s) = []) ∨
  (∃ y, x = Waiting notFull_ (put y) ∧ szof (items (data s)) = cap).

Lemma settled_at_rest cap s : inv (HB := bounded_balanced cap) s → settled (HB := bounded_balanced cap) s → at_rest cap s.
Proof.
  intros Hi Hs tid x Hx. destruct (Hs tid x Hx) as (c & m & -> & Hr).
  pose proof (inv_labelled _ Hi tid c m Hx) as Hu. cbn in Hu, Hr.
  pose proof (inv_ok _ Hi) as [_ Hc]. destruct m as [y| | | | |]; try done; injection Hu as <-.
  - right. exists y. split; [done|]. injection Hr. lia.
  - left. split; [done|]. injection Hr as Hr. by apply nil_length_inv.
Qed.

Lemma make_inv maxSize s : 0 ≤ maxSize < 2 ^ 64 → BoundedBlockingQueue.make maxSize = Done s →
  inv (HB := bounded_balanced maxSize) s ∧ items (data s) = [].
Proof.
  intros Hm. unfold BoundedBlockingQueue.make. rewrite wrapu_small by lia. intros Hs. destruct_done Hs.
  injection Hs as <-. destruct (items_make _ _ E) as [Hi Hc]. split; [|done].
  apply monitor_inv_make. split; [done|]. rewrite Hi. cbn. lia.
Qed.

(** C9. A bounded blocking queue is a bounded queue: whatever threads call its
    members and however their steps interleave, with waits that end for no
    reason and notifications that wake any waiter, no assertion fails; the
    calls that have returned are the calls of a sequential queue performed one
    after the other; what was put is what was taken followed by what is in the
    queue, in order; the capacity is never exceeded.  No wake-up is lost: if
    no new call is made, after a bounded number of steps all calls have
    returned, except takes of an empty queue and puts to a full one. *)
Theorem bounded_queue_correct maxSize s0 es s h :
  0 ≤ maxSize < 2 ^ 64 → BoundedBlockingQueue.make maxSize = Done s0 → reaches s0 es s h →
  (∀ e o, step e s = Some o → is_done o = true) ∧
  replays (bounded_spec maxSize) [] h (items (data s)) ∧
  puts h = takes h ++ items (data s) ∧
  szof (items (data s)) ≤ maxSize ∧
  ∀ es' s' h', reaches s es' s' h' → Forall (λ e, internal e = true) es' →
    (length es' ≤ measure s)%nat ∧
    (at_rest maxSize s' ∨ ∃ e o, internal e = true ∧ step e s' = Some o).
Proof.
  intros Hm Hs0 Hr. destruct (make_inv maxSize s0 Hm Hs0) as [Hi0 Hq].
  pose proof (reaches_inv _ _ _ _ Hi0 Hr) as Hi.
  assert (replays (bounded_spec maxSize) [] h (items (data s))) as Hrep.
  { rewrite <-Hq. eapply (reaches_replays items); [|exact Hi0|exact Hr]. intros ?????. apply bounded_refines. }
  repeat split.
  - intros e o Hs. by destruct (step_done e s o Hi Hs) as [(s' & h' & -> & _)|(f & _ & [])].
  - done.
  - by eapply bounded_fifo.
  - apply (inv_ok _ Hi).
  - by eapply (settles s).
  - destruct (settles s es' s' h' Hi) as [_ [Hset|Hstep]]; try done; [left|by right].
    apply settled_at_rest; [|done]. by eapply reaches_inv.
Qed.
End bounded_theorems.

(** * The unbounded queue *)
Section blocking_theorems.
Context {T : Type}.
Import BlockingQueue.

(** What the calls that have returned put in, and what they got out. *)
Definition entered (h : list (Z * member T * result T)) : list T :=
  omap (λ x, match x with (_, put x, _) => Some x | _ => None end) h.
Definition got_out (h : list (Z * member T * result T)) : list T :=
  h ≫= λ x, match x with (_, _, Front x) => [x] | (_, _, Queue q) => q | _ => [] end.

Lemma blocking_fifo h q : replays (blocking_spec (T := T)) [] h q → entered h = got_out h ++ q.
Proof.
  induction 1 as [|h q tid m r q' _ IH Hs]; [done|]. unfold entered, got_out in *.
  rewrite omap_app, bind_app, IH. destruct m as [x| | |]; cbn in Hs |- *.
  - destruct Hs as [-> ->]. by rewrite !app_nil_r, app_assoc.
  - destruct Hs as (x & -> & ->). by rewrite !app_nil_r, <-app_assoc.
  - destruct Hs as [-> ->]. by rewrite !app_nil_r.
  - destruct Hs as [-> ->]. by rewrite !app_nil_r.
Qed.

(** A blocking queue is a queue: as for the bounded queue, with [drain], which
    takes everything at once. *)
Theorem blocking_queue_correct es s h :
  reaches (BlockingQueue.make (T := T)) es s h →
  (∀ e o, step e s = Some o → is_done o = true) ∧
  replays blocking_spec [] h (data s) ∧
  entered h = got_out h ++ data s ∧
  ∀ es' s' h', reaches s es' s' h' → Forall (λ e, internal e = true) es' →
    (length es' ≤ measure s)%nat ∧
    ((∀ tid x, threads s' !! tid = Some x → x = Waiting notEmpty_ take ∧ data s' = []) ∨
     ∃ e o, internal e = true ∧ step e s' = Some o).
Proof.
  intros Hr. assert (inv (BlockingQueue.make (T := T))) as Hi0 by (by apply monitor_inv_make).
  pose proof (reaches_inv _ _ _ _ Hi0 Hr) as Hi.
  assert (replays blocking_spec [] h (data s)) as Hrep.
  { refine (reaches_replays (λ q, q) blocking_spec _ _ _ _ _ Hi0 Hr). intros m q r q' signals _. destruct m as [x| | |]; cbn.
    - by intros [= <- <- <-].
    - destruct q as [|x q]; [done|]. cbn. intros [= <- <- <-]. by exists x.
    - by intros [= <- <- <-].
    - by intros [= <- <- <-]. }
  split_and!; [| |by apply blocking_fifo|]; [|done|].
  - intros e o Hs. by destruct (step_done e s o Hi Hs) as [(s' & h' & -> & _)|(f & _ & [])].
  - intros es' s' h' Hr' Hint. destruct (settles s es' s' h' Hi Hr' Hint) as [Hb [Hset|Hstep]]; (split; [done|]); [left|by right].
    intros tid x Hx. destruct (Hset tid x Hx) as (c & m & -> & Hre).
    pose proof (inv_labelled _ (reaches_inv _ _ _ _ Hi Hr') tid c m Hx) as Hu.
    destruct m, c; try done. split; [done|]. injection Hre as Hre. by apply nil_length_inv.
Qed.
End blocking_theorems.

(** * The latch *)
Section latch.
Import CountDownLatch.

#[global] Instance latch_balanced : Balanced Z condition member result.
Proof.
  refine {| ok n := INT_MIN ≤ n ≤ INT_MAX; uses m := match m with wait => Some condition_ | _ => None end;
            ready _ n := if 0 <? n then Some O else None;
            tolerated f := f = Undefined "int overflow" |}.
  intros m n Hn. destruct m; cbn.
  - destruct (0 <? n) eqn:E; cbn; rewrite ?E; [done|]. split; [done|]. intros []. by right.
  - unfold int32. destruct (in_int32 (n - 1)) eqn:Ei; [cbn|done].
    split; [unfold in_int32 in Ei; lia|]. intros [].
    destruct (Z.eqb_spec (n - 1) 0); [left; constructor|].
    destruct (Z.ltb_spec 0 n); [rewrite (proj2 (Z.ltb_lt 0 (n - 1))) by lia; weigh|].
    right. by rewrite (proj2 (Z.ltb_ge 0 (n - 1))) by lia.
  - split; [done|]. intros []. destruct (0 <? n); [weigh|by right].
Defined.

Definition latch_spec (m : member) (n : Z) (r : result) (n' : Z) : Prop :=
  match m with
  | wait => r = Void ∧ n ≤ 0 ∧ n' = n
  | countDown => r = Void ∧ n' = n - 1
  | getCount => r = Int n ∧ n' = n
  end.

Fixpoint count_downs (h : list (Z * member * result)) : Z :=
  match h with
  | [] => 0
  | (_, countDown, _) :: h => 1 + count_downs h
  | _ :: h => count_downs h
  end.

Lemma count_downs_app h h' : count_downs (h ++ h') = count_downs h + count_downs h'.
Proof. induction h as [|[[tid []] r] h IH]; cbn; lia. Qed.

Lemma latch_counts n h n' : replays latch_spec n h n' → n' = n - count_downs h.
Proof.
  induction 1 as [|h n' tid m r n'' _ IH Hs]; [cbn; lia|].
  rewrite count_downs_app. destruct m; cbn in *; naive_solver lia.
Qed.

Lemma latch_waits n h n' h1 tid r h2 : replays latch_spec n h n' →
  h = h1 ++ (tid, wait, r) :: h2 → n ≤ count_downs h1.
Proof.
  intros Hr. revert h2. induction Hr as [|h n' tid' m r' n'' Hr IH Hs]; intros h2 Eq; [by destruct h1|].
  destruct h2 as [|x h2 _] using rev_ind.
  - apply app_inj_tail in Eq as [-> [= -> -> ->]]. pose proof (latch_counts _ _ _ Hr).
    destruct Hs as (_ & Hle & _). lia.
  - rewrite app_comm_cons, app_assoc in Eq. apply app_inj_tail in Eq as [Eq _]. by eapply IH.
Qed.

Lemma latch_inv n : INT_MIN ≤ n ≤ INT_MAX → inv (CountDownLatch.make n).
Proof. intros Hn. by apply monitor_inv_make. Qed.

Lemma latch_replays n es s h : INT_MIN ≤ n ≤ INT_MAX → reaches (CountDownLatch.make n) es s h → replays latch_spec n h (data s).
Proof.
  intros Hn Hr. refine (reaches_replays (λ n, n) latch_spec _ _ _ _ _ (latch_inv n Hn) Hr).
  intros m k r k' signals _. destruct m; cbn.
  - destruct (Z.ltb_spec 0 k); [done|]. by intros [= <- <- <-].
  - intros Hs. destruct_done Hs. unfold int32 in E. destruct_done E. injection E as <-. by injection Hs as <- <- <-.
  - by intros [= <- <- <-].
Qed.

(** Only counting down fails, at the smallest [int]. *)
Lemma latch_fault s e f : inv s → step e s = Some (Fault f) → data s = INT_MIN.
Proof.
  intros Hi. pose proof (inv_ok _ Hi) as Hok. cbn in Hok. destruct e as [tid m|tid|tid wakes|tid]; cbn [step].
  - destruct (threads s !! tid); [done|]. by destruct (entry m).
  - destruct (threads s !! tid) as [[]|]; try done. by destruct (MutexLock.lock tid (mutex_ s)).
  - destruct (threads s !! tid) as [[|m|]|] eqn:E; try done.
    destruct (exclusive_inside s tid m (inv_exclusive _ Hi) E) as [-> ->]. destruct m; cbn.
    + destruct (0 <? data s); [done|]. by repeat case_match.
    + destruct (int32 (data s - 1)) eqn:Ei; cbn; [by repeat case_match|]. intros _.
      destruct (decide (INT_MIN ≤ data s - 1)); [|lia]. rewrite int32_ok in Ei; [done|lia].
    + by repeat case_match.
  - by destruct (threads s !! tid) as [[]|].
Qed.

Lemma latch_settled s tid x : inv s → settled s → threads s !! tid = Some x → x = Waiting condition_ wait.
Proof.
  intros Hi Hset Hx. destruct (Hset tid x Hx) as (c & m & -> & _).
  pose proof (inv_labelled _ Hi tid c m Hx) as Hu. by destruct m, c.
Qed.

(** A latch opens when it has been counted down and not before: a call of
    [wait] returns only after as many calls of [countDown] as the latch was
    made with; once there have been that many, all calls come to an end if no
    new ones are made; until then only calls of [wait] are left.  Nothing can
    fail but a [countDown] of the smallest [int]. *)
Theorem latch_correct n es s h :
  INT_MIN ≤ n ≤ INT_MAX → reaches (CountDownLatch.make n) es s h →
  (∀ e o, step e s = Some o → is_done o = true ∨ data s = INT_MIN) ∧
  data s = n - count_downs h ∧
  (∀ h1 tid r h2, h = h1 ++ (tid, wait, r) :: h2 → n ≤ count_downs h1) ∧
  ∀ es' s' h', reaches s es' s' h' → Forall (λ e, internal e = true) es' →
    (length es' ≤ measure s)%nat ∧
    ((∃ e o, internal e = true ∧ step e s' = Some o) ∨ threads s' = ∅ ∨
     (count_downs (h ++ h') < n ∧ ∀ tid x, threads s' !! tid = Some x → x = Waiting condition_ wait)).
Proof.
  intros Hn Hr. pose proof (latch_inv n Hn) as Hi0. pose proof (reaches_inv _ _ _ _ Hi0 Hr) as Hi.
  pose proof (latch_replays _ _ _ _ Hn Hr) as Hrep. split_and!.
  - intros e o Hs. destruct (step_done e s o Hi Hs) as [(s' & h' & -> & _)|(f & -> & _)]; [by left|right].
    by eapply latch_fault.
  - by apply latch_counts.
  - intros h1 tid r h2. by eapply latch_waits.
  - intros es' s' h' Hr' Hint. destruct (settles s es' s' h' Hi Hr' Hint) as [Hb [Hset|Hstep]]; (split; [done|]); [right|by left].
    pose proof (latch_replays _ _ _ _ Hn (reaches_trans _ _ _ _ _ _ _ Hr Hr')) as Hrep'.
    destruct (decide (threads s' = ∅)) as [He|(tid & x & Hx)%map_choose]; [by left|right].
    split; [|intros i y Hy; by apply (latch_settled s' i y); [eapply (reaches_inv s)|..]].
    destruct (Hset tid x Hx) as (c & m & -> & Hre). apply latch_counts in Hrep'.
    cbn in Hre. destruct (Z.ltb_spec 0 (data s')); [lia|done].
Qed.
End latch.

(** * Examples *)
Module Sample.

(** A circular buffer as a list with a capacity. *)
Record ring := mkRing { ring_capacity : Z; ring_items : list Z }.
#[global] Instance ring_buffer : CircularBuffer ring Z := {
  with_capacity n := Done (mkRing n []);
  capacity := ring_capacity;
  full b := bool_decide (szof (ring_items b) = ring_capacity b);
  empty b := bool_decide (ring_items b = []);
  size b := szof (ring_items b);
  front b := head (ring_items b);
  push_back x b := mkRing (ring_capacity b) (ring_items b ++ [x]);
  pop_front b := Done (mkRing (ring_capacity b) (tail (ring_items b)))
}.
#[global] Instance ring_laws : CircularBufferLaws ring Z.
Proof.
  refine {| items := ring_items |}; try done.
  - by intros n b [= <-].
  - intros b _. by eexists.
Defined.

Section bounded_sample.
Import BoundedBlockingQueue.

(** Two threads put into a queue with room for one element; a third takes. *)
Definition history : list (event (member Z)) :=
  [Call 1 (put 7); Lock 1; Call 2 (put 8); Run 1 []; Lock 2; Run 2 []; Call 3 take; Wake 2; Lock 3; Run 3 []; Lock 2; Run 2 []].

Theorem bounded_queue_correct_witness :
  ∃ s0 s h, BoundedBlockingQueue.make (B := ring) (T := Z) 1 = Done s0 ∧ reaches s0 history s h ∧
    h = [(1, put 7, Void); (3, take, Front 7); (2, put 8, Void)] ∧
    (puts h = takes h ++ items (data s)) ∧ ∀ e o, step e s = Some o → is_done o = true.
Proof.
  destruct (perform history (Monitor.make (mkRing 1 []))) as [[s h]|] eqn:E; [|by vm_compute in E].
  pose proof (perform_reaches _ _ _ _ E) as Hr.
  exists (Monitor.make (mkRing 1 [])), s, h. split; [reflexivity|]. split; [done|].
  split; [vm_compute in E; by injection E as <- <-|].
  destruct (bounded_queue_correct (B := ring) 1 (Monitor.make (mkRing 1 [])) history s h) as (H1 & H2 & H3 & _);
    [lia|reflexivity|done|by split].
Defined.
End bounded_sample.

Section blocking_sample.
Import BlockingQueue.

Theorem blocking_queue_correct_witness :
  ∃ s h, reaches (BlockingQueue.make (T := Z)) [Call 1 take; Lock 1; Run 1 []; Call 2 (put 5); Lock 2; Run 2 [1]] s h ∧
    entered h = got_out h ++ data s ∧ data s = [5].
Proof.
  destruct (perform [Call 1 take; Lock 1; Run 1 []; Call 2 (put 5); Lock 2; Run 2 [1]] (BlockingQueue.make (T := Z)))
    as [[s h]|] eqn:E; [|by vm_compute in E].
  pose proof (perform_reaches _ _ _ _ E) as Hr.
  exists s, h. split; [done|]. destruct (blocking_queue_correct _ s h Hr) as (_ & _ & H & _). split; [done|].
  vm_compute in E. by injection E as <- _.
Defined.
End blocking_sample.

Section latch_sample.
Import CountDownLatch.

Theorem latch_correct_witness :
  ∃ s h, reaches (CountDownLatch.make 1) [Call 1 wait; Lock 1; Run 1 []; Call 2 countDown; Lock 2; Run 2 []; Lock 1; Run 1 []] s h ∧
    h = [(2, countDown, Void); (1, wait, Void)] ∧ 1 ≤ count_downs [(2, countDown, Void)] ∧ data s = 1 - count_downs h.
Proof.
  destruct (perform [Call 1 wait; Lock 1; Run 1 []; Call 2 countDown; Lock 2; Run 2 []; Lock 1; Run 1 []] (CountDownLatch.make 1))
    as [[s h]|] eqn:E; [|by vm_compute in E].
  pose proof (perform_reaches _ _ _ _ E) as Hr.
  assert (h = [(2, countDown, Void); (1, wait, Void)]) as Hh by (vm_compute in E; by injection E as _ <-).
  exists s, h. split; [done|]. split; [done|].
  assert (INT_MIN ≤ 1 ≤ INT_MAX) as Hone by (unfold INT_MIN, INT_MAX; lia).
  destruct (latch_correct 1 _ s h Hone Hr) as (_ & H2 & H3 & _).
  split; [|done]. by apply (H3 _ 1 Void []).
Defined.
End latch_sample.
End Sample.
