(* ===== verification/ThreadPool.v ===== *)
(** The thread pool (src/IMServer/src/muduo/base: ThreadPool.h, ThreadPool.cc)
    and the part of Thread.cc it uses to join its threads.  The members that run
    under the mutex are a balanced monitor; around it, the worker threads test
    [running_], take tasks and run them, and other threads, or the tasks
    themselves, call the members of the pool.  [running_] is a plain [bool] that
    workers read without the mutex; the read is taken as one step.  Tasks are
    values, empty functions among them ([None]); what a task does is the calls
    made while it runs, and it is taken to return.  [start()] is one step. *)

From S2P Require Import Prelude Monitor.
Local Open Scope Z_scope.
Import Monitor.

Module ThreadPool.
Section pool.
Context {F : Type}.
Notation Task := (option F).

(** ** The members under the mutex *)

Inductive condition := notEmpty_ | notFull_.
Inductive member := run (task : Task) | take | stop | queueSize.
Inductive result := Void | Got (task : Task) | Size (n : Z).
#[global] Instance condition_eq_dec : EqDecision condition.
Proof. solve_decision. Defined.

Record guarded := mkGuarded { queue_ : list Task; maxQueueSize_ : Z; running_ : bool }.
Definition set_queue (q : list Task) (s : guarded) : guarded := mkGuarded q (maxQueueSize_ s) (running_ s).
Definition set_running (b : bool) (s : guarded) : guarded := mkGuarded (queue_ s) (maxQueueSize_ s) b.

(** [setMaxQueueSize( int )] *)
Definition setMaxQueueSize (maxSize : Z) (s : guarded) : guarded := mkGuarded (queue_ s) (u64 maxSize) (running_ s).

Definition isFull (locked : bool) (s : guarded) : outcome bool :=
  _ ← cassert locked "isLockedByThisThread()";
  Done ((0 <? maxQueueSize_ s) && (maxQueueSize_ s <=? szof (queue_ s))).

Definition members (locked : bool) (m : member) (s : guarded) : outcome (action guarded condition member result) :=
  match m with
  | run task =>
      full ← isFull locked s;
      if (full : bool) && running_ s then Done (Block notFull_ (run task))
      else if negb (running_ s) then Done (Finish Void s [])
      else
        full ← isFull locked s;
        _ ← cassert (negb full) "!isFull()";
        Done (Finish Void (set_queue (queue_ s ++ [task]) s) [Notify notEmpty_])
  | take =>
      if bool_decide (queue_ s = []) && running_ s then Done (Block notEmpty_ take)
      else
        match queue_ s with
        | task :: queue => Done (Finish (Got task) (set_queue queue s) (if 0 <? maxQueueSize_ s then [Notify notFull_] else []))
        | [] => Done (Finish (Got None) s [])
        end
  | stop => Done (Finish Void (set_running false s) [NotifyAll notEmpty_; NotifyAll notFull_])
  | queueSize => Done (Finish (Size (szof (queue_ s))) s [])
  end.
#[global] Instance pool_members : Guarded guarded condition member result := {
  section := members; entry _ := true
}.

(** ** The threads *)

(** Where a worker is in [runInThread()]. *)
Inductive role :=
  | Initialising        (* in [threadInitCallback_()] *)
  | Testing             (* [while ( running_ )] *)
  | Taking              (* in [take()] *)
  | InTask (f : F)      (* in [task()] *)
  | Exited.

(** [threads_] are the workers in order; [joining] are the threads in the loop
    of [stop()], with the workers left to join and whether [pthread_join] of the
    first has been called; [joined] are the workers whose [joined_] is set. *)
Record t := mk {
  pool : Monitor.t guarded condition member;
  threads_ : list Z;
  workers : gmap Z role;
  joining : gmap Z (list Z * bool);
  joined : gset Z
}.
Definition set_pool (p : Monitor.t guarded condition member) (s : t) : t :=
  mk p (threads_ s) (workers s) (joining s) (joined s).
Definition set_role (tid : Z) (r : role) (s : t) : t :=
  mk (pool s) (threads_ s) (<[tid := r]> (workers s)) (joining s) (joined s).
Definition set_joining (j : gmap Z (list Z * bool)) (s : t) : t := mk (pool s) (threads_ s) (workers s) j (joined s).
Definition set_joined (j : gset Z) (s : t) : t := mk (pool s) (threads_ s) (workers s) (joining s) j.

(** [ThreadPool()], [setMaxQueueSize( maxSize )]; [start( numThreads )], where
    the threads get the given ids. *)
Definition make (maxSize : Z) : t := mk (Monitor.make (setMaxQueueSize maxSize (mkGuarded [] 0 false))) [] ∅ ∅ ∅.
Definition start (ids : list Z) (s : t) : outcome t :=
  _ ← cassert (bool_decide (threads_ s = [])) "threads_.empty()";
  let p := pool s in
  Done (mk (Monitor.mk (set_running true (data p)) (mutex_ p) (threads p)) ids
    (list_to_map ((λ tid, (tid, Initialising)) <$> ids)) (joining s) (joined s)).

Inductive event :=
  | UserCall (tid : Z) (m : member)            (* a thread that is not in the loop of a worker calls a member *)
  | Mutex (e : Monitor.event member)           (* a step under the mutex *)
  | Test (tid : Z)                             (* a worker tests [running_] *)
  | Return (tid : Z)                           (* a task or [threadInitCallback_] returns *)
  | Join (tid : Z).                            (* a step of the loop of [stop()] *)

(** A thread that may call: another thread, or a worker in user code. *)
Definition user_code (tid : Z) (s : t) : bool :=
  match workers s !! tid with
  | None | Some Initialising | Some (InTask _) => true
  | _ => false
  end.
Definition free (tid : Z) (s : t) : bool :=
  match threads (pool s) !! tid, joining s !! tid with None, None => true | _, _ => false end.

Definition exited (tid : Z) (s : t) : bool := match workers s !! tid with Some Exited => true | _ => false end.

(** What happens after the section of a member: [take()] returns to the worker,
    which runs the task if it is one, and [stop()] goes on to join. *)
Definition after (h : list (Z * member * result)) (s : t) : t * list F :=
  match h with
  | [(tid, take, Got (Some f))] => (set_role tid (InTask f) s, [f])
  | [(tid, take, _)] => (set_role tid Testing s, [])
  | [(tid, stop, _)] => (set_joining (<[tid := (threads_ s, false)]> (joining s)) s, [])
  | _ => (s, [])
  end.

Definition call (tid : Z) (m : member) (s : t) : option (outcome t) :=
  match Monitor.step (Call tid m) (pool s) with
  | Some (Done (p, _)) => Some (Done (set_pool p s))
  | Some (Fault f) => Some (Fault f)
  | None => None
  end.
Definition silent (m : option (outcome t)) : option (outcome (t * list F)) :=
  match m with Some m => Some (s ← m; Done (s, [])) | None => None end.

(** A step and the tasks it starts. *)
Definition step (e : event) (s : t) : option (outcome (t * list F)) :=
  match e with
  | UserCall tid m =>
      if user_code tid s && free tid s then
        match m with
        | take => None
        | run task =>
            if bool_decide (threads_ s = []) then
              match task with
              | Some f => Some (Done (s, [f]))
              | None => Some (Fault (Thrown "bad_function_call"))
              end
            else silent (call tid m s)
        | _ => silent (call tid m s)
        end
      else None
  | Mutex (Call _ _) => None
  | Mutex e =>
      match Monitor.step e (pool s) with
      | Some (Done (p, h)) => Some (Done (after h (set_pool p s)))
      | Some (Fault f) => Some (Fault f)
      | None => None
      end
  | Test tid =>
      match workers s !! tid with
      | Some Testing =>
          if running_ (data (pool s)) then silent (call tid take (set_role tid Taking s))
          else Some (Done (set_role tid Exited s, []))
      | _ => None
      end
  | Return tid =>
      match workers s !! tid with
      | Some Initialising | Some (InTask _) => if free tid s then Some (Done (set_role tid Testing s, [])) else None
      | _ => None
      end
  | Join tid =>
      match joining s !! tid with
      | Some ([], _) => Some (Done (set_joining (delete tid (joining s)) s, []))
      | Some (w :: ws, false) =>
          Some (_ ← cassert (bool_decide (w ∉ joined s)) "!joined_";
                Done (set_joining (<[tid := (w :: ws, true)]> (joining s)) (set_joined ({[ w ]} ∪ joined s) s), []))
      | Some (w :: ws, true) =>
          (* [pthread_join] of the calling thread itself fails at once *)
          if exited w s || bool_decide (w = tid)
          then Some (Done (set_joining (<[tid := (ws, false)]> (joining s)) s, [])) else None
      | None => None
      end
  end.

(** The task that a step accepts: a call of [run] that neither waits nor finds
    the pool stopped. *)
Definition has_room (s : guarded) : bool := negb ((0 <? maxQueueSize_ s) && (maxQueueSize_ s <=? szof (queue_ s))).
Definition accepts (e : event) (s : t) : list Task :=
  match e with
  | Mutex (Run tid _) =>
      match threads (pool s) !! tid with
      | Some (Inside (run task)) => if running_ (data (pool s)) && has_room (data (pool s)) then [task] else []
      | _ => []
      end
  | _ => []
  end.

(** Histories, with the tasks accepted and the tasks started, in order. *)
Inductive reaches (s0 : t) : list event → t → list Task → list F → Prop :=
  | reaches_nil : reaches s0 [] s0 [] []
  | reaches_snoc es s ts fs e s' fs' :
      reaches s0 es s ts fs → step e s = Some (Done (s', fs')) →
      reaches s0 (es ++ [e]) s' (ts ++ accepts e s) (fs ++ fs').

Lemma pool_reaches_trans s0 es s ts fs es' s' ts' fs' :
  reaches s0 es s ts fs → reaches s es' s' ts' fs' → reaches s0 (es ++ es') s' (ts ++ ts') (fs ++ fs').
Proof.
  intros H. induction 1 as [|es' s' ts' fs' e s'' fs'' _ IH Hs]; [by rewrite !app_nil_r|].
  rewrite !app_assoc. by econstructor.
Qed.

(** A history, executed. *)
Fixpoint perform (es : list event) (s : t) : option (t * list Task * list F) :=
  match es with
  | [] => Some (s, [], [])
  | e :: es =>
      match step e s with
      | Some (Done (s', fs)) =>
          match perform es s' with Some (s'', ts', fs') => Some (s'', accepts e s ++ ts', fs ++ fs') | None => None end
      | _ => None
      end
  end.
Lemma pool_perform_reaches es s s' ts fs : perform es s = Some (s', ts, fs) → reaches s es s' ts fs.
Proof.
  revert s s' ts fs. induction es as [|e es IH]; intros s s' ts fs; cbn; [intros [= <- <- <-]; constructor|].
  destruct (step e s) as [[[s1 fs1]|]|] eqn:Hs; try done.
  destruct (perform es s1) as [[[s2 ts2] fs2]|] eqn:Hp; [|done]. intros [= <- <- <-].
  apply (pool_reaches_trans _ [e] s1 (accepts e s) fs1); [|by apply IH].
  apply (reaches_snoc s [] s [] [] e s1 fs1); [constructor|done].
Qed.

(** * Balance *)

#[global] Instance pool_balanced : Balanced guarded condition member result.
Proof.
  refine {| ok s := maxQueueSize_ s = 0 ∨ 0 < maxQueueSize_ s ∧ szof (queue_ s) ≤ maxQueueSize_ s;
            uses m := match m with take => Some notEmpty_ | run _ => Some notFull_ | _ => None end;
            ready c s :=
              match c with
              | notEmpty_ => if running_ s then Some (length (queue_ s)) else None
              | notFull_ => if running_ s && (0 <? maxQueueSize_ s) then Some (Z.to_nat (maxQueueSize_ s - szof (queue_ s))) else None
              end;
            tolerated _ := False |}.
  intros m [q n r] Hok. cbn in Hok. destruct m as [task| | |]; cbn.
  - destruct (0 <? n) eqn:En; cbn; [destruct (n <=? szof q) eqn:Ef; cbn|]; destruct r; cbn; rewrite ?En; cbn.
    + split; [done|]. split; [done|]. f_equal. lia.
    + split; [lia|]. intros []; by right.
    + split; [right; rewrite length_app; cbn; lia|]. intros []; rewrite ?En, length_app; weigh.
    + split; [lia|]. intros []; by right.
    + split; [lia|]. intros []; rewrite ?En, ?length_app; [weigh|by right].
    + split; [lia|]. intros []; by right.
  - destruct q as [|task q], r; cbn; [done| | |].
    + split; [lia|]. intros []; by right.
    + cbn [length] in Hok. split; [lia|]. destruct (0 <? n) eqn:En; intros []; rewrite ?En; (weigh || by right).
    + cbn [length] in Hok. split; [lia|]. intros []; by right.
  - split; [lia|]. intros []; left; [apply list_elem_of_here|apply list_elem_of_further, list_elem_of_here].
  - split; [done|]. intros []; [destruct r|destruct (r && (0 <? n))]; (weigh || by right).
Defined.

(** ** What the members do *)

Lemma members_block c m m' d : section (R := result) true m d = Done (Block c m') → m' = m.
Proof.
  destruct m as [task| | |]; cbn.
  - destruct (_ && running_ d); cbn; [by intros [= _ <-]|]. destruct (running_ d); cbn; [|done].
    by destruct (cassert _ _).
  - destruct (_ && running_ d); cbn; [by intros [= _ <-]|]. by destruct (queue_ d).
  - done.
  - done.
Qed.

Definition came_back (m : member) (d d' : guarded) (r : result) : Prop :=
  match m with
  | run task => d' = if running_ d && has_room d then set_queue (queue_ d ++ [task]) d else d
  | take => match queue_ d with
            | task :: q => r = Got task ∧ d' = set_queue q d
            | [] => r = Got None ∧ d' = d ∧ running_ d = false
            end
  | stop => d' = set_running false d
  | queueSize => d' = d
  end.

Lemma members_finish m d r d' signals : section true m d = Done (Finish r d' signals) → came_back m d d' r.
Proof.
  destruct m as [task| | |]; cbn.
  - unfold has_room. destruct (_ && (_ <=? _)) eqn:Ef; destruct (running_ d) eqn:Er; cbn; try done; by intros [= <- <- <-].
  - destruct (queue_ d) as [|task q]; cbn; [destruct (running_ d) eqn:Er; cbn; [done|]|]; by intros [= <- <- <-].
  - by intros [= <- <- <-].
  - by intros [= <- <- <-].
Qed.

Lemma running_stays m d d' r : came_back m d d' r → running_ d = false → running_ d' = false.
Proof.
  destruct m as [task| | |]; cbn.
  - intros -> Hr. by rewrite Hr.
  - destruct (queue_ d); naive_solver.
  - by intros -> _.
  - by intros ->.
Qed.

(** ** The invariant *)

(** A thread in the loop of [stop()] that has joined, or is joining, the first
    worker. *)
Definition begun (ids : list Z) (x : list Z * bool) : Prop := x ≠ (ids, false).
(** It has set [joined_] of the workers before the ones it has left. *)
Definition marked (ids : list Z) (x : list Z * bool) (j : gset Z) : Prop :=
  ∃ pre, ids = pre ++ x.1 ∧ j = list_to_set (pre ++ if x.2 then option_list (head x.1) else []).

Record pool_inv (ids : list Z) (s : t) : Prop := mkPoolInv {
  p_monitor : Monitor.inv (pool s);
  p_taking tid : workers s !! tid = Some Taking ↔ labels (pool s) !! tid = Some take;
  p_idle tid : workers s !! tid = Some Testing ∨ workers s !! tid = Some Exited →
    labels (pool s) !! tid = None ∧ joining s !! tid = None;
  p_joining tid x : joining s !! tid = Some x → labels (pool s) !! tid = None ∧ running_ (data (pool s)) = false;
  p_exited tid : workers s !! tid = Some Exited → running_ (data (pool s)) = false;
  p_threads : threads_ s = ids;
  p_workers tid : tid ∈ ids ↔ is_Some (workers s !! tid);
  p_suffix tid l b : joining s !! tid = Some (l, b) → ∃ pre, ids = pre ++ l;
  p_begun tid x : joining s !! tid = Some x → begun ids x →
    marked ids x (joined s) ∧ ∀ tid' y, joining s !! tid' = Some y → begun ids y → tid' = tid;
  p_joined : joined s = ∅ ∨ ∃ w, head ids = Some w ∧ w ∈ joined s
}.

Lemma free_true tid s : free tid s = true ↔ labels (pool s) !! tid = None ∧ joining s !! tid = None.
Proof.
  unfold free. rewrite labels_none. destruct (threads (pool s) !! tid), (joining s !! tid); naive_solver.
Qed.

(** A call of a member by a thread with none in progress. *)
Lemma call_outline tid m s : Monitor.inv (pool s) → labels (pool s) !! tid = None →
  ∃ p, call tid m s = Some (Done (set_pool p s)) ∧ Monitor.inv p ∧
    labels p = <[tid := m]> (labels (pool s)) ∧ data p = data (pool s).
Proof.
  intros Hi Hl. apply labels_none in Hl. unfold call.
  destruct (Monitor.step (R := result) (Call tid m) (pool s)) as [o|] eqn:Hs; [|cbn in Hs; by rewrite Hl in Hs].
  destruct (step_done _ _ _ Hi Hs) as [(p & h & -> & He & Hi')|(f & _ & [])].
  exists p. split; [done|]. split; [done|].
  apply (effect_outline _ _ _ _ members_block) in He.
  inversion He as [? ? ? _ _ HL HD|? ? Hne|]; simplify_eq; [done|by destruct (Hne tid m)].
Qed.

(** A step concerns one thread: it is enough to look at that one. *)
Lemma inv_local ids tid s s' :
  pool_inv ids s → Monitor.inv (pool s') → threads_ s' = threads_ s →
  (∀ i, i ≠ tid → workers s' !! i = workers s !! i ∧ labels (pool s') !! i = labels (pool s) !! i ∧ joining s' !! i = joining s !! i) →
  (running_ (data (pool s)) = false → running_ (data (pool s')) = false) →
  (∀ i y, i ≠ tid → joining s !! i = Some y → begun ids y → joined s' = joined s) →
  joined s' = joined s ∨ (∃ w, head ids = Some w ∧ w ∈ joined s') →
  (workers s' !! tid = Some Taking ↔ labels (pool s') !! tid = Some take) →
  (workers s' !! tid = Some Testing ∨ workers s' !! tid = Some Exited → labels (pool s') !! tid = None ∧ joining s' !! tid = None) →
  (workers s' !! tid = Some Exited → running_ (data (pool s')) = false) →
  (is_Some (workers s' !! tid) ↔ is_Some (workers s !! tid)) →
  (∀ l b, joining s' !! tid = Some (l, b) →
    labels (pool s') !! tid = None ∧ running_ (data (pool s')) = false ∧ (∃ pre, ids = pre ++ l) ∧
    (begun ids (l, b) → marked ids (l, b) (joined s') ∧ ∀ i y, i ≠ tid → joining s !! i = Some y → ¬ begun ids y)) →
  pool_inv ids s'.
Proof.
  intros [Hm Ht Hi Hj He Hth Hw Hs Hb Hjn] Hm' Hth' Hother Hrun Hjd Hjn' Ht' Hi' He' Hw' Hj'. split; [done|..].
  - intros i. destruct (decide (i = tid)) as [->|Hne]; [done|]. destruct (Hother i Hne) as (-> & -> & _). apply Ht.
  - intros i. destruct (decide (i = tid)) as [->|Hne]; [done|]. destruct (Hother i Hne) as (-> & -> & ->). apply Hi.
  - intros i [l b]. destruct (decide (i = tid)) as [->|Hne].
    + intros Hx. by destruct (Hj' _ _ Hx) as (? & ? & _).
    + destruct (Hother i Hne) as (_ & -> & ->). intros Hx. destruct (Hj i _ Hx). auto.
  - intros i. destruct (decide (i = tid)) as [->|Hne]; [done|]. destruct (Hother i Hne) as (-> & _). eauto.
  - congruence.
  - intros i. destruct (decide (i = tid)) as [->|Hne]; [by rewrite Hw', Hw|]. destruct (Hother i Hne) as (-> & _). apply Hw.
  - intros i l b. destruct (decide (i = tid)) as [->|Hne].
    + intros Hx. by destruct (Hj' _ _ Hx) as (_ & _ & ? & _).
    + destruct (Hother i Hne) as (_ & _ & ->). apply Hs.
  - intros i [l b]. destruct (decide (i = tid)) as [->|Hne].
    + intros Hx Hbeg. destruct (Hj' _ _ Hx) as (_ & _ & _ & Hb'). destruct (Hb' Hbeg) as [Hw0 Hno].
      split; [done|]. intros i y Hy Hby. destruct (decide (i = tid)) as [->|Hne]; [done|].
      destruct (Hother i Hne) as (_ & _ & E). rewrite E in Hy. by destruct (Hno i y Hne Hy).
    + destruct (Hother i Hne) as (_ & _ & ->). intros Hx Hbeg. destruct (Hb i _ Hx Hbeg) as [Hmk Hu].
      rewrite (Hjd i _ Hne Hx Hbeg). split; [done|]. intros i' [l' b'] Hy Hby.
      destruct (decide (i' = tid)) as [->|Hne'].
      * destruct (Hj' _ _ Hy) as (_ & _ & _ & Hb'). destruct (Hb' Hby) as [_ Hno]. by destruct (Hno i _ Hne Hx).
      * destruct (Hother i' Hne') as (_ & _ & E). rewrite E in Hy. by eapply Hu.
  - destruct Hjn' as [->|?]; auto.
Qed.

(** ** Every step keeps it *)

Lemma start_inv maxSize ids s :
  start ids (make maxSize) = Done s → pool_inv ids s ∧ queue_ (data (pool s)) = [].
Proof.
  intros [= <-]. assert (∀ tid r, (list_to_map ((λ tid, (tid, Initialising)) <$> ids) : gmap Z role) !! tid = Some r →
    r = Initialising ∧ tid ∈ ids) as Hinit.
  { intros tid r Hr. apply elem_of_list_to_map_2, list_elem_of_fmap in Hr as (x & [= -> ->] & Hx). done. }
  split; [|done]. split; cbn; try done.
  - apply monitor_inv_make. cbn. pose proof (wrapu_range 64 maxSize). lia.
  - intros tid. rewrite lookup_fmap, lookup_empty. split; [|done]. by intros [? _]%Hinit.
  - by intros tid [? _]%Hinit.
  - intros tid. split; [|by intros [r [_ ?]%Hinit]]. intros Hin.
    destruct (list_to_map _ !! tid) eqn:E; [done|]. apply not_elem_of_list_to_map_2 in E.
    destruct E. apply list_elem_of_fmap. exists (tid, Initialising). split; [done|]. apply list_elem_of_fmap. eauto.
  - by left.
Qed.

Lemma user_call_inv ids tid m s p : pool_inv ids s → user_code tid s = true → free tid s = true → m ≠ take →
  Monitor.inv p → labels p = <[tid := m]> (labels (pool s)) → data p = data (pool s) →
  pool_inv ids (set_pool p s).
Proof.
  intros Hi Hu Hf Hm Hp Hl Hd. apply free_true in Hf as [Hf1 Hf2]. unfold user_code in Hu.
  apply (inv_local ids tid s); cbn; rewrite ?Hl, ?Hd, ?lookup_insert_eq; try done; try by left.
  - intros i Hne. by rewrite lookup_insert_ne.
  - split; [|congruence]. intros E. by rewrite E in Hu.
  - intros [E|E]; by rewrite E in Hu.
  - intros E. by rewrite E in Hu.
  - intros l b. by rewrite Hf2.
Qed.

(** The tasks of a queue that are not empty functions. *)
Notation real := (omap (M := list) (λ task : Task, task)).

(** What a step accepts goes to the back of the queue, what it starts comes from
    the front. *)
Definition in_order (e : event) (s s' : t) (fs : list F) : Prop :=
  maxQueueSize_ (data (pool s')) = maxQueueSize_ (data (pool s)) ∧
  real (queue_ (data (pool s))) ++ real (accepts e s) = fs ++ real (queue_ (data (pool s'))).

Definition good (ids : list Z) (e : event) (s : t) (o : outcome (t * list F)) : Prop :=
  ∃ s' fs, o = Done (s', fs) ∧ pool_inv ids s' ∧ in_order e s s' fs.

(** Nothing under the mutex. *)
Definition plain (e : event) : bool := match e with Mutex _ => false | _ => true end.
Lemma plain_order e s s' : plain e = true → data (pool s') = data (pool s) → in_order e s s' [].
Proof. unfold in_order. destruct e; try done; intros _ ->; (split; [done|]); by rewrite app_nil_r. Qed.

Lemma return_inv ids s p tid m r :
  pool_inv ids s → Monitor.inv p → labels p = delete tid (labels (pool s)) →
  labels (pool s) !! tid = Some m → came_back m (data (pool s)) (data p) r →
  pool_inv ids (after [(tid, m, r)] (set_pool p s)).1.
Proof.
  intros Hi Hp Hl Hm Hc. pose proof (running_stays _ _ _ _ Hc) as Hrun.
  assert (joining s !! tid = None) as Hj.
  { destruct (joining s !! tid) as [x|] eqn:E; [|done]. destruct (p_joining _ _ Hi tid x E). congruence. }
  assert (labels p !! tid = None) as Hl' by (rewrite Hl; apply lookup_delete_eq).
  assert (∀ i, i ≠ tid → labels p !! i = labels (pool s) !! i) as Hother by (intros i Hne; rewrite Hl; by apply lookup_delete_ne).
  assert (m = take → is_Some (workers s !! tid)) as Htake.
  { intros ->. exists Taking. by apply (p_taking _ _ Hi). }
  assert (m ≠ take → workers s !! tid ≠ Some Taking ∧ workers s !! tid ≠ Some Testing ∧ workers s !! tid ≠ Some Exited) as Hrole.
  { intros Hne. split; [|split]; intros E.
    - apply (p_taking _ _ Hi) in E. congruence.
    - destruct (p_idle _ _ Hi tid) as [E' _]; [by left|congruence].
    - destruct (p_idle _ _ Hi tid) as [E' _]; [by right|congruence]. }
  assert (∀ r', m = take → (r' = Testing ∨ ∃ f, r' = InTask f) → pool_inv ids (set_role tid r' (set_pool p s))) as Hback.
  { intros r' -> Hr'. apply (inv_local ids tid s); cbn; rewrite ?lookup_insert_eq, ?Hl'; try done; try by left.
    - intros i Hne. rewrite lookup_insert_ne by done. auto.
    - split; [|done]. intros [= ->]. naive_solver.
    - intros [= ->]. naive_solver.
    - split; [intros _; auto|by eexists].
    - intros l b. by rewrite Hj. }
  assert (m ≠ take → m ≠ stop → pool_inv ids (set_pool p s)) as Hsame.
  { intros Hne _. destruct (Hrole Hne) as (H1 & H2 & H3). apply (inv_local ids tid s); cbn; rewrite ?Hl'; try done; try by left.
    - naive_solver.
    - intros l b. by rewrite Hj. }
  destruct m as [task| | |]; cbn; [by apply Hsame| | |by apply Hsame].
  - destruct r as [|[f|]|]; cbn; apply Hback; eauto.
  - destruct (Hrole ltac:(done)) as (H1 & H2 & H3). apply (inv_local ids tid s); cbn; rewrite ?Hl', ?lookup_insert_eq; try done; try by left.
    + intros i Hne. rewrite lookup_insert_ne by done. auto.
    + naive_solver.
    + intros l b [= <- <-]. rewrite (p_threads _ _ Hi). split; [done|]. split; [by rewrite Hc|].
      split; [by exists []|]. unfold begun. done.
Qed.

Lemma return_order ids s p tid wakes m r :
  pool_inv ids s → threads (pool s) !! tid = Some (Inside m) → came_back m (data (pool s)) (data p) r →
  in_order (Mutex (Run tid wakes)) s (after [(tid, m, r)] (set_pool p s)).1 (after [(tid, m, r)] (set_pool p s)).2.
Proof.
  intros _ Hm Hc. split.
  { destruct m as [task| | |]; cbn in Hc |- *.
    - rewrite Hc. by destruct (_ && _).
    - destruct (queue_ (data (pool s))) as [|[f|] q]; [destruct Hc as (-> & Hd & _)|destruct Hc as [-> Hd]..]; cbn; by rewrite Hd.
    - by rewrite Hc.
    - by rewrite Hc. }
  cbn [accepts]. rewrite Hm. destruct m as [task| | |]; cbn in Hc |- *.
  - rewrite Hc. destruct (_ && has_room _); cbn; [|by rewrite app_nil_r]. by rewrite omap_app.
  - rewrite app_nil_r. destruct (queue_ (data (pool s))) as [|task q] eqn:Eq.
    + destruct Hc as (-> & Hd & _). cbn. by rewrite Hd, Eq.
    + destruct Hc as [-> Hd]. destruct task; cbn; by rewrite Hd.
  - by rewrite Hc, app_nil_r.
  - by rewrite Hc, app_nil_r.
Qed.

(** A step after which no member returns accepts nothing. *)
Lemma accepts_quiet e s p : effect (R := result) (pool s) e p [] → accepts (Mutex e) s = [].
Proof.
  intros He. inversion He as [| | |tid wakes m c m' Hin Hsec|]; subst; try done.
  cbn [accepts]. rewrite Hin. destruct m as [task| | |]; try done. cbn in Hsec. unfold has_room.
  destruct (_ && (_ <=? _)); destruct (running_ (data (pool s))); done.
Qed.

Lemma mutex_step e s o : step (Mutex e) s = Some o → (∀ tid m, e ≠ Call tid m) ∧
  ∃ m, Monitor.step e (pool s) = Some m ∧ o = match m with Done (p, h) => Done (after h (set_pool p s)) | Fault f => Fault f end.
Proof.
  assert (∀ m, match m with
    | Some (Done (p, h)) => Some (Done (after h (set_pool p s)))
    | Some (Fault f) => Some (Fault f)
    | None => None
    end = Some o → ∃ m', m = Some m' ∧ o = match m' with Done (p, h) => Done (after h (set_pool p s)) | Fault f => Fault f end) as H.
  { intros [[[p h]|f]|]; [..|done]; intros [= <-]; by eexists. }
  destruct e as [tid m|tid|tid wakes|tid]; [done|..]; intros Hs; (split; [done|]); by apply H.
Qed.

Lemma mutex_ok ids s e o :
  pool_inv ids s → step (Mutex e) s = Some o → good ids (Mutex e) s o.
Proof.
  intros Hi Hs. destruct (mutex_step _ _ _ Hs) as (Hne & m & Hm & ->).
  destruct (step_done _ _ _ (p_monitor _ _ Hi) Hm) as [(p & h & -> & He & Hp)|(f & _ & [])].
  pose proof (effect_outline _ _ _ _ members_block He) as Ho.
  inversion Ho as [tid m' ? ? ? ?|? ? _ Hl Hd|tid wakes m' r signals ? Hin Hsec Hl]; subst; [by destruct (Hne tid m')| |].
  - exists (set_pool p s), []. split; [done|]. split.
    + destruct Hi as [Hm' Ht Hi Hj He' Hth Hw Hsu Hb Hjn]. split; cbn; rewrite ?Hl, ?Hd; done.
    + unfold in_order. rewrite (accepts_quiet _ _ _ He). cbn. by rewrite Hd, app_nil_r.
  - pose proof (members_finish _ _ _ _ _ Hsec) as Hc.
    exists (after [(tid, m', r)] (set_pool p s)).1, (after [(tid, m', r)] (set_pool p s)).2.
    split; [by destruct (after _ _)|]. split; [|by eapply return_order].
    eapply return_inv; try done. apply labels_some. by exists (Inside m').
Qed.

(** A task or [threadInitCallback_] returns, or the loop of a worker ends. *)
Lemma role_inv ids tid r s : pool_inv ids s → is_Some (workers s !! tid) → workers s !! tid ≠ Some Taking →
  r = Testing ∨ r = Exited ∧ running_ (data (pool s)) = false →
  labels (pool s) !! tid = None → joining s !! tid = None → pool_inv ids (set_role tid r s).
Proof.
  intros Hi Hw Ht Hr Hl Hj. apply (inv_local ids tid s); cbn; rewrite ?lookup_insert_eq, ?Hl; try done; try by left.
  - apply Hi.
  - intros i Hne. by rewrite lookup_insert_ne.
  - naive_solver.
  - naive_solver.
  - intros l b. by rewrite Hj.
Qed.

Lemma test_ok ids s tid o : pool_inv ids s → step (Test tid) s = Some o → good ids (Test tid) s o.
Proof.
  intros Hi. cbn. destruct (workers s !! tid) as [[| | | |]|] eqn:Ew; try done.
  destruct (p_idle _ _ Hi tid) as [Hl Hj]; [by left|].
  destruct (running_ (data (pool s))) eqn:Er.
  - destruct (call_outline tid take (set_role tid Taking s) (p_monitor _ _ Hi) Hl) as (p & -> & Hp & Hlp & Hd).
    cbn. intros [= <-]. eexists _, []. split; [done|]. split; [|by apply plain_order; [|cbn; rewrite Hd]].
    apply (inv_local ids tid s); cbn; rewrite ?lookup_insert_eq, ?Hlp, ?Hd; cbn; rewrite ?lookup_insert_eq; try done; try by left.
    + intros i Hne. by rewrite !lookup_insert_ne.
    + by intros [|].
    + intros l b. by rewrite Hj.
  - intros [= <-]. eexists _, []. split; [done|]. split; [|by apply plain_order].
    apply role_inv; [done|rewrite Ew; by eexists|congruence|by right|done|done].
Qed.

Lemma leave_ok ids s tid o : pool_inv ids s → step (Return tid) s = Some o → good ids (Return tid) s o.
Proof.
  intros Hi. cbn. destruct (workers s !! tid) as [[| | | |]|] eqn:Ew; try done.
  all: destruct (free tid s) eqn:Ef; [|done]; apply free_true in Ef as [Hl Hj]; intros [= <-].
  all: eexists _, []; split; [done|]; split; [|by apply plain_order].
  all: apply role_inv; [done|rewrite Ew; by eexists|congruence|by left|done|done].
Qed.

(** A thread that has begun has marked the first worker. *)
Lemma marked_head w ws ids l b j : ids = w :: ws → begun ids (l, b) → marked ids (l, b) j → w ∈ j.
Proof.
  intros -> Hb (pre & Heq & ->). destruct pre as [|x pre]; cbn in Heq.
  - subst l. destruct b; [cbn; set_solver|done].
  - injection Heq as <- _. cbn. set_solver.
Qed.

Lemma join_ok ids s tid o : pool_inv ids s → step (Join tid) s = Some o →
  good ids (Join tid) s o ∨ o = Fault (AssertFailed "!joined_").
Proof.
  intros Hi. cbn. destruct (joining s !! tid) as [[l b]|] eqn:Ej; [|done].
  destruct (p_joining _ _ Hi tid _ Ej) as [Hl Hr]. destruct (p_suffix _ _ Hi _ _ _ Ej) as [pre Hpre].
  assert (workers s !! tid ≠ Some Testing ∧ workers s !! tid ≠ Some Exited) as [Hnt Hne].
  { split; intros E; (destruct (p_idle _ _ Hi tid) as [_ ?]; [by (left + right)|congruence]). }
  assert (∀ j jd, j = delete tid (joining s) ∨ (∃ l b, j = <[tid := (l, b)]> (joining s) ∧ (∃ pre, ids = pre ++ l) ∧
      (begun ids (l, b) → marked ids (l, b) jd ∧ ∀ i y, i ≠ tid → joining s !! i = Some y → ¬ begun ids y)) →
    (∀ i y, i ≠ tid → joining s !! i = Some y → begun ids y → jd = joined s) →
    jd = joined s ∨ (∃ w, head ids = Some w ∧ w ∈ jd) →
    pool_inv ids (set_joining j (set_joined jd s))) as Hset.
  { intros j jd Hjs Hjd Hjn. apply (inv_local ids tid s); cbn; try done; try by left.
    - apply Hi.
    - intros i Hne'. destruct Hjs as [->|(l' & b' & -> & _)]; [by rewrite lookup_delete_ne|by rewrite lookup_insert_ne].
    - apply Hi.
    - naive_solver.
    - intros l' b'. destruct Hjs as [->|(l0 & b0 & -> & Hpre' & Hb)]; [by rewrite lookup_delete_eq|].
      rewrite lookup_insert_eq. intros [= <- <-]. done. }
  assert (begun ids (l, b) → marked ids (l, b) (joined s) ∧ ∀ i y, i ≠ tid → joining s !! i = Some y → ¬ begun ids y) as Hbeg.
  { intros Hb. destruct (p_begun _ _ Hi tid _ Ej Hb) as [Hw Hu]. split; [done|].
    intros i y Hne' Hy Hb'. destruct Hne'. by eapply Hu. }
  destruct l as [|w ws]; [|destruct b].
  - intros [= <-]. left. eexists _, []. split; [done|]. split; [|by apply plain_order].
    apply (Hset _ (joined s)); [by left|done|by left].
  - destruct (_ || _); [|done]. intros [= <-]. left. eexists _, []. split; [done|]. split; [|by apply plain_order].
    apply (Hset _ (joined s)); [|done|by left]. right. exists ws, false. split; [done|]. split.
    + exists (pre ++ [w]). by rewrite <-app_assoc.
    + intros _. destruct Hbeg as [(pre' & Heq & Hj) Hu]; [done|]. split; [|done].
      exists (pre' ++ [w]). cbn in *. rewrite <-app_assoc, app_nil_r. done.
  - destruct (bool_decide (w ∉ joined s)) eqn:Ew; cbn; [|intros [= <-]; by right].
    intros [= <-]. left. eexists _, []. split; [done|]. split; [|by apply plain_order].
    apply bool_decide_eq_true in Ew.
    assert (w :: ws = ids → joined s = ∅) as Hempty.
    { intros Heq. destruct (p_joined _ _ Hi) as [|(w' & Hw' & Hin)]; [done|]. rewrite <-Heq in Hw'. by injection Hw' as <-. }
    assert (∀ i y, i ≠ tid → joining s !! i = Some y → ¬ begun ids y) as Hnone.
    { intros i y Hne' Hy Hb. destruct (decide (w :: ws = ids)) as [Heq|Hneq].
      - destruct (p_begun _ _ Hi i y Hy Hb) as [Hmk _]. destruct y as [l b].
        apply (marked_head w ws) in Hmk; [set_solver|done..].
      - by apply (proj2 (Hbeg ltac:(unfold begun; congruence)) i y). }
    assert (marked ids (w :: ws, true) ({[w]} ∪ joined s)) as Hmk.
    { destruct (decide (w :: ws = ids)) as [Heq|Hneq].
      - exists []. split; [done|]. rewrite (Hempty Heq). cbn. done.
      - destruct Hbeg as [(pre' & Heq & ->) _]; [unfold begun; congruence|]. exists pre'. split; [done|].
        cbn. rewrite app_nil_r, list_to_set_app_L. set_solver. }
    apply (Hset _ ({[w]} ∪ joined s)).
    + right. exists (w :: ws), true. split; [done|]. split; [by exists pre|]. done.
    + intros i y Hne' Hy Hb. by destruct (Hnone i y).
    + right. destruct ids as [|w0 ids]; [by destruct pre|]. exists w0. split; [done|].
      apply (marked_head w0 ids (w0 :: ids) (w :: ws) true); [done|by intros [=]|done].
Qed.

(** ** Stopping once *)

Definition stopping (s : t) (tid : Z) : Prop := labels (pool s) !! tid = Some stop ∨ is_Some (joining s !! tid).
Definition calls_stop (e : event) : nat := match e with UserCall _ stop => 1 | _ => 0 end.
Definition stops (es : list event) : nat := sum_list_with calls_stop es.

(** [n] is how often [stop()] has been called. *)
Record stop_inv (ids : list Z) (n : nat) (s : t) : Prop := mkStopInv {
  st_none : n = O → (∀ tid, ¬ stopping s tid) ∧ joined s = ∅;
  st_one : (n ≤ 1)%nat → ∀ tid tid', stopping s tid → stopping s tid' → tid = tid';
  st_joined : (n ≤ 1)%nat → joined s ≠ ∅ → ∀ tid, stopping s tid → ∃ x, joining s !! tid = Some x ∧ begun ids x
}.

Lemma stop_inv_mono ids n s s' : stop_inv ids n s → joined s' = joined s →
  (∀ tid, stopping s' tid → stopping s tid) →
  (∀ tid x, joining s !! tid = Some x → begun ids x → stopping s' tid → ∃ x', joining s' !! tid = Some x' ∧ begun ids x') →
  stop_inv ids n s'.
Proof.
  intros [H0 H1 Hj] Hjd Hs Hb. split.
  - intros Hn. destruct (H0 Hn) as [Hno ?]. split; [|congruence]. intros tid Htid. by apply (Hno tid), Hs.
  - intros Hn tid tid' ??. apply H1; auto.
  - rewrite Hjd. intros Hn Hne tid Htid. destruct (Hj Hn Hne tid) as (x & Hx & Hbx); [auto|]. by eapply Hb.
Qed.

(** Members other than [stop] come and go without changing who stops. *)
Lemma stop_inv_labels ids n s s' : stop_inv ids n s → joined s' = joined s → joining s' = joining s →
  (∀ tid, labels (pool s') !! tid = Some stop → labels (pool s) !! tid = Some stop) → stop_inv ids n s'.
Proof.
  intros Hi Hjd Hj Hl. apply (stop_inv_mono ids n s); [done..| |].
  - intros tid [H|H]; [left; auto|right; by rewrite <-Hj].
  - intros tid x Hx Hb _. exists x. by rewrite Hj.
Qed.

Lemma stop_called ids n s s' tid : pool_inv ids s → stop_inv ids n s → joined s' = joined s → joining s' = joining s →
  labels (pool s') = <[tid := stop]> (labels (pool s)) → stop_inv ids (n + 1) s'.
Proof.
  intros Hi Hst Hjd Hj Hl.
  assert (n = O → ∀ i, stopping s' i → i = tid) as Honly.
  { intros Hn i Hs. destruct (st_none _ _ _ Hst Hn) as [Hno _]. destruct (decide (i = tid)) as [|Hne]; [done|].
    destruct (Hno i). unfold stopping in *. by rewrite Hl, Hj, lookup_insert_ne in Hs. }
  split; [lia| |].
  - intros Hn i i' H1 H2. rewrite (Honly ltac:(lia) _ H1). symmetry. by apply Honly; [lia|].
  - intros Hn Hne. destruct (st_none _ _ _ Hst ltac:(lia)) as [_ Hje]. congruence.
Qed.

Lemma stop_inv_return ids n s p tid m r : pool_inv ids s → stop_inv ids n s →
  labels p = delete tid (labels (pool s)) → labels (pool s) !! tid = Some m →
  stop_inv ids n (after [(tid, m, r)] (set_pool p s)).1.
Proof.
  intros Hi Hst Hl Hm.
  assert (∀ i, labels p !! i = Some stop → labels (pool s) !! i = Some stop) as Hsub.
  { intros i. rewrite Hl. by intros [_ ?]%lookup_delete_Some. }
  assert (∀ r', stop_inv ids n (set_role tid r' (set_pool p s))) as Hrole by (intros r'; by apply (stop_inv_labels ids n s)).
  assert (stop_inv ids n (set_pool p s)) as Hsame by by apply (stop_inv_labels ids n s).
  destruct m as [task| | |]; cbn; [done| | |done].
  - destruct r as [|[f|]|]; cbn; apply Hrole.
  - assert (stopping s tid) as Htid by by left.
    split; cbn.
    + intros Hn. by destruct (proj1 (st_none _ _ _ Hst Hn) tid).
    + intros Hn.
      assert (∀ i, stopping (set_joining (<[tid:=(threads_ s, false)]> (joining s)) (set_pool p s)) i → stopping s i) as Hback.
      { intros i [H|H]; cbn in H; [by left; apply Hsub|]. destruct (decide (i = tid)) as [->|Hne]; [done|].
        rewrite lookup_insert_ne in H by done. by right. }
      intros i i' H1 H2. apply (st_one _ _ _ Hst Hn); by apply Hback.
    + intros Hn Hne. destruct (st_joined _ _ _ Hst Hn Hne tid Htid) as (x & Hx & _).
      destruct (p_joining _ _ Hi tid x Hx). congruence.
Qed.

Lemma user_call_ok ids s tid m o : ids ≠ [] → pool_inv ids s → step (UserCall tid m) s = Some o → good ids (UserCall tid m) s o.
Proof.
  intros Hids Hi. cbn. destruct (user_code tid s) eqn:Eu; [|done]. destruct (free tid s) eqn:Ef; [|done]. cbn.
  rewrite (p_threads _ _ Hi), bool_decide_eq_false_2 by done.
  assert (m ≠ take → silent (call tid m s) = Some o → good ids (UserCall tid m) s o) as H.
  { intros Hm. pose proof Ef as [Hl _]%free_true.
    destruct (call_outline tid m s (p_monitor _ _ Hi) Hl) as (p & -> & Hp & Hlp & Hd). cbn. intros [= <-].
    eexists _, []. split; [done|]. split; [by apply (user_call_inv ids tid m)|].
    apply plain_order; [done|]. cbn. by rewrite Hd. }
  destruct m; [by apply H|done|by apply H..].
Qed.

Lemma pool_step_ok ids s e o : ids ≠ [] → pool_inv ids s → step e s = Some o →
  good ids e s o ∨ (∃ tid, e = Join tid) ∧ o = Fault (AssertFailed "!joined_").
Proof.
  intros Hids Hi Hs. destruct e as [tid m|e|tid|tid|tid].
  - left. by apply user_call_ok.
  - left. by apply mutex_ok.
  - left. by apply test_ok.
  - left. by apply leave_ok.
  - destruct (join_ok ids s tid o Hi Hs) as [?| ->]; [by left|right; eauto].
Qed.

Lemma stop_inv_join ids n s tid s' fs : pool_inv ids s → stop_inv ids n s →
  step (Join tid) s = Some (Done (s', fs)) → stop_inv ids n s'.
Proof.
  intros Hi Hst. cbn. destruct (joining s !! tid) as [[l b]|] eqn:Ej; [|done].
  assert (stopping s tid) as Htid by (right; by eexists).
  destruct (p_suffix _ _ Hi _ _ _ Ej) as [pre Hpre].
  assert (∀ l' b' jd, begun ids (l', b') →
    stop_inv ids n (set_joining (<[tid := (l', b')]> (joining s)) (set_joined jd s))) as Hset.
  { intros l' b' jd Hb.
    assert (∀ i, stopping (set_joining (<[tid := (l', b')]> (joining s)) (set_joined jd s)) i → stopping s i) as Hback.
    { intros i [H|H]; cbn in H; [by left|]. destruct (decide (i = tid)) as [->|Hne]; [done|].
      rewrite lookup_insert_ne in H by done. by right. }
    split.
    - intros Hn. by destruct (proj1 (st_none _ _ _ Hst Hn) tid).
    - intros Hn i i' H1 H2. apply (st_one _ _ _ Hst Hn); by apply Hback.
    - intros Hn _ i Hs. apply Hback in Hs. rewrite (st_one _ _ _ Hst Hn i tid Hs Htid). cbn.
      rewrite lookup_insert_eq. by eexists. }
  destruct l as [|w ws]; [|destruct b].
  - intros [= <- <-]. apply (stop_inv_mono ids n s); [done..| |].
    + intros i [H|H]; cbn in H; [by left|]. destruct (decide (i = tid)) as [->|Hne]; [done|].
      rewrite lookup_delete_ne in H by done. by right.
    + intros i x Hx Hb [H|H]; cbn in H |- *.
      * destruct (p_joining _ _ Hi i x Hx). congruence.
      * destruct (decide (i = tid)) as [->|Hne]; [rewrite lookup_delete_eq in H; by destruct H|].
        rewrite lookup_delete_ne by done. by exists x.
  - destruct (_ || _); [|done]. intros [= <- <-]. apply (Hset ws false (joined s)).
    intros [= Heq]. apply (f_equal length) in Hpre. rewrite length_app, <-Heq in Hpre. cbn in Hpre. lia.
  - destruct (bool_decide _); cbn; [|done]. intros [= <- <-]. by apply (Hset (w :: ws) true).
Qed.

Lemma stop_inv_step ids n s e s' fs : ids ≠ [] → pool_inv ids s → stop_inv ids n s →
  step e s = Some (Done (s', fs)) → stop_inv ids (n + calls_stop e) s'.
Proof.
  intros Hids Hi Hst Hs. destruct e as [tid m|e|tid|tid|tid]; cbn [calls_stop]; rewrite ?Nat.add_0_r.
  - cbn in Hs. destruct (user_code tid s); [|done]. destruct (free tid s) eqn:Ef; [|done].
    apply free_true in Ef as [Hl Hj]. cbn in Hs. rewrite (p_threads _ _ Hi), bool_decide_eq_false_2 in Hs by done.
    assert (m ≠ take) as Hm by (by intros ->).
    assert (silent (call tid m s) = Some (Done (s', fs))) as Hc by (by destruct m).
    destruct (call_outline tid m s (p_monitor _ _ Hi) Hl) as (p & Hcall & Hp & Hlp & Hd).
    rewrite Hcall in Hc. cbn in Hc. injection Hc as <- <-.
    assert (m ≠ stop → stop_inv ids n (set_pool p s)) as Hother.
    { intros Hne. apply (stop_inv_labels ids n s); [done..|]. intros i. cbn. rewrite Hlp.
      destruct (decide (i = tid)) as [->|Hi']; [rewrite lookup_insert_eq; congruence|by rewrite lookup_insert_ne]. }
    destruct m; cbn [calls_stop]; rewrite ?Nat.add_0_r; try by apply Hother.
    by apply (stop_called ids n s _ tid).
  - destruct (mutex_step _ _ _ Hs) as (Hne & m & Hm & Heq).
    destruct (step_done _ _ _ (p_monitor _ _ Hi) Hm) as [(p & h & -> & He & Hp)|(f & _ & [])].
    pose proof (effect_outline _ _ _ _ members_block He) as Ho. injection Heq as Heq.
    inversion Ho as [tid m' ? ? ? ?|? ? _ Hl Hd|tid wakes m' r signals ? Hin Hsec Hl]; subst; [by destruct (Hne tid m')| |].
    + injection Heq as -> ->. apply (stop_inv_labels ids n s); [done..|]. intros i. cbn. by rewrite Hl.
    + assert (s' = (after [(tid, m', r)] (set_pool p s)).1) as -> by (by rewrite <-Heq).
      apply stop_inv_return; [done..|]. apply labels_some. by exists (Inside m').
  - cbn in Hs. destruct (workers s !! tid) as [[| | | |]|] eqn:Ew; try done.
    destruct (p_idle _ _ Hi tid) as [Hl Hj]; [by left|]. destruct (running_ (data (pool s))).
    + destruct (call_outline tid take (set_role tid Taking s) (p_monitor _ _ Hi) Hl) as (p & Hc & Hp & Hlp & Hd).
      rewrite Hc in Hs. cbn in Hs. injection Hs as <- <-. apply (stop_inv_labels ids n s); [done..|]. intros i. cbn. rewrite Hlp.
      destruct (decide (i = tid)) as [->|Hi']; [by rewrite lookup_insert_eq|by rewrite lookup_insert_ne].
    + injection Hs as <- <-. by apply (stop_inv_labels ids n s).
  - cbn in Hs. destruct (workers s !! tid) as [[| | | |]|] eqn:Ew; try done.
    all: destruct (free tid s); [|done]; injection Hs as <- <-; by apply (stop_inv_labels ids n s).
  - by eapply stop_inv_join.
Qed.

(** With a single call of [stop()] no thread is joined twice. *)
Lemma join_once ids n s tid : NoDup ids → pool_inv ids s → stop_inv ids n s → (n ≤ 1)%nat →
  step (Join tid) s ≠ Some (Fault (AssertFailed "!joined_")).
Proof.
  intros Hnd Hi Hst Hn. cbn. destruct (joining s !! tid) as [[[|w ws] [|]]|] eqn:Ej; try done.
  - by destruct (_ || _).
  - destruct (bool_decide (w ∉ joined s)) eqn:Ew; [done|]. intros _. apply bool_decide_eq_false in Ew.
    assert (stopping s tid) as Htid by (right; by eexists).
    destruct (st_joined _ _ _ Hst Hn) with tid as (x & Hx & Hb); [set_solver|done|].
    rewrite Ej in Hx. injection Hx as <-. destruct (p_begun _ _ Hi tid _ Ej Hb) as [(pre & Heq & Hj) _].
    cbn in Heq, Hj. rewrite app_nil_r in Hj. rewrite Hj, not_elem_of_list_to_set in Ew. apply Ew. intros Hin.
    rewrite Heq in Hnd. apply NoDup_app in Hnd as (_ & Hnd & _). apply (Hnd w Hin). set_solver.
Qed.

Lemma reaches_ok ids maxSize s0 es s ts fs :
  ids ≠ [] → start ids (make maxSize) = Done s0 → reaches s0 es s ts fs →
  pool_inv ids s ∧ stop_inv ids (stops es) s ∧ real ts = fs ++ real (queue_ (data (pool s))) ∧
  maxQueueSize_ (data (pool s)) = u64 maxSize.
Proof.
  intros Hids Hs0. destruct (start_inv _ _ _ Hs0) as [Hi0 Hq].
  assert (stop_inv ids 0 s0) as Hst0.
  { injection Hs0 as <-. assert (∀ tid, ¬ stopping (mk (Monitor.mk (mkGuarded [] (u64 maxSize) true) MutexLock.make ∅) ids
      (list_to_map ((λ tid, (tid, Initialising)) <$> ids)) ∅ ∅) tid) as Hno.
    { intros tid [H|H]; cbn in H; [|rewrite lookup_empty in H; by destruct H].
      unfold labels in H. cbn in H. by rewrite lookup_fmap, lookup_empty in H. }
    split; [by split| |]; by intros _ ? ? ?%Hno. }
  induction 1 as [|es s ts fs e s' fs' _ (Hi & Hst & Ho & Hmax) Hs]; [rewrite Hq; injection Hs0 as <-; done|].
  destruct (pool_step_ok _ _ _ _ Hids Hi Hs) as [(? & ? & [= <- <-] & Hi' & Hord)|[_ [=]]].
  destruct Hord as [Hm Hord]. split; [done|]. split_and!; [| |by rewrite Hm].
  - unfold stops. rewrite sum_list_with_app. cbn [sum_list_with]. rewrite Nat.add_0_r.
    by apply (stop_inv_step ids (stops es) s e s' fs').
  - by rewrite omap_app, Ho, <-!app_assoc, Hord.
Qed.

(** ** Steps come to an end

    No new calls, and no waking up for no reason. *)

Definition internal (e : event) : bool :=
  match e with
  | UserCall _ _ => false
  | Mutex e => Monitor.internal e
  | _ => true
  end.
Definition internally (s' s : t) : Prop := ∃ e fs, internal e = true ∧ step e s = Some (Done (s', fs)).

(** The tasks there are, or that calls of [run] are about to add; the calls of
    members other than [take]; how far the threads are. *)
Definition is_run (m : member) : nat := match m with run _ => 1 | _ => 0 end.
Definition not_take (m : member) : nat := match m with take => 0 | _ => 1 end.
Definition tokens (s : t) : nat := length (queue_ (data (pool s))) + sum_map is_run (labels (pool s)).
Definition others (s : t) : nat := sum_map not_take (labels (pool s)).

Definition role_weight (running : bool) (r : role) : nat :=
  match r with
  | Initialising | InTask _ => 6
  | Testing => if running then 5 else 1
  | Taking => 2
  | Exited => 0
  end.
Definition call_weight (x : thread condition member) : nat :=
  match x with Locking _ => 2 | Inside _ => 1 | Waiting _ _ => 0 end.
Definition join_weight (x : list Z * bool) : nat := 2 * length x.1 + (if x.2 then 1 else 2).
Definition weight (s : t) : nat :=
  sum_map (role_weight (running_ (data (pool s)))) (workers s) + sum_map call_weight (threads (pool s)) +
  sum_map join_weight (joining s).

Definition decreases (s s' : t) : Prop :=
  (tokens s' < tokens s ∨ tokens s' ≤ tokens s ∧ (others s' < others s ∨ others s' ≤ others s ∧ weight s' < weight s))%nat.

Lemma weight_decreases s s' : tokens s' = tokens s → others s' = others s → (weight s' < weight s)%nat → decreases s s'.
Proof. unfold decreases. lia. Qed.

Lemma test_decreases ids s tid s' fs : pool_inv ids s → step (Test tid) s = Some (Done (s', fs)) → decreases s s'.
Proof.
  intros Hi. cbn. destruct (workers s !! tid) as [[| | | |]|] eqn:Ew; try done.
  destruct (p_idle _ _ Hi tid) as [Hl Hj]; [by left|]. pose proof Hl as Ht%labels_none.
  destruct (running_ (data (pool s))) eqn:Er.
  - unfold call. cbn. rewrite Ht. cbn. intros [= <- <-].
    pose proof (sum_map_insert is_run tid take (labels (pool s))) as H1.
    pose proof (sum_map_insert not_take tid take (labels (pool s))) as H2.
    pose proof (sum_map_insert call_weight tid (Locking take) (threads (pool s))) as H3.
    pose proof (sum_map_insert (role_weight true) tid Taking (workers s)) as H4.
    rewrite Hl in H1, H2. rewrite Ht in H3. rewrite Ew in H4.
    apply weight_decreases; unfold tokens, others, weight, labels in *; cbn in *; rewrite ?fmap_insert; cbn; rewrite ?Er; lia.
  - intros [= <- <-]. pose proof (sum_map_insert (role_weight false) tid Exited (workers s)) as H4. rewrite Ew in H4.
    apply weight_decreases; unfold tokens, others, weight in *; cbn in *; rewrite ?Er; lia.
Qed.

Lemma leave_decreases s tid s' fs : step (Return tid) s = Some (Done (s', fs)) → decreases s s'.
Proof.
  cbn. pose proof (sum_map_insert (role_weight (running_ (data (pool s)))) tid Testing (workers s)) as H4.
  destruct (workers s !! tid) as [[| | | |]|] eqn:Ew; try done.
  all: destruct (free tid s); [|done]; intros [= <- <-].
  all: apply weight_decreases; [done..|]; unfold weight; cbn in *; destruct (running_ (data (pool s))); lia.
Qed.

Lemma join_decreases s tid s' fs : step (Join tid) s = Some (Done (s', fs)) → decreases s s'.
Proof.
  cbn. pose proof (sum_map_delete join_weight tid (joining s)) as Hd.
  pose proof (λ x, sum_map_insert join_weight tid x (joining s)) as Hins.
  destruct (joining s !! tid) as [[[|w ws] b]|] eqn:Ej; try done.
  - intros [= <- <-]. apply weight_decreases; [done..|]. unfold weight; cbn in *. destruct b; lia.
  - destruct b.
    + destruct (_ || _); [|done]. intros [= <- <-]. specialize (Hins (ws, false)).
      apply weight_decreases; [done..|]. unfold weight; cbn in *. lia.
    + destruct (bool_decide _); cbn; [|done]. intros [= <- <-]. specialize (Hins (w :: ws, true)).
      apply weight_decreases; [done..|]. unfold weight; cbn in *. lia.
Qed.

(** A section that waits, or a thread that gets the mutex. *)
Lemma quiet_decreases s p tid x y mx : threads (pool s) !! tid = Some x → label y = label x →
  (call_weight y < call_weight x)%nat → p = Monitor.mk (data (pool s)) mx (<[tid := y]> (threads (pool s))) →
  decreases s (set_pool p s).
Proof.
  intros Hx Hl Hw ->. pose proof (labels_replace (threads (pool s)) tid x y Hx Hl) as HL.
  pose proof (sum_map_insert call_weight tid y (threads (pool s))) as H3. rewrite Hx in H3.
  apply weight_decreases; unfold tokens, others, weight, labels; cbn in *; rewrite ?HL; lia.
Qed.

(** [take()] of a stopped pool with no tasks left. *)
Lemma take_none_finish d r d' signals : queue_ d = [] → section true take d = Done (Finish r d' signals) →
  signals = [] ∧ running_ d = false.
Proof. cbn. intros ->. destruct (running_ d); cbn; [done|]. by intros [= <- <- <-]. Qed.

Lemma mutex_decreases ids s e s' fs : pool_inv ids s → internal (Mutex e) = true →
  step (Mutex e) s = Some (Done (s', fs)) → decreases s s'.
Proof.
  intros Hi Hint Hs. destruct (mutex_step _ _ _ Hs) as (Hne & m & Hm & Heq).
  destruct (step_done _ _ _ (p_monitor _ _ Hi) Hm) as [(p & h & -> & He & Hp)|(f & _ & [])].
  injection Heq as Heq.
  assert (s' = (after h (set_pool p s)).1) as -> by (by rewrite <-Heq). clear Heq Hs Hm.
  destruct He as [tid m E Ee|tid m E Eo|tid c m E|tid wakes m c m' E Es|tid wakes m r d signals ths E Es Ew]; try done.
  - eapply (quiet_decreases s _ tid (Locking m) (Inside m)); [done|done|cbn; lia|done].
  - eapply (quiet_decreases s _ tid (Inside m) (Waiting c m')); [done| |cbn; lia|done]. by rewrite (members_block _ _ _ _ Es).
  - pose proof (members_finish _ _ _ _ _ Es) as Hc.
    assert (label <$> ths = delete tid (labels (pool s))) as HL.
    { rewrite (rouse_labels _ _ (wake_up_rouse _ _ _ _ Ew)). unfold labels. by rewrite fmap_delete. }
    pose proof (sum_map_delete is_run tid (labels (pool s))) as H1.
    pose proof (sum_map_delete not_take tid (labels (pool s))) as H2.
    assert (labels (pool s) !! tid = Some m) as Hlab by (apply labels_some; by exists (Inside m)).
    rewrite Hlab in H1, H2. cbn [weigh_option] in H1, H2.
    destruct m as [task| | |]; cbn in Hc.
    + right. unfold tokens, others, labels in *. cbn. rewrite HL. cbn in H1, H2.
      rewrite Hc. destruct (_ && has_room _); cbn; rewrite ?length_app; cbn; lia.
    + destruct (queue_ (data (pool s))) as [|task q] eqn:Eq.
      * destruct Hc as (-> & -> & Hr). destruct (take_none_finish _ _ _ _ Eq Es) as [-> _].
        injection Ew as <-. cbn.
        assert (workers s !! tid = Some Taking) as Hw by (by apply (p_taking _ _ Hi)).
        pose proof (sum_map_delete call_weight tid (threads (pool s))) as H3. rewrite E in H3.
        pose proof (sum_map_insert (role_weight false) tid Testing (workers s)) as H4. rewrite Hw in H4.
        right. unfold tokens, others, weight, labels in *; cbn in *. rewrite HL, Hr in *. lia.
      * destruct Hc as [-> ->]. left. unfold tokens, labels in *.
        destruct task; cbn; rewrite HL, Eq; cbn in *; lia.
    + right. unfold tokens, others, labels in *. cbn. rewrite HL, Hc. cbn in *. lia.
    + right. unfold tokens, others, labels in *. cbn. rewrite HL, Hc. cbn in *. lia.
Qed.

Lemma internal_decreases ids s e s' fs : ids ≠ [] → pool_inv ids s → internal e = true → step e s = Some (Done (s', fs)) → decreases s s'.
Proof.
  intros Hids Hi Hint Hs. destruct e as [tid m|e|tid|tid|tid]; [done|..].
  - by eapply mutex_decreases.
  - by eapply test_decreases.
  - by eapply leave_decreases.
  - by eapply join_decreases.
Qed.

Lemma steps_end ids s : ids ≠ [] → pool_inv ids s → Acc internally s.
Proof.
  intros Hids. apply (acc_lexicographic (pool_inv ids) internally tokens others weight).
  intros x y Hx (e & fs & Hint & Hs). split.
  - by destruct (pool_step_ok _ _ _ _ Hids Hx Hs) as [(? & ? & [= <- <-] & Hi' & _)|[_ [=]]].
  - by eapply internal_decreases.
Qed.

(** ** Where they end *)

Definition resting (s : t) : Prop := ∀ e, internal e = true → step e s = None.

(** A call that waits: a worker for a task, or a call of [run] for room. *)
Definition blocked (s : t) (x : thread condition member) : Prop :=
  (x = Waiting notEmpty_ take ∧ queue_ (data (pool s)) = []) ∨
  (∃ task, x = Waiting notFull_ (run task) ∧ 0 < maxQueueSize_ (data (pool s)) ∧
    szof (queue_ (data (pool s))) = maxQueueSize_ (data (pool s))).

Lemma resting_calls ids s tid x : pool_inv ids s → resting s → threads (pool s) !! tid = Some x →
  running_ (data (pool s)) = true ∧ blocked s x.
Proof.
  intros Hi Hrest Hx. pose proof (p_monitor _ _ Hi) as Hm.
  destruct (settled_or_step (pool s) Hm) as [Hset|(e & o & Hint & Hs)].
  - destruct (Hset tid x Hx) as (c & m & -> & Hr). pose proof (inv_labelled _ Hm tid c m Hx) as Hu.
    pose proof (inv_ok _ Hm) as Hok. unfold blocked. cbn in Hr, Hok.
    destruct m as [task| | |]; try done; injection Hu as <-; destruct (running_ (data (pool s))); try done; (split; [done|]).
    + right. exists task. split; [done|]. cbn in Hr. destruct (Z.ltb_spec 0 (maxQueueSize_ (data (pool s)))); [|done].
      injection Hr. lia.
    + left. split; [done|]. injection Hr as Hr. by apply nil_length_inv.
  - exfalso. pose proof (Hrest (Mutex e) Hint) as Hnone. destruct e; try done; unfold step in Hnone;
      rewrite Hs in Hnone; by destruct o as [[]|].
Qed.

Lemma resting_user s tid : resting s → (workers s !! tid = Some Initialising ∨ ∃ f, workers s !! tid = Some (InTask f)) →
  is_Some (threads (pool s) !! tid) ∨ is_Some (joining s !! tid).
Proof.
  intros Hrest Hw. pose proof (Hrest (Return tid) eq_refl) as Hn. cbn in Hn. unfold free in Hn.
  destruct Hw as [Hw|[f Hw]]; rewrite Hw in Hn.
  all: destruct (threads (pool s) !! tid) eqn:Et; [left; by eexists|].
  all: destruct (joining s !! tid) eqn:Ej; [right; by eexists|done].
Qed.

Lemma resting_not_testing ids s tid : pool_inv ids s → resting s → workers s !! tid ≠ Some Testing.
Proof.
  intros Hi Hrest Hw. pose proof (Hrest (Test tid) eq_refl) as Hn. cbn in Hn. rewrite Hw in Hn.
  destruct (p_idle _ _ Hi tid) as [Hl _]; [by left|].
  destruct (running_ (data (pool s))); [|done].
  destruct (call_outline tid take (set_role tid Taking s) (p_monitor _ _ Hi) Hl) as (p & Hc & _). by rewrite Hc in Hn.
Qed.

(** A thread that cannot go on joining waits for a worker that is not finished. *)
Lemma resting_join s tid x : resting s → joining s !! tid = Some x →
  ∃ w ws, x = (w :: ws, true) ∧ workers s !! w ≠ Some Exited ∧ w ≠ tid.
Proof.
  intros Hrest Hx. pose proof (Hrest (Join tid) eq_refl) as Hn. cbn in Hn. rewrite Hx in Hn.
  destruct x as [[|w ws] [|]]; try done. exists w, ws. split; [done|].
  destruct (exited w s) eqn:Ee; [done|]. destruct (bool_decide (w = tid)) eqn:Ew; [done|].
  apply bool_decide_eq_false in Ew. split; [|done]. intros E. unfold exited in Ee. by rewrite E in Ee.
Qed.

Lemma resting_stopped ids s : pool_inv ids s → resting s → joining s = ∅.
Proof.
  intros Hi Hrest. apply map_empty. intros tid. destruct (joining s !! tid) as [x|] eqn:Ej; [exfalso|done].
  destruct (p_joining _ _ Hi tid x Ej) as [_ Hrun].
  assert (∀ i y, threads (pool s) !! i ≠ Some y) as Hcalls.
  { intros i y Hy. destruct (resting_calls ids s i y Hi Hrest Hy). congruence. }
  destruct (resting_join s tid x Hrest Ej) as (w & ws & -> & Hne & Hwt).
  destruct (p_suffix _ _ Hi _ _ _ Ej) as [pre Hpre].
  assert (is_Some (workers s !! w)) as [r Hr] by (apply (p_workers _ _ Hi); rewrite Hpre; set_solver).
  assert (is_Some (joining s !! w)) as [y Hy].
  { destruct (resting_user s w Hrest) as [[z Hz]|?]; [|by apply Hcalls in Hz|done].
    destruct r as [| | |f|]; [by left|by apply (resting_not_testing ids s w) in Hr| |right; eauto|done].
    apply (p_taking _ _ Hi), labels_some in Hr as (z & Hz & _). by apply Hcalls in Hz. }
  destruct (resting_join s w y Hrest Hy) as (w' & ws' & -> & _).
  destruct (p_begun _ _ Hi tid _ Ej) as [_ Hu]; [done|]. destruct Hwt. by eapply Hu.
Qed.

Lemma resting_workers ids s w : pool_inv ids s → resting s → w ∈ ids →
  if running_ (data (pool s)) then ∃ x, threads (pool s) !! w = Some x else workers s !! w = Some Exited.
Proof.
  intros Hi Hrest Hw. apply (p_workers _ _ Hi) in Hw as [r Hr].
  assert (is_Some (threads (pool s) !! w) ∨ r = Exited) as [[x Hx]| ->].
  { assert ((r = Initialising ∨ ∃ f, r = InTask f) → is_Some (threads (pool s) !! w)) as Huser.
    { intros Hu. destruct (resting_user s w Hrest) as [?|[y Hy]]; [|done|].
      - rewrite Hr. naive_solver.
      - by rewrite (resting_stopped ids s Hi Hrest), lookup_empty in Hy. }
    destruct r as [| | |f|]; [left; apply Huser; by left|by apply (resting_not_testing ids s w) in Hr| |left; apply Huser; right; eauto|by right].
    left. apply (p_taking _ _ Hi), labels_some in Hr as (z & Hz & _). by eexists. }
  - destruct (resting_calls ids s w x Hi Hrest Hx) as [-> _]. by exists x.
  - by rewrite (p_exited _ _ Hi w Hr).
Qed.

(** C7. A started pool runs what it is given, once and in order: whatever the
    interleaving of the workers with other threads, and whatever tasks call, the
    tasks started so far are the first of those accepted by [run], in that
    order, and the others are in the queue, which never exceeds its bound (0 is
    no bound; empty functions are skipped).  No assertion fails and nothing is
    undefined, unless [stop()] is called twice, which may join a thread again. *)
Theorem thread_pool_in_order maxSize ids s0 es s ts fs :
  ids ≠ [] → NoDup ids → start ids (make maxSize) = Done s0 → reaches s0 es s ts fs →
  real ts = fs ++ real (queue_ (data (pool s))) ∧
  (u64 maxSize = 0 ∨ szof (queue_ (data (pool s))) ≤ u64 maxSize) ∧
  ∀ e o, step e s = Some o → is_done o = true ∨ ((2 ≤ stops es)%nat ∧ o = Fault (AssertFailed "!joined_")).
Proof.
  intros Hids Hnd Hs0 Hr. destruct (reaches_ok _ _ _ _ _ _ _ Hids Hs0 Hr) as (Hi & Hst & Ho & Hmax).
  split; [done|]. split.
  - pose proof (inv_ok _ (p_monitor _ _ Hi)) as Hok. cbn in Hok. rewrite Hmax in Hok. lia.
  - intros e o Hs. destruct (pool_step_ok _ _ _ _ Hids Hi Hs) as [(s' & fs' & -> & _)|[[tid ->] ->]]; [by left|right].
    split; [|done]. destruct (decide (2 ≤ stops es)%nat); [done|].
    destruct (join_once ids (stops es) s tid Hnd Hi Hst); [lia|done].
Qed.

(** C8. No task is forgotten and the pool can be stopped: if tasks return and
    no new calls are made, the threads of a started pool come to rest after
    finitely many steps, however they interleave.  If the pool was not stopped,
    every worker then waits, for a task in an empty queue or for room in a call
    of [run] of its own, so that tasks are left only if every worker is blocked
    in its own task.  If it was, every worker has exited, nobody waits, and
    every call of [stop()] has returned. *)
Theorem thread_pool_comes_to_rest maxSize ids s0 es s ts fs :
  ids ≠ [] → start ids (make maxSize) = Done s0 → reaches s0 es s ts fs →
  Acc internally s ∧
  (resting s →
    if running_ (data (pool s)) then
      (∀ w, w ∈ ids → ∃ x, threads (pool s) !! w = Some x ∧ blocked s x) ∧
      (queue_ (data (pool s)) ≠ [] → ∀ w, w ∈ ids → ∃ task, threads (pool s) !! w = Some (Waiting notFull_ (run task)))
    else (∀ w, w ∈ ids → workers s !! w = Some Exited) ∧ threads (pool s) = ∅ ∧ joining s = ∅).
Proof.
  intros Hids Hs0 Hr. destruct (reaches_ok _ _ _ _ _ _ _ Hids Hs0 Hr) as (Hi & _).
  split; [by eapply steps_end|]. intros Hrest.
  pose proof (λ w, resting_workers ids s w Hi Hrest) as Hw. destruct (running_ (data (pool s))) eqn:Er.
  - assert (∀ w, w ∈ ids → ∃ x, threads (pool s) !! w = Some x ∧ blocked s x) as H.
    { intros w Hin. destruct (Hw w Hin) as [x Hx]. exists x. split; [done|].
      by destruct (resting_calls ids s w x Hi Hrest Hx). }
    split; [done|]. intros Hq w Hin. destruct (H w Hin) as (x & Hx & [[_ ?]|(task & -> & _)]); [done|]. by exists task.
  - split; [done|]. split; [|by eapply resting_stopped]. apply map_empty. intros i.
    destruct (threads (pool s) !! i) as [x|] eqn:Ex; [|done]. destruct (resting_calls ids s i x Hi Hrest Ex). congruence.
Qed.
End pool.

(** ** Examples *)
Module Sample.

(** A worker waits for a task, is given one by another thread, and runs it;
    then the pool is stopped. *)
Definition given : list (event (F := Z)) :=
  [Return 10; Test 10; Mutex (Lock 10); Mutex (Run 10 []); UserCall 1 (run (Some 5)); Mutex (Lock 1); Mutex (Run 1 [10]);
   Mutex (Lock 10); Mutex (Run 10 [])].
Definition stopped : list (event (F := Z)) :=
  given ++ [Return 10; UserCall 1 stop; Mutex (Lock 1); Mutex (Run 1 []); Join 1; Test 10; Join 1; Join 1].

Definition started : t (F := Z) := mk (Monitor.mk (mkGuarded [] 1 true) MutexLock.make ∅) [10] {[ 10 := Initialising ]} ∅ ∅.

Theorem thread_pool_in_order_witness :
  ∃ s ts, reaches started given s ts [5] ∧ workers s !! 10 = Some (InTask 5) ∧
    omap (λ task, task) ts = [5] ++ omap (λ task, task) (queue_ (data (pool s))) ∧
    ∀ e o, step e s = Some o → is_done o = true.
Proof.
  destruct (perform given started) as [[[s ts] fs]|] eqn:E; [|by vm_compute in E].
  pose proof (pool_perform_reaches _ _ _ _ _ E) as Hr.
  assert (fs = [5] ∧ workers s !! 10 = Some (InTask 5)) as [-> Hw] by (vm_compute in E; by injection E as <- _ <-).
  exists s, ts. split; [done|]. split; [done|].
  destruct (thread_pool_in_order 1 [10] started given s ts [5]) as (H1 & _ & H3);
    [done|by apply NoDup_singleton|reflexivity|done|].
  split; [done|]. intros e o Hs. destruct (H3 e o Hs) as [?|[H _]]; [done|]. vm_compute in H. lia.
Defined.

Theorem thread_pool_comes_to_rest_witness :
  ∃ s ts, reaches started stopped s ts [5] ∧ joining s = ∅ ∧ workers s !! 10 = Some Exited ∧ Acc internally s.
Proof.
  destruct (perform stopped started) as [[[s ts] fs]|] eqn:E; [|by vm_compute in E].
  pose proof (pool_perform_reaches _ _ _ _ _ E) as Hr.
  assert (fs = [5] ∧ joining s = ∅ ∧ workers s !! 10 = Some Exited) as (-> & Hj & Hw) by (vm_compute in E; by injection E as <- _ <-).
  exists s, ts. split; [done|]. split; [done|]. split; [done|].
  destruct (thread_pool_comes_to_rest 1 [10] started stopped s ts [5]) as [H1 _]; [done|reflexivity|done|done].
Defined.

(** [stop()] once more joins the worker again. *)
Example second_stop_aborts :
  ∃ s ts, reaches started (stopped ++ [UserCall 1 stop; Mutex (Lock 1); Mutex (Run 1 [])]) s ts [5] ∧
    step (Join 1) s = Some (Fault (AssertFailed "!joined_")).
Proof.
  destruct (perform (stopped ++ [UserCall 1 stop; Mutex (Lock 1); Mutex (Run 1 [])]) started) as [[[s ts] fs]|] eqn:E; [|by vm_compute in E].
  pose proof (pool_perform_reaches _ _ _ _ _ E) as Hr. exists s, ts.
  vm_compute in E. injection E as <- _ <-. by split.
Qed.

(** A task left when the pool is stopped is never run: the worker finds
    [running_] false. *)
Example tasks_left_behind :
  ∃ s ts, reaches started [UserCall 1 (run (Some 5)); Mutex (Lock 1); Mutex (Run 1 []); UserCall 1 stop; Mutex (Lock 1); Mutex (Run 1 []);
      Return 10; Test 10; Join 1; Join 1; Join 1] s ts [] ∧
    ts = [Some 5] ∧ queue_ (data (pool s)) = [Some 5] ∧ workers s !! 10 = Some Exited.
Proof.
  destruct (perform [UserCall 1 (run (Some 5)); Mutex (Lock 1); Mutex (Run 1 []); UserCall 1 stop; Mutex (Lock 1); Mutex (Run 1 []);
      Return 10; Test 10; Join 1; Join 1; Join 1] started) as [[[s ts] fs]|] eqn:E; [|by vm_compute in E].
  pose proof (pool_perform_reaches _ _ _ _ _ E) as Hr. exists s, ts.
  vm_compute in E. injection E as <- <- <-. by split.
Qed.
End Sample.
End ThreadPool.
