(* ===== verification/Threads.v ===== *)
(** Threads and loops in threads of their own (src/IMServer/src/muduo:
    base/Thread.h/.cc, base/CurrentThread.h/.cc, net/EventLoopThread.h/.cc,
    net/EventLoopThreadPool.h/.cc).  [EventLoopThread] is a transition system of
    two threads, the one that owns the object and the one it starts, whose steps
    are the accesses to what they share; it has finitely many states, and what
    holds in all of them is checked on the list of those that can be reached.
    The loops themselves are EventLoop.v. *)

From S2P Require Import Prelude CDouble.
Local Open Scope Z_scope.

(** * Names and stack traces *)
Module CurrentThread.

(** The text of one symbol of [backtrace_symbols] in [stackTrace]: the position
    of the last opening parenthesis and of the last plus. *)
Fixpoint last_index (c : byte) (i : nat) (s : bytes) : option nat :=
  match s with
  | [] => None
  | b :: s => match last_index c (S i) s with
              | Some j => Some j
              | None => if decide (b = c) then Some i else None
              end
  end.

(** [abi::__cxa_demangle], [None] if its status is not 0. *)
Definition demangler := bytes → option bytes.

Definition frame_text (demangle : option demangler) (symbol : bytes) : bytes :=
  match demangle, last_index x28 0 symbol, last_index x2b 0 symbol with
  | Some d, Some left_par, Some plus =>
      (* the name goes from the parenthesis to the NUL written over the plus *)
      let name := c_str (drop (S left_par) (<[plus := x00]> symbol)) in
      match d name with
      | Some demangled => take (S left_par) symbol ++ demangled ++ drop plus symbol ++ [x0a]
      | None => symbol ++ [x0a]
      end
  | _, _, _ => symbol ++ [x0a]
  end.

(** [stackTrace( demangle )]: the first symbol is this function; [None] if
    [backtrace_symbols] fails. *)
Definition stackTrace (demangle : option demangler) (symbols : option (list bytes)) : bytes :=
  match symbols with
  | Some strings => concat (map (frame_text demangle) (drop 1 strings))
  | None => []
  end.

(** [sleepUsec( usec )]: the seconds and nanoseconds of [nanosleep]. *)
Definition sleepUsec (usec : Z) : Z * Z := (Z.quot usec 1000000, Z.rem usec 1000000 * 1000).

Lemma last_index_none c i s : c ∉ s → last_index c i s = None.
Proof.
  revert i. induction s as [|b s IH]; intros i Hc; [done|]. apply not_elem_of_cons in Hc as [Hb Hc].
  cbn. rewrite IH by done. by rewrite decide_False.
Qed.
Lemma last_index_app c i a b : c ∉ b → last_index c i (a ++ c :: b) = Some (i + length a)%nat.
Proof.
  intros Hb. revert i. induction a as [|x a IH]; intros i; cbn.
  - rewrite last_index_none by done. rewrite decide_True by done. f_equal. lia.
  - rewrite IH. f_equal. lia.
Qed.

(** A frame [file(name+offset) [address]] gets its name demangled. *)
Theorem frame_demangled d pre name post dem :
  x28 ∉ name → x28 ∉ post → x2b ∉ post → x00 ∉ name → d name = Some dem →
  frame_text (Some d) (pre ++ x28 :: name ++ x2b :: post) = pre ++ x28 :: dem ++ x2b :: post ++ [x0a].
Proof.
  intros Hn Hp1 Hp2 H0 Hd. unfold frame_text.
  rewrite last_index_app by (rewrite elem_of_app, elem_of_cons; intros [?|[?|?]]; done).
  replace (pre ++ x28 :: name ++ x2b :: post) with ((pre ++ x28 :: name) ++ x2b :: post) by (by rewrite <-app_assoc).
  rewrite last_index_app by done. rewrite !Nat.add_0_l. cbn zeta.
  rewrite <-(Nat.add_0_r (length (pre ++ _))) at 1. rewrite insert_app_r. cbn [insert list_insert].
  assert (Hl : S (length pre) = length (pre ++ [x28])) by (rewrite length_app; cbn; lia).
  assert (Hs : pre ++ x28 :: name = (pre ++ [x28]) ++ name) by by rewrite <-app_assoc.
  rewrite Hl, Hs, <-!app_assoc with (l := pre ++ [x28]).
  rewrite drop_app_length, take_app_length.
  assert (Hc : c_str (name ++ x00 :: post) = name).
  { clear -H0. induction name as [|b name IH]; [done|]. apply not_elem_of_cons in H0 as [? ?]. cbn.
    rewrite decide_False by done. by rewrite IH. }
  rewrite Hc, Hd. rewrite (app_assoc (pre ++ [x28]) name), drop_app_length. by rewrite <-!app_assoc.
Qed.

Lemma sleepUsec_exact usec :
  0 ≤ usec → let '(s, ns) := sleepUsec usec in s * 1000000000 + ns = usec * 1000 ∧ 0 ≤ ns < 1000000000.
Proof.
  intros Hu. unfold sleepUsec. rewrite Z.quot_div_nonneg, Z.rem_mod_nonneg by lia.
  pose proof (Z.div_mod usec 1000000 ltac:(lia)). pose proof (Z.mod_pos_bound usec 1000000 ltac:(lia)). lia.
Qed.

End CurrentThread.

Module Thread.

(** [setDefaultName()]: the thread is the [num]-th created. *)
Definition setDefaultName (name : bytes) (num : Z) : bytes :=
  if bool_decide (name = []) then take 31 (bs "Thread" ++ signed_decimal num) else name.

(** How the function of a thread ends, and what becomes of it in
    [runInThread]: the name the thread is left with, and whether the process
    goes on, is aborted or the exception passed on. *)
Inductive ending := Returns | ThrowsException | ThrowsStdException | ThrowsOther.
Inductive after := GoesOn | Aborted | Rethrown.
Definition runInThread (name : bytes) (e : ending) : bytes * bytes * after :=
  let t_threadName := if bool_decide (name = []) then bs "muduoThread" else name in
  match e with
  | Returns => (t_threadName, bs "finished", GoesOn)
  | ThrowsException | ThrowsStdException => (t_threadName, bs "crashed", Aborted)
  | ThrowsOther => (t_threadName, bs "crashed", Rethrown)
  end.

End Thread.

(** * [EventLoopThread] *)
Module EventLoopThread.

(** Where the owner is: in [Thread::start] waiting on the latch, in
    [startLoop] at the mutex, testing [loop_] or waiting on the condition,
    back from [startLoop], in the destructor before it tests [loop_], calls
    [quit], joins; done. *)
Inductive owner_pc :=
  | Fresh | AtLatch | AtLock | Testing | Waiting | Started
  | DtorTest | DtorQuit | DtorJoin | Gone.
(** Where the thread is: in [runInThread] storing its identifier and counting
    down; in [threadFunc] constructing the loop, in the callback, locking,
    storing [loop_], notifying, unlocking; in [EventLoop::loop] resetting
    [quit_], testing it, polling; locking, clearing [loop_], unlocking,
    destructing the loop; finished. *)
Inductive thread_pc :=
  | Unborn | StoreTid | CountDown | MakeLoop | InCallback | LockToStore | StoreLoop | NotifyOwner | UnlockStored
  | EnterLoop | TestQuit | Polling | LockToClear | ClearLoop | UnlockCleared | DropLoop | Finished.
Inductive side := Owner | Child.
#[global] Instance owner_pc_eq_dec : EqDecision owner_pc.
Proof. solve_decision. Defined.
#[global] Instance thread_pc_eq_dec : EqDecision thread_pc.
Proof. solve_decision. Defined.
#[global] Instance side_eq_dec : EqDecision side.
Proof. solve_decision. Defined.

(** The object ([loop_] by whether it is set), its [Thread], the mutex, and the
    loop on the stack of the thread with its [quit_]; [got] is what [startLoop]
    returned, [destroyed] that the object is gone. *)
Record t := mk {
  owner : owner_pc; child : thread_pc;
  started_ : bool; joined_ : bool; tid_ : bool; latch_ : bool;
  mutex_ : option side; loop_ : bool; exiting_ : bool;
  loop_alive : bool; quit_ : bool; got : bool; destroyed : bool
}.
#[global] Instance t_eq_dec : EqDecision t.
Proof. solve_decision. Defined.

Definition make : t := mk Fresh Unborn false false false true None false false false false false false.

Definition set_owner p s := mk p (child s) (started_ s) (joined_ s) (tid_ s) (latch_ s) (mutex_ s) (loop_ s) (exiting_ s) (loop_alive s) (quit_ s) (got s) (destroyed s).
Definition set_child p s := mk (owner s) p (started_ s) (joined_ s) (tid_ s) (latch_ s) (mutex_ s) (loop_ s) (exiting_ s) (loop_alive s) (quit_ s) (got s) (destroyed s).
Definition set_started s := mk (owner s) (child s) true (joined_ s) (tid_ s) (latch_ s) (mutex_ s) (loop_ s) (exiting_ s) (loop_alive s) (quit_ s) (got s) (destroyed s).
Definition set_joined s := mk (owner s) (child s) (started_ s) true (tid_ s) (latch_ s) (mutex_ s) (loop_ s) (exiting_ s) (loop_alive s) (quit_ s) (got s) (destroyed s).
Definition set_tid s := mk (owner s) (child s) (started_ s) (joined_ s) true (latch_ s) (mutex_ s) (loop_ s) (exiting_ s) (loop_alive s) (quit_ s) (got s) (destroyed s).
Definition count_down s := mk (owner s) (child s) (started_ s) (joined_ s) (tid_ s) false (mutex_ s) (loop_ s) (exiting_ s) (loop_alive s) (quit_ s) (got s) (destroyed s).
Definition set_mutex m s := mk (owner s) (child s) (started_ s) (joined_ s) (tid_ s) (latch_ s) m (loop_ s) (exiting_ s) (loop_alive s) (quit_ s) (got s) (destroyed s).
Definition set_loop b s := mk (owner s) (child s) (started_ s) (joined_ s) (tid_ s) (latch_ s) (mutex_ s) b (exiting_ s) (loop_alive s) (quit_ s) (got s) (destroyed s).
Definition set_exiting s := mk (owner s) (child s) (started_ s) (joined_ s) (tid_ s) (latch_ s) (mutex_ s) (loop_ s) true (loop_alive s) (quit_ s) (got s) (destroyed s).
Definition set_alive b s := mk (owner s) (child s) (started_ s) (joined_ s) (tid_ s) (latch_ s) (mutex_ s) (loop_ s) (exiting_ s) b (quit_ s) (got s) (destroyed s).
Definition set_quit b s := mk (owner s) (child s) (started_ s) (joined_ s) (tid_ s) (latch_ s) (mutex_ s) (loop_ s) (exiting_ s) (loop_alive s) b (got s) (destroyed s).
Definition set_got b s := mk (owner s) (child s) (started_ s) (joined_ s) (tid_ s) (latch_ s) (mutex_ s) (loop_ s) (exiting_ s) (loop_alive s) (quit_ s) b (destroyed s).
Definition set_destroyed s := mk (owner s) (child s) (started_ s) (joined_ s) (tid_ s) (latch_ s) (mutex_ s) (loop_ s) (exiting_ s) (loop_alive s) (quit_ s) (got s) true.

(** What can happen: the owner calls [startLoop] or begins the destructor, or
    goes on; the thread goes on; a task of the loop calls [quit]; a wait of the
    owner wakes up for no reason. *)
Inductive action := StartLoop | Destroy | OwnerStep | ChildStep | TaskQuits | Spurious.
#[global] Instance action_eq_dec : EqDecision action.
Proof. solve_decision. Defined.
Definition actions : list action := [StartLoop; Destroy; OwnerStep; ChildStep; TaskQuits; Spurious].

(** The end of the destructor: the members go, the mutex must be free. *)
Definition destruct_members (s : t) : outcome t :=
  _ ← cassert (bool_decide (mutex_ s = None)) "holder_ == 0";
  Done (set_owner Gone (set_destroyed s)).

(** A step of the owner; [None] where it is blocked or has nothing to do. *)
Definition owner_step (s : t) : option (outcome t) :=
  match owner s with
  | AtLatch =>                                               (* the end of Thread::start *)
      if latch_ s then None
      else Some (_ ← cassert (tid_ s) "tid_ > 0"; Done (set_owner AtLock s))
  | AtLock => if mutex_ s then None else Some (Done (set_owner Testing (set_mutex (Some Owner) s)))
  | Testing =>
      Some (Done (if loop_ s then set_owner Started (set_got true (set_mutex None s))
                  else set_owner Waiting (set_mutex None s)))
  | DtorTest => Some (if loop_ s then Done (set_owner DtorQuit s) else destruct_members s)
  | DtorQuit =>
      Some (_ ← defined_if (loop_alive s) "quit() of a destroyed loop";
            _ ← cassert (started_ s) "started_";
            _ ← cassert (negb (joined_ s)) "!joined_";
            Done (set_owner DtorJoin (set_joined (set_quit true s))))
  | DtorJoin => if bool_decide (child s = Finished) then Some (destruct_members s) else None
  | Fresh | Waiting | Started | Gone => None
  end.

(** The thread uses the object. *)
Definition use_object (s : t) (k : t) : option (outcome t) :=
  Some (_ ← defined_if (negb (destroyed s)) "use of a destroyed EventLoopThread"; Done k).
Definition locking (next : thread_pc) (s : t) : option (outcome t) :=
  if destroyed s then use_object s s
  else if mutex_ s then None else use_object s (set_child next (set_mutex (Some Child) s)).

Definition child_step (s : t) : option (outcome t) :=
  match child s with
  | StoreTid => use_object s (set_child CountDown (set_tid s))
  | CountDown => use_object s (set_child MakeLoop (count_down s))
  | MakeLoop => Some (Done (set_child InCallback (set_alive true s)))
  | InCallback => use_object s (set_child LockToStore s)
  | LockToStore => locking StoreLoop s
  | StoreLoop => use_object s (set_child NotifyOwner (set_loop true s))
  | NotifyOwner =>
      use_object s (set_child UnlockStored (if bool_decide (owner s = Waiting) then set_owner AtLock s else s))
  | UnlockStored => use_object s (set_child EnterLoop (set_mutex None s))
  | EnterLoop => Some (Done (set_child TestQuit (set_quit false s)))
  | TestQuit => Some (Done (set_child (if quit_ s then LockToClear else Polling) s))
  | Polling => Some (Done (set_child TestQuit s))
  | LockToClear => locking ClearLoop s
  | ClearLoop => use_object s (set_child UnlockCleared (set_loop false s))
  | UnlockCleared => use_object s (set_child DropLoop (set_mutex None s))
  | DropLoop => Some (Done (set_child Finished (set_alive false s)))
  | Unborn | Finished => None
  end.

Definition run (a : action) (s : t) : option (outcome t) :=
  match a with
  | StartLoop =>
      if bool_decide (owner s = Fresh ∨ owner s = Started) then
        Some (_ ← cassert (negb (started_ s)) "!thread_.started()";
              Done (set_owner AtLatch (set_child StoreTid (set_started s))))
      else None
  | Destroy =>
      if bool_decide (owner s = Fresh ∨ owner s = Started) then Some (Done (set_owner DtorTest (set_exiting s))) else None
  | OwnerStep => owner_step s
  | ChildStep => child_step s
  | TaskQuits => if bool_decide (child s = Polling) then Some (Done (set_quit true s)) else None
  | Spurious => if bool_decide (owner s = Waiting) then Some (Done (set_owner AtLock s)) else None
  end.

(** How the object is to be used: started once; destroyed before that or
    once its loop runs; its tasks leave the loop running. *)
Definition disciplined (a : action) (s : t) : bool :=
  match a with
  | StartLoop => bool_decide (owner s = Fresh)
  | Destroy => bool_decide (owner s = Fresh ∨ child s = TestQuit ∨ child s = Polling)
  | TaskQuits => false
  | OwnerStep | ChildStep | Spurious => true
  end.

Inductive reachable : t → Prop :=
  | reach_make : reachable make
  | reach_step s a s' :
      reachable s → disciplined a s = true → run a s = Some (Done s') → reachable s'.

(** ** The states that can be reached *)
Definition successors (s : t) : list t :=
  omap (λ a, if disciplined a s then match run a s with Some (Done s') => Some s' | _ => None end else None) actions.
Fixpoint explore (fuel : nat) (todo seen : list t) : list t :=
  match fuel, todo with
  | S fuel, s :: todo =>
      if bool_decide (s ∈ seen) then explore fuel todo seen else explore fuel (successors s ++ todo) (s :: seen)
  | _, _ => seen
  end.
Definition states : list t := Eval vm_compute in explore 2000 [make] [].

(** The owner is inside [startLoop] or the destructor. *)
Definition in_call (s : t) : bool := negb (bool_decide (owner s ∈ [Fresh; Started; Gone])).

(** The work left to both threads. *)
Definition owner_rank (p : owner_pc) : nat :=
  match p with
  | Fresh => 9 | AtLatch => 8 | AtLock => 7 | Testing => 6 | Waiting => 5 | Started => 4
  | DtorTest => 3 | DtorQuit => 2 | DtorJoin => 1 | Gone => 0
  end.
Definition child_rank (p : thread_pc) : nat :=
  match p with
  | Unborn => 17 | StoreTid => 16 | CountDown => 15 | MakeLoop => 14 | InCallback => 13 | LockToStore => 12
  | StoreLoop => 11 | NotifyOwner => 10 | UnlockStored => 9 | EnterLoop => 8 | Polling => 7 | TestQuit => 6
  | LockToClear => 5 | ClearLoop => 4 | UnlockCleared => 3 | DropLoop => 2 | Finished => 0
  end.
Definition measure (s : t) : nat := 20 * child_rank (child s) + owner_rank (owner s).

Definition lowers (a : action) (s : t) : bool :=
  match run a s with Some (Done s') => bool_decide (measure s' < measure s)%nat | _ => false end.
(** The thread finds that its loop is not to quit. *)
Definition keeps_polling (a : action) (s : t) : bool :=
  bool_decide (a = ChildStep ∧ child s = TestQuit ∧ quit_ s = false).

(** What a state is checked for: every step stays among [states]; the loop
    handed to the owner is alive; in the end the thread is joined; a call of
    the owner comes nearer to its end. *)
Definition step_checked (s : t) (a : action) : bool :=
  negb (disciplined a s) ||
  match run a s with
  | None => true
  | Some (Done s') => bool_decide (s' ∈ states) && (bool_decide (a ∉ [OwnerStep; ChildStep]) || lowers a s || keeps_polling a s)
  | Some (Fault _) => false
  end.
Definition checked (s : t) : bool :=
  forallb (step_checked s) actions
  && (negb (bool_decide (owner s = Started)) || (got s && loop_ s && loop_alive s))
  && (negb (bool_decide (owner s = Gone)) ||
      (destroyed s && negb (loop_alive s) && bool_decide (child s = if started_ s then Finished else Unborn)
       && eqb (joined_ s) (started_ s)))
  && (negb (in_call s) || lowers OwnerStep s || lowers ChildStep s).

Lemma all_checked : forallb checked states = true.
Proof. vm_compute. reflexivity. Qed.

Lemma state_checked s : s ∈ states → checked s = true.
Proof. intros Hs. apply (proj1 (forallb_forall _ _) all_checked). by apply list_elem_of_In. Qed.
Lemma step_of_state s a : s ∈ states → step_checked s a = true.
Proof.
  intros Hs. pose proof (state_checked s Hs) as Hc. unfold checked in Hc. rewrite !andb_true_iff in Hc.
  destruct Hc as [[[Hc _] _] _]. apply (proj1 (forallb_forall _ _) Hc). destruct a; cbn; tauto.
Qed.

Lemma reachable_states s : reachable s → s ∈ states.
Proof.
  induction 1 as [|s a s' _ IH Hd Hr].
  - apply (bool_decide_unpack _). vm_compute. reflexivity.
  - pose proof (step_of_state s a IH) as Hc. unfold step_checked in Hc. rewrite Hd, Hr in Hc. cbn [negb orb] in Hc.
    apply andb_prop in Hc as [Hc _]. by apply bool_decide_eq_true in Hc.
Qed.

(** Runs a list of actions. *)
Fixpoint run_all (l : list action) (s : t) : option (outcome t) :=
  match l with
  | [] => Some (Done s)
  | a :: l => match run a s with Some (Done s') => run_all l s' | r => r end
  end.
Fixpoint disciplined_all (l : list action) (s : t) : bool :=
  match l with
  | [] => true
  | a :: l => disciplined a s && match run a s with Some (Done s') => disciplined_all l s' | _ => false end
  end.
Lemma run_all_reachable l s s' :
  reachable s → disciplined_all l s = true → run_all l s = Some (Done s') → reachable s'.
Proof.
  revert s. induction l as [|a l IH]; intros s Hs Hd Hr; cbn in Hd, Hr; [by simplify_eq|].
  apply andb_prop in Hd as [Hd Hl]. destruct (run a s) as [[s1|]|] eqn:E; try done.
  apply (IH s1); [by eapply reach_step|done|done].
Qed.

(** The thread started and its loop running. *)
Definition starting : list action :=
  [StartLoop; ChildStep; ChildStep; OwnerStep; OwnerStep; OwnerStep; ChildStep; ChildStep; ChildStep; ChildStep;
   ChildStep; ChildStep; OwnerStep; OwnerStep].
Definition running : t :=
  match run_all (starting ++ [ChildStep; ChildStep]) make with Some (Done s) => s | _ => make end.
Lemma running_reachable : reachable running.
Proof.
  apply (run_all_reachable (starting ++ [ChildStep; ChildStep]) make running reach_make); vm_compute; reflexivity.
Qed.

(** * Properties *)

(** A loop in a thread of its own, in every interleaving of the owner and
    the thread that the discipline allows: no assertion fails and no destroyed
    object is used; [startLoop] returns a loop that is alive, and it stays so
    until the destructor; after the destructor the thread has finished and is
    joined; and a call of the owner always comes to an end: some thread can take
    a step towards it, and every step but the test of a loop that is not to quit
    is one. *)
Theorem event_loop_thread_correct s a :
  reachable s → disciplined a s = true →
  (∀ f, run a s ≠ Some (Fault f)) ∧
  (owner s = Started → got s = true ∧ loop_ s = true ∧ loop_alive s = true) ∧
  (owner s = Gone → destroyed s = true ∧ loop_alive s = false ∧ joined_ s = started_ s ∧
     child s = if started_ s then Finished else Unborn) ∧
  (in_call s = true → lowers OwnerStep s = true ∨ lowers ChildStep s = true) ∧
  (a ∈ [OwnerStep; ChildStep] → run a s = None ∨ lowers a s = true ∨ keeps_polling a s = true).
Proof.
  intros Hr Hd. pose proof (reachable_states s Hr) as Hs.
  pose proof (step_of_state s a Hs) as Hstep. unfold step_checked in Hstep. rewrite Hd in Hstep. cbn [negb orb] in Hstep.
  pose proof (state_checked s Hs) as Hc. unfold checked in Hc. rewrite !andb_true_iff in Hc.
  destruct Hc as [[[_ Hstarted] Hgone] Hcall]. split; [|split; [|split; [|split]]].
  - intros f Hf. by rewrite Hf in Hstep.
  - intros Ho. rewrite bool_decide_true in Hstarted by done. cbn in Hstarted.
    by apply andb_prop in Hstarted as [[? ?]%andb_prop ?].
  - intros Ho. rewrite bool_decide_true in Hgone by done. cbn [negb orb] in Hgone.
    rewrite !andb_true_iff, negb_true_iff, bool_decide_eq_true, eqb_true_iff in Hgone. naive_solver.
  - intros Hi. rewrite Hi in Hcall. cbn [negb orb] in Hcall. by apply orb_prop.
  - intros Ha. destruct (run a s) as [[s'|f]|]; [|done|by left]. right.
    apply andb_prop in Hstep as [_ Hl]. rewrite bool_decide_false in Hl by (by intros ?). by apply orb_prop.
Qed.

Lemma event_loop_thread_correct_witness :
  got running = true ∧ ∀ f, run Destroy running ≠ Some (Fault f).
Proof.
  split; [vm_compute; reflexivity|].
  exact (proj1 (event_loop_thread_correct running Destroy running_reachable ltac:(vm_compute; reflexivity))).
Defined.

(** The whole life: the destructor stops the loop and joins the thread. *)
Example whole_life :
  run_all [Destroy; OwnerStep; OwnerStep; ChildStep; ChildStep; ChildStep; ChildStep; ChildStep; ChildStep; OwnerStep] running =
  Some (Done (mk Gone Finished true true true false None false true false true true true)).
Proof. vm_compute. reflexivity. Qed.

(** ** Without the discipline *)

(** A state no schedule leaves without a task that quits. *)
Definition stuck_at (p : owner_pc) (s : t) : Prop :=
  ∀ l s', TaskQuits ∉ l → Spurious ∉ l → run_all l s = Some (Done s') → owner s' = p.

Lemma stuck_invariant (P : t → bool) p s :
  P s = true → (∀ s, P s = true → owner s = p) →
  (∀ s a s', P s = true → a ≠ TaskQuits → a ≠ Spurious → run a s = Some (Done s') → P s' = true) → stuck_at p s.
Proof.
  intros H0 Hp Hstep l. revert s H0. induction l as [|a l IH]; intros s H0 s' Ht Hs Hr; cbn in Hr.
  - simplify_eq. by apply Hp.
  - apply not_elem_of_cons in Ht as [Ht Htl], Hs as [Hs Hsl].
    destruct (run a s) as [[s1|]|] eqn:E; try done. apply (IH s1); [|done..]. by eapply Hstep.
Qed.

Definition state_after (l : list action) : t :=
  match run_all l make with Some (Done s) => s | _ => make end.

(** Destroyed as soon as [startLoop] has returned, the thread not yet in
    [loop()], which then forgets the call of [quit]: the destructor waits for
    ever. *)
Definition forgets_quit : t := state_after (starting ++ [Destroy; OwnerStep; OwnerStep; ChildStep]).
Theorem destroyed_early_hangs : stuck_at DtorJoin forgets_quit.
Proof.
  apply (stuck_invariant (λ s, bool_decide (owner s = DtorJoin ∧ child s ∈ [TestQuit; Polling] ∧ quit_ s = false))).
  - vm_compute. reflexivity.
  - intros s Hs%bool_decide_eq_true. apply Hs.
  - intros s a s' (Ho & Hc & Hq)%bool_decide_eq_true Ha Hsp Hr. apply bool_decide_eq_true.
    destruct a; cbn in Hr; try done.
    + by rewrite Ho in Hr.
    + by rewrite Ho in Hr.
    + unfold owner_step in Hr. rewrite Ho, bool_decide_false in Hr; [done|]. intros Hf. rewrite Hf in Hc. set_solver.
    + unfold child_step in Hr. apply elem_of_cons in Hc as [Hc|Hc%list_elem_of_singleton]; rewrite Hc in Hr.
      * rewrite Hq in Hr. simplify_eq. cbn. split_and!; [done|set_solver|done].
      * simplify_eq. cbn. split_and!; [done|set_solver|done].
Qed.

(** A task quits the loop before [startLoop] has seen [loop_]: it waits for
    ever. *)
Definition loop_came_and_went : t :=
  state_after ([StartLoop] ++ replicate 10 ChildStep ++ [TaskQuits] ++ replicate 6 ChildStep ++ replicate 3 OwnerStep).
Theorem quit_early_hangs : stuck_at Waiting loop_came_and_went.
Proof.
  apply (stuck_invariant (λ s, bool_decide (owner s = Waiting ∧ child s = Finished))).
  - vm_compute. reflexivity.
  - intros s Hs%bool_decide_eq_true. apply Hs.
  - intros s a s' (Ho & Hc)%bool_decide_eq_true Ha Hsp Hr. apply bool_decide_eq_true.
    destruct a; cbn in Hr; try done; unfold owner_step, child_step in Hr; rewrite ?Ho, ?Hc in Hr; try done.
Qed.

(** The loop ends by itself between the test of [loop_] in the destructor and
    the call of [quit]. *)
Example quit_of_dead_loop :
  run_all ([Destroy; OwnerStep; TaskQuits; ChildStep; ChildStep; ChildStep; ChildStep; ChildStep; ChildStep; OwnerStep])
    running = Some (Fault (Undefined "quit() of a destroyed loop")).
Proof. vm_compute. reflexivity. Qed.

(** Or after clearing [loop_], before unlocking the mutex of the object. *)
Example mutex_destroyed_locked :
  run_all ([TaskQuits; ChildStep; ChildStep; ChildStep; ChildStep; Destroy; OwnerStep]) running =
  Some (Fault (AssertFailed "holder_ == 0")).
Proof. vm_compute. reflexivity. Qed.

End EventLoopThread.

(** * [EventLoopThreadPool] *)
Module EventLoopThreadPool.

(** Loops are known by their addresses; of its threads the pool keeps their
    names. *)
Record t := mk {
  baseLoop_ : Z;
  name_ : bytes;
  started_ : bool;
  numThreads_ : Z;
  next_ : Z;
  threads_ : list bytes;
  loops_ : list Z
}.
Definition set_next n p := mk (baseLoop_ p) (name_ p) (started_ p) (numThreads_ p) n (threads_ p) (loops_ p).

Definition make (baseLoop : Z) (nameArg : bytes) : t := mk baseLoop nameArg false 0 0 [] [].
Definition setThreadNum (n : Z) (p : t) : t :=
  mk (baseLoop_ p) (name_ p) (started_ p) n (next_ p) (threads_ p) (loops_ p).

(** [baseLoop_->assertInLoopThread()] *)
Definition assertInLoopThread (inLoop : bool) : outcome unit :=
  if inLoop then Done tt else Fault (Thrown "LOG_FATAL").

(** The name of the [i]-th thread, in an array of [name_.size() + 32]. *)
Definition thread_name (p : t) (i : Z) : bytes := take (length (name_ p) + 31) (name_ p ++ signed_decimal i).

(** [start( cb )]: [startLoop i] is the loop the [i]-th thread returns; the
    loops [cb] is called with in this thread are returned. *)
Fixpoint start_threads (startLoop : Z → Z) (n : nat) (i : Z) (p : t) : t :=
  match n with
  | O => p
  | S n =>
      start_threads startLoop n (i + 1)
        (mk (baseLoop_ p) (name_ p) (started_ p) (numThreads_ p) (next_ p)
           (threads_ p ++ [thread_name p i]) (loops_ p ++ [startLoop i]))
  end.
Definition start (inLoop cb : bool) (startLoop : Z → Z) (p : t) : outcome (list Z * t) :=
  _ ← cassert (negb (started_ p)) "!started_";
  _ ← assertInLoopThread inLoop;
  let p := mk (baseLoop_ p) (name_ p) true (numThreads_ p) (next_ p) (threads_ p) (loops_ p) in
  let p := start_threads startLoop (Z.to_nat (numThreads_ p)) 0 p in
  Done (if (numThreads_ p =? 0) && cb then [baseLoop_ p] else [], p).

(** [loops_[ i ]] *)
Definition loop_at (i : Z) (p : t) : outcome Z :=
  match loops_ p !! Z.to_nat i with
  | Some l => if 0 <=? i then Done l else Fault (Undefined "loops_[]")
  | None => Fault (Undefined "loops_[]")
  end.

Definition getNextLoop (inLoop : bool) (p : t) : outcome (Z * t) :=
  _ ← assertInLoopThread inLoop;
  _ ← cassert (started_ p) "started_";
  if bool_decide (loops_ p = []) then Done (baseLoop_ p, p)
  else
    loop ← loop_at (next_ p) p;
    let next := next_ p + 1 in
    Done (loop, set_next (if szof (loops_ p) <=? u64 next then 0 else next) p).

Definition getLoopForHash (inLoop : bool) (hashCode : Z) (p : t) : outcome Z :=
  _ ← assertInLoopThread inLoop;
  if bool_decide (loops_ p = []) then Done (baseLoop_ p) else loop_at (hashCode mod szof (loops_ p)) p.

Definition getAllLoops (inLoop : bool) (p : t) : outcome (list Z) :=
  _ ← assertInLoopThread inLoop;
  _ ← cassert (started_ p) "started_";
  Done (if bool_decide (loops_ p = []) then [baseLoop_ p] else loops_ p).

(** [k] calls of [getNextLoop]. *)
Fixpoint next_loops (k : nat) (p : t) : outcome (list Z * t) :=
  match k with
  | O => Done ([], p)
  | S k => '(l, p) ← getNextLoop true p; '(ls, p) ← next_loops k p; Done (l :: ls, p)
  end.

(** ** Lemmas *)

Lemma start_threads_spec f n i p :
  0 ≤ i → i + Z.of_nat n < 10 ^ 31 →
  let p' := start_threads f n i p in
  loops_ p' = loops_ p ++ map (λ j, f (i + Z.of_nat j)) (seq 0 n) ∧
  threads_ p' = threads_ p ++ map (λ j, name_ p ++ decimal (i + Z.of_nat j)) (seq 0 n) ∧
  baseLoop_ p' = baseLoop_ p ∧ next_ p' = next_ p ∧ started_ p' = started_ p ∧ numThreads_ p' = numThreads_ p.
Proof.
  revert i p. induction n as [|n IH]; intros i p Hi Hn p'; unfold p'; cbn [start_threads].
  - cbn. by rewrite !app_nil_r.
  - destruct (IH (i + 1) (mk (baseLoop_ p) (name_ p) (started_ p) (numThreads_ p) (next_ p)
      (threads_ p ++ [thread_name p i]) (loops_ p ++ [f i]))) as (H1 & H2 & H3); [lia|lia|].
    assert (Hname : thread_name p i = name_ p ++ decimal i).
    { unfold thread_name, signed_decimal. rewrite (proj2 (Z.ltb_ge i 0)) by lia. apply take_ge.
      rewrite length_app. pose proof (decimal_length i 30 ltac:(split; [lia|]; change (10 ^ 31) with (10 ^ Z.of_nat 31) in Hn; lia)). lia. }
    rewrite Hname in H1, H2, H3 |- *. rewrite H1, H2. cbn [loops_ threads_ name_]. rewrite <-!app_assoc. cbn [app seq map]. rewrite Z.add_0_r.
    rewrite <-seq_shift, !map_map. split; [|split; [|exact H3]]; do 2 f_equal; apply map_ext; intros j.
    + f_equal. lia.
    + do 2 f_equal. lia.
Qed.

(** A pool that is started, and where its next loop is. *)
Record running (p : t) : Prop := mkRunning {
  running_started : started_ p = true;
  running_next : loops_ p ≠ [] → 0 ≤ next_ p < szof (loops_ p);
  running_size : szof (loops_ p) < 2 ^ 31
}.

Lemma getNextLoop_spec p :
  running p → ∃ l p', getNextLoop true p = Done (l, p') ∧ running p' ∧
    loops_ p' = loops_ p ∧ baseLoop_ p' = baseLoop_ p ∧
    (loops_ p = [] → l = baseLoop_ p) ∧
    (loops_ p ≠ [] → loops_ p !! Z.to_nat (next_ p) = Some l ∧ next_ p' = (next_ p + 1) mod szof (loops_ p)).
Proof.
  intros [Hs Hn Hz]. unfold getNextLoop. rewrite Hs. cbn [assertInLoopThread cassert mbind outcome_bind].
  case_bool_decide as He.
  - exists (baseLoop_ p), p. do 5 (split; [done|]). by intros ?.
  - specialize (Hn He). unfold loop_at. destruct (lookup_lt_is_Some_2 (loops_ p) (Z.to_nat (next_ p))) as [l Hl]; [lia|].
    rewrite Hl, (proj2 (Z.leb_le 0 (next_ p))) by lia. cbn [mbind outcome_bind].
    rewrite (wrapu_small 64) by lia. eexists l, _. split; [done|].
    assert (Hnext : (if szof (loops_ p) <=? next_ p + 1 then 0 else next_ p + 1) = (next_ p + 1) mod szof (loops_ p)).
    { destruct (Z.leb_spec (szof (loops_ p)) (next_ p + 1)).
      - assert (next_ p + 1 = szof (loops_ p)) as -> by lia. rewrite Z.mod_same; lia.
      - rewrite Z.mod_small; lia. }
    split_and!; [|done..]. split; cbn; [done| |done]. intros _. rewrite Hnext. apply Z.mod_pos_bound. lia.
Qed.

Lemma next_loops_spec k p :
  running p → ∃ ls p', next_loops k p = Done (ls, p') ∧ running p' ∧
    ls = map (λ j, default (baseLoop_ p) (loops_ p !! Z.to_nat ((next_ p + Z.of_nat j) mod szof (loops_ p)))) (seq 0 k).
Proof.
  revert p. induction k as [|k IH]; intros p Hp.
  - by exists [], p.
  - destruct (getNextLoop_spec p Hp) as (l & p1 & Hg & Hp1 & Hl1 & Hb1 & Hnil & Hcons).
    destruct (IH p1 Hp1) as (ls & p' & Hk & Hp' & Hls). exists (l :: ls), p'. cbn [next_loops]. rewrite Hg, bind_ret_l, Hk, bind_ret_l.
    split; [done|]. split; [done|]. cbn [seq map]. rewrite <-seq_shift, map_map. rewrite Hls, Hl1, Hb1. f_equal.
    + destruct (decide (loops_ p = [])) as [He|He].
      * rewrite He, (Hnil He). done.
      * destruct (Hcons He) as [Hl _]. rewrite Z.add_0_r, Z.mod_small by (by apply running_next). by rewrite Hl.
    + apply map_ext. intros j. destruct (decide (loops_ p = [])) as [He|He]; [by rewrite He|].
      do 3 f_equal. destruct (Hcons He) as [_ ->]. rewrite Zplus_mod_idemp_l. f_equal. lia.
Qed.

(** The threads of a pool get the loops of their threads, in order, and names
    of their own; connections are dealt out to them in turn, each to the base
    loop if there are none; and a hash always picks the same one. *)
Theorem pool_deals_in_turn base name n cb startLoop k h :
  0 ≤ n < 2 ^ 31 → 0 ≤ h →
  let ls := map (λ j, startLoop (Z.of_nat j)) (seq 0 (Z.to_nat n)) in
  ∃ called p, start true cb startLoop (setThreadNum n (make base name)) = Done (called, p) ∧
    threads_ p = map (λ j, name ++ decimal (Z.of_nat j)) (seq 0 (Z.to_nat n)) ∧
    getAllLoops true p = Done (if n =? 0 then [base] else ls) ∧
    (∃ p', next_loops k p = Done (map (λ j, default base (ls !! Z.to_nat (Z.of_nat j mod n))) (seq 0 k), p')) ∧
    getLoopForHash true h p = Done (default base (ls !! Z.to_nat (h mod n))) ∧
    called = (if (n =? 0) && cb then [base] else []).
Proof.
  intros Hn Hh ls. unfold start. cbn [setThreadNum make started_ negb cassert assertInLoopThread mbind outcome_bind numThreads_].
  eexists _, _. split; [done|].
  destruct (start_threads_spec startLoop (Z.to_nat n) 0 (mk base name true n 0 [] [])) as (H1 & H2 & H3 & H4 & H5 & H6); [lia|lia|].
  cbn [baseLoop_ name_ numThreads_ next_ threads_ loops_ started_] in *.
  set (p := start_threads _ _ _ _) in *. cbn [app] in H1, H2. change (loops_ p = ls) in H1.
  assert (Hlen : szof ls = n) by (unfold ls; rewrite length_map, length_seq; lia).
  assert (Hempty : bool_decide (ls = []) = (n =? 0)).
  { destruct (Z.eqb_spec n 0) as [E|E]; [rewrite bool_decide_true; [done|]; destruct ls; [done|cbn in Hlen; lia]|].
    apply bool_decide_false. intros He. rewrite He in Hlen. cbn in Hlen. lia. }
  split; [done|]. split; [|split; [|split]].
  - unfold getAllLoops. rewrite H5, H1, H3, Hempty. done.
  - destruct (next_loops_spec k p) as (l & p' & Hk & _ & ->).
    { split; [done| |rewrite H1; lia]. rewrite H1, H4. intros Hne. destruct ls; [done|cbn in *; lia]. }
    exists p'. rewrite Hk. do 2 f_equal. rewrite H1, H3, H4, Hlen. by apply map_ext.
  - unfold getLoopForHash. cbn [assertInLoopThread mbind outcome_bind]. rewrite H1, H3, Hempty.
    destruct (Z.eqb_spec n 0) as [E|E].
    + rewrite E. cbn. destruct ls; [by destruct (Z.to_nat _)|cbn in Hlen; lia].
    + unfold loop_at. rewrite H1, Hlen. pose proof (Z.mod_pos_bound h n ltac:(lia)).
      destruct (lookup_lt_is_Some_2 ls (Z.to_nat (h mod n))) as [l Hl]; [lia|].
      rewrite Hl, (proj2 (Z.leb_le 0 _)) by lia. done.
  - by rewrite H6, H3.
Qed.

Lemma pool_deals_in_turn_witness :
  ∃ called p, start true true (λ i, 100 + i) (setThreadNum 3 (make 7 (bs "io"))) = Done (called, p) ∧
    ∃ p', next_loops 5 p = Done ([100; 101; 102; 100; 101], p').
Proof.
  destruct (pool_deals_in_turn 7 (bs "io") 3 true (λ i, 100 + i) 5 0) as (called & p & H1 & _ & _ & H2 & _); [lia..|].
  by exists called, p.
Defined.

End EventLoopThreadPool.
