(* ===== verification/Calendar.v ===== *)
(** Times and dates: [muduo::Timestamp], [muduo::Date] and [muduo::TimeZone]
    (src/IMServer/src/muduo/base: Timestamp.h, Timestamp.cc, Date.h, Date.cc,
    TimeZone.h, TimeZone.cc).  Signed arithmetic is checked at its width: an
    overflow is undefined.  The conversions are related to a reference calendar
    that steps from day to day by the Gregorian rules. *)

From Stdlib Require Import Floats.SpecFloat.
From S2P Require Import Prelude CDouble.
Local Open Scope Z_scope.

(** * [muduo::Timestamp]: microseconds since the epoch *)
Module Timestamp.

Definition kMicroSecondsPerSecond : Z := 1000 * 1000.

(** [Timestamp::invalid()], also the default constructor *)
Definition invalid : Z := 0.
Definition valid (t : Z) : bool := 0 <? t.
Definition secondsSinceEpoch (t : Z) : Z := Z.quot t kMicroSecondsPerSecond.

(** [fromUnixTime( t, microseconds )] *)
Definition fromUnixTime (t microseconds : Z) : outcome Z :=
  us ← int64 (t * kMicroSecondsPerSecond); int64 (us + microseconds).

(** [now()], from the two fields [gettimeofday] fills in *)
Definition now (tv_sec tv_usec : Z) : outcome Z := fromUnixTime tv_sec tv_usec.

(** [timeDifference( high, low )] *)
Definition timeDifference (high low : Z) : outcome spec_float :=
  diff ← int64 (high - low);
  Done (SFdiv 53 1024 (double_of_int diff) (double_of_int kMicroSecondsPerSecond)).

(** [static_cast<int64_t>( seconds * kMicroSecondsPerSecond )]: undefined when
    the product does not fit. *)
Definition micros (seconds : spec_float) : outcome Z :=
  match trunc (SFmul 53 1024 seconds (double_of_int kMicroSecondsPerSecond)) with
  | Some delta => int64 delta
  | None => Fault (Undefined "conversion to int64_t")
  end.

(** [addTime( timestamp, seconds )] *)
Definition addTime (timestamp : Z) (seconds : spec_float) : outcome Z :=
  delta ← micros seconds; int64 (timestamp + delta).

(** [%06ld] of [printf] *)
Definition padded (c : byte) (width : nat) (l : bytes) : bytes := repeat c (width - length l) ++ l.
Definition zero_padded (width : nat) (z : Z) : bytes :=
  if z <? 0 then x2d :: padded x30 (width - 1) (decimal (- z)) else padded x30 width (decimal z).

(** [toString()]; the longest text has 22 characters, the buffer 32. *)
Definition toString (t : Z) : bytes :=
  signed_decimal (Z.quot t kMicroSecondsPerSecond) ++ [x2e]
  ++ zero_padded 6 (Z.rem t kMicroSecondsPerSecond).

End Timestamp.

(** * [muduo::Date]: a Julian day number *)
Module Date.

Record YearMonthDay := mkYMD { year : Z; month : Z; day : Z }.
#[export] Instance YearMonthDay_eq_dec : EqDecision YearMonthDay.
Proof. solve_decision. Defined.

(** [detail::getJulianDayNumber( year, month, day )] *)
Definition getJulianDayNumber (year month day : Z) : outcome Z :=
  a ← int32 (14 - month); let a := Z.quot a 12 in
  y ← int32 (year + 4800); y ← int32 (y - a);
  m ← int32 (month + 12 * a); m ← int32 (m - 3);
  m5 ← int32 (153 * m); m5 ← int32 (m5 + 2);
  j ← int32 (day + Z.quot m5 5);
  y365 ← int32 (y * 365);
  j ← int32 (j + y365); j ← int32 (j + Z.quot y 4);
  j ← int32 (j - Z.quot y 100); j ← int32 (j + Z.quot y 400);
  int32 (j - 32045).

(** [detail::getYearMonthDay( julianDayNumber )] *)
Definition getYearMonthDay (julianDayNumber : Z) : outcome YearMonthDay :=
  a ← int32 (julianDayNumber + 32044);
  a4 ← int32 (4 * a); a4 ← int32 (a4 + 3); let b := Z.quot a4 146097 in
  b1 ← int32 (b * 146097);
  c ← int32 (a - Z.quot b1 4);
  c4 ← int32 (4 * c); c4 ← int32 (c4 + 3); let d := Z.quot c4 1461 in
  d1 ← int32 (1461 * d);
  e ← int32 (c - Z.quot d1 4);
  e5 ← int32 (5 * e); e5 ← int32 (e5 + 2); let m := Z.quot e5 153 in
  m1 ← int32 (153 * m); m1 ← int32 (m1 + 2);
  day ← int32 (e - Z.quot m1 5); day ← int32 (day + 1);
  month ← int32 (m + 3); month ← int32 (month - 12 * Z.quot m 10);
  b100 ← int32 (b * 100);
  year ← int32 (b100 + d); year ← int32 (year - 4800); year ← int32 (year + Z.quot m 10);
  Done (mkYMD year month day).

Definition kJulianDayOf1970_01_01 : Z := 2440588.

(** [weekDay()]: 0 is Sunday. *)
Definition weekDay (julianDayNumber_ : Z) : outcome Z :=
  n ← int32 (julianDayNumber_ + 1); Done (Z.rem n 7).
Definition valid (julianDayNumber_ : Z) : bool := 0 <? julianDayNumber_.

(** [%4d-%02d-%02d] *)
Definition toIsoString (julianDayNumber_ : Z) : outcome bytes :=
  ymd ← getYearMonthDay julianDayNumber_;
  Done (Timestamp.padded x20 4 (signed_decimal (year ymd)) ++ [x2d]
        ++ Timestamp.zero_padded 2 (month ymd) ++ [x2d] ++ Timestamp.zero_padded 2 (day ymd)).

End Date.

(** * [muduo::TimeZone] *)
Module TimeZone.

(** [struct tm], its fields as the C library orders them *)
Record tm := mkTm {
  tm_sec : Z; tm_min : Z; tm_hour : Z; tm_mday : Z; tm_mon : Z; tm_year : Z;
  tm_wday : Z; tm_yday : Z; tm_isdst : Z; tm_gmtoff : Z; tm_zone : bytes
}.
#[export] Instance tm_eq_dec : EqDecision tm.
Proof. solve_decision. Defined.

(** [detail::Transition], [detail::Localtime] and [TimeZone::Data] *)
Record Transition := mkTransition { gmttime : Z; localtime : Z; localtimeIdx : Z }.
Record Localtime := mkLocaltime { gmtOffset : Z; isDst : bool; arrbIdx : Z }.
Record Data := mkData {
  transitions : list Transition; localtimes : list Localtime; abbreviation : bytes
}.

Definition kSecondsPerDay : Z := 24 * 60 * 60.

(** [detail::fillHMS( seconds, utc )]: second, minute, hour. *)
Definition fillHMS (seconds : Z) : Z * Z * Z :=
  let minutes := seconds / 60 in (seconds mod 60, minutes mod 60, minutes / 60).

(** [toUtcTime( secondsSinceEpoch, yday )] *)
Definition toUtcTime (secondsSinceEpoch : Z) (yday : bool) : outcome tm :=
  let seconds := s32 (Z.rem secondsSinceEpoch kSecondsPerDay) in
  let days := s32 (Z.quot secondsSinceEpoch kSecondsPerDay) in
  '(seconds, days) ← (if seconds <? 0
                      then days ← int32 (days - 1); Done (seconds + kSecondsPerDay, days)
                      else Done (seconds, days));
  let '(sec, min, hour) := fillHMS (u32 seconds) in
  date ← int32 (days + Date.kJulianDayOf1970_01_01);
  ymd ← Date.getYearMonthDay date;
  y ← int32 (Date.year ymd - 1900);
  wday ← Date.weekDay date;
  day_of_year ← (if yday then
                   startOfYear ← Date.getJulianDayNumber (Date.year ymd) 1 1;
                   int32 (date - startOfYear)
                 else Done 0);
  Done (mkTm sec min hour (Date.day ymd) (Date.month ymd - 1) y wday day_of_year 0 0 (bs "GMT")).

(** [fromUtcTime( year, month, day, hour, minute, seconds )] *)
Definition fromUtcTime (year month day hour minute seconds : Z) : outcome Z :=
  date ← Date.getJulianDayNumber year month day;
  h ← int32 (hour * 3600); m ← int32 (minute * 60);
  s ← int32 (h + m); secondsInDay ← int32 (s + seconds);
  days ← int32 (date - Date.kJulianDayOf1970_01_01);
  Done (days * kSecondsPerDay + secondsInDay).

(** [fromUtcTime( utc )] *)
Definition fromUtcTime_tm (utc : tm) : outcome Z :=
  y ← int32 (tm_year utc + 1900); m ← int32 (tm_mon utc + 1);
  fromUtcTime y m (tm_mday utc) (tm_hour utc) (tm_min utc) (tm_sec utc).

(** [gmtime_r] and [timegm] of the C library, which the two functions above
    are replacements for ("gmtime(3)" and "timegm(3)" in the header). *)
Definition gmtime_r (t : Z) : outcome tm := toUtcTime t true.
Definition timegm (t : tm) : outcome Z := fromUtcTime_tm t.

(** [Comp( gmt )]: the field compared *)
Definition comp_key (compareGmt : bool) (t : Transition) : Z :=
  if compareGmt then gmttime t else localtime t.

(** [std::lower_bound]: undefined on a range the comparison does not
    partition. *)
Fixpoint lower_bound (key : Transition → Z) (x : Z) (l : list Transition) : outcome nat :=
  match l with
  | [] => Done O
  | t :: l =>
      if key t <? x then n ← lower_bound key x l; Done (S n)
      else _ ← defined_if (forallb (λ t, negb (key t <? x)) l) "lower_bound: not partitioned";
           Done O
  end.

Definition localtime_at (data : Data) (i : Z) : outcome Localtime :=
  match (if i <? 0 then None else localtimes data !! Z.to_nat i) with
  | Some l => Done l
  | None => Fault (Undefined "localtimes[]")
  end.

(** [detail::findLocaltime( data, sentry, comp )], the sentry by the time it
    is compared with; [back()] and the reference results are never null. *)
Definition findLocaltime (data : Data) (sentry : Z) (compareGmt : bool) : outcome Localtime :=
  let key := comp_key compareGmt in
  match transitions data with
  | [] => localtime_at data 0
  | front :: _ =>
      if sentry <? key front then localtime_at data 0
      else
        i ← lower_bound key sentry (transitions data);
        match transitions data !! i with
        | Some transI =>
            if key transI =? sentry then localtime_at data (localtimeIdx transI)
            else
              _ ← cassert (negb (i =? 0)%nat) "transI != data.transitions.begin()";
              match transitions data !! Nat.pred i with
              | Some transI => localtime_at data (localtimeIdx transI)
              | None => Fault (Undefined "--transI")
              end
        | None =>
            match last (transitions data) with
            | Some back => localtime_at data (localtimeIdx back)
            | None => Fault (Undefined "back()")
            end
        end
  end.

(** [toLocalTime( seconds )]; [tm_zone] is the C string that starts at the
    abbreviation's index. *)
Definition toLocalTime (data : Data) (seconds : Z) : outcome tm :=
  local ← findLocaltime data seconds true;
  localSeconds ← int64 (seconds + gmtOffset local);
  t ← gmtime_r localSeconds;
  _ ← defined_if ((0 <=? arrbIdx local) && (arrbIdx local <=? szof (abbreviation data)))
        "abbreviation[]";
  Done (mkTm (tm_sec t) (tm_min t) (tm_hour t) (tm_mday t) (tm_mon t) (tm_year t) (tm_wday t)
    (tm_yday t) (if isDst local then 1 else 0) (gmtOffset local)
    (c_str (drop (Z.to_nat (arrbIdx local)) (abbreviation data)))).

(** [fromLocalTime( localTm )] *)
Definition fromLocalTime (data : Data) (localTm : tm) : outcome Z :=
  seconds ← timegm localTm;
  local ← findLocaltime data seconds false;
  seconds ← (if negb (tm_isdst localTm =? 0) then
               t ← int64 (seconds - gmtOffset local);
               tryTm ← toLocalTime data t;
               if (tm_isdst tryTm =? 0) && (tm_hour tryTm =? tm_hour localTm)
                  && (tm_min tryTm =? tm_min localTm)
               then int64 (seconds - 3600) else Done seconds
             else Done seconds);
  int64 (seconds - gmtOffset local).

(** [TimeZone( eastOfUtc, name )] *)
Definition fixed (eastOfUtc : Z) (name : bytes) : Data :=
  mkData [] [mkLocaltime eastOfUtc false 0] (c_str name).

(** ** Reading a zone file *)

(** The [detail::File] readers over the bytes that are left; [None] is the
    [logic_error] of a short read. *)
Definition readBytes (n : Z) (file : bytes) : outcome (option (bytes * bytes)) :=
  _ ← defined_if (0 <=? n) "char buf[n]";
  if szof file <? n then Done None
  else Done (Some (take (Z.to_nat n) file, drop (Z.to_nat n) file)).
Definition readInt32 (file : bytes) : option (Z * bytes) :=
  if szof file <? 4 then None else Some (s32 (be_value (take 4 file)), drop 4 file).
Definition readUInt8 (file : bytes) : option (Z * bytes) :=
  match file with [] => None | c :: file => Some (ub c, file) end.

(** [n] reads of one kind, none when [n] is negative. *)
Fixpoint read_many {A} (read : bytes → option (A * bytes)) (n : nat) (file : bytes) :
    option (list A * bytes) :=
  match n with
  | O => Some ([], file)
  | S n =>
      '(x, file) ← read file;
      '(l, file) ← read_many read n file;
      Some (x :: l, file)
  end.

Definition readLocaltime (file : bytes) : option (Localtime * bytes) :=
  '(gmtoff, file) ← readInt32 file;
  '(isdst, file) ← readUInt8 file;
  '(abbrind, file) ← readUInt8 file;
  Some (mkLocaltime gmtoff (negb (isdst =? 0)) abbrind, file).

(** The transitions: [localtimes[localIdx]] is not checked. *)
Fixpoint make_transitions (locals : list Localtime) (l : list (Z * Z)) : outcome (list Transition) :=
  match l with
  | [] => Done []
  | (t, idx) :: l =>
      match locals !! Z.to_nat idx with
      | None => Fault (Undefined "localtimes[localIdx]")
      | Some local =>
          rest ← make_transitions locals l;
          Done (mkTransition t (t + gmtOffset local) idx :: rest)
      end
  end.

(** The local time types: those read before the file ends, and what follows. *)
Fixpoint readLocaltimes (n : nat) (file : bytes) : list Localtime * option bytes :=
  match n with
  | O => ([], Some file)
  | S n =>
      match readLocaltime file with
      | None => ([], None)
      | Some (l, file) => let '(ls, rest) := readLocaltimes n file in (l :: ls, rest)
      end
  end.

(** What the [try] block leaves in [data], whether it ends early or not.  A
    negative [timecnt] makes [reserve] throw [length_error], which is a
    [logic_error] too. *)
Definition no_data : Data := mkData [] [] [].
Definition readTables (timecnt typecnt charcnt : Z) (file : bytes) : outcome Data :=
  if timecnt <? 0 then Done no_data
  else
    match ('(trans, file) ← read_many readInt32 (Z.to_nat timecnt) file;
           '(idxs, file) ← read_many readUInt8 (Z.to_nat timecnt) file;
           Some (trans, idxs, file)) with
    | None => Done no_data
    | Some (trans, idxs, file) =>
        let '(locals, rest) := readLocaltimes (Z.to_nat typecnt) file in
        match rest with
        | None => Done (mkData [] locals [])
        | Some file =>
            transitions ← make_transitions locals (zip trans idxs);
            r ← readBytes charcnt file;
            Done (mkData transitions locals (from_option fst [] r))
        end
    end.

(** The header: magic, version, reserved bytes and six counts. *)
Definition readHeader (file : bytes) : option (Z * Z * Z * bytes) :=
  if szof file <? 20 then None
  else if decide (take 4 file = bs "TZif") then
    '(counts, file) ← read_many readInt32 6 (drop 20 file);
    match counts with
    | [isgmtcnt; isstdcnt; leapcnt; timecnt; typecnt; charcnt] =>
        Some (timecnt, typecnt, charcnt, file)
    | _ => None
    end
  else None.

(** [readTimeZoneFile]: its result is always [true].  [None] is a file that
    cannot be opened. *)
Definition readTimeZoneFile (file : option bytes) : outcome Data :=
  match file with
  | None => Done no_data
  | Some file =>
      match readHeader file with
      | None => Done no_data
      | Some (timecnt, typecnt, charcnt, file) => readTables timecnt typecnt charcnt file
      end
  end.

End TimeZone.

(** [Timestamp::toFormattedString( showMicroseconds )] *)
Definition toFormattedString (t : Z) (showMicroseconds : bool) : outcome bytes :=
  tm_time ← TimeZone.gmtime_r (Timestamp.secondsSinceEpoch t);
  y ← int32 (TimeZone.tm_year tm_time + 1900);
  let two := Timestamp.zero_padded 2 in
  let date := Timestamp.padded x20 4 (signed_decimal y)
              ++ two (TimeZone.tm_mon tm_time + 1) ++ two (TimeZone.tm_mday tm_time) ++ [x20]
              ++ two (TimeZone.tm_hour tm_time) ++ [x3a] ++ two (TimeZone.tm_min tm_time)
              ++ [x3a] ++ two (TimeZone.tm_sec tm_time) in
  Done (if showMicroseconds
        then date ++ [x2e] ++ Timestamp.zero_padded 6 (s32 (Z.rem t Timestamp.kMicroSecondsPerSecond))
        else date).

(** * The reference calendar *)

Section reference.
Import Date.

Definition leap (y : Z) : bool := (y mod 4 =? 0) && (negb (y mod 100 =? 0) || (y mod 400 =? 0)).
Definition days_in_month (y m : Z) : Z :=
  if m =? 2 then if leap y then 29 else 28
  else if (m =? 4) || (m =? 6) || (m =? 9) || (m =? 11) then 30 else 31.

Definition is_date (d : YearMonthDay) : Prop :=
  1 ≤ month d ≤ 12 ∧ 1 ≤ day d ≤ days_in_month (year d) (month d).

(** The day after. *)
Definition next_day (d : YearMonthDay) : YearMonthDay :=
  if day d <? days_in_month (year d) (month d) then mkYMD (year d) (month d) (day d + 1)
  else if month d <? 12 then mkYMD (year d) (month d + 1) 1
  else mkYMD (year d + 1) 1 1.

(** [k] days after the epoch. *)
Definition epoch_day : YearMonthDay := mkYMD 1970 1 1.
Definition day_after (k : nat) : YearMonthDay := Nat.iter k next_day epoch_day.

(** The two conversions without their range checks: years and months counted
    from March of the year -4800. *)
Definition march_year (d : YearMonthDay) : Z := year d + 4800 - (14 - month d) / 12.
Definition march_month (d : YearMonthDay) : Z := month d + 12 * ((14 - month d) / 12) - 3.
Definition year_days (y : Z) : Z := 365 * y + y / 4 - y / 100 + y / 400.
Definition month_days (m : Z) : Z := (153 * m + 2) / 5.
Definition jdn (d : YearMonthDay) : Z :=
  year_days (march_year d) + month_days (march_month d) + day d - 32045.

Definition ymd (n : Z) : YearMonthDay :=
  let a := n + 32044 in
  let b := (4 * a + 3) / 146097 in
  let c := a - b * 146097 / 4 in
  let d := (4 * c + 3) / 1461 in
  let e := c - 1461 * d / 4 in
  let m := (5 * e + 2) / 153 in
  mkYMD (b * 100 + d - 4800 + m / 10) (m + 3 - 12 * (m / 10)) (e - (153 * m + 2) / 5 + 1).

End reference.

(** Runs checked arithmetic whose operands [lia] can bound. *)
Ltac div_lia := Z.to_euclidean_division_equations; lia.
Ltac in_range := unfold INT_MIN, INT_MAX; div_lia.
Ltac run_int32 :=
  repeat (match goal with |- int32 ?z ≫= ?k = _ => rewrite (bind_int32 z k) by in_range end;
          cbv beta zeta; rewrite ?Z.quot_div_nonneg by in_range).

Lemma getJulianDayNumber_ok d :
  0 ≤ march_year d → Date.year d ≤ 5000000 → 1 ≤ Date.month d ≤ 12 → 1 ≤ Date.day d ≤ 31 →
  Date.getJulianDayNumber (Date.year d) (Date.month d) (Date.day d) = Done (jdn d).
Proof.
  unfold jdn, march_year. destruct d as [y m d]. cbn. intros Hy0 Hy Hm Hd. unfold Date.getJulianDayNumber.
  unfold march_month, year_days, month_days. cbn. run_int32.
  rewrite int32_ok by in_range. f_equal. lia.
Qed.

Lemma getYearMonthDay_ok n :
  -32044 ≤ n ≤ 536000000 → Date.getYearMonthDay n = Done (ymd n).
Proof.
  intros Hn. unfold Date.getYearMonthDay, ymd.
  run_int32. done.
Qed.

(** ** The conversions are inverse *)

(** The parts of a day count: centuries, years, days of the year. *)
Lemma century_of y r :
  0 ≤ y → 0 ≤ r ≤ 365 → (r = 365 → leap (y + 1) = true) →
  (4 * (year_days y + r) + 3) / 146097 = y / 100.
Proof.
  intros Hy Hr Hl. unfold year_days, leap in *.
  assert (Hle : r = 365 → (y + 1) mod 4 = 0 ∧ ((y + 1) mod 100 ≠ 0 ∨ (y + 1) mod 400 = 0)).
  { intros H. specialize (Hl H). destruct (Z.eqb_spec ((y + 1) mod 4) 0); [|done].
    destruct (Z.eqb_spec ((y + 1) mod 100) 0), (Z.eqb_spec ((y + 1) mod 400) 0); auto; done. }
  clear Hl. div_lia.
Qed.

Lemma leap_march y : leap y = true → y mod 4 = 0 ∧ (y mod 100 ≠ 0 ∨ y mod 400 = 0).
Proof.
  unfold leap. destruct (Z.eqb_spec (y mod 4) 0); [|done].
  destruct (Z.eqb_spec (y mod 100) 0), (Z.eqb_spec (y mod 400) 0); auto; done.
Qed.

Lemma year_of y r :
  0 ≤ y → 0 ≤ r ≤ 365 → (r = 365 → leap (y + 1) = true) →
  let c := year_days y + r - y / 100 * 146097 / 4 in
  (4 * c + 3) / 1461 = y mod 100 ∧ c - 1461 * (y mod 100) / 4 = r.
Proof.
  intros Hy Hr Hl. unfold year_days.
  assert (Hle := λ H, leap_march _ (Hl H)). clear Hl. cbv zeta. split; div_lia.
Qed.

Lemma month_of m d :
  0 ≤ m ≤ 11 → 1 ≤ d → month_days m + d ≤ month_days (m + 1) →
  (5 * (month_days m + d - 1) + 2) / 153 = m.
Proof. unfold month_days. intros Hm Hd H. div_lia. Qed.


(** Evaluates the closed divisions and day counts of a case analysis on the
    month. *)
Ltac closed_Z x := lazymatch x with Z0 => idtac | Zpos _ => idtac | Zneg _ => idtac end.
Ltac eval_at t := let x := eval vm_compute in t in closed_Z x; change t with x in *.
Ltac eval_months :=
  repeat match goal with
  | |- context [Z.div ?a ?b] => eval_at (Z.div a b)
  | |- context [month_days ?m] => eval_at (month_days m)
  end.
Ltac month_cases m :=
  assert (m = 1 ∨ m = 2 ∨ m = 3 ∨ m = 4 ∨ m = 5 ∨ m = 6 ∨ m = 7 ∨ m = 8 ∨ m = 9 ∨ m = 10 ∨ m = 11 ∨ m = 12)
    as Hcase by lia; destruct_or! Hcase; subst m; cbn -[Z.div] in *; eval_months.

Lemma leap_4800 y : leap (y + 4800) = leap y.
Proof.
  unfold leap. replace ((y + 4800) mod 4) with (y mod 4) by div_lia.
  replace ((y + 4800) mod 100) with (y mod 100) by div_lia.
  by replace ((y + 4800) mod 400) with (y mod 400) by div_lia.
Qed.

(** The days of the months, counted from March. *)
Lemma month_days_march d :
  is_date d → 0 ≤ march_month d ≤ 11 ∧ 0 ≤ month_days (march_month d) + Date.day d - 1 ≤ 365 ∧
  month_days (march_month d) + Date.day d ≤ month_days (march_month d + 1) ∧
  (month_days (march_month d) + Date.day d - 1 = 365 → leap (march_year d + 1) = true).
Proof.
  destruct d as [y m d]. unfold is_date, march_month, march_year, days_in_month. cbn.
  intros [Hm Hd]. month_cases m; try (split_and!; lia).
  replace (y + 4800 - 1 + 1) with (y + 4800) by lia. rewrite leap_4800.
  destruct (leap y); split_and!; lia.
Qed.

Lemma ymd_jdn d : is_date d → 0 ≤ march_year d → ymd (jdn d) = d.
Proof.
  intros Hd Hy. destruct (month_days_march d Hd) as (Hm & Hr & Hnext & Hl).
  unfold ymd, jdn. set (y := march_year d) in *. set (m := march_month d) in *.
  replace (year_days y + month_days m + Date.day d - 32045 + 32044)
    with (year_days y + (month_days m + Date.day d - 1)) by lia.
  rewrite century_of by done. destruct (year_of y _ Hy Hr Hl) as [-> ->].
  replace (5 * (month_days m + Date.day d - 1) + 2) with (5 * (month_days m + Date.day d - 1) + 2) by lia.
  rewrite month_of by (done || apply Hd).
  destruct Hd as [Hm1 _]. destruct d as [y0 m0 d0]. unfold march_year, march_month, month_days in *. cbn in *.
  subst y m. f_equal; div_lia.
Qed.

Lemma year_days_succ y : year_days (y + 4800) = year_days (y + 4800 - 1) + 365 + if leap y then 1 else 0.
Proof.
  rewrite <-(leap_4800 y). unfold year_days, leap.
  destruct (Z.eqb_spec ((y + 4800) mod 4) 0), (Z.eqb_spec ((y + 4800) mod 100) 0),
    (Z.eqb_spec ((y + 4800) mod 400) 0); cbn; div_lia.
Qed.

Lemma jdn_next d : is_date d → is_date (next_day d) ∧ jdn (next_day d) = jdn d + 1.
Proof.
  destruct d as [y m d]. unfold is_date, next_day, jdn, march_year, march_month. cbn -[Z.div].
  intros [Hm Hd]. unfold days_in_month in *. pose proof (year_days_succ y) as Hy. month_cases m.
  all: repeat case_match; cbn -[Z.div] in *; eval_months.
  all: rewrite ?Z.sub_0_r; replace (y + 1 + 4800 - 1) with (y + 4800) by lia.
  all: repeat match goal with
    | H : (_ <? _) = true |- _ => apply Z.ltb_lt in H
    | H : (_ <? _) = false |- _ => apply Z.ltb_ge in H end.
  all: first [congruence|split_and!; lia].
Qed.

Lemma march_year_next d : is_date d → march_year d ≤ march_year (next_day d).
Proof.
  destruct d as [y m d]. unfold is_date, next_day, march_year. cbn -[Z.div].
  intros [Hm _]. repeat case_match; cbn -[Z.div]; [lia| |].
  - div_lia.
  - div_lia.
Qed.

(** Counting days forward from the first day the conversions are good for. *)
Lemma days_from_march k :
  let d := Nat.iter k next_day (Date.mkYMD (-4800) 3 1) in
  is_date d ∧ 0 ≤ march_year d ∧ jdn d = -32044 + Z.of_nat k.
Proof.
  induction k as [|k (Hd & Hy & Hj)]; [by vm_compute|]. rewrite Nat.iter_succ. cbv zeta in *.
  destruct (jdn_next _ Hd) as [Hd' Hj']. pose proof (march_year_next _ Hd). split_and!; [done|lia|lia].
Qed.

Lemma jdn_ymd n :
  -32044 ≤ n → is_date (ymd n) ∧ 0 ≤ march_year (ymd n) ∧ jdn (ymd n) = n.
Proof.
  intros Hn. destruct (days_from_march (Z.to_nat (n + 32044))) as (Hd & Hy & Hj).
  replace n with (jdn (Nat.iter (Z.to_nat (n + 32044)) next_day (Date.mkYMD (-4800) 3 1))) by lia.
  rewrite ymd_jdn by done. split_and!; [done|done|lia].
Qed.

Lemma day_after_jdn k : is_date (day_after k) ∧ 6769 ≤ march_year (day_after k) ∧
  jdn (day_after k) = Date.kJulianDayOf1970_01_01 + Z.of_nat k.
Proof.
  unfold day_after. induction k as [|k (Hd & Hy & Hj)]; [by vm_compute|]. rewrite Nat.iter_succ.
  destruct (jdn_next _ Hd) as [Hd' Hj']. pose proof (march_year_next _ Hd). split_and!; [done|lia|lia].
Qed.

Lemma is_date_day d : is_date d → 1 ≤ Date.month d ≤ 12 ∧ 1 ≤ Date.day d ≤ 31.
Proof. intros [Hm Hd]. unfold days_in_month in Hd. repeat case_match; lia. Qed.

Lemma jdn_year d : is_date d → 0 ≤ march_year d → 365 * (Date.year d + 4799) - 32045 ≤ jdn d.
Proof.
  intros Hd Hy. destruct (month_days_march d Hd) as (_ & Hr & _). destruct Hd as [Hm _].
  unfold jdn. assert (Date.year d + 4799 ≤ march_year d) by (unfold march_year; div_lia).
  assert (365 * march_year d ≤ year_days (march_year d)) by (unfold year_days; div_lia). lia.
Qed.

Lemma jdn_lower d : is_date d → 0 ≤ march_year d → -32044 ≤ jdn d.
Proof.
  intros Hd Hy. destruct (month_days_march d Hd) as (_ & Hr & _). unfold jdn.
  assert (0 ≤ year_days (march_year d)) by (unfold year_days; div_lia). lia.
Qed.

Lemma jdn_year_upper d : is_date d → 0 ≤ march_year d → jdn d ≤ 400 * (Date.year d + 4800).
Proof.
  intros Hd Hy. destruct (month_days_march d Hd) as (_ & Hr & _). destruct Hd as [Hm _].
  unfold jdn. assert (march_year d ≤ Date.year d + 4800) by (unfold march_year; div_lia).
  unfold year_days. div_lia.
Qed.

Lemma date_number d :
  is_date d → 0 ≤ march_year d → Date.year d ≤ 5000000 →
  Date.getJulianDayNumber (Date.year d) (Date.month d) (Date.day d) = Done (jdn d).
Proof. intros Hd Hy Hy'. destruct (is_date_day d Hd). by apply getJulianDayNumber_ok. Qed.

(** Dates and Julian day numbers correspond: the number of every date from
    March of the year -4800 to the year 1,300,000 is computed without overflow
    and gives the date back, and every number from -32044 to 500 million is the
    number of the date it gives. *)
Theorem date_roundtrip :
  (∀ d, is_date d → 0 ≤ march_year d → Date.year d ≤ 1300000 →
     ∃ n, Date.getJulianDayNumber (Date.year d) (Date.month d) (Date.day d) = Done n ∧
          Date.getYearMonthDay n = Done d) ∧
  (∀ n, -32044 ≤ n ≤ 500000000 →
     ∃ d, Date.getYearMonthDay n = Done d ∧ is_date d ∧
          Date.getJulianDayNumber (Date.year d) (Date.month d) (Date.day d) = Done n).
Proof.
  split.
  - intros d Hd Hy Hy'. exists (jdn d). split; [apply date_number; (done || lia)|].
    pose proof (jdn_lower d Hd Hy). pose proof (jdn_year_upper d Hd Hy).
    assert (-4800 ≤ Date.year d) by (destruct Hd; unfold march_year in Hy; div_lia).
    rewrite getYearMonthDay_ok by lia. by rewrite ymd_jdn.
  - intros n Hn. exists (ymd n). destruct (jdn_ymd n) as (Hd & Hy & Hj); [lia|].
    split_and!; [apply getYearMonthDay_ok; lia|done|]. rewrite <-Hj at 4. apply date_number; [done..|].
    pose proof (jdn_year _ Hd Hy). lia.
Qed.

(** C24. Dates count days: the date [k] days after the first of January 1970 by
    the rules of the Gregorian calendar has the number 2440588 + [k], that
    number is converted back to it, and its day of the week is [k] days after
    a Thursday. *)
Theorem date_counts_days (k : nat) :
  Z.of_nat k ≤ 400000000 →
  let d := day_after k in
  Date.getJulianDayNumber (Date.year d) (Date.month d) (Date.day d)
    = Done (Date.kJulianDayOf1970_01_01 + Z.of_nat k) ∧
  Date.getYearMonthDay (Date.kJulianDayOf1970_01_01 + Z.of_nat k) = Done d ∧
  Date.weekDay (Date.kJulianDayOf1970_01_01 + Z.of_nat k) = Done ((Z.of_nat k + 4) mod 7).
Proof.
  intros Hk d. subst d. destruct (day_after_jdn k) as (Hd & Hy & Hj).
  assert (Hy0 : 0 ≤ march_year (day_after k)) by lia.
  pose proof (jdn_year _ Hd Hy0) as Hyear. unfold Date.kJulianDayOf1970_01_01 in *.
  rewrite <-Hj. split_and!.
  - apply date_number; [done|done|lia].
  - rewrite getYearMonthDay_ok by lia. by rewrite ymd_jdn.
  - rewrite Hj. unfold Date.weekDay. rewrite bind_int32 by in_range. f_equal.
    rewrite Z.rem_mod_nonneg by lia. div_lia.
Qed.

Lemma date_counts_days_witness :
  Z.of_nat 789 ≤ 400000000 ∧ day_after 789 = Date.mkYMD 1972 2 29 ∧
  Date.getYearMonthDay (2440588 + Z.of_nat 789) = Done (Date.mkYMD 1972 2 29).
Proof.
  assert (H : Z.of_nat 789 ≤ 400000000) by (vm_compute; discriminate).
  split_and!; [exact H|by vm_compute|].
  destruct (date_counts_days 789 H) as (_ & Hd & _). etransitivity; [exact Hd|by vm_compute].
Defined.

Lemma day_split t :
  Z.abs t < 2 ^ 46 →
  (if s32 (Z.rem t TimeZone.kSecondsPerDay) <? 0
   then days ← int32 (s32 (Z.quot t TimeZone.kSecondsPerDay) - 1);
        Done (s32 (Z.rem t TimeZone.kSecondsPerDay) + TimeZone.kSecondsPerDay, days)
   else Done (s32 (Z.rem t TimeZone.kSecondsPerDay), s32 (Z.quot t TimeZone.kSecondsPerDay)))
  = Done (t mod 86400, t / 86400).
Proof.
  intros Ht. change TimeZone.kSecondsPerDay with 86400.
  rewrite !wraps_small by (cbn; div_lia). destruct (Z.ltb_spec (Z.rem t 86400) 0).
  - rewrite bind_int32 by in_range. do 2 f_equal; div_lia.
  - do 2 f_equal; div_lia.
Qed.

Lemma time_of_day s :
  0 ≤ s < 86400 → 0 ≤ s mod 60 < 60 ∧ 0 ≤ (s / 60) mod 60 < 60 ∧ 0 ≤ s / 60 / 60 < 24 ∧
  s / 60 / 60 * 3600 + (s / 60) mod 60 * 60 + s mod 60 = s.
Proof. intros Hs. div_lia. Qed.

(** Seconds from a date and a time of day. *)
Lemma fromUtcTime_ok d h m s :
  is_date d → 0 ≤ march_year d → Date.year d ≤ 5000000 → 0 ≤ h < 24 → 0 ≤ m < 60 → 0 ≤ s < 60 →
  TimeZone.fromUtcTime (Date.year d) (Date.month d) (Date.day d) h m s
    = Done ((jdn d - 2440588) * 86400 + (h * 3600 + m * 60 + s)).
Proof.
  intros Hd Hy Hy' Hh Hm Hs. unfold TimeZone.fromUtcTime. rewrite date_number, bind_ret_l by done.
  pose proof (jdn_year d Hd Hy) as Hj. pose proof (jdn_year_upper d Hd Hy).
  change Date.kJulianDayOf1970_01_01 with 2440588. run_int32. done.
Qed.

(** The parts of a converted time. *)
Lemma toUtcTime_ok t yday : -200000000000 ≤ t ≤ 30000000000000 →
  let dd := ymd (t / 86400 + 2440588) in
  ∃ wday yd, TimeZone.toUtcTime t yday =
    Done (TimeZone.mkTm (t mod 86400 mod 60) (t mod 86400 / 60 mod 60) (t mod 86400 / 60 / 60)
            (Date.day dd) (Date.month dd - 1) (Date.year dd - 1900) wday yd 0 0 (bs "GMT")).
Proof.
  intros Ht. cbv zeta. unfold TimeZone.toUtcTime. cbv zeta. rewrite (day_split t), bind_ret_l by lia.
  set (d := t / 86400). assert (Hday : -2314815 ≤ d ≤ 347222223) by (subst d; div_lia).
  unfold TimeZone.fillHMS. rewrite wrapu_small by div_lia.
  change Date.kJulianDayOf1970_01_01 with 2440588.
  set (n := d + 2440588). destruct (jdn_ymd n) as (Hd & Hy & Hj); [lia|].
  pose proof (jdn_year _ Hd Hy) as Hyear. destruct (is_date_day _ Hd) as [Hmon _].
  assert (-4800 ≤ Date.year (ymd n)) by (unfold march_year in Hy; div_lia).
  rewrite bind_int32 by in_range. rewrite getYearMonthDay_ok, bind_ret_l by lia.
  remember (ymd n) as dd eqn:Edd. clear Edd.
  rewrite bind_int32 by in_range. unfold Date.weekDay. rewrite bind_int32 by in_range. rewrite bind_ret_l.
  assert (∃ yd, (if yday then startOfYear ← Date.getJulianDayNumber (Date.year dd) 1 1;
                  int32 (n - startOfYear) else Done 0) = Done yd) as [yd ->].
  { destruct yday; [|by eexists]. pose proof (jdn_year_upper _ Hd Hy).
    set (jan := Date.mkYMD (Date.year dd) 1 1).
    assert (Hyj : Date.year jan = Date.year dd) by done.
    assert (Hjan : is_date jan) by (by split; cbn; [lia|repeat case_match]).
    assert (Hjy : 0 ≤ march_year jan) by (unfold march_year; cbn -[Z.div]; div_lia).
    change (Date.getJulianDayNumber _ 1 1)
      with (Date.getJulianDayNumber (Date.year jan) (Date.month jan) (Date.day jan)).
    rewrite (date_number jan Hjan Hjy), bind_ret_l by (rewrite Hyj; lia).
    pose proof (jdn_year jan Hjan Hjy). pose proof (jdn_year_upper jan Hjan Hjy). rewrite Hyj in *.
    eexists. apply int32_ok. unfold INT_MIN, INT_MAX. lia. }
  rewrite bind_ret_l. by eexists _, _.
Qed.

(** A formatted time is always obtained. *)
Lemma toFormattedString_ok t showMicroseconds :
  -200000000000 * 1000000 ≤ t ≤ 30000000000000 * 1000000 → ∃ l, toFormattedString t showMicroseconds = Done l.
Proof.
  intros Ht. unfold toFormattedString, TimeZone.gmtime_r, Timestamp.secondsSinceEpoch.
  change Timestamp.kMicroSecondsPerSecond with 1000000.
  assert (-200000000000 ≤ Z.quot t 1000000 ≤ 30000000000000) as Hs by div_lia.
  destruct (toUtcTime_ok _ true Hs) as (wday & yd & ->). rewrite bind_ret_l. cbn -[ymd Z.mul Z.add Z.div Z.modulo].
  set (n := Z.quot t 1000000 / 86400 + 2440588). assert (-32044 ≤ n ≤ 400000000) as Hn by (subst n; div_lia).
  clearbody n. destruct (jdn_ymd n) as (Hd & Hy & Hj); [lia|]. pose proof (jdn_year _ Hd Hy).
  destruct (is_date_day _ Hd) as [Hmon _].
  assert (-4800 ≤ Date.year (ymd n)) by (clear -Hy Hmon; unfold march_year in Hy; div_lia).
  rewrite bind_int32 by (unfold INT_MIN, INT_MAX; lia). by eexists.
Qed.

(** The conversion and its inverse. *)
Lemma utc_inverse t yday : -200000000000 ≤ t ≤ 30000000000000 →
  ∃ utc, TimeZone.toUtcTime t yday = Done utc ∧
    0 ≤ TimeZone.tm_sec utc < 60 ∧ 0 ≤ TimeZone.tm_min utc < 60 ∧ 0 ≤ TimeZone.tm_hour utc < 24 ∧
    is_date (Date.mkYMD (TimeZone.tm_year utc + 1900) (TimeZone.tm_mon utc + 1) (TimeZone.tm_mday utc)) ∧
    -4800 ≤ TimeZone.tm_year utc + 1900 ≤ 5000000 ∧
    TimeZone.fromUtcTime_tm utc = Done t.
Proof.
  intros Ht. destruct (toUtcTime_ok t yday Ht) as (wday & yd & Hu).
  eexists. split; [exact Hu|]. clear Hu. cbn -[ymd Z.mul Z.add Z.div Z.modulo].
  destruct (time_of_day (t mod 86400)) as (Hs & Hm & Hh & Hsum); [div_lia|].
  set (n := t / 86400 + 2440588). destruct (jdn_ymd n) as (Hd & Hy & Hj); [subst n; div_lia|].
  pose proof (jdn_year _ Hd Hy) as Hyear. destruct (is_date_day _ Hd) as [Hmon _].
  assert (-4800 ≤ Date.year (ymd n)) by (unfold march_year in Hy; div_lia).
  remember (ymd n) as dd eqn:Edd. clear Edd. assert (n ≤ 400000000) by (subst n; div_lia).
  replace (Date.year dd - 1900 + 1900) with (Date.year dd) by lia.
  replace (Date.month dd - 1 + 1) with (Date.month dd) by lia.
  assert (Heta : ∀ x, Date.mkYMD (Date.year x) (Date.month x) (Date.day x) = x) by (by intros []).
  rewrite Heta. split_and!; try lia; [done|].
  unfold TimeZone.fromUtcTime_tm. cbn -[ymd Z.mul Z.add Z.div Z.modulo].
  rewrite bind_int32 by in_range. rewrite bind_int32 by in_range.
  replace (Date.year dd - 1900 + 1900) with (Date.year dd) by lia.
  replace (Date.month dd - 1 + 1) with (Date.month dd) by lia.
  rewrite fromUtcTime_ok by (done || lia). f_equal. rewrite Hj, Hsum. subst n. div_lia.
Qed.

(** UTC conversion: for every second from the year -4800 to the year
    950,000, [toUtcTime] gives a date of the calendar and a time of day in
    range, the same with and without the day of the year, and [fromUtcTime]
    gives the second back; times before the epoch included. *)
Theorem utc_roundtrip (t : Z) (yday : bool) :
  -200000000000 ≤ t ≤ 30000000000000 →
  ∃ utc, TimeZone.toUtcTime t yday = Done utc ∧
    0 ≤ TimeZone.tm_sec utc < 60 ∧ 0 ≤ TimeZone.tm_min utc < 60 ∧ 0 ≤ TimeZone.tm_hour utc < 24 ∧
    is_date (Date.mkYMD (TimeZone.tm_year utc + 1900) (TimeZone.tm_mon utc + 1) (TimeZone.tm_mday utc)) ∧
    TimeZone.fromUtcTime_tm utc = Done t.
Proof.
  intros Ht. destruct (utc_inverse t yday Ht) as (utc & Hu & Hs & Hm & Hh & Hd & _ & Hf). by exists utc.
Qed.

Lemma utc_roundtrip_witness :
  -200000000000 ≤ -86401 ≤ 30000000000000 ∧
  ∃ utc, TimeZone.toUtcTime (-86401) true = Done utc ∧ TimeZone.fromUtcTime_tm utc = Done (-86401).
Proof.
  assert (H : -200000000000 ≤ -86401 ≤ 30000000000000) by lia. split; [exact H|].
  destruct (utc_roundtrip (-86401) true H) as (utc & Hu & _ & _ & _ & _ & Hf). by exists utc.
Defined.

(** ** Fields of a fixed width *)

Lemma decimal_value_zeros n l : decimal_value (repeat x30 n ++ l) = decimal_value l.
Proof.
  unfold decimal_value. rewrite decimal_value_from_app. f_equal.
  induction n as [|n IH]; cbn; [done|]. exact IH.
Qed.
Lemma zero_padded_spec w z : 0 ≤ z < 10 ^ Z.of_nat (S w) →
  length (Timestamp.zero_padded (S w) z) = S w ∧ decimal_value (Timestamp.zero_padded (S w) z) = z.
Proof.
  intros Hz. unfold Timestamp.zero_padded. rewrite (proj2 (Z.ltb_ge z 0)) by lia. unfold Timestamp.padded. split.
  - rewrite length_app, repeat_length. pose proof (decimal_length z w Hz). lia.
  - rewrite decimal_value_zeros. apply decimal_value_decimal. lia.
Qed.
Lemma zero_padded_inj w z z' l l' : 0 ≤ z < 10 ^ Z.of_nat (S w) → 0 ≤ z' < 10 ^ Z.of_nat (S w) →
  Timestamp.zero_padded (S w) z ++ l = Timestamp.zero_padded (S w) z' ++ l' → z = z' ∧ l = l'.
Proof.
  intros Hz Hz' E. destruct (zero_padded_spec w z Hz) as [Hl Hv], (zero_padded_spec w z' Hz') as [Hl' Hv'].
  apply app_inj_1 in E as [E ->]; [|congruence]. split; [|done]. by rewrite <-Hv, <-Hv', E.
Qed.
Lemma signed_decimal_inj z z' : signed_decimal z = signed_decimal z' → z = z'.
Proof.
  assert (∀ z, 0 ≤ z → ∀ l, decimal z ≠ x2d :: l) as Hno.
  { intros w Hw l E. pose proof (decimal_digits w Hw) as H. rewrite E in H. by apply Forall_cons in H as [[=] _]. }
  unfold signed_decimal. destruct (Z.ltb_spec z 0), (Z.ltb_spec z' 0); intros E.
  - injection E as E. apply (f_equal decimal_value) in E. rewrite !decimal_value_decimal in E by lia. lia.
  - symmetry in E. by apply Hno in E.
  - by apply Hno in E.
  - apply (f_equal decimal_value) in E. by rewrite !decimal_value_decimal in E.
Qed.

(** A zone file that cannot be opened still gives a "valid" time zone, which
    has no local time: the first conversion indexes an empty vector. *)
Lemma missing_zone_file_undefined seconds :
  (data ← TimeZone.readTimeZoneFile None; TimeZone.toLocalTime data seconds)
    = Fault (Undefined "localtimes[]").
Proof. done. Qed.
