(* ===== verification/LogStream.v ===== *)
(** The stream log lines are formatted into (src/IMServer/src/muduo/base:
    LogStream.h, LogStream.cc): buffers of fixed size, the conversion of
    integers and pointers, and the operators that append to a line.  The text of
    a [double] is what [snprintf] with ["%.12g"] makes of it. *)

From Stdlib Require Import Floats.SpecFloat.
From S2P Require Import Prelude CDouble.
Local Open Scope Z_scope.

(** * [detail::FixedBuffer<SIZE>] *)
Module FixedBuffer.

Definition kSmallBuffer : Z := 4000.
Definition kLargeBuffer : Z := 4000 * 1000.

Section buffer.
Context (SIZE : Z).

(** [cur_] is the offset of the pointer in [data_]. *)
Record t := mk { data_ : bytes; cur_ : Z }.

(** [FixedBuffer()]: [data_] is whatever the memory holds. *)
Definition make (memory : bytes) : t := mk memory 0.
Definition length_ (b : t) : Z := cur_ b.
Definition avail (b : t) : Z := SIZE - cur_ b.
Definition add (len : Z) (b : t) : t := mk (data_ b) (cur_ b + len).
Definition reset (b : t) : t := mk (data_ b) 0.
Definition bzero (b : t) : t := mk (repeat x00 (Z.to_nat SIZE)) (cur_ b).
Definition toString (b : t) : bytes := take (Z.to_nat (cur_ b)) (data_ b).

(** Writing at an offset; outside [data_] it is undefined. *)
Definition write (pos : Z) (l : bytes) (b : t) : outcome t :=
  _ ← defined_if ((0 <=? pos) && (pos + szof l <=? SIZE)) "write outside data_";
  Done (mk (take (Z.to_nat pos) (data_ b) ++ l ++ drop (Z.to_nat (pos + szof l)) (data_ b)) (cur_ b)).

(** [append( buf, len )]: all or nothing, and one byte always stays free. *)
Definition append (buf : bytes) (b : t) : outcome t :=
  if szof buf <? u64 (avail b) then
    b ← write (cur_ b) buf b; Done (add (szof buf) b)
  else Done b.

(** [debugString()] terminates the text. *)
Definition debugString (b : t) : outcome (bytes * t) :=
  b ← write (cur_ b) [x00] b; Done (c_str (data_ b), b).

End buffer.
End FixedBuffer.

(** * Integers *)

(** [zero[ lsd ]]: [zero] points to the middle of [digits], so that the
    remainders of negative numbers find their digit too. *)
Definition digits : bytes := bs "9876543210123456789".
Definition zero_at (lsd : Z) : outcome byte :=
  _ ← defined_if ((0 <=? 9 + lsd) && (9 + lsd <? 20)) "zero[lsd]";
  Done (default x00 (digits !! Z.to_nat (9 + lsd))).

(** [convert<T>( buf, value )]: the characters in the order they are written;
    [%] and [/] truncate towards zero. *)
Fixpoint convert_loop (fuel : nat) (i : Z) : outcome bytes :=
  match fuel with
  | O => Fault OutOfFuel
  | S fuel =>
      c ← zero_at (Z.rem i 10);
      let i := Z.quot i 10 in
      if i =? 0 then Done [c] else l ← convert_loop fuel i; Done (c :: l)
  end.
Definition convert (value : Z) : outcome bytes :=
  l ← convert_loop 20 value;
  Done (reverse (l ++ if value <? 0 then [x2d] else [])).

Definition digitsHex : bytes := bs "0123456789ABCDEF".
Fixpoint convertHex_loop (fuel : nat) (i : Z) : outcome bytes :=
  match fuel with
  | O => Fault OutOfFuel
  | S fuel =>
      let c := default x00 (digitsHex !! Z.to_nat (i mod 16)) in
      let i := i / 16 in
      if i =? 0 then Done [c] else l ← convertHex_loop fuel i; Done (c :: l)
  end.
Definition convertHex (value : Z) : outcome bytes := l ← convertHex_loop 16 value; Done (reverse l).

(** * Reals *)

(** Twelve significant digits and the decimal exponent of [n / d]. *)
Definition digits12 (n d : Z) : Z * Z :=
  let x := log10_from 640 309 n d in
  let s := if x <=? 11 then round_div (n * 10 ^ (11 - x)) d else round_div n (d * 10 ^ (x - 11)) in
  if s =? 10 ^ 12 then (10 ^ 11, x + 1) else (s, x).

(** A fraction without its trailing zeros, with its point. *)
Fixpoint drop_zeros (l : bytes) : bytes :=
  match l with c :: l => if decide (c = x30) then drop_zeros l else c :: l | [] => [] end.
Definition fraction (l : bytes) : bytes :=
  match reverse (drop_zeros (reverse l)) with [] => [] | l => x2e :: l end.

Definition format_g12 (s x : Z) : bytes :=
  let ds := decimal s in
  if (-4 <=? x) && (x <? 12) then
    if 0 <=? x then take (Z.to_nat (x + 1)) ds ++ fraction (drop (Z.to_nat (x + 1)) ds)
    else x30 :: fraction (repeat x30 (Z.to_nat (- x - 1)) ++ ds)
  else take 1 ds ++ fraction (drop 1 ds) ++ [x65; if x <? 0 then x2d else x2b] ++ pad2 (Z.abs x).

(** [snprintf( ..., "%.12g", value )] *)
Definition sprintf_g12 (value : spec_float) : bytes :=
  let sign (s : bool) := if s then [x2d] else [] in
  match value with
  | S754_nan => bs "nan"
  | S754_infinity s => sign s ++ bs "inf"
  | S754_zero s => sign s ++ bs "0"
  | S754_finite s m e =>
      let '(n, d) := if 0 <=? e then (Zpos m * 2 ^ e, 1) else (Zpos m, 2 ^ (- e)) in
      let '(ds, x) := digits12 n d in
      sign s ++ format_g12 ds x
  end.

(** * [LogStream] *)
Module LogStream.
Import FixedBuffer.

Definition kMaxNumericSize : Z := 48.
Notation append := (FixedBuffer.append kSmallBuffer).
Notation write := (FixedBuffer.write kSmallBuffer).
Notation avail := (FixedBuffer.avail kSmallBuffer).

(** [formatInteger( v )] *)
Definition formatInteger (v : Z) (buffer_ : FixedBuffer.t) : outcome FixedBuffer.t :=
  if kMaxNumericSize <=? avail buffer_ then
    l ← convert v;
    buffer_ ← write (cur_ buffer_) (l ++ [x00]) buffer_;
    Done (add (szof l) buffer_)
  else Done buffer_.

(** What an operator is applied to. *)
Inductive item :=
  | Bool (v : bool)
  | Integer (v : Z)                  (* of [int], [long], [long long] and their unsigned types *)
  | Pointer (p : Z)
  | Double (v : spec_float)
  | Char (c : byte)
  | CString (str : option bytes)     (* [None]: the null pointer *)
  | String (v : bytes).              (* [string], [StringPiece], another buffer *)

(** [snprintf( buffer_.current(), kMaxNumericSize, "%.12g", v )] writes what
    there is room for and returns the length of the text. *)
Definition put_double (v : spec_float) (buffer_ : FixedBuffer.t) : outcome FixedBuffer.t :=
  if kMaxNumericSize <=? avail buffer_ then
    let text := sprintf_g12 v in
    buffer_ ← write (cur_ buffer_) (take 47 text ++ [x00]) buffer_;
    Done (add (szof text) buffer_)
  else Done buffer_.

Definition put_pointer (v : Z) (buffer_ : FixedBuffer.t) : outcome FixedBuffer.t :=
  if kMaxNumericSize <=? avail buffer_ then
    buffer_ ← write (cur_ buffer_) (bs "0x") buffer_;
    l ← convertHex v;
    buffer_ ← write (cur_ buffer_ + 2) (l ++ [x00]) buffer_;
    Done (add (szof l + 2) buffer_)
  else Done buffer_.

(** [operator<<] *)
Definition put (x : item) (buffer_ : FixedBuffer.t) : outcome FixedBuffer.t :=
  match x with
  | Bool v => append (if v then bs "1" else bs "0") buffer_
  | Integer v => formatInteger v buffer_
  | Pointer p => put_pointer p buffer_
  | Double v => put_double v buffer_
  | Char c => append [c] buffer_
  | CString (Some str) => append (c_str str) buffer_
  | CString None => append (bs "(null)") buffer_
  | String v => append v buffer_
  end.

Fixpoint put_all (xs : list item) (buffer_ : FixedBuffer.t) : outcome FixedBuffer.t :=
  match xs with
  | [] => Done buffer_
  | x :: xs => buffer_ ← put x buffer_; put_all xs buffer_
  end.

Definition resetBuffer (buffer_ : FixedBuffer.t) : FixedBuffer.t := reset buffer_.

(** [Fmt( fmt, val )], from the text [snprintf] makes of its arguments: 32 bytes
    hold 31 characters. *)
Definition Fmt (text : bytes) : outcome bytes :=
  let length_ := szof text in
  let buf_ := take 31 text in
  _ ← cassert (u64 length_ <? 32) "static_cast<size_t>(length_) < sizeof buf_";
  Done buf_.

End LogStream.

(** * Quantities *)

(** [snprintf( ..., "%.<k>f", value )] *)
Definition sprintf_f (k : nat) (value : spec_float) : bytes :=
  let sign (s : bool) := if s then [x2d] else [] in
  let text (n : Z) :=
    let ds := decimal n in
    let ds := repeat x30 (S k - length ds) ++ ds in
    take (length ds - k) ds ++ (if (k =? 0)%nat then [] else x2e :: drop (length ds - k) ds) in
  match value with
  | S754_nan => bs "nan"
  | S754_infinity s => sign s ++ bs "inf"
  | S754_zero s => sign s ++ text 0
  | S754_finite s m e =>
      let '(n, d) := if 0 <=? e then (Zpos m * 2 ^ e, 1) else (Zpos m, 2 ^ (- e)) in
      sign s ++ text (round_div (n * 10 ^ Z.of_nat k) d)
  end.
Definition div_double (a b : spec_float) : spec_float := SFdiv 53 1024 a b.
Definition mul_double (a b : spec_float) : spec_float := SFmul 53 1024 a b.

(** [formatSI( s )]; the constants [1e3] to [1e18] are exact. *)
Definition formatSI (s : Z) : bytes :=
  let n := double_of_int s in
  let unit (k : nat) (e : Z) (u : string) := sprintf_f k (div_double n (double_of_int (10 ^ e))) ++ bs u in
  if s <? 1000 then signed_decimal s
  else if s <? 9995 then unit 2%nat 3 "k"
  else if s <? 99950 then unit 1%nat 3 "k"
  else if s <? 999500 then unit 0%nat 3 "k"
  else if s <? 9995000 then unit 2%nat 6 "M"
  else if s <? 99950000 then unit 1%nat 6 "M"
  else if s <? 999500000 then unit 0%nat 6 "M"
  else if s <? 9995000000 then unit 2%nat 9 "G"
  else if s <? 99950000000 then unit 1%nat 9 "G"
  else if s <? 999500000000 then unit 0%nat 9 "G"
  else if s <? 9995000000000 then unit 2%nat 12 "T"
  else if s <? 99950000000000 then unit 1%nat 12 "T"
  else if s <? 999500000000000 then unit 0%nat 12 "T"
  else if s <? 9995000000000000 then unit 2%nat 15 "P"
  else if s <? 99950000000000000 then unit 1%nat 15 "P"
  else if s <? 999500000000000000 then unit 0%nat 15 "P"
  else unit 2%nat 18 "E".

(** [formatIEC( s )]: the thresholds are products of [double]s. *)
Definition formatIEC (s : Z) : bytes :=
  let n := double_of_int s in
  let lt (i : Z) (factor : spec_float) := SFltb n (mul_double (double_of_int (1024 ^ i)) factor) in
  let unit (k : nat) (i : Z) (u : string) := sprintf_f k (div_double n (double_of_int (1024 ^ i))) ++ bs u in
  let f9995 := double_of_decimal false 9995 (-3) in
  let f9995' := double_of_decimal false 9995 (-2) in
  let f10235 := double_of_decimal false 10235 (-1) in
  if SFltb n (double_of_int 1024) then signed_decimal s
  else if lt 1 f9995 then unit 2%nat 1 "Ki"
  else if lt 1 f9995' then unit 1%nat 1 "Ki"
  else if lt 1 f10235 then unit 0%nat 1 "Ki"
  else if lt 2 f9995 then unit 2%nat 2 "Mi"
  else if lt 2 f9995' then unit 1%nat 2 "Mi"
  else if lt 2 f10235 then unit 0%nat 2 "Mi"
  else if lt 3 f9995 then unit 2%nat 3 "Gi"
  else if lt 3 f9995' then unit 1%nat 3 "Gi"
  else if lt 3 f10235 then unit 0%nat 3 "Gi"
  else if lt 4 f9995 then unit 2%nat 4 "Ti"
  else if lt 4 f9995' then unit 1%nat 4 "Ti"
  else if lt 4 f10235 then unit 0%nat 4 "Ti"
  else if lt 5 f9995 then unit 2%nat 5 "Pi"
  else if lt 5 f9995' then unit 1%nat 5 "Pi"
  else if lt 5 f10235 then unit 0%nat 5 "Pi"
  else if lt 6 f9995 then unit 2%nat 6 "Ei"
  else unit 1%nat 6 "Ei".

(** * Integers: lemmas *)

Lemma zero_at_digit r : -9 ≤ r ≤ 9 → zero_at r = Done (digit_char (Z.abs r)).
Proof.
  intros Hr. assert (r ∈ [-9; -8; -7; -6; -5; -4; -3; -2; -1; 0; 1; 2; 3; 4; 5; 6; 7; 8; 9]) as Hin.
  { rewrite !elem_of_cons. lia. }
  repeat (apply elem_of_cons in Hin as [->|Hin]; [reflexivity|]). by apply not_elem_of_nil in Hin.
Qed.

(** The characters are the decimal digits of the absolute value, last first. *)
Lemma convert_loop_digits f i : Z.abs i < 10 ^ Z.of_nat (S f) →
  ∃ l, convert_loop (S f) i = Done l ∧ (length l ≤ S f)%nat ∧
    ∀ g acc, Z.abs i < 2 ^ Z.of_nat (S g) → digits_loop (S g) (Z.abs i) acc = reverse l ++ acc.
Proof.
  revert i. induction f as [|f IH]; intros i Hi;
    (assert (-9 ≤ Z.rem i 10 ≤ 9 ∧ Z.abs (Z.rem i 10) = Z.abs i mod 10) as [Hr Ha] by (Z.to_euclidean_division_equations; lia));
    (assert (Z.abs i / 10 = Z.abs (Z.quot i 10)) as Hq by (Z.to_euclidean_division_equations; lia)).
  - change (10 ^ Z.of_nat 1) with 10 in Hi. exists [digit_char (Z.abs i mod 10)]. cbn [convert_loop].
    rewrite zero_at_digit, Ha by done. cbn. assert (Z.quot i 10 = 0) as -> by (Z.to_euclidean_division_equations; lia).
    split; [done|]. split; [done|]. intros g acc _. rewrite Hq. cbn.
    by assert (Z.quot i 10 = 0) as -> by (Z.to_euclidean_division_equations; lia).
  - remember (S f) as f'. cbn [convert_loop]. rewrite zero_at_digit, Ha by done. rewrite bind_ret_l. cbv zeta.
    destruct (Z.eqb_spec (Z.quot i 10) 0) as [E|E].
    + exists [digit_char (Z.abs i mod 10)]. split; [done|]. split; [cbn; lia|]. intros g acc _. cbn [digits_loop].
      by rewrite Hq, E.
    + destruct (IH (Z.quot i 10)) as (l & Hl & Hlen & Hd).
      { rewrite Nat2Z.inj_succ, Z.pow_succ_r in Hi by lia. Z.to_euclidean_division_equations; lia. }
      exists (digit_char (Z.abs i mod 10) :: l). rewrite Hl. split; [done|]. split; [cbn; lia|].
      intros g acc Hg. cbn [digits_loop]. rewrite Hq.
      destruct (Z.eqb_spec (Z.abs (Z.quot i 10)) 0) as [E'|_]; [lia|].
      destruct g as [|g]; [change (2 ^ Z.of_nat 1) with 2 in Hg; Z.to_euclidean_division_equations; lia|].
      rewrite Hd, reverse_cons, <-app_assoc; [done|].
      rewrite Nat2Z.inj_succ, Z.pow_succ_r in Hg by lia. Z.to_euclidean_division_equations; lia.
Qed.

Lemma convert_ok v : - 2 ^ 63 ≤ v < 2 ^ 64 → convert v = Done (signed_decimal v) ∧ (length (signed_decimal v) ≤ 21)%nat.
Proof.
  intros Hv. destruct (convert_loop_digits 19 v) as (l & Hl & Hlen & Hd); [cbn; lia|].
  assert (decimal (Z.abs v) = reverse l) as Hdec.
  { unfold decimal. rewrite <-(app_nil_r (reverse l)). apply Hd. rewrite Nat2Z.inj_succ, Z2Nat.id by apply Z.log2_nonneg.
    destruct (decide (Z.abs v = 0)) as [->|]; [done|]. apply Z.log2_spec. lia. }
  unfold convert. rewrite Hl. cbn [mbind outcome_bind]. rewrite reverse_app. unfold signed_decimal.
  destruct (Z.ltb_spec v 0).
  - replace (- v) with (Z.abs v) by lia. rewrite Hdec. split; [done|]. cbn. rewrite length_reverse. lia.
  - replace (decimal v) with (decimal (Z.abs v)) by (f_equal; lia). rewrite Hdec. cbn. split; [done|].
    rewrite length_reverse. lia.
Qed.

(** ** Hexadecimal *)

Definition hex_digit (c : byte) : Z := if is_digit c then digit_value c else ub c - 55.
Definition hex_value (l : bytes) : Z := foldl (λ a c, a * 16 + hex_digit c) 0 l.

Lemma hex_digit_at i : 0 ≤ i < 16 → hex_digit (default x00 (digitsHex !! Z.to_nat i)) = i.
Proof.
  intros Hi. assert (i ∈ [0; 1; 2; 3; 4; 5; 6; 7; 8; 9; 10; 11; 12; 13; 14; 15]) as Hin.
  { rewrite !elem_of_cons. lia. }
  repeat (apply elem_of_cons in Hin as [->|Hin]; [reflexivity|]). by apply not_elem_of_nil in Hin.
Qed.

Lemma convertHex_loop_value f i : 0 ≤ i < 16 ^ Z.of_nat (S f) →
  ∃ l, convertHex_loop (S f) i = Done l ∧ (length l ≤ S f)%nat ∧ hex_value (reverse l) = i.
Proof.
  revert i. induction f as [|f IH]; intros i Hi;
    pose proof (Z.mod_pos_bound i 16 eq_refl) as Hm; pose proof (Z.div_mod i 16 ltac:(done)) as Hdm.
  - change (16 ^ Z.of_nat 1) with 16 in Hi. cbn [convertHex_loop]. cbv zeta. rewrite Z.div_small by lia. eexists. split; [done|]. split; [done|].
    unfold hex_value. cbn -[digitsHex]. rewrite hex_digit_at by lia. by rewrite Z.mod_small.
  - remember (S f) as f'. cbn [convertHex_loop]. cbv zeta. destruct (Z.eqb_spec (i / 16) 0) as [E|E].
    + eexists. split; [done|]. split; [cbn; lia|]. unfold hex_value. cbn -[digitsHex].
      rewrite hex_digit_at by lia. lia.
    + destruct (IH (i / 16)) as (l & Hl & Hlen & Hval).
      { subst f'. rewrite Nat2Z.inj_succ, Z.pow_succ_r in Hi by lia. split; [apply Z.div_pos; lia|apply Z.div_lt_upper_bound; lia]. }
      rewrite Hl. eexists. split; [done|]. split; [cbn; lia|].
      rewrite reverse_cons. unfold hex_value in *. rewrite foldl_app, Hval. cbn -[digitsHex]. rewrite hex_digit_at by lia. lia.
Qed.

Lemma convertHex_ok p : 0 ≤ p < 2 ^ 64 → ∃ l, convertHex p = Done l ∧ (length l ≤ 16)%nat ∧ hex_value l = p.
Proof.
  intros Hp. destruct (convertHex_loop_value 15 p) as (l & Hl & Hlen & Hv); [cbn; lia|].
  exists (reverse l). unfold convertHex. rewrite Hl. split; [done|]. by rewrite length_reverse.
Qed.

(** * Reals: the text is short *)

Definition le10 (x n d : Z) : bool := if 0 <=? x then 10 ^ x * d <=? n else d <=? n * 10 ^ (- x).

Lemma log10_from_range fuel x n d : le10 (x + 1) n d = false →
  x - Z.of_nat fuel ≤ log10_from fuel x n d ≤ x ∧ le10 (log10_from fuel x n d + 1) n d = false.
Proof.
  revert x. induction fuel as [|fuel IH]; intros x Hx; cbn [log10_from]; [split; [lia|done]|].
  fold (le10 x n d). destruct (le10 x n d) eqn:E; [split; [lia|done]|].
  destruct (IH (x - 1)) as [H1 H2]; [by replace (x - 1 + 1) with x by lia|]. split; [lia|done].
Qed.

Lemma round_div_le a b k : 0 ≤ a → 0 < b → a < k * b → 0 ≤ round_div a b ≤ k.
Proof.
  intros Ha Hb Hk. assert (0 ≤ a / b < k) as Hq by (split; [apply Z.div_pos; lia|apply Z.div_lt_upper_bound; lia]).
  unfold round_div. repeat case_match; lia.
Qed.

Lemma digits12_range n d : 0 ≤ n → 0 < d → le10 310 n d = false →
  0 ≤ (digits12 n d).1 < 10 ^ 12 ∧ -331 ≤ (digits12 n d).2 ≤ 310.
Proof.
  intros Hn Hd H. destruct (log10_from_range 640 309 n d H) as [Hr Hle].
  unfold digits12. cbv zeta. set (x := log10_from 640 309 n d) in *. change (Z.of_nat 640) with 640 in Hr.
  assert (0 ≤ (if x <=? 11 then round_div (n * 10 ^ (11 - x)) d else round_div n (d * 10 ^ (x - 11))) ≤ 10 ^ 12) as Hs.
  { destruct (Z.leb_spec x 11).
    - apply round_div_le; [apply Z.mul_nonneg_nonneg; [done|apply Z.pow_nonneg; lia]|done|].
      unfold le10 in Hle. destruct (Z.leb_spec 0 (x + 1)) as [Hx|Hx]; apply Z.leb_gt in Hle.
      + replace 12 with ((x + 1) + (11 - x)) by lia. rewrite Z.pow_add_r by lia.
        pose proof (Z.pow_pos_nonneg 10 (11 - x) ltac:(lia) ltac:(lia)). nia.
      + replace (11 - x) with (- (x + 1) + 12) by lia. rewrite Z.pow_add_r by lia. nia.
    - apply round_div_le; [done|apply Z.mul_pos_pos; [done|apply Z.pow_pos_nonneg; lia]|].
      unfold le10 in Hle. destruct (Z.leb_spec 0 (x + 1)); [|lia]. apply Z.leb_gt in Hle.
      replace (x + 1) with (12 + (x - 11)) in Hle by lia. rewrite Z.pow_add_r in Hle by lia. nia. }
  destruct (Z.eqb_spec (if x <=? 11 then round_div (n * 10 ^ (11 - x)) d else round_div n (d * 10 ^ (x - 11))) (10 ^ 12)); cbn [fst snd]; lia.
Qed.

Lemma fraction_length l : (length (fraction l) ≤ S (length l))%nat.
Proof.
  assert (∀ l, (length (drop_zeros l) ≤ length l)%nat) as Hd.
  { clear. induction l as [|c l IH]; cbn; [done|]. case_decide; cbn; lia. }
  unfold fraction. specialize (Hd (reverse l)). rewrite length_reverse in Hd.
  destruct (reverse (drop_zeros (reverse l))) as [|c k] eqn:E; [cbn; lia|].
  apply (f_equal length) in E. rewrite length_reverse in E. cbn in *. lia.
Qed.

Lemma pad2_length n : 0 ≤ n < 1000 → (length (pad2 n) ≤ 3)%nat.
Proof.
  intros Hn. unfold pad2. destruct (Z.ltb_spec n 10).
  - pose proof (decimal_length n 0 ltac:(cbn; lia)). cbn [length]. lia.
  - by apply (decimal_length n 2).
Qed.

Lemma format_g12_length s x : 0 ≤ s < 10 ^ 12 → -331 ≤ x ≤ 310 → (length (format_g12 s x) ≤ 18)%nat.
Proof.
  intros Hs Hx. pose proof (decimal_length s 11 ltac:(cbn; lia)) as Hd. unfold format_g12. cbv zeta.
  destruct (Z.leb_spec (-4) x); [destruct (Z.ltb_spec x 12); [destruct (Z.leb_spec 0 x)|]|]; cbn [andb].
  - rewrite length_app, length_take. pose proof (fraction_length (drop (Z.to_nat (x + 1)) (decimal s))) as Hf.
    rewrite length_drop in Hf. lia.
  - cbn [length]. pose proof (fraction_length (repeat x30 (Z.to_nat (- x - 1)) ++ decimal s)) as Hf.
    rewrite length_app, repeat_length in Hf. lia.
  - rewrite !length_app, length_take. pose proof (fraction_length (drop 1 (decimal s))) as Hf.
    rewrite length_drop in Hf. pose proof (pad2_length (Z.abs x) ltac:(lia)). cbn [length]. lia.
  - rewrite !length_app, length_take. pose proof (fraction_length (drop 1 (decimal s))) as Hf.
    rewrite length_drop in Hf. pose proof (pad2_length (Z.abs x) ltac:(lia)). cbn [length]. lia.
Qed.

Lemma digits2_pos_bound m : Zpos m < 2 ^ Zpos (digits2_pos m).
Proof.
  induction m as [m IH|m IH|]; cbn [digits2_pos]; [..|done];
    rewrite Pos2Z.inj_succ, Z.pow_succ_r by lia; lia.
Qed.

(** A number a [double] can hold. *)
Definition is_double (v : spec_float) : Prop := valid_binary 53 1024 v = true.

Lemma sprintf_g12_length v : is_double v → (length (sprintf_g12 v) ≤ 19)%nat.
Proof.
  unfold is_double. destruct v as [[]|[]| |s m e]; try (cbn; lia). intros Hv.
  cbn [valid_binary] in Hv. unfold bounded, canonical_mantissa in Hv. apply andb_true_iff in Hv as [Hc He].
  apply Zeq_bool_eq in Hc. apply Z.leb_le in He. unfold fexp, emin in Hc.
  assert (Zpos m < 2 ^ 53) as Hm.
  { eapply Z.lt_le_trans; [apply digits2_pos_bound|]. apply Z.pow_le_mono_r; lia. }
  assert (∀ n d, 0 ≤ n → 0 < d → le10 310 n d = false →
    (length ((if s then [x2d] else []) ++ (let '(ds, x) := digits12 n d in format_g12 ds x)) ≤ 19)%nat) as H.
  { intros n d Hn Hd Hle. destruct (digits12_range n d Hn Hd Hle) as [H1 H2].
    destruct (digits12 n d) as [ds x]. pose proof (format_g12_length ds x H1 H2).
    rewrite length_app. destruct s; cbn [length]; lia. }
  assert (2 ^ 1024 < 10 ^ 310) as Hbig by (vm_compute; done).
  cbn [sprintf_g12]. destruct (Z.leb_spec 0 e).
  - specialize (H (Zpos m * 2 ^ e) 1). destruct (digits12 (Zpos m * 2 ^ e) 1). apply H; [lia|lia|].
    unfold le10. change (0 <=? 310) with true. cbv iota. apply Z.leb_gt.
    assert (2 ^ e ≤ 2 ^ 971) by (apply Z.pow_le_mono_r; lia).
    assert (2 ^ 53 * 2 ^ 971 = 2 ^ 1024) by (by rewrite <-Z.pow_add_r by lia).
    pose proof (Z.pow_pos_nonneg 2 e). nia.
  - specialize (H (Zpos m) (2 ^ (- e))). destruct (digits12 (Zpos m) (2 ^ (- e))).
    assert (0 < 2 ^ (- e)) by (apply Z.pow_pos_nonneg; lia). apply H; [lia|done|].
    unfold le10. change (0 <=? 310) with true. cbv iota. apply Z.leb_gt.
    assert (2 ^ 53 < 10 ^ 310) by (vm_compute; done). nia.
Qed.

(** * Buffers *)
Section fixed_buffer.
Context (SIZE : Z).
Import FixedBuffer.

(** One byte is always free. *)
Definition buffer_ok (b : t) : Prop := szof (data_ b) = SIZE ∧ 0 ≤ cur_ b < SIZE.

Lemma write_ok pos l b : buffer_ok b → 0 ≤ pos → pos + szof l ≤ SIZE →
  ∃ b', write SIZE pos l b = Done b' ∧ buffer_ok b' ∧ cur_ b' = cur_ b ∧
    take (Z.to_nat pos) (data_ b') = take (Z.to_nat pos) (data_ b) ∧
    take (length l) (drop (Z.to_nat pos) (data_ b')) = l.
Proof.
  intros [Hs Hc] Hp Hl. unfold write. rewrite defined_if_bind by lia. eexists. split; [done|].
  assert (length (take (Z.to_nat pos) (data_ b)) = Z.to_nat pos) as Ht by (rewrite length_take; lia).
  split; [|split; [done|]].
  - split; [|done]. cbn [data_]. rewrite !length_app, length_drop, Ht. lia.
  - cbn [data_]. split; [by rewrite take_app_length'|]. rewrite drop_app_length' by done. by rewrite take_app_length.
Qed.

(** Text written at the end and added. *)
Lemma write_add l rest b b' : buffer_ok b → cur_ b + szof l + szof rest ≤ SIZE → cur_ b + szof l < SIZE →
  write SIZE (cur_ b) (l ++ rest) b = Done b' →
  buffer_ok (add (szof l) b') ∧ toString (add (szof l) b') = toString b ++ l ∧ cur_ b' = cur_ b.
Proof.
  intros Hb Hr Hl Hw. pose proof Hb as [Hs Hc].
  destruct (write_ok (cur_ b) (l ++ rest) b Hb) as (b0 & Hw' & Hb' & Hcur & Ht & Hd); [lia|rewrite length_app; lia|].
  rewrite Hw in Hw'. injection Hw' as <-. pose proof Hb' as [Hs' _]. split; [split; cbn; lia|]. split; [|done].
  unfold toString. cbn. rewrite Hcur. replace (Z.to_nat (cur_ b + szof l)) with (Z.to_nat (cur_ b) + length l)%nat by lia.
  rewrite <-take_take_drop, Ht. f_equal. apply (f_equal (take (length l))) in Hd.
  rewrite take_take, take_app_length, length_app in Hd. by rewrite Nat.min_l in Hd by lia.
Qed.

Lemma append_ok buf b : SIZE < 2 ^ 64 → buffer_ok b → ∃ b', append SIZE buf b = Done b' ∧ buffer_ok b' ∧
  toString b' = toString b ++ (if szof buf <? avail SIZE b then buf else []) ∧
  cur_ b' = cur_ b + (if szof buf <? avail SIZE b then szof buf else 0).
Proof.
  intros HS Hb. pose proof Hb as [Hs Hc]. unfold append. rewrite wrapu_small by (unfold avail; lia).
  destruct (Z.ltb_spec (szof buf) (avail SIZE b)) as [Hlt|]; [|exists b; rewrite app_nil_r; split_and!; [done..|lia]].
  unfold avail in Hlt. destruct (write_ok (cur_ b) buf b Hb) as (b' & Hw & _); [lia|lia|]. rewrite Hw, bind_ret_l.
  rewrite <-(app_nil_r buf) in Hw. destruct (write_add buf [] b b' Hb) as (H1 & H2 & H3); [cbn; lia|lia|done|].
  eexists. split; [done|]. split; [done|]. split; [done|]. cbn. lia.
Qed.

Lemma toString_length b : buffer_ok b → szof (toString b) = cur_ b.
Proof. intros [Hs Hc]. unfold toString. rewrite length_take. lia. Qed.
End fixed_buffer.

(** * Lines *)
Section line.
Import FixedBuffer LogStream.

(** The text of an item, and how much room its operator asks for: numbers want
    [kMaxNumericSize] bytes, texts one byte more than they take. *)
Definition text_of (x : item) : bytes :=
  match x with
  | Bool v => if v then bs "1" else bs "0"
  | Integer v => signed_decimal v
  | Pointer p => bs "0x" ++ match convertHex p with Done l => l | Fault _ => [] end
  | Double v => sprintf_g12 v
  | Char c => [c]
  | CString (Some str) => c_str str
  | CString None => bs "(null)"
  | String v => v
  end.
Definition is_number (x : item) : bool := match x with Integer _ | Pointer _ | Double _ => true | _ => false end.
Definition fits (x : item) (room : Z) : bool :=
  if is_number x then kMaxNumericSize <=? room else szof (text_of x) <? room.

Definition item_ok (x : item) : Prop :=
  match x with
  | Integer v => - 2 ^ 63 ≤ v < 2 ^ 64
  | Pointer p => 0 ≤ p < 2 ^ 64
  | Double v => is_double v
  | _ => True
  end.

(** The items that fit, one after the other. *)
Fixpoint line_text (room : Z) (xs : list item) : bytes :=
  match xs with
  | [] => []
  | x :: xs => if fits x room then text_of x ++ line_text (room - szof (text_of x)) xs else line_text room xs
  end.

Notation line_ok := (buffer_ok kSmallBuffer).

Lemma numeric_ok text b b' : line_ok b → kMaxNumericSize ≤ FixedBuffer.avail kSmallBuffer b → szof text < kMaxNumericSize →
  write (cur_ b) (text ++ [x00]) b = Done b' →
  line_ok (add (szof text) b') ∧ toString (add (szof text) b') = toString b ++ text ∧ cur_ b' = cur_ b.
Proof. intros Hb Ha Ht. unfold FixedBuffer.avail, kMaxNumericSize in *. apply write_add; [done|cbn; lia|lia]. Qed.

Lemma numeric_write text b : line_ok b → kMaxNumericSize ≤ FixedBuffer.avail kSmallBuffer b → szof text < kMaxNumericSize →
  ∃ b', write (cur_ b) (text ++ [x00]) b = Done b'.
Proof.
  intros Hb Ha Ht. unfold FixedBuffer.avail, kMaxNumericSize in *. pose proof Hb as [_ Hc].
  destruct (write_ok kSmallBuffer (cur_ b) (text ++ [x00]) b Hb) as (b' & Hw & _); [lia|rewrite length_app; cbn; lia|by exists b'].
Qed.

(** [put] of an item, by its text. *)
Definition puts_text (x : item) (b : FixedBuffer.t) (m : outcome FixedBuffer.t) : Prop :=
  ∃ b', m = Done b' ∧ line_ok b' ∧
    toString b' = toString b ++ (if fits x (FixedBuffer.avail kSmallBuffer b) then text_of x else []) ∧
    cur_ b' = cur_ b + (if fits x (FixedBuffer.avail kSmallBuffer b) then szof (text_of x) else 0).

Lemma puts_nothing x b : line_ok b → fits x (FixedBuffer.avail kSmallBuffer b) = false → puts_text x b (Done b).
Proof. intros Hb Hf. exists b. rewrite Hf, app_nil_r. split_and!; [done..|lia]. Qed.

Lemma put_text_ok x text b : line_ok b → is_number x = false → text_of x = text → puts_text x b (LogStream.append text b).
Proof.
  intros Hb Hx <-. destruct (append_ok kSmallBuffer (text_of x) b ltac:(done) Hb) as (b' & Ha & Hb' & Ht & Hc).
  exists b'. unfold fits. by rewrite Hx.
Qed.

Lemma put_integer_ok v b : line_ok b → item_ok (Integer v) → puts_text (Integer v) b (formatInteger v b).
Proof.
  intros Hb Hv. destruct (convert_ok v Hv) as [Hc Hlen]. unfold formatInteger.
  destruct (Z.leb_spec kMaxNumericSize (avail b)) as [Ha|Ha]; [|apply puts_nothing; [done|cbn [fits is_number]; lia]].
  rewrite Hc, bind_ret_l. assert (szof (signed_decimal v) < kMaxNumericSize) as Hl by (unfold kMaxNumericSize; lia).
  destruct (numeric_write _ b Hb Ha Hl) as [b' Hw]. rewrite Hw, bind_ret_l.
  destruct (numeric_ok _ b b' Hb Ha Hl Hw) as (H1 & H2 & H3).
  eexists. split; [done|]. split; [done|]. cbn [fits is_number text_of]. rewrite (proj2 (Z.leb_le _ _) Ha). by cbn; rewrite H3.
Qed.

Lemma put_double_ok v b : line_ok b → item_ok (Double v) → puts_text (Double v) b (put_double v b).
Proof.
  intros Hb Hv. pose proof (sprintf_g12_length v Hv) as Hlen. unfold put_double.
  destruct (Z.leb_spec kMaxNumericSize (avail b)) as [Ha|Ha]; [|apply puts_nothing; [done|cbn [fits is_number]; lia]].
  assert (szof (sprintf_g12 v) < kMaxNumericSize) as Hl by (unfold kMaxNumericSize; lia).
  rewrite take_ge by lia.
  destruct (numeric_write _ b Hb Ha Hl) as [b' Hw]. rewrite Hw, bind_ret_l.
  destruct (numeric_ok _ b b' Hb Ha Hl Hw) as (H1 & H2 & H3).
  eexists. split; [done|]. split; [done|]. cbn [fits is_number text_of]. rewrite (proj2 (Z.leb_le _ _) Ha). by cbn; rewrite H3.
Qed.

Lemma put_pointer_ok p b : line_ok b → item_ok (Pointer p) → puts_text (Pointer p) b (put_pointer p b).
Proof.
  intros Hb Hp. destruct (convertHex_ok p Hp) as (l & Hh & Hlen & _). pose proof Hb as [_ Hc]. unfold put_pointer.
  destruct (Z.leb_spec kMaxNumericSize (avail b)) as [Ha|Ha]; [|apply puts_nothing; [done|cbn [fits is_number]; lia]].
  pose proof Ha as Ha'. unfold FixedBuffer.avail, kMaxNumericSize, kSmallBuffer in Ha', Hc.
  destruct (write_ok kSmallBuffer (cur_ b) (bs "0x") b Hb) as (b1 & -> & Hb1 & Hc1 & Ht1 & Hd1); [lia|cbn; unfold kSmallBuffer; lia|].
  rewrite bind_ret_l, Hh, bind_ret_l.
  destruct (write_ok kSmallBuffer (cur_ b1 + 2) (l ++ [x00]) b1 Hb1) as (b2 & -> & Hb2 & Hc2 & Ht2 & Hd2);
    [lia|rewrite length_app; cbn; unfold kSmallBuffer; lia|].
  rewrite bind_ret_l. eexists. split; [done|]. pose proof Hb2 as [Hs2 _].
  split; [split; [done|cbn; unfold kSmallBuffer; lia]|]. cbn [fits is_number text_of]. rewrite (proj2 (Z.leb_le _ _) Ha), Hh.
  split; [|cbn; lia]. unfold toString. cbn [FixedBuffer.data_ FixedBuffer.cur_ add].
  replace (Z.to_nat (cur_ b2 + (szof l + 2))) with (Z.to_nat (cur_ b1 + 2) + length l)%nat by lia.
  rewrite <-take_take_drop, Ht2. apply (f_equal (take (length l))) in Hd2.
  rewrite take_take, take_app_length, length_app, Nat.min_l in Hd2 by lia. rewrite Hd2.
  rewrite Hc1. replace (Z.to_nat (cur_ b + 2)) with (Z.to_nat (cur_ b) + 2)%nat by lia.
  rewrite <-take_take_drop, Ht1. change (length (bs "0x")) with 2%nat in Hd1. by rewrite Hd1, app_assoc.
Qed.

Lemma put_item_ok x b : line_ok b → item_ok x → puts_text x b (put x b).
Proof.
  intros Hb Hx. destruct x as [v|v|p|v|c|[str|]|v]; cbn [put].
  - apply put_text_ok; [done|done|by destruct v].
  - by apply put_integer_ok.
  - by apply put_pointer_ok.
  - by apply put_double_ok.
  - by apply put_text_ok.
  - by apply put_text_ok.
  - by apply put_text_ok.
  - by apply put_text_ok.
Qed.

Lemma put_all_ok xs b : line_ok b → Forall item_ok xs →
  ∃ b', put_all xs b = Done b' ∧ line_ok b' ∧
    toString b' = toString b ++ line_text (FixedBuffer.avail kSmallBuffer b) xs.
Proof.
  intros Hb Hxs. revert b Hb. induction Hxs as [|x xs Hx _ IH]; intros b Hb; cbn [put_all line_text].
  - exists b. by rewrite app_nil_r.
  - destruct (put_item_ok x b Hb Hx) as (b1 & -> & Hb1 & Ht1 & Hc1). rewrite bind_ret_l.
    destruct (IH b1 Hb1) as (b2 & Hp & Hb2 & Ht2). exists b2. split; [done|]. split; [done|].
    rewrite Ht2, Ht1. unfold FixedBuffer.avail in *. rewrite Hc1.
    destruct (fits x (kSmallBuffer - cur_ b)).
    + rewrite <-app_assoc. by replace (kSmallBuffer - (cur_ b + szof (text_of x))) with (kSmallBuffer - cur_ b - szof (text_of x)) by lia.
    + rewrite app_nil_r. by replace (kSmallBuffer - (cur_ b + 0)) with (kSmallBuffer - cur_ b) by lia.
Qed.

Lemma put_all_app xs ys b : put_all (xs ++ ys) b = b ← put_all xs b; put_all ys b.
Proof. revert b. induction xs as [|x xs IH]; intros b; cbn; [done|]. destruct (put x b); [apply IH|done]. Qed.

(** A line that is well within its buffer is complete. *)
Lemma line_text_complete room xs : szof (concat (text_of <$> xs)) + kMaxNumericSize ≤ room →
  line_text room xs = concat (text_of <$> xs).
Proof.
  revert room. induction xs as [|x xs IH]; intros room; cbn; [done|]. rewrite length_app. intros Hr. unfold kMaxNumericSize in *.
  assert (fits x room = true) as ->.
  { unfold fits, kMaxNumericSize. destruct (is_number x); [apply Z.leb_le|apply Z.ltb_lt]; lia. }
  rewrite IH; [done|]. unfold kMaxNumericSize. lia.
Qed.

(** C29. A log line never overruns its buffer: whatever items are written to it,
    integers and pointers of any value and any [double] among them, every
    operator completes, and the line is the texts of the items in order, each of
    them whole or, if there is no room for it, left out whole; integers are
    written in decimal, with their sign; a line for which there is room is complete. *)
Theorem log_line_formatted xs b :
  buffer_ok kSmallBuffer b → Forall item_ok xs →
  ∃ b', put_all xs b = Done b' ∧ buffer_ok kSmallBuffer b' ∧
    toString b' = toString b ++ line_text (FixedBuffer.avail kSmallBuffer b) xs ∧
    (szof (concat (text_of <$> xs)) + kMaxNumericSize ≤ FixedBuffer.avail kSmallBuffer b →
     toString b' = toString b ++ concat (text_of <$> xs)).
Proof.
  intros Hb Hxs. destruct (put_all_ok xs b Hb Hxs) as (b' & Hp & Hb' & Ht). exists b'. split_and!; [done..|].
  intros Hr. by rewrite Ht, line_text_complete.
Qed.

(** The integer is read back from its text. *)
Definition read_integer (l : bytes) : Z :=
  match l with c :: l' => if decide (c = x2d) then - decimal_value l' else decimal_value l | [] => 0 end.

(** [convert] is exact for every value of every integer type it is used
    with, the smallest ones included, whose absolute value has no signed
    representation: it writes at most 21 characters, and they read as the value
    again; so do those of [convertHex], at most 16. *)
Theorem convert_roundtrip v :
  - 2 ^ 63 ≤ v < 2 ^ 64 →
  (∃ l, convert v = Done l ∧ (length l ≤ 21)%nat ∧ read_integer l = v) ∧
  (0 ≤ v → ∃ l, convertHex v = Done l ∧ (length l ≤ 16)%nat ∧ hex_value l = v).
Proof.
  intros Hv. split; [|intros H0; apply convertHex_ok; lia].
  destruct (convert_ok v Hv) as [Hc Hlen]. exists (signed_decimal v). split; [done|]. split; [done|].
  unfold signed_decimal. destruct (Z.ltb_spec v 0); cbn [read_integer].
  - rewrite decide_True by done. rewrite decimal_value_decimal by lia. lia.
  - pose proof (decimal_digits v ltac:(lia)) as Hds. pose proof (decimal_value_decimal v ltac:(lia)) as Hval.
    destruct (decimal v) as [|c l]; [by rewrite <-Hval|]. cbn.
    rewrite decide_False; [done|]. intros ->. by apply Forall_cons in Hds as [[=] _].
Qed.
End line.

(** * Examples *)
Module Sample.
Import FixedBuffer LogStream.

Definition fresh : FixedBuffer.t := FixedBuffer.make (repeat x00 4000).
Definition items : list item :=
  [Bool true; Char x20; Integer (- 2 ^ 63); String (bs " p="); Pointer 48879; Char x20; Double (double_of_int 1500000); CString None].

Lemma fresh_ok : buffer_ok kSmallBuffer fresh.
Proof. split; [|done]. unfold fresh, FixedBuffer.make. cbn [data_]. by rewrite repeat_length. Qed.

Theorem log_line_formatted_witness :
  ∃ b', put_all items fresh = Done b' ∧ toString b' = bs "1 -9223372036854775808 p=0xBEEF 1500000(null)".
Proof.
  destruct (log_line_formatted items fresh) as (b' & Hp & _ & Ht & _).
  - exact fresh_ok.
  - unfold items. repeat match goal with |- Forall _ (_ :: _) => apply List.Forall_cons end; [exact I|exact I|cbn; lia|exact I|cbn; lia|exact I|reflexivity|exact I|apply List.Forall_nil].
  - exists b'. split; [done|]. rewrite Ht. vm_compute. reflexivity.
Defined.

Theorem convert_roundtrip_witness :
  ∃ l, convert (- 2 ^ 63) = Done l ∧ (length l ≤ 21)%nat ∧ read_integer l = - 2 ^ 63.
Proof. apply (convert_roundtrip (- 2 ^ 63)). lia. Defined.

(** Numbers are dropped when fewer than 48 bytes are left, however short they are. *)
Example short_number_dropped :
  fits (Integer 7) 47 = false ∧ fits (String (bs "7")) 47 = true.
Proof. by split. Qed.

(** The texts of [formatSI] are documented to have at most five characters; the
    comparison is made on the integer, the text on the rounded [double]. *)
Example si_six_characters : formatSI 99949999999999999 = bs "100.0P" ∧ formatSI 99949 = bs "99.9k" ∧ formatSI 999500 = bs "1.00M".
Proof. vm_compute. done. Qed.
Example iec_texts : formatIEC 1023 = bs "1023" ∧ formatIEC 10235 = bs "10.0Ki" ∧ formatIEC (2 ^ 63 - 1) = bs "8.00Ei".
Proof. vm_compute. done. Qed.
End Sample.
