(* ===== verification/LogFile.v ===== *)
(** Files and the rolling log file (src/IMServer/src/muduo/base: FileUtil.h,
    FileUtil.cc, LogFile.h, LogFile.cc).  What the calls of the C library and the
    system return - the results of [fwrite], of [read], the clock - are arguments;
    an open file is known by its name and the bytes its stream accepted. *)

From S2P Require Import Prelude CDouble Calendar Monitor.
Local Open Scope Z_scope.

(** * [FileUtil::AppendFile] *)
Module AppendFile.

(** [contents]: what the stream of [fp_] accepted since it was opened;
    [flushed]: how much of it the last [fflush] handed on. *)
Record t := mk { filename : bytes; contents : bytes; flushed : Z; writtenBytes_ : Z }.

(** [AppendFile( filename )]; [opened]: [fopen] succeeded. *)
Definition make (filename : bytes) (opened : bool) : outcome t :=
  _ ← cassert opened "fp_"; Done (mk filename [] 0 0).

(** The result of [fwrite_unlocked], and [ferror] after it. *)
Record written := mkWritten { count : Z; error : Z }.

(** [write( logline, len )]: at most all of it is accepted. *)
Definition accept (n : Z) (logline : bytes) (f : t) : t :=
  mk (filename f) (contents f ++ take (Z.to_nat n) logline) (flushed f) (writtenBytes_ f).

(** The loop of [append]; a count that an error cuts short is not added to
    [written]. *)
Fixpoint append_loop (results : list written) (written : Z) (logline : bytes) (f : t) : outcome (Z * t) :=
  if written =? szof logline then Done (written, f)
  else
    match results with
    | [] => Fault OutOfFuel
    | r :: results =>
        let remain := szof logline - written in
        let f := accept (count r) (drop (Z.to_nat written) logline) f in
        if negb (count r =? remain) && negb (error r =? 0) then Done (written, f)
        else append_loop results (written + count r) logline f
    end.
Definition append (results : list written) (logline : bytes) (f : t) : outcome t :=
  '(written, f) ← append_loop results 0 logline f;
  Done (mk (filename f) (contents f) (flushed f) (writtenBytes_ f + written)).

Definition flush (f : t) : t := mk (filename f) (contents f) (szof (contents f)) (writtenBytes_ f).
(** [~AppendFile()]: [fclose] flushes. *)
Definition dtor (f : t) : t := flush f.

End AppendFile.

(** * [FileUtil::ReadSmallFile] *)
Module ReadSmallFile.

Definition kBufferSize : Z := 64 * 1024.
Record t := mk { fd_ : Z; err_ : Z; buf_ : bytes }.

(** [ReadSmallFile( filename )]: [open] and [errno] after it, and what the memory
    of the buffer holds. *)
Definition make (open errno : Z) (memory : bytes) : t :=
  mk open (if open <? 0 then errno else 0) (x00 :: drop 1 memory).

Inductive file_type := Regular | Directory | Other.
Record stat := mkStat { st_mode : file_type; st_size : Z; st_mtime : Z; st_ctime : Z }.
Definition EISDIR : Z := 21.

(** The result of [read]: what it got, or [errno]. *)
Inductive read := Got (l : bytes) | Failed (errno : Z).

(** The arguments that are pointers: [None] is the null pointer, otherwise the
    value pointed to. *)
Record params := mkParams { fileSize : option Z; modifyTime : option Z; createTime : option Z }.
Definition assign (p : option Z) (v : Z) : option Z := match p with Some _ => Some v | None => None end.

(** [reserve] of a negative [int] asks for more than [max_size()]. *)
Definition reserve (n : Z) : outcome unit := if s32 n <? 0 then Fault (Thrown "std::length_error") else Done tt.

(** The part that looks at [fstat]; its result is [None] when it fails. *)
Definition examine (maxSize : Z) (fstat : option stat) (errno : Z) (err : Z) (p : params) : outcome (Z * params) :=
  match fileSize p with
  | None => Done (err, p)
  | Some _ =>
      match fstat with
      | None => Done (errno, p)
      | Some st =>
          '(err, size) ← match st_mode st with
                         | Regular => _ ← reserve (Z.min maxSize (st_size st)); Done (err, Some (st_size st))
                         | Directory => Done (EISDIR, fileSize p)
                         | Other => Done (err, fileSize p)
                         end;
          Done (err, mkParams size (assign (modifyTime p) (st_mtime st)) (assign (createTime p) (st_ctime st)))
      end
  end.

(** [toRead] *)
Definition to_read (maxSize : Z) (content : bytes) : Z := Z.min (u64 maxSize - szof content) kBufferSize.

Fixpoint read_loop (reads : list read) (maxSize err : Z) (content buf : bytes) : outcome (Z * bytes * bytes) :=
  if szof content <? u64 maxSize then
    match reads with
    | [] => Fault OutOfFuel
    | Got [] :: _ => Done (err, content, buf)
    | Got l :: reads => read_loop reads maxSize err (content ++ l) (l ++ drop (length l) buf)
    | Failed errno :: _ => Done (errno, content, buf)
    end
  else Done (err, content, buf).

(** [readToString( maxSize, content, ... )]: the error, the content and the
    values behind the pointers. *)
Definition readToString (maxSize : Z) (content : bytes) (p : params) (fstat : option stat) (errno : Z)
    (reads : list read) (f : t) : outcome (Z * bytes * params * t) :=
  if 0 <=? fd_ f then
    '(err, p) ← examine maxSize fstat errno (err_ f) p;
    '(err, content, buf) ← read_loop reads maxSize err [] (buf_ f);
    Done (err, content, p, mk (fd_ f) (err_ f) buf)
  else Done (err_ f, content, p, f).

(** [readToBuffer( size )]: [pread] of at most one byte less than the buffer. *)
Definition readToBuffer (size : option Z) (r : read) (f : t) : outcome (Z * option Z * t) :=
  if 0 <=? fd_ f then
    match r with
    | Got l =>
        _ ← defined_if (szof l <? kBufferSize) "buf_[n]";
        Done (err_ f, assign size (szof l), mk (fd_ f) (err_ f) (l ++ x00 :: drop (S (length l)) (buf_ f)))
    | Failed errno => Done (errno, size, f)
    end
  else Done (err_ f, size, f).

(** [readFile( filename, maxSize, ... )] *)
Definition readFile (open errno : Z) (maxSize : Z) (content : bytes) (p : params) (fstat : option stat) (errno' : Z)
    (reads : list read) (memory : bytes) : outcome (Z * bytes * params) :=
  '(result, _) ← readToString maxSize content p fstat errno' reads (make open errno memory);
  Done result.

End ReadSmallFile.

(** * [LogFile] *)
Module LogFile.

Definition kRollPerSeconds_ : Z := 60 * 60 * 24.

(** [closed]: the files that were closed, in order. *)
Record t := mk {
  basename_ : bytes; rollSize_ : Z; flushInterval_ : Z; checkEveryN_ : Z;
  count_ : Z; mutex_ : option MutexLock.t;
  startOfPeriod_ : Z; lastRoll_ : Z; lastFlush_ : Z;
  file_ : option AppendFile.t; closed : list AppendFile.t
}.

Definition set_count (n : Z) (s : t) : t :=
  mk (basename_ s) (rollSize_ s) (flushInterval_ s) (checkEveryN_ s) n (mutex_ s)
     (startOfPeriod_ s) (lastRoll_ s) (lastFlush_ s) (file_ s) (closed s).
Definition set_mutex (m : option MutexLock.t) (s : t) : t :=
  mk (basename_ s) (rollSize_ s) (flushInterval_ s) (checkEveryN_ s) (count_ s) m
     (startOfPeriod_ s) (lastRoll_ s) (lastFlush_ s) (file_ s) (closed s).
Definition set_lastFlush (now : Z) (s : t) : t :=
  mk (basename_ s) (rollSize_ s) (flushInterval_ s) (checkEveryN_ s) (count_ s) (mutex_ s)
     (startOfPeriod_ s) (lastRoll_ s) now (file_ s) (closed s).
Definition set_file (f : AppendFile.t) (s : t) : t :=
  mk (basename_ s) (rollSize_ s) (flushInterval_ s) (checkEveryN_ s) (count_ s) (mutex_ s)
     (startOfPeriod_ s) (lastRoll_ s) (lastFlush_ s) (Some f) (closed s).
(** [file_.reset( new AppendFile( ... ) )] *)
Definition reset_file (now start : Z) (f : AppendFile.t) (s : t) : t :=
  mk (basename_ s) (rollSize_ s) (flushInterval_ s) (checkEveryN_ s) (count_ s) (mutex_ s)
     start now now (Some f) (closed s ++ match file_ s with Some f => [AppendFile.dtor f] | None => [] end).

Section process.
(** [ProcessInfo::hostname()] and [ProcessInfo::pid()]. *)
Context (hostname : bytes) (pid : Z).

(** [strftime( ..., ".%Y%m%d-%H%M%S.", &tm )] *)
Definition timebuf (tm : Calendar.TimeZone.tm) : outcome bytes :=
  let two := Timestamp.zero_padded 2 in
  y ← int32 (TimeZone.tm_year tm + 1900);
  Done ([x2e] ++ signed_decimal y ++ two (TimeZone.tm_mon tm + 1) ++ two (TimeZone.tm_mday tm) ++ [x2d]
        ++ two (TimeZone.tm_hour tm) ++ two (TimeZone.tm_min tm) ++ two (TimeZone.tm_sec tm) ++ [x2e]).

(** [getLogFileName( basename, now )] *)
Definition getLogFileName (basename : bytes) (now : Z) : outcome bytes :=
  tm ← TimeZone.gmtime_r now;
  timebuf ← timebuf tm;
  Done (basename ++ timebuf ++ hostname ++ [x2e] ++ signed_decimal pid ++ bs ".log").

(** [rollFile()]: [now] is its reading of the clock. *)
Definition rollFile (now : Z) (opened : bool) (s : t) : outcome (bool * t) :=
  filename ← getLogFileName (basename_ s) now;
  let start := Z.quot now kRollPerSeconds_ * kRollPerSeconds_ in
  if lastRoll_ s <? now then
    f ← AppendFile.make filename opened;
    Done (true, reset_file now start f s)
  else Done (false, s).

(** [LogFile( ... )] *)
Definition make (basename : bytes) (rollSize : Z) (threadSafe : bool) (flushInterval checkEveryN : Z)
    (now : Z) (opened : bool) : outcome t :=
  _ ← cassert (bool_decide (x2f ∉ basename)) "basename.find('/') == string::npos";
  '(_, s) ← rollFile now opened
    (mk basename rollSize flushInterval checkEveryN 0 (if threadSafe then Some MutexLock.make else None) 0 0 0 None []);
  Done s.

(** Dereferencing [file_]. *)
Definition get_file (s : t) : outcome AppendFile.t :=
  match file_ s with Some f => Done f | None => Fault (Undefined "null file_") end.

(** What the environment answers in a call of [append]: the writes, the clock of
    the check and of [rollFile], and whether a file could be opened. *)
Record answers := mkAnswers { writes : list AppendFile.written; check_time : Z; roll_time : Z; can_open : bool }.

Definition append_unlocked (logline : bytes) (a : answers) (s : t) : outcome t :=
  f ← get_file s;
  f ← AppendFile.append (writes a) logline f;
  let s := set_file f s in
  if rollSize_ s <? AppendFile.writtenBytes_ f then
    '(_, s) ← rollFile (roll_time a) (can_open a) s; Done s
  else
    let s := set_count (count_ s + 1) s in
    if checkEveryN_ s <=? count_ s then
      let s := set_count 0 s in
      let now := check_time a in
      let thisPeriod_ := Z.quot now kRollPerSeconds_ * kRollPerSeconds_ in
      if negb (thisPeriod_ =? startOfPeriod_ s) then
        '(_, s) ← rollFile (roll_time a) (can_open a) s; Done s
      else if flushInterval_ s <? now - lastFlush_ s then
        Done (set_file (AppendFile.flush f) (set_lastFlush now s))
      else Done s
    else Done s.

(** Under the mutex, if there is one; [None]: the call blocks. *)
Definition under_mutex (tid : Z) (body : t → outcome t) (s : t) : option (outcome t) :=
  match mutex_ s with
  | Some m =>
      match MutexLock.lock tid m with
      | Some m =>
          Some (s ← body (set_mutex (Some m) s);
                match mutex_ s with
                | Some m => m ← MutexLock.unlock tid m; Done (set_mutex (Some m) s)
                | None => Done s
                end)
      | None => None
      end
  | None => Some (body s)
  end.

Definition append (tid : Z) (logline : bytes) (a : answers) (s : t) : option (outcome t) :=
  under_mutex tid (append_unlocked logline a) s.
Definition flush (tid : Z) (s : t) : option (outcome t) :=
  under_mutex tid (λ s, f ← get_file s; Done (set_file (AppendFile.flush f) s)) s.

End process.
End LogFile.

(** * The names of the files *)
Section names.
Import LogFile.

(** The time from 1970 to the year 9999. *)
Definition time_ok (now : Z) : Prop := 0 < now < 253402300800.

Lemma log_gmtime now : time_ok now → ∃ tm, TimeZone.gmtime_r now = Done tm ∧
  0 ≤ TimeZone.tm_sec tm < 60 ∧ 0 ≤ TimeZone.tm_min tm < 60 ∧ 0 ≤ TimeZone.tm_hour tm < 24 ∧
  1 ≤ TimeZone.tm_mon tm + 1 ≤ 12 ∧ 1 ≤ TimeZone.tm_mday tm ≤ 31 ∧ INT_MIN ≤ TimeZone.tm_year tm + 1900 ≤ INT_MAX ∧
  TimeZone.fromUtcTime_tm tm = Done now.
Proof.
  intros Hn. unfold time_ok in Hn. destruct (utc_inverse now true) as (tm & Hu & Hs & Hm & Hh & Hd & Hy & Hf); [lia|].
  exists tm. destruct (is_date_day _ Hd) as [Hmon Hday]. cbn in Hmon, Hday. unfold INT_MIN, INT_MAX. split_and!; done || lia.
Qed.

Lemma timebuf_done now : time_ok now → ∃ l, (tm ← TimeZone.gmtime_r now; timebuf tm) = Done l.
Proof.
  intros Hn. destruct (log_gmtime now Hn) as (tm & -> & _ & _ & _ & _ & _ & Hy & _). rewrite bind_ret_l.
  unfold timebuf. rewrite int32_ok by done. by eexists.
Qed.

(** Different seconds have different texts: the fields give the second back. *)
Lemma timebuf_inj now now' l : time_ok now → time_ok now' →
  (tm ← TimeZone.gmtime_r now; timebuf tm) = Done l → (tm ← TimeZone.gmtime_r now'; timebuf tm) = Done l → now = now'.
Proof.
  intros Hn Hn'. destruct (log_gmtime now Hn) as (tm & -> & Hs & Hm & Hh & Hmo & Hd & Hy & Hf).
  destruct (log_gmtime now' Hn') as (tm' & -> & Hs' & Hm' & Hh' & Hmo' & Hd' & Hy' & Hf').
  rewrite !bind_ret_l. unfold timebuf. rewrite !int32_ok by done. rewrite !bind_ret_l. intros [= E] [= E'].
  rewrite <-E in E'. injection E' as E'. clear E l.
  assert (∀ z, 0 ≤ z < 100 → length (Timestamp.zero_padded 2 z) = 2%nat) as Hlen.
  { intros z Hz. by apply (zero_padded_spec 1). }
  apply app_inj_2 in E' as [Ey E'].
  2: { rewrite !length_app. cbn [length]. rewrite !length_app. rewrite !Hlen by lia. done. }
  apply signed_decimal_inj in Ey.
  apply (zero_padded_inj 1) in E' as [Emo E']; [|cbn; lia..].
  apply (zero_padded_inj 1) in E' as [Ed E']; [|cbn; lia..]. injection E' as E'.
  apply (zero_padded_inj 1) in E' as [Eh E']; [|cbn; lia..].
  apply (zero_padded_inj 1) in E' as [Em E']; [|cbn; lia..].
  apply (zero_padded_inj 1) in E' as [Es E']; [|cbn; lia..].
  enough (Done now = Done now') as [= ->] by done. rewrite <-Hf, <-Hf'. unfold TimeZone.fromUtcTime_tm.
  by rewrite Ey, Emo, Ed, Eh, Em, Es.
Qed.

Context (hostname : bytes) (pid : Z).
Notation getLogFileName := (getLogFileName hostname pid).

Lemma getLogFileName_done basename now : time_ok now → ∃ l, getLogFileName basename now = Done l.
Proof.
  intros Hn. destruct (timebuf_done now Hn) as [l H]. unfold LogFile.getLogFileName.
  destruct (TimeZone.gmtime_r now) as [tm|]; [|done]. rewrite bind_ret_l in *. rewrite H. by eexists.
Qed.
Lemma getLogFileName_inj basename now now' l : time_ok now → time_ok now' →
  getLogFileName basename now = Done l → getLogFileName basename now' = Done l → now = now'.
Proof.
  intros Hn Hn'. destruct (timebuf_done now Hn) as [l1 H1], (timebuf_done now' Hn') as [l2 H2].
  pose proof (timebuf_inj now now' l1 Hn Hn' H1) as Hinj. unfold LogFile.getLogFileName.
  destruct (TimeZone.gmtime_r now) as [tm|]; [|done]. destruct (TimeZone.gmtime_r now') as [tm'|]; [|done].
  rewrite !bind_ret_l in *. rewrite H1, H2. cbn. intros [= <-] [= E]. apply app_inv_head, app_inv_tail in E. subst. auto.
Qed.
End names.

(** * Rolling *)
Section rolling.
Import LogFile.
Context (hostname : bytes) (pid : Z).
Notation getLogFileName := (getLogFileName hostname pid).
Notation rollFile := (rollFile hostname pid).

(** Results of [fwrite] with which the loop of [append] ends: how much of
    [remain] bytes was accepted and how much of that is counted, the last piece
    being left out of the count if an error cut it short. *)
Fixpoint taken (results : list AppendFile.written) (remain : Z) : option (Z * Z) :=
  if remain =? 0 then Some (0, 0)
  else
    match results with
    | [] => None
    | r :: results =>
        let n := AppendFile.count r in
        if (0 <=? n) && (n <=? remain) then
          if negb (n =? remain) && negb (AppendFile.error r =? 0) then Some (n, 0)
          else '(accepted, counted) ← taken results (remain - n); Some (n + accepted, n + counted)
        else None
    end.

(** The part of the line that reaches the file, and whether it is all of it. *)
Definition piece (results : list AppendFile.written) (logline : bytes) : bytes :=
  match taken results (szof logline) with
  | Some (accepted, _) => take (Z.to_nat accepted) logline
  | None => []
  end.
Definition takes_all (results : list AppendFile.written) (logline : bytes) : bool :=
  bool_decide (taken results (szof logline) = Some (szof logline, szof logline)).

Lemma taken_bounds results remain n m : 0 ≤ remain → taken results remain = Some (n, m) → 0 ≤ m ≤ n ∧ n ≤ remain.
Proof.
  revert remain n m. induction results as [|r results IH]; intros remain n m Hr; cbn [taken];
    (destruct (Z.eqb_spec remain 0); [intros [= <- <-]; lia|]); [done|]. cbv zeta.
  destruct (_ && _) eqn:Hc; [|done]. destruct (negb _ && _); [intros [= <- <-]; lia|].
  destruct (taken results _) as [[n' m']|] eqn:Ht; [|done]. intros [= <- <-].
  apply IH in Ht; lia.
Qed.

Lemma append_loop_taken results written logline f n m : 0 ≤ written ≤ szof logline →
  taken results (szof logline - written) = Some (n, m) →
  AppendFile.append_loop results written logline f =
    Done (written + m, AppendFile.accept n (drop (Z.to_nat written) logline) f).
Proof.
  revert written f n m. induction results as [|r results IH]; intros written f n m Hw; cbn [taken AppendFile.append_loop];
    (destruct (Z.eqb_spec (szof logline - written) 0) as [E|E];
     [rewrite (proj2 (Z.eqb_eq written _)) by lia; intros [= <- <-]; unfold AppendFile.accept; cbn;
      rewrite Z.add_0_r, app_nil_r; by destruct f|rewrite (proj2 (Z.eqb_neq written _)) by lia]); [done|]. cbv zeta.
  destruct (_ && _) eqn:Hc; [|done]. destruct (negb _ && _); [intros [= <- <-]; by rewrite Z.add_0_r|].
  destruct (taken results _) as [[n' m']|] eqn:Ht; [|done]. intros [= <- <-].
  assert (0 ≤ m' ≤ n' ∧ n' ≤ szof logline - written - AppendFile.count r) as Hb by (eapply taken_bounds; [lia|exact Ht]).
  rewrite (IH _ _ n' m'); [|lia|by rewrite Z.sub_add_distr].
  f_equal. f_equal; [lia|]. unfold AppendFile.accept. cbn. f_equal. rewrite <-app_assoc. f_equal.
  replace (Z.to_nat (written + AppendFile.count r)) with (Z.to_nat written + Z.to_nat (AppendFile.count r))%nat by lia.
  rewrite <-drop_drop, take_take_drop. f_equal. lia.
Qed.

Lemma append_taken results logline f n m : taken results (szof logline) = Some (n, m) →
  AppendFile.append results logline f =
    Done (AppendFile.mk (AppendFile.filename f) (AppendFile.contents f ++ piece results logline)
            (AppendFile.flushed f) (AppendFile.writtenBytes_ f + m)).
Proof.
  intros H. unfold AppendFile.append, piece. rewrite H.
  rewrite (append_loop_taken _ _ _ _ n m); [done|lia|by rewrite Z.sub_0_r].
Qed.

Lemma piece_length results logline n m : taken results (szof logline) = Some (n, m) → szof (piece results logline) = n.
Proof.
  intros H. unfold piece. rewrite H. pose proof (taken_bounds _ (szof logline) _ _ (Nat2Z.is_nonneg _) H). rewrite length_take. lia.
Qed.

Lemma piece_prefix results logline : piece results logline `prefix_of` logline.
Proof.
  unfold piece. destruct (taken results _) as [[n m]|]; [|by apply prefix_nil].
  exists (drop (Z.to_nat n) logline). by rewrite take_drop.
Qed.

Lemma piece_all results logline : takes_all results logline = true → piece results logline = logline.
Proof. unfold takes_all, piece. intros ->%bool_decide_eq_true. by rewrite take_ge by lia. Qed.

(** The files, the open one last. *)
Definition files (s : LogFile.t) : list AppendFile.t := closed s ++ match file_ s with Some f => [f] | None => [] end.

Definition named (basename : bytes) (last : Z) (f : AppendFile.t) : Prop :=
  ∃ now, time_ok now ∧ now ≤ last ∧ getLogFileName basename now = Done (AppendFile.filename f).

(** [lines]: what was appended; [whole]: no write was cut short. *)
Record log_ok (whole : bool) (lines : list bytes) (s : LogFile.t) : Prop := mkLogOk {
  log_open : ∃ f, file_ s = Some f ∧ AppendFile.writtenBytes_ f ≤ szof (AppendFile.contents f) ∧
    (whole = true → AppendFile.writtenBytes_ f = szof (AppendFile.contents f));
  log_lines : ∃ groups, lines = concat groups ∧ AppendFile.contents <$> files s = concat (A:=byte) <$> groups;
  log_closed : Forall (λ f, AppendFile.flushed f = szof (AppendFile.contents f)) (closed s);
  log_names : NoDup (AppendFile.filename <$> files s);
  log_named : Forall (named (basename_ s) (lastRoll_ s)) (files s)
}.

(** What [log_ok] depends on. *)
Lemma log_ok_ext whole lines s s' : file_ s' = file_ s → closed s' = closed s → basename_ s' = basename_ s →
  lastRoll_ s' = lastRoll_ s → log_ok whole lines s → log_ok whole lines s'.
Proof.
  intros Hf Hc Hb Hr [H1 H2 H3 H4 H5]. assert (files s' = files s) as Hfs by (unfold files; by rewrite Hf, Hc).
  split; rewrite ?Hf, ?Hc, ?Hfs, ?Hb, ?Hr; done.
Qed.

(** Another version of the open file. *)
Lemma log_ok_set_file whole whole' lines more f f' s : file_ s = Some f → log_ok whole lines s →
  AppendFile.filename f' = AppendFile.filename f → AppendFile.contents f' = AppendFile.contents f ++ concat more →
  AppendFile.writtenBytes_ f' ≤ szof (AppendFile.contents f') →
  (whole' = true → AppendFile.writtenBytes_ f' = szof (AppendFile.contents f')) →
  log_ok whole' (lines ++ more) (set_file f' s).
Proof.
  intros Hf [_ (groups & -> & Hg) H3 H4 H5] Hname Hcont Hle Hw. unfold files in Hg, H4, H5. rewrite Hf in Hg, H4, H5.
  split; [by exists f'| |done|..]; unfold files in *; cbn [file_ closed set_file] in *.
  - rewrite fmap_app in Hg. destruct groups as [|g groups _] using rev_ind.
    { cbn in Hg. by destruct (AppendFile.contents <$> closed s). }
    rewrite fmap_app in Hg. apply app_inj_2 in Hg as [Hg1 Hg2]; [|done]. cbn in Hg2. injection Hg2 as Hg2.
    exists (groups ++ [g ++ more]). split; [rewrite !concat_app; cbn; by rewrite !app_nil_r, app_assoc|].
    rewrite !fmap_app, Hg1. cbn. by rewrite Hcont, Hg2, concat_app.
  - rewrite fmap_app in *. cbn in *. by rewrite Hname.
  - apply Forall_app in H5 as [H5 H6]. apply Forall_app. split; [done|]. apply List.Forall_cons; [|constructor].
    inversion_clear H6 as [|? ? H7 _]. unfold named. by rewrite Hname.
Qed.

Lemma roll_ok whole lines now opened s : time_ok now → log_ok whole lines s →
  (∃ b s', rollFile now opened s = Done (b, s') ∧ log_ok whole lines s' ∧
    mutex_ s' = mutex_ s ∧ (b = true ∧ (∃ f, file_ s' = Some f ∧ AppendFile.writtenBytes_ f = 0) ∨ now ≤ lastRoll_ s)) ∨
  opened = false ∧ rollFile now opened s = Fault (AssertFailed "fp_").
Proof.
  intros Hnow Hok. pose proof Hok as [(f & Hf & Hw) (groups & -> & Hg) H3 H4 H5].
  unfold LogFile.rollFile.
  destruct (getLogFileName_done hostname pid (basename_ s) now Hnow) as [name Hname]. rewrite Hname, bind_ret_l.
  destruct (Z.ltb_spec (lastRoll_ s) now) as [Hlt|Hge].
  2: { left. eexists _, _. split; [done|]. split; [done|]. split; [done|]. right. lia. }
  destruct opened; [left|by right]. cbn. eexists _, _. split; [done|]. split; [|split; [done|left; split; [done|]; by eexists]].
  unfold files in *. rewrite Hf in *. split; unfold files, reset_file; cbn; rewrite ?Hf.
  - eexists. split; [done|]. cbn. split; [lia|done].
  - exists (groups ++ [[]]). split; [rewrite concat_app; cbn; by rewrite app_nil_r|].
    rewrite !fmap_app in *. cbn in *. by rewrite Hg.
  - apply Forall_app. split; [done|]. apply List.Forall_cons; [done|constructor].
  - assert (AppendFile.filename <$> closed s ++ [AppendFile.dtor f] = AppendFile.filename <$> closed s ++ [f]) as Hsame
      by (by rewrite !fmap_app).
    rewrite fmap_app, Hsame. apply NoDup_app. split; [done|]. split; [|apply NoDup_singleton].
    intros x Hx Hin. apply list_elem_of_singleton in Hin as ->.
    apply list_elem_of_fmap in Hx as (g & Hg1 & Hg2). rewrite Forall_forall in H5.
    destruct (H5 _ Hg2) as (t & Ht & Hle & Htn). rewrite <-Hg1 in Htn.
    pose proof (getLogFileName_inj hostname pid _ _ _ _ Hnow Ht Hname Htn). lia.
  - apply Forall_app. split; [|apply List.Forall_cons; [by exists now|constructor]].
    apply Forall_app in H5 as [H5 H6]. apply Forall_app. split.
    + eapply Forall_impl; [exact H5|]. intros g (t & Ht & Hle & Htn). exists t. split_and!; [done|lia|done].
    + inversion_clear H6 as [|? ? (t & Ht & Hle & Htn) _]. apply List.Forall_cons; [|constructor].
      exists t. split_and!; [done|lia|done].
Qed.

(** ** Calls *)

Inductive event :=
  | Append (tid : Z) (logline : bytes) (a : answers)
  | Flush (tid : Z).
Definition step (e : event) (s : LogFile.t) : option (outcome LogFile.t) :=
  match e with
  | Append tid logline a => append hostname pid tid logline a s
  | Flush tid => flush tid s
  end.

Inductive reaches (s0 : LogFile.t) : list event → LogFile.t → Prop :=
  | reaches_nil : reaches s0 [] s0
  | reaches_snoc es s e s' : reaches s0 es s → step e s = Some (Done s') → reaches s0 (es ++ [e]) s'.

(** The calls of [fwrite] take everything or end in an error, and the clock is
    before the year 10000. *)
Definition event_ok (e : event) : Prop :=
  match e with
  | Append _ logline a => is_Some (taken (writes a) (szof logline)) ∧ time_ok (roll_time a)
  | Flush _ => True
  end.
(** No error cuts the line short. *)
Definition whole (e : event) : bool :=
  match e with Append _ logline a => takes_all (writes a) logline | Flush _ => true end.
(** No file can be opened. *)
Definition cannot_open (e : event) : Prop :=
  match e with Append _ _ a => can_open a = false | Flush _ => False end.
Definition pieces_of (es : list event) : list bytes :=
  omap (λ e, match e with Append _ logline a => Some (piece (writes a) logline) | Flush _ => None end) es.
Definition lines_of (es : list event) : list bytes :=
  omap (λ e, match e with Append _ logline _ => Some logline | Flush _ => None end) es.

(** What a call achieves: what is counted of the open file is not over its size
    after an append, unless the clock still shows the second it was opened in;
    it is flushed after a flush. *)
Definition achieves (e : event) (s s' : LogFile.t) : Prop :=
  ∃ f, file_ s' = Some f ∧
    match e with
    | Append _ _ a => AppendFile.writtenBytes_ f ≤ Z.max 0 (rollSize_ s) ∨ roll_time a ≤ lastRoll_ s
    | Flush _ => AppendFile.flushed f = szof (AppendFile.contents f)
    end.

(** The mutex between calls. *)
Definition unlocked (s : LogFile.t) : Prop := mutex_ s = None ∨ mutex_ s = Some MutexLock.make.

(** A call that completes, or that could not open a file it needed. *)
Definition completes (m : outcome LogFile.t) (e : event) (w : bool) (lines : list bytes) (s : LogFile.t) : Prop :=
  (∃ s', m = Done s' ∧ log_ok w lines s' ∧ mutex_ s' = mutex_ s ∧ achieves e s s') ∨
  cannot_open e ∧ m = Fault (AssertFailed "fp_").

Lemma append_unlocked_ok w lines tid logline a s : log_ok w lines s → event_ok (Append tid logline a) →
  completes (append_unlocked hostname pid logline a s) (Append tid logline a) (w && takes_all (writes a) logline)
    (lines ++ [piece (writes a) logline]) s.
Proof.
  intros Hok ([[n m] Htaken] & Ht). pose proof (log_open _ _ _ Hok) as (f & Hf & Hle & Hw).
  unfold append_unlocked, get_file. rewrite Hf, bind_ret_l, (append_taken _ _ _ n m), bind_ret_l by done. cbv zeta.
  set (w' := w && takes_all (writes a) logline). set (lines' := lines ++ [piece (writes a) logline]).
  set (f' := AppendFile.mk _ _ _ _).
  pose proof (piece_length _ _ _ _ Htaken) as Hlen. pose proof (taken_bounds _ (szof logline) _ _ (Nat2Z.is_nonneg _) Htaken) as Hb.
  assert (AppendFile.writtenBytes_ f' ≤ szof (AppendFile.contents f')) as Hle'.
  { subst f'. cbn. rewrite length_app. lia. }
  assert (w' = true → AppendFile.writtenBytes_ f' = szof (AppendFile.contents f')) as Hw'.
  { intros [Hw1 Hw2]%andb_true_iff. unfold takes_all in Hw2. apply bool_decide_eq_true in Hw2.
    rewrite Htaken in Hw2. injection Hw2 as Hn Hm. subst f'. cbn. rewrite length_app, Hw by done. lia. }
  assert (log_ok w' lines' (set_file f' s)) as Hok'.
  { eapply log_ok_set_file; [done..| | |done]; [subst f'; cbn; by rewrite app_nil_r|done]. }
  assert (∀ s0, log_ok w' lines' s0 → mutex_ s0 = mutex_ s → lastRoll_ s0 = lastRoll_ s →
    completes ('(_, s1) ← rollFile (roll_time a) (can_open a) s0; Done s1) (Append tid logline a) w' lines' s) as Hroll.
  { intros s0 H0 Hmu Hr. destruct (roll_ok _ _ _ (can_open a) _ Ht H0) as [(b & s' & -> & Hs' & Hm' & Hb')|[Hno ->]]; [left|by right].
    rewrite bind_ret_l. exists s'. split_and!; [done|done|congruence|]. destruct Hb' as [(_ & g & Hg & Hc)|Hle0].
    - exists g. split; [done|]. left. rewrite Hc. lia.
    - pose proof (log_open _ _ _ Hs') as (g & Hg & _). exists g. split; [done|]. right. by rewrite <-Hr. }
  destruct (Z.ltb_spec (rollSize_ (set_file f' s)) (AppendFile.writtenBytes_ f')) as [Hlt|Hge]; [by apply Hroll|].
  assert (∀ s' g, file_ s' = Some g → AppendFile.writtenBytes_ g = AppendFile.writtenBytes_ f' → achieves (Append tid logline a) s s') as Hach.
  { intros s' g Hg Hc. exists g. split; [done|]. left. rewrite Hc. cbn [rollSize_ set_file] in Hge. lia. }
  destruct (_ <=? _); [destruct (negb _); [|destruct (_ <? _)]|].
  - apply Hroll; [|done|done]. by eapply log_ok_ext; [..|exact Hok'].
  - left. eexists. split; [done|]. split; [|split; [done|by eapply Hach]].
    rewrite <-(app_nil_r lines'). eapply (log_ok_set_file w' _ _ [] f'); [done| |done|by cbn; rewrite app_nil_r|done..].
    by eapply log_ok_ext; [..|exact Hok'].
  - left. eexists. split; [done|]. split; [|split; [done|by eapply Hach]]. by eapply log_ok_ext; [..|exact Hok'].
  - left. eexists. split; [done|]. split; [|split; [done|by eapply Hach]]. by eapply log_ok_ext; [..|exact Hok'].
Qed.

Lemma flush_ok w lines tid s : log_ok w lines s →
  completes (f ← get_file s; Done (set_file (AppendFile.flush f) s)) (Flush tid) w lines s.
Proof.
  intros Hok. pose proof (log_open _ _ _ Hok) as (f & Hf & Hw). unfold get_file. rewrite Hf, bind_ret_l.
  left. eexists. split; [done|]. split; [|split; [done|by eexists]].
  rewrite <-(app_nil_r lines). by eapply log_ok_set_file; [done..|cbn; rewrite app_nil_r| |]; [done|apply Hw..].
Qed.

Lemma achieves_ext e s0 s s' : rollSize_ s0 = rollSize_ s → lastRoll_ s0 = lastRoll_ s → achieves e s0 s' → achieves e s s'.
Proof. intros Hr Hl (f & Hf & He). exists f. split; [done|]. destruct e; [by rewrite <-Hr, <-Hl|done]. Qed.

(** Nobody is in a call: the mutex is free, and free again afterwards. *)
Lemma under_mutex_ok tid (body : LogFile.t → outcome LogFile.t) e w w' lines lines' s :
  (∀ s, log_ok w lines s → completes (body s) e w' lines' s) → unlocked s → log_ok w lines s →
  (∃ s', under_mutex tid body s = Some (Done s') ∧ unlocked s' ∧ log_ok w' lines' s' ∧ achieves e s s') ∨
  cannot_open e ∧ under_mutex tid body s = Some (Fault (AssertFailed "fp_")).
Proof.
  intros Hbody Hu Hok. unfold under_mutex. destruct Hu as [Hm|Hm]; rewrite Hm; cbn [MutexLock.lock MutexLock.make MutexLock.owner].
  - destruct (Hbody s Hok) as [(s' & -> & Hok' & Hm' & Ha)|[Hno ->]]; [left|by right].
    exists s'. split_and!; [done|left; congruence|done|done].
  - set (s1 := set_mutex _ s).
    destruct (Hbody s1) as [(s' & -> & Hok' & Hm' & Ha)|[Hno ->]]; [by eapply log_ok_ext; [..|exact Hok]|left|by right].
    rewrite bind_ret_l, Hm'. cbn. unfold MutexLock.unlock, MutexLock.release. cbn. rewrite bool_decide_eq_true_2 by done. cbn.
    eexists. split; [done|]. split; [by right|]. split; [by eapply log_ok_ext; [..|exact Hok']|].
    destruct (achieves_ext e s1 s s' eq_refl eq_refl Ha) as (f & Hf & He). by exists f.
Qed.

Lemma log_step_ok w lines e s : unlocked s → log_ok w lines s → event_ok e →
  (∃ s', step e s = Some (Done s') ∧ unlocked s' ∧ log_ok (w && whole e) (lines ++ pieces_of [e]) s' ∧ achieves e s s') ∨
  cannot_open e ∧ step e s = Some (Fault (AssertFailed "fp_")).
Proof.
  intros Hu Hok He. destruct e as [tid logline a|tid]; cbn [step whole].
  - eapply under_mutex_ok; [|done|done]. intros s0 Hs0. by apply append_unlocked_ok.
  - cbn. rewrite app_nil_r, andb_true_r. eapply under_mutex_ok; [|done|done]. intros s0 Hs0. by apply flush_ok.
Qed.

Lemma make_log_ok basename rollSize threadSafe flushInterval checkEveryN now : x2f ∉ basename → time_ok now →
  ∃ s, make hostname pid basename rollSize threadSafe flushInterval checkEveryN now true = Done s ∧ unlocked s ∧ log_ok true [] s ∧
    lastRoll_ s = now.
Proof.
  intros Hb Hn. unfold make. rewrite cassert_bind by (by apply bool_decide_eq_true_2). unfold LogFile.rollFile. cbn [basename_ lastRoll_].
  destruct (getLogFileName_done hostname pid basename now Hn) as [name Hname]. rewrite Hname, bind_ret_l.
  pose proof Hn as Hn'. unfold time_ok in Hn'. rewrite (proj2 (Z.ltb_lt 0 now)) by lia. cbn.
  eexists. split; [done|]. split; [by destruct threadSafe; [right|left]|]. split; [|done].
  split; unfold files; cbn; [eexists; split; [done|]; cbn; split; [lia|done]|by exists [[]]|constructor|apply NoDup_singleton|].
  apply List.Forall_cons; [|constructor]. exists now. split_and!; [done|lia|done].
Qed.

Lemma log_reaches_ok s0 es s : unlocked s0 → log_ok true [] s0 → reaches s0 es s → Forall event_ok es →
  unlocked s ∧ log_ok (forallb whole es) (pieces_of es) s.
Proof.
  intros Hu Hok. induction 1 as [|es s e s' _ IH Hs]; intros Hes; [done|].
  apply Forall_app in Hes as [Hes He]. inversion_clear He as [|? ? He' _]. destruct (IH Hes) as [Hu' Hok'].
  destruct (log_step_ok _ _ _ _ Hu' Hok' He') as [(s1 & Hs1 & Hu1 & Hok1 & _)|[_ Hf]]; [|congruence].
  rewrite Hs in Hs1. injection Hs1 as <-. split; [done|].
  rewrite forallb_app. cbn [forallb]. rewrite andb_true_r. unfold pieces_of in *. by rewrite omap_app.
Qed.

Lemma pieces_whole es : forallb whole es = true → pieces_of es = lines_of es.
Proof.
  induction es as [|[tid logline a|tid] es IH]; cbn; [done| |done].
  intros [Hw Hes]%andb_true_iff. rewrite piece_all by done. f_equal. by apply IH.
Qed.

(** C27. The rolling log file keeps what the system accepts of every line, in
    order.  From a log file just made, through any sequence of appends and
    flushes that completed, with [fwrite] taking the lines in however many pieces
    or ending in an error, and whatever the clock shows up to the year 9999: the
    files hold the accepted beginnings of the lines in order, each in one file;
    these are the whole lines if no write was cut short, and then what is counted
    of the open file is its length; no two files have the same name, so that none
    is opened twice, and those that were closed are flushed.  The next call
    completes without blocking, after an append what is counted of the open file
    is within its size or the clock still shows the second it was opened in, and
    after a flush all of it is flushed; except that the assertion of [AppendFile]
    fails in an append that has to open a file and cannot. *)
Theorem log_file_in_order basename rollSize threadSafe flushInterval checkEveryN now es s s0 :
  make hostname pid basename rollSize threadSafe flushInterval checkEveryN now true = Done s0 → time_ok now →
  reaches s0 es s → Forall event_ok es →
  (∃ groups, pieces_of es = concat groups ∧ AppendFile.contents <$> files s = concat (A:=byte) <$> groups) ∧
  (forallb whole es = true → pieces_of es = lines_of es ∧
     ∃ f, file_ s = Some f ∧ AppendFile.writtenBytes_ f = szof (AppendFile.contents f)) ∧
  NoDup (AppendFile.filename <$> files s) ∧
  Forall (λ f, AppendFile.flushed f = szof (AppendFile.contents f)) (closed s) ∧
  (∀ e, event_ok e → (∃ s', step e s = Some (Done s') ∧ achieves e s s') ∨
     cannot_open e ∧ step e s = Some (Fault (AssertFailed "fp_"))).
Proof.
  intros Hmake Hn Hr Hes. assert (unlocked s0 ∧ log_ok true [] s0) as [Hu0 Hok0].
  { destruct (decide (x2f ∈ basename)) as [Hin|Hb].
    - unfold make in Hmake. by rewrite bool_decide_eq_false_2 in Hmake by auto.
    - destruct (make_log_ok basename rollSize threadSafe flushInterval checkEveryN now Hb Hn) as (s1 & Hs1 & Hu & Hok & _).
      rewrite Hmake in Hs1. by injection Hs1 as <-. }
  destruct (log_reaches_ok _ _ _ Hu0 Hok0 Hr Hes) as [Hu Hok]. split; [apply Hok|]. split; [|split; [apply Hok|split; [apply Hok|]]].
  - intros Hw. split; [by apply pieces_whole|]. destruct (log_open _ _ _ Hok) as (f & Hf & _ & Hfw). exists f. auto.
  - intros e He. destruct (log_step_ok _ _ _ _ Hu Hok He) as [(s' & Hs' & _ & _ & Ha)|Hf]; [left; by exists s'|by right].
Qed.
End rolling.

(** * Reading a small file *)
Section reading.
Import ReadSmallFile.

(** Reads that deliver a file whose bytes from here on are [rest], in pieces of
    any size, up to its end or until there is no more room. *)
Fixpoint delivers (reads : list read) (rest : bytes) (room : Z) : bool :=
  if 0 <? room then
    match reads with
    | Got [] :: _ => bool_decide (rest = [])
    | Got l :: reads =>
        (szof l <=? Z.min room kBufferSize) && bool_decide (take (length l) rest = l) &&
        delivers reads (drop (length l) rest) (room - szof l)
    | _ => false
    end
  else true.

Lemma read_loop_delivers reads maxSize err content buf rest : szof content ≤ u64 maxSize →
  delivers reads rest (u64 maxSize - szof content) = true →
  ∃ buf', read_loop reads maxSize err content buf =
    Done (err, content ++ take (Z.to_nat (u64 maxSize - szof content)) rest, buf').
Proof.
  revert content buf rest. induction reads as [|r reads IH]; intros content buf rest Hle Hd; cbn [delivers read_loop] in *;
    (destruct (Z.ltb_spec (szof content) (u64 maxSize)) as [Hlt|Hge];
     [rewrite (proj2 (Z.ltb_lt 0 (u64 maxSize - szof content))) in Hd by lia|
      replace (u64 maxSize - szof content) with 0 by lia; exists buf; by rewrite take_0, app_nil_r]); [done|].
  destruct r as [[|c l]|errno]; [apply bool_decide_eq_true in Hd as ->; exists buf; by rewrite take_nil, app_nil_r| |done].
  set (piece := c :: l) in *. apply andb_true_iff in Hd as [Hd Hrest]. apply andb_true_iff in Hd as [Hlen Hp].
  apply bool_decide_eq_true in Hp. apply Z.leb_le in Hlen.
  destruct (IH (content ++ piece) (piece ++ drop (length piece) buf) (drop (length piece) rest)) as [buf' ->]; [rewrite length_app; lia| |].
  { replace (u64 maxSize - szof (content ++ piece)) with (u64 maxSize - szof content - szof piece) by (rewrite length_app; lia). done. }
  exists buf'. do 3 f_equal. rewrite <-app_assoc. f_equal.
  replace (Z.to_nat (u64 maxSize - szof content)) with (length piece + Z.to_nat (u64 maxSize - szof (content ++ piece)))%nat
    by (rewrite length_app; lia).
  by rewrite <-take_take_drop, Hp.
Qed.

(** A small file is read as it is: when the reads deliver a regular file, in
    pieces of any size, [readFile] reports no error, the first [maxSize] bytes
    of the file and, where they are asked for, its size and times; when it
    cannot be opened, the error of [open] and nothing else. *)
Theorem small_file_read open errno maxSize content p st errno' reads memory file :
  0 ≤ maxSize < 2 ^ 31 → st_mode st = Regular → 0 ≤ st_size st →
  delivers reads file maxSize = true →
  readFile open errno maxSize content p (Some st) errno' reads memory =
    if 0 <=? open then
      Done (0, take (Z.to_nat maxSize) file,
            match fileSize p with
            | Some _ => mkParams (Some (st_size st)) (assign (modifyTime p) (st_mtime st)) (assign (createTime p) (st_ctime st))
            | None => p
            end)
    else Done (errno, content, p).
Proof.
  intros Hmax Hmode Hsize Hd. unfold readFile, readToString, make. cbn [fd_ err_ buf_].
  destruct (Z.leb_spec 0 open); [|by rewrite (proj2 (Z.ltb_lt _ _))].
  rewrite (proj2 (Z.ltb_ge open 0)) by done.
  assert (∃ buf', read_loop reads maxSize 0 [] (x00 :: drop 1 memory) = Done (0, take (Z.to_nat maxSize) file, buf')) as [buf' Hr].
  { assert (u64 maxSize - szof (@nil byte) = maxSize) as Hm by (rewrite wrapu_small by lia; cbn; lia).
    destruct (read_loop_delivers reads maxSize 0 [] (x00 :: drop 1 memory) file) as [buf' Hb];
      [rewrite wrapu_small by lia; cbn; lia|by rewrite Hm|]. exists buf'. by rewrite Hb, Hm. }
  unfold examine. destruct (fileSize p).
  - rewrite Hmode. unfold reserve. rewrite wraps_small by (cbn; lia).
    rewrite (proj2 (Z.ltb_ge (Z.min maxSize (st_size st)) 0)) by lia. rewrite !bind_ret_l. cbv beta iota. cbn [buf_ fd_ err_]. by rewrite ?bind_ret_l, Hr.
  - rewrite bind_ret_l. cbv beta iota. cbn [buf_ fd_ err_]. by rewrite Hr.
Qed.
End reading.

(** * Examples *)
Module Sample.
Import LogFile.

Definition took (n : Z) : AppendFile.written := AppendFile.mkWritten n 0.
Definition at_time (ws : list AppendFile.written) (t : Z) : answers := mkAnswers ws t t true.
Definition host : bytes := bs "host".
Definition nothing : LogFile.t := mk [] 0 0 0 0 None 0 0 0 None [].
Notation make_log := (make host 7 (bs "im") 10 true 3 1024 1000000000 true).
(** Ten bytes fit; the second line finds the clock unchanged, the third does not. *)
Definition history : list event :=
  [Append 1 (bs "first") (at_time [took 2; took 3] 1000000000); Append 2 (bs "second") (at_time [took 6] 1000000000);
   Append 1 (bs "third") (at_time [took 5] 1000000001); Flush 1; Append 2 (bs "4") (at_time [took 1] 1000000002)].

Fixpoint perform (es : list event) (s : LogFile.t) : option LogFile.t :=
  match es with
  | [] => Some s
  | e :: es => match step host 7 e s with Some (Done s) => perform es s | _ => None end
  end.
Lemma file_perform_reaches s0 es0 s es s' : reaches host 7 s0 es0 s → perform es s = Some s' → reaches host 7 s0 (es0 ++ es) s'.
Proof.
  revert es0 s. induction es as [|e es IH]; intros es0 s Hr; cbn [perform]; [intros [= <-]; by rewrite app_nil_r|].
  destruct (step host 7 e s) as [[s1|]|] eqn:Hs; try done. intros Hp. rewrite cons_middle, (app_assoc es0).
  apply (IH _ s1); [by econstructor|done].
Qed.

Definition first_state : option LogFile.t := Eval vm_compute in match make_log with Done s => Some s | Fault _ => None end.
Definition last_state : option LogFile.t := Eval vm_compute in s ← first_state; perform history s.

Theorem log_file_in_order_witness :
  match first_state, last_state with
  | Some s0, Some s =>
      make_log = Done s0 ∧ reaches host 7 s0 history s ∧ Forall event_ok history ∧
      AppendFile.contents <$> files s = [bs "firstsecondthird"; bs "4"] ∧ NoDup (AppendFile.filename <$> files s)
  | _, _ => False
  end.
Proof.
  assert (Forall event_ok history) as Hes.
  { unfold history. repeat match goal with |- Forall _ (_ :: _) => apply List.Forall_cons end;
      first [exact I|apply List.Forall_nil|split; [eexists; reflexivity|split; reflexivity]]. }
  assert (make_log = Done (default nothing first_state)) as Hmake by (vm_compute; reflexivity).
  assert (reaches host 7 (default nothing first_state) history
            (default nothing last_state)) as Hr.
  { apply (file_perform_reaches _ [] (default nothing first_state) history); [constructor|]. vm_compute. reflexivity. }
  destruct (log_file_in_order host 7 (bs "im") 10 true 3 1024 1000000000 history _ _ Hmake ltac:(split; reflexivity) Hr Hes)
    as (_ & _ & Hn & _). split_and!; [exact Hmake|exact Hr|exact Hes|vm_compute; reflexivity|exact Hn].
Defined.

Example file_names :
  AppendFile.filename <$> files (default nothing last_state) =
    [bs "im.20010909-014640.host.7.log"; bs "im.20010909-014641.host.7.log"].
Proof. vm_compute. done. Qed.

(** Bytes that an error cuts short are in the file but not in [writtenBytes_],
    so that a file may grow beyond the size at which it is rolled. *)
Example short_write_not_counted :
  AppendFile.append [AppendFile.mkWritten 4 28] (bs "abcdef") (AppendFile.mk (bs "f") [] 0 0) =
    Done (AppendFile.mk (bs "f") (bs "abcd") 0 0).
Proof. vm_compute. done. Qed.

Theorem small_file_read_witness :
  ReadSmallFile.readFile 3 0 4 [] (ReadSmallFile.mkParams (Some 0) None None)
    (Some (ReadSmallFile.mkStat ReadSmallFile.Regular 6 0 0)) 0
    [ReadSmallFile.Got (bs "ab"); ReadSmallFile.Got (bs "cd")] [] =
  Done (0, bs "abcd", ReadSmallFile.mkParams (Some 6) None None).
Proof.
  etransitivity.
  - apply (small_file_read _ _ _ _ _ _ _ _ _ (bs "abcdef")); [lia|reflexivity|cbn; lia|vm_compute; reflexivity].
  - vm_compute. reflexivity.
Defined.
(** A negative [maxSize] makes [reserve] throw. *)
Example negative_size_throws :
  ReadSmallFile.readFile 3 0 (-1) [] (ReadSmallFile.mkParams (Some 0) None None)
    (Some (ReadSmallFile.mkStat ReadSmallFile.Regular 6 0 0)) 0 [ReadSmallFile.Got (bs "ab")] [] = Fault (Thrown "std::length_error").
Proof. vm_compute. done. Qed.
End Sample.
