(* ===== verification/Logging.v ===== *)
(** Log statements (src/IMServer/src/muduo/base: Logging.h, Logging.cc, and the
    thread identifier of CurrentThread.h, Thread.cc): the levels, the text of the
    time with its cache per thread, and the line a statement writes when its
    temporary [Logger] is destroyed. *)

From S2P Require Import Prelude CDouble Calendar LogStream.
Local Open Scope Z_scope.
Import FixedBuffer LogStream.

Module Logger.

(** ** Levels *)
Inductive LogLevel := TRACE | DEBUG | INFO | WARN | ERROR | FATAL.
#[export] Instance LogLevel_eq_dec : EqDecision LogLevel.
Proof. solve_decision. Defined.
Definition level_value (l : LogLevel) : Z :=
  match l with TRACE => 0 | DEBUG => 1 | INFO => 2 | WARN => 3 | ERROR => 4 | FATAL => 5 end.
Definition LogLevelName (l : LogLevel) : bytes :=
  bs match l with
     | TRACE => "TRACE " | DEBUG => "DEBUG " | INFO => "INFO  "
     | WARN => "WARN  " | ERROR => "ERROR " | FATAL => "FATAL "
     end.
(** [initLogLevel()], from whether the variables are set. *)
Definition initLogLevel (muduo_log_trace muduo_log_debug : bool) : LogLevel :=
  if muduo_log_trace then TRACE else if muduo_log_debug then DEBUG else INFO.

(** ** [SourceFile] *)

(** [strrchr( s, c )]: the offset of the last occurrence. *)
Fixpoint strrchr (s : bytes) (c : byte) : option nat :=
  match s with
  | [] => None
  | x :: s =>
      match strrchr s c with
      | Some i => Some (S i)
      | None => if decide (x = c) then Some O else None
      end
  end.
(** [data_] and [size_]: the text that is logged. *)
Definition SourceFile_array (arr : bytes) : bytes :=
  match strrchr (c_str arr) x2f with Some slash => drop (S slash) arr | None => arr end.
Definition SourceFile (filename : bytes) : bytes :=
  let filename := c_str filename in
  match strrchr filename x2f with Some slash => drop (S slash) filename | None => filename end.

(** ** State *)

(** The variables of the process and those of the thread. *)
Record globals := mkGlobals { g_logLevel : LogLevel; g_logTimeZone : option Calendar.TimeZone.Data }.
Record locals := mkLocals { t_time : bytes; t_lastSecond : Z }.
Definition initial_locals : locals := mkLocals [] 0.

Definition setLogLevel (level : LogLevel) (g : globals) : globals := mkGlobals level (g_logTimeZone g).
Definition setTimeZone (tz : option Calendar.TimeZone.Data) (g : globals) : globals := mkGlobals (g_logLevel g) tz.

(** [T( str, len )]: a text whose length is known. *)
Definition T (str : bytes) (len : Z) : outcome item :=
  _ ← cassert (szof (c_str str) =? len) "strlen(str) == len_"; Done (String (take (Z.to_nat len) str)).

Section logger.
(** [gettid()], the text of an error number, and what the memory of a line holds. *)
Context (gettid : Z) (strerror_tl : Z → bytes) (memory : bytes).

(** [CurrentThread::tidString()], once it is cached. *)
Definition tidString : bytes := take 31 (Timestamp.padded x20 5 (signed_decimal gettid) ++ [x20]).

Record t := mk { stream_ : FixedBuffer.t; level_ : LogLevel; line_ : Z; basename_ : bytes }.
Definition set_stream (b : FixedBuffer.t) (s : t) : t := mk b (level_ s) (line_ s) (basename_ s).

(** ** [Impl::formatTime()] *)

(** The text of a second. *)
Definition local_time (zone : option Calendar.TimeZone.Data) (seconds : Z) : outcome TimeZone.tm :=
  match zone with Some data => TimeZone.toLocalTime data seconds | None => TimeZone.gmtime_r seconds end.
Definition time_text (tm_time : TimeZone.tm) : outcome bytes :=
  let two := Timestamp.zero_padded 2 in
  y ← int32 (TimeZone.tm_year tm_time + 1900);
  m ← int32 (TimeZone.tm_mon tm_time + 1);
  Done (Timestamp.padded x20 4 (signed_decimal y) ++ two m ++ two (TimeZone.tm_mday tm_time) ++ [x20]
        ++ two (TimeZone.tm_hour tm_time) ++ [x3a] ++ two (TimeZone.tm_min tm_time) ++ [x3a] ++ two (TimeZone.tm_sec tm_time)).

Definition formatTime (g : globals) (time_ : Z) (tl : locals) (stream : FixedBuffer.t) : outcome (locals * FixedBuffer.t) :=
  let seconds := Z.quot time_ Timestamp.kMicroSecondsPerSecond in
  let microseconds := s32 (Z.rem time_ Timestamp.kMicroSecondsPerSecond) in
  tl ← (if negb (seconds =? t_lastSecond tl) then
          tm_time ← local_time (g_logTimeZone g) seconds;
          text ← time_text tm_time;
          _ ← cassert (szof text =? 17) "len == 17";
          Done (mkLocals text seconds)
        else Done tl);
  let zulu := match g_logTimeZone g with Some _ => bs " " | None => bs "Z " end in
  us ← Fmt ([x2e] ++ Timestamp.zero_padded 6 microseconds ++ zulu);
  let len := match g_logTimeZone g with Some _ => 8 | None => 9 end in
  _ ← cassert (szof us =? len) "us.length()";
  time ← T (t_time tl) 17;
  us ← T us len;
  stream ← put_all [time; us] stream;
  Done (tl, stream).

(** [Impl( level, savedErrno, file, line )] *)
Definition Impl (g : globals) (time_ : Z) (level : LogLevel) (savedErrno : Z) (file : bytes) (line : Z) (tl : locals) :
    outcome (locals * t) :=
  '(tl, stream) ← formatTime g time_ tl (FixedBuffer.make memory);
  tid ← T tidString (szof tidString);
  name ← T (LogLevelName level) 6;
  stream ← put_all [tid; name] stream;
  stream ← (if negb (savedErrno =? 0) then
              put_all [CString (Some (strerror_tl savedErrno)); CString (Some (bs " (errno=")); Integer savedErrno;
                       CString (Some (bs ") "))] stream
            else Done stream);
  Done (tl, mk stream level line file).

(** The constructors of [Logger]. *)
Inductive constructor :=
  | Logger_info                                        (* [Logger( file, line )] *)
  | Logger_level (level : LogLevel)                    (* [Logger( file, line, level )] *)
  | Logger_func (level : LogLevel) (func : bytes)      (* [Logger( file, line, level, func )] *)
  | Logger_error (toAbort : bool) (errno : Z).         (* [Logger( file, line, toAbort )] *)

Definition Logger (c : constructor) (g : globals) (time_ : Z) (file : bytes) (line : Z) (tl : locals) : outcome (locals * t) :=
  match c with
  | Logger_info => Impl g time_ INFO 0 file line tl
  | Logger_level level => Impl g time_ level 0 file line tl
  | Logger_func level func =>
      '(tl, s) ← Impl g time_ level 0 file line tl;
      stream ← put_all [CString (Some func); Char x20] (stream_ s);
      Done (tl, set_stream stream s)
  | Logger_error toAbort errno => Impl g time_ (if toAbort then FATAL else ERROR) errno file line tl
  end.

(** [Impl::finish()] *)
Definition finish (s : t) : outcome t :=
  stream ← put_all [CString (Some (bs " - ")); String (basename_ s); Char x3a; Integer (line_ s); Char x0a] (stream_ s);
  Done (set_stream stream s).

(** [~Logger()]: what is given to [g_output], and whether the process aborts. *)
Definition dtor (s : t) : outcome (bytes * bool) :=
  s ← finish s;
  Done (toString (stream_ s), bool_decide (level_ s = FATAL)).

(** ** Statements *)

(** The macros; the last two with [errno]. *)
Inductive statement :=
  | LOG_TRACE (func : bytes) | LOG_DEBUG (func : bytes) | LOG_INFO | LOG_WARN | LOG_ERROR | LOG_FATAL
  | LOG_SYSERR (errno : Z) | LOG_SYSFATAL (errno : Z).
Definition logged (x : statement) (g : globals) : bool :=
  match x with
  | LOG_TRACE _ => level_value (g_logLevel g) <=? level_value TRACE
  | LOG_DEBUG _ => level_value (g_logLevel g) <=? level_value DEBUG
  | LOG_INFO => level_value (g_logLevel g) <=? level_value INFO
  | _ => true
  end.
Definition constructor_of (x : statement) : constructor :=
  match x with
  | LOG_TRACE func => Logger_func TRACE func
  | LOG_DEBUG func => Logger_func DEBUG func
  | LOG_INFO => Logger_info
  | LOG_WARN => Logger_level WARN
  | LOG_ERROR => Logger_level ERROR
  | LOG_FATAL => Logger_level FATAL
  | LOG_SYSERR errno => Logger_error false errno
  | LOG_SYSFATAL errno => Logger_error true errno
  end.

(** [LOG_INFO << xs ...;] in line [line] of [file]: the output, if any. *)
Definition log (x : statement) (xs : list item) (g : globals) (time_ : Z) (file : bytes) (line : Z) (tl : locals) :
    outcome (locals * option (bytes * bool)) :=
  if logged x g then
    '(tl, s) ← Logger (constructor_of x) g time_ (SourceFile_array file) line tl;
    stream ← put_all xs (stream_ s);
    out ← dtor (set_stream stream s);
    Done (tl, Some out)
  else Done (tl, None).

(** [CHECK_NOTNULL( val )]: [None] is the null pointer, which is logged as fatal. *)
Definition CheckNotNull (file : bytes) (line : Z) (names : bytes) (ptr : option Z) (g : globals) (time_ : Z) (tl : locals) :
    outcome (locals * option (bytes * bool)) :=
  match ptr with
  | Some _ => Done (tl, None)
  | None =>
      '(tl, s) ← Logger (Logger_level FATAL) g time_ (SourceFile_array file) line tl;
      stream ← put_all [CString (Some names)] (stream_ s);
      out ← dtor (set_stream stream s);
      Done (tl, Some out)
  end.

End logger.
End Logger.

(** * Source files *)
Section source_file.
Import Logger.

Lemma strrchr_spec s c :
  match strrchr s c with
  | Some i => s = take i s ++ c :: drop (S i) s ∧ c ∉ drop (S i) s
  | None => c ∉ s
  end.
Proof.
  induction s as [|x s IH]; cbn; [by apply not_elem_of_nil|].
  destruct (strrchr s c) as [i|]; cbn.
  - destruct IH as [IH1 IH2]. split; [by rewrite IH1 at 1|done].
  - destruct (decide (x = c)) as [->|Hne]; cbn; [by rewrite drop_0|]. by apply not_elem_of_cons.
Qed.

(** Both constructors keep what follows the last slash. *)
Lemma SourceFile_basename name : x00 ∉ name →
  SourceFile_array name = SourceFile name ∧ x2f ∉ SourceFile name ∧
  (name = SourceFile name ∨ ∃ dir, name = dir ++ x2f :: SourceFile name).
Proof.
  intros Hn. unfold SourceFile_array, SourceFile. rewrite c_str_id by done.
  pose proof (strrchr_spec name x2f) as H. destruct (strrchr name x2f) as [i|]; [|split_and!; [done|done|by left]].
  destruct H as [H1 H2]. split_and!; [done|done|right; by eexists].
Qed.
End source_file.

(** * Texts without a terminator *)

Lemma T_ok str : x00 ∉ str → Logger.T str (szof str) = Done (String str).
Proof. intros H. unfold Logger.T. rewrite c_str_id, cassert_bind by (done || by apply Z.eqb_refl). by rewrite Nat2Z.id, firstn_all. Qed.

Lemma digits_no_nul l : Forall (λ c, is_digit c = true) l → x00 ∉ l.
Proof. intros H Hin. rewrite Forall_forall in H. by apply H in Hin. Qed.
Lemma repeat_no_nul c n : c ≠ x00 → x00 ∉ repeat c n.
Proof. intros Hc. induction n; cbn; [by apply not_elem_of_nil|]. by apply not_elem_of_cons. Qed.
Lemma zero_padded_no_nul w z : 0 ≤ z → x00 ∉ Timestamp.zero_padded w z.
Proof.
  intros Hz. unfold Timestamp.zero_padded. rewrite (proj2 (Z.ltb_ge z 0)) by done. unfold Timestamp.padded.
  rewrite not_elem_of_app. split; [by apply repeat_no_nul|]. by apply digits_no_nul, decimal_digits.
Qed.
Lemma signed_decimal_no_nul z : x00 ∉ signed_decimal z.
Proof.
  unfold signed_decimal. destruct (Z.ltb_spec z 0); [apply not_elem_of_cons; split; [done|]|]; apply digits_no_nul, decimal_digits; lia.
Qed.
(** * Log statements *)
Section statements.
Import Logger.
Context (gettid : Z) (strerror_tl : Z → bytes) (memory : bytes).
Context (Hmemory : szof memory = kSmallBuffer) (Hstrerror : ∀ e, x00 ∉ strerror_tl e).

(** The text of a second, without the cache. *)
Definition second_text (g : globals) (seconds : Z) : outcome bytes :=
  tm_time ← local_time (g_logTimeZone g) seconds; time_text tm_time.
(** What the cache of a thread may hold. *)
Definition coherent (g : globals) (tl : locals) : Prop :=
  tl = initial_locals ∨ second_text g (t_lastSecond tl) = Done (t_time tl).

(** A time after the epoch whose second has a text of 17 characters. *)
Record time_ok (g : globals) (time_ : Z) (text : bytes) : Prop := mkTimeOk {
  time_after_epoch : Timestamp.kMicroSecondsPerSecond ≤ time_;
  time_has_text : second_text g (Z.quot time_ Timestamp.kMicroSecondsPerSecond) = Done text;
  time_length : length text = 17%nat;
  time_no_nul : x00 ∉ text
}.

Definition zulu (g : globals) : bytes := match g_logTimeZone g with Some _ => bs " " | None => bs "Z " end.
Definition micros_text (g : globals) (time_ : Z) : bytes :=
  [x2e] ++ Timestamp.zero_padded 6 (Z.rem time_ Timestamp.kMicroSecondsPerSecond) ++ zulu g.

(** The items of a statement's line. *)
Definition header (g : globals) (time_ : Z) (text : bytes) (level : LogLevel) (savedErrno : Z) : list item :=
  [String text; String (micros_text g time_); String (tidString gettid); String (LogLevelName level)]
  ++ if savedErrno =? 0 then [] else
       [CString (Some (strerror_tl savedErrno)); CString (Some (bs " (errno=")); Integer savedErrno; CString (Some (bs ") "))].
Definition constructor_items (c : constructor) (g : globals) (time_ : Z) (text : bytes) : list item :=
  match c with
  | Logger_info => header g time_ text INFO 0
  | Logger_level level => header g time_ text level 0
  | Logger_func level func => header g time_ text level 0 ++ [CString (Some func); Char x20]
  | Logger_error toAbort errno => header g time_ text (if toAbort then FATAL else ERROR) errno
  end.
Definition level_of (c : constructor) : LogLevel :=
  match c with
  | Logger_info => INFO | Logger_level level | Logger_func level _ => level
  | Logger_error toAbort _ => if toAbort then FATAL else ERROR
  end.
Definition trailer (file : bytes) (line : Z) : list item :=
  [CString (Some (bs " - ")); String (SourceFile_array file); Char x3a; Integer line; Char x0a].
Definition errno_of (c : constructor) : Z := match c with Logger_error _ errno => errno | _ => 0 end.

(** ** Lines as lists of items *)

Notation fresh := (FixedBuffer.make memory).
(** The line holds these items. *)
Definition holds (b : FixedBuffer.t) (xs : list item) : Prop := put_all xs fresh = Done b ∧ buffer_ok kSmallBuffer b.

Lemma holds_fresh : holds fresh [].
Proof. split; [done|]. by split. Qed.
Lemma line_holds_put b xs ys : holds b xs → Forall item_ok ys → ∃ b', put_all ys b = Done b' ∧ holds b' (xs ++ ys).
Proof.
  intros [Hp Hb] Hys. destruct (put_all_ok ys b Hb Hys) as (b' & Hb' & Hok & _). exists b'. split; [done|].
  split; [by rewrite put_all_app, Hp|done].
Qed.
Lemma holds_text b xs : holds b xs → Forall item_ok xs → toString b = line_text kSmallBuffer xs.
Proof.
  intros [Hp _] Hxs. destruct (put_all_ok xs fresh ltac:(by split) Hxs) as (b' & Hp' & _ & Ht).
  rewrite Hp in Hp'. injection Hp' as <-. by rewrite Ht.
Qed.

Lemma tidString_no_nul : x00 ∉ tidString gettid.
Proof.
  unfold tidString. intros Hin. apply elem_of_take in Hin as (i & Hi & _). apply list_elem_of_lookup_2 in Hi.
  apply elem_of_app in Hi as [Hi|Hi].
  - unfold Timestamp.padded in Hi. apply elem_of_app in Hi as [Hi|Hi]; [by apply repeat_no_nul in Hi|by apply signed_decimal_no_nul in Hi].
  - by apply list_elem_of_singleton in Hi.
Qed.

(** ** The time *)

Lemma formatTime_ok g time_ text tl : time_ok g time_ text → coherent g tl →
  ∃ tl' b, formatTime g time_ tl fresh = Done (tl', b) ∧ coherent g tl' ∧
    holds b [String text; String (micros_text g time_)].
Proof.
  intros [Hepoch Htext Hlen Hnul] Hc. unfold formatTime. cbv zeta.
  change Timestamp.kMicroSecondsPerSecond with 1000000 in *. set (seconds := Z.quot time_ 1000000) in *.
  assert (1 ≤ seconds) as Hsec by (subst seconds; Z.to_euclidean_division_equations; lia).
  assert (0 ≤ Z.rem time_ 1000000 < 1000000) as Hus by (Z.to_euclidean_division_equations; lia).
  assert (∃ tl', (if negb (seconds =? t_lastSecond tl) then
          tm_time ← local_time (g_logTimeZone g) seconds; text ← time_text tm_time;
          _ ← cassert (szof text =? 17) "len == 17"; Done (mkLocals text seconds) else Done tl) = Done tl' ∧
    t_time tl' = text ∧ coherent g tl') as (tl' & -> & Ht & Hc').
  { destruct (Z.eqb_spec seconds (t_lastSecond tl)) as [He|Hne]; cbn [negb].
    - exists tl. split; [done|]. split; [|done]. destruct Hc as [->|Hc]; [cbn in He; lia|]. rewrite He in Htext. congruence.
    - pose proof Htext as Htext'. unfold second_text in Htext'.
      destruct (local_time (g_logTimeZone g) seconds) as [tm|]; [|done]. rewrite bind_ret_l in Htext'.
      rewrite bind_ret_l, Htext', bind_ret_l, cassert_bind by (apply Z.eqb_eq; lia).
      eexists. split; [done|]. split; [done|]. by right. }
  rewrite bind_ret_l. rewrite wraps_small by (cbn; lia).
  destruct (zero_padded_spec 5 (Z.rem time_ 1000000)) as [Hl6 _]; [cbn; lia|].
  set (us := [x2e] ++ Timestamp.zero_padded 6 (Z.rem time_ 1000000) ++ match g_logTimeZone g with Some _ => bs " " | None => bs "Z " end).
  assert (us = micros_text g time_) as Hus_eq by done.
  assert (szof us = match g_logTimeZone g with Some _ => 8 | None => 9 end) as Hlus.
  { unfold us. rewrite !length_app, Hl6. by destruct (g_logTimeZone g). }
  assert (x00 ∉ us) as Hno.
  { unfold us. rewrite !not_elem_of_app. split; [by apply not_elem_of_cons; split; [done|apply not_elem_of_nil]|].
    split; [apply zero_padded_no_nul; lia|]. destruct (g_logTimeZone g); repeat (apply not_elem_of_cons; split; [done|]); apply not_elem_of_nil. }
  clearbody us. assert (szof us < 32) by (rewrite Hlus; by destruct (g_logTimeZone g)).
  unfold Fmt. rewrite cassert_bind by (apply Z.ltb_lt; rewrite wrapu_small by lia; done). rewrite bind_ret_l.
  rewrite take_ge by lia. rewrite cassert_bind by (by apply Z.eqb_eq).
  rewrite Ht. replace 17 with (szof text) by lia. rewrite (T_ok text Hnul), bind_ret_l, <-Hlus, (T_ok us Hno), bind_ret_l.
  destruct (line_holds_put fresh [] [String text; String us] holds_fresh) as (b & -> & Hb); [by repeat constructor|].
  rewrite bind_ret_l. eexists _, _. split; [done|]. split; [done|]. by rewrite <-Hus_eq.
Qed.

Lemma Impl_ok g time_ text level savedErrno file line tl : time_ok g time_ text → coherent g tl →
  INT_MIN ≤ savedErrno ≤ INT_MAX →
  ∃ tl' b, Impl gettid strerror_tl memory g time_ level savedErrno file line tl = Done (tl', mk b level line file) ∧
    coherent g tl' ∧ holds b (header g time_ text level savedErrno).
Proof.
  intros Ht Hc He. unfold Impl. destruct (formatTime_ok g time_ text tl Ht Hc) as (tl' & b & -> & Hc' & Hb). rewrite bind_ret_l.
  rewrite (T_ok _ tidString_no_nul), bind_ret_l.
  assert (T (LogLevelName level) 6 = Done (String (LogLevelName level))) as -> by (by destruct level). rewrite bind_ret_l.
  destruct (line_holds_put b _ [String (tidString gettid); String (LogLevelName level)] Hb) as (b1 & -> & Hb1); [by repeat constructor|].
  rewrite bind_ret_l. unfold header. destruct (Z.eqb_spec savedErrno 0) as [->|Hne]; cbn [negb].
  - rewrite bind_ret_l. eexists _, _. split; [done|]. by rewrite app_nil_r.
  - match goal with |- context [put_all ?xs b1] => destruct (line_holds_put b1 _ xs Hb1) as (b2 & -> & Hb2) end.
    { unfold INT_MIN, INT_MAX in He. repeat constructor; cbn; lia. }
    rewrite bind_ret_l. by eexists _, _.
Qed.

Lemma Logger_ok c g time_ text file line tl : time_ok g time_ text → coherent g tl → INT_MIN ≤ errno_of c ≤ INT_MAX →
  ∃ tl' b, Logger gettid strerror_tl memory c g time_ file line tl = Done (tl', mk b (level_of c) line file) ∧
    coherent g tl' ∧ holds b (constructor_items c g time_ text).
Proof.
  intros Ht Hc He. destruct c as [|level|level func|toAbort errno]; cbn [Logger errno_of level_of constructor_items] in *;
    try by apply Impl_ok.
  destruct (Impl_ok g time_ text level 0 file line tl Ht Hc He) as (tl' & b & -> & Hc' & Hb). rewrite bind_ret_l.
  cbn [stream_]. destruct (line_holds_put b _ [CString (Some func); Char x20] Hb) as (b1 & -> & Hb1); [by repeat constructor|].
  by eexists _, _.
Qed.

Lemma header_items_ok c g time_ text : INT_MIN ≤ errno_of c ≤ INT_MAX → Forall item_ok (constructor_items c g time_ text).
Proof.
  assert (∀ level e, INT_MIN ≤ e ≤ INT_MAX → Forall item_ok (header g time_ text level e)) as Hh.
  { intros level e He. unfold header, INT_MIN, INT_MAX in *. apply Forall_app. split; [by repeat constructor|].
    destruct (e =? 0); repeat constructor; cbn; lia. }
  intros He. destruct c; cbn [constructor_items errno_of] in *; try by apply Hh.
  apply Forall_app. split; [by apply Hh|]. by repeat constructor.
Qed.

(** C28. A log statement writes one line: the time of day to the microsecond, the
    thread, the level, the error text or the function where the macro has one,
    the items, and the file's base name with the line number - whole if there is
    room, else without the parts that do not fit.  The text of the second is
    always the right one, whether it comes from the thread's cache or is made
    anew, and the cache stays right.  Nothing is written below the level, and
    exactly the fatal statements abort. *)
Theorem log_statement_written x xs g time_ text file line tl :
  time_ok g time_ text → coherent g tl → Forall item_ok xs → INT_MIN ≤ line ≤ INT_MAX →
  INT_MIN ≤ errno_of (constructor_of x) ≤ INT_MAX →
  let items := constructor_items (constructor_of x) g time_ text ++ xs ++ trailer file line in
  ∃ tl', coherent g tl' ∧
    log gettid strerror_tl memory x xs g time_ file line tl =
      Done (tl', if logged x g then Some (line_text kSmallBuffer items, bool_decide (level_of (constructor_of x) = FATAL)) else None) ∧
    (szof (concat (text_of <$> items)) + kMaxNumericSize ≤ kSmallBuffer →
     line_text kSmallBuffer items = concat (text_of <$> items)).
Proof.
  intros Ht Hc Hxs Hline He items. unfold log. destruct (logged x g); [|exists tl; split_and!; [done|done|apply line_text_complete]].
  destruct (Logger_ok (constructor_of x) g time_ text (SourceFile_array file) line tl Ht Hc He) as (tl' & b & -> & Hc' & Hb).
  rewrite bind_ret_l. cbn [stream_ set_stream].
  destruct (line_holds_put b _ xs Hb Hxs) as (b1 & -> & Hb1). rewrite bind_ret_l. unfold dtor, finish. cbn [stream_ set_stream line_ basename_ level_].
  assert (Forall item_ok (trailer file line)) as Htr.
  { unfold trailer, INT_MIN, INT_MAX in *. repeat constructor; cbn; lia. }
  destruct (line_holds_put b1 _ (trailer file line) Hb1 Htr) as (b2 & Hp & Hb2). unfold trailer in Hp. rewrite Hp, !bind_ret_l.
  rewrite <-app_assoc in Hb2. exists tl'. split; [done|]. split; [|apply line_text_complete]. cbn [stream_ set_stream level_].
  rewrite (holds_text _ _ Hb2); [done|]. repeat (apply Forall_app; split); [by apply header_items_ok|done|done].
Qed.
End statements.

(** Without a time zone, all times up to the year 9892. *)
Lemma utc_time_ok level time_ : Timestamp.kMicroSecondsPerSecond ≤ time_ < 250000000000 * Timestamp.kMicroSecondsPerSecond →
  ∃ text, time_ok (Logger.mkGlobals level None) time_ text.
Proof.
  change Timestamp.kMicroSecondsPerSecond with 1000000. intros Ht.
  assert (1 ≤ Z.quot time_ 1000000 < 250000000000) as Hs by (Z.to_euclidean_division_equations; lia).
  set (seconds := Z.quot time_ 1000000) in *. destruct (toUtcTime_ok seconds true) as (wday & yd & Hu); [lia|].
  set (n := seconds / 86400 + 2440588) in Hu. assert (2440588 ≤ n ≤ 5334107) as Hn by (subst n; clearbody seconds; div_lia).
  destruct (jdn_ymd n) as (Hd & Hy & Hj); [lia|]. pose proof (jdn_year _ Hd Hy) as H1. pose proof (jdn_year_upper _ Hd Hy) as H2.
  destruct (is_date_day _ Hd) as [Hmon Hday].
  destruct (time_of_day (seconds mod 86400)) as (Hsec & Hmin & Hhour & _); [clearbody seconds; div_lia|].
  assert (second_text (Logger.mkGlobals level None) seconds = Done (
    Timestamp.padded x20 4 (signed_decimal (Date.year (ymd n))) ++ Timestamp.zero_padded 2 (Date.month (ymd n))
    ++ Timestamp.zero_padded 2 (Date.day (ymd n)) ++ [x20] ++ Timestamp.zero_padded 2 (seconds mod 86400 / 60 / 60) ++ [x3a]
    ++ Timestamp.zero_padded 2 (seconds mod 86400 / 60 mod 60) ++ [x3a] ++ Timestamp.zero_padded 2 (seconds mod 86400 mod 60))) as Htext.
  { unfold second_text. cbn [Logger.g_logTimeZone Logger.local_time]. unfold TimeZone.gmtime_r. rewrite Hu, bind_ret_l.
    unfold Logger.time_text. cbn [TimeZone.tm_year TimeZone.tm_mon TimeZone.tm_mday TimeZone.tm_hour TimeZone.tm_min TimeZone.tm_sec].
    rewrite bind_int32 by (unfold INT_MIN, INT_MAX; lia). rewrite bind_int32 by (unfold INT_MIN, INT_MAX; lia).
    by rewrite !Z.sub_add. }
  eexists. split; [change Timestamp.kMicroSecondsPerSecond with 1000000; lia|exact Htext| |].
  - assert (∀ z, 0 ≤ z < 100 → length (Timestamp.zero_padded 2 z) = 2%nat) as H2d by (intros; by apply (zero_padded_spec 1)).
    rewrite !length_app, !H2d by lia. unfold Timestamp.padded. rewrite length_app, repeat_length.
    unfold signed_decimal. rewrite (proj2 (Z.ltb_ge _ 0)) by lia.
    assert (0 ≤ Date.year (ymd n) < 10 ^ Z.of_nat 4) as Hyr by (change (10 ^ Z.of_nat 4) with 10000; lia).
    pose proof (decimal_length _ 3 Hyr). cbn [length]. lia.
  - rewrite !not_elem_of_app. unfold Timestamp.padded.
    split_and!; try (apply zero_padded_no_nul; lia); try (apply not_elem_of_cons; split; [done|apply not_elem_of_nil]).
    rewrite not_elem_of_app. split; [by apply repeat_no_nul|apply signed_decimal_no_nul].
Qed.

(** * Examples *)
Module Sample.
Import Logger.

Definition g : globals := mkGlobals INFO None.
Definition memory : bytes := repeat x00 4000.
Definition strerror (e : Z) : bytes := bs "No such file or directory".
Definition noon : Z := 1000000000 * 1000000 + 7.
Notation run x xs tl := (log 42 strerror memory x xs g noon (bs "src/IMServer.cpp") 31 tl).

Lemma strerror_no_nul e : x00 ∉ strerror e.
Proof. apply (bool_decide_unpack (x00 ∉ strerror e)). vm_compute. exact I. Qed.
Lemma noon_ok : time_ok g noon (bs "20010909 01:46:40").
Proof.
  destruct (utc_time_ok INFO noon) as [text Ht]; [split; vm_compute; congruence|].
  enough (text = bs "20010909 01:46:40") as <- by exact Ht.
  pose proof (time_has_text _ _ _ Ht) as H. vm_compute in H. by injection H as <-.
Qed.

Theorem log_statement_written_witness :
  ∃ tl', log 42 strerror memory (LOG_SYSERR 2) [String (bs "open "); Integer (-1)] g noon (bs "src/IMServer.cpp") 31 initial_locals =
    Done (tl', Some (bs "20010909 01:46:40.000007Z    42 ERROR No such file or directory (errno=2) open -1 - IMServer.cpp:31" ++ [x0a], false)).
Proof.
  destruct (log_statement_written 42 strerror memory ltac:(unfold memory; by rewrite repeat_length)
    (LOG_SYSERR 2) [String (bs "open "); Integer (-1)] g noon _ (bs "src/IMServer.cpp") 31 initial_locals noon_ok) as (tl' & _ & Hl & _).
  - by left.
  - apply List.Forall_cons; [exact I|]. apply List.Forall_cons; [cbn; lia|apply List.Forall_nil].
  - split; vm_compute; discriminate.
  - split; vm_compute; discriminate.
  - exists tl'. etransitivity; [exact Hl|]. vm_compute. reflexivity.
Defined.

Example debug_not_written : run (LOG_DEBUG (bs "f")) [String (bs "x")] initial_locals = Done (initial_locals, None).
Proof. reflexivity. Qed.
(** Long lines lose the file, the line number and at last the newline. *)
Example long_line_loses_end :
  match run LOG_WARN [String (repeat x61 3950)] initial_locals, run LOG_WARN [String (repeat x61 3961)] initial_locals with
  | Done (_, Some (l, _)), Done (_, Some (l', _)) => drop 3988 l = bs " - :" ++ [x0a] ∧ last l' = Some x61
  | _, _ => False
  end.
Proof. vm_compute. done. Qed.
(** The cache is not renewed when the time zone changes within a second. *)
Definition east : TimeZone.Data := TimeZone.fixed 3600 (bs "CET").
Example zone_change_late :
  match run LOG_INFO [] initial_locals with
  | Done (tl, _) =>
      match log 42 strerror memory LOG_INFO [] (setTimeZone (Some east) g) noon (bs "a") 1 tl with
      | Done (_, Some (l, _)) => l = bs "20010909 01:46:40.000007    42 INFO   - a:1" ++ [x0a]
      | _ => False
      end
  | _ => False
  end.
Proof. vm_compute. reflexivity. Qed.
(** The text of the first second of 1970 is taken from an empty cache. *)
Example epoch_aborts :
  log 42 strerror memory LOG_INFO [] g 7 (bs "a") 1 initial_locals = Fault (AssertFailed "strlen(str) == len_").
Proof. vm_compute. reflexivity. Qed.
End Sample.
