(* ===== verification/AsyncLogging.v ===== *)
(** The asynchronous logger (src/IMServer/src/muduo/base: AsyncLogging.h,
    AsyncLogging.cc).  Any thread appends lines to a buffer; the logging thread
    takes the buffers that are full, and every few seconds the current one, and
    writes them to the log file.  [append] and the exchange of buffers run under
    the mutex; the wait of the logging thread is timed, so it may end at any
    time.  What is appended to the log file is the output of the model. *)

From S2P Require Import Prelude CDouble Calendar Monitor LogStream.
Local Open Scope Z_scope.
Import Monitor FixedBuffer.

Module AsyncLogging.
Section logging.
(** The size of the buffers ([kLargeBuffer] in the program), what the memory of
    a new buffer holds, and the logging thread. *)
Context (SIZE : Z) (memory : bytes) (thread_ : Z).

Definition BufferPtr : Type := option FixedBuffer.t.
Definition new_buffer : FixedBuffer.t := FixedBuffer.make memory.

(** Dereferencing a [unique_ptr]. *)
Definition deref (p : BufferPtr) : outcome FixedBuffer.t :=
  match p with Some b => Done b | None => Fault (Undefined "null unique_ptr") end.

(** ** Under the mutex *)

Inductive condition := cond_.
(** The thread's section, and where it continues after its wait. *)
Inductive member :=
  | append (logline : bytes)
  | exchange (newBuffer1 newBuffer2 : BufferPtr)
  | exchange_rest (newBuffer1 newBuffer2 : BufferPtr).
Inductive result :=
  | Void
  | Exchanged (newBuffer1 newBuffer2 : BufferPtr) (buffersToWrite : list BufferPtr).
#[global] Instance condition_eq_dec : EqDecision condition.
Proof. solve_decision. Defined.

Record guarded := mkGuarded { currentBuffer_ : BufferPtr; nextBuffer_ : BufferPtr; buffers_ : list BufferPtr }.

Definition exchange_buffers (newBuffer1 newBuffer2 : BufferPtr) (s : guarded) : action guarded condition member result :=
  let buffers := buffers_ s ++ [currentBuffer_ s] in
  let '(current, newBuffer1) := (newBuffer1, None) in
  let '(next, newBuffer2) := match nextBuffer_ s with None => (newBuffer2, None) | next => (next, newBuffer2) end in
  Finish (Exchanged newBuffer1 newBuffer2 buffers) (mkGuarded current next []) [].

Definition members (locked : bool) (m : member) (s : guarded) : outcome (action guarded condition member result) :=
  match m with
  | append logline =>
      current ← deref (currentBuffer_ s);
      if szof logline <? avail SIZE current then
        current ← FixedBuffer.append SIZE logline current;
        Done (Finish Void (mkGuarded (Some current) (nextBuffer_ s) (buffers_ s)) [])
      else
        let buffers := buffers_ s ++ [currentBuffer_ s] in
        let '(current, next) := match nextBuffer_ s with
                                | Some next => (Some next, None)
                                | None => (Some new_buffer, None)
                                end in
        current ← deref current;
        current ← FixedBuffer.append SIZE logline current;
        Done (Finish Void (mkGuarded (Some current) next buffers) [Notify cond_])
  | exchange b1 b2 =>
      if bool_decide (length (buffers_ s) = 0%nat) then Done (Block cond_ (exchange_rest b1 b2))
      else Done (exchange_buffers b1 b2 s)
  | exchange_rest b1 b2 => Done (exchange_buffers b1 b2 s)
  end.
#[global] Instance logging_members : Guarded guarded condition member result := {
  section := members;
  entry m := match m with exchange_rest _ _ => false | _ => true end
}.

(** ** The logging thread *)

(** Where it is in [threadFunc()]. *)
Inductive phase_t :=
  | Head (newBuffer1 newBuffer2 : BufferPtr)       (* [while ( running_ )] *)
  | Exchanging                                     (* under the mutex *)
  | Writing (newBuffer1 newBuffer2 : BufferPtr) (buffersToWrite : list BufferPtr)
  | Finished.

Record t := mk { logger : Monitor.t guarded condition member; running_ : bool; phase : phase_t }.

Definition fresh : FixedBuffer.t := bzero SIZE new_buffer.
(** [AsyncLogging()] and [start()], up to where the thread is in its loop. *)
Definition started : t :=
  mk (Monitor.make (mkGuarded (Some fresh) (Some fresh) [])) true (Head (Some fresh) (Some fresh)).

(** The message about dropped buffers, in a buffer of 256 characters. *)
Definition drop_notice (now : Z) (n : nat) : outcome bytes :=
  time ← Calendar.toFormattedString now true;
  Done (take 255 (bs "Dropped log messages at " ++ time ++ bs ", " ++ decimal (Z.of_nat n - 2) ++ bs " larger buffers" ++ [x0a])).

Definition lift_all (l : list BufferPtr) : outcome (list bytes) :=
  foldr (λ p m, b ← deref p; l ← m; Done (toString b :: l)) (Done []) l.

(** [newBuffer = std::move( buffersToWrite.back() )], if it is null *)
Definition recycle (p : BufferPtr) (l : list BufferPtr) : outcome (BufferPtr * list BufferPtr) :=
  match p with
  | Some _ => Done (p, l)
  | None =>
      _ ← cassert (negb (length l =? 0)%nat) "!buffersToWrite.empty()";
      match last l with
      | Some b => b ← deref b; Done (Some (reset b), removelast l)
      | None => Fault (Undefined "back() of an empty vector")
      end
  end.

(** From the exchange to the end of the loop's body: what is appended to the
    log file, and the buffers for the next round. *)
Definition write_out (now : Z) (b1 b2 : BufferPtr) (buffersToWrite : list BufferPtr) :
    outcome (list bytes * BufferPtr * BufferPtr) :=
  _ ← cassert (negb (length buffersToWrite =? 0)%nat) "!buffersToWrite.empty()";
  '(notice, buffersToWrite) ←
    (if (25 <? length buffersToWrite)%nat then
       notice ← drop_notice now (length buffersToWrite); Done ([notice], take 2 buffersToWrite)
     else Done ([], buffersToWrite));
  contents ← lift_all buffersToWrite;
  let buffersToWrite := if (2 <? length buffersToWrite)%nat then take 2 buffersToWrite else buffersToWrite in
  '(b1, buffersToWrite) ← recycle b1 buffersToWrite;
  '(b2, buffersToWrite) ← recycle b2 buffersToWrite;
  Done (notice ++ contents, b1, b2).

Definition is_empty_buffer (p : BufferPtr) : bool := match p with Some b => length_ b =? 0 | None => false end.

Inductive event :=
  | Append (tid : Z) (logline : bytes)      (* a thread calls [append] *)
  | Mutex (e : Monitor.event member)        (* a step under the mutex *)
  | Test                                    (* the logging thread tests [running_] *)
  | Write (now : Z)                         (* and writes out what it got *)
  | Stop.                                   (* [stop()], up to the join *)

Definition set_logger (l : Monitor.t guarded condition member) (s : t) : t := mk l (running_ s) (phase s).
Definition set_phase (p : phase_t) (s : t) : t := mk (logger s) (running_ s) p.

(** [cond_.notify()] by a thread that does not hold the mutex. *)
Definition notify_outside (l : Monitor.t guarded condition member) : Monitor.t guarded condition member :=
  match threads l !! thread_ with
  | Some (Waiting cond_ m) => set_thread thread_ (Locking m) l
  | _ => l
  end.

(** A call that has returned, and what a step appends to the log file. *)
Notation returned := (Z * member * result)%type.

Definition step (e : event) (s : t) : option (outcome (t * list returned * list bytes)) :=
  match e with
  | Append tid logline =>
      if bool_decide (tid = thread_) then None
      else
        match Monitor.step (Call tid (append logline)) (logger s) with
        | Some m => Some ('(l, h) ← m; Done (set_logger l s, h, []))
        | None => None
        end
  | Mutex (Call _ _) => None
  | Mutex e =>
      match Monitor.step e (logger s) with
      | Some m =>
          Some ('(l, h) ← m;
                match h with
                | [(_, _, Exchanged b1 b2 buffers)] => Done (set_phase (Writing b1 b2 buffers) (set_logger l s), h, [])
                | _ => Done (set_logger l s, h, [])
                end)
      | None => None
      end
  | Test =>
      match phase s with
      | Head b1 b2 =>
          if running_ s then
            Some (_ ← cassert (is_empty_buffer b1) "newBuffer1 && newBuffer1->length() == 0";
                  _ ← cassert (is_empty_buffer b2) "newBuffer2 && newBuffer2->length() == 0";
                  match Monitor.step (Call thread_ (exchange b1 b2)) (logger s) with
                  | Some m => '(l, h) ← m; Done (set_phase Exchanging (set_logger l s), h, [])
                  | None => Fault (Undefined "the logging thread is in a call")
                  end)
          else Some (Done (set_phase Finished s, [], []))
      | _ => None
      end
  | Write now =>
      match phase s with
      | Writing b1 b2 buffers =>
          Some ('(out, b1, b2) ← write_out now b1 b2 buffers; Done (set_phase (Head b1 b2) s, [], out))
      | _ => None
      end
  | Stop => Some (Done (mk (notify_outside (logger s)) false (phase s), [], []))
  end.

(** What is reached by some steps: the calls that have returned, in order, and
    what has been appended to the log file by each write. *)
Inductive reaches : list event → t → list returned → list (list bytes) → Prop :=
  | reaches_nil : reaches [] started [] []
  | reaches_snoc es s h w e s' h' out :
      reaches es s h w → step e s = Some (Done (s', h', out)) →
      reaches (es ++ [e]) s' (h ++ h') (w ++ match e with Write _ => [out] | _ => [] end).

End logging.
End AsyncLogging.

(** * Lines and batches *)
Section accounting.
Import AsyncLogging.
Context (SIZE : Z).

(** The lines of the calls of [append] that have returned, in the order in which
    they had the mutex; a line that does not fit into an empty buffer is dropped. *)
Fixpoint accepted (h : list (Z * member * result)) : bytes :=
  match h with
  | [] => []
  | (_, append l, _) :: h => (if szof l <? SIZE then l else []) ++ accepted h
  | _ :: h => accepted h
  end.

Definition text (p : BufferPtr) : bytes := match p with Some b => toString b | None => [] end.
Fixpoint batches (h : list (Z * member * result)) : list (list bytes) :=
  match h with
  | [] => []
  | (_, _, Exchanged _ _ buffers) :: h => (text <$> buffers) :: batches h
  | _ :: h => batches h
  end.

(** What is still in the buffers of the front end. *)
Definition unwritten (g : guarded) : bytes := concat (text <$> buffers_ g) ++ text (currentBuffer_ g).

(** What is written for a batch: all of it, or of more than 25 buffers the first
    two, after a message that says so. *)
Definition written_as (batch out : list bytes) : Prop :=
  if (25 <? length batch)%nat then
    ∃ notice, out = notice :: take 2 batch ∧ take 24 notice = bs "Dropped log messages at "
  else out = batch.

Lemma accepted_app h h' : accepted (h ++ h') = accepted h ++ accepted h'.
Proof. induction h as [|[[tid [| |]] r] h IH]; cbn; rewrite ?IH, ?app_assoc; done. Qed.
Lemma batches_app h h' : batches (h ++ h') = batches h ++ batches h'.
Proof. induction h as [|[[tid m] [|]] h IH]; cbn; rewrite ?IH; done. Qed.
End accounting.

Section correctness.
Import AsyncLogging.
Context (SIZE : Z) (memory : bytes) (thread_ : Z).
Context (HSIZE : 0 < SIZE < 2 ^ 31) (Hmemory : szof memory = SIZE).
#[local] Instance members_here : Guarded guarded condition member result := logging_members SIZE memory.
Notation good := (buffer_ok SIZE).
Notation step := (AsyncLogging.step SIZE memory thread_).
Notation reaches := (AsyncLogging.reaches SIZE memory thread_).

(** ** Invariant *)

Definition held (p : BufferPtr) : Prop := ∃ b, p = Some b ∧ good b.
Definition empty_held (p : BufferPtr) : Prop := ∃ b, p = Some b ∧ good b ∧ cur_ b = 0.

Record guarded_ok (g : guarded) : Prop := mkGuardedOk {
  ok_current : held (currentBuffer_ g);
  ok_next : nextBuffer_ g = None ∧ buffers_ g ≠ [] ∨ empty_held (nextBuffer_ g);
  ok_buffers : Forall held (buffers_ g)
}.

(** The member a thread is in, by where the logging thread is. *)
Definition member_ok (p : phase_t) (tid : Z) (m : member) : Prop :=
  match m with
  | append _ => tid ≠ thread_
  | exchange b1 b2 | exchange_rest b1 b2 => tid = thread_ ∧ p = Exchanging ∧ empty_held b1 ∧ empty_held b2
  end.

Definition phase_ok (p : phase_t) (ths : gmap Z (thread condition member)) : Prop :=
  match p with
  | Head b1 b2 => ths !! thread_ = None ∧ empty_held b1 ∧ empty_held b2
  | Exchanging => True
  | Writing b1 b2 buffers =>
      ths !! thread_ = None ∧ b1 = None ∧ Forall held buffers ∧
      (empty_held b2 ∧ buffers ≠ [] ∨ b2 = None ∧ (2 ≤ length buffers)%nat)
  | Finished => ths !! thread_ = None
  end.

Record inv (s : AsyncLogging.t) : Prop := mkInv {
  inv_exclusive : exclusive (logger s);
  inv_guarded : guarded_ok (data (logger s));
  inv_members tid x : threads (logger s) !! tid = Some x → member_ok (phase s) tid (label x);
  inv_phase : phase_ok (phase s) (threads (logger s))
}.

Lemma fresh_empty : empty_held (Some (fresh SIZE memory)).
Proof.
  eexists. split; [done|]. split; [|done]. split; cbn; [rewrite repeat_length; lia|lia].
Qed.
Lemma empty_held_held p : empty_held p → held p.
Proof. intros (b & -> & Hb & _). by exists b. Qed.
Lemma inv_started : inv (started SIZE memory).
Proof.
  pose proof fresh_empty as Hf. split; [apply exclusive_make| | |by split_and!].
  - split; [by apply empty_held_held|by right|constructor].
  - intros tid x. cbn. by rewrite lookup_empty.
Qed.

Lemma empty_text p : empty_held p → text p = [].
Proof. intros (b & -> & _ & Hc). cbn. unfold toString. by rewrite Hc. Qed.

Lemma new_buffer_good : good (new_buffer memory).
Proof. split; cbn; lia. Qed.

Lemma fits_empty l b : good b → cur_ b = 0 → ∃ b', FixedBuffer.append SIZE l b = Done b' ∧ good b' ∧
  toString b' = if szof l <? SIZE then l else [].
Proof.
  intros Hb Hc. destruct (append_ok SIZE l b) as (b' & Ha & Hb' & Ht & _); [lia|done|].
  exists b'. split; [done|]. split; [done|]. unfold avail in Ht. rewrite Hc, Z.sub_0_r in Ht.
  rewrite Ht. unfold toString at 1. by rewrite Hc.
Qed.

(** [append] never waits: it adds its line, or drops a line that no buffer holds. *)
Lemma append_section l g : guarded_ok g → ∃ g' signals,
  section true (append l) g = Done (Finish Void g' signals) ∧ guarded_ok g' ∧
  unwritten g' = unwritten g ++ (if szof l <? SIZE then l else []).
Proof.
  intros [(b & Hcur & Hb) Hnext Hbufs]. cbn [section members_here logging_members members]. rewrite Hcur. cbn [deref]. rewrite bind_ret_l.
  destruct (Z.ltb_spec (szof l) (avail SIZE b)) as [Hl|Hl].
  - destruct (append_ok SIZE l b) as (b' & -> & Hb' & Ht & _); [lia|done|]. rewrite bind_ret_l.
    eexists _, _. split; [done|]. split; [split; cbn; [by exists b'|done|done]|].
    unfold unwritten. cbn. rewrite Hcur. cbn. rewrite Ht, (proj2 (Z.ltb_lt _ _) Hl), app_assoc.
    destruct Hb as [_ Hc]. unfold avail in Hl. by rewrite (proj2 (Z.ltb_lt (szof l) SIZE)) by lia.
  - assert (∃ n next, match nextBuffer_ g with Some next => (Some next, None) | None => (Some (new_buffer memory), None) end = (Some n, next)
      ∧ good n ∧ cur_ n = 0 ∧ next = None) as (n & next & -> & Hn & Hn0 & ->).
    { destruct Hnext as [[-> _]|(n & -> & Hn & Hn0)]; eexists _, _; split_and!; try done. apply new_buffer_good. }
    cbn [deref]. rewrite bind_ret_l. destruct (fits_empty l n Hn Hn0) as (b' & -> & Hb' & Ht). rewrite bind_ret_l.
    eexists _, _. split; [done|]. split.
    + split; cbn; [by exists b'|left; split; [done|]; by destruct (buffers_ g)|].
      apply Forall_app. split; [done|]. apply List.Forall_cons; [by exists b|constructor].
    + unfold unwritten. cbn. rewrite fmap_app, concat_app. cbn. by rewrite Hcur, app_nil_r, Ht.
Qed.

(** The exchange: all that was in the buffers is taken in order. *)
Lemma exchange_section b1 b2 g : guarded_ok g → empty_held b1 → empty_held b2 → ∃ b2' buffers g',
  exchange_buffers b1 b2 g = Finish (Exchanged None b2' buffers) g' [] ∧ guarded_ok g' ∧ Forall held buffers ∧
  (empty_held b2' ∧ buffers ≠ [] ∨ b2' = None ∧ (2 ≤ length buffers)%nat) ∧
  concat (text <$> buffers) = unwritten g ∧ unwritten g' = [].
Proof.
  intros [Hcur Hnext Hbufs] H1 H2. unfold exchange_buffers.
  assert (Forall held (buffers_ g ++ [currentBuffer_ g])) as Hall.
  { apply Forall_app. split; [done|]. apply List.Forall_cons; [done|constructor]. }
  assert (∀ next, unwritten (mkGuarded b1 next []) = []) as Hu by (intros; unfold unwritten; cbn; by apply empty_text).
  assert (concat (text <$> buffers_ g ++ [currentBuffer_ g]) = unwritten g) as Hc.
  { unfold unwritten. rewrite fmap_app, concat_app. cbn. by rewrite app_nil_r. }
  assert (buffers_ g ++ [currentBuffer_ g] ≠ []) as Hne by (by destruct (buffers_ g)).
  destruct Hnext as [[-> Hb]|Hn].
  - eexists _, _, _. split; [done|]. split_and!; [split; cbn; [by apply empty_held_held|by right|constructor]|done| |done|done].
    right. split; [done|]. rewrite length_app. cbn. destruct (buffers_ g); [done|cbn; lia].
  - destruct Hn as (n & Hn & Hn'). rewrite Hn. eexists _, _, _. split; [done|].
    split_and!; [split; cbn; [by apply empty_held_held|right; by exists n|constructor]|done| |done|done]. by left.
Qed.

(** ** Writing *)

Definition now_ok (now : Z) : Prop := -200000000000 * 1000000 ≤ now ≤ 30000000000000 * 1000000.

Lemma drop_notice_ok now n : now_ok now → ∃ l, drop_notice now n = Done l ∧ take 24 l = bs "Dropped log messages at ".
Proof.
  intros Hn. unfold drop_notice. destruct (Calendar.toFormattedString_ok now true Hn) as [time ->]. rewrite bind_ret_l.
  eexists. split; [done|]. rewrite take_take. by rewrite Nat.min_l by lia.
Qed.

Lemma lift_all_ok l : Forall held l → lift_all l = Done (text <$> l).
Proof. induction 1 as [|p l (b & -> & _) _ IH]; cbn; [done|]. unfold lift_all in IH. by rewrite IH. Qed.

Lemma recycle_ok l : Forall held l → l ≠ [] → ∃ p, recycle None l = Done (p, removelast l) ∧ empty_held p.
Proof.
  intros Hl Hne. unfold recycle. rewrite cassert_bind by (by destruct l).
  destruct (last l) as [p|] eqn:E; [|by apply last_None in E].
  assert (held p) as (b & -> & Hb) by (eapply Forall_forall; [exact Hl|by apply last_Some_elem_of]).
  cbn. eexists. split; [done|]. eexists. split; [done|]. destruct Hb as [Hs Hc]. split; [split; cbn; [done|lia]|done].
Qed.

Lemma Forall_removelast {A} (P : A → Prop) l : Forall P l → Forall P (removelast l).
Proof. induction 1 as [|x l Hx Hl IH]; cbn; [constructor|]. destruct l; constructor; done. Qed.

Lemma write_out_ok now b2 buffers : now_ok now → Forall held buffers →
  (empty_held b2 ∧ buffers ≠ [] ∨ b2 = None ∧ (2 ≤ length buffers)%nat) →
  ∃ out c1 c2, write_out now None b2 buffers = Done (out, c1, c2) ∧ empty_held c1 ∧ empty_held c2 ∧
    written_as (text <$> buffers) out.
Proof.
  intros Hnow Hall Hb. assert (buffers ≠ []) as Hne.
  { destruct Hb as [[_ ?]|[_ Hl]]; [done|]. by destruct buffers; [cbn in Hl; lia|]. }
  unfold write_out. rewrite cassert_bind by (by destruct buffers).
  assert (∃ notice kept, (if (25 <? length buffers)%nat then
       notice ← drop_notice now (length buffers); Done ([notice], take 2 buffers) else Done ([], buffers)) = Done (notice, kept) ∧
    Forall held kept ∧ take 2 kept = take 2 buffers ∧ written_as (text <$> buffers) (notice ++ (text <$> kept)))
    as (notice & kept & -> & Hkept & Htake & Hw).
  { unfold written_as. rewrite length_fmap. destruct (25 <? length buffers)%nat.
    - destruct (drop_notice_ok now (length buffers) Hnow) as (l & -> & Hl). rewrite bind_ret_l. eexists _, _.
      split; [done|]. split; [by apply Forall_take|]. split; [by rewrite take_take|].
      exists l. by rewrite fmap_take.
    - eexists _, _. by split_and!. }
  rewrite bind_ret_l. cbv beta iota. rewrite lift_all_ok by done. rewrite bind_ret_l. cbv zeta.
  set (two := if (2 <? length kept)%nat then take 2 kept else kept).
  assert (two = take 2 buffers) as Htwo.
  { rewrite <-Htake. unfold two. destruct (Nat.ltb_spec 2 (length kept)); [done|]. by rewrite take_ge. }
  assert (Forall held two ∧ two ≠ []) as [Hheld Hne2].
  { rewrite Htwo. split; [by apply Forall_take|]. by destruct buffers. }
  destruct (recycle_ok two Hheld Hne2) as (c1 & -> & Hc1). rewrite bind_ret_l. cbv beta iota.
  assert (∃ c2 rest, recycle b2 (removelast two) = Done (c2, rest) ∧ empty_held c2) as (c2 & rest & -> & Hc2).
  { destruct Hb as [[(b & -> & Hb) _]|[-> Hlen]]; [eexists _, _; split; [done|]; by exists b|].
    destruct (recycle_ok (removelast two)) as (p & -> & Hp); [by apply Forall_removelast| |by eexists _, _].
    rewrite Htwo. destruct buffers as [|x [|y l]]; cbn in Hlen; try lia. done. }
  rewrite bind_ret_l. by eexists _, _, _.
Qed.

(** ** Steps keep the invariant *)

Lemma phase_ok_threads p (ths ths' : gmap Z (thread condition member)) :
  (ths !! thread_ = None → ths' !! thread_ = None) → phase_ok p ths → phase_ok p ths'.
Proof. destruct p; cbn; naive_solver. Qed.

Lemma section_done s tid m : inv s → threads (logger s) !! tid = Some (Inside m) →
  is_done (section (R := result) true m (data (logger s))) = true.
Proof.
  intros Hi E. pose proof (inv_members _ Hi _ _ E) as Hm. destruct m as [l|b1 b2|b1 b2]; cbn [label member_ok] in Hm.
  - by destruct (append_section l _ (inv_guarded _ Hi)) as (g & signals & -> & _).
  - cbn. by case_bool_decide.
  - done.
Qed.

(** Threads that keep their member. *)
Lemma inv_keeps_label s tid x y mx : inv s → threads (logger s) !! tid = Some x → label y = label x →
  exclusive (Monitor.mk (data (logger s)) mx (<[tid := y]> (threads (logger s)))) →
  inv (set_logger (Monitor.mk (data (logger s)) mx (<[tid := y]> (threads (logger s)))) s).
Proof.
  intros [Hx Hg Hm Hp] E Hl Hx'. split; [done|done| |]; cbn.
  - intros i z. destruct (decide (i = tid)) as [->|Hne].
    + rewrite lookup_insert_eq. intros [= <-]. rewrite Hl. by apply Hm.
    + rewrite lookup_insert_ne by done. apply Hm.
  - eapply (phase_ok_threads _ (threads (logger s))); [|done]. intros E'. rewrite lookup_insert_ne; [done|]. congruence.
Qed.

(** The batch the logging thread is writing. *)
Definition in_hand (s : AsyncLogging.t) : list (list bytes) :=
  match phase s with Writing _ _ buffers => [text <$> buffers] | _ => [] end.

(** A step that completes: the invariant holds again, the lines it accepts are
    behind what was in the buffers, and what it writes is the batch in hand. *)
Definition kept (e : event) (s s' : AsyncLogging.t) (h : list (Z * member * result)) (out : list bytes) : Prop :=
  inv s' ∧
  concat (concat (batches h)) ++ unwritten (data (logger s')) = unwritten (data (logger s)) ++ accepted SIZE h ∧
  ∃ through, in_hand s ++ batches h = through ++ in_hand s' ∧
    Forall2 written_as through (match e with Write _ => [out] | _ => [] end).

Lemma kept_quiet e s s' out : (∀ now, e ≠ Write now) → inv s' → data (logger s') = data (logger s) →
  in_hand s' = in_hand s → kept e s s' [] out.
Proof.
  intros He Hi Hd Hh. split; [done|]. split; [cbn; by rewrite Hd, app_nil_r|]. exists [].
  rewrite Hh, app_nil_r. split; [done|]. destruct e; by constructor || (exfalso; by eapply He).
Qed.

Lemma rouse_none (ths ths' : gmap Z (thread condition member)) tid : rouse ths ths' → ths !! tid = None → ths' !! tid = None.
Proof. intros Hr E. destruct (Hr tid) as [->|(c & m & E' & _)]; congruence. Qed.
Lemma rouse_member (ths ths' : gmap Z (thread condition member)) tid x : rouse ths ths' → ths' !! tid = Some x →
  ∃ y, ths !! tid = Some y ∧ label y = label x.
Proof. intros Hr E. destruct (Hr tid) as [E'|(c & m & E' & E'')]; [exists x; split; congruence|]. exists (Waiting c m). naive_solver. Qed.

(** A section of the monitor that returns. *)
Lemma returns_kept s tid m r g signals wakes ths : inv s → threads (logger s) !! tid = Some (Inside m) →
  section true m (data (logger s)) = Done (Finish r g signals) →
  rouse (delete tid (threads (logger s))) ths → exclusive (Monitor.mk g MutexLock.make ths) →
  kept (Mutex (Run tid wakes)) s
    (match r with
     | Exchanged b1 b2 buffers => set_phase (Writing b1 b2 buffers) (set_logger (Monitor.mk g MutexLock.make ths) s)
     | Void => set_logger (Monitor.mk g MutexLock.make ths) s
     end) [(tid, m, r)] [].
Proof.
  intros Hi E Es Hr Hx. pose proof Hi as [_ Hg Hm Hp]. pose proof (Hm _ _ E) as Hme. cbn [label] in Hme.
  assert (∀ i x, ths !! i = Some x → i ≠ tid ∧ member_ok (phase s) i (label x)) as Hths.
  { intros i x Hx'. destruct (rouse_member _ _ _ _ Hr Hx') as (y & Hy & <-). apply lookup_delete_Some in Hy as [Hne Hy].
    split; [done|by apply Hm]. }
  assert (∀ b1 b2, empty_held b1 → empty_held b2 → tid = thread_ → phase s = Exchanging → exchange_buffers b1 b2 (data (logger s)) = Finish r g signals →
    kept (Mutex (Run tid wakes)) s
    (match r with
     | Exchanged b1 b2 buffers => set_phase (Writing b1 b2 buffers) (set_logger (Monitor.mk g MutexLock.make ths) s)
     | Void => set_logger (Monitor.mk g MutexLock.make ths) s
     end) [(tid, m, r)] []) as Hexch.
  { intros b1 b2 H1 H2 -> Hph Ee. destruct (exchange_section b1 b2 _ Hg H1 H2) as (b2' & buffers & g' & Ee' & Hg' & Hall & Hb2 & Hc & Hu).
    rewrite Ee in Ee'. injection Ee' as -> -> ->. split.
    - split; [done|done| |]; cbn.
      + intros i x Hix. apply Hths in Hix as [Hne Hix]. destruct (label x); cbn in *; [done|by destruct Hix..].
      + split_and!; [|done|done|done]. eapply rouse_none; [done|]. apply lookup_delete_eq.
    - assert (accepted SIZE [(thread_, m, Exchanged None b2' buffers)] = []) as Ha.
      { destruct m; [done|done|done]. }
      change (batches [(thread_, m, Exchanged None b2' buffers)]) with [text <$> buffers].
      split; [rewrite Ha; cbn [concat]; by rewrite !app_nil_r, Hc; cbn; rewrite Hu, app_nil_r|]. exists []. split; [|by constructor].
      unfold in_hand. by rewrite Hph. }
  destruct m as [l|b1 b2|b1 b2].
  - clear Hexch. destruct (append_section l _ Hg) as (g' & sg & Es' & Hg' & Hu). rewrite Es in Es'. injection Es' as -> -> ->. split.
    + split; [done|done| |]; cbn; [intros i x Hix; by apply Hths in Hix as [_ Hix]|].
      eapply (phase_ok_threads _ (threads (logger s))); [|done]. intros E'. eapply rouse_none; [done|]. rewrite lookup_delete_ne by congruence. done.
    + split; [cbn; by rewrite Hu, app_nil_r|]. exists []. unfold in_hand. cbn. rewrite app_nil_r. split; [done|constructor].
  - destruct Hme as (-> & Hph & H1 & H2). cbn in Es. case_bool_decide; [done|]. injection Es as Es. by apply (Hexch b1 b2).
  - destruct Hme as (-> & Hph & H1 & H2). cbn in Es. injection Es as Es. by apply (Hexch b1 b2).
Qed.

(** A thread enters a member. *)
Lemma call_kept e s tid m p : inv s → threads (logger s) !! tid = None → member_ok p tid m → (∀ now, e ≠ Write now) →
  (∀ i x, i ≠ tid → threads (logger s) !! i = Some x → member_ok p i (label x)) →
  (p = phase s ∧ tid ≠ thread_ ∨ p = Exchanging) → in_hand s = [] ∨ p = phase s →
  kept e s (set_phase p (set_logger (set_thread tid (Locking m) (logger s)) s)) [] [].
Proof.
  intros [Hx Hg Hm Hp] E Hme He Hothers Hph Hhand. apply kept_quiet; [done| |done|].
  - split; [|done| |]; cbn.
    + apply exclusive_set_thread; [done|by rewrite E|done].
    + intros i x. destruct (decide (i = tid)) as [->|Hne]; [by rewrite lookup_insert_eq; intros [= <-]|].
      rewrite lookup_insert_ne by done. by apply Hothers.
    + destruct Hph as [[Hph' Hne]|Hph']; rewrite Hph'; [|done]. eapply (phase_ok_threads _ (threads (logger s))); [|done].
      intros E'. by rewrite lookup_insert_ne.
  - destruct Hhand as [Hh|Hph']; [|by rewrite Hph']. destruct Hph as [[Hph' _]|Hph']; rewrite Hph'; [done|by rewrite Hh].
Qed.

Definition event_ok (e : event) : Prop := match e with Write now => now_ok now | _ => True end.

Lemma no_block b1 b2 g c m : Done (exchange_buffers b1 b2 g) ≠ Done (Block c m).
Proof. unfold exchange_buffers. by destruct (nextBuffer_ g). Qed.
Lemma mutex_kept e s o : inv s → AsyncLogging.step SIZE memory thread_ (Mutex e) s = Some o →
  ∃ s' h out, o = Done (s', h, out) ∧ kept (Mutex e) s s' h out.
Proof.
  intros Hi Hs. assert (∃ m, Monitor.step e (logger s) = Some m ∧
    o = ('(l, h) ← m;
         match h with
         | [(_, _, Exchanged b1 b2 buffers)] => Done (set_phase (Writing b1 b2 buffers) (set_logger l s), h, [])
         | _ => Done (set_logger l s, h, [])
         end) ∧ ∀ tid m, e ≠ Call tid m) as (m & Em & -> & Hnc).
  { destruct e; [done|cbn [AsyncLogging.step] in Hs..];
      (destruct (Monitor.step _ (logger s)) as [m|]; [|done]); injection Hs as <-; by exists m. }
  destruct (step_completes _ _ _ (inv_exclusive _ Hi) (λ tid m, section_done s tid m Hi) Em) as (l & h & -> & He). rewrite bind_ret_l.
  pose proof (effect_exclusive _ _ _ _ (inv_exclusive _ Hi) He) as Hx.
  assert (∀ tid x y mx, threads (logger s) !! tid = Some x → label y = label x →
    exclusive (Monitor.mk (data (logger s)) mx (<[tid := y]> (threads (logger s)))) →
    kept (Mutex e) s (set_logger (Monitor.mk (data (logger s)) mx (<[tid := y]> (threads (logger s)))) s) [] []) as Hsame.
  { intros tid x y mx E Hl Hx'. apply kept_quiet; [done| |done|done]. by eapply inv_keeps_label. }
  destruct He as [tid m E Ee|tid m E Eo|tid c m E|tid wakes m c m' E Es|tid wakes m r d signals ths E Es Ew].
  - by destruct (Hnc tid m).
  - eexists _, _, _. split; [done|]. by eapply Hsame.
  - eexists _, _, _. split; [done|]. by eapply Hsame.
  - eexists _, _, _. split; [done|]. pose proof (inv_members _ Hi _ _ E) as Hme. cbn [label] in Hme.
    destruct m as [ln|b1 b2|b1 b2].
    + destruct (append_section ln _ (inv_guarded _ Hi)) as (g & sg & Es' & _). by rewrite Es in Es'.
    + cbn in Es. case_bool_decide; [|by apply no_block in Es]. injection Es as <-; destruct c.
      destruct Hme as (-> & Hph & H1 & H2). apply kept_quiet; [done| |done|done].
      split; [done|apply Hi| |]; cbn.
      * intros i x. destruct (decide (i = thread_)) as [->|Hne]; [by rewrite lookup_insert_eq; intros [= <-]|].
        rewrite lookup_insert_ne by done. by apply Hi.
      * eapply (phase_ok_threads _ (threads (logger s))); [|apply Hi]. congruence.
    + by destruct (no_block _ _ _ _ _ Es).
  - pose proof (returns_kept s tid m r d signals wakes ths Hi E Es (wake_up_rouse _ _ _ _ Ew) Hx) as Hk.
    destruct r; (eexists _, _, _; split; [done|exact Hk]).
Qed.

Lemma step_kept e s o : inv s → event_ok e → AsyncLogging.step SIZE memory thread_ e s = Some o →
  ∃ s' h out, o = Done (s', h, out) ∧ kept e s s' h out.
Proof.
  intros Hi He Hs. destruct e as [tid l|e| |now|].
  - cbn [AsyncLogging.step] in Hs. case_bool_decide as Hne; [done|]. cbn [Monitor.step] in Hs.
    destruct (threads (logger s) !! tid) eqn:E; [done|]. injection Hs as <-. eexists _, _, _. split; [done|].
    apply (call_kept _ s tid (append l) (phase s) Hi); [done..|intros; by apply Hi|by left|by right].
  - by apply mutex_kept.
  - cbn [AsyncLogging.step] in Hs. destruct (phase s) as [b1 b2| | |] eqn:Hph; try done.
    pose proof (inv_phase _ Hi) as Hp. rewrite Hph in Hp. destruct Hp as (E & H1 & H2).
    destruct (running_ s); injection Hs as <-.
    + pose proof H1 as (c1 & -> & _ & Hc1). pose proof H2 as (c2 & -> & _ & Hc2).
      rewrite !cassert_bind by (by cbn; apply Z.eqb_eq). cbn [Monitor.step]. rewrite E. eexists _, _, _. split; [done|].
      apply (call_kept _ s thread_ (exchange (Some c1) (Some c2)) Exchanging Hi); try done.
      * intros i x Hne Hx. apply Hi in Hx. rewrite Hph in Hx. destruct (label x); cbn in *; naive_solver.
      * by right.
      * left. unfold in_hand. by rewrite Hph.
    + eexists _, _, _. split; [done|]. apply kept_quiet; [done| |done|by unfold in_hand; rewrite Hph].
      destruct Hi as [Hx Hg Hm _]. split; [done|done| |done]. cbn. intros i x Hix. apply Hm in Hix. rewrite Hph in Hix.
      destruct (label x); cbn in *; naive_solver.
  - cbn [AsyncLogging.step] in Hs. destruct (phase s) as [| |b1 b2 buffers|] eqn:Hph; try done. injection Hs as <-.
    pose proof (inv_phase _ Hi) as Hp. rewrite Hph in Hp. destruct Hp as (E & -> & Hall & Hb).
    destruct (write_out_ok now b2 buffers He Hall Hb) as (out & c1 & c2 & -> & H1 & H2 & Hw). rewrite bind_ret_l.
    eexists _, _, _. split; [done|]. split; [|split; [cbn; by rewrite app_nil_r|]].
    + destruct Hi as [Hx Hg Hm _]. split; [done|done| |done]. cbn. intros i x Hix. apply Hm in Hix. rewrite Hph in Hix.
      destruct (label x); cbn in *; naive_solver.
    + exists [text <$> buffers]. unfold in_hand. rewrite Hph. split; [done|]. by repeat constructor.
  - injection Hs as <-. eexists _, _, _. split; [done|].
    unfold notify_outside. destruct (threads (logger s) !! thread_) as [[| |[] m]|] eqn:E;
      (apply kept_quiet; [done| |done|done]);
      destruct Hi as [Hx Hg Hm Hp]; split; try done; cbn.
    + apply exclusive_set_thread; [done|by rewrite E|done].
    + intros i x. destruct (decide (i = thread_)) as [->|Hne].
      * rewrite lookup_insert_eq. intros [= <-]. by apply (Hm _ _ E).
      * rewrite lookup_insert_ne by done. apply Hm.
    + eapply (phase_ok_threads _ (threads (logger s))); [|done]. congruence.
Qed.

Lemma reaches_kept es s h w : reaches es s h w → Forall event_ok es →
  inv s ∧ accepted SIZE h = concat (concat (batches h)) ++ unwritten (data (logger s)) ∧
  ∃ through, batches h = through ++ in_hand s ∧ Forall2 written_as through w.
Proof.
  induction 1 as [|es s h w e s' h' out _ IH Hs]; intros Hes.
  - split; [apply inv_started|]. split; [done|]. exists []. by split.
  - apply Forall_app in Hes as [Hes He]. inversion_clear He as [|? ? He' _].
    destruct (IH Hes) as (Hi & Ha & through & Hb & Hw).
    destruct (step_kept e s _ Hi He' Hs) as (s1 & h1 & out1 & [= <- <- <-] & Hi' & Hu & through' & Hb' & Hw').
    split; [done|]. rewrite accepted_app, batches_app, !concat_app, Ha. split; [by rewrite <-!app_assoc, Hu, app_assoc|].
    exists (through ++ through'). rewrite Hb, <-!app_assoc, Hb', app_assoc. split; [done|]. by apply Forall2_app.
Qed.

(** C26. The asynchronous logger loses no line and tears none apart.  Whatever the
    interleaving of the threads that append and the logging thread, and however
    its timed waits end: no step fails, no buffer is dereferenced after it was
    moved, overrun or lost; the lines accepted so far, in the order of their
    calls, are the buffers taken so far, one after the other, followed by what
    is still in the front end; and the logging thread has written every batch it
    took but the one in its hands, each in order and whole, or of more than 25
    buffers the first two after a message that says so.  Only a line as large
    as a buffer is dropped. *)
Theorem async_log_in_order es s h w :
  reaches es s h w → Forall event_ok es →
  accepted SIZE h = concat (concat (batches h)) ++ unwritten (data (logger s)) ∧
  (∃ through, batches h = through ++ in_hand s ∧ Forall2 written_as through w) ∧
  (∀ e o, event_ok e → step e s = Some o → is_done o = true) ∧
  (∀ tid l, threads (logger s) !! tid = Some (Inside (append l)) →
     ∃ g signals, section true (append l) (data (logger s)) = Done (Finish Void g signals)).
Proof.
  intros Hr Hes. destruct (reaches_kept _ _ _ _ Hr Hes) as (Hi & Ha & Hw). split; [done|]. split; [done|]. split.
  - intros e o He Hs. by destruct (step_kept e s o Hi He Hs) as (s' & h' & out & -> & _).
  - intros tid l _. destruct (append_section l _ (inv_guarded _ Hi)) as (g & signals & Es & _). by exists g, signals.
Qed.
End correctness.

(** * Examples *)
Module Sample.
Import AsyncLogging.

Definition memory : bytes := repeat x00 8.
Notation step := (AsyncLogging.step 8 memory 1).

(** A history, executed. *)
Fixpoint perform (es : list event) (s : t) : option (t * list (Z * member * result) * list (list bytes)) :=
  match es with
  | [] => Some (s, [], [])
  | e :: es =>
      match step e s with
      | Some (Done (s, h, out)) =>
          match perform es s with
          | Some (s, h', w) => Some (s, h ++ h', match e with Write _ => [out] | _ => [] end ++ w)
          | None => None
          end
      | _ => None
      end
  end.
Lemma log_perform_reaches es0 s0 h0 w0 es s h w : AsyncLogging.reaches 8 memory 1 es0 s0 h0 w0 → perform es s0 = Some (s, h, w) →
  AsyncLogging.reaches 8 memory 1 (es0 ++ es) s (h0 ++ h) (w0 ++ w).
Proof.
  revert es0 s0 h0 w0 s h w. induction es as [|e es IH]; intros es0 s0 h0 w0 s h w Hr; cbn [perform].
  - intros [= <- <- <-]. by rewrite !app_nil_r.
  - destruct (step e s0) as [[[[s1 h1] out]|]|] eqn:Hs; try done.
    destruct (perform es s1) as [[[s2 h2] w2]|] eqn:Hp; [|done]. intros [= <- <- <-].
    rewrite (app_assoc h0), (app_assoc w0), cons_middle, (app_assoc es0). eapply IH; [|done]. by econstructor.
Qed.

(** Thread 2 appends two lines, the logging thread writes them, thread 2 appends
    a third one and the logger is stopped. *)
Definition line (l : string) : list event := [Append 2 (bs l); Mutex (Lock 2); Mutex (Run 2 [])].
Definition history : list event :=
  [Test; Mutex (Lock 1); Mutex (Run 1 [])]
  ++ line "one" ++ [Append 2 (bs "second"); Mutex (Lock 2); Mutex (Run 2 [1])]
  ++ [Mutex (Lock 1); Mutex (Run 1 []); Write 0] ++ line "3" ++ [Stop; Test].
Definition final : t * list (Z * member * result) * list (list bytes) :=
  Eval vm_compute in default (started 8 memory, [], []) (perform history (started 8 memory)).

Theorem async_log_in_order_witness :
  Forall event_ok history ∧ final.2 = [[bs "one"; bs "second"]] ∧
  accepted 8 final.1.2 = concat (concat (batches final.1.2)) ++ unwritten (data (logger final.1.1)).
Proof.
  assert (Forall event_ok history) as Hes.
  { unfold history, line. cbn [app]. repeat match goal with |- Forall _ (_ :: _) => apply List.Forall_cons end;
        first [exact I|apply List.Forall_nil|split; vm_compute; discriminate]. }
  assert (AsyncLogging.reaches 8 memory 1 history final.1.1 final.1.2 final.2) as Hr.
  { apply (log_perform_reaches [] (started 8 memory) [] [] history); [constructor|]. vm_compute. reflexivity. }
  split; [exact Hes|]. split; [reflexivity|].
  refine (proj1 (async_log_in_order 8 memory 1 _ _ history _ _ _ Hr Hes)); [split; reflexivity|reflexivity].
Defined.

(** The third line is never written: the logging thread leaves its loop without
    taking the buffers once more. *)
Example last_lines_lost :
  phase final.1.1 = Finished ∧ unwritten (data (logger final.1.1)) = bs "3" ∧ concat (concat final.2) = bs "onesecond".
Proof. vm_compute. done. Qed.
(** A line as large as a buffer is dropped without notice. *)
Example large_line_dropped :
  match perform (line "12345678") (started 8 memory) with
  | Some (s, h, _) => h = [(2, append (bs "12345678"), Void)] ∧ unwritten (data (logger s)) = []
  | None => False
  end.
Proof. vm_compute. done. Qed.
End Sample.
