(* ===== verification/TimerQueue.v ===== *)
(** The timer queue of the event loop: [muduo::net::Timer], [TimerId] and
    [TimerQueue] (src/IMServer/src/muduo/net: Timer.h, Timer.cc, TimerId.h,
    TimerQueue.h, TimerQueue.cc).

    Timers live in a store of allocated objects: a timer is used through its
    address, and using an address that was freed is undefined.  An address
    that is taken or out of range stands for a failed allocation.  The clock
    is read by [Timestamp::now()], each reading an input of the operation that
    makes it.  [timerfd_settime] is recorded: the timer descriptor is armed
    once, relative to the reading. *)

From Stdlib Require Import Floats.SpecFloat.
From S2P Require Import Prelude StdMap CDouble Calendar.
Local Open Scope Z_scope.

(** * The order of [std::pair<Timestamp, Timer*>] *)

Definition pair_lt (a b : Z * Z) : bool :=
  (a.1 <? b.1) || (negb (b.1 <? a.1) && (a.2 <? b.2)).
#[export] Program Instance pair_order : KeyOrder (Z * Z) := {| key_lt := pair_lt |}.
Next Obligation. intros [a b]. unfold pair_lt. cbn. by rewrite !Z.ltb_irrefl. Qed.
Next Obligation.
  intros [a1 a2] [b1 b2] [c1 c2]. unfold pair_lt. cbn.
  destruct (Z.ltb_spec a1 b1), (Z.ltb_spec b1 a1), (Z.ltb_spec b1 c1), (Z.ltb_spec c1 b1),
    (Z.ltb_spec a1 c1), (Z.ltb_spec c1 a1), (Z.ltb_spec a2 b2), (Z.ltb_spec b2 c2),
    (Z.ltb_spec a2 c2); cbn; (done || lia).
Qed.
Next Obligation.
  intros [a1 a2] [b1 b2]. unfold pair_lt. cbn.
  destruct (Z.ltb_spec a1 b1), (Z.ltb_spec b1 a1), (Z.ltb_spec a2 b2), (Z.ltb_spec b2 a2);
    cbn; intros; (done || f_equal; lia).
Qed.

(** * [Timer] *)
Module Timer.

(** The callback is known by a number: what it does when it runs is an input
    of [handleRead]. *)
Record t := mk {
  callback_ : nat;
  expiration_ : Z;
  interval_ : spec_float;
  repeat_ : bool;
  sequence_ : Z
}.

(** [interval > 0.0] *)
Definition positive (interval : spec_float) : bool := SFltb (S754_zero false) interval.

(** [Timer( cb, when, interval )], with the next sequence number *)
Definition make (cb : nat) (when : Z) (interval : spec_float) (sequence : Z) : t :=
  mk cb when interval (positive interval) sequence.

(** [restart( now )] *)
Definition restart (now : Z) (timer : t) : outcome t :=
  if repeat_ timer then
    expiration ← Timestamp.addTime now (interval_ timer);
    Done (mk (callback_ timer) expiration (interval_ timer) (repeat_ timer) (sequence_ timer))
  else
    Done (mk (callback_ timer) Timestamp.invalid (interval_ timer) (repeat_ timer) (sequence_ timer)).

End Timer.

(** A [TimerId], also an [ActiveTimer]: the address and the sequence number. *)
Notation TimerId := (Z * Z)%type.
(** An [Entry] of the timer list: expiration and address. *)
Notation Entry := (Z * Z)%type.

Module TimerQueue.

Definition UINTPTR_MAX : Z := 18446744073709551615.

(** What [runInLoop] queues when it is called in another thread. *)
Inductive functor := AddTimerInLoop (timer : Z) | CancelInLoop (id : TimerId).

Record t := mkQueue {
  heap : gmap Z Timer.t;                   (* allocated timers *)
  s_numCreated_ : Z;                       (* int64_t, taken to count without a limit *)
  timers_ : list (Entry * unit);           (* std::set *)
  activeTimers_ : gset TimerId;
  callingExpiredTimers_ : bool;
  cancelingTimers_ : gset TimerId;
  settime : option (Z * (Z * Z));          (* clock, tv_sec, tv_nsec of the last arming *)
  pendingFunctors : list functor;
  ran : list TimerId                       (* callbacks that ran, oldest first *)
}.

Definition set_heap x (q : t) : t :=
  mkQueue x (s_numCreated_ q) (timers_ q) (activeTimers_ q) (callingExpiredTimers_ q)
    (cancelingTimers_ q) (settime q) (pendingFunctors q) (ran q).
Definition set_created x (q : t) : t :=
  mkQueue (heap q) x (timers_ q) (activeTimers_ q) (callingExpiredTimers_ q)
    (cancelingTimers_ q) (settime q) (pendingFunctors q) (ran q).
Definition set_timers x (q : t) : t :=
  mkQueue (heap q) (s_numCreated_ q) x (activeTimers_ q) (callingExpiredTimers_ q)
    (cancelingTimers_ q) (settime q) (pendingFunctors q) (ran q).
Definition set_active x (q : t) : t :=
  mkQueue (heap q) (s_numCreated_ q) (timers_ q) x (callingExpiredTimers_ q)
    (cancelingTimers_ q) (settime q) (pendingFunctors q) (ran q).
Definition set_calling x (q : t) : t :=
  mkQueue (heap q) (s_numCreated_ q) (timers_ q) (activeTimers_ q) x
    (cancelingTimers_ q) (settime q) (pendingFunctors q) (ran q).
Definition set_canceling x (q : t) : t :=
  mkQueue (heap q) (s_numCreated_ q) (timers_ q) (activeTimers_ q) (callingExpiredTimers_ q)
    x (settime q) (pendingFunctors q) (ran q).
Definition set_settime x (q : t) : t :=
  mkQueue (heap q) (s_numCreated_ q) (timers_ q) (activeTimers_ q) (callingExpiredTimers_ q)
    (cancelingTimers_ q) x (pendingFunctors q) (ran q).
Definition set_pending x (q : t) : t :=
  mkQueue (heap q) (s_numCreated_ q) (timers_ q) (activeTimers_ q) (callingExpiredTimers_ q)
    (cancelingTimers_ q) (settime q) x (ran q).
Definition set_ran x (q : t) : t :=
  mkQueue (heap q) (s_numCreated_ q) (timers_ q) (activeTimers_ q) (callingExpiredTimers_ q)
    (cancelingTimers_ q) (settime q) (pendingFunctors q) x.

(** [TimerQueue( loop )] *)
Definition make : t := mkQueue ∅ 0 [] ∅ false ∅ None [] [].

(** [timer->...]: reading through an address. *)
Definition deref (p : Z) (q : t) : outcome Timer.t :=
  match heap q !! p with
  | Some timer => Done timer
  | None => Fault (Undefined "use of a deleted timer")
  end.
(** [delete timer] *)
Definition delete_timer (p : Z) (q : t) : outcome t :=
  _ ← deref p q; Done (set_heap (delete p (heap q)) q).

(** [assert( timers_.size() == activeTimers_.size() )] *)
Definition assert_sizes (q : t) : outcome unit :=
  cassert (length (timers_ q) =? size (activeTimers_ q))%nat "timers_.size() == activeTimers_.size()".

(** [howMuchTimeFromNow( when )]: seconds and nanoseconds *)
Definition howMuchTimeFromNow (when clock : Z) : outcome (Z * Z) :=
  microseconds ← int64 (when - clock);
  let microseconds := if microseconds <? 100 then 100 else microseconds in
  Done (Z.quot microseconds Timestamp.kMicroSecondsPerSecond,
        Z.rem microseconds Timestamp.kMicroSecondsPerSecond * 1000).

(** [resetTimerfd( timerfd, expiration )] *)
Definition resetTimerfd (expiration clock : Z) (q : t) : outcome t :=
  ts ← howMuchTimeFromNow expiration clock;
  Done (set_settime (Some (clock, ts)) q).

(** [insert( timer )] *)
Definition insert (timer : Z) (q : t) : outcome (bool * t) :=
  _ ← assert_sizes q;
  x ← deref timer q;
  let when := Timer.expiration_ x in
  let earliestChanged := match timers_ q with
                         | [] => true
                         | (it, _) :: _ => when <? it.1
                         end in
  let second := bool_decide (StdMap.find (when, timer) (timers_ q) = None) in
  let q := set_timers (StdMap.insert (when, timer) tt (timers_ q)) q in
  _ ← cassert second "result.second";
  let second := bool_decide ((timer, Timer.sequence_ x) ∉ activeTimers_ q) in
  let q := set_active ({[(timer, Timer.sequence_ x)]} ∪ activeTimers_ q) q in
  _ ← cassert second "result.second";
  _ ← assert_sizes q;
  Done (earliestChanged, q).

(** [new Timer( cb, when, interval )] at an address the allocator chose *)
Definition new_timer (p : Z) (cb : nat) (when : Z) (interval : spec_float) (q : t) :
    outcome (TimerId * t) :=
  if bool_decide (heap q !! p = None) && (0 <? p) && (p <? UINTPTR_MAX) then
    let sequence := s_numCreated_ q + 1 in
    let timer := Timer.make cb when interval sequence in
    Done ((p, sequence), set_created sequence (set_heap (<[p := timer]> (heap q)) q))
  else Fault (Thrown "std::bad_alloc").

(** [addTimerInLoop( timer )] *)
Definition addTimerInLoop (timer clock : Z) (q : t) : outcome t :=
  '(earliestChanged, q) ← insert timer q;
  if (earliestChanged : bool) then
    x ← deref timer q;
    resetTimerfd (Timer.expiration_ x) clock q
  else Done q.

(** [cancelInLoop( timerId )] *)
Definition cancelInLoop (timer : TimerId) (q : t) : outcome t :=
  _ ← assert_sizes q;
  q ← (if decide (timer ∈ activeTimers_ q) then
         x ← deref timer.1 q;
         let '(timers, n) := StdMap.erase (Timer.expiration_ x, timer.1) (timers_ q) in
         let q := set_timers timers q in
         _ ← cassert (n =? 1)%nat "n == 1";
         q ← delete_timer timer.1 q;
         Done (set_active (activeTimers_ q ∖ {[timer]}) q)
       else if callingExpiredTimers_ q
       then Done (set_canceling ({[timer]} ∪ cancelingTimers_ q) q)
       else Done q);
  _ ← assert_sizes q;
  Done q.

(** [addTimer( cb, when, interval )] in the loop's thread, where [runInLoop]
    runs the functor at once, and in another thread, where it is queued. *)
Definition addTimer (p : Z) (cb : nat) (when : Z) (interval : spec_float) (clock : Z) (q : t) :
    outcome (TimerId * t) :=
  '(id, q) ← new_timer p cb when interval q;
  q ← addTimerInLoop p clock q;
  Done (id, q).
Definition addTimer_queued (p : Z) (cb : nat) (when : Z) (interval : spec_float) (q : t) :
    outcome (TimerId * t) :=
  '(id, q) ← new_timer p cb when interval q;
  Done (id, set_pending (pendingFunctors q ++ [AddTimerInLoop p]) q).
(** [cancel( timerId )], likewise. *)
Definition cancel (id : TimerId) (q : t) : outcome t := cancelInLoop id q.
Definition cancel_queued (id : TimerId) (q : t) : t :=
  set_pending (pendingFunctors q ++ [CancelInLoop id]) q.

(** One functor of the loop's queue. *)
Definition run_functor (f : functor) (clock : Z) (q : t) : outcome t :=
  match f with
  | AddTimerInLoop p => addTimerInLoop p clock q
  | CancelInLoop id => cancelInLoop id q
  end.

(** ** Expiry *)

(** The prefix of the entries below a key: [begin()] to [lower_bound( key )]. *)
Fixpoint split_below (key : Entry) (l : list (Entry * unit)) :
    list (Entry * unit) * list (Entry * unit) :=
  match l with
  | [] => ([], [])
  | e :: l' => if pair_lt e.1 key then let '(a, b) := split_below key l' in (e :: a, b)
               else ([], l)
  end.

(** The second loop of [getExpired]. *)
Fixpoint deactivate (expired : list Entry) (q : t) : outcome t :=
  match expired with
  | [] => Done q
  | it :: expired =>
      x ← deref it.2 q;
      let timer := (it.2, Timer.sequence_ x) in
      _ ← cassert (bool_decide (timer ∈ activeTimers_ q)) "n == 1";
      deactivate expired (set_active (activeTimers_ q ∖ {[timer]}) q)
  end.

(** [getExpired( now )] *)
Definition getExpired (now : Z) (q : t) : outcome (list Entry * t) :=
  _ ← assert_sizes q;
  let '(before, end_) := split_below (now, UINTPTR_MAX) (timers_ q) in
  _ ← cassert (match end_ with [] => true | (e, _) :: _ => now <? e.1 end)
        "end == timers_.end() || now < end->first";
  let expired := before.*1 in
  let q := set_timers end_ q in
  q ← deactivate expired q;
  _ ← assert_sizes q;
  Done (expired, q).

(** What a callback may do to the queue. *)
Inductive action :=
  | Add (p : Z) (cb : nat) (when : Z) (interval : spec_float) (clock : Z)
  | Cancel (id : TimerId)
  | AddQueued (p : Z) (cb : nat) (when : Z) (interval : spec_float)
  | CancelQueued (id : TimerId).

Definition perform (a : action) (q : t) : outcome t :=
  match a with
  | Add p cb when interval clock => '(_, q) ← addTimer p cb when interval clock q; Done q
  | Cancel id => cancel id q
  | AddQueued p cb when interval => '(_, q) ← addTimer_queued p cb when interval q; Done q
  | CancelQueued id => Done (cancel_queued id q)
  end.

Fixpoint perform_all (l : list action) (q : t) : outcome t :=
  match l with
  | [] => Done q
  | a :: l => q ← perform a q; perform_all l q
  end.

(** [it.second->run()] for every expired entry; [behaviour] gives what each
    timer's callback does in this round. *)
Fixpoint run_expired (behaviour : TimerId → list action) (expired : list Entry) (q : t) : outcome t :=
  match expired with
  | [] => Done q
  | it :: expired =>
      x ← deref it.2 q;
      let id := (it.2, Timer.sequence_ x) in
      q ← perform_all (behaviour id) (set_ran (ran q ++ [id]) q);
      run_expired behaviour expired q
  end.

(** The loop of [reset]. *)
Fixpoint reset_loop (expired : list Entry) (now : Z) (q : t) : outcome t :=
  match expired with
  | [] => Done q
  | it :: expired =>
      x ← deref it.2 q;
      let timer := (it.2, Timer.sequence_ x) in
      q ← (if Timer.repeat_ x && bool_decide (timer ∉ cancelingTimers_ q) then
             x ← Timer.restart now x;
             '(_, q) ← insert it.2 (set_heap (<[it.2 := x]> (heap q)) q);
             Done q
           else delete_timer it.2 q);
      reset_loop expired now q
  end.

(** [reset( expired, now )] *)
Definition reset (expired : list Entry) (now clock : Z) (q : t) : outcome t :=
  q ← reset_loop expired now q;
  nextExpire ← match timers_ q with
               | [] => Done Timestamp.invalid
               | (it, _) :: _ => x ← deref it.2 q; Done (Timer.expiration_ x)
               end;
  if Timestamp.valid nextExpire then resetTimerfd nextExpire clock q else Done q.

(** [handleRead()]: the descriptor has expired, so it is not armed any more. *)
Definition handleRead (now : Z) (behaviour : TimerId → list action) (clock : Z) (q : t) : outcome t :=
  let q := set_settime None q in
  '(expired, q) ← getExpired now q;
  let q := set_canceling ∅ (set_calling true q) in
  q ← run_expired behaviour expired q;
  let q := set_calling false q in
  reset expired now clock q.

(** [~TimerQueue()]: the timers in the list are freed. *)
Definition dtor (q : t) : outcome t :=
  foldr (λ e m, q ← m; delete_timer e.1.2 q) (Done q) (timers_ q).

(** [EventLoop::runAt], [runAfter] and [runEvery], with the reading of the
    clock the last two start from. *)
Definition runAt (p : Z) (cb : nat) (time clock : Z) (q : t) := addTimer p cb time (S754_zero false) clock q.
Definition runAfter (p : Z) (cb : nat) (delay : spec_float) (now clock : Z) (q : t) :=
  time ← Timestamp.addTime now delay; runAt p cb time clock q.
Definition runEvery (p : Z) (cb : nat) (interval : spec_float) (now clock : Z) (q : t) :=
  time ← Timestamp.addTime now interval; addTimer p cb time interval clock q.

(** ** The queue in its loop *)
Inductive op :=
  | Perform (a : action)
  | RunFunctor (clock : Z)
  | HandleRead (now : Z) (behaviour : TimerId → list action) (clock : Z).

Definition step (o : op) (q : t) : outcome t :=
  match o with
  | Perform a => perform a q
  | RunFunctor clock =>
      match pendingFunctors q with
      | [] => Done q
      | f :: fs => run_functor f clock (set_pending fs q)
      end
  | HandleRead now behaviour clock => handleRead now behaviour clock q
  end.

End TimerQueue.

(** * The representation *)

Section invariant.
Import TimerQueue.
Implicit Types (q : t) (held : list Z).

(** Readings of the clock and times within about 70,000 years of the epoch, and
    repetition intervals below that: no arithmetic overflows. *)
Definition time_bound : Z := 2 ^ 61.
Definition clock_ok (c : Z) : Prop := 0 < c ≤ time_bound.
Definition when_ok (w : Z) : Prop := - time_bound ≤ w ≤ time_bound.
Definition interval_ok (i : spec_float) : Prop :=
  Timer.positive i = true → ∃ d, Timestamp.micros i = Done d ∧ 0 ≤ d ≤ time_bound.
Definition timer_ok (x : Timer.t) : Prop :=
  - time_bound ≤ Timer.expiration_ x ≤ 2 * time_bound ∧
  Timer.repeat_ x = Timer.positive (Timer.interval_ x) ∧ interval_ok (Timer.interval_ x).

(** The list and the set of active timers hold the same timers, each under its
    current expiration; every allocated timer is active or in [held], the
    timers somebody else is responsible for. *)
Record inv held q : Prop := mkInv {
  inv_wf : StdMap.wf (timers_ q);
  inv_entry e : StdMap.find e (timers_ q) = Some tt →
    ∃ x, heap q !! e.2 = Some x ∧ Timer.expiration_ x = e.1 ∧ (e.2, Timer.sequence_ x) ∈ activeTimers_ q;
  inv_active p s : (p, s) ∈ activeTimers_ q →
    ∃ x, heap q !! p = Some x ∧ Timer.sequence_ x = s ∧
         StdMap.find (Timer.expiration_ x, p) (timers_ q) = Some tt;
  inv_size : length (timers_ q) = size (activeTimers_ q);
  inv_nodup : NoDup held;
  inv_held p : p ∈ held → is_Some (heap q !! p) ∧ ∀ s, (p, s) ∉ activeTimers_ q;
  inv_alloc p x : heap q !! p = Some x →
    0 < p < UINTPTR_MAX ∧ timer_ok x ∧ (p ∈ held ∨ (p, Timer.sequence_ x) ∈ activeTimers_ q)
}.

Lemma inv_perm held held' q : held ≡ₚ held' → inv held q → inv held' q.
Proof.
  intros Hp []. split; try done; [by rewrite <-Hp| |]; intros p; rewrite <-?Hp; eauto.
  intros x Hx. rewrite <-Hp. by apply inv_alloc0.
Qed.

(** Fields the invariant does not speak about. *)
Lemma inv_same held q q' :
  heap q' = heap q → timers_ q' = timers_ q → activeTimers_ q' = activeTimers_ q →
  inv held q → inv held q'.
Proof. intros E1 E2 E3 []. split; rewrite ?E1, ?E2, ?E3; done. Qed.

Lemma assert_sizes_ok held q : inv held q → assert_sizes q = Done tt.
Proof. intros Hq. unfold assert_sizes. apply cassert_true, Nat.eqb_eq, Hq. Qed.

Lemma deref_ok q p x : heap q !! p = Some x → deref p q = Done x.
Proof. unfold deref. by intros ->. Qed.

(** What is scheduled under an identifier. *)
Definition sched q (id : TimerId) : option Timer.t :=
  if decide (id ∈ activeTimers_ q) then heap q !! id.1 else None.

Lemma sched_Some held q id x :
  inv held q → sched q id = Some x ↔
    id ∈ activeTimers_ q ∧ heap q !! id.1 = Some x ∧ Timer.sequence_ x = id.2.
Proof.
  intros Hq. unfold sched. case_decide as Hid; [|naive_solver].
  destruct id as [p s]. destruct (inv_active _ _ Hq p s Hid) as (y & Hy & Hs & _). cbn. naive_solver.
Qed.

Lemma inv_sched_entry held q p s x :
  inv held q → sched q (p, s) = Some x → StdMap.find (Timer.expiration_ x, p) (timers_ q) = Some tt.
Proof.
  intros Hq Hx. apply (sched_Some held) in Hx as (Hid & Hx & Hs); [|done].
  destruct (inv_active _ _ Hq p s Hid) as (y & Hy & _ & Hf). cbn in Hx. by simplify_eq.
Qed.

Lemma active_inj held q p s s' :
  inv held q → (p, s) ∈ activeTimers_ q → (p, s') ∈ activeTimers_ q → s = s'.
Proof.
  intros Hq H1 H2. destruct (inv_active _ _ Hq _ _ H1) as (x & Hx & <- & _).
  destruct (inv_active _ _ Hq _ _ H2) as (y & Hy & <- & _). congruence.
Qed.

(** ** Inserting *)

(** A timer somebody else holds is not in the list. *)
Lemma held_not_listed held q p w : inv held q → p ∈ held → StdMap.find (w, p) (timers_ q) = None.
Proof.
  intros Hq Hp. destruct (StdMap.find _ _) as [[]|] eqn:E; [|done].
  destruct (inv_entry _ _ Hq _ E) as (y & _ & _ & Hact). cbn in Hact.
  destruct (inv_held _ _ Hq p Hp) as [_ Hna]. by destruct (Hna (Timer.sequence_ y)).
Qed.

Lemma insert_ok held q p x :
  inv (p :: held) q → heap q !! p = Some x →
  ∃ b q', insert p q = Done (b, q') ∧ inv held q' ∧
    q' = set_active ({[(p, Timer.sequence_ x)]} ∪ activeTimers_ q)
           (set_timers (StdMap.insert (Timer.expiration_ x, p) tt (timers_ q)) q) ∧
    b = match timers_ q with [] => true | (e, _) :: _ => Timer.expiration_ x <? e.1 end.
Proof.
  intros Hq Hx. unfold insert. rewrite (assert_sizes_ok _ _ Hq), bind_ret_l, (deref_ok _ _ _ Hx), bind_ret_l.
  destruct (inv_held _ _ Hq p) as [_ Hna]; [left|].
  assert (Hnf := held_not_listed _ q p (Timer.expiration_ x) Hq (list_elem_of_here _ _)).
  rewrite cassert_bind by (by apply bool_decide_eq_true_2). cbn [activeTimers_ set_timers].
  rewrite cassert_bind by (apply bool_decide_eq_true_2, Hna).
  set (q' := set_active _ _).
  assert (Hq' : inv held q').
  { split; cbn.
    - apply StdMap.wf_insert, Hq.
    - intros e. rewrite StdMap.find_insert_fresh by done. case_decide as He.
      + intros _. subst e. exists x. cbn. split_and!; [done|done|set_solver].
      + intros Hf. destruct (inv_entry _ _ Hq e Hf) as (y & Hy & He' & Hact). exists y. split_and!; [done|done|set_solver].
    - intros p' s [Hp|Hp]%elem_of_union.
      + apply elem_of_singleton in Hp as [= -> ->]. exists x. split_and!; [done|done|].
        rewrite StdMap.find_insert_fresh by done. by rewrite decide_True.
      + destruct (inv_active _ _ Hq p' s Hp) as (y & Hy & Hs & Hf). exists y. split_and!; [done|done|].
        rewrite StdMap.find_insert_fresh by done. by case_decide.
    - rewrite StdMap.length_insert by done. rewrite size_union by set_solver.
      rewrite size_singleton, (inv_size _ _ Hq). lia.
    - apply (NoDup_cons_1_2 p), Hq.
    - intros p' Hp'. destruct (inv_held _ _ Hq p') as [Ha Hb]; [by right|]. split; [done|].
      intros s. specialize (Hb s). pose proof (NoDup_cons_1_1 _ _ (inv_nodup _ _ Hq)). set_solver.
    - intros p' y Hy. destruct (inv_alloc _ _ Hq p' y Hy) as (H1 & H2 & H3). split; [done|split; [done|]].
      destruct H3 as [[->|H3]%elem_of_cons|H3]; [right; simplify_eq; set_solver|by left|right; set_solver]. }
  rewrite (assert_sizes_ok _ _ Hq'), bind_ret_l. eexists _, _. split_and!; done.
Qed.

Lemma insert_sched held q p x :
  inv (p :: held) q → heap q !! p = Some x → ∀ id,
  sched (set_active ({[(p, Timer.sequence_ x)]} ∪ activeTimers_ q)
           (set_timers (StdMap.insert (Timer.expiration_ x, p) tt (timers_ q)) q)) id
  = if decide (id = (p, Timer.sequence_ x)) then Some x else sched q id.
Proof.
  intros Hq Hx id. unfold sched. cbn. destruct (inv_held _ _ Hq p) as [_ Hna]; [left|].
  repeat case_decide; subst; set_solver.
Qed.

(** ** Cancelling *)

Lemma cancelInLoop_ok held q id :
  inv held q →
  ∃ q', cancelInLoop id q = Done q' ∧ inv held q' ∧
    (∀ p, p ∈ held → heap q' !! p = heap q !! p) ∧
    (∀ i, sched q' i = if decide (i = id) then None else sched q i) ∧
    cancelingTimers_ q' = (if decide (id ∉ activeTimers_ q ∧ callingExpiredTimers_ q = true)
                           then {[id]} ∪ cancelingTimers_ q else cancelingTimers_ q) ∧
    timers_ q' `sublist_of` timers_ q ∧
    callingExpiredTimers_ q' = callingExpiredTimers_ q ∧ s_numCreated_ q' = s_numCreated_ q ∧
    pendingFunctors q' = pendingFunctors q ∧ ran q' = ran q ∧ settime q' = settime q.
Proof.
  intros Hq. unfold cancelInLoop. rewrite (assert_sizes_ok _ _ Hq), bind_ret_l.
  destruct id as [p s]. case_decide as Hid.
  - destruct (inv_active _ _ Hq p s Hid) as (x & Hx & Hs & Hf). cbn [fst].
    rewrite (deref_ok _ _ _ Hx), bind_ret_l.
    pose proof (StdMap.erase_count (Timer.expiration_ x, p) (timers_ q)) as Hc. rewrite Hf in Hc.
    pose proof (StdMap.length_erase (Timer.expiration_ x, p) (timers_ q)) as Hl.
    pose proof (StdMap.wf_erase (Timer.expiration_ x, p) _ (inv_wf _ _ Hq)) as Hw.
    pose proof (StdMap.find_erase_eq (Timer.expiration_ x, p) _ (inv_wf _ _ Hq)) as He1.
    pose proof (λ k, StdMap.find_erase_ne k (Timer.expiration_ x, p) _ (inv_wf _ _ Hq)) as He2.
    destruct (StdMap.erase _ _) as [ts n] eqn:Ee. cbn in Hc, Hl, Hw, He1, He2. subst n.
    rewrite cassert_bind by done. unfold delete_timer. rewrite (deref_ok _ _ x) by done. rewrite !bind_ret_l.
    set (q' := set_active _ _).
    assert (Hq' : inv held q').
    { split; cbn.
      - done.
      - intros e Hfe. assert (e ≠ (Timer.expiration_ x, p)) as Hne by congruence.
        rewrite He2 in Hfe by done. destruct (inv_entry _ _ Hq e Hfe) as (y & Hy & Hye & Hya).
        exists y. assert (e.2 ≠ p). { intros <-. apply Hne. destruct e. cbn in *. congruence. }
        rewrite lookup_delete_ne by done. set_solver.
      - intros p' s' [Hp Hnp]%elem_of_difference. destruct (inv_active _ _ Hq p' s' Hp) as (y & Hy & Hsy & Hfy).
        assert (p' ≠ p) by (intros ->; set_solver). exists y. rewrite lookup_delete_ne by done.
        split_and!; [done..|]. rewrite He2; [done|congruence].
      - rewrite size_difference by set_solver. rewrite size_singleton, <-(inv_size _ _ Hq). lia.
      - apply Hq.
      - intros p' Hp'. destruct (inv_held _ _ Hq p' Hp') as [Ha Hb]. split; [|set_solver].
        rewrite lookup_delete_ne; [done|]. intros ->. by apply (Hb s).
      - intros p' y [Hne Hy]%lookup_delete_Some. destruct (inv_alloc _ _ Hq p' y Hy) as (H1 & H2 & H3).
        split; [done|split; [done|]]. destruct H3; [by left|right; set_solver]. }
    rewrite (assert_sizes_ok _ _ Hq'), bind_ret_l. exists q'. split; [done|].
    split; [done|]. cbn. split_and!; try done.
    + intros p' Hp'. destruct (inv_held _ _ Hq p' Hp') as [_ Hb]. rewrite lookup_delete_ne; [done|].
      intros ->. by apply (Hb s).
    + intros [p' s']. unfold sched. cbn. destruct (decide ((p', s') = (p, s))) as [[= -> ->]|Hne].
      { by rewrite decide_False by set_solver. }
      destruct (decide ((p', s') ∈ activeTimers_ q)) as [Ha|Ha]; [|by rewrite decide_False by set_solver].
      rewrite decide_True by set_solver. rewrite lookup_delete_ne; [done|]. intros ->.
      by rewrite (active_inj _ _ _ _ _ Hq Ha Hid) in Hne.
    + rewrite decide_False; [done|]. naive_solver.
    + pose proof (StdMap.erase_sublist (Timer.expiration_ x, p) (timers_ q)) as Hsub. by rewrite Ee in Hsub.
  - assert (Hs : ∀ i, sched q i = if decide (i = (p, s)) then None else sched q i).
    { intros i. case_decide; [|done]. subst. unfold sched. by rewrite decide_False. }
    destruct (callingExpiredTimers_ q) eqn:Ec.
    + eexists (set_canceling _ q). rewrite bind_ret_l. unfold assert_sizes. cbn.
      fold (assert_sizes q). rewrite (assert_sizes_ok _ _ Hq), bind_ret_l. split; [done|].
      split; [by apply (inv_same _ q)|]. rewrite decide_True by done. by split_and!.
    + exists q. rewrite bind_ret_l, (assert_sizes_ok _ _ Hq), bind_ret_l. split; [done|].
      split; [done|]. rewrite decide_False by naive_solver. by split_and!.
Qed.

(** ** Arming *)

(** When the descriptor expires, in microseconds: at a reading [c] of the clock
    it was armed for [sec] seconds and [nsec] nanoseconds. *)
Definition alarm (st : Z * (Z * Z)) : Z :=
  let '(c, (sec, nsec)) := st in c + sec * Timestamp.kMicroSecondsPerSecond + nsec / 1000.

(** The descriptor is armed, at the latest for [when] or for 100 microseconds
    after it was armed, and with a valid [timespec]. *)
Definition armed_for (when : Z) q : Prop :=
  ∃ c sec nsec, settime q = Some (c, (sec, nsec)) ∧ 0 ≤ sec ∧ 0 ≤ nsec < 10 ^ 9 ∧
    alarm (c, (sec, nsec)) ≤ Z.max (c + 100) when.

(** ... for the first timer, if its time satisfies [P]. *)
Definition armed (P : Z → Prop) q : Prop :=
  match timers_ q with
  | [] => True
  | (e, _) :: _ => P e.1 → armed_for e.1 q
  end.
Definition downward (P : Z → Prop) : Prop := ∀ a b, a ≤ b → P b → P a.

Lemma armed_for_mono q q' w w' : settime q' = settime q → w ≤ w' → armed_for w q → armed_for w' q'.
Proof. intros E Hw (c & sec & nsec & ? & ? & ? & ?). exists c, sec, nsec. rewrite E. split_and!; (done || lia). Qed.

Lemma pair_lt_fst a b : pair_lt a b = true → a.1 ≤ b.1.
Proof. unfold pair_lt. destruct (Z.ltb_spec a.1 b.1), (Z.ltb_spec b.1 a.1); cbn; (done || lia). Qed.

Lemma armed_sublist P q q' :
  downward P → StdMap.wf (timers_ q) → timers_ q' `sublist_of` timers_ q → settime q' = settime q →
  armed P q → armed P q'.
Proof.
  intros HP Hw Hsub E. unfold armed. destruct (timers_ q') as [|[e' []] l']; [done|].
  destruct (timers_ q) as [|[e []] l]; [by apply sublist_nil_r in Hsub|]. intros Ha Hp.
  assert (e.1 ≤ e'.1) as Hle.
  { apply sublist_cons_r in Hsub as [Hsub|(l0 & [= -> ->] & _)]; [|lia].
    apply StdMap.wf_cons in Hw as [_ Hf]. rewrite Forall_forall in Hf.
    assert (Hin : (e', tt) ∈ l) by (eapply elem_of_sublist; [|exact Hsub]; left).
    apply Hf in Hin. by apply pair_lt_fst. }
  eapply armed_for_mono; [exact E|exact Hle|]. apply Ha. by eapply HP.
Qed.

Lemma resetTimerfd_ok w c q :
  - time_bound ≤ w ≤ 2 * time_bound → clock_ok c →
  ∃ ts, resetTimerfd w c q = Done (set_settime (Some (c, ts)) q) ∧
        armed_for w (set_settime (Some (c, ts)) q).
Proof.
  unfold clock_ok, time_bound. intros Hw Hc. unfold resetTimerfd, howMuchTimeFromNow.
  rewrite int64_ok, !bind_ret_l by lia. eexists; split; [done|].
  eexists _, _, _. split; [done|]. unfold alarm, Timestamp.kMicroSecondsPerSecond. cbn [fst snd].
  destruct (Z.ltb_spec (w - c) 100).
  { change (Z.quot 100 (1000 * 1000)) with 0. change (Z.rem 100 (1000 * 1000) * 1000) with 100000.
    change (100000 / 1000) with 100. lia. }
  split_and!; [div_lia..|]. rewrite Z.div_mul by done.
  pose proof (Z.quot_rem' (w - c) (1000 * 1000)). lia.
Qed.

Lemma insert_head p w (l : list (Entry * unit)) :
  StdMap.find (w, p) l = None →
  match StdMap.insert (w, p) tt l with
  | [] => False
  | (e, _) :: _ => if match l with [] => true | (e, _) :: _ => w <? e.1 end then e = (w, p)
                   else ∃ e' l', l = (e', tt) :: l' ∧ (e = e' ∨ (e = (w, p) ∧ e'.1 ≤ w))
  end.
Proof.
  intros Hf. unfold StdMap.insert. rewrite Hf. destruct l as [|[e []] l]; cbn; [done|].
  unfold pair_lt. destruct e as [a b]. cbn.
  destruct (Z.ltb_spec a w), (Z.ltb_spec w a); cbn; try lia; try done; try (eexists _, _; by eauto).
  destruct (Z.ltb_spec b p), (Z.ltb_spec p b); cbn; (eexists _, _; split; [done|]); auto;
    right; split; (done || lia || f_equal; lia).
Qed.

(** ** Adding in the loop *)

Lemma addTimerInLoop_ok held q p x c :
  inv (p :: held) q → heap q !! p = Some x → clock_ok c →
  ∃ q', addTimerInLoop p c q = Done q' ∧ inv held q' ∧ heap q' = heap q ∧
    (∀ id, sched q' id = if decide (id = (p, Timer.sequence_ x)) then Some x else sched q id) ∧
    (∀ P, downward P → armed P q → armed P q') ∧
    cancelingTimers_ q' = cancelingTimers_ q ∧ callingExpiredTimers_ q' = callingExpiredTimers_ q ∧
    s_numCreated_ q' = s_numCreated_ q ∧ pendingFunctors q' = pendingFunctors q ∧ ran q' = ran q.
Proof.
  intros Hq Hx Hc. destruct (insert_ok held q p x Hq Hx) as (b & q1 & Hi & Hq1 & Eq1 & Hb).
  pose proof (insert_sched held q p x Hq Hx) as Hs. rewrite <-Eq1 in Hs.
  unfold addTimerInLoop. rewrite Hi, bind_ret_l.
  assert (Hhead := insert_head p (Timer.expiration_ x) (timers_ q)).
  assert (Hx1 : heap q1 !! p = Some x) by (by rewrite Eq1).
  destruct (inv_alloc _ _ Hq1 p x Hx1) as (_ & (Hexp & _) & _).
  assert (Hnf := held_not_listed _ q p (Timer.expiration_ x) Hq (list_elem_of_here _ _)).
  specialize (Hhead Hnf). rewrite <-Hb in Hhead. destruct b.
  - rewrite (deref_ok _ _ _ Hx1), bind_ret_l.
    destruct (resetTimerfd_ok (Timer.expiration_ x) c q1 Hexp Hc) as (ts & Hr & Ha).
    rewrite Hr. eexists; split; [done|]. split; [by apply (inv_same _ q1)|].
    rewrite Eq1 in *. cbn in *. split_and!; try done.
    intros P _ _. unfold armed. cbn. destruct (StdMap.insert _ _ _) as [|[e []] l]; [done|]. by subst e.
  - exists q1. split; [done|]. split; [done|]. rewrite Eq1 in *. cbn in *. split_and!; try done.
    intros P HP. unfold armed. cbn. destruct (StdMap.insert _ _ _) as [|[e []] l]; [done|].
    destruct Hhead as (e' & l' & El & He). rewrite El. intros Ha Hp.
    assert (e'.1 ≤ e.1) by (destruct He as [->|[-> ?]]; cbn; lia).
    eapply armed_for_mono; [done|eassumption|]. apply Ha. by eapply HP.
Qed.

(** * Specification *)

(** A timer queue as its users see it: timers scheduled under identifiers. *)
Inductive request := Schedule (id : TimerId) (x : Timer.t) | Unschedule (id : TimerId).

Record spec := mkSpec {
  scheduled : gmap TimerId Timer.t;
  cancelled : gset TimerId;          (* cancelled in this round of callbacks *)
  calling : bool;                    (* a round of callbacks is running *)
  created : Z;
  queued : list request;             (* from other threads, not yet done *)
  fired : list TimerId
}.

Definition spec_init : spec := mkSpec ∅ ∅ false 0 [] [].

Definition spec_schedule (id : TimerId) (x : Timer.t) (s : spec) : spec :=
  mkSpec (<[id := x]> (scheduled s)) (cancelled s) (calling s) (created s) (queued s) (fired s).
Definition spec_cancel (id : TimerId) (s : spec) : spec :=
  if decide (is_Some (scheduled s !! id)) then
    mkSpec (delete id (scheduled s)) (cancelled s) (calling s) (created s) (queued s) (fired s)
  else if calling s then
    mkSpec (scheduled s) ({[id]} ∪ cancelled s) (calling s) (created s) (queued s) (fired s)
  else s.
Definition spec_create (s : spec) : spec :=
  mkSpec (scheduled s) (cancelled s) (calling s) (created s + 1) (queued s) (fired s).
Definition spec_queue (r : request) (s : spec) : spec :=
  mkSpec (scheduled s) (cancelled s) (calling s) (created s) (queued s ++ [r]) (fired s).

Definition spec_request (r : request) (s : spec) : spec :=
  match r with Schedule id x => spec_schedule id x s | Unschedule id => spec_cancel id s end.

Definition spec_perform (a : action) (s : spec) : spec :=
  match a with
  | Add p cb when interval _ =>
      let n := created s + 1 in
      spec_schedule (p, n) (Timer.make cb when interval n) (spec_create s)
  | AddQueued p cb when interval =>
      let n := created s + 1 in
      spec_queue (Schedule (p, n) (Timer.make cb when interval n)) (spec_create s)
  | Cancel id => spec_cancel id s
  | CancelQueued id => spec_queue (Unschedule id) s
  end.
Definition spec_perform_all (l : list action) (s : spec) : spec := foldl (λ s a, spec_perform a s) s l.

(** A round: the expired timers leave the queue, their callbacks run in turn,
    and those that repeat and were not cancelled are scheduled anew. *)
Definition spec_expire (now : Z) (s : spec) : spec :=
  mkSpec (filter (λ e, now < Timer.expiration_ e.2) (scheduled s)) ∅ true (created s) (queued s) (fired s).
Definition spec_fire (behaviour : TimerId → list action) (id : TimerId) (s : spec) : spec :=
  spec_perform_all (behaviour id)
    (mkSpec (scheduled s) (cancelled s) (calling s) (created s) (queued s) (fired s ++ [id])).
Definition spec_again (now : Z) (e : TimerId * Timer.t) (s : spec) : spec :=
  if Timer.repeat_ e.2 && bool_decide (e.1 ∉ cancelled s) then
    match Timer.restart now e.2 with Done x => spec_schedule e.1 x s | Fault _ => s end
  else s.
Definition spec_round (now : Z) (behaviour : TimerId → list action)
    (expired : list (TimerId * Timer.t)) (s : spec) : spec :=
  let s := foldl (λ s e, spec_fire behaviour e.1 s) (spec_expire now s) expired in
  let s := mkSpec (scheduled s) (cancelled s) false (created s) (queued s) (fired s) in
  foldl (λ s e, spec_again now e s) s expired.

(** ** The queue implements it *)

Definition pending_timers (fs : list functor) : list Z :=
  omap (λ f, match f with AddTimerInLoop p => Some p | CancelInLoop _ => None end) fs.

Definition request_of q (f : functor) (r : request) : Prop :=
  match f, r with
  | AddTimerInLoop p, Schedule id x => heap q !! p = Some x ∧ id = (p, Timer.sequence_ x)
  | CancelInLoop id, Unschedule id' => id = id'
  | _, _ => False
  end.

Record implements (P : Z → Prop) held q (s : spec) : Prop := mkImpl {
  impl_inv : inv (held ++ pending_timers (pendingFunctors q)) q;
  impl_armed : armed P q;
  impl_scheduled id : scheduled s !! id = sched q id;
  impl_cancelled : cancelled s = cancelingTimers_ q;
  impl_calling : calling s = callingExpiredTimers_ q;
  impl_created : created s = s_numCreated_ q;
  impl_queued : Forall2 (request_of q) (pendingFunctors q) (queued s);
  impl_fired : fired s = ran q
}.

Definition action_ok (a : action) : Prop :=
  match a with
  | Add _ _ when interval clock => when_ok when ∧ interval_ok interval ∧ clock_ok clock
  | AddQueued _ _ when interval => when_ok when ∧ interval_ok interval
  | Cancel _ | CancelQueued _ => True
  end.

Definition no_memory : fault := Thrown "std::bad_alloc".

(** [m] runs out of memory or ends in a state [Q] accepts. *)
Definition ends (m : outcome t) (Q : t → Prop) : Prop :=
  match m with Done q => Q q | Fault f => f = no_memory end.
Lemma ends_bind {A} (m : outcome A) (k : A → outcome t) Q :
  match m with Done a => ends (k a) Q | Fault f => f = no_memory end → ends (m ≫= k) Q.
Proof. by destruct m. Qed.
Lemma ends_mono m (Q Q' : t → Prop) : ends m Q → (∀ q, Q q → Q' q) → ends m Q'.
Proof. destruct m; cbn; auto. Qed.

Lemma requests_mono q q' fs rs :
  (∀ p, p ∈ pending_timers fs → heap q' !! p = heap q !! p) →
  Forall2 (request_of q) fs rs → Forall2 (request_of q') fs rs.
Proof.
  intros Hp H. induction H as [|f r fs rs Hf H IH]; constructor.
  - destruct f, r; try done. cbn in *. rewrite Hp; [done|]. by left.
  - apply IH. intros p Hin. apply Hp. unfold pending_timers. destruct f; cbn; [by right|done].
Qed.

(** A new timer, held by who made it. *)
Lemma new_timer_ok held q p cb w i :
  inv held q → when_ok w → interval_ok i →
  match new_timer p cb w i q with
  | Done (id, q') =>
      let x := Timer.make cb w i (s_numCreated_ q + 1) in
      id = (p, s_numCreated_ q + 1) ∧ heap q !! p = None ∧
      q' = set_created (s_numCreated_ q + 1) (set_heap (<[p := x]> (heap q)) q) ∧ inv (p :: held) q' ∧
      (∀ id, sched q' id = sched q id)
  | Fault f => f = no_memory
  end.
Proof.
  intros Hq Hw Hi. unfold new_timer. case_bool_decide as Hp; [|done]. cbn [andb].
  destruct (Z.ltb_spec 0 p), (Z.ltb_spec p UINTPTR_MAX); cbn [andb]; try done.
  assert (Hna : ∀ s, (p, s) ∉ activeTimers_ q).
  { intros s Hs. destruct (inv_active _ _ Hq _ _ Hs) as (x & Hx & _). congruence. }
  assert (Hnh : p ∉ held).
  { intros Hin. destruct (inv_held _ _ Hq p Hin) as [[x Hx] _]. congruence. }
  cbv zeta. split_and!; [done|done|done| |].
  - destruct Hq. split; cbn; try done.
    + intros e He. destruct (inv_entry0 e He) as (x & Hx & ?). exists x. rewrite lookup_insert_ne; [done|congruence].
    + intros p' s Hs. destruct (inv_active0 p' s Hs) as (x & Hx & ?). exists x. rewrite lookup_insert_ne; [done|congruence].
    + by constructor.
    + intros p' [->|Hp']%elem_of_cons; [by rewrite lookup_insert_eq|].
      destruct (inv_held0 p' Hp') as [Ha Hb]. split; [|done]. rewrite lookup_insert_ne; [done|]. by intros ->.
    + intros p' x [[<- <-]|[Hne Hx]]%lookup_insert_Some.
      * split; [done|split; [|left; left]]. unfold when_ok, time_bound in *. split; [cbn; unfold time_bound; lia|by split].
      * destruct (inv_alloc0 p' x Hx) as (H1 & H2 & H3). split; [done|split; [done|]].
        destruct H3; [left; by right|by right].
  - intros [p' s]. unfold sched. cbn. case_decide; [|done]. rewrite lookup_insert_ne; [done|]. intros ->. by apply (Hna s).
Qed.

(** A step that does not touch what [held] refers to. *)
Definition keeps held q q' : Prop := ∀ p, p ∈ held → heap q' !! p = heap q !! p.

Lemma cancelInLoop_implements P held q s id :
  downward P → implements P held q s →
  ∃ q', cancelInLoop id q = Done q' ∧ implements P held q' (spec_cancel id s) ∧ keeps held q q'.
Proof.
  intros HP [Hq Ha Hs Hc1 Hc2 Hn Hp Hr].
  destruct (cancelInLoop_ok _ q id Hq) as
    (q' & Hd & Hq' & Hk & Hs' & Hc1' & Hsub & Hc2' & Hn' & Hp' & Hr' & Hst').
  exists q'. split; [done|]. split; [|intros p Hin; apply Hk, elem_of_app; by left].
  assert (Hact : is_Some (scheduled s !! id) ↔ id ∈ activeTimers_ q).
  { rewrite Hs. split; [intros [x Hx]; apply (sched_Some _ _ _ _ Hq) in Hx; tauto|].
    intros Hin. destruct id as [p n]. destruct (inv_active _ _ Hq _ _ Hin) as (x & Hx & Hn0 & _).
    exists x. by apply (sched_Some _ _ _ _ Hq). }
  assert (Hreq : Forall2 (request_of q') (pendingFunctors q') (queued (spec_cancel id s))).
  { rewrite Hp'. replace (queued (spec_cancel id s)) with (queued s) by (unfold spec_cancel; destruct (decide (is_Some _)); [done|by destruct (calling s)]).
    eapply requests_mono; [|exact Hp]. intros p Hin. apply Hk, elem_of_app. by right. }
  split; try done.
  - by rewrite Hp'.
  - by eapply armed_sublist; [..|exact Ha]; [done|apply Hq|done|done].
  - intros i. rewrite Hs'. unfold spec_cancel. destruct (decide (is_Some (scheduled s !! id))) as [Hid|Hid]; cbn [scheduled].
    + destruct (decide (i = id)) as [->|Hne]; [apply lookup_delete_eq|by rewrite lookup_delete_ne].
    + assert (Hsame : scheduled (if calling s then
        mkSpec (scheduled s) ({[id]} ∪ cancelled s) (calling s) (created s) (queued s) (fired s) else s)
        = scheduled s) by (by destruct (calling s)).
      rewrite Hsame. destruct (decide (i = id)) as [->|]; [by apply eq_None_not_Some|done].
  - rewrite Hc1'. unfold spec_cancel. destruct (decide (is_Some (scheduled s !! id))) as [Hid|Hid]; cbn.
    + rewrite decide_False; [done|]. tauto.
    + destruct (calling s) eqn:E.
      * rewrite decide_True; [cbn; by rewrite Hc1|]. split; [tauto|congruence].
      * rewrite decide_False; [done|]. rewrite <-Hc2. naive_solver.
  - rewrite Hc2', <-Hc2. unfold spec_cancel. destruct (decide (is_Some _)); [done|].
    by destruct (calling s) eqn:E.
  - rewrite Hn'. unfold spec_cancel. destruct (decide (is_Some _)); [done|]. by destruct (calling s).
  - rewrite Hr'. unfold spec_cancel. destruct (decide (is_Some _)); [done|]. by destruct (calling s).
Qed.

Lemma addTimerInLoop_implements P held q s p x c :
  downward P → clock_ok c → heap q !! p = Some x → implements P (p :: held) q s →
  ∃ q', addTimerInLoop p c q = Done q' ∧
    implements P held q' (spec_schedule (p, Timer.sequence_ x) x s) ∧ heap q' = heap q.
Proof.
  intros HP Hc Hx [Hq Ha Hs Hc1 Hc2 Hn Hp Hr].
  destruct (addTimerInLoop_ok _ q p x c Hq Hx Hc) as
    (q' & Hd & Hq' & Hh & Hs' & Ha' & Hc1' & Hc2' & Hn' & Hp' & Hr').
  exists q'. split; [done|]. split; [|done]. split; cbn.
  - by rewrite Hp'.
  - by apply Ha'.
  - intros id. rewrite Hs'. case_decide; [subst; by rewrite lookup_insert_eq|].
    by rewrite lookup_insert_ne.
  - by rewrite Hc1'.
  - by rewrite Hc2'.
  - by rewrite Hn'.
  - rewrite Hp'. eapply requests_mono; [|exact Hp]. intros p' _. by rewrite Hh.
  - by rewrite Hr'.
Qed.

Lemma new_timer_implements P held q s p cb w i :
  implements P held q s → when_ok w → interval_ok i →
  match new_timer p cb w i q with
  | Done (id, q') =>
      let n := created s + 1 in
      id = (p, n) ∧ heap q' !! p = Some (Timer.make cb w i n) ∧
      implements P (p :: held) q' (spec_create s) ∧ keeps held q q'
  | Fault f => f = no_memory
  end.
Proof.
  intros [Hq Ha Hs Hc1 Hc2 Hn Hp Hr] Hw Hi. pose proof (new_timer_ok _ q p cb w i Hq Hw Hi) as H.
  destruct (new_timer p cb w i q) as [[id q']|]; [|done]. destruct H as (-> & Hnone & E & Hq' & Hs').
  rewrite Hn. subst q'. cbn.
  assert (Hk : ∀ p', is_Some (heap q !! p') → p' ≠ p) by (intros p' [y Hy] ->; congruence).
  split_and!; [done|by rewrite lookup_insert_eq| |].
  - split; cbn; try done.
    + intros id. rewrite Hs. symmetry. apply Hs'.
    + by rewrite Hn.
    + eapply requests_mono; [|exact Hp]. intros p' Hin. cbn. rewrite lookup_insert_ne; [done|].
      apply not_eq_sym, Hk. apply (inv_held _ _ Hq), elem_of_app. by right.
  - intros p' Hin. cbn. rewrite lookup_insert_ne; [done|].
    apply not_eq_sym, Hk, (inv_held _ _ Hq), elem_of_app. by left.
Qed.

Lemma pending_timers_snoc fs f : pending_timers (fs ++ [f]) = pending_timers fs ++ pending_timers [f].
Proof. unfold pending_timers. by rewrite omap_app. Qed.

(** Queueing a request. *)
Lemma queue_implements P held held' q s f r :
  implements P held q s → request_of q f r → held ≡ₚ pending_timers [f] ++ held' →
  implements P held' (set_pending (pendingFunctors q ++ [f]) q) (spec_queue r s).
Proof.
  intros [Hq Ha Hs Hc1 Hc2 Hn Hp Hr] Hf Hperm. split; cbn; try done.
  - apply (inv_same _ q); [done..|]. rewrite pending_timers_snoc.
    eapply inv_perm; [|exact Hq]. rewrite Hperm. solve_Permutation.
  - apply Forall2_app; [done|]. by repeat constructor.
Qed.

Lemma perform_implements P held q s a :
  downward P → action_ok a → implements P held q s →
  ends (perform a q) (λ q', implements P held q' (spec_perform a s) ∧ keeps held q q').
Proof.
  intros HP Ha Hi. destruct a as [p cb w i c|id|p cb w i|id]; cbn [perform spec_perform].
  - destruct Ha as (Hw & Hiv & Hc). unfold addTimer.
    pose proof (new_timer_implements P held q s p cb w i Hi Hw Hiv) as H.
    destruct (new_timer p cb w i q) as [[id q1]|f]; [|exact H]. destruct H as (-> & Hx & Hi1 & Hk1).
    rewrite bind_ret_l.
    destruct (addTimerInLoop_implements P held q1 _ p _ c HP Hc Hx Hi1) as (q2 & Hd & Hi2 & Hh).
    rewrite Hd, !bind_ret_l. split; [done|]. intros p' Hin. rewrite Hh. by apply Hk1.
  - destruct (cancelInLoop_implements P held q s id HP Hi) as (q' & Hd & Hi' & Hk).
    unfold cancel. by rewrite Hd.
  - destruct Ha as (Hw & Hiv). unfold addTimer_queued.
    pose proof (new_timer_implements P held q s p cb w i Hi Hw Hiv) as H.
    destruct (new_timer p cb w i q) as [[id q1]|f]; [|exact H]. destruct H as (-> & Hx & Hi1 & Hk1).
    rewrite !bind_ret_l. split; [|done].
    eapply queue_implements; [exact Hi1|by split|]. done.
  - split; [|done]. by eapply queue_implements.
Qed.

Lemma perform_all_implements P held q s l :
  downward P → Forall action_ok l → implements P held q s →
  ends (perform_all l q) (λ q', implements P held q' (spec_perform_all l s) ∧ keeps held q q').
Proof.
  intros HP Hl. revert q s. induction Hl as [|a l Ha Hl IH]; intros q s Hi; [by split|].
  cbn [perform_all]. apply ends_bind. pose proof (perform_implements P held q s a HP Ha Hi) as H.
  destruct (perform a q) as [q1|f]; [|done]. destruct H as [Hi1 Hk1].
  eapply ends_mono; [by apply IH|]. intros q' [Hi' Hk']. split; [done|].
  intros p Hp. rewrite Hk' by done. by apply Hk1.
Qed.

(** ** Expiry *)

(** An entry of the list and the timer it stands for. *)
Definition entry_of q (e : Entry) (ix : TimerId * Timer.t) : Prop :=
  heap q !! e.2 = Some ix.2 ∧ ix.1 = (e.2, Timer.sequence_ ix.2) ∧ e.1 = Timer.expiration_ ix.2.

Lemma split_below_spec key l :
  StdMap.wf l → let '(a, b) := split_below key l in
  l = a ++ b ∧ Forall (λ e, pair_lt e.1 key = true) a ∧ Forall (λ e, pair_lt e.1 key = false) b.
Proof.
  induction l as [|[e []] l IH]; intros Hw; cbn; [done|].
  pose proof (proj1 (StdMap.wf_cons _ _ _) Hw) as [Hw' Hf]. destruct (pair_lt e key) eqn:E.
  - specialize (IH Hw'). destruct (split_below key l) as [a b]. destruct IH as (-> & Ha & Hb).
    split_and!; [done|by constructor|done].
  - split_and!; [done|constructor|]. constructor; [done|]. eapply Forall_impl; [exact Hf|].
    intros [e' []] Hlt. cbn in *. destruct (pair_lt e' key) eqn:E'; [|done].
    pose proof (key_lt_trans _ _ _ Hlt E') as Ht. cbn in Ht. congruence.
Qed.

Lemma pair_lt_sentry e now : e.2 < UINTPTR_MAX → pair_lt e (now, UINTPTR_MAX) = (e.1 <=? now).
Proof.
  intros He. unfold pair_lt. cbn. rewrite (proj2 (Z.ltb_lt _ _) He).
  destruct (Z.ltb_spec e.1 now), (Z.ltb_spec now e.1), (Z.leb_spec e.1 now); cbn; (done || lia).
Qed.

(** The first timer leaves the queue. *)
Lemma pop_ok held q e l x :
  inv held q → timers_ q = (e, tt) :: l → heap q !! e.2 = Some x →
  inv (e.2 :: held) (set_active (activeTimers_ q ∖ {[(e.2, Timer.sequence_ x)]}) (set_timers l q)) ∧
  (e.2, Timer.sequence_ x) ∈ activeTimers_ q ∧ e.1 = Timer.expiration_ x.
Proof.
  intros Hq El Hx. pose proof (inv_wf _ _ Hq) as Hw. rewrite El in Hw.
  pose proof (λ k, StdMap.find_cons k _ _ _ Hw) as Hfc. rewrite <-El in Hfc.
  assert (Hfe : StdMap.find e (timers_ q) = Some tt) by (rewrite Hfc; by rewrite decide_True).
  destruct (inv_entry _ _ Hq e Hfe) as (x' & Hx' & He & Hact). assert (x' = x) as -> by congruence.
  split; [|done]. split; cbn.
  - by apply StdMap.wf_cons in Hw as [Hw _].
  - intros e' Hf'. assert (e' ≠ e) as Hne.
    { intros ->. apply StdMap.wf_cons in Hw as [_ Hf]. by rewrite StdMap.find_below in Hf'. }
    specialize (Hfc e'). rewrite decide_False, Hf' in Hfc by done.
    destruct (inv_entry _ _ Hq e' Hfc) as (y & Hy & Hey & Hay). exists y. split_and!; [done|done|].
    apply elem_of_difference. split; [done|]. intros [= E1 E2]%elem_of_singleton.
    apply Hne. destruct e, e'. cbn in *. congruence.
  - intros p s [Hp Hnp]%elem_of_difference. destruct (inv_active _ _ Hq p s Hp) as (y & Hy & Hs & Hf).
    exists y. split_and!; [done..|]. rewrite Hfc in Hf. case_decide as Hd; [|done].
    destruct e as [e1 e2]. injection Hd as ? ?. cbn in *. subst. set_solver.
  - rewrite size_difference by set_solver. rewrite size_singleton, <-(inv_size _ _ Hq), El. cbn. lia.
  - constructor; [|apply Hq]. intros Hin. destruct (inv_held _ _ Hq _ Hin) as [_ Hb]. by apply (Hb (Timer.sequence_ x)).
  - intros p [->|Hp]%elem_of_cons.
    + split; [by eexists|]. intros s [Ha Hn]%elem_of_difference.
      pose proof (active_inj _ _ _ _ _ Hq Ha Hact). subst. set_solver.
    + destruct (inv_held _ _ Hq p Hp) as [Ha Hb]. split; [done|set_solver].
  - intros p y Hy. destruct (inv_alloc _ _ Hq p y Hy) as (H1 & H2 & H3). split; [done|split; [done|]].
    destruct H3 as [H3|H3]; [left; by right|]. destruct (decide (p = e.2)) as [->|]; [left; left|right].
    set_solver.
Qed.

Lemma deactivate_ok held q b a :
  inv held q → timers_ q = b ++ a →
  ∃ X l, deactivate b.*1 (set_timers a q) = Done (set_active X (set_timers a q)) ∧
    inv (b.*1.*2 ++ held) (set_active X (set_timers a q)) ∧ Forall2 (entry_of q) b.*1 l ∧
    (∀ id, id ∈ X ↔ id ∈ activeTimers_ q ∧ id ∉ l.*1) ∧ Forall (λ ix, ix.1 ∈ activeTimers_ q) l.
Proof.
  revert held q. induction b as [|[e []] b IH]; intros held q Hq El.
  - cbn in El. subst a. exists (activeTimers_ q), [].
    assert (set_active (activeTimers_ q) (set_timers (timers_ q) q) = q) as -> by (by destruct q).
    assert (set_timers (timers_ q) q = q) as -> by (by destruct q).
    split_and!; [done|done|constructor|set_solver|constructor].
  - assert (Hfe : StdMap.find e (timers_ q) = Some tt).
    { pose proof (inv_wf _ _ Hq) as Hw. rewrite El in *. cbn [app] in *.
      rewrite StdMap.find_cons by done. by rewrite decide_True. }
    destruct (inv_entry _ _ Hq e Hfe) as (x & Hx & He & Hact).
    destruct (pop_ok held q e (b ++ a) x Hq El Hx) as [Hq1 _].
    destruct (IH _ _ Hq1) as (X & l & Hd & Hi & Hl & HX & Hla); [done|].
    exists X, (((e.2, Timer.sequence_ x), x) :: l). cbn [deactivate fmap list_fmap fst].
    rewrite (deref_ok _ _ x) by done. rewrite bind_ret_l, cassert_bind by (by apply bool_decide_eq_true_2).
    split_and!.
    + exact Hd.
    + eapply inv_perm; [|exact Hi]. cbn. symmetry. apply Permutation_middle.
    + constructor; [by split_and!|exact Hl].
    + intros id. rewrite HX. cbn. set_solver.
    + constructor; [done|]. eapply Forall_impl; [exact Hla|]. intros ix. cbn. set_solver.
Qed.

(** The timers of a round: all that have expired, in the order of their times
    (and of their addresses). *)
Definition before (a b : TimerId * Timer.t) : Prop :=
  pair_lt (Timer.expiration_ a.2, a.1.1) (Timer.expiration_ b.2, b.1.1) = true.
Definition expired_list (now : Z) (s : spec) (l : list (TimerId * Timer.t)) : Prop :=
  StronglySorted before l ∧
  ∀ id x, (id, x) ∈ l ↔ scheduled s !! id = Some x ∧ Timer.expiration_ x ≤ now.

Lemma entries_keys q es l :
  Forall2 (entry_of q) es l → es = (λ ix, (Timer.expiration_ ix.2, ix.1.1)) <$> l.
Proof.
  induction 1 as [|[e1 e2] [[p s] x] es l (Hx & Hid & He) _ IH]; [done|]. cbn in *.
  rewrite IH. injection Hid as -> ->. by rewrite He.
Qed.

Lemma entries_sorted q (b : list (Entry * unit)) a l :
  StdMap.wf (b ++ a) → Forall2 (entry_of q) b.*1 l → StronglySorted before l.
Proof.
  intros Hw Hl. apply entries_keys in Hl. revert b Hw Hl.
  induction l as [|ix l IH]; intros [|[e []] b] Hw Hl; try done; [constructor|]. cbn in *.
  injection Hl as -> Hl. apply StdMap.wf_cons in Hw as [Hw Hf]. constructor; [by eapply IH|].
  apply Forall_forall. intros iy Hy. unfold before. rewrite Forall_forall in Hf.
  apply (Hf (_, tt)), elem_of_app. left.
  assert (Hin : (Timer.expiration_ iy.2, iy.1.1) ∈ b.*1).
  { rewrite Hl. by apply (list_elem_of_fmap_2 (λ ix, (Timer.expiration_ ix.2, ix.1.1))). }
  apply list_elem_of_fmap in Hin as ([e []] & He & Hin). cbn in He. by rewrite He.
Qed.

Lemma getExpired_ok held now q :
  inv held q →
  ∃ es l q' X, getExpired now q = Done (es, q') ∧ q' = set_active X (set_timers (timers_ q') q) ∧
    inv (es.*2 ++ held) q' ∧ Forall2 (entry_of q) es l ∧ StronglySorted before l ∧
    (∀ id x, (id, x) ∈ l ↔ sched q id = Some x ∧ Timer.expiration_ x ≤ now) ∧
    (∀ id x, sched q' id = Some x ↔ sched q id = Some x ∧ now < Timer.expiration_ x) ∧
    Forall (λ e, now < e.1.1) (timers_ q').
Proof.
  intros Hq. unfold getExpired. rewrite (assert_sizes_ok _ _ Hq), bind_ret_l.
  pose proof (split_below_spec (now, UINTPTR_MAX) _ (inv_wf _ _ Hq)) as Hsp.
  destruct (split_below _ (timers_ q)) as [b a]. destruct Hsp as (El & Hb & Ha).
  assert (Hlt : ∀ e, e ∈ timers_ q → pair_lt e.1 (now, UINTPTR_MAX) = (e.1.1 <=? now)).
  { intros [e []] He. apply StdMap.find_In in He; [|apply Hq].
    destruct (inv_entry _ _ Hq e He) as (x & Hx & _). apply pair_lt_sentry.
    by destruct (inv_alloc _ _ Hq _ _ Hx) as [[_ ?] _]. }
  assert (Hb' : Forall (λ e, e.1.1 ≤ now) b).
  { apply Forall_forall. intros e He. rewrite Forall_forall in Hb. specialize (Hb e He).
    rewrite Hlt in Hb; [lia|]. rewrite El. apply elem_of_app. by left. }
  assert (Ha' : Forall (λ e, now < e.1.1) a).
  { apply Forall_forall. intros e He. rewrite Forall_forall in Ha. specialize (Ha e He).
    rewrite Hlt in Ha; [lia|]. rewrite El. apply elem_of_app. by right. }
  rewrite cassert_bind.
  2: { destruct a as [|[e []] a]; [done|]. apply Z.ltb_lt. by apply Forall_inv in Ha'. }
  destruct (deactivate_ok held q b a Hq El) as (X & l & Hd & Hi & Hl & HX & Hla).
  rewrite Hd, bind_ret_l, (assert_sizes_ok _ _ Hi), bind_ret_l.
  assert (Hmem : ∀ id x, (id, x) ∈ l ↔ sched q id = Some x ∧ Timer.expiration_ x ≤ now).
  { intros id x. split.
    - intros Hin. destruct (list_elem_of_lookup_1 _ _ Hin) as [k Hk].
      destruct (Forall2_lookup_r _ _ _ _ _ Hl Hk) as (e & He & (Hx & Hid & Hexp)). cbn in *.
      rewrite Forall_forall in Hla. specialize (Hla _ Hin). cbn in Hla. rewrite <-Hexp. split.
      + apply (sched_Some _ _ _ _ Hq). rewrite Hid in *. done.
      + apply list_lookup_fmap_Some in He as ([e' []] & -> & He). rewrite Forall_forall in Hb'.
        by apply (Hb' (e', tt)), (list_elem_of_lookup_2 _ k).
    - intros [Hs Hexp]. destruct id as [p n]. pose proof (inv_sched_entry _ _ _ _ _ Hq Hs) as Hf.
      apply StdMap.find_elem in Hf. rewrite El in Hf. apply elem_of_app in Hf as [Hf|Hf].
      2: { rewrite Forall_forall in Ha'. specialize (Ha' _ Hf). cbn in Ha'. lia. }
      apply (list_elem_of_fmap_2 fst) in Hf. destruct (list_elem_of_lookup_1 _ _ Hf) as [k Hk].
      destruct (Forall2_lookup_l _ _ _ _ _ Hl Hk) as ([id y] & Hy & (Hx & Hid & _)). cbn in *.
      apply (sched_Some _ _ _ _ Hq) in Hs as (_ & Hx' & Hn). cbn in *. assert (y = x) as -> by congruence.
      apply (list_elem_of_lookup_2 _ k). by rewrite Hy, Hid, Hn. }
  exists b.*1, l, (set_active X (set_timers a q)), X. split_and!; try done.
  - by eapply entries_sorted; [rewrite <-El; apply Hq|].
  - intros id x. rewrite (sched_Some _ _ _ _ Hi). cbn. rewrite HX. rewrite (sched_Some _ _ _ _ Hq). split.
    + intros ((Hact & Hnl) & Hx & Hn). split; [done|]. apply Z.nle_gt. intros Hexp. apply Hnl.
      apply (list_elem_of_fmap_2 fst _ (id, x)), Hmem. split; [by apply (sched_Some _ _ _ _ Hq)|done].
    + intros ((Hact & Hx & Hn) & Hexp). split_and!; try done. intros Hin.
      apply list_elem_of_fmap in Hin as ([id' y] & -> & Hin). apply Hmem in Hin as [Hs Hle].
      apply (sched_Some _ _ _ _ Hq) in Hs as (_ & Hy & _). cbn in *. assert (y = x) as -> by congruence. lia.
Qed.

(** ** A round of callbacks *)

Definition behaviour_ok (behaviour : TimerId → list action) : Prop :=
  ∀ id, Forall action_ok (behaviour id).

Lemma entries_keep held q q' es l :
  keeps held q q' → (∀ e, e ∈ es → e.2 ∈ held) → Forall2 (entry_of q) es l → Forall2 (entry_of q') es l.
Proof.
  intros Hk Hh H. induction H as [|e ix es l (Hx & Hid & He) H IH]; constructor.
  - split_and!; try done. rewrite Hk; [done|]. apply Hh. left.
  - apply IH. intros e' He'. apply Hh. by right.
Qed.

Lemma run_expired_implements P held q s behaviour es l :
  downward P → behaviour_ok behaviour → implements P held q s →
  Forall2 (entry_of q) es l → (∀ e, e ∈ es → e.2 ∈ held) →
  ends (run_expired behaviour es q) (λ q',
    implements P held q' (foldl (λ s e, spec_fire behaviour e.1 s) s l) ∧ keeps held q q').
Proof.
  intros HP Hb Hi Hl. revert q s l Hi Hl. induction es as [|e es IH]; intros q s l Hi Hl Hh.
  { apply Forall2_nil_inv_l in Hl as ->. by split. }
  apply Forall2_cons_inv_l in Hl as ([id x] & l' & (Hx & Hid & He) & Hl & ->). cbn in Hx, Hid, He.
  cbn [run_expired foldl fst]. rewrite (deref_ok _ _ _ Hx), bind_ret_l, <-Hid. apply ends_bind.
  assert (Hi0 : implements P held (set_ran (ran q ++ [id]) q)
    (mkSpec (scheduled s) (cancelled s) (calling s) (created s) (queued s) (fired s ++ [id]))).
  { destruct Hi. split; cbn; try done; [by apply (inv_same _ q)|congruence]. }
  pose proof (perform_all_implements P held _ _ (behaviour id) HP (Hb id) Hi0) as H.
  destruct (perform_all _ _) as [q1|f]; [|done]. destruct H as [Hi1 Hk1].
  eapply ends_mono; [apply IH; [exact Hi1|exact (entries_keep _ _ _ _ _ Hk1 (λ e He, Hh e (list_elem_of_further _ _ _ He)) Hl)|]|].
  - intros e' He'. apply Hh. by right.
  - intros q' [Hi' Hk']. split; [done|]. intros p Hp. rewrite Hk' by done. by apply Hk1.
Qed.

(** ** [reset] *)

(** A held timer may be changed, or freed. *)
Lemma held_update_ok held q p x :
  inv (p :: held) q → timer_ok x → inv (p :: held) (set_heap (<[p := x]> (heap q)) q).
Proof.
  intros Hq Hx. destruct (inv_held _ _ Hq p) as [_ Hna]; [left|].
  split; cbn; try apply Hq.
  - intros e He. destruct (inv_entry _ _ Hq e He) as (y & Hy & ?). exists y.
    rewrite lookup_insert_ne; [done|]. intros ->. naive_solver.
  - intros p' s Hs. destruct (inv_active _ _ Hq p' s Hs) as (y & Hy & ?). exists y.
    rewrite lookup_insert_ne; [done|]. intros <-. naive_solver.
  - intros p' Hp'. destruct (inv_held _ _ Hq p' Hp') as [Ha Hb]. split; [|done].
    destruct (decide (p = p')) as [->|]; [by rewrite lookup_insert_eq|by rewrite lookup_insert_ne].
  - intros p' y [[<- <-]|[Hne Hy]]%lookup_insert_Some.
    + destruct (inv_held _ _ Hq p) as [[z Hz] _]; [left|].
      destruct (inv_alloc _ _ Hq p z Hz) as (H1 & _). split; [done|split; [done|left; left]].
    + by apply (inv_alloc _ _ Hq).
Qed.

Lemma held_delete_ok held q p :
  inv (p :: held) q → inv held (set_heap (delete p (heap q)) q).
Proof.
  intros Hq. destruct (inv_held _ _ Hq p) as [_ Hna]; [left|].
  pose proof (NoDup_cons_1_1 _ _ (inv_nodup _ _ Hq)) as Hnh. split; cbn; try apply Hq.
  - intros e He. destruct (inv_entry _ _ Hq e He) as (y & Hy & ?). exists y.
    rewrite lookup_delete_ne; [done|]. intros ->. naive_solver.
  - intros p' s Hs. destruct (inv_active _ _ Hq p' s Hs) as (y & Hy & ?). exists y.
    rewrite lookup_delete_ne; [done|]. intros <-. naive_solver.
  - by apply (NoDup_cons_1_2 p), Hq.
  - intros p' Hp'. destruct (inv_held _ _ Hq p') as [Ha Hb]; [by right|]. split; [|done].
    rewrite lookup_delete_ne; [done|]. by intros ->.
  - intros p' y [Hne Hy]%lookup_delete_Some. destruct (inv_alloc _ _ Hq p' y Hy) as (H1 & H2 & H3).
    split; [done|split; [done|]]. destruct H3 as [[->|H3]%elem_of_cons|H3]; [done|by left|by right].
Qed.

Lemma held_sched held q p h :
  inv (p :: held) q → (∀ p', p' ≠ p → h !! p' = heap q !! p') →
  ∀ id, sched (set_heap h q) id = sched q id.
Proof.
  intros Hq Hh [p' n]. unfold sched. cbn. case_decide as Hact; [|done]. apply Hh. intros ->.
  destruct (inv_held _ _ Hq p) as [_ Hna]; [left|]. by apply (Hna n).
Qed.

Lemma restart_ok now x :
  clock_ok now → timer_ok x → Timer.repeat_ x = true →
  ∃ x', Timer.restart now x = Done x' ∧ timer_ok x' ∧ Timer.sequence_ x' = Timer.sequence_ x ∧
    now ≤ Timer.expiration_ x'.
Proof.
  unfold clock_ok, timer_ok, time_bound. intros Hc (He & Hr & Hi) Hrep. rewrite Hrep in Hr.
  destruct (Hi (eq_sym Hr)) as (d & Hd & Hd').
  unfold time_bound in *. unfold Timer.restart, Timestamp.addTime. rewrite Hrep, Hd, !bind_ret_l, int64_ok, bind_ret_l by lia.
  eexists; split; [done|]. cbn. split_and!; try done; lia.
Qed.

(** Inserting a timer for later than every time [P] speaks of. *)
Lemma insert_armed P w p q :
  armed P q → ¬ P w → StdMap.find (w, p) (timers_ q) = None →
  armed P (set_timers (StdMap.insert (w, p) tt (timers_ q)) q).
Proof.
  intros Ha HP Hf. pose proof (insert_head p w _ Hf) as Hh. unfold armed in *. cbn.
  destruct (StdMap.insert _ _ _) as [|[e []] l]; [done|]. intros He.
  destruct (timers_ q) as [|[e0 []] l0]; [by subst e|].
  destruct (w <? e0.1); [by subst e|]. destruct Hh as (e' & l' & [= -> ->] & [->|[-> _]]); [|done].
  by apply (armed_for_mono q _ e'.1); [..|apply Ha].
Qed.

Definition past (w : Z) : Prop := w ≤ 0.

(** One timer of the round, again or never more. *)
Lemma again_implements held now q s p x :
  clock_ok now → heap q !! p = Some x → implements past (p :: held) q s →
  ∃ q', (if Timer.repeat_ x && bool_decide ((p, Timer.sequence_ x) ∉ cancelingTimers_ q) then
           x ← Timer.restart now x;
           '(_, q) ← insert p (set_heap (<[p := x]> (heap q)) q);
           Done q
         else delete_timer p q) = Done q' ∧
    implements past held q' (spec_again now ((p, Timer.sequence_ x), x) s) ∧ keeps held q q'.
Proof.
  intros Hnow Hx [Hq Ha Hs Hc1 Hc2 Hn Hp Hr]. cbn [app] in Hq.
  pose proof (NoDup_cons_1_1 _ _ (inv_nodup _ _ Hq)) as Hnh.
  destruct (inv_alloc _ _ Hq p x Hx) as (_ & Hxok & _).
  assert (Hreq : ∀ q', (∀ p', p' ≠ p → heap q' !! p' = heap q !! p') →
    Forall2 (request_of q') (pendingFunctors q) (queued s)).
  { intros q' Hk. eapply requests_mono; [|exact Hp]. intros p' Hin. apply Hk. intros ->. set_solver. }
  unfold spec_again. cbn [fst snd]. rewrite Hc1. destruct (_ && _) eqn:E.
  - apply andb_true_iff in E as [Hrep _]. destruct (restart_ok now x Hnow Hxok Hrep) as (x' & Hx' & Hok & Hseq & Hge).
    rewrite Hx', bind_ret_l. set (q1 := set_heap _ q).
    assert (Hq1 : inv (p :: held ++ pending_timers (pendingFunctors q)) q1) by by apply held_update_ok.
    assert (Hx1 : heap q1 !! p = Some x') by by apply lookup_insert_eq.
    destruct (insert_ok _ q1 p x' Hq1 Hx1) as (b & q2 & Hi & Hq2 & Eq2 & _). rewrite Hi, bind_ret_l.
    pose proof (insert_sched _ q1 p x' Hq1 Hx1) as Hs2. rewrite <-Eq2 in Hs2.
    assert (Hs1 : ∀ id, sched q1 id = sched q id).
    { eapply held_sched; [exact Hq|]. intros p' Hne. by rewrite lookup_insert_ne. }
    exists q2. split; [done|]. split.
    + split; cbn; try (rewrite Eq2; done).
      * by replace (pendingFunctors q2) with (pendingFunctors q) by (by rewrite Eq2).
      * rewrite Eq2. apply (insert_armed past _ p q1); [done| |].
        -- unfold past, clock_ok in *. lia.
        -- apply (held_not_listed _ q1 p _ Hq1). left.
      * intros id. rewrite Hs2, Hs1, <-Hs, Hseq. case_decide as Hid; [subst; apply lookup_insert_eq|].
        by apply lookup_insert_ne.
      * rewrite Eq2. apply Hreq. intros p' Hne. cbn. by rewrite lookup_insert_ne.
    + intros p' Hin. rewrite Eq2. cbn. rewrite lookup_insert_ne; [done|]. intros ->. set_solver.
  - unfold delete_timer. rewrite (deref_ok _ _ _ Hx), bind_ret_l. eexists; split; [done|]. split.
    + split; cbn; try done.
      * by apply held_delete_ok.
      * intros id. rewrite Hs. symmetry. revert id. eapply held_sched; [exact Hq|].
        intros p' Hne. by rewrite lookup_delete_ne.
      * apply Hreq. intros p' Hne. cbn. by rewrite lookup_delete_ne.
    + intros p' Hin. cbn. rewrite lookup_delete_ne; [done|]. intros ->. set_solver.
Qed.

Lemma reset_loop_implements held now q s es l :
  clock_ok now → implements past (es.*2 ++ held) q s → Forall2 (entry_of q) es l →
  ∃ q', reset_loop es now q = Done q' ∧
    implements past held q' (foldl (λ s e, spec_again now e s) s l).
Proof.
  intros Hnow. revert q s l. induction es as [|e es IH]; intros q s l Hi Hl.
  { apply Forall2_nil_inv_l in Hl as ->. by exists q. }
  apply Forall2_cons_inv_l in Hl as ([id x] & l' & (Hx & Hid & He) & Hl & ->). cbn in Hx, Hid, He.
  cbn [reset_loop foldl]. rewrite (deref_ok _ _ _ Hx), bind_ret_l.
  destruct (again_implements (es.*2 ++ held) now q s e.2 x Hnow Hx Hi) as (q1 & Hd & Hi1 & Hk).
  rewrite Hd, bind_ret_l, Hid. apply IH; [done|].
  apply (entries_keep (es.*2 ++ held) q); [done| |done].
  intros e' He'. apply elem_of_app. left. by apply list_elem_of_fmap_2.
Qed.

Lemma reset_implements held now clock q s es l :
  clock_ok now → clock_ok clock → implements past (es.*2 ++ held) q s → Forall2 (entry_of q) es l →
  ∃ q', reset es now clock q = Done q' ∧
    implements (λ _, True) held q' (foldl (λ s e, spec_again now e s) s l).
Proof.
  intros Hnow Hc Hi Hl. unfold reset.
  destruct (reset_loop_implements held now q s es l Hnow Hi Hl) as (q1 & Hd & Hi1).
  rewrite Hd, bind_ret_l. destruct Hi1 as [Hq Ha Hs Hc1 Hc2 Hn Hp Hr]. unfold armed in Ha.
  destruct (timers_ q1) as [|[e []] ts] eqn:Et.
  { rewrite bind_ret_l. cbn. exists q1. split; [done|]. split; try done. unfold armed. by rewrite Et. }
  assert (Hfe : StdMap.find e (timers_ q1) = Some tt).
  { pose proof (inv_wf _ _ Hq) as Hw. rewrite Et in *. rewrite StdMap.find_cons by done. by rewrite decide_True. }
  destruct (inv_entry _ _ Hq e Hfe) as (x & Hx & He & _). rewrite (deref_ok _ _ _ Hx), !bind_ret_l.
  unfold Timestamp.valid. destruct (Z.ltb_spec 0 (Timer.expiration_ x)) as [Hv|Hv].
  - destruct (inv_alloc _ _ Hq _ _ Hx) as (_ & (Hexp & _) & _).
    destruct (resetTimerfd_ok _ clock q1 Hexp Hc) as (ts' & Hr' & Harm).
    rewrite Hr'. eexists; split; [done|]. split; cbn; try done.
    + by apply (inv_same _ q1).
    + unfold armed. cbn. rewrite Et. intros _. by rewrite <-He.
  - exists q1. split; [done|]. split; try done. unfold armed. rewrite Et. intros _. apply Ha.
    unfold past. lia.
Qed.

Lemma handleRead_implements held now behaviour clock q s :
  clock_ok now → clock_ok clock → behaviour_ok behaviour → implements (λ _, True) held q s →
  ends (handleRead now behaviour clock q) (λ q',
    ∃ l, expired_list now s l ∧ implements (λ _, True) held q' (spec_round now behaviour l s)).
Proof.
  intros Hnow Hc Hb [Hq Ha Hs Hc1 Hc2 Hn Hp Hr]. unfold handleRead.
  assert (Hq0 : inv (held ++ pending_timers (pendingFunctors q)) (set_settime None q)) by by apply (inv_same _ q).
  destruct (getExpired_ok _ now _ Hq0) as (es & l & q1 & X & Hd & E1 & Hq1 & Hl & Hsort & Hmem & Hsched & Hlate).
  rewrite Hd, bind_ret_l.
  assert (Hh1 : heap q1 = heap q) by by rewrite E1.
  assert (Hi1 : implements past (es.*2 ++ held) (set_canceling ∅ (set_calling true q1)) (spec_expire now s)).
  { split; cbn; try (rewrite E1; done); try done.
    - replace (pendingFunctors q1) with (pendingFunctors q) by (by rewrite E1).
      apply (inv_same _ q1); [done..|]. by rewrite <-app_assoc.
    - unfold armed. cbn. destruct (timers_ q1) as [|[e []] ts]; [done|].
      apply Forall_inv in Hlate. cbn in Hlate. unfold past, clock_ok in *. lia.
    - intros id. apply option_eq. intros x. rewrite map_lookup_filter_Some. cbn. rewrite Hs.
      symmetry. apply Hsched. }
  apply ends_bind.
  assert (Hl1 : Forall2 (entry_of (set_canceling ∅ (set_calling true q1))) es l).
  { eapply Forall2_impl; [exact Hl|]. intros e ix (Hx & ?). split; [cbn; by rewrite Hh1|done]. }
  assert (Hheld : ∀ e, e ∈ es → e.2 ∈ es.*2 ++ held).
  { intros e He. apply elem_of_app. left. by apply list_elem_of_fmap_2. }
  assert (Hdown : downward past) by (unfold downward, past; lia).
  pose proof (run_expired_implements past _ _ _ behaviour es l Hdown Hb Hi1 Hl1 Hheld) as H.
  destruct (run_expired _ _ _) as [q2|f]; [|done]. destruct H as [Hi2 Hk2].
  pose proof (entries_keep _ _ _ _ _ Hk2 Hheld Hl1) as Hl2. unfold spec_round.
  set (s2 := foldl _ (spec_expire now s) l) in *.
  assert (Hi3 : implements past (es.*2 ++ held) (set_calling false q2)
    (mkSpec (scheduled s2) (cancelled s2) false (created s2) (queued s2) (fired s2))).
  { destruct Hi2. split; cbn; try done. by apply (inv_same _ q2). }
  destruct (reset_implements held now clock _ _ es l Hnow Hc Hi3 Hl2) as (q' & Hd' & Hi').
  rewrite Hd'. exists l. split; [|done]. split; [done|]. intros id x. rewrite Hmem. by rewrite Hs.
Qed.

(** ** Runs *)

Definition op_ok (o : op) : Prop :=
  match o with
  | Perform a => action_ok a
  | RunFunctor clock => clock_ok clock
  | HandleRead now behaviour clock => clock_ok now ∧ behaviour_ok behaviour ∧ clock_ok clock
  end.

Inductive spec_step : op → spec → spec → Prop :=
  | spec_step_perform a s : spec_step (Perform a) s (spec_perform a s)
  | spec_step_idle clock s : queued s = [] → spec_step (RunFunctor clock) s s
  | spec_step_request clock s r rs :
      queued s = r :: rs →
      spec_step (RunFunctor clock) s
        (spec_request r (mkSpec (scheduled s) (cancelled s) (calling s) (created s) rs (fired s)))
  | spec_step_round now behaviour clock s l :
      expired_list now s l →
      spec_step (HandleRead now behaviour clock) s (spec_round now behaviour l s).

Inductive spec_run : list op → spec → spec → Prop :=
  | spec_run_nil s : spec_run [] s s
  | spec_run_cons o os s s1 s2 : spec_step o s s1 → spec_run os s1 s2 → spec_run (o :: os) s s2.

Fixpoint run (os : list op) q : outcome t :=
  match os with
  | [] => Done q
  | o :: os => q ← step o q; run os q
  end.

Definition always (w : Z) : Prop := True.

Lemma run_functor_implements q s f fs r rs clock :
  clock_ok clock → pendingFunctors q = f :: fs → queued s = r :: rs → implements always [] q s →
  ∃ q', run_functor f clock (set_pending fs q) = Done q' ∧
    implements always [] q'
      (spec_request r (mkSpec (scheduled s) (cancelled s) (calling s) (created s) rs (fired s))).
Proof.
  intros Hc Ef Er [Hq Ha Hs Hc1 Hc2 Hn Hp Hr]. rewrite Ef, Er in Hp. rewrite Ef in Hq.
  apply Forall2_cons in Hp as [Hf Hp]. destruct f as [p|id], r as [id' x|id']; try done; cbn in *.
  - destruct Hf as [Hx ->].
    destruct (addTimerInLoop_implements always [] (set_pending fs q)
      (mkSpec (scheduled s) (cancelled s) (calling s) (created s) rs (fired s)) p x clock)
      as (q' & Hd & Hi & _); [done|done|done| |by exists q'].
    split; cbn; try done. by apply (inv_same _ q).
  - subst id'.
    destruct (cancelInLoop_implements always [] (set_pending fs q)
      (mkSpec (scheduled s) (cancelled s) (calling s) (created s) rs (fired s)) id)
      as (q' & Hd & Hi & _); [done| |by exists q'].
    split; cbn; try done. by apply (inv_same _ q).
Qed.

Lemma step_implements o q s :
  op_ok o → implements always [] q s →
  ends (step o q) (λ q', ∃ s', spec_step o s s' ∧ implements always [] q' s').
Proof.
  intros Ho Hi. destruct o as [a|clock|now behaviour clock]; cbn [step].
  - eapply ends_mono; [by apply (perform_implements always [])|]. intros q' [Hi' _].
    eexists; split; [constructor|done].
  - pose proof (impl_queued _ _ _ _ Hi) as Hp. destruct (pendingFunctors q) as [|f fs] eqn:Ef.
    + apply Forall2_nil_inv_l in Hp. exists s. split; [by constructor|done].
    + apply Forall2_cons_inv_l in Hp as (r & rs & Hf & Hp & Er).
      destruct (run_functor_implements q s f fs r rs clock Ho Ef Er Hi) as (q' & Hd & Hi').
      rewrite Hd. eexists; split; [by econstructor|done].
  - destruct Ho as (H1 & H2 & H3).
    eapply ends_mono; [by apply (handleRead_implements [] now behaviour clock q s)|].
    intros q' (l & Hl & Hi'). eexists; split; [by constructor|done].
Qed.

Lemma run_implements os q s :
  Forall op_ok os → implements always [] q s →
  ends (run os q) (λ q', ∃ s', spec_run os s s' ∧ implements always [] q' s').
Proof.
  intros Hos. revert q s. induction Hos as [|o os Ho Hos IH]; intros q s Hi.
  { exists s. split; [constructor|done]. }
  cbn [run]. apply ends_bind. pose proof (step_implements o q s Ho Hi) as H.
  destruct (step o q) as [q1|f]; [|done]. destruct H as (s1 & Hs1 & Hi1).
  eapply ends_mono; [by apply IH|]. intros q' (s' & Hs' & Hi'). exists s'. split; [by econstructor|done].
Qed.

Lemma make_implements : implements always [] make spec_init.
Proof.
  split; try done. split; cbn; try done; try constructor; by apply not_elem_of_nil in H.
Qed.

Lemma spec_perform_all_fired l s : fired (spec_perform_all l s) = fired s.
Proof.
  unfold spec_perform_all. revert s. induction l as [|a l IH]; intros s; [done|]. cbn. rewrite IH.
  destruct a; cbn; try done; unfold spec_cancel; destruct (decide (is_Some _)); try done;
    by destruct (calling s).
Qed.

Lemma spec_round_fired now behaviour l s : fired (spec_round now behaviour l s) = fired s ++ l.*1.
Proof.
  assert (H1 : ∀ (l : list (TimerId * Timer.t)) s, fired (foldl (λ s e, spec_again now e s) s l) = fired s).
  { clear -now behaviour. induction l as [|e l IH]; intros s; [done|]. cbn. rewrite IH. unfold spec_again.
    destruct (_ && _); [|done]. by destruct (Timer.restart _ _). }
  assert (H2 : ∀ (l : list (TimerId * Timer.t)) s, fired (foldl (λ s e, spec_fire behaviour e.1 s) s l) = fired s ++ l.*1).
  { clear -now behaviour. induction l as [|e l IH]; intros s; [by rewrite app_nil_r|]. cbn. rewrite IH.
    unfold spec_fire. rewrite spec_perform_all_fired. cbn. by rewrite <-app_assoc. }
  unfold spec_round. rewrite H1. cbn. by rewrite H2.
Qed.

Lemma implements_armed_for q s id x :
  implements always [] q s → scheduled s !! id = Some x → armed_for (Timer.expiration_ x) q.
Proof.
  intros [Hq Ha Hs _ _ _ _ _] Hx. rewrite Hs in Hx. destruct id as [p n].
  pose proof (inv_sched_entry _ _ _ _ _ Hq Hx) as Hf. unfold armed in Ha.
  pose proof (inv_wf _ _ Hq) as Hw.
  destruct (timers_ q) as [|[e []] ts]; [done|]. eapply armed_for_mono; [done| |by apply Ha].
  apply StdMap.wf_cons in Hw as Hw'. destruct Hw' as [_ Hall]. rewrite StdMap.find_cons in Hf by done.
  case_decide as He; [by subst e|]. apply StdMap.find_elem in Hf. rewrite Forall_forall in Hall.
  apply (pair_lt_fst e (_, p)). exact (Hall _ Hf).
Qed.
End invariant.

(** * The queue implements its specification, and forgets no timer *)


(** C11. No timer is forgotten: in every reachable state the timer descriptor
    is armed, with a valid [timespec], to expire no later than any timer that
    is scheduled (or 100 microseconds after it was armed), and when the loop
    handles the expiry at or after the timer's time, the timer fires, even when
    a callback of the same round cancels it. *)
Theorem scheduled_timer_fires (os : list TimerQueue.op) q :
  Forall op_ok os → run os TimerQueue.make = Done q →
  ∀ id x, sched q id = Some x →
    armed_for (Timer.expiration_ x) q ∧
    ∀ now behaviour clock, clock_ok now → behaviour_ok behaviour → clock_ok clock →
      Timer.expiration_ x ≤ now →
      ends (TimerQueue.handleRead now behaviour clock q)
        (λ q', ∃ before after, TimerQueue.ran q' = TimerQueue.ran q ++ before ++ [id] ++ after).
Proof.
  intros Hos Hrun id x Hx. pose proof (run_implements os _ _ Hos make_implements) as H.
  rewrite Hrun in H. destruct H as (s & _ & Hi). rewrite <-(impl_scheduled _ _ _ _ Hi) in Hx.
  split; [by eapply implements_armed_for|]. intros now behaviour clock Hn Hb Hc Hle.
  eapply ends_mono; [by apply (handleRead_implements [] now behaviour clock q s)|].
  intros q' (l & [_ Hl] & Hi'). rewrite <-(impl_fired _ _ _ _ Hi'), <-(impl_fired _ _ _ _ Hi), spec_round_fired.
  assert (Hin : id ∈ l.*1) by (apply (list_elem_of_fmap_2 fst _ (id, x)), Hl; done).
  apply list_elem_of_split in Hin as (l1 & l2 & ->). by exists l1, l2.
Qed.

(** A run: a timer that repeats every second, one that expires at the same time
    and is cancelled by the callback of the first, and one added by another
    thread while they run. *)
Definition one_second : spec_float := double_of_int 1.
Definition sample_behaviour (id : TimerId) : list TimerQueue.action :=
  if decide (id = (100, 1))
  then [TimerQueue.Cancel (200, 2); TimerQueue.AddQueued 300 3 1500000 one_second] else [].
Definition sample_ops : list TimerQueue.op :=
  [TimerQueue.Perform (TimerQueue.Add 100 1 1000000 one_second 10);
   TimerQueue.Perform (TimerQueue.Add 200 2 1000000 one_second 20);
   TimerQueue.HandleRead 1000007 sample_behaviour 1000010;
   TimerQueue.RunFunctor 1000020].

Lemma one_second_ok : interval_ok one_second.
Proof. intros _. exists 1000000. split; [by vm_compute|unfold time_bound; lia]. Qed.
Lemma sample_behaviour_ok : behaviour_ok sample_behaviour.
Proof.
  intros id. unfold sample_behaviour. case_decide; [|constructor].
  repeat constructor; try (unfold time_bound; lia); apply one_second_ok.
Qed.
Lemma sample_ops_ok : Forall op_ok sample_ops.
Proof.
  repeat constructor; try (unfold time_bound; lia); try apply one_second_ok; apply sample_behaviour_ok.
Qed.



Lemma scheduled_timer_fires_witness :
  match run sample_ops TimerQueue.make with
  | Done q => is_Some (sched q (300, 3)) ∧ armed_for 1500000 q
  | Fault _ => False
  end.
Proof.
  destruct (run sample_ops TimerQueue.make) as [q|f] eqn:E; [|by vm_compute in E].
  assert (Hq : sched q (300, 3) = Some (Timer.make 3 1500000 one_second 3)).
  { vm_compute in E. injection E as <-. by vm_compute. }
  split; [by eexists|].
  exact (proj1 (scheduled_timer_fires sample_ops q sample_ops_ok E (300, 3) _ Hq)).
Defined.
