(* ===== verification/JsonValue.v ===== *)
(** [Json::Value] (jsoncpp/value.h, json_value.cpp), in the configuration the
    program builds: [std::map] containers, [assert] active.

    A string value is kept as the C string the class exposes: every accessor,
    the copy constructor and the comparison read it up to its first NUL.
    Array and object values are both [ObjectValues] maps in the source; here an
    array is keyed by the [int] index and an object by the name, the two uses
    [CZString] has.  A [Value &] into a container is the container in which the
    entry exists, and the key to update. *)

From Stdlib Require Import Floats.SpecFloat.
From S2P Require Import Prelude StdMap CDouble.
Local Open Scope Z_scope.

Notation double := spec_float.

Inductive ValueType :=
  | nullValue | intValue | uintValue | realValue | stringValue | booleanValue
  | arrayValue | objectValue.

Inductive CommentPlacement := commentBefore | commentAfterOnSameLine | commentAfter.

#[export] Instance ValueType_eq_dec : EqDecision ValueType.
Proof. solve_decision. Defined.
#[export] Instance CommentPlacement_eq_dec : EqDecision CommentPlacement.
Proof. solve_decision. Defined.

(** [CommentInfo comments_[ numberOfCommentPlacement ]]; [comment_] may be null. *)
Record CommentInfos := mkComments {
  c_before : option bytes; c_same_line : option bytes; c_after : option bytes }.

(** [type_] with [value_], and [comments_]. *)
Inductive Value : Type :=
  | mkValue (value_ : ValueHolder) (comments_ : option CommentInfos)
with ValueHolder : Type :=
  | nullV
  | intV (int_ : Z)
  | uintV (uint_ : Z)
  | realV (real_ : double)
  | stringV (string_ : option bytes)
  | boolV (bool_ : bool)
  | arrayV (map_ : list (Z * Value))
  | objectV (map_ : list (bytes * Value)).

Notation ArrayValues := (list (Z * Value)).
Notation ObjectValues := (list (bytes * Value)).

Module Value.
Definition minInt : Z := INT_MIN.
Definition maxInt : Z := INT_MAX.
Definition maxUInt : Z := UINT_MAX.

Definition holder (v : Value) : ValueHolder := let 'mkValue h _ := v in h.
Definition comments (v : Value) : option CommentInfos := let 'mkValue _ c := v in c.
Definition of_holder (h : ValueHolder) : Value := mkValue h None.

(** ** Constructors *)
Definition null : Value := of_holder nullV.
Definition of_type (type : ValueType) : Value :=
  of_holder
    match type with
    | nullValue => nullV
    | intValue => intV 0
    | uintValue => uintV 0
    | realValue => realV (S754_zero false)
    | stringValue => stringV None
    | arrayValue => arrayV []
    | objectValue => objectV []
    | booleanValue => boolV false
    end.
Definition of_int (value : Z) : Value := of_holder (intV value).
Definition of_uint (value : Z) : Value := of_holder (uintV value).
Definition of_double (value : double) : Value := of_holder (realV value).
(** [Value( const char * )]; [Value( const std::string & )] stores the whole
    string, of which only the C string is ever read back. *)
Definition of_cstr (value : bytes) : Value := of_holder (stringV (Some (c_str value))).
Definition of_range (value : bytes) : Value := of_holder (stringV (Some (c_str value))).
Definition of_string (value : bytes) : Value := of_holder (stringV (Some (c_str value))).
Definition of_bool (value : bool) : Value := of_holder (boolV value).

Definition type (v : Value) : ValueType :=
  match holder v with
  | nullV => nullValue | intV _ => intValue | uintV _ => uintValue
  | realV _ => realValue | stringV _ => stringValue | boolV _ => booleanValue
  | arrayV _ => arrayValue | objectV _ => objectValue
  end.

(** [swap]: contents and type are exchanged, comments are not. *)
Definition swap (v other : Value) : Value * Value :=
  (mkValue (holder other) (comments v), mkValue (holder v) (comments other)).

(** The copy constructor copies contents and comments. *)
Definition copy (other : Value) : Value := mkValue (holder other) (comments other).

(** [operator=]: copy and swap, so the comments of the target stay. *)
Definition assign (v other : Value) : Value :=
  let temp := copy other in
  (swap v temp).1.

(** ** Type tests *)
Definition isNull (v : Value) : bool := bool_decide (type v = nullValue).
Definition isBool (v : Value) : bool := bool_decide (type v = booleanValue).
Definition isInt (v : Value) : bool := bool_decide (type v = intValue).
Definition isUInt (v : Value) : bool := bool_decide (type v = uintValue).
Definition isIntegral (v : Value) : bool :=
  bool_decide (type v = intValue) || bool_decide (type v = uintValue)
  || bool_decide (type v = booleanValue).
Definition isDouble (v : Value) : bool := bool_decide (type v = realValue).
Definition isNumeric (v : Value) : bool := isIntegral v || isDouble v.
Definition isString (v : Value) : bool := bool_decide (type v = stringValue).
Definition isArray (v : Value) : bool :=
  bool_decide (type v = nullValue) || bool_decide (type v = arrayValue).
Definition isObject (v : Value) : bool :=
  bool_decide (type v = nullValue) || bool_decide (type v = objectValue).

(** ** Comparison *)

Definition type_number (t : ValueType) : Z :=
  match t with
  | nullValue => 0 | intValue => 1 | uintValue => 2 | realValue => 3
  | stringValue => 4 | booleanValue => 5 | arrayValue => 6 | objectValue => 7
  end.

(** [strcmp( a, b ) < 0] and [strcmp( a, b ) == 0] on possibly null strings, as
    the [stringValue] cases combine them. *)
Definition string_lt (a b : option bytes) : bool :=
  match a, b with
  | None, Some _ => true
  | Some a, Some b => bytes_lt a b
  | _, None => false
  end.
Definition string_eq (a b : option bytes) : bool :=
  match a, b with
  | None, None => true
  | Some a, Some b => bool_decide (a = b)
  | _, _ => false
  end.

(** A comparison with the operands in both orders: [pair::operator<], which the
    comparison of maps uses, asks for both. *)
Definition both {A} (f : A → A → bool) (x y : A) : bool * bool := (f x y, f y x).
Definition both_Z (d : Z) : bool * bool := (d <? 0, 0 <? d).

(** [std::lexicographical_compare] of two maps, with [pair::operator<]:
    [cmp v v'] is [(v < v', v' < v)]. *)
Definition lex_step (cmp_k cmp_v rest : bool * bool) : bool * bool :=
  if cmp_k.1 then (true, false)
  else if cmp_k.2 then (false, true)
  else (if cmp_v.1 then true else if cmp_v.2 then false else rest.1,
        if cmp_v.2 then true else if cmp_v.1 then false else rest.2).

(** [( *this < other, other < *this )]. *)
Fixpoint compare_both (v other : Value) {struct v} : bool * bool :=
  let 'mkValue h _ := v in
  let typeDelta := type_number (type (of_holder h)) - type_number (type other) in
  if negb (typeDelta =? 0) then both_Z typeDelta
  else
    match h, holder other with
    | intV a, intV b => both Z.ltb a b
    | uintV a, uintV b => both Z.ltb a b
    | realV a, realV b => both SFltb a b
    | boolV a, boolV b => both (λ x y : bool, negb x && y) a b
    | stringV a, stringV b => both string_lt a b
    | arrayV m, arrayV m' =>
        let delta := wraps 32 (Z.of_nat (length m) - Z.of_nat (length m')) in
        if negb (delta =? 0) then both_Z delta
        else
          (fix go (m m' : ArrayValues) : bool * bool :=
             match m, m' with
             | [], [] => (false, false)
             | [], _ :: _ => (true, false)
             | _ :: _, [] => (false, true)
             | (k, v) :: m, (k', v') :: m' =>
                 lex_step (both key_lt k k') (compare_both v v') (go m m')
             end) m m'
    | objectV m, objectV m' =>
        let delta := wraps 32 (Z.of_nat (length m) - Z.of_nat (length m')) in
        if negb (delta =? 0) then both_Z delta
        else
          (fix go (m m' : ObjectValues) : bool * bool :=
             match m, m' with
             | [], [] => (false, false)
             | [], _ :: _ => (true, false)
             | _ :: _, [] => (false, true)
             | (k, v) :: m, (k', v') :: m' =>
                 lex_step (both key_lt k k') (compare_both v v') (go m m')
             end) m m'
    | _, _ => (false, false)
    end.

Definition operator_lt (v other : Value) : bool := (compare_both v other).1.
Definition operator_gt (v other : Value) : bool := operator_lt other v.
Definition operator_le (v other : Value) : bool := negb (operator_gt v other).
Definition operator_ge (v other : Value) : bool := negb (operator_lt v other).

(** [operator==] *)
Fixpoint operator_eq (v other : Value) {struct v} : bool :=
  let 'mkValue h _ := v in
  match h, holder other with
  | nullV, nullV => true
  | intV a, intV b => a =? b
  | uintV a, uintV b => a =? b
  | realV a, realV b => SFeqb a b
  | boolV a, boolV b => eqb a b
  | stringV a, stringV b => string_eq a b
  | arrayV m, arrayV m' =>
      (fix go (m m' : ArrayValues) : bool :=
         match m, m' with
         | [], [] => true
         | (k, v) :: m, (k', v') :: m' => (k =? k') && operator_eq v v' && go m m'
         | _, _ => false
         end) m m'
  | objectV m, objectV m' =>
      (fix go (m m' : ObjectValues) : bool :=
         match m, m' with
         | [], [] => true
         | (k, v) :: m, (k', v') :: m' =>
             bool_decide (k = k') && operator_eq v v' && go m m'
         | _, _ => false
         end) m m'
  | _, _ => false
  end.
Definition operator_ne (v other : Value) : bool := negb (operator_eq v other).

(** ** Conversions *)

Definition not_convertible {A} (what : string) : outcome A := Fault (Thrown what).

(** [const char *asCString() const]; the pointer may be null. *)
Definition asCString (v : Value) : outcome (option bytes) :=
  match holder v with
  | stringV s => Done s
  | _ => Fault (AssertFailed "type_ == stringValue")
  end.

Definition asString (v : Value) : outcome bytes :=
  match holder v with
  | nullV => Done []
  | stringV s => Done (default [] s)
  | boolV b => Done (bs (if b then "true" else "false"))
  | _ => not_convertible "Type is not convertible to string"
  end.

Definition throw_unless (b : bool) (what : string) : outcome unit :=
  if b then Done tt else Fault (Thrown what).

Definition asInt (v : Value) : outcome Z :=
  match holder v with
  | nullV => Done 0
  | intV i => Done i
  | uintV u =>
      _ ← throw_unless (u <? maxInt) "integer out of signed integer range";
      Done (s32 u)
  | realV r =>
      _ ← throw_unless (SFleb (double_of_int minInt) r && SFleb r (double_of_int maxInt))
            "Real out of signed integer range";
      Done (default 0 (trunc r))
  | boolV b => Done (if b then 1 else 0)
  | _ => not_convertible "Type is not convertible to int"
  end.

Definition asUInt (v : Value) : outcome Z :=
  match holder v with
  | nullV => Done 0
  | intV i =>
      _ ← throw_unless (0 <=? i) "Negative integer can not be converted to unsigned integer";
      Done (u32 i)
  | uintV u => Done u
  | realV r =>
      _ ← throw_unless (SFleb (double_of_int 0) r && SFleb r (double_of_int maxUInt))
            "Real out of unsigned integer range";
      Done (default 0 (trunc r))
  | boolV b => Done (if b then 1 else 0)
  | _ => not_convertible "Type is not convertible to uint"
  end.

Definition asDouble (v : Value) : outcome double :=
  match holder v with
  | nullV => Done (S754_zero false)
  | intV i => Done (double_of_int i)
  | uintV u => Done (double_of_int u)
  | realV r => Done r
  | boolV b => Done (double_of_int (if b then 1 else 0))
  | _ => not_convertible "Type is not convertible to double"
  end.

Definition asBool (v : Value) : bool :=
  match holder v with
  | nullV => false
  | intV i => negb (i =? 0)
  | uintV u => negb (u =? 0)
  | realV r => negb (SFeqb r (S754_zero false))
  | boolV b => b
  | stringV s => match s with Some (_ :: _) => true | _ => false end
  | arrayV m => negb (length m =? 0)%nat
  | objectV m => negb (length m =? 0)%nat
  end.

Definition isConvertibleTo (other : ValueType) (v : Value) : bool :=
  let to_ t := bool_decide (other = t) in
  match holder v with
  | nullV => true
  | intV i =>
      (to_ nullValue && (i =? 0)) || to_ intValue || (to_ uintValue && (0 <=? i))
      || to_ realValue || to_ stringValue || to_ booleanValue
  | uintV u =>
      (to_ nullValue && (u =? 0)) || (to_ intValue && (u <=? maxInt)) || to_ uintValue
      || to_ realValue || to_ stringValue || to_ booleanValue
  | realV r =>
      (to_ nullValue && SFeqb r (S754_zero false))
      || (to_ intValue && SFleb (double_of_int minInt) r && SFleb r (double_of_int maxInt))
      || (to_ uintValue && SFleb (double_of_int 0) r && SFleb r (double_of_int maxUInt))
      || to_ realValue || to_ stringValue || to_ booleanValue
  | boolV b =>
      (to_ nullValue && negb b) || to_ intValue || to_ uintValue || to_ realValue
      || to_ stringValue || to_ booleanValue
  | stringV s =>
      to_ stringValue || (to_ nullValue && match s with Some (_ :: _) => false | _ => true end)
  | arrayV m => to_ arrayValue || (to_ nullValue && (length m =? 0)%nat)
  | objectV m => to_ objectValue || (to_ nullValue && (length m =? 0)%nat)
  end.

(** ** Containers *)

(** [size()]: for an array, the highest index plus one.  After the
    index [INT_MAX] the sum overflows [int]; it is given the value compilers
    give it. *)
Definition size (v : Value) : Z :=
  match holder v with
  | arrayV m => match last m with Some (i, _) => u32 (i + 1) | None => 0 end
  | objectV m => u32 (s32 (Z.of_nat (length m)))
  | _ => 0
  end.

Definition empty (v : Value) : bool :=
  if isNull v || isArray v || isObject v then size v =? 0 else false.

Definition operator_not (v : Value) : bool := isNull v.

Definition clear (v : Value) : outcome Value :=
  match holder v with
  | nullV => Done v
  | arrayV _ => Done (mkValue (arrayV []) (comments v))
  | objectV _ => Done (mkValue (objectV []) (comments v))
  | _ => Fault (AssertFailed "type_ == nullValue || type_ == arrayValue || type_ == objectValue")
  end.

(** The array (object) an element is looked up in: a null value becomes an
    empty container first; other types fail the assertion. *)
Definition as_array (v : Value) : outcome ArrayValues :=
  match holder v with
  | nullV => Done []
  | arrayV m => Done m
  | _ => Fault (AssertFailed "type_ == nullValue || type_ == arrayValue")
  end.
Definition as_object (v : Value) : outcome ObjectValues :=
  match holder v with
  | nullV => Done []
  | objectV m => Done m
  | _ => Fault (AssertFailed "type_ == nullValue || type_ == objectValue")
  end.

(** [Value &operator[]( UInt index )]: the container in which the element
    exists; the reference is to the entry of key [s32 index]. *)
Definition resolve_index (index : Z) (v : Value) : outcome Value :=
  m ← as_array v;
  Done (mkValue (arrayV (StdMap.subscript (s32 index) null m)) (comments v)).

(** [resolveReference( const char *key, bool )] *)
Definition resolveReference (key : bytes) (v : Value) : outcome Value :=
  m ← as_object v;
  Done (mkValue (objectV (StdMap.subscript (c_str key) null m)) (comments v)).

(** Writing through the reference, and reading it. *)
Definition update_index (index : Z) (g : Value → Value) (v : Value) : Value :=
  match holder v with
  | arrayV m => mkValue (arrayV (StdMap.update g (s32 index) m)) (comments v)
  | _ => v
  end.
Definition update_key (key : bytes) (g : Value → Value) (v : Value) : Value :=
  match holder v with
  | objectV m => mkValue (objectV (StdMap.update g (c_str key) m)) (comments v)
  | _ => v
  end.

(** [const Value &operator[]( UInt ) const]; [None] is the static [null]. *)
Definition const_index (index : Z) (v : Value) : outcome (option Value) :=
  m ← as_array v; Done (StdMap.find (s32 index) m).
Definition const_key (key : bytes) (v : Value) : outcome (option Value) :=
  m ← as_object v; Done (StdMap.find (c_str key) m).

(** [v[ key ] = x] *)
Definition set_key (key : bytes) (x : Value) (v : Value) : outcome Value :=
  v' ← resolveReference key v; Done (update_key key (λ old, assign old x) v').
Definition set_index (index : Z) (x : Value) (v : Value) : outcome Value :=
  v' ← resolve_index index v; Done (update_index index (λ old, assign old x) v').

(** [get( index, defaultValue )] and [get( key, defaultValue )] *)
Definition get_index (index : Z) (defaultValue v : Value) : outcome Value :=
  r ← const_index index v; Done (copy (default defaultValue r)).
Definition get_key (key : bytes) (defaultValue v : Value) : outcome Value :=
  r ← const_key key v; Done (copy (default defaultValue r)).

Definition isValidIndex (index : Z) (v : Value) : bool := index <? size v.

Definition append (value v : Value) : outcome Value := set_index (size v) value v.

(** [resize( newSize )] *)
Fixpoint erase_range (n : nat) (index : Z) (m : ArrayValues) : ArrayValues :=
  match n with
  | O => m
  | S n => erase_range n (index + 1) (StdMap.erase (s32 index) m).1
  end.
Definition resize (newSize : Z) (v : Value) : outcome Value :=
  _ ← cassert (isArray v) "type_ == nullValue || type_ == arrayValue";
  let v := if isNull v then assign v (of_type arrayValue) else v in
  let oldSize := size v in
  if newSize =? 0 then clear v
  else if oldSize <? newSize then resolve_index (newSize - 1) v
  else
    m ← as_array v;
    let v' := mkValue (arrayV (erase_range (Z.to_nat (oldSize - newSize)) newSize m))
                      (comments v) in
    _ ← cassert (size v' =? newSize) "size() == newSize";
    Done v'.

(** [removeMember( key )]: the removed value and the object. *)
Definition removeMember (key : bytes) (v : Value) : outcome (Value * Value) :=
  match holder v with
  | nullV => Done (null, v)
  | objectV m =>
      match StdMap.find (c_str key) m with
      | None => Done (null, v)
      | Some old =>
          Done (copy old, mkValue (objectV (StdMap.erase (c_str key) m).1) (comments v))
      end
  | _ => Fault (AssertFailed "type_ == nullValue || type_ == objectValue")
  end.

Definition isMember (key : bytes) (v : Value) : outcome bool :=
  r ← const_key key v; Done (match r with Some _ => true | None => false end).

Definition getMemberNames (v : Value) : outcome (list bytes) :=
  m ← as_object v; Done m.*1.

(** ** Comments *)
Definition get_comment_slot (placement : CommentPlacement) (c : CommentInfos) : option bytes :=
  match placement with
  | commentBefore => c_before c
  | commentAfterOnSameLine => c_same_line c
  | commentAfter => c_after c
  end.
Definition set_comment_slot (placement : CommentPlacement) (text : bytes) (c : CommentInfos) :
    CommentInfos :=
  match placement with
  | commentBefore => mkComments (Some text) (c_same_line c) (c_after c)
  | commentAfterOnSameLine => mkComments (c_before c) (Some text) (c_after c)
  | commentAfter => mkComments (c_before c) (c_same_line c) (Some text)
  end.

Definition setComment (comment : bytes) (placement : CommentPlacement) (v : Value) : outcome Value :=
  let text := c_str comment in
  let c := default (mkComments None None None) (comments v) in
  _ ← throw_unless (match text with [] => true | b :: _ => bool_decide (b = x2f) end)
        "Comments must start with /";
  Done (mkValue (holder v) (Some (set_comment_slot placement text c))).

Definition comment_of (placement : CommentPlacement) (v : Value) : option bytes :=
  c ← comments v; get_comment_slot placement c.
Definition hasComment (placement : CommentPlacement) (v : Value) : bool :=
  match comment_of placement v with Some _ => true | None => false end.
Definition getComment (placement : CommentPlacement) (v : Value) : bytes :=
  default [] (comment_of placement v).
End Value.
