(* ===== verification/JsonContainers.v ===== *)
(** The containers of [Json::Value] against their specifications, the iterators
    and [Json::Path] (jsoncpp/value.h, json_value.cpp, json_valueiterator.inl).
    An object is a finite map from names to values, an array a list in which
    positions may be empty; iterators are positions in the underlying map. *)

From S2P Require Import Prelude StdMap CDouble JsonValue.
Local Open Scope Z_scope.
Import Value.

(** * Iterators *)

Module Iterator.

(** [current_], the position of an entry ([None]: not of any container), and
    [isNull_]. *)
Record t := mk { current_ : option nat; isNull_ : bool }.

(** [ValueIteratorBase()] and [ValueIteratorBase( current )] *)
Definition make : t := mk None true.
Definition at_position (n : nat) : t := mk (Some n) false.

(** The entries: an index or a name, and the value. *)
Definition entries (v : Value) : list ((Z + bytes) * Value) :=
  match holder v with
  | arrayV m => (λ p, (inl p.1, p.2)) <$> m
  | objectV m => (λ p, (inr p.1, p.2)) <$> m
  | _ => []
  end.

(** [begin()] and [end()], const or not *)
Definition begin (v : Value) : t :=
  match holder v with arrayV _ | objectV _ => at_position 0 | _ => make end.
Definition end_ (v : Value) : t :=
  match holder v with
  | arrayV m => at_position (length m)
  | objectV m => at_position (length m)
  | _ => make
  end.

(** [*current_] *)
Definition entry (it : t) (v : Value) : outcome ((Z + bytes) * Value) :=
  match n ← current_ it; entries v !! n with
  | Some e => Done e
  | None => Fault (Undefined "dereferencing an iterator that is not at an entry")
  end.

Definition deref (it : t) (v : Value) : outcome Value := e ← entry it v; Done e.2.

(** [++current_] and [--current_] *)
Definition increment (it : t) (v : Value) : outcome t :=
  match current_ it with
  | Some n => _ ← defined_if (bool_decide (n < length (entries v))%nat) "++end()"; Done (mk (Some (S n)) (isNull_ it))
  | None => Fault (Undefined "++ of a singular iterator")
  end.
Definition decrement (it : t) (v : Value) : outcome t :=
  match current_ it with
  | Some (S n) => Done (mk (Some n) (isNull_ it))
  | Some O => Fault (Undefined "--begin()")
  | None => Fault (Undefined "-- of a singular iterator")
  end.

(** [computeDistance( other )]: counts steps up to the other iterator. *)
Definition computeDistance (it other : t) (v : Value) : outcome Z :=
  if isNull_ it && isNull_ other then Done 0
  else
    match current_ it, current_ other with
    | Some n, Some k =>
        _ ← defined_if (bool_decide (n ≤ k)%nat) "++ past end()"; Done (Z.of_nat (k - n))
    | _, _ => Fault (Undefined "comparison of a singular iterator")
    end.

(** [isEqual( other )] *)
Definition isEqual (it other : t) : outcome bool :=
  if isNull_ it then Done (isNull_ other)
  else
    match current_ it, current_ other with
    | Some n, Some k => Done (bool_decide (n = k))
    | _, _ => Fault (Undefined "comparison of a singular iterator")
    end.

(** [copy( other )], which [operator=] calls: the position only. *)
Definition copy (it other : t) : t := mk (current_ other) (isNull_ it).

(** [key()], [index()] and [memberName()] *)
Definition key (it : t) (v : Value) : outcome Value :=
  e ← entry it v; Done (match e.1 with inl i => of_int i | inr name => of_cstr name end).
Definition index (it : t) (v : Value) : outcome Z :=
  e ← entry it v; Done (match e.1 with inl i => u32 i | inr _ => u32 (-1) end).
Definition memberName (it : t) (v : Value) : outcome bytes :=
  e ← entry it v; Done (match e.1 with inl _ => [] | inr name => name end).

(** [for ( it = begin; it != last; ++it )] over the values *)
Fixpoint for_each (fuel : nat) (it last : t) (v : Value) : outcome (list Value) :=
  match fuel with
  | O => Fault OutOfFuel
  | S fuel =>
      b ← isEqual it last;
      if (b : bool) then Done []
      else
        x ← deref it v;
        it ← increment it v;
        l ← for_each fuel it last v;
        Done (x :: l)
  end.

(** A loop from [begin()] to [end()] visits every entry once, in order. *)
Lemma for_each_step n v l e :
  entries v = l → l !! n = Some e →
  deref (at_position n) v = Done e.2 ∧ increment (at_position n) v = Done (at_position (S n)).
Proof.
  intros El He. unfold deref, entry, increment. cbn. rewrite El, He. split; [done|].
  by rewrite bool_decide_eq_true_2 by by eapply lookup_lt_Some.
Qed.

Lemma for_each_S fuel it last v :
  for_each (S fuel) it last v =
    (b ← isEqual it last;
     if (b : bool) then Done []
     else x ← deref it v; it ← increment it v; l ← for_each fuel it last v; Done (x :: l)).
Proof. done. Qed.

Lemma for_each_from n v l :
  entries v = l → (n ≤ length l)%nat →
  for_each (S (length l - n)) (at_position n) (at_position (length l)) v = Done (drop n l).*2.
Proof.
  intros El. remember (length l - n)%nat as k eqn:Ek. revert n Ek.
  induction k as [|k IH]; intros n Ek Hn; rewrite for_each_S; cbn [isEqual at_position isNull_ current_].
  - assert (n = length l) as -> by lia. rewrite bool_decide_eq_true_2, bind_ret_l by done. by rewrite drop_all.
  - rewrite bool_decide_eq_false_2, bind_ret_l by lia.
    destruct (lookup_lt_is_Some_2 l n) as [e He]; [lia|].
    destruct (for_each_step n v l e El He) as [-> ->]. rewrite !bind_ret_l.
    rewrite (IH (S n)) by lia. by rewrite (drop_S _ _ _ He).
Qed.

Lemma for_each_all v :
  ∃ fuel, for_each fuel (begin v) (end_ v) v = Done (entries v).*2.
Proof.
  pose proof (for_each_from 0 v (entries v) eq_refl) as H. rewrite Nat.sub_0_r, drop_0 in H.
  destruct v as [[| | | | | |m|m] c]; try (exists 1%nat; reflexivity);
    (exists (S (length m)); match type of H with context [length ?l] =>
       assert (E : length l = length m) by apply length_fmap end; rewrite E in H; apply H; lia).
Qed.

(** A default-constructed iterator that is assigned [begin()] never compares
    equal to [end()]: [copy] leaves [isNull_]. *)
Lemma assigned_iterator_never_ends v n :
  isEqual (copy make (at_position n)) (end_ v) = Done (isNull_ (end_ v)).
Proof. done. Qed.

End Iterator.

(** * Objects are finite maps *)

Module Object.

(** What a program does to an object: [v[ name ]] (which creates the member),
    [v[ name ] = x], [removeMember( name )] and [clear()]; the result is the
    value referred to or returned. *)
Inductive op := Member (name : bytes) | Set_ (name : bytes) (x : Value) | Remove (name : bytes) | Clear.

Definition run_op (o : op) (v : Value) : outcome (Value * Value) :=
  match o with
  | Member name =>
      v ← resolveReference name v;
      match holder v with
      | objectV m => Done (default null (StdMap.find (c_str name) m), v)
      | _ => Fault (Undefined "reference into an object")
      end
  | Set_ name x => v ← set_key name x v; Done (x, v)
  | Remove name => removeMember name v
  | Clear => v ← clear v; Done (null, v)
  end.

Fixpoint run_ops (os : list op) (v : Value) : outcome (list Value * Value) :=
  match os with
  | [] => Done ([], v)
  | o :: os => '(r, v) ← run_op o v; '(rs, v) ← run_ops os v; Done (r :: rs, v)
  end.

(** The same on a finite map; a name ends at its first NUL, and a member that is
    assigned to keeps its comments. *)
Notation members := (gmap bytes Value).
Definition spec_op (o : op) (m : members) : Value * members :=
  match o with
  | Member name => (default null (m !! c_str name), <[c_str name := default null (m !! c_str name)]> m)
  | Set_ name x => (x, <[c_str name := assign (default null (m !! c_str name)) x]> m)
  | Remove name => (default null (m !! c_str name), delete (c_str name) m)
  | Clear => (null, ∅)
  end.

Fixpoint spec_ops (os : list op) (m : members) : list Value * members :=
  match os with
  | [] => ([], m)
  | o :: os => let '(r, m) := spec_op o m in let '(rs, m) := spec_ops os m in (r :: rs, m)
  end.

Definition stands_for (v : Value) (m : members) : Prop :=
  match holder v with
  | nullV => m = ∅
  | objectV l => StdMap.wf l ∧ StdMap.to_gmap l = m
  | _ => False
  end.

Lemma as_object_ok v m :
  stands_for v m → ∃ l, as_object v = Done l ∧ StdMap.wf l ∧ StdMap.to_gmap l = m.
Proof.
  unfold stands_for, as_object. destruct (holder v); try done.
  - intros ->. exists []. split_and!; [done|apply StdMap.wf_nil|done].
  - intros [Hw Hm]. eauto.
Qed.

Lemma find_member (l : ObjectValues) m k : StdMap.wf l → StdMap.to_gmap l = m → StdMap.find k l = m !! k.
Proof. intros Hw <-. by rewrite StdMap.lookup_to_gmap. Qed.

Lemma to_gmap_subscript k (l : ObjectValues) :
  StdMap.wf l → StdMap.to_gmap (StdMap.subscript k null l) = <[k := default null (StdMap.to_gmap l !! k)]> (StdMap.to_gmap l).
Proof.
  intros Hw. unfold StdMap.subscript. rewrite StdMap.lookup_to_gmap by done.
  destruct (StdMap.find k l) as [x|] eqn:E.
  - unfold StdMap.insert. rewrite E. cbn. symmetry. apply insert_id. by rewrite StdMap.lookup_to_gmap.
  - by rewrite StdMap.to_gmap_insert.
Qed.

Lemma resolve_ok name v m :
  stands_for v m →
  ∃ l, resolveReference name v = Done (mkValue (objectV l) (comments v)) ∧ StdMap.wf l ∧
    StdMap.to_gmap l = <[c_str name := default null (m !! c_str name)]> m.
Proof.
  intros Hv. destruct (as_object_ok v m Hv) as (l & Hl & Hw & <-). unfold resolveReference. rewrite Hl, bind_ret_l.
  eexists. split; [done|]. split; [by apply StdMap.wf_insert|]. by apply to_gmap_subscript.
Qed.

Lemma object_op_ok o v m :
  stands_for v m → ∃ v', run_op o v = Done ((spec_op o m).1, v') ∧ stands_for v' (spec_op o m).2.
Proof.
  intros Hv. destruct o as [name|name x|name|]; cbn [spec_op fst snd].
  - destruct (resolve_ok name v m Hv) as (l & Hd & Hw & Hm). unfold run_op. rewrite Hd, bind_ret_l. cbn.
    eexists. rewrite (find_member _ _ _ Hw Hm), lookup_insert_eq. split; [done|]. by split.
  - destruct (resolve_ok name v m Hv) as (l & Hd & Hw & Hm). unfold run_op, set_key. rewrite Hd, !bind_ret_l.
    eexists. split; [done|]. split; [by apply StdMap.wf_update|].
    rewrite StdMap.to_gmap_update, Hm by done. rewrite alter_insert_eq. done.
  - unfold run_op, removeMember, stands_for in *. destruct (holder v) eqn:Eh; try done.
    + subst m. exists v. rewrite Eh, lookup_empty. split; [done|]. by rewrite delete_empty.
    + destruct Hv as [Hw Hm]. rewrite (find_member _ _ _ Hw Hm). destruct (m !! c_str name) as [old|] eqn:E.
      * eexists. split; [by destruct old|]. cbn. split; [by apply StdMap.wf_erase|]. by rewrite StdMap.to_gmap_erase, Hm.
      * exists v. rewrite Eh. split; [done|]. split; [done|]. by rewrite delete_id.
  - unfold run_op, clear, stands_for in *. destruct (holder v) eqn:Eh; try done; rewrite bind_ret_l.
    + exists v. by rewrite Eh.
    + eexists. split; [done|]. split; [apply StdMap.wf_nil|done].
Qed.

Lemma object_ops_ok os v m :
  stands_for v m → ∃ v', run_ops os v = Done ((spec_ops os m).1, v') ∧ stands_for v' (spec_ops os m).2.
Proof.
  revert v m. induction os as [|o os IH]; intros v m Hv; [by exists v|].
  destruct (object_op_ok o v m Hv) as (v1 & Hd & Hv1). cbn. rewrite Hd, bind_ret_l.
  destruct (spec_op o m) as [r m1]. cbn in *. destruct (IH v1 m1 Hv1) as (v2 & Hd2 & Hv2).
  rewrite Hd2, bind_ret_l. destruct (spec_ops os m1) as [rs m2]. by exists v2.
Qed.

(** What the queries answer. *)
Record answers (v : Value) (m : members) : Prop := mkAnswers {
  answers_key name : const_key name v = Done (m !! c_str name);
  answers_member name : isMember name v = Done (bool_decide (is_Some (m !! c_str name)));
  answers_get name dflt : get_key name dflt v = Done (default dflt (m !! c_str name));
  answers_size : Value.size v = u32 (Z.of_nat (base.size m));
  answers_names : ∃ names, getMemberNames v = Done names ∧
    StronglySorted (λ a b, key_lt a b = true) names ∧ ∀ name, name ∈ names ↔ is_Some (m !! name)
}.

Lemma u32_s32 z : u32 (s32 z) = u32 z.
Proof.
  unfold wraps, wrapu. rewrite Zminus_mod_idemp_l. f_equal. lia.
Qed.

Lemma object_answers v m : stands_for v m → answers v m.
Proof.
  intros Hv. destruct (as_object_ok v m Hv) as (l & Hl & Hw & Hm).
  assert (Hkey : ∀ name, const_key name v = Done (m !! c_str name)).
  { intros name. unfold const_key. rewrite Hl, bind_ret_l. by rewrite (find_member _ _ _ Hw Hm). }
  split.
  - done.
  - intros name. unfold isMember. rewrite Hkey, bind_ret_l. destruct (m !! c_str name) eqn:E.
    + by rewrite bool_decide_eq_true_2 by by eexists.
    + rewrite bool_decide_eq_false_2; [done|]. by intros [? ?].
  - intros name dflt. unfold get_key. rewrite Hkey, bind_ret_l. by destruct (default _ _).
  - unfold stands_for, Value.size in *. destruct (holder v) eqn:Eh; try done.
    + subst m. by rewrite map_size_empty.
    + destruct Hv as [Hw' <-]. by rewrite StdMap.to_gmap_size, u32_s32.
  - exists l.*1. unfold getMemberNames. rewrite Hl, bind_ret_l. split; [done|]. split.
    + clear -Hw. induction l as [|[k x] l IH]; [constructor|]. apply StdMap.wf_cons in Hw as [Hw Hf]. constructor; [by apply IH|].
      by apply Forall_fmap.
    + intros name. subst m. rewrite StdMap.lookup_to_gmap by done. rewrite list_elem_of_fmap. split.
      * intros ([k x] & -> & Hin). exists x. by apply StdMap.find_In.
      * intros [x Hx]. exists (name, x). split; [done|]. by apply StdMap.find_In.
Qed.

End Object.

(** C15. An object is a finite map from names to values: starting from a null
    value, any history of element accesses (which create the member),
    assignments, removals and [clear()] gives the results it has on the map,
    and then [operator[] const], [isMember], [get], [size] and [getMemberNames]
    answer for that map; names are listed once each, in increasing order. *)
Theorem object_implements_map (os : list Object.op) :
  ∃ v, Object.run_ops os null = Done ((Object.spec_ops os ∅).1, v) ∧
    Object.answers v (Object.spec_ops os ∅).2.
Proof.
  destruct (Object.object_ops_ok os null ∅ eq_refl) as (v & Hd & Hv). exists v.
  split; [done|]. by apply Object.object_answers.
Qed.

(** * Arrays are lists with holes *)

Module Array.

(** What a program does to an array: [v[ i ]] (which creates the element),
    [v[ i ] = x], [append( x )], [resize( n )] and [clear()]. *)
Inductive op := Element (i : nat) | Set_ (i : nat) (x : Value) | Append (x : Value) | Resize (n : nat) | Clear.

Definition run_op (o : op) (v : Value) : outcome Value :=
  match o with
  | Element i => resolve_index (Z.of_nat i) v
  | Set_ i x => set_index (Z.of_nat i) x v
  | Append x => append x v
  | Resize n => resize (Z.of_nat n) v
  | Clear => clear v
  end.

(** A list of elements and holes. *)
Notation elements := (list (option Value)).

(** The element at [i] is changed by [g], created when there is none. *)
Definition put (i : nat) (g : Value → Value) (l : elements) : elements :=
  let l := l ++ replicate (S i - length l) None in
  <[i := Some (g (default null (mjoin (l !! i))))]> l.

Definition spec_op (o : op) (l : elements) : option elements :=
  match o with
  | Element i => Some (put i id l)
  | Set_ i x => Some (put i (λ old, assign old x) l)
  | Append x => Some (put (length l) (λ old, assign old x) l)
  | Resize O => Some []
  | Resize (S n) =>
      if decide (length l < S n)%nat then Some (put n id l)
      else if decide (mjoin (l !! n) = None) then None else Some (take (S n) l)
  | Clear => Some []
  end.

(** Indices are [int]s. *)
Notation limit := (2 ^ 31).
Definition in_range (o : op) (l : elements) : Prop :=
  match o with
  | Element i | Set_ i _ => Z.of_nat i < limit
  | Append _ => szof l < limit
  | Resize n => Z.of_nat n ≤ limit
  | Clear => True
  end.

Record holds (m : ArrayValues) (l : elements) : Prop := mkHolds {
  holds_wf : StdMap.wf m;
  holds_find i : StdMap.find i m = if decide (0 ≤ i) then mjoin (l !! Z.to_nat i) else None;
  holds_last : last l ≠ Some None;
  holds_length : szof l ≤ limit
}.
Definition stands_for (v : Value) (l : elements) : Prop :=
  match holder v with nullV => l = [] | arrayV m => holds m l | _ => False end.

Lemma holds_nil : holds [] [].
Proof. split; [apply StdMap.wf_nil| |done|cbn; lia]. intros i. by destruct (decide _). Qed.

Lemma index_small i : Z.of_nat i < limit → s32 (Z.of_nat i) = Z.of_nat i.
Proof. intros. apply wraps_small; lia. Qed.

Lemma as_array_ok v l : stands_for v l → ∃ m, as_array v = Done m ∧ holds m l.
Proof.
  unfold stands_for, as_array. destruct (holder v); try done; [|eauto].
  intros ->. exists []. split; [done|apply holds_nil].
Qed.

Lemma last_key_max (m : ArrayValues) i x k y :
  StdMap.wf m → last m = Some (i, x) → (k, y) ∈ m → k ≤ i.
Proof.
  induction m as [|[k' v'] m IH]; intros Hw Hl Hin; [done|]. apply StdMap.wf_cons in Hw as [Hw Hf].
  rewrite last_cons in Hl. destruct (last m) as [e|] eqn:El.
  - injection Hl as ->. apply elem_of_cons in Hin as [[= <- <-]|Hin]; [|by apply IH].
    rewrite Forall_forall in Hf. apply last_Some_elem_of in El. specialize (Hf _ El). cbn in Hf. lia.
  - apply last_None in El. subst m. injection Hl as <- <-. by apply list_elem_of_singleton in Hin as [= -> ->].
Qed.

Lemma size_ok v l : stands_for v l → Value.size v = Z.of_nat (length l).
Proof.
  unfold stands_for, Value.size. destruct (holder v) as [| | | | | |m|]; try done; [by intros ->|].
  intros [Hw Hf Hlast Hlen].
  assert (Hend : ∀ x, last l = Some (Some x) → (Z.of_nat (length l) - 1, x) ∈ m).
  { intros x Hx. apply StdMap.find_In; [done|]. rewrite Hf. rewrite last_lookup in Hx.
    destruct l as [|a l]; [done|]. cbn [length] in *. rewrite decide_True by lia.
    replace (Z.to_nat (Z.of_nat (S (length l)) - 1)) with (length l) by lia. cbn in Hx. by rewrite Hx. }
  destruct (last m) as [[i x]|] eqn:El.
  - assert (Hi : StdMap.find i m = Some x) by (apply StdMap.find_In; [done|by apply last_Some_elem_of]).
    rewrite Hf in Hi. destruct (decide (0 ≤ i)); [|done].
    destruct (l !! Z.to_nat i) as [o|] eqn:Eo; [|done]. apply lookup_lt_Some in Eo.
    destruct (last l) as [[y|]|] eqn:Ely; [| |apply last_None in Ely; subst l; cbn in Eo; lia].
    + pose proof (last_key_max m i x _ y Hw El (Hend y eq_refl)).
      unfold wrapu. rewrite Z.mod_small; lia.
    + done.
  - apply last_None in El. subst m. destruct (last l) as [[y|]|] eqn:Ely; [|done|by apply last_None in Ely as ->].
    specialize (Hend y eq_refl). by apply elem_of_nil in Hend.
Qed.

Lemma find_put g i j (m : ArrayValues) :
  StdMap.find j (StdMap.update g i (StdMap.subscript i null m)) =
    if decide (j = i) then Some (g (default null (StdMap.find i m))) else StdMap.find j m.
Proof.
  assert (Hs : ∀ j, StdMap.find j (StdMap.subscript i null m) =
    if decide (j = i) then Some (default null (StdMap.find i m)) else StdMap.find j m).
  { intros k. unfold StdMap.subscript. destruct (StdMap.find i m) as [x|] eqn:E.
    - unfold StdMap.insert. rewrite E. destruct (decide (k = i)) as [->|]; done.
    - by rewrite StdMap.find_insert_fresh. }
  destruct (decide (j = i)) as [->|Hne].
  - rewrite StdMap.find_update_eq, Hs, decide_True by done. done.
  - rewrite StdMap.find_update_ne, Hs, decide_False by done. done.
Qed.

Lemma length_put i g l : length (put i g l) = Nat.max (length l) (S i).
Proof. unfold put. rewrite length_insert, length_app, length_replicate. lia. Qed.

Lemma lookup_put i g l j :
  mjoin (put i g l !! j) = if decide (j = i) then Some (g (default null (mjoin (l !! i)))) else mjoin (l !! j).
Proof.
  assert (Hpad : ∀ k, mjoin ((l ++ replicate (S i - length l) None) !! k) = mjoin (l !! k)).
  { intros k. destruct (decide (k < length l)%nat); [by rewrite lookup_app_l|].
    rewrite lookup_app_r, (lookup_ge_None_2 l) by lia. cbn.
    destruct (replicate _ _ !! (k - length l)%nat) as [o|] eqn:E; [|done]. by apply lookup_replicate in E as [-> _]. }
  unfold put. rewrite Hpad. destruct (decide (j = i)) as [->|Hne].
  - rewrite list_lookup_insert_eq; [done|]. rewrite length_app, length_replicate. lia.
  - rewrite list_lookup_insert_ne by done. apply Hpad.
Qed.

Lemma last_put i g l : last l ≠ Some None → last (put i g l) ≠ Some None.
Proof.
  intros Hl Hn. rewrite last_lookup, length_put in Hn.
  assert (Hj : mjoin (put i g l !! pred (length l `max` S i)) = None) by by rewrite Hn.
  rewrite lookup_put in Hj. destruct (decide _) as [|Hne]; [done|].
  apply Hl. rewrite last_lookup. replace (pred (length l `max` S i)) with (pred (length l)) in Hj by lia.
  destruct (lookup_lt_is_Some_2 l (pred (length l))) as [o Ho]; [lia|]. rewrite Ho in Hj |- *. by destruct o.
Qed.

Lemma holds_put m l i g :
  holds m l → Z.of_nat i < limit →
  holds (StdMap.update g (Z.of_nat i) (StdMap.subscript (Z.of_nat i) null m)) (put i g l).
Proof.
  intros [Hw Hf Hlast Hlen] Hi. split.
  - apply StdMap.wf_update, StdMap.wf_insert, Hw.
  - intros j. rewrite find_put, !Hf. destruct (decide (j = Z.of_nat i)) as [->|Hne].
    + rewrite !decide_True, Nat2Z.id by lia. by rewrite lookup_put, decide_True.
    + destruct (decide (0 ≤ j)) as [Hj|Hj]; [|done]. rewrite lookup_put, decide_False; [done|lia].
  - by apply last_put.
  - rewrite length_put. lia.
Qed.

(** [v[ i ]], changed by [g] through the reference *)
Lemma put_ok v l i g :
  stands_for v l → Z.of_nat i < limit →
  ∃ v', resolve_index (Z.of_nat i) v = Done v' ∧ stands_for (update_index (Z.of_nat i) g v') (put i g l).
Proof.
  intros Hv Hi. destruct (as_array_ok v l Hv) as (m & Hm & Hh). unfold resolve_index. rewrite Hm, bind_ret_l.
  eexists. split; [done|]. unfold update_index, stands_for. cbn. rewrite index_small by done. by apply holds_put.
Qed.

Lemma update_id (v : Value) i : update_index i id v = v.
Proof.
  destruct v as [[| | | | | |m|] c]; try done. unfold update_index. cbn. do 2 f_equal.
  induction m as [|[k x] m IH]; [done|]. cbn. by repeat case_match; rewrite ?IH.
Qed.

(** ** [resize] *)

Lemma find_erase_range n index (m : ArrayValues) j :
  StdMap.wf m → 0 ≤ index → index + Z.of_nat n ≤ limit →
  StdMap.wf (erase_range n index m) ∧
  StdMap.find j (erase_range n index m) = if decide (index ≤ j < index + Z.of_nat n) then None else StdMap.find j m.
Proof.
  revert index m. induction n as [|n IH]; intros index m Hw H0 Hn.
  - split; [done|]. by rewrite decide_False by lia.
  - cbn [erase_range]. rewrite wraps_small by lia.
    destruct (IH (index + 1) (StdMap.erase index m).1) as [Hw' ->]; [by apply StdMap.wf_erase|lia|lia|].
    split; [done|]. destruct (decide (j = index)) as [->|Hne].
    + rewrite decide_False by lia. rewrite StdMap.find_erase_eq by done. by rewrite decide_True by lia.
    + rewrite StdMap.find_erase_ne by done. destruct (decide (index + 1 ≤ j < index + 1 + Z.of_nat n)).
      * by rewrite decide_True by lia.
      * by rewrite decide_False by lia.
Qed.

Lemma holds_take m l n :
  holds m l → (0 < n ≤ length l)%nat → mjoin (l !! pred n) ≠ None →
  holds (erase_range (length l - n) (Z.of_nat n) m) (take n l).
Proof.
  intros [Hw Hf Hlast Hlen] Hn Hend.
  assert (Hr : ∀ j, StdMap.wf (erase_range (length l - n) (Z.of_nat n) m) ∧
    StdMap.find j (erase_range (length l - n) (Z.of_nat n) m) =
      if decide (Z.of_nat n ≤ j < Z.of_nat n + Z.of_nat (length l - n)) then None else StdMap.find j m).
  { intros j. apply find_erase_range; [done|lia|lia]. }
  split.
  - apply (Hr 0).
  - intros j. rewrite (proj2 (Hr j)), Hf. destruct (decide (0 ≤ j)) as [Hj|Hj].
    + destruct (decide (Z.to_nat j < n)%nat) as [Hjn|Hjn].
      * rewrite decide_False by lia. by rewrite lookup_take_lt.
      * rewrite lookup_take_ge by lia. destruct (decide _); [done|]. by rewrite lookup_ge_None_2 by lia.
    + by destruct (decide _).
  - rewrite last_lookup, length_take, lookup_take_lt by lia.
    replace (pred (n `min` length l)) with (pred n) by lia. intros E. by rewrite E in Hend.
  - rewrite length_take. lia.
Qed.

(** A shorter array whose last element would be a hole has another size. *)
Lemma hole_size m l n c :
  holds m l → (n < length l)%nat → mjoin (l !! n) = None →
  (Value.size (mkValue (arrayV (erase_range (length l - S n) (Z.of_nat (S n)) m)) c) =? Z.of_nat (S n)) = false.
Proof.
  intros [Hw Hf Hlast Hlen] Hn Hhole. apply Z.eqb_neq.
  assert (Hr : ∀ j, StdMap.wf (erase_range (length l - S n) (Z.of_nat (S n)) m) ∧
    StdMap.find j (erase_range (length l - S n) (Z.of_nat (S n)) m) =
      if decide (Z.of_nat (S n) ≤ j < Z.of_nat (S n) + Z.of_nat (length l - S n)) then None else StdMap.find j m).
  { intros j. apply find_erase_range; [done|lia|lia]. }
  unfold Value.size. cbn [holder].
  destruct (last (erase_range (length l - S n) (Z.of_nat (S n)) m)) as [[i x]|] eqn:El; [|lia]. intros Hs.
  assert (Hi : StdMap.find i (erase_range (length l - S n) (Z.of_nat (S n)) m) = Some x).
  { apply StdMap.find_In; [apply (Hr 0)|by apply last_Some_elem_of]. }
  rewrite (proj2 (Hr i)), Hf in Hi. destruct (decide (Z.of_nat (S n) ≤ i < _)); [done|].
  destruct (decide (0 ≤ i)); [|done]. destruct (l !! Z.to_nat i) as [o|] eqn:Eo; [|done].
  pose proof (lookup_lt_Some _ _ _ Eo). rewrite wrapu_small in Hs by lia.
  replace (Z.to_nat i) with n in Eo by lia. rewrite Eo in Hhole. cbn in Hhole, Hi. congruence.
Qed.

Lemma clear_ok v l : stands_for v l → ∃ v', clear v = Done v' ∧ stands_for v' [].
Proof.
  unfold stands_for, clear. destruct (holder v) eqn:E; try done.
  - intros _. exists v. by rewrite E.
  - intros _. eexists. split; [done|]. apply holds_nil.
Qed.

Lemma resize_ok v l n :
  stands_for v l → Z.of_nat n ≤ limit →
  match spec_op (Resize n) l with
  | Some l' => ∃ v', resize (Z.of_nat n) v = Done v' ∧ stands_for v' l'
  | None => resize (Z.of_nat n) v = Fault (AssertFailed "size() == newSize")
  end.
Proof.
  intros Hv Hn.
  assert (∃ m, isArray v = true ∧ let v := if isNull v then assign v (of_type arrayValue) else v in
    holder v = arrayV m ∧ holds m l) as (m & Harr & Hh).
  { unfold stands_for, isArray, isNull, type in *. destruct v as [[| | | | | |m|] c]; try done; cbn in Hv.
    - exists []. subst l. split; [done|]. split; [done|apply holds_nil].
    - by exists m. }
  unfold resize. rewrite cassert_bind by done. set (v1 := if isNull v then _ else v) in *. destruct Hh as [Ev Hh].
  assert (Hv1 : stands_for v1 l) by (unfold stands_for; by rewrite Ev).
  cbv zeta. rewrite (size_ok v1 l Hv1). destruct n as [|n]; cbn [spec_op].
  { by apply (clear_ok v1 l). }
  rewrite (proj2 (Z.eqb_neq _ _)) by lia. destruct (decide (length l < S n)%nat) as [Hlt|Hge].
  - rewrite (proj2 (Z.ltb_lt _ _)) by lia. replace (Z.of_nat (S n) - 1) with (Z.of_nat n) by lia.
    destruct (put_ok v1 l n id Hv1) as (v' & Hd & Hv'); [lia|]. exists v'. rewrite update_id in Hv'. done.
  - rewrite (proj2 (Z.ltb_ge _ _)) by lia. unfold as_array. rewrite Ev, bind_ret_l.
    replace (Z.to_nat (Z.of_nat (length l) - Z.of_nat (S n))) with (length l - S n)%nat by lia.
    destruct (decide (mjoin (l !! n) = None)) as [Hhole|Hend].
    + rewrite (hole_size m l n (comments v1)) by (done || lia). done.
    + assert (Hv' : stands_for (mkValue (arrayV (erase_range (length l - S n) (Z.of_nat (S n)) m)) (comments v1)) (take (S n) l)).
      { apply holds_take; [done|lia|done]. }
      eexists. rewrite (size_ok _ _ Hv'), length_take, cassert_bind; [done|]. apply Z.eqb_eq. lia.
Qed.

Lemma array_op_ok o v l :
  stands_for v l → in_range o l →
  match spec_op o l with
  | Some l' => ∃ v', run_op o v = Done v' ∧ stands_for v' l'
  | None => run_op o v = Fault (AssertFailed "size() == newSize")
  end.
Proof.
  intros Hv Hr. destruct o as [i|i x|x|n|]; cbn [spec_op run_op].
  - destruct (put_ok v l i id Hv Hr) as (v' & Hd & Hv'). exists v'. by rewrite update_id in Hv'.
  - destruct (put_ok v l i (λ old, assign old x) Hv Hr) as (v' & Hd & Hv'). unfold set_index. rewrite Hd. by eexists.
  - unfold append, set_index. rewrite (size_ok v l Hv).
    destruct (put_ok v l (length l) (λ old, assign old x) Hv Hr) as (v' & Hd & Hv'). rewrite Hd. by eexists.
  - by apply resize_ok.
  - by apply (clear_ok v l).
Qed.

(** Histories: [None] is the failed assertion of [resize]. *)
Fixpoint run_ops (os : list op) (v : Value) : outcome Value :=
  match os with [] => Done v | o :: os => v ← run_op o v; run_ops os v end.
Fixpoint spec_ops (os : list op) (l : elements) : option elements :=
  match os with [] => Some l | o :: os => l ← spec_op o l; spec_ops os l end.
Fixpoint all_in_range (os : list op) (l : elements) : Prop :=
  match os with
  | [] => True
  | o :: os => in_range o l ∧ match spec_op o l with Some l => all_in_range os l | None => True end
  end.

Lemma array_ops_ok os v l :
  stands_for v l → all_in_range os l →
  match spec_ops os l with
  | Some l' => ∃ v', run_ops os v = Done v' ∧ stands_for v' l'
  | None => run_ops os v = Fault (AssertFailed "size() == newSize")
  end.
Proof.
  revert v l. induction os as [|o os IH]; intros v l Hv Hr; [by exists v|]. destruct Hr as [Hr Hrs].
  pose proof (array_op_ok o v l Hv Hr) as Ho. cbn. destruct (spec_op o l) as [l1|] eqn:E; cbn.
  - destruct Ho as (v1 & Hd & Hv1). rewrite Hd, bind_ret_l. by apply IH.
  - by rewrite Ho.
Qed.

Record answers (v : Value) (l : elements) : Prop := mkAnswers {
  answers_size : Value.size v = szof l;
  answers_valid i : isValidIndex (Z.of_nat i) v = bool_decide (i < length l)%nat;
  answers_get i dflt : Z.of_nat i < limit → get_index (Z.of_nat i) dflt v = Done (default dflt (mjoin (l !! i)))
}.

Lemma array_answers v l : stands_for v l → answers v l.
Proof.
  intros Hv. split.
  - by apply size_ok.
  - intros i. unfold isValidIndex. rewrite (size_ok v l Hv). apply Bool.eq_iff_eq_true.
    rewrite Z.ltb_lt, bool_decide_eq_true. lia.
  - intros i dflt Hi. destruct (as_array_ok v l Hv) as (m & Hm & Hh). unfold get_index, const_index.
    rewrite Hm, !bind_ret_l, index_small by done. rewrite (holds_find _ _ Hh), decide_True, Nat2Z.id by lia.
    by destruct (default _ _).
Qed.

End Array.

(** C16. An array is a list in which positions may be empty: starting from a null
    value, any history of element accesses (which create the element and leave
    holes before it), assignments, appends, [resize] and [clear()] within the
    range of indices does what it does on the list, and then [size],
    [isValidIndex] and [get] answer for that list; only a [resize] to a smaller
    size whose last position is a hole fails, by its own assertion. *)
Theorem array_implements_list (os : list Array.op) :
  Array.all_in_range os [] →
  match Array.spec_ops os [] with
  | Some l => ∃ v, Array.run_ops os null = Done v ∧ Array.answers v l
  | None => Array.run_ops os null = Fault (AssertFailed "size() == newSize")
  end.
Proof.
  intros Hr. pose proof (Array.array_ops_ok os null [] eq_refl Hr) as H. destruct (Array.spec_ops os []) as [l|]; [|done].
  destruct H as (v & Hd & Hv). exists v. split; [done|]. by apply Array.array_answers.
Qed.

(** * [Json::Path] *)

Module Path.

Inductive Kind := kNone | kIndex | kKey.
#[export] Instance Kind_eq_dec : EqDecision Kind.
Proof. solve_decision. Defined.

(** [PathArgument]: nothing, an index or a key. *)
Inductive PathArgument := kindNone | kindIndex (index_ : Z) | kindKey (key_ : bytes).
Definition kind_ (a : PathArgument) : Kind :=
  match a with kindNone => kNone | kindIndex _ => kIndex | kindKey _ => kKey end.

(** [PathArgument( const std::string &key )] *)
Definition of_string (key : bytes) : PathArgument := kindKey (c_str key).

(** [addPathInArg( path, in, itInArg, kind )]: the argument [itInArg] is at, when
    it has the right kind; the iterator stays where it is. *)
Definition addPathInArg (in_args : list PathArgument) (kind : Kind) (args : list PathArgument) : list PathArgument :=
  match in_args with
  | [] => args
  | a :: _ => if bool_decide (kind_ a = kind) then args ++ [a] else args
  end.

(** The digits of an index, as an [unsigned int], and what follows. *)
Fixpoint index_digits (index : Z) (rest : bytes) : Z * bytes :=
  match rest with
  | c :: rest' => if is_digit c then index_digits (u32 (index * 10 + digit_value c)) rest' else (index, rest)
  | [] => (index, [])
  end.

(** The special characters are [x5b], a left bracket, [x25], a percent sign, and
    [x2e], a dot.  A name ends at a character [strchr] finds in ["[."], which includes the
    terminator. *)
Definition ends_name (c : byte) : bool := bool_decide (c = x5b) || bool_decide (c = x2e) || bool_decide (c = x00).
Fixpoint name_of (rest : bytes) : bytes * bytes :=
  match rest with
  | c :: rest' => if ends_name c then ([], rest) else let '(name, rest) := name_of rest' in (c :: name, rest)
  | [] => ([], [])
  end.

(** [makePath( path, in )]: [rest] is what [current] points to; invalid paths
    are not reported. *)
Fixpoint makePath_loop (fuel : nat) (rest : bytes) (in_args args : list PathArgument) : outcome (list PathArgument) :=
  match fuel with
  | O => Fault OutOfFuel
  | S fuel =>
      match rest with
      | [] => Done args
      | c :: rest' =>
          if bool_decide (c = x5b) then
            let '(args, rest) :=
              match rest' with
              | d :: _ =>
                  if bool_decide (d = x25) then (addPathInArg in_args kIndex args, rest')
                  else let '(index, rest) := index_digits 0 rest' in (args ++ [kindIndex index], rest)
              | [] => (args ++ [kindIndex 0], [])
              end in
            makePath_loop fuel (tail rest) in_args args
          else if bool_decide (c = x25) then makePath_loop fuel rest' in_args (addPathInArg in_args kKey args)
          else if bool_decide (c = x2e) then makePath_loop fuel rest' in_args args
          else
            let '(name, rest) := name_of rest in
            makePath_loop fuel rest in_args (args ++ [of_string name])
      end
  end.

(** [Path( path, a1, a2, a3, a4, a5 )]: the fuel is enough for every path
    without NUL. *)
Definition makePath (path : bytes) (in_args : list PathArgument) : outcome (list PathArgument) :=
  makePath_loop (S (length path)) path in_args [].
Definition make_path (path : bytes) (a1 a2 a3 a4 a5 : PathArgument) : outcome (list PathArgument) :=
  makePath path [a1; a2; a3; a4; a5].

(** [resolve( root )]: a missing element is the static null.  The tests of the
    kind of the node have empty bodies and no effect. *)
Fixpoint resolve (args : list PathArgument) (node : Value) : outcome Value :=
  match args with
  | [] => Done node
  | kindIndex i :: args => r ← const_index i node; resolve args (default null r)
  | kindKey k :: args => r ← const_key k node; resolve args (default null r)
  | kindNone :: args => resolve args node
  end.

(** [resolve( root, defaultValue )] *)
Fixpoint resolve_or (args : list PathArgument) (node defaultValue : Value) : outcome Value :=
  match args with
  | [] => Done (copy node)
  | kindIndex i :: args =>
      if negb (isArray node) || isValidIndex i node then Done (copy defaultValue)
      else r ← const_index i node; resolve_or args (default null r) defaultValue
  | kindKey k :: args =>
      if negb (isObject node) then Done (copy defaultValue)
      else
        r ← const_key k node;
        match r with Some node => resolve_or args node defaultValue | None => Done (copy defaultValue) end
  | kindNone :: args => resolve_or args node defaultValue
  end.

(** [make( root )]: the root in which the node exists; the reference returned is
    the node [args] leads to, and [write] changes it. *)
Definition child (a : PathArgument) (v : Value) : Value :=
  match a, holder v with
  | kindIndex i, arrayV m => default null (StdMap.find (s32 i) m)
  | kindKey k, objectV m => default null (StdMap.find (c_str k) m)
  | _, _ => v
  end.
Definition change (a : PathArgument) (g : Value → Value) (v : Value) : Value :=
  match a with kindIndex i => update_index i g v | kindKey k => update_key k g v | kindNone => g v end.
Fixpoint make (args : list PathArgument) (node : Value) : outcome Value :=
  match args with
  | [] => Done node
  | a :: args =>
      node ← match a with
             | kindIndex i => resolve_index i node
             | kindKey k => resolveReference k node
             | kindNone => Done node
             end;
      x ← make args (child a node);
      Done (change a (λ _, x) node)
  end.
Fixpoint write (args : list PathArgument) (g : Value → Value) (node : Value) : Value :=
  match args with [] => g node | a :: args => change a (write args g) node end.

(** ** What paths mean *)

(** A component of a path, as [print] writes it. *)
Definition name_char (c : byte) : bool :=
  negb (ends_name c).
Definition component_ok (a : PathArgument) : Prop :=
  match a with
  | kindNone => False
  | kindIndex i => 0 ≤ i < 2 ^ 31
  | kindKey k => Forall (λ c, name_char c = true) k ∧ (∃ c k', k = c :: k' ∧ bool_decide (c = x25) = false)
  end.
Definition print_component (a : PathArgument) : bytes :=
  match a with
  | kindNone => []
  | kindIndex i => bs "[" ++ decimal i ++ bs "]"
  | kindKey k => bs "." ++ k
  end.
Definition print (args : list PathArgument) : bytes := args ≫= print_component.

(** The nodes the path goes through are null or containers of the right kind. *)
Fixpoint fits (args : list PathArgument) (node : Value) : Prop :=
  match args with
  | [] => True
  | kindNone :: args => False
  | kindIndex i :: args =>
      match holder node with
      | nullV => True
      | arrayV m => match StdMap.find i m with Some x => fits args x | None => True end
      | _ => False
      end
  | kindKey k :: args =>
      match holder node with
      | nullV => True
      | objectV m => match StdMap.find k m with Some x => fits args x | None => True end
      | _ => False
      end
  end.

Lemma key_c_str k : Forall (λ c, name_char c = true) k → c_str k = k.
Proof.
  intros Hk. apply c_str_id. intros Hin. rewrite Forall_forall in Hk. specialize (Hk _ Hin). done.
Qed.

Lemma find_subscript_eq {K} `{KeyOrder K} `{EqDecision K} (k : K) (m : list (K * Value)) :
  StdMap.find k (StdMap.subscript k null m) = Some (default null (StdMap.find k m)).
Proof.
  unfold StdMap.subscript. destruct (StdMap.find k m) as [x|] eqn:E.
  - unfold StdMap.insert. by rewrite E.
  - by rewrite StdMap.find_insert_fresh, decide_True.
Qed.

Lemma fits_null args : Forall component_ok args → fits args null.
Proof. destruct args as [|[|i|k] args]; [done| |done|done]. by intros [? _]%Forall_cons. Qed.

(** One step of a path, in the model of the code: the element exists, is reached
    and changed alone. *)
Lemma make_step a args node :
  component_ok a → Forall component_ok args → fits (a :: args) node →
  ∃ node' x, make (a :: args) node = (y ← make args x; Done (change a (λ _, y) node')) ∧ fits args x ∧
    ∀ y g, resolve (a :: args) (change a g (change a (λ _, y) node')) = resolve args (g y) ∧
           resolve (a :: args) (change a (λ _, y) node') = resolve args y.
Proof.
  intros Ha Hargs Hf. destruct a as [|i|k]; [done| |]; cbn in Ha, Hf.
  - destruct node as [h c]. cbn in Hf.
    assert (∃ m, as_array (mkValue h c) = Done m ∧ fits args (default null (StdMap.find i m))) as (m & Hm & Hx).
    { destruct h; try done; unfold as_array; cbn; eexists; (split; [done|]); [by apply fits_null|].
      destruct (StdMap.find i map_); [done|by apply fits_null]. }
    exists (mkValue (arrayV (StdMap.subscript i null m)) c), (default null (StdMap.find i m)).
    split; [|split; [done|]].
    + cbn [make]. unfold resolve_index. rewrite Hm, wraps_small, !bind_ret_l by lia. cbn [child holder comments].
      by rewrite wraps_small, find_subscript_eq by lia.
    + intros y g. cbn. unfold const_index, as_array. cbn. rewrite !wraps_small by lia.
      by rewrite !StdMap.find_update_eq, find_subscript_eq.
  - destruct Ha as [Hk _]. apply key_c_str in Hk. destruct node as [h c]. cbn in Hf.
    assert (∃ m, as_object (mkValue h c) = Done m ∧ fits args (default null (StdMap.find k m))) as (m & Hm & Hx).
    { destruct h; try done; unfold as_object; cbn; eexists; (split; [done|]); [by apply fits_null|].
      destruct (StdMap.find k map_); [done|by apply fits_null]. }
    exists (mkValue (objectV (StdMap.subscript k null m)) c), (default null (StdMap.find k m)).
    split; [|split; [done|]].
    + cbn [make]. unfold resolveReference. rewrite Hm, Hk, !bind_ret_l. cbn [child holder comments].
      by rewrite Hk, find_subscript_eq.
    + intros y g. cbn. unfold const_key, as_object. cbn. rewrite !Hk.
      by rewrite !StdMap.find_update_eq, find_subscript_eq.
Qed.

(** [make] creates the node, and what is written to it is found there. *)
Lemma path_make_ok args root :
  Forall component_ok args → fits args root →
  ∃ root' node, make args root = Done root' ∧ resolve args root' = Done node ∧
    ∀ g, resolve args (write args g root') = Done (g node).
Proof.
  revert root. induction args as [|a args IH]; intros root Hargs Hf; [by exists root, root|].
  apply Forall_cons in Hargs as [Ha Hargs].
  destruct (make_step a args root Ha Hargs Hf) as (node' & x & Hmake & Hx & Hres).
  destruct (IH x Hargs Hx) as (x' & node & Hd & Hr & Hw).
  exists (change a (λ _, x') node'), node. rewrite Hmake, Hd, bind_ret_l. split; [done|].
  destruct (Hres x' id) as [_ H2]. split; [by rewrite H2|]. intros g. cbn [write].
  destruct (Hres x' (write args g)) as [-> _]. apply Hw.
Qed.

(** ** Reading a path *)

Lemma name_of_spec k rest :
  Forall (λ c, name_char c = true) k → (∀ c r, rest = c :: r → ends_name c = true) →
  name_of (k ++ rest) = (k, rest).
Proof.
  intros Hk Hr. induction Hk as [|c k Hc Hk IH]; cbn.
  - destruct rest as [|c r]; [done|]. cbn. by rewrite (Hr c r eq_refl).
  - unfold name_char in Hc. apply negb_true_iff in Hc. by rewrite Hc, IH.
Qed.

Lemma decimal_value_from_ge acc ds :
  0 ≤ acc → Forall (λ c, is_digit c = true) ds → acc ≤ decimal_value_from acc ds.
Proof.
  intros Ha Hds. revert acc Ha. induction Hds as [|d ds Hd _ IH]; intros acc Ha; [done|].
  unfold decimal_value_from in *. cbn. unfold is_digit in Hd. apply andb_true_iff in Hd as [Hd1 Hd2].
  apply Z.leb_le in Hd1, Hd2. specialize (IH (acc * 10 + digit_value d)). unfold digit_value in *. lia.
Qed.

Lemma index_digits_spec ds acc c rest :
  0 ≤ acc → Forall (λ c, is_digit c = true) ds → decimal_value_from acc ds < 2 ^ 32 → is_digit c = false →
  index_digits acc (ds ++ c :: rest) = (decimal_value_from acc ds, c :: rest).
Proof.
  intros Ha Hds. revert acc Ha. induction Hds as [|d ds Hd Hds IH]; intros acc Ha Hv Hc; cbn.
  - by rewrite Hc.
  - rewrite Hd. assert (Hnn : 0 ≤ acc * 10 + digit_value d).
    { unfold is_digit in Hd. apply andb_true_iff in Hd as [Hd1 _]. apply Z.leb_le in Hd1. unfold digit_value. lia. }
    pose proof (decimal_value_from_ge (acc * 10 + digit_value d) ds Hnn Hds). change (decimal_value_from acc (d :: ds))
      with (decimal_value_from (acc * 10 + digit_value d) ds) in *.
    rewrite wrapu_small by lia. by apply IH.
Qed.

Lemma print_head args c r : Forall component_ok args → print args = c :: r → ends_name c = true.
Proof.
  destruct args as [|[|i|k] args]; [done| | |]; intros [Ha _]%Forall_cons E; [done| |]; by injection E as <- _.
Qed.

Lemma loop_key fuel k rest in_args acc :
  component_ok (kindKey k) → (∀ c r, rest = c :: r → ends_name c = true) →
  makePath_loop (S (S fuel)) (print_component (kindKey k) ++ rest) in_args acc =
    makePath_loop fuel rest in_args (acc ++ [kindKey k]).
Proof.
  intros (Hk & c & k' & -> & Hc) Hr. pose proof Hk as [Hc1 _]%Forall_cons.
  unfold name_char, ends_name in Hc1. apply negb_true_iff, orb_false_iff in Hc1 as [Hc1 Hc0].
  apply orb_false_iff in Hc1 as [Hb Hd].
  cbn [print_component]. change (bs "." ++ c :: k') with (x2e :: c :: k').
  change (makePath_loop (S (S fuel)) ((x2e :: c :: k') ++ rest) in_args acc)
    with (makePath_loop (S fuel) ((c :: k') ++ rest) in_args acc).
  cbn [makePath_loop app]. rewrite Hb, Hc, Hd. change (c :: k' ++ rest) with ((c :: k') ++ rest).
  rewrite name_of_spec by done. unfold of_string. by rewrite key_c_str.
Qed.

Lemma loop_index fuel i rest in_args acc :
  0 ≤ i < 2 ^ 31 →
  makePath_loop (S fuel) (print_component (kindIndex i) ++ rest) in_args acc =
    makePath_loop fuel rest in_args (acc ++ [kindIndex i]).
Proof.
  intros Hi. cbn [print_component]. change (bs "[" ++ decimal i ++ bs "]") with (x5b :: decimal i ++ [x5d]).
  destruct (decimal i) as [|d ds] eqn:Ed; [by apply decimal_nonempty in Ed; [|lia]|].
  pose proof (decimal_digits i ltac:(lia)) as Hds. rewrite Ed in Hds.
  pose proof (decimal_value_decimal i ltac:(lia)) as Hv. rewrite Ed in Hv.
  assert (Hd : bool_decide (d = x25) = false).
  { apply bool_decide_eq_false_2. intros ->. by apply Forall_cons in Hds as [? _]. }
  change (makePath_loop (S fuel) ((x5b :: (d :: ds) ++ [x5d]) ++ rest) in_args acc)
    with (let '(args, r) := if bool_decide (d = x25) then (addPathInArg in_args kIndex acc, (d :: ds ++ [x5d]) ++ rest)
            else let '(index, rest) := index_digits 0 ((d :: ds ++ [x5d]) ++ rest) in (acc ++ [kindIndex index], rest) in
          makePath_loop fuel (tail r) in_args args).
  rewrite Hd. replace ((d :: ds ++ [x5d]) ++ rest) with ((d :: ds) ++ x5d :: rest) by (cbn; by rewrite <-app_assoc).
  rewrite index_digits_spec by (done || (unfold decimal_value in Hv; lia)).
  unfold decimal_value in Hv. by rewrite Hv.
Qed.

Lemma makePath_print args fuel in_args acc :
  Forall component_ok args → (length (print args) < fuel)%nat →
  makePath_loop fuel (print args) in_args acc = Done (acc ++ args).
Proof.
  intros Hargs. revert fuel acc. induction Hargs as [|a args Ha Hargs IH]; intros fuel acc Hf.
  - destruct fuel; [cbn in Hf; lia|]. cbn. by rewrite app_nil_r.
  - change (print (a :: args)) with (print_component a ++ print args) in *. rewrite length_app in Hf.
    replace (acc ++ a :: args) with ((acc ++ [a]) ++ args) by by rewrite <-app_assoc.
    destruct a as [|i|k]; [done| |].
    + destruct fuel as [|fuel]; [lia|]. rewrite loop_index by done. apply IH. cbn in Hf. lia.
    + pose proof Ha as (_ & c & k' & -> & _). cbn in Hf. destruct fuel as [|[|fuel]]; [lia|lia|].
      rewrite loop_key; [apply IH; lia|done|]. intros c' r. by apply print_head.
Qed.

Lemma name_of_suffix rest : (name_of rest).2 `suffix_of` rest.
Proof.
  induction rest as [|c rest IH]; cbn; [done|]. destruct (ends_name c); [done|]. destruct (name_of rest). cbn in *. by apply suffix_cons_r.
Qed.
Lemma index_digits_suffix rest acc : (index_digits acc rest).2 `suffix_of` rest.
Proof.
  revert acc. induction rest as [|c rest IH]; intros acc; cbn; [done|]. destruct (is_digit c); [|done]. by apply suffix_cons_r.
Qed.
Lemma tail_suffix {A} (l : list A) : tail l `suffix_of` l.
Proof. destruct l; [done|]. by apply suffix_cons_r. Qed.

(** Every path without NUL is read to its end. *)
Lemma makePath_total fuel rest in_args acc :
  x00 ∉ rest → (length rest < fuel)%nat → ∃ args, makePath_loop fuel rest in_args acc = Done args.
Proof.
  revert rest acc. induction fuel as [|fuel IH]; intros rest acc Hn Hl; [lia|].
  assert (Hgo : ∀ rest' acc, rest' `suffix_of` rest → (length rest' < length rest)%nat →
    ∃ args, makePath_loop fuel rest' in_args acc = Done args).
  { intros rest' acc' [l ->] Hlt. rewrite length_app in *. apply IH; [|lia]. intros Hin. apply Hn. set_solver. }
  destruct rest as [|c rest]; [by eexists|]. cbn [makePath_loop].
  assert (Hcons : ∀ rest' : bytes, rest' `suffix_of` rest → rest' `suffix_of` c :: rest ∧ (length rest' < length (c :: rest))%nat).
  { intros rest' Hs. split; [by apply suffix_cons_r|]. apply suffix_length in Hs. cbn. lia. }
  destruct (bool_decide (c = x5b)) eqn:Eb.
  - destruct rest as [|d rest]; [apply Hgo; [apply suffix_nil|cbn; lia]|].
    destruct (bool_decide (d = x25)); [by apply Hgo; apply Hcons, tail_suffix|].
    destruct (index_digits 0 (d :: rest)) as [i r] eqn:E. apply Hgo; apply Hcons;
      (etrans; [apply tail_suffix|]); pose proof (index_digits_suffix (d :: rest) 0) as Hs; by rewrite E in Hs.
  - destruct (bool_decide (c = x25)); [by apply Hgo; apply Hcons|]. destruct (bool_decide (c = x2e)) eqn:Edot; [by apply Hgo; apply Hcons|].
    cbn. destruct (ends_name c) eqn:Ee.
    + exfalso. unfold ends_name in Ee. rewrite Eb, Edot in Ee. apply bool_decide_eq_true_1 in Ee. subst c. apply Hn. by left.
    + destruct (name_of rest) as [name r] eqn:E. pose proof (name_of_suffix rest) as Hs. rewrite E in Hs. by apply Hgo; apply Hcons.
Qed.

(** A NUL in the path is a name without characters, again and again. *)
Lemma nul_never_ends fuel rest in_args acc : makePath_loop fuel (x00 :: rest) in_args acc = Fault OutOfFuel.
Proof. revert acc. induction fuel as [|fuel IH]; intros acc; [done|]. cbn. apply IH. Qed.

(** ** Where paths depart from their documentation *)

(** The argument of ["[%]"] is followed by a member ["]"], and a second
    placeholder takes the same argument as the first. *)
Lemma index_placeholder i a2 :
  makePath (bs "[%]") [kindIndex i; a2] = Done [kindIndex i; kindKey (bs "]")].
Proof. reflexivity. Qed.
Lemma second_placeholder k1 k2 :
  makePath (bs ".%.%") [kindKey k1; kindKey k2] = Done [kindKey k1; kindKey k1].
Proof. reflexivity. Qed.

(** [resolve( root, defaultValue )] gives the default for every element that
    exists. *)
Lemma existing_element_not_found i args node dflt :
  isValidIndex i node = true → resolve_or (kindIndex i :: args) node dflt = Done (copy dflt).
Proof. intros Hi. cbn. by rewrite Hi, orb_true_r. Qed.

End Path.

(** C17. [Path]: the text of a sequence of indices and names is read as that
    sequence, whatever the arguments; where the nodes it goes through are null
    or containers of the right kind, [make] creates the node it leads to, and
    what is then assigned to the node is what [resolve] finds. *)
Theorem path_roundtrip (args in_args : list Path.PathArgument) (root : Value) :
  Forall Path.component_ok args → Path.fits args root →
  Path.makePath (Path.print args) in_args = Done args ∧
  ∃ root' node, Path.make args root = Done root' ∧ Path.resolve args root' = Done node ∧
    ∀ x, Path.resolve args (Path.write args (λ old, assign old x) root') = Done (assign node x).
Proof.
  intros Hargs Hf. split.
  - unfold Path.makePath. rewrite Path.makePath_print by (done || lia). done.
  - destruct (Path.path_make_ok args root Hargs Hf) as (root' & node & Hd & Hr & Hw). exists root', node. auto.
Qed.

(** [.users[2].name], in an object that has no such member. *)
Definition sample_path : list Path.PathArgument := [Path.kindKey (bs "users"); Path.kindIndex 2; Path.kindKey (bs "name")].
Definition sample_root : Value := of_holder (objectV [(bs "count", of_int 3)]).

Theorem path_roundtrip_witness :
  Path.print sample_path = bs ".users[2].name" ∧
  Path.makePath (Path.print sample_path) [] = Done sample_path ∧
  ∃ root' node, Path.make sample_path sample_root = Done root' ∧ Path.resolve sample_path root' = Done node ∧
    ∀ x, Path.resolve sample_path (Path.write sample_path (λ old, assign old x) root') = Done (assign node x).
Proof.
  split; [reflexivity|]. apply path_roundtrip.
  - repeat (apply Forall_cons; split); [|cbn; lia| |apply Forall_nil; done];
      (split; [repeat constructor|by eexists _, _]).
  - cbn. done.
Defined.

(** An array that grows over holes and is cut at one. *)
Theorem array_implements_list_witness :
  Array.all_in_range [Array.Append (of_int 1); Array.Set_ 3 (of_int 4); Array.Resize 2] [] ∧
  Array.run_ops [Array.Append (of_int 1); Array.Set_ 3 (of_int 4)] null
    = Done (of_holder (arrayV [(0, of_int 1); (3, of_int 4)])) ∧
  Array.run_ops [Array.Append (of_int 1); Array.Set_ 3 (of_int 4); Array.Resize 2] null
    = Fault (AssertFailed "size() == newSize").
Proof.
  assert (Hr : Array.all_in_range [Array.Append (of_int 1); Array.Set_ 3 (of_int 4); Array.Resize 2] []).
  { repeat split; vm_compute; done. }
  split; [exact Hr|]. split; [vm_compute; reflexivity|].
  exact (array_implements_list _ Hr).
Defined.
