(* ===== verification/InternalMap.v ===== *)
(** jsoncpp's own map of members (src/IMServer/src/jsoncpp/json_internalmap.inl,
    with the classes of value.h), which [JSON_VALUE_USE_INTERNAL_MAP] selects
    instead of [std::map]: buckets of chained links of six slots.  Links live in
    a store, pointers are explicit, and using a pointer that leads nowhere, or
    past the array of buckets, is undefined.  The values of the members are a
    parameter. *)

From S2P Require Import Prelude.
Local Open Scope Z_scope.

Definition itemPerLink : nat := 6.

(** A null pointer, a bucket of the array or a link of the store. *)
Inductive ptr := Null | Bucket (i : nat) | Link (id : nat).
#[export] Instance ptr_eq_dec : EqDecision ptr.
Proof. solve_decision. Defined.

Module InternalMap.
Section Map.
Context {V : Type} (null : V).

(** One of the [items_] of a link, with its flags, and its key. *)
Record slot := mkSlot { item : V; itemIsUsed_ : bool; memberNameIsStatic_ : bool; key_ : bytes }.
Record link := mkLink { slots : list slot; previous_ : ptr; next_ : ptr }.

(** [isItemAvailable()], and [isMemberNameStatic()], which tests for 0. *)
Definition isItemAvailable (x : slot) : bool := negb (itemIsUsed_ x).
Definition isMemberNameStatic (x : slot) : bool := negb (memberNameIsStatic_ x).
Definition set_item (v : V) (x : slot) : slot := mkSlot v (itemIsUsed_ x) (memberNameIsStatic_ x) (key_ x).
Definition setItemUsed (b : bool) (x : slot) : slot := mkSlot (item x) b (memberNameIsStatic_ x) (key_ x).

(** [ValueInternalLink()] *)
Definition new_link : link := mkLink (replicate itemPerLink (mkSlot null false false [])) Null Null.
Definition set_slots x (l : link) : link := mkLink x (previous_ l) (next_ l).
Definition set_previous p (l : link) : link := mkLink (slots l) p (next_ l).
Definition set_next p (l : link) : link := mkLink (slots l) (previous_ l) p.

(** The map; [bucketsSize_] is the length of the array, which is [[]] for a null
    [buckets_].  [store] holds the links allocated, [fresh_id] names the next. *)
Record t := mk {
  buckets_ : list link;
  tailLink_ : ptr;
  itemCount_ : Z;
  store : gmap nat link;
  fresh_id : nat
}.
Definition set_buckets b s := mk b (tailLink_ s) (itemCount_ s) (store s) (fresh_id s).
Definition set_tail p s := mk (buckets_ s) p (itemCount_ s) (store s) (fresh_id s).
Definition set_count n s := mk (buckets_ s) (tailLink_ s) n (store s) (fresh_id s).
Definition set_store m s := mk (buckets_ s) (tailLink_ s) (itemCount_ s) m (fresh_id s).

Definition make : t := mk [] Null 0 ∅ 0.
Definition bucketsSize_ (s : t) : nat := length (buckets_ s).
Definition size (s : t) : Z := itemCount_ s.

(** ** Pointers *)
Definition get_link (p : ptr) (s : t) : outcome link :=
  match p with
  | Null => Fault (Undefined "null link")
  | Bucket i => match buckets_ s !! i with Some l => Done l | None => Fault (Undefined "past the buckets") end
  | Link id => match store s !! id with Some l => Done l | None => Fault (Undefined "released link") end
  end.
Definition put_link (p : ptr) (l : link) (s : t) : t :=
  match p with
  | Null => s
  | Bucket i => set_buckets (<[i := l]> (buckets_ s)) s
  | Link id => set_store (<[id := l]> (store s)) s
  end.
Definition get_slot (p : ptr) (i : nat) (s : t) : outcome slot :=
  l ← get_link p s;
  match slots l !! i with Some x => Done x | None => Fault (Undefined "past the items of a link") end.
Definition put_slot (p : ptr) (i : nat) (x : slot) (s : t) : outcome t :=
  l ← get_link p s; _ ← get_slot p i s; Done (put_link p (set_slots (<[i := x]> (slots l)) l) s).

(** ** Looking up *)

(** [hash( key )]: a [char] is signed. *)
Definition schar (b : byte) : Z := if ub b <? 128 then ub b else ub b - 256.
Definition hash (key : bytes) : Z := foldl (λ h b, u32 (h + schar b * 37)) 0 (c_str key).
Definition bucket_of (key : bytes) (s : t) : nat := Z.to_nat (hash key mod Z.of_nat (bucketsSize_ s)).

(** The loop over the items of a link. *)
Inductive scanned := Available (i : nat) | Matches (i : nat) | NoMatch.
Fixpoint scan (key : bytes) (l : list slot) (i : nat) : scanned :=
  match l with
  | [] => NoMatch
  | x :: l => if isItemAvailable x then Available i
              else if bool_decide (c_str key = key_ x) then Matches i else scan key l (S i)
  end.

(** [find( key )]: where the item is. *)
Fixpoint find_loop (fuel : nat) (key : bytes) (p : ptr) (s : t) : outcome (option (ptr * nat)) :=
  match fuel with
  | O => Fault OutOfFuel
  | S fuel =>
      if bool_decide (p = Null) then Done None
      else
        l ← get_link p s;
        match scan key (slots l) 0 with
        | Available _ => Done None
        | Matches i => Done (Some (p, i))
        | NoMatch => find_loop fuel key (next_ l) s
        end
  end.
Definition links_fuel (s : t) : nat := (bucketsSize_ s + fresh_id s + 2)%nat.
Definition find (key : bytes) (s : t) : outcome (option (ptr * nat)) :=
  if bool_decide (bucketsSize_ s = 0%nat) then Done None
  else find_loop (links_fuel s) key (Bucket (bucket_of key s)) s.

(** ** Adding *)

Definition reserve (newItemCount : Z) (s : t) : t :=
  if bool_decide (buckets_ s = []) && (0 <? newItemCount)
  then set_tail (Bucket 0) (set_buckets [new_link] s) else s.
Definition reserveDelta (growth : Z) (s : t) : t := reserve (u32 (itemCount_ s + growth)) s.

(** [setNewItem( key, isStatic, link, index )] *)
Definition setNewItem (key : bytes) (isStatic : bool) (p : ptr) (index : nat) (s : t) : outcome (ptr * nat * t) :=
  x ← get_slot p index s;
  let s := set_count (u32 (itemCount_ s + 1)) s in
  s ← put_slot p index (mkSlot (item x) true isStatic (c_str key)) s;
  Done (p, index, s).

(** [getLastLinkInBucket( bucketIndex )] returns a reference to a pointer:
    [tailLink_], or [previous_] of the bucket that follows. *)
Inductive pointer_ref := TailRef | PreviousRef (bucket : nat).
Definition read_ref (r : pointer_ref) (s : t) : outcome ptr :=
  match r with
  | TailRef => Done (tailLink_ s)
  | PreviousRef b => l ← get_link (Bucket b) s; Done (previous_ l)
  end.
Definition write_ref (r : pointer_ref) (p : ptr) (s : t) : outcome t :=
  match r with
  | TailRef => Done (set_tail p s)
  | PreviousRef b => l ← get_link (Bucket b) s; Done (put_link (Bucket b) (set_previous p l) s)
  end.
Definition getLastLinkInBucket (bucketIndex : nat) (s : t) : outcome (pointer_ref * t) :=
  if Z.of_nat bucketIndex =? u32 (Z.of_nat (bucketsSize_ s) - 1) then Done (TailRef, s)
  else
    let r := PreviousRef (S bucketIndex) in
    previous ← read_ref r s;
    s ← (if bool_decide (previous = Null) then write_ref r (Bucket bucketIndex) s else Done s);
    Done (r, s).

(** The index of the first available item from [i] on, [itemPerLink] if there
    is none. *)
Fixpoint first_available (l : list slot) (i : nat) : nat :=
  match l with
  | [] => i
  | x :: l => if isItemAvailable x then i else first_available l (S i)
  end.

Definition unsafeAdd (key : bytes) (isStatic : bool) (hashedKey : Z) (s : t) : outcome (ptr * nat * t) :=
  if bool_decide (bucketsSize_ s = 0%nat) then
    Fault (Thrown "ValueInternalMap::unsafeAdd(): internal logic error.")
  else
    let bucketIndex := Z.to_nat (hashedKey mod Z.of_nat (bucketsSize_ s)) in
    '(r, s) ← getLastLinkInBucket bucketIndex s;
    p ← read_ref r s;
    l ← get_link p s;
    let index := first_available (slots l) 0 in
    if bool_decide (index = itemPerLink) then
      let id := fresh_id s in
      let s := mk (buckets_ s) (tailLink_ s) (itemCount_ s) (<[id := new_link]> (store s)) (S id) in
      let s := put_link p (set_next (Link id) l) s in
      s ← write_ref r (Link id) s;
      setNewItem key isStatic (Link id) 0 s
    else setNewItem key isStatic p index s.

(** [resolveReference( key, isStatic )]: the item of the key, new if need be. *)
Fixpoint resolve_loop (fuel : nat) (key : bytes) (isStatic : bool) (p : ptr) (s : t) : outcome (ptr * nat * t) :=
  match fuel with
  | O => Fault OutOfFuel
  | S fuel =>
      if bool_decide (p = Null) then unsafeAdd key isStatic (hash key) (reserveDelta 1 s)
      else
        l ← get_link p s;
        match scan key (slots l) 0 with
        | Available i => setNewItem key isStatic p i s
        | Matches i => Done (p, i, s)
        | NoMatch => resolve_loop fuel key isStatic (next_ l) s
        end
  end.
Definition resolveReference (key : bytes) (isStatic : bool) (s : t) : outcome (ptr * nat * t) :=
  if bool_decide (bucketsSize_ s = 0%nat) then unsafeAdd key isStatic (hash key) (reserveDelta 1 s)
  else resolve_loop (links_fuel s) key isStatic (Bucket (bucket_of key s)) s.

(** [resolveReference( key, isStatic ) = v] *)
Definition assign (key : bytes) (isStatic : bool) (v : V) (s : t) : outcome t :=
  '(p, i, s) ← resolveReference key isStatic s;
  x ← get_slot p i s;
  put_slot p i (set_item v x) s.
(** [*find( key )], if it is found. *)
Definition lookup (key : bytes) (s : t) : outcome (option V) :=
  r ← find key s;
  match r with Some (p, i) => x ← get_slot p i s; Done (Some (item x)) | None => Done None end.

(** ** Removing *)

(** [releaseMapLink( link )] *)
Definition release (p : ptr) (s : t) : outcome t :=
  _ ← get_link p s;
  match p with Link id => Done (set_store (delete id (store s)) s) | _ => Fault (Undefined "releasing a bucket") end.

(** [doActualRemove( link, index, bucketIndex )]: [getLastLinkInBucket] is
    called with the index of the item. *)
Definition doActualRemove (p : ptr) (index bucketIndex : nat) (s : t) : outcome t :=
  '(r, s) ← getLastLinkInBucket index s;
  lastLink ← read_ref r s;
  last ← get_link lastLink s;
  let lastItemIndex := first_available (drop 1 (slots last)) 1 in
  let lastUsedIndex := (lastItemIndex - 1)%nat in
  s ← (if bool_decide ((p, index) = (lastLink, lastUsedIndex)) then Done s
       else
         x ← get_slot p index s; y ← get_slot lastLink lastUsedIndex s;
         s ← put_slot p index (set_item (item y) x) s;
         y ← get_slot lastLink lastUsedIndex s;
         put_slot lastLink lastUsedIndex (set_item (item x) y) s);
  s ← (if bool_decide (lastUsedIndex = 0%nat) then
         let linkPreviousToLast := previous_ last in
         if bool_decide (linkPreviousToLast = Null) then Done s
         else
           s ← release lastLink s;
           l ← get_link linkPreviousToLast s;
           write_ref r linkPreviousToLast (put_link linkPreviousToLast (set_next Null l) s)
       else
         y ← get_slot lastLink lastUsedIndex s;
         put_slot lastLink lastUsedIndex (setItemUsed false (set_item null y)) s);
  Done (set_count (u32 (itemCount_ s - 1)) s).

Fixpoint remove_loop (fuel : nat) (key : bytes) (bucketIndex : nat) (p : ptr) (s : t) : outcome t :=
  match fuel with
  | O => Fault OutOfFuel
  | S fuel =>
      if bool_decide (p = Null) then Done s
      else
        l ← get_link p s;
        match scan key (slots l) 0 with
        | Available _ => Done s
        | Matches i => doActualRemove p i bucketIndex s
        | NoMatch => remove_loop fuel key bucketIndex (next_ l) s
        end
  end.
Definition remove (key : bytes) (s : t) : outcome t :=
  if bool_decide (bucketsSize_ s = 0%nat) then Done s
  else remove_loop (links_fuel s) key (bucket_of key s) (Bucket (bucket_of key s)) s.

(** ** Iterators *)
Record iterator := mkIt { link_ : ptr; itemIndex_ : nat; bucketIndex_ : nat }.
#[global] Instance iterator_eq_dec : EqDecision iterator.
Proof. solve_decision. Defined.
Definition makeBeginIterator (s : t) : iterator := mkIt (if bool_decide (buckets_ s = []) then Null else Bucket 0) 0 0.
Definition makeEndIterator (s : t) : iterator := mkIt Null 0 (bucketsSize_ s).
Definition equals (x y : iterator) : bool := bool_decide (x = y).

Definition incrementBucket (it : iterator) (s : t) : outcome iterator :=
  let b := S (bucketIndex_ it) in
  if (b <=? bucketsSize_ s)%nat then Done (mkIt (if bool_decide (b = bucketsSize_ s) then Null else Bucket b) 0 b)
  else Fault (Thrown "ValueInternalMap::increment(): attempting to iterate beyond end.").
Definition increment (it : iterator) (s : t) : outcome iterator :=
  let i := S (itemIndex_ it) in
  if bool_decide (i = itemPerLink) then
    if bool_decide (link_ it = Null) then
      Fault (Thrown "ValueInternalMap::increment(): attempting to iterate beyond end.")
    else
      l ← get_link (link_ it) s;
      let it := mkIt (next_ l) i (bucketIndex_ it) in
      if bool_decide (next_ l = Null) then incrementBucket it s else Done it
  else
    x ← get_slot (link_ it) i s;
    let it := mkIt (link_ it) i (bucketIndex_ it) in
    if isItemAvailable x then incrementBucket it s else Done it.
(** [decrement( iterator )] does nothing inside a link. *)
Definition decrement (it : iterator) (s : t) : outcome iterator :=
  if bool_decide (itemIndex_ it = 0%nat) then
    b ← (if bool_decide (link_ it = Bucket (bucketIndex_ it)) then
           if bool_decide (bucketIndex_ it = 0%nat) then Fault (Thrown "Attempting to iterate beyond beginning.")
           else Done (bucketIndex_ it - 1)%nat
         else Done (bucketIndex_ it));
    l ← get_link (link_ it) s;
    Done (mkIt (previous_ l) (itemPerLink - 1) b)
  else Done it.

Definition it_slot (it : iterator) (s : t) : outcome slot :=
  if bool_decide (link_ it = Null) then Fault (Thrown "Attempting to iterate using invalid iterator.")
  else get_slot (link_ it) (itemIndex_ it) s.
(** [key( iterator, isStatic )], [value( iterator )] *)
Definition key (it : iterator) (s : t) : outcome (bytes * bool) :=
  x ← it_slot it s; Done (key_ x, isMemberNameStatic x).
Definition value (it : iterator) (s : t) : outcome V := x ← it_slot it s; Done (item x).

(** [distance( x, y )] *)
Fixpoint distance (fuel : nat) (x y : iterator) (s : t) : outcome Z :=
  match fuel with
  | O => Fault OutOfFuel
  | S fuel => if equals x y then Done 0 else x ← increment x s; distance fuel x y s
  end.

(** ** Copying, comparing, releasing *)
Definition items_fuel (s : t) : nat := (itemPerLink * links_fuel s + 2)%nat.

Fixpoint copy_loop (fuel : nat) (it : iterator) (other s : t) : outcome t :=
  match fuel with
  | O => Fault OutOfFuel
  | S fuel =>
      if equals it (makeEndIterator other) then Done s
      else
        '(memberName, isStatic) ← key it other;
        v ← value it other;
        s ← assign memberName isStatic v s;
        it ← increment it other;
        copy_loop fuel it other s
  end.
(** [ValueInternalMap( other )] *)
Definition copy (other : t) : outcome t :=
  copy_loop (items_fuel other) (makeBeginIterator other) other (reserve (itemCount_ other) make).
(** [operator =], [swap], [clear()] *)
Definition swap (s other : t) : t * t := (other, s).
Definition clear (s : t) : t := (swap s make).1.

Fixpoint keys_in (fuel : nat) (it : iterator) (s other : t) : outcome bool :=
  match fuel with
  | O => Fault OutOfFuel
  | S fuel =>
      if equals it (makeEndIterator s) then Done true
      else
        '(k, _) ← key it s;
        r ← find k other;
        match r with Some _ => it ← increment it s; keys_in fuel it s other | None => Done false end
  end.
Fixpoint compare_values (compare_value : V → V → Z) (fuel : nat) (it : iterator) (s other : t) : outcome Z :=
  match fuel with
  | O => Fault OutOfFuel
  | S fuel =>
      if equals it (makeEndIterator s) then Done 0
      else
        '(k, _) ← key it s;
        w ← lookup k other;
        v ← value it s;
        match w with
        | Some w => if compare_value v w =? 0 then it ← increment it s; compare_values compare_value fuel it s other
                    else Done (compare_value v w)
        | None => Fault (Undefined "null otherValue")
        end
  end.
(** [compare( other )], over that of the values. *)
Definition compare (compare_value : V → V → Z) (s other : t) : outcome Z :=
  let sizeDiff := s32 (itemCount_ s - itemCount_ other) in
  if sizeDiff =? 0 then
    b ← keys_in (items_fuel s) (makeBeginIterator s) s other;
    if (b : bool) then compare_values compare_value (items_fuel s) (makeBeginIterator s) s other else Done 1
  else Done sizeDiff.

(** [~ValueInternalLink()]: the keys it frees. *)
Definition freed_keys (l : link) : list bytes :=
  omap (λ x, if isMemberNameStatic x then None else Some (key_ x)) (take (first_available (slots l) 0) (slots l)).
Fixpoint release_chain (fuel : nat) (p : ptr) (s : t) : outcome (list bytes * t) :=
  match fuel with
  | O => Fault OutOfFuel
  | S fuel =>
      if bool_decide (p = Null) then Done ([], s)
      else
        l ← get_link p s;
        s ← release p s;
        '(ks, s) ← release_chain fuel (next_ l) s;
        Done (freed_keys l ++ ks, s)
  end.
(** [~ValueInternalMap()]: the keys freed, and what is left. *)
Fixpoint release_buckets (fuel : nat) (bs : list link) (s : t) : outcome (list bytes * t) :=
  match bs with
  | [] => Done ([], s)
  | b :: bs =>
      '(ks, s) ← release_chain fuel (next_ b) s;
      '(ks', s) ← release_buckets fuel bs s;
      Done (ks ++ ks', s)
  end.
Definition dtor (s : t) : outcome (list bytes * t) :=
  '(ks, s) ← release_buckets (links_fuel s) (buckets_ s) s;
  Done (ks ++ concat (map freed_keys (buckets_ s)), set_buckets [] s).


(** * The map without removals

    The chain of links as the list of their slots: the first link is the bucket,
    the others are the links of the store in the order they were made. *)
Definition ptr_at (i : nat) : ptr := match i with O => Bucket 0 | S j => Link j end.
Definition next_at (sl : list (list slot)) (i : nat) : ptr := if (S i <? length sl)%nat then Link i else Null.
Record mem (s : t) (sl : list (list slot)) : Prop := mkMem {
  mem_some : sl ≠ [];
  mem_buckets : ∃ l, sl !! 0%nat = Some l ∧ buckets_ s = [mkLink l Null (next_at sl 0)];
  mem_store i : store s !! i = (λ l, mkLink l Null (next_at sl (S i))) <$> sl !! S i;
  mem_fresh : S (fresh_id s) = length sl;
  mem_tail : tailLink_ s = ptr_at (length sl - 1)
}.

Lemma mem_get s sl i l :
  mem s sl → sl !! i = Some l → get_link (ptr_at i) s = Done (mkLink l Null (next_at sl i)).
Proof.
  intros [_ (l0 & H0 & Hb) Hst _ _] Hi. destruct i as [|i]; cbn [ptr_at get_link].
  - rewrite Hb. cbn. congruence.
  - by rewrite Hst, Hi.
Qed.

Lemma next_at_insert sl i l j : next_at (<[i := l]> sl) j = next_at sl j.
Proof. unfold next_at. by rewrite length_insert. Qed.

Lemma mem_put s sl i l :
  mem s sl → (i < length sl)%nat →
  mem (put_link (ptr_at i) (mkLink l Null (next_at sl i)) s) (<[i := l]> sl).
Proof.
  intros [Hne (l0 & H0 & Hb) Hst Hf Ht] Hi. split.
  - intros He. apply (f_equal length) in He. rewrite length_insert in He. cbn in He. lia.
  - rewrite next_at_insert. destruct i as [|i].
    + exists l. rewrite list_lookup_insert_eq by done. split; [done|]. cbn. by rewrite Hb.
    + exists l0. rewrite list_lookup_insert_ne by done. done.
  - intros j. rewrite next_at_insert. destruct i as [|i]; cbn [ptr_at put_link].
    + rewrite list_lookup_insert_ne by done. apply Hst.
    + cbn. destruct (decide (i = j)) as [<-|Hj].
      * rewrite lookup_insert_eq, list_lookup_insert_eq by done. done.
      * rewrite lookup_insert_ne, list_lookup_insert_ne by congruence. apply Hst.
  - rewrite length_insert. by destruct i.
  - rewrite length_insert. by destruct i.
Qed.

Lemma mem_put_slot s sl i l j x x' :
  mem s sl → sl !! i = Some l → l !! j = Some x →
  ∃ s', put_slot (ptr_at i) j x' s = Done s' ∧ mem s' (<[i := <[j := x']> l]> sl) ∧ itemCount_ s' = itemCount_ s.
Proof.
  intros Hm Hi Hj. unfold put_slot, get_slot. rewrite (mem_get _ _ _ _ Hm Hi), !bind_ret_l. cbn [slots].
  rewrite Hj, bind_ret_l. eexists. split; [done|]. split.
  - apply mem_put; [done|]. by apply lookup_lt_Some in Hi.
  - by destruct i.
Qed.
Lemma mem_get_slot s sl i l j x :
  mem s sl → sl !! i = Some l → l !! j = Some x → get_slot (ptr_at i) j s = Done x.
Proof.
  intros Hm Hi Hj. unfold get_slot. rewrite (mem_get _ _ _ _ Hm Hi), bind_ret_l. cbn [slots]. by rewrite Hj.
Qed.

(** A new link at the end of the chain. *)
Definition free_slots : list slot := slots new_link.
Lemma mem_append s sl l n :
  mem s sl → sl !! (length sl - 1)%nat = Some l →
  mem (set_tail (Link (fresh_id s))
        (put_link (tailLink_ s) (set_next (Link (fresh_id s)) (mkLink l Null (next_at sl (length sl - 1))))
          (mk (buckets_ s) (tailLink_ s) n (<[fresh_id s := new_link]> (store s)) (S (fresh_id s)))))
      (sl ++ [free_slots]).
Proof.
  intros [Hne (l0 & H0 & Hb) Hst Hf Ht] Hl.
  destruct (length sl) as [|k] eqn:Ek; [destruct sl; [done|discriminate]|]. injection Hf as Hf. rewrite Hf, Ht in *.
  replace (S k - 1)%nat with k in * by lia.
  assert (Hnext : ∀ i, next_at (sl ++ [free_slots]) i = if decide (i = k) then Link k else next_at sl i).
  { intros i. unfold next_at. rewrite length_app, Ek. cbn [length]. case_decide as Hd.
    - subst i. by rewrite (proj2 (Nat.ltb_lt _ _)) by lia.
    - destruct (Nat.ltb_spec (S i) (S k)); [by rewrite (proj2 (Nat.ltb_lt _ _)) by lia|].
      by rewrite (proj2 (Nat.ltb_ge _ _)) by lia. }
  assert (Hlast : next_at (sl ++ [free_slots]) (S k) = Null).
  { unfold next_at. rewrite length_app, Ek. cbn [length]. by rewrite (proj2 (Nat.ltb_ge _ _)) by lia. }
  split.
  - by destruct sl.
  - exists l0. split; [by apply lookup_app_l_Some|]. rewrite Hnext. destruct k as [|k]; cbn.
    + rewrite Hb. cbn. assert (l = l0) as -> by congruence. done.
    + by rewrite Hb.
  - intros i. cbn [store set_tail]. destruct (decide (S i = k)) as [<-|Hik].
    + cbn [ptr_at put_link set_store store]. rewrite lookup_insert_eq. rewrite lookup_app_l by lia. rewrite Hl. cbn.
      by rewrite Hnext, decide_True.
    + assert (Hput : store (put_link (ptr_at k) (set_next (Link k) (mkLink l Null (next_at sl k)))
                (mk (buckets_ s) (ptr_at k) n (<[k := new_link]> (store s)) (S k))) !! i = <[k := new_link]> (store s) !! i).
      { destruct k as [|k]; cbn [ptr_at put_link set_store set_buckets store]; [done|]. by rewrite lookup_insert_ne by congruence. }
      rewrite Hput. destruct (decide (i = k)) as [->|Hne'].
      * rewrite lookup_insert_eq. rewrite lookup_app_r by lia. rewrite Ek, Nat.sub_diag. by rewrite Hlast.
      * rewrite lookup_insert_ne by done. rewrite Hst. destruct (decide (i < k)%nat) as [Hlt|Hge].
        -- rewrite lookup_app_l by lia. by rewrite Hnext, decide_False.
        -- rewrite !lookup_ge_None_2; [done| |]; rewrite ?length_app; cbn; lia.
  - rewrite length_app, Ek. cbn. destruct k; cbn; lia.
  - rewrite length_app, Ek. cbn. replace (k + 1 - 0)%nat with (S k) by lia. done.
Qed.

(** The links: full ones, then one with the items [a] and the free slots [b]. *)
Definition in_use (x : slot) : Prop := itemIsUsed_ x = true.
Definition unused (x : slot) : Prop := itemIsUsed_ x = false.
Record layout (full : list (list slot)) (a b : list slot) : Prop := mkLayout {
  lay_full : Forall (λ l, length l = itemPerLink ∧ Forall in_use l) full;
  lay_used : Forall in_use a;
  lay_free : Forall unused b;
  lay_length : (length a + length b)%nat = itemPerLink;
  lay_keys : NoDup (map key_ (concat full ++ a))
}.

Lemma scan_spec k u f n :
  Forall in_use u → Forall unused f →
  (∃ j x, u !! j = Some x ∧ key_ x = c_str k ∧ scan k (u ++ f) n = Matches (n + j)) ∨
  (∀ x, x ∈ u → key_ x ≠ c_str k) ∧
    scan k (u ++ f) n = match f with [] => NoMatch | _ => Available (n + length u) end.
Proof.
  intros Hu Hf. revert n. induction Hu as [|x u Hx _ IH]; intros n.
  - right. split; [set_solver|]. destruct Hf as [|y f Hy]; [done|]. cbn. unfold isItemAvailable.
    rewrite Hy. cbn. by rewrite Nat.add_0_r.
  - cbn [app scan]. unfold isItemAvailable. rewrite Hx. cbn [negb]. case_bool_decide as Hk.
    + left. exists 0%nat, x. split_and!; [done|done|]. by rewrite Nat.add_0_r.
    + destruct (IH (S n)) as [(j & y & Hj & Hy & ->)|[Hno ->]].
      * left. exists (S j), y. split_and!; [done..|]. f_equal. lia.
      * right. split; [|cbn [length]; destruct f; [done|f_equal; lia]]. intros y [->|Hin]%elem_of_cons; [congruence|by apply Hno].
Qed.

Definition links (full : list (list slot)) (a b : list slot) : list (list slot) := full ++ [a ++ b].

(** What the loop finds in the [i]-th link. *)
Lemma scan_link k full a b i l :
  layout full a b → links full a b !! i = Some l →
  (∃ j x, l !! j = Some x ∧ in_use x ∧ key_ x = c_str k ∧ scan k l 0 = Matches j) ∨
  ((i < length full)%nat ∧ full !! i = Some l ∧ (∀ x, x ∈ l → key_ x ≠ c_str k) ∧ scan k l 0 = NoMatch) ∨
  (i = length full ∧ (∀ x, x ∈ a → key_ x ≠ c_str k) ∧
     scan k l 0 = match b with [] => NoMatch | _ => Available (length a) end).
Proof.
  intros [Hfull Ha Hb Hlen _] Hi. unfold links in Hi.
  assert (Hfound : ∀ u f, l = u ++ f → Forall in_use u →
    (∃ j x, u !! j = Some x ∧ key_ x = c_str k ∧ scan k (u ++ f) 0 = Matches (0 + j)) →
    ∃ j x, l !! j = Some x ∧ in_use x ∧ key_ x = c_str k ∧ scan k l 0 = Matches j).
  { intros u f -> Hu (j & x & Hj & Hk & Hs). exists j, x. split_and!; [by apply lookup_app_l_Some| |done|done].
    by apply (proj1 (Forall_lookup _ _) Hu j). }
  destruct (decide (i < length full)%nat) as [Hlt|Hge].
  - rewrite lookup_app_l in Hi by done. destruct (proj1 (Forall_lookup _ _) Hfull i l Hi) as [_ Hu].
    destruct (scan_spec k l [] 0 Hu) as [Hm|[Hno Hs]]; [constructor| |].
    + left. apply (Hfound l []); [by rewrite app_nil_r|done|done].
    + right. left. rewrite app_nil_r in Hs. done.
  - rewrite lookup_app_r in Hi by lia. destruct (i - length full)%nat as [|k'] eqn:E; [|by destruct k'].
    injection Hi as <-. destruct (scan_spec k a b 0 Ha Hb) as [Hm|[Hno Hs]].
    + left. by apply (Hfound a b).
    + right. right. split; [lia|]. done.
Qed.

Lemma links_lookup full a b i : (i ≤ length full)%nat → ∃ l, links full a b !! i = Some l.
Proof. intros Hi. apply lookup_lt_is_Some_2. unfold links. rewrite length_app. cbn. lia. Qed.
Lemma next_links full a b i :
  (i ≤ length full)%nat → next_at (links full a b) i = if decide (i = length full) then Null else ptr_at (S i).
Proof.
  intros Hi. unfold next_at, links. rewrite length_app. cbn [length ptr_at].
  case_decide; [by rewrite (proj2 (Nat.ltb_ge _ _)) by lia|by rewrite (proj2 (Nat.ltb_lt _ _)) by lia].
Qed.
Lemma ptr_at_some i : ptr_at i ≠ Null.
Proof. by destruct i. Qed.

(** Where a key is: in the chain from the [i]-th link on, or not. *)
Definition located (k : bytes) (sl : list (list slot)) (i j : nat) : Prop :=
  ∃ l x, sl !! i = Some l ∧ l !! j = Some x ∧ in_use x ∧ key_ x = c_str k.
Definition absent (k : bytes) (l : list slot) : Prop := ∀ x, x ∈ l → key_ x ≠ c_str k.

Lemma absent_from full a i l k :
  full !! i = Some l → absent k l → absent k (concat (drop (S i) full) ++ a) → absent k (concat (drop i full) ++ a).
Proof.
  intros Hl Ha Hrest x. rewrite (drop_S _ _ _ Hl). cbn [concat]. rewrite <-app_assoc, elem_of_app.
  intros [Hx|Hx]; [by apply Ha|by apply Hrest].
Qed.
Lemma absent_last full a k : absent k a → absent k (concat (drop (length full) full) ++ a).
Proof. intros Ha. by rewrite drop_all. Qed.

Lemma find_loop_spec k full a b s i fuel :
  mem s (links full a b) → layout full a b → (i ≤ length full)%nat → (length full - i + 2 ≤ fuel)%nat →
  (∃ i' j, located k (links full a b) i' j ∧ find_loop fuel k (ptr_at i) s = Done (Some (ptr_at i', j))) ∨
  absent k (concat (drop i full) ++ a) ∧ find_loop fuel k (ptr_at i) s = Done None.
Proof.
  intros Hm Hl. remember (length full - i)%nat as n eqn:Hn. revert i Hn fuel.
  induction n as [|n IH]; intros i Hn fuel Hi Hfuel; (destruct fuel as [|fuel]; [lia|]); cbn [find_loop].
  all: destruct (links_lookup full a b i Hi) as [l Hli].
  all: rewrite bool_decide_false by apply ptr_at_some; rewrite (mem_get _ _ _ _ Hm Hli), bind_ret_l; cbn [slots next_].
  all: destruct (scan_link k full a b i l Hl Hli) as [(j & x & Hj & Hx & Hk & ->)|[(Hlt & Hfl & Hno & ->)|(-> & Hno & ->)]].
  - left. exists i, j. split; [by exists l, x|done].
  - lia.
  - right. split; [by apply absent_last|]. destruct b; [|done].
    rewrite next_links, decide_True by done. destruct fuel as [|fuel]; [lia|]. by cbn.
  - left. exists i, j. split; [by exists l, x|done].
  - rewrite next_links, decide_False by lia. destruct (IH (S i) ltac:(lia) fuel ltac:(lia) ltac:(lia)) as [Hf|[Ha Hf]]; [by left|right].
    split; [by eapply absent_from|done].
  - lia.
Qed.

(** What is done for a key that is not there. *)
Definition add_new (k : bytes) (isStatic : bool) (full : list (list slot)) (a b : list slot) (s : t) : outcome (ptr * nat * t) :=
  match b with
  | [] => unsafeAdd k isStatic (hash k) (reserveDelta 1 s)
  | _ => setNewItem k isStatic (ptr_at (length full)) (length a) s
  end.
Lemma resolve_loop_spec k isStatic full a b s i fuel :
  mem s (links full a b) → layout full a b → (i ≤ length full)%nat → (length full - i + 2 ≤ fuel)%nat →
  (∃ i' j, located k (links full a b) i' j ∧
     resolve_loop fuel k isStatic (ptr_at i) s = Done (ptr_at i', j, s)) ∨
  absent k (concat (drop i full) ++ a) ∧ resolve_loop fuel k isStatic (ptr_at i) s = add_new k isStatic full a b s.
Proof.
  intros Hm Hl. remember (length full - i)%nat as n eqn:Hn. revert i Hn fuel.
  induction n as [|n IH]; intros i Hn fuel Hi Hfuel; (destruct fuel as [|fuel]; [lia|]); cbn [resolve_loop].
  all: destruct (links_lookup full a b i Hi) as [l Hli].
  all: rewrite bool_decide_false by apply ptr_at_some; rewrite (mem_get _ _ _ _ Hm Hli), bind_ret_l; cbn [slots next_].
  all: destruct (scan_link k full a b i l Hl Hli) as [(j & x & Hj & Hx & Hk & ->)|[(Hlt & Hfl & Hno & ->)|(-> & Hno & ->)]].
  - left. exists i, j. split; [by exists l, x|done].
  - lia.
  - right. split; [by apply absent_last|]. destruct b; [|done].
    rewrite next_links, decide_True by done. destruct fuel as [|fuel]; [lia|]. by cbn.
  - left. exists i, j. split; [by exists l, x|done].
  - rewrite next_links, decide_False by lia. destruct (IH (S i) ltac:(lia) fuel ltac:(lia) ltac:(lia)) as [Hf|[Ha Hf]]; [by left|right].
    split; [by eapply absent_from|done].
  - lia.
Qed.

(** ** The map it represents *)
Definition pair_of (x : slot) : bytes * V := (key_ x, item x).
Definition entries (full : list (list slot)) (a : list slot) : list slot := concat full ++ a.

Lemma keys_of_pairs E : (map pair_of E).*1 = map key_ E.
Proof. induction E as [|x E IH]; [done|]. cbn. by rewrite IH. Qed.

Lemma map_of_replaced E1 E2 x y :
  NoDup (map key_ (E1 ++ x :: E2)) → key_ y = key_ x →
  (list_to_map (map pair_of (E1 ++ y :: E2)) : gmap bytes V) =
  <[key_ x := item y]> (list_to_map (map pair_of (E1 ++ x :: E2))).
Proof.
  intros Hn Hk.
  assert (Hp : ∀ z, key_ z = key_ x →
    (list_to_map (map pair_of (E1 ++ z :: E2)) : gmap bytes V) = <[key_ x := item z]> (list_to_map (map pair_of (E1 ++ E2)))).
  { intros z Hz. rewrite (list_to_map_proper _ (map pair_of (z :: E1 ++ E2))).
    - cbn. unfold pair_of at 1. cbn. by rewrite Hz.
    - rewrite keys_of_pairs. rewrite !map_app in Hn |- *. cbn in Hn |- *. by rewrite Hz.
    - apply Permutation_map. symmetry. apply Permutation_middle. }
  rewrite (Hp y Hk), (Hp x eq_refl). by rewrite insert_insert_eq.
Qed.
Lemma map_of_added E x :
  NoDup (map key_ (E ++ [x])) →
  (list_to_map (map pair_of (E ++ [x])) : gmap bytes V) = <[key_ x := item x]> (list_to_map (map pair_of E)).
Proof.
  intros Hn. rewrite (list_to_map_proper _ (map pair_of (x :: E))); [done|by rewrite keys_of_pairs|].
  apply Permutation_map. symmetry. apply Permutation_cons_append.
Qed.

(** Replacing one slot in use. *)
Lemma replace_slot full a b i l j x y :
  layout full a b → links full a b !! i = Some l → l !! j = Some x → in_use x → in_use y → key_ y = key_ x →
  ∃ full' a' E1 E2,
    <[i := <[j := y]> l]> (links full a b) = links full' a' b ∧ layout full' a' b ∧ length a' = length a ∧ length full' = length full ∧
    entries full a = E1 ++ x :: E2 ∧ entries full' a' = E1 ++ y :: E2.
Proof.
  intros Hl Hi Hj Hx Hy Hk. pose proof Hl as [Hfull Ha Hb Hlen Hkeys]. unfold links in Hi.
  assert (Hlay : ∀ full' a' E1 E2, Forall (λ l, length l = itemPerLink ∧ Forall in_use l) full' → Forall in_use a' →
    length a' = length a → entries full a = E1 ++ x :: E2 → entries full' a' = E1 ++ y :: E2 → layout full' a' b).
  { intros full' a' E1 E2 H1 H2 H3 H4 H5. split; [done|done|done|by rewrite H3|].
    unfold entries in H4, H5. rewrite H5, map_app. cbn [map]. rewrite Hk. by rewrite H4, map_app in Hkeys. }
  destruct (decide (i < length full)%nat) as [Hlt|Hge].
  - rewrite lookup_app_l in Hi by done. destruct (proj1 (Forall_lookup _ _) Hfull i l Hi) as [Hll Hlu].
    set (l' := <[j := y]> l).
    assert (H1 : entries full a = (concat (take i full) ++ take j l) ++ x :: (drop (S j) l ++ concat (drop (S i) full) ++ a)).
    { unfold entries. rewrite <-(take_drop_middle full i l Hi) at 1. rewrite concat_app. cbn [concat].
      rewrite <-(take_drop_middle l j x Hj) at 1. by rewrite <-!app_assoc. }
    assert (H2 : entries (<[i := l']> full) a = (concat (take i full) ++ take j l) ++ y :: (drop (S j) l ++ concat (drop (S i) full) ++ a)).
    { unfold entries. rewrite insert_take_drop by done. rewrite concat_app. cbn [concat].
      unfold l'. rewrite insert_take_drop by (by apply lookup_lt_Some in Hj). by rewrite <-!app_assoc. }
    exists (<[i := l']> full), a, (concat (take i full) ++ take j l), (drop (S j) l ++ concat (drop (S i) full) ++ a).
    split; [unfold links; by rewrite insert_app_l|]. split; [|split; [done|split; [by rewrite length_insert|done]]]. eapply Hlay; [|done|done|done|done].
    apply Forall_insert; [done|]. split; [unfold l'; by rewrite length_insert|]. by apply Forall_insert.
  - rewrite lookup_app_r in Hi by lia. destruct (i - length full)%nat as [|k'] eqn:E; [|by destruct k'].
    injection Hi as <-. assert (i = length full) as -> by lia.
    destruct (decide (j < length a)%nat) as [Hja|Hja].
    2: { rewrite lookup_app_r in Hj by lia. pose proof (proj1 (Forall_lookup _ _) Hb _ _ Hj) as Hu. unfold in_use, unused in *. congruence. }
    rewrite lookup_app_l in Hj by done.
    assert (H1 : entries full a = (concat full ++ take j a) ++ x :: drop (S j) a).
    { unfold entries. rewrite <-(take_drop_middle a j x Hj) at 1. by rewrite <-app_assoc. }
    assert (H2 : entries full (<[j := y]> a) = (concat full ++ take j a) ++ y :: drop (S j) a).
    { unfold entries. rewrite insert_take_drop by done. by rewrite <-app_assoc. }
    exists full, (<[j := y]> a), (concat full ++ take j a), (drop (S j) a).
    split; [|split; [|split; [by rewrite length_insert|done]]].
    + unfold links. rewrite <-(Nat.add_0_r (length full)), insert_app_r. cbn. by rewrite insert_app_l.
    + eapply Hlay; [done| |by rewrite length_insert|done|done]. by apply Forall_insert.
Qed.

(** The first free slot taken into use. *)
Lemma take_slot full a f b y :
  layout full a (f :: b) → in_use y → absent (key_ y) (entries full a) → c_str (key_ y) = key_ y →
  <[length full := <[length a := y]> (a ++ f :: b)]> (links full a (f :: b)) = links full (a ++ [y]) b ∧
  layout full (a ++ [y]) b.
Proof.
  intros [Hfull Ha Hb Hlen Hkeys] Hy Hab Hc. split.
  - unfold links. rewrite <-(Nat.add_0_r (length full)), insert_app_r. cbn. do 2 f_equal.
    rewrite <-(Nat.add_0_r (length a)), insert_app_r. cbn. by rewrite <-app_assoc.
  - split; [done|by apply Forall_app; split; [|constructor]|by inversion Hb|rewrite length_app; cbn in *; lia|].
    rewrite app_assoc, map_app. apply NoDup_app. split; [done|]. split; [|apply NoDup_singleton].
    intros k Hin Hk. cbn in Hk. apply list_elem_of_singleton in Hk as ->.
    apply list_elem_of_fmap in Hin as (x & Hx & Hin). apply (Hab x Hin). by rewrite Hc.
Qed.

(** The keys of a map are C strings. *)
Definition c_keys (full : list (list slot)) (a : list slot) : Prop := ∀ x, x ∈ entries full a → c_str (key_ x) = key_ x.

Inductive rep (s : t) (M : gmap bytes V) : Prop :=
  | rep_empty : buckets_ s = [] → itemCount_ s = 0 → store s = ∅ → fresh_id s = 0%nat → M = ∅ → rep s M
  | rep_links full a b :
      mem s (links full a b) → layout full a b → (full ≠ [] → a ≠ []) → c_keys full a → itemCount_ s = Z.of_nat (length (entries full a)) →
      M = list_to_map (map pair_of (entries full a)) → rep s M.

Lemma rep_make : rep make ∅.
Proof. by apply rep_empty. Qed.

Lemma rep_size s M : rep s M → itemCount_ s = Z.of_nat (base.size M).
Proof.
  intros [_ Hc _ _ ->|full a b _ Hl _ _ Hc ->]; rewrite Hc; [by rewrite map_size_empty|].
  rewrite map_size_list_to_map by (rewrite keys_of_pairs; apply Hl). by rewrite length_map.
Qed.

Lemma located_lookup full a k i j M :
  layout full a M → located k (links full a M) i j → ∃ x, x ∈ entries full a ∧ key_ x = c_str k ∧
    ∀ s, mem s (links full a M) → get_slot (ptr_at i) j s = Done x.
Proof.
  intros Hl (l & x & Hi & Hj & Hx & Hk). exists x. split; [|split; [done|]].
  - destruct (replace_slot full a M i l j x x Hl Hi Hj Hx Hx eq_refl) as (_ & _ & E1 & E2 & _ & _ & _ & _ & -> & _). set_solver.
  - intros s Hm. by eapply mem_get_slot.
Qed.

(** Looking up. *)
Lemma lookup_rep s M k : rep s M → lookup k s = Done (M !! c_str k).
Proof.
  unfold lookup, find. intros [Hb _ _ _ ->|full a b Hm Hl _ _ Hc ->].
  - rewrite bool_decide_true by (unfold bucketsSize_; by rewrite Hb). by rewrite lookup_empty.
  - destruct (mem_buckets _ _ Hm) as (l0 & _ & Hb).
    assert (Hone : bucketsSize_ s = 1%nat) by (unfold bucketsSize_; by rewrite Hb).
    rewrite bool_decide_false by lia.
    assert (Hbucket : bucket_of k s = 0%nat) by (unfold bucket_of; rewrite Hone; by rewrite Z.mod_1_r).
    rewrite Hbucket. pose proof (mem_fresh _ _ Hm) as Hf. unfold links in Hf. rewrite length_app in Hf. cbn in Hf.
    destruct (find_loop_spec k full a b s 0 (links_fuel s) Hm Hl) as [(i & j & Hloc & Hfind)|[Hab Hfind]]; [lia|unfold links_fuel; lia|..].
    + change (Bucket 0) with (ptr_at 0). rewrite Hfind, bind_ret_l.
      destruct (located_lookup _ _ _ _ _ _ Hl Hloc) as (x & Hin & Hk & Hget). rewrite (Hget s Hm), bind_ret_l.
      f_equal. symmetry. apply elem_of_list_to_map_1; [rewrite keys_of_pairs; apply Hl|].
      apply list_elem_of_fmap. exists x. split; [|done]. unfold pair_of. by rewrite Hk.
    + change (Bucket 0) with (ptr_at 0). rewrite Hfind, bind_ret_l. f_equal. symmetry. apply not_elem_of_list_to_map_1.
      rewrite keys_of_pairs. intros (x & Hx & Hin)%list_elem_of_fmap. by apply (Hab x).
Qed.

(** The end of an assignment, once the item is known. *)
Definition store_value (v : V) (r : ptr * nat * t) : outcome t :=
  let '(p, i, s) := r in x ← get_slot p i s; put_slot p i (set_item v x) s.

(** A free slot is taken for a new key. *)
Lemma new_item k isStatic v full a f b s :
  mem s (links full a (f :: b)) → layout full a (f :: b) → c_keys full a → absent k (entries full a) →
  itemCount_ s = Z.of_nat (length (entries full a)) → itemCount_ s < 2 ^ 32 - 1 →
  ∃ s', (r ← setNewItem k isStatic (ptr_at (length full)) (length a) s; store_value v r) = Done s' ∧
    rep s' (<[c_str k := v]> (list_to_map (map pair_of (entries full a)))).
Proof.
  intros Hm Hl Hck Hab Hc Hlt.
  assert (Hi : links full a (f :: b) !! length full = Some (a ++ f :: b)) by by apply list_lookup_middle.
  assert (Hj : (a ++ f :: b) !! length a = Some f) by by apply list_lookup_middle.
  set (y := mkSlot (item f) true isStatic (c_str k)). set (y' := set_item v y).
  assert (Hca : ∀ z, key_ z = c_str k → absent (key_ z) (entries full a))
    by (intros z Hz x Hx; rewrite Hz, c_str_idemp; by apply Hab).
  set (s0 := set_count (u32 (itemCount_ s + 1)) s).
  assert (Hm0 : mem s0 (links full a (f :: b))) by by destruct Hm; split.
  destruct (mem_put_slot s0 _ _ _ _ f y Hm0 Hi Hj) as (s1 & Hs1 & Hm1 & Hc1).
  destruct (take_slot full a f b y Hl eq_refl (Hca y eq_refl)) as [Hlinks Hl1]; [apply c_str_idemp|].
  rewrite Hlinks in Hm1.
  assert (Hi1 : links full (a ++ [y]) b !! length full = Some ((a ++ [y]) ++ b)) by by apply list_lookup_middle.
  assert (Hj1 : ((a ++ [y]) ++ b) !! length a = Some y) by (rewrite <-app_assoc; by apply list_lookup_middle).
  destruct (mem_put_slot s1 _ _ _ _ y y' Hm1 Hi1 Hj1) as (s2 & Hs2 & Hm2 & Hc2).
  destruct (take_slot full a f b y' Hl eq_refl (Hca y' eq_refl)) as [_ Hl2]; [apply c_str_idemp|].
  exists s2. split.
  - unfold setNewItem. rewrite (mem_get_slot _ _ _ _ _ _ Hm Hi Hj), bind_ret_l. cbv zeta. fold s0 y.
    rewrite Hs1, bind_ret_l. cbn [store_value mbind outcome_bind].
    change (mbind ?k (get_slot ?p ?i ?s)) with (get_slot p i s ≫= k).
    unfold store_value. rewrite (mem_get_slot _ _ _ _ _ _ Hm1 Hi1 Hj1), bind_ret_l. exact Hs2.
  - apply (rep_links s2 _ full (a ++ [y']) b); [|done|by destruct a|unfold c_keys, entries; rewrite app_assoc; intros x [Hx|Hx%list_elem_of_singleton]%elem_of_app; [by apply Hck|rewrite Hx; apply c_str_idemp]| |].
    + assert (Heq : <[length full := <[length a := y']> ((a ++ [y]) ++ b)]> (links full (a ++ [y]) b) = links full (a ++ [y']) b).
      { unfold links. rewrite <-(Nat.add_0_r (length full)), insert_app_r. cbn. do 2 f_equal.
        rewrite <-!app_assoc. rewrite <-(Nat.add_0_r (length a)), insert_app_r. done. }
      by rewrite <-Heq.
    + rewrite Hc2, Hc1. unfold s0. cbn [itemCount_ set_count]. rewrite wrapu_small by lia. rewrite Hc.
      unfold entries. rewrite !length_app. cbn. lia.
    + unfold entries. rewrite app_assoc. rewrite map_of_added; [done|]. rewrite <-app_assoc. apply Hl2.
Qed.

Lemma first_available_used l n : Forall in_use l → first_available l n = (n + length l)%nat.
Proof.
  intros Hl. revert n. induction Hl as [|x l Hx _ IH]; intros n; cbn [first_available length]; [lia|].
  unfold isItemAvailable. rewrite Hx. cbn. rewrite IH. lia.
Qed.
Lemma free_slots_layout : layout [] [] free_slots.
Proof. split; [constructor|constructor| |done|constructor]. repeat constructor. Qed.
Lemma layout_new_link full a : layout full a [] → layout (full ++ [a]) [] free_slots.
Proof.
  intros [Hf Ha _ Hlen Hk]. split.
  - apply Forall_app. split; [done|]. constructor; [|done]. split; [cbn in Hlen; lia|done].
  - constructor.
  - repeat constructor.
  - done.
  - rewrite concat_app. cbn. by rewrite !app_nil_r.
Qed.

(** [assign] refines the insertion in a finite map. *)
Lemma assign_rep s M k isStatic v :
  rep s M → Z.of_nat (base.size M) < 2 ^ 32 - 1 →
  ∃ s', assign k isStatic v s = Done s' ∧ rep s' (<[c_str k := v]> M).
Proof.
  intros Hr Hsize. pose proof (rep_size _ _ Hr) as Hcount. rewrite <-Hcount in Hsize.
  change (assign k isStatic v s) with (r ← resolveReference k isStatic s; store_value v r).
  unfold resolveReference. destruct Hr as [Hb Hc Hst Hf ->|full a b Hm Hl Hne Hck Hc ->].
  - rewrite bool_decide_true by (unfold bucketsSize_; by rewrite Hb).
    assert (Hres : reserveDelta 1 s = set_tail (Bucket 0) (set_buckets [new_link] s)).
    { unfold reserveDelta, reserve. rewrite Hc. rewrite bool_decide_true by done. done. }
    rewrite Hres. set (s1 := set_tail _ _).
    assert (Hm1 : mem s1 (links [] [] free_slots)).
    { split; [done|by exists free_slots|intros i; cbn; by rewrite Hst, lookup_empty|cbn; by rewrite Hf|done]. }
    assert (Hadd : unsafeAdd k isStatic (hash k) s1 = setNewItem k isStatic (Bucket 0) 0 s1).
    { unfold unsafeAdd. rewrite bool_decide_false by done. change (bucketsSize_ s1) with 1%nat.
      rewrite Z.mod_1_r. done. }
    rewrite Hadd. destruct (new_item k isStatic v [] [] (mkSlot null false false []) (replicate 5 (mkSlot null false false [])) s1)
      as (s' & Hs' & Hr'); [done|apply free_slots_layout|by intros ? ?%elem_of_nil|by intros ? ?%elem_of_nil|done|done|].
    exists s'. by split.
  - destruct (mem_buckets _ _ Hm) as (l0 & _ & Hb).
    assert (Hone : bucketsSize_ s = 1%nat) by (unfold bucketsSize_; by rewrite Hb).
    rewrite bool_decide_false by lia.
    assert (Hbucket : bucket_of k s = 0%nat) by (unfold bucket_of; rewrite Hone; by rewrite Z.mod_1_r).
    rewrite Hbucket. pose proof (mem_fresh _ _ Hm) as Hf. unfold links in Hf. rewrite length_app in Hf. cbn in Hf.
    destruct (resolve_loop_spec k isStatic full a b s 0 (links_fuel s) Hm Hl) as [(i & j & Hloc & Hres)|[Hab Hres]];
      [lia|unfold links_fuel; lia|..]; change (Bucket 0) with (ptr_at 0); rewrite Hres.
    + destruct Hloc as (l & x & Hi & Hj & Hx & Hk). rewrite bind_ret_l. unfold store_value.
      rewrite (mem_get_slot _ _ _ _ _ _ Hm Hi Hj), bind_ret_l.
      destruct (mem_put_slot s _ _ _ _ x (set_item v x) Hm Hi Hj) as (s' & Hs' & Hm' & Hc'). exists s'. split; [done|].
      destruct (replace_slot full a b i l j x (set_item v x) Hl Hi Hj Hx Hx eq_refl)
        as (full' & a' & E1 & E2 & Hlinks & Hl' & Hsame & Hfull & HE & HE'). rewrite Hlinks in Hm'.
      apply (rep_links s' _ full' a' b); [done|done| | | |].
      * intros Hf'. destruct full, full'; try done. destruct a, a'; try done. by destruct Hne.
      * intros y. rewrite HE', elem_of_app, elem_of_cons. intros [Hy|[->|Hy]]; cbn; apply Hck; rewrite HE; set_solver.
      * rewrite Hc', Hc, HE, HE'. by rewrite !length_app.
      * rewrite HE, HE'. rewrite (map_of_replaced E1 E2 x (set_item v x)); [by rewrite Hk| |done]. rewrite <-HE. apply Hl.
    + cbn [drop] in Hab. fold (entries full a) in Hab. unfold add_new. destruct b as [|f b].
      2: { apply (new_item k isStatic v full a f b s); try done. }
      assert (Ha6 : length a = itemPerLink) by (pose proof (lay_length _ _ _ Hl); cbn in *; lia).
      assert (Hres' : reserveDelta 1 s = s).
      { unfold reserveDelta, reserve. by rewrite bool_decide_false by by rewrite Hb. }
      rewrite Hres'. unfold unsafeAdd. rewrite bool_decide_false by lia. rewrite Hone, Z.mod_1_r.
      unfold getLastLinkInBucket. rewrite Hone. change (Z.of_nat (Z.to_nat 0) =? u32 (Z.of_nat 1 - 1)) with true.
      cbn iota. rewrite bind_ret_l. cbn [read_ref]. rewrite bind_ret_l.
      assert (Hlen : length (links full a []) = S (length full)) by (unfold links; rewrite length_app; cbn; lia).
      assert (Hlast : links full a [] !! (length (links full a []) - 1)%nat = Some a).
      { rewrite Hlen. replace (S (length full) - 1)%nat with (length full) by lia. unfold links. rewrite app_nil_r.
        by apply list_lookup_middle. }
      assert (Hget : get_link (tailLink_ s) s = Done (mkLink a Null (next_at (links full a []) (length (links full a []) - 1)))).
      { rewrite (mem_tail _ _ Hm). by apply mem_get. }
      rewrite Hget, bind_ret_l. cbn [slots]. rewrite first_available_used by apply Hl. rewrite Nat.add_0_l.
      rewrite bool_decide_true by done. cbv zeta. cbn [write_ref]. rewrite bind_ret_l.
      pose proof (mem_append s _ a (itemCount_ s) Hm Hlast) as Hm1. set (s1 := set_tail _ _) in *.
      assert (Hid : Link (fresh_id s) = ptr_at (length (full ++ [a]))).
      { rewrite length_app. cbn [length]. rewrite Nat.add_1_r. cbn. f_equal. lia. }
      assert (Hlinks : links full a [] ++ [free_slots] = links (full ++ [a]) [] free_slots).
      { unfold links. by rewrite app_nil_r. }
      rewrite Hlinks in Hm1.
      assert (HE : entries (full ++ [a]) [] = entries full a).
      { unfold entries. rewrite concat_app. cbn. by rewrite !app_nil_r. }
      assert (Hc1 : itemCount_ s1 = itemCount_ s) by (unfold s1; by destruct (tailLink_ s)).
      destruct (new_item k isStatic v (full ++ [a]) [] (mkSlot null false false []) (replicate 5 (mkSlot null false false [])) s1)
        as (s' & Hs' & Hr'); [done|by apply layout_new_link|by unfold c_keys; rewrite HE|by rewrite HE|by rewrite HE, Hc1|by rewrite Hc1|].
      exists s'. rewrite <-Hid in Hs'. rewrite HE in Hr'. split; [|done]. rewrite <-Hs'. done.
Qed.

(** ** Copies *)

(** An iterator in the bucket. *)
Definition at_item (j : nat) : iterator := mkIt (Bucket 0) j 0.
Lemma at_item_slot s l full a b j x :
  mem s (links full a b) → links full a b !! 0%nat = Some l → l !! j = Some x → it_slot (at_item j) s = Done x.
Proof.
  intros Hm Hl Hj. unfold it_slot. cbn [at_item link_ itemIndex_]. rewrite bool_decide_false by done.
  by apply (mem_get_slot s (links full a b) 0 l).
Qed.

Lemma mem_one s sl : mem s sl → bucketsSize_ s = 1%nat.
Proof. intros Hm. destruct (mem_buckets _ _ Hm) as (l0 & _ & Hb). unfold bucketsSize_. by rewrite Hb. Qed.

(** Moving on inside the first link. *)
Lemma increment_inside s full a b l j x :
  mem s (links full a b) → links full a b !! 0%nat = Some l → (S j < itemPerLink)%nat → l !! S j = Some x →
  increment (at_item j) s =
    Done (if isItemAvailable x then makeEndIterator s else at_item (S j)).
Proof.
  intros Hm Hl Hlt Hx. unfold increment. cbn [at_item itemIndex_ link_ bucketIndex_].
  rewrite bool_decide_false by lia. rewrite (mem_get_slot s _ 0 l (S j) x Hm Hl Hx : get_slot (Bucket 0) (S j) s = _), bind_ret_l. cbv zeta.
  destruct (isItemAvailable x); [|done]. unfold incrementBucket, makeEndIterator. cbn [bucketIndex_].
  by rewrite (mem_one _ _ Hm).
Qed.
(** Leaving it: the index is not reset when there is another link. *)
Lemma increment_across s full a b l :
  mem s (links full a b) → links full a b !! 0%nat = Some l →
  increment (at_item 5) s =
    Done (match full with [] => makeEndIterator s | _ => mkIt (ptr_at 1) itemPerLink 0 end).
Proof.
  intros Hm Hl. unfold increment. cbn [at_item itemIndex_ link_ bucketIndex_].
  rewrite bool_decide_true by done. rewrite bool_decide_false by done.
  rewrite (mem_get s _ 0 l Hm Hl : get_link (Bucket 0) s = _), bind_ret_l. cbn [next_].
  rewrite next_links by lia. destruct full as [|f full]; cbn [length].
  - rewrite decide_True by done. rewrite bool_decide_true by done.
    unfold incrementBucket, makeEndIterator. cbn [bucketIndex_]. by rewrite (mem_one _ _ Hm).
  - rewrite decide_False by done. by rewrite bool_decide_false.
Qed.

Lemma list_to_map_snoc (l : list (bytes * V)) k v :
  NoDup (l ++ [(k, v)]).*1 → (list_to_map (l ++ [(k, v)]) : gmap bytes V) = <[k := v]> (list_to_map l).
Proof.
  intros Hn. rewrite (list_to_map_proper _ ((k, v) :: l)); [done|done|]. symmetry. apply Permutation_cons_append.
Qed.

(** A step of the copy. *)
Lemma copy_step fuel s full a b l j x other M :
  mem s (links full a b) → links full a b !! 0%nat = Some l → l !! j = Some x →
  rep other M → Z.of_nat (base.size M) < 2 ^ 32 - 1 → c_str (key_ x) = key_ x →
  ∃ other', rep other' (<[key_ x := item x]> M) ∧
    copy_loop (S fuel) (at_item j) s other = (it ← increment (at_item j) s; copy_loop fuel it s other').
Proof.
  intros Hm Hl Hj Hr Hsize Hx. destruct (assign_rep other M (key_ x) (isMemberNameStatic x) (item x) Hr Hsize) as (o' & Ho & Hr').
  exists o'. rewrite Hx in Hr'. split; [done|]. cbn [copy_loop].
  unfold equals. rewrite bool_decide_false by done.
  unfold key, value. rewrite (at_item_slot s l full a b j x Hm Hl Hj), !bind_ret_l. by rewrite Ho, bind_ret_l.
Qed.

Lemma copy_one_link s a b :
  mem s (links [] a b) → layout [] a b → c_keys [] a →
  ∀ n j fuel other, (n + j)%nat = length a → (0 < n)%nat → (n + 1 ≤ fuel)%nat →
  rep other (list_to_map (map pair_of (take j a))) →
  ∃ other', copy_loop fuel (at_item j) s other = Done other' ∧ rep other' (list_to_map (map pair_of a)).
Proof.
  intros Hm Hl Hc n. pose proof Hl as [_ Ha Hb Hlen Hkeys]. cbn [concat app] in Hkeys.
  induction n as [|n IH]; intros j fuel other Hj Hn Hfuel Hr; [lia|]. destruct fuel as [|fuel]; [lia|].
  destruct (lookup_lt_is_Some_2 a j ltac:(lia)) as [x Hx].
  assert (Hl0 : links [] a b !! 0%nat = Some (a ++ b)) by done.
  assert (Hxb : (a ++ b) !! j = Some x) by by apply lookup_app_l_Some.
  assert (Hin : x ∈ a) by by apply list_elem_of_lookup_2 in Hx.
  assert (Hsize : (base.size (list_to_map (map pair_of (take j a)) : gmap bytes V) ≤ 6)%nat).
  { rewrite map_size_list_to_map; [rewrite length_map, length_take; unfold itemPerLink in Hlen; lia|].
    rewrite keys_of_pairs, <-firstn_map. by eapply sublist_NoDup, sublist_take. }
  destruct (copy_step fuel s [] a b _ j x other _ Hm Hl0 Hxb Hr ltac:(lia) (Hc x Hin)) as (o' & Hr' & ->).
  assert (Htake : take (S j) a = take j a ++ [x]) by by apply take_S_r.
  assert (Hnext : (list_to_map (map pair_of (take (S j) a)) : gmap bytes V) = <[key_ x := item x]> (list_to_map (map pair_of (take j a)))).
  { rewrite Htake, map_app. cbn [map]. change (pair_of x) with (key_ x, item x). rewrite list_to_map_snoc; [done|].
    change [(key_ x, item x)] with (map pair_of [x]). rewrite <-map_app, <-Htake, keys_of_pairs, <-firstn_map. by eapply sublist_NoDup, sublist_take. }
  rewrite <-Hnext in Hr'. destruct (decide (n = 0%nat)) as [->|Hn0].
  - assert (Hall : take (S j) a = a) by (apply take_ge; lia). rewrite Hall in Hr'.
    assert (Hinc : increment (at_item j) s = Done (makeEndIterator s)).
    { destruct (decide (j = 5%nat)) as [->|Hj5]; [by apply (increment_across s [] a b (a ++ b))|].
      unfold itemPerLink in Hlen. destruct (lookup_lt_is_Some_2 b 0 ltac:(lia)) as [y Hy].
      rewrite (increment_inside s [] a b (a ++ b) j y Hm Hl0); [|unfold itemPerLink; lia|].
      - unfold isItemAvailable. by rewrite (proj1 (Forall_lookup _ _) Hb 0%nat y Hy).
      - rewrite lookup_app_r by lia. by replace (S j - length a)%nat with 0%nat by lia. }
    rewrite Hinc, bind_ret_l. destruct fuel as [|fuel]; [lia|]. exists o'. split; [|done]. cbn [copy_loop].
    unfold equals. by rewrite bool_decide_true.
  - unfold itemPerLink in Hlen. destruct (lookup_lt_is_Some_2 a (S j) ltac:(lia)) as [y Hy].
    rewrite (increment_inside s [] a b (a ++ b) j y Hm Hl0); [|unfold itemPerLink; lia|by apply lookup_app_l_Some].
    unfold isItemAvailable. rewrite (proj1 (Forall_lookup _ _) Ha _ _ Hy). cbn [negb]. rewrite bind_ret_l.
    apply (IH (S j) fuel o'); [lia|lia|lia|done].
Qed.

Lemma copy_two_links s l full a b :
  mem s (links (l :: full) a b) → layout (l :: full) a b → c_keys (l :: full) a →
  ∀ n j fuel other M, (n + j)%nat = 5%nat → (n + 2 ≤ fuel)%nat → rep other M → (base.size M ≤ j)%nat →
  copy_loop fuel (at_item j) s other = Fault (Undefined "past the items of a link").
Proof.
  intros Hm Hl Hc n. pose proof (lay_full _ _ _ Hl) as Hfull. apply Forall_cons in Hfull as [[Hl6 Hu] Hfull].
  assert (Hl0 : links (l :: full) a b !! 0%nat = Some l) by done. unfold itemPerLink in Hl6.
  induction n as [|n IH]; intros j fuel other M Hj Hfuel Hr Hsize; (destruct fuel as [|fuel]; [lia|]).
  all: destruct (lookup_lt_is_Some_2 l j ltac:(lia)) as [x Hx].
  all: assert (Hin : x ∈ entries (l :: full) a)
    by (unfold entries; cbn [concat]; rewrite <-app_assoc; apply elem_of_app; left; by apply list_elem_of_lookup_2 in Hx).
  all: destruct (copy_step fuel s (l :: full) a b l j x other M Hm Hl0 Hx Hr ltac:(lia) (Hc x Hin)) as (o' & Hr' & ->).
  - assert (j = 5%nat) as -> by lia. rewrite (increment_across s (l :: full) a b l Hm Hl0), bind_ret_l.
    destruct fuel as [|fuel]; [lia|]. cbn [copy_loop]. unfold equals. rewrite bool_decide_false by done.
    unfold key, it_slot. cbn [link_ itemIndex_ ptr_at]. rewrite bool_decide_false by done.
    destruct (links_lookup (l :: full) a b 1) as [l1 Hl1]; [cbn; lia|]. unfold get_slot.
    rewrite (mem_get s _ 1 l1 Hm Hl1 : get_link (Link 0) s = _), bind_ret_l. cbn [slots].
    assert (Hlen1 : length l1 = 6%nat).
    { destruct full as [|l' full]; cbn in Hl1; injection Hl1 as <-.
      - rewrite length_app. apply Hl.
      - apply Forall_cons in Hfull as [[Hl' _] _]. done. }
    rewrite lookup_ge_None_2; [done|]. unfold itemPerLink. lia.
  - destruct (lookup_lt_is_Some_2 l (S j) ltac:(lia)) as [y Hy].
    rewrite (increment_inside s (l :: full) a b l j y Hm Hl0); [|unfold itemPerLink; lia|done].
    unfold isItemAvailable. rewrite (proj1 (Forall_lookup _ _) Hu _ _ Hy). cbn [negb]. rewrite bind_ret_l.
    apply (IH (S j) fuel o' (<[key_ x := item x]> M)); [lia|lia|done|]. rewrite map_size_insert. destruct (M !! key_ x); cbn; lia.
Qed.

(** ** Histories of assignments *)
Fixpoint assign_all (l : list (bytes * bool * V)) (s : t) : outcome t :=
  match l with
  | [] => Done s
  | (k, isStatic, v) :: l => s ← assign k isStatic v s; assign_all l s
  end.
Definition assigned (l : list (bytes * bool * V)) (M : gmap bytes V) : gmap bytes V :=
  foldl (λ M '(k, _, v), <[c_str k := v]> M) M l.

Lemma assign_all_rep l s M :
  rep s M → Z.of_nat (base.size M) + Z.of_nat (length l) < 2 ^ 32 →
  ∃ s', assign_all l s = Done s' ∧ rep s' (assigned l M).
Proof.
  revert s M. induction l as [|[[k b] v] l IH]; intros s M Hr Hn; [by exists s|]. cbn [length] in Hn.
  destruct (assign_rep s M k b v Hr ltac:(lia)) as (s1 & Hs1 & Hr1). cbn [assign_all]. rewrite Hs1, bind_ret_l.
  apply IH; [done|]. rewrite map_size_insert. destruct (M !! c_str k); cbn; lia.
Qed.
Lemma assigned_some l M : M ≠ ∅ → assigned l M ≠ ∅.
Proof.
  revert M. induction l as [|[[k b] v] l IH]; intros M Hm; [done|]. cbn. apply IH. apply insert_non_empty.
Qed.

(** Reserving room changes nothing that is seen. *)
Lemma reserve_rep n : rep (reserve n make) ∅.
Proof.
  unfold reserve. cbn. destruct (0 <? n); [|apply rep_make].
  apply (rep_links _ _ [] [] free_slots); try done.
  - split; [done|by exists free_slots|intros i; cbn; by rewrite lookup_empty|done|done].
  - apply free_slots_layout.
  - by intros ? ?%elem_of_nil.
Qed.

(** Copying. *)
Lemma copy_rep s M :
  rep s M → M ≠ ∅ → Z.of_nat (base.size M) < 2 ^ 32 →
  if (base.size M <=? itemPerLink)%nat then ∃ s', copy s = Done s' ∧ rep s' M
  else copy s = Fault (Undefined "past the items of a link").
Proof.
  intros Hr Hne Hbound. pose proof (rep_size _ _ Hr) as Hsize. destruct Hr as [_ _ _ _ ->|full a b Hm Hl Hfa Hck Hc HM]; [done|].
  assert (Hpos : (0 < length (entries full a))%nat).
  { destruct (entries full a) eqn:E; [|cbn; lia]. exfalso. apply Hne. by rewrite HM. }
  assert (Hlen : base.size M = length (entries full a)) by lia.
  destruct (mem_buckets _ _ Hm) as (l0 & _ & Hb).
  assert (Hbegin : makeBeginIterator s = at_item 0).
  { unfold makeBeginIterator. by rewrite bool_decide_false by by rewrite Hb. }
  unfold copy. rewrite Hbegin. pose proof (reserve_rep (itemCount_ s)) as Hres.
  assert (Hfuel : (8 ≤ items_fuel s)%nat) by (unfold items_fuel, links_fuel, itemPerLink; lia).
  rewrite Hlen. destruct full as [|l full].
  - unfold entries in *. cbn [concat app] in *. pose proof (lay_length _ _ _ Hl) as Hal.
    rewrite (proj2 (Nat.leb_le _ _)) by lia. unfold itemPerLink in Hal.
    destruct (copy_one_link s a b Hm Hl Hck (length a) 0 (items_fuel s) (reserve (itemCount_ s) make)) as (s' & Hs' & Hr');
      [lia|lia|lia|done|]. exists s'. by rewrite HM.
  - assert (Ha : a ≠ []) by by apply Hfa. assert (Hgt : (itemPerLink < length (entries (l :: full) a))%nat).
    { unfold entries. cbn [concat]. rewrite !length_app. pose proof (lay_full _ _ _ Hl) as Hf.
      apply Forall_cons in Hf as [[-> _] _]. destruct a; [done|cbn [length]; lia]. }
    rewrite (proj2 (Nat.leb_gt _ _)) by lia.
    apply (copy_two_links s l full a b Hm Hl Hck 5 0 (items_fuel s) _ ∅); [done|lia|done|by rewrite map_size_empty].
Qed.

(** ** Removals *)
Lemma remove_loop_find fuel k bucketIndex p s :
  remove_loop fuel k bucketIndex p s =
  r ← find_loop fuel k p s;
  match r with Some (p, i) => doActualRemove p i bucketIndex s | None => Done s end.
Proof.
  revert p. induction fuel as [|fuel IH]; intros p; [done|]. cbn [remove_loop find_loop].
  case_bool_decide; [done|]. destruct (get_link p s) as [l|]; [|done]. rewrite !bind_ret_l.
  by destruct (scan k (slots l) 0).
Qed.

(** The last link is asked for by the index of the item: only an item at the
    start of its link is removed from a chain at all. *)
Lemma remove_second_undefined s full a b k i j :
  mem s (links full a b) → layout full a b → located k (links full a b) i j →
  find k s = Done (Some (ptr_at i, j)) → (0 < j)%nat →
  remove k s = Fault (Undefined "past the buckets").
Proof.
  intros Hm Hl Hloc Hf Hj. destruct (mem_buckets _ _ Hm) as (l0 & _ & Hb).
  assert (Hone : bucketsSize_ s = 1%nat) by (unfold bucketsSize_; by rewrite Hb).
  unfold remove. unfold find in Hf. rewrite bool_decide_false in Hf |- * by lia. rewrite remove_loop_find, Hf, bind_ret_l.
  unfold doActualRemove, getLastLinkInBucket. rewrite Hone. change (u32 (Z.of_nat 1 - 1)) with 0.
  rewrite (proj2 (Z.eqb_neq _ _)) by lia. cbn [read_ref get_link]. rewrite Hb. by destruct j.
Qed.

(** * Properties *)

(** Without removals the map is a finite map: after any assignments to
    members, which never fail, looking up a key finds the value last assigned to
    it and the size is the number of keys; links are chained as need be.  A copy
    of up to six members, the slots of one link, is the same map; with more,
    the iterator runs past the first link and copying is undefined. *)
Theorem internal_map_implements_map l :
  Z.of_nat (length l) < 2 ^ 32 →
  ∃ s, assign_all l make = Done s ∧ (∀ k, lookup k s = Done (assigned l ∅ !! c_str k)) ∧
    size s = Z.of_nat (base.size (assigned l ∅)) ∧
    if (base.size (assigned l ∅) <=? itemPerLink)%nat then
      ∃ s', copy s = Done s' ∧ size s' = size s ∧ ∀ k, lookup k s' = lookup k s
    else copy s = Fault (Undefined "past the items of a link").
Proof.
  intros Hn. destruct (assign_all_rep l make ∅ rep_make) as (s & Hs & Hr); [by rewrite map_size_empty|].
  exists s. split; [done|]. split; [intros k; by apply lookup_rep|]. split; [by apply rep_size|].
  destruct l as [|[[k b] v] l].
  - injection Hs as <-. cbn [assigned foldl]. rewrite map_size_empty. cbn. by eexists.
  - assert (Hne : assigned ((k, b, v) :: l) ∅ ≠ ∅) by (apply (assigned_some l), insert_non_empty).
    assert (Hbound : ∀ l M, (base.size (assigned l M) ≤ base.size M + length l)%nat).
    { clear. induction l as [|[[k b] v] l IH]; intros M; [cbn; lia|]. cbn [assigned foldl]. etransitivity; [apply IH|].
      rewrite map_size_insert. cbn [length]. destruct (M !! c_str k); cbn; lia. }
    pose proof (Hbound ((k, b, v) :: l) ∅) as Hsz. rewrite map_size_empty in Hsz.
    pose proof (copy_rep s _ Hr Hne ltac:(lia)) as Hc. destruct (_ <=? _)%nat; [|done].
    destruct Hc as (s' & Hs' & Hr'). exists s'. split; [done|]. unfold size. rewrite (rep_size _ _ Hr), (rep_size _ _ Hr').
    split; [done|]. intros x. by rewrite !lookup_rep with (M := assigned ((k, b, v) :: l) ∅).
Qed.
End Map.

(** ** Examples *)
Module Sample.
Definition entry (k : string) (v : Z) : bytes * bool * Z := (bs k, false, v).
Definition filled (l : list (bytes * bool * Z)) : t := match assign_all 0 l make with Done s => s | Fault _ => make end.
Definition two : list (bytes * bool * Z) := [entry "a" 1; entry "b" 2].
Definition seven : list (bytes * bool * Z) :=
  [entry "a" 1; entry "b" 2; entry "c" 3; entry "d" 4; entry "e" 5; entry "f" 6; entry "g" 7].

Lemma internal_map_implements_map_witness :
  ∃ s, assign_all 0 seven make = Done s ∧ (∀ k, lookup k s = Done (assigned seven ∅ !! c_str k)) ∧
    lookup (bs "g") s = Done (Some 7).
Proof.
  destruct (internal_map_implements_map 0 seven) as (s & Hs & Hl & _); [done|].
  exists s. split; [done|]. split; [done|]. by rewrite Hl.
Defined.

(** Removing the first member gives its key the value of the last, whose own
    key is lost: the keys are not swapped. *)
Example remove_mixes_keys :
  (s ← remove 0 (bs "a") (filled two); a ← lookup (bs "a") s; b ← lookup (bs "b") s; Done (a, b, size s)) =
  Done (Some 2, None, 1).
Proof. vm_compute. reflexivity. Qed.

(** The only member of a link is counted as removed but stays. *)
Example remove_last_stays :
  (s ← remove 0 (bs "a") (filled [entry "a" 1]); a ← lookup (bs "a") s; Done (a, size s)) = Done (Some 1, 0).
Proof. vm_compute. reflexivity. Qed.

(** The second member cannot be removed. *)
Example remove_second :
  remove 0 (bs "b") (filled two) = Fault (Undefined "past the buckets").
Proof. vm_compute. reflexivity. Qed.

(** [distance] counts nothing. *)
Example distance_zero :
  distance 10 (makeBeginIterator (filled two)) (makeEndIterator (filled two)) (filled two) = Done 0.
Proof. vm_compute. reflexivity. Qed.

(** [isMemberNameStatic] is inverted: the copied keys of the members are not
    freed. *)
Example keys_leak : (r ← dtor (filled two); Done r.1) = Done [].
Proof. vm_compute. reflexivity. Qed.

End Sample.
End InternalMap.
