(* ===== verification/BatchAllocator.v ===== *)
(** jsoncpp's allocator of objects of a fixed size
    (src/IMServer/src/jsoncpp/json_batchallocator.h), from which the internal array
    takes its pages: objects of [objectPerAllocation] units each, taken from
    batches of [objectsPerPage] objects; a released object goes to the front of a
    list.  Objects of one unit never leave their batches; pages of eight values
    come from one batch of 255 pages, and a 256th one lies past its end. *)

From S2P Require Import Prelude.
Local Open Scope Z_scope.

Module BatchAllocator.
Section Allocator.
Context (objectPerAllocation objectsPerPage_ : Z).

(** Offsets are in units of the allocated type; [end_] is [objectsPerPage]
    whatever the size of an object. *)
Record BatchInfo := mkBatch { used_ : Z; end_ : Z; capacity : Z }.
(** The batches, by number, [batches_] the order of their list, [currentBatch_]
    and the list of released objects, as batch and offset. *)
Record t := mk { batch : list BatchInfo; currentBatch_ : nat; freeHead_ : list (nat * Z) }.

Definition allocateBatch (objectsPerPage : Z) : BatchInfo :=
  mkBatch 0 objectsPerPage (objectPerAllocation * objectsPerPage).
(** [BatchAllocator( objectsPerPage )]: a batch without objects. *)
Definition make : outcome t :=
  _ ← cassert (16 <=? objectsPerPage_) "objectsPerPage >= 16";
  Done (mk [allocateBatch 0] 0 []).

(** The objects of the batches that [next_] leads to from the current one: the
    newest batch is the head of the list, and its next is the one before. *)
Fixpoint next_free (n : nat) (bs : list BatchInfo) : option nat :=
  match n with
  | O => None
  | S n =>
      match bs !! n with
      | Some b => if used_ b =? end_ b then next_free n bs else Some n
      | None => None
      end
  end.

Definition allocate (s : t) : outcome (nat * Z * t) :=
  match freeHead_ s with
  | object :: rest => Done (object, mk (batch s) (currentBatch_ s) rest)
  | [] =>
      let full b := used_ b =? end_ b in
      let '(current, bs) :=
        match batch s !! currentBatch_ s with
        | Some b =>
            if full b then
              match next_free (currentBatch_ s) (batch s) with
              | Some c => (c, batch s)
              | None => (length (batch s), batch s ++ [allocateBatch objectsPerPage_])
              end
            else (currentBatch_ s, batch s)
        | None => (currentBatch_ s, batch s)
        end in
      match bs !! current with
      | Some b =>
          _ ← defined_if (used_ b + objectPerAllocation <=? capacity b) "past the end of a batch";
          Done (current, used_ b,
                mk (<[current := mkBatch (used_ b + objectPerAllocation) (end_ b) (capacity b)]> bs) current [])
      | None => Fault (Undefined "no batch")
      end
  end.
Definition release (object : nat * Z) (s : t) : t := mk (batch s) (currentBatch_ s) (object :: freeHead_ s).

(** A history of allocations and of releases of the k-th object that is live. *)
Inductive op := Allocate | Release (k : nat).
Definition step (o : op) (live : list (nat * Z)) (s : t) : outcome (list (nat * Z) * t) :=
  match o with
  | Allocate => '(x, s) ← allocate s; Done (x :: live, s)
  | Release k =>
      match live !! k with
      | Some x => Done (delete k live, release x s)
      | None => Done (live, s)
      end
  end.
Fixpoint run (l : list op) (live : list (nat * Z)) (s : t) : outcome (list (nat * Z) * t) :=
  match l with [] => Done (live, s) | o :: l => '(live, s) ← step o live s; run l live s end.
End Allocator.

(** ** Lemmas: one unit per object. *)
Definition batch_ok (b : BatchInfo) : Prop := 0 ≤ used_ b ≤ end_ b ∧ capacity b = end_ b.
Definition taken (s : t) (x : nat * Z) : Prop :=
  ∃ b, batch s !! x.1 = Some b ∧ 0 ≤ x.2 < used_ b.

Record Inv (live : list (nat * Z)) (s : t) : Prop := {
  inv_current : (currentBatch_ s < length (batch s))%nat;
  inv_batches : Forall batch_ok (batch s);
  inv_apart : NoDup (live ++ freeHead_ s);
  inv_taken : Forall (taken s) (live ++ freeHead_ s)
}.

Lemma batch_inv_make n s : make 1 n = Done s → Inv [] s.
Proof.
  unfold make. intros H. destruct_done H. injection H as <-. split; cbn; [lia| |constructor|constructor].
  repeat constructor; cbn; lia.
Qed.

Lemma next_free_some n bs c : next_free n bs = Some c → ∃ b, bs !! c = Some b ∧ used_ b ≠ end_ b.
Proof.
  induction n as [|n IH]; cbn; [done|]. destruct (bs !! n) as [b|] eqn:E; [|done].
  destruct (Z.eqb_spec (used_ b) (end_ b)); [done|]. intros [= <-]. by exists b.
Qed.

(** Taking the next object of a batch that is not full. *)
Lemma take_object live s bs c b :
  Inv live s → freeHead_ s = [] → Forall batch_ok bs → (∀ i x, batch s !! i = Some x → bs !! i = Some x) →
  bs !! c = Some b → used_ b < end_ b →
  used_ b + 1 ≤ capacity b ∧
  Inv ((c, used_ b) :: live) (mk (<[c := mkBatch (used_ b + 1) (end_ b) (capacity b)]> bs) c []).
Proof.
  intros Hi Hfree Hok Hsame Hc Hlt. pose proof (Forall_lookup_1 _ _ _ _ Hok Hc) as [Hu Hcap]. split; [lia|].
  pose proof (inv_apart _ _ Hi) as Hap. pose proof (inv_taken _ _ Hi) as Htk. rewrite Hfree, app_nil_r in Hap, Htk.
  pose proof (lookup_lt_Some _ _ _ Hc) as Hlen. split; cbn [currentBatch_ batch freeHead_]; rewrite ?app_nil_r.
  - by rewrite length_insert.
  - apply Forall_insert; [done|]. split; cbn; lia.
  - apply NoDup_cons. split; [|done]. intros Hin. rewrite Forall_forall in Htk. destruct (Htk _ Hin) as (x & Hx & Hr).
    apply Hsame in Hx. cbn in Hx, Hr. rewrite Hc in Hx. injection Hx as ->. lia.
  - constructor.
    + eexists. cbn. rewrite list_lookup_insert_eq by done. split; [done|]. cbn. lia.
    + eapply Forall_impl; [exact Htk|]. intros x (y & Hy & Hr). apply Hsame in Hy. unfold taken. cbn.
      rewrite list_lookup_insert by done. case_decide as E; [|by exists y]. destruct E as [E _].
      rewrite <- E, Hc in Hy. injection Hy as ->. eexists. split; [done|]. cbn. lia.
Qed.

Lemma allocate_inv n live s :
  16 ≤ n → Inv live s → ∃ x s', allocate 1 n s = Done (x, s') ∧ Inv (x :: live) s'.
Proof.
  intros Hn Hi. unfold allocate. destruct (freeHead_ s) as [|x rest] eqn:Hfree.
  - destruct (lookup_lt_is_Some_2 _ _ (inv_current _ _ Hi)) as [b Hb]. rewrite Hb.
    pose proof (inv_batches _ _ Hi) as Hok.
    assert (Hnf : ∀ c b, batch s !! c = Some b → used_ b ≠ end_ b → used_ b < end_ b).
    { intros c x Hx Hne. pose proof (Forall_lookup_1 _ _ _ _ Hok Hx) as [? _]. lia. }
    destruct (Z.eqb_spec (used_ b) (end_ b)) as [E|E].
    + destruct (next_free _ _) as [c|] eqn:Hnext.
      * apply next_free_some in Hnext as (x & Hx & Hne). rewrite Hx.
        edestruct (take_object live s (batch s) c x) as [Hle Hinv]; [done..|by eapply Hnf|].
        rewrite defined_if_bind by lia. by do 2 eexists.
      * edestruct (take_object live s (batch s ++ [allocateBatch 1 n]) (length (batch s)) (allocateBatch 1 n)) as [Hle Hinv];
          [done|done| | | | |].
        { apply Forall_app. split; [done|]. repeat constructor; cbn; lia. }
        { intros i x Hx. by apply lookup_app_l_Some. }
        { by rewrite lookup_app_r, Nat.sub_diag. }
        { cbn. lia. }
        rewrite lookup_app_r, Nat.sub_diag by done. cbn [lookup list_lookup]. rewrite defined_if_bind by lia. by do 2 eexists.
    + rewrite Hb. edestruct (take_object live s (batch s) (currentBatch_ s) b) as [Hle Hinv]; [done..|by eapply Hnf|].
      rewrite defined_if_bind by lia. by do 2 eexists.
  - exists x, (mk (batch s) (currentBatch_ s) rest). split; [done|]. destruct Hi as [Hc Hb Ha Ht]. rewrite Hfree in Ha, Ht.
    assert (Hp : live ++ x :: rest ≡ₚ x :: live ++ rest) by (symmetry; apply Permutation_middle).
    split; cbn; [done|done|by rewrite <- Hp|]. change (Forall (taken s) (x :: live ++ rest)). by rewrite <- Hp.
Qed.

Lemma batch_run_inv n l : ∀ live s, 16 ≤ n → Inv live s → ∃ live' s', run 1 n l live s = Done (live', s') ∧ Inv live' s'.
Proof.
  induction l as [|o l IH]; intros live s Hn Hi; [by exists live, s|]. cbn [run]. destruct o as [|k]; cbn [step].
  - destruct (allocate_inv n live s Hn Hi) as (x & s' & -> & Hi'). rewrite !bind_ret_l. by apply IH.
  - destruct (live !! k) as [x|] eqn:Hk; rewrite bind_ret_l; apply IH; try done.
    destruct Hi as [Hc Hb Ha Ht].
    assert (Hp : live ++ freeHead_ s ≡ₚ delete k live ++ x :: freeHead_ s).
    { rewrite <- Permutation_middle. rewrite (delete_Permutation _ _ _ Hk) at 1. done. }
    split; cbn; [done|done|by rewrite <- Hp|]. change (Forall (taken s) (delete k live ++ x :: freeHead_ s)). by rewrite <- Hp.
Qed.

(** An allocator of single objects, whatever is allocated and released, gives
    out objects within its batches that no one else holds. *)
Theorem allocator_of_single_objects n l s :
  make 1 n = Done s →
  ∃ live s', run 1 n l [] s = Done (live, s') ∧ NoDup live ∧
    Forall (λ x, ∃ b, batch s' !! x.1 = Some b ∧ 0 ≤ x.2 < capacity b) live.
Proof.
  intros Hs. assert (Hn : 16 ≤ n).
  { unfold make in Hs. unfold cassert in Hs. destruct (Z.leb_spec 16 n); [done|discriminate]. }
  destruct (batch_run_inv n l [] s Hn (batch_inv_make _ _ Hs)) as (live & s' & Hrun & [Hc Hb Ha Ht]).
  exists live, s'. split; [done|]. apply NoDup_app in Ha as [Ha _]. apply Forall_app in Ht as [Ht _]. split; [done|].
  eapply Forall_impl; [exact Ht|]. intros x (b & Hx & Hr). exists b. split; [done|].
  pose proof (Forall_lookup_1 _ _ _ _ Hb Hx) as [? ?]. lia.
Qed.

Lemma allocator_of_single_objects_witness :
  ∃ s live s', make 1 16 = Done s ∧
    run 1 16 [Allocate; Allocate; Release 0; Allocate] [] s = Done (live, s') ∧ NoDup live.
Proof.
  destruct (allocator_of_single_objects 16 [Allocate; Allocate; Release 0; Allocate] (mk [allocateBatch 1 0] 0 [])) as (live & s' & H & Ha & _).
  { reflexivity. }
  by exists (mk [allocateBatch 1 0] 0 []), live, s'.
Defined.

(** ** Pages: eight units per object

    [end_] counts units where [used_] is moved on by eight, so that 255 is never
    met: the first batch is the only one, and a page is taken from it unless one
    has been released, or 255 are held. *)
Definition overrun : fault := Undefined "past the end of a batch".
Definition page (i : nat) : nat * Z := (1%nat, 8 * Z.of_nat i).
(** The allocator when [n] pages have been taken from the batch. *)
Definition handed_out (n : nat) (free : list (nat * Z)) : t :=
  match n with
  | O => mk [mkBatch 0 0 0] 0 free
  | S _ => mk [mkBatch 0 0 0; mkBatch (8 * Z.of_nat n) 255 2040] 1 free
  end.
(** The pages [live] are held, by whoever has them. *)
Definition Holds (live : list (nat * Z)) (s : t) : Prop :=
  ∃ n, (n ≤ 255)%nat ∧ s = handed_out n (freeHead_ s) ∧ live ++ freeHead_ s ≡ₚ page <$> seq 0 n.

#[global] Instance holds_perm : Proper ((≡ₚ) ==> (=) ==> iff) Holds.
Proof. intros l l' Hl s _ <-. unfold Holds. by setoid_rewrite Hl. Qed.

Lemma holds_make s : make 8 255 = Done s → Holds [] s.
Proof. cbn. intros [= <-]. exists 0%nat. split; [lia|done]. Qed.

Lemma holds_no_dup live s : Holds live s → NoDup live.
Proof.
  intros (n & _ & _ & Hp). assert (H : NoDup (live ++ freeHead_ s)).
  { rewrite Hp. apply NoDup_fmap_2; [|apply NoDup_seq]. intros i j [= ?]. lia. }
  by apply NoDup_app in H as [? _].
Qed.
Lemma holds_length live s : Holds live s → (length live ≤ 255)%nat.
Proof. intros (n & ? & _ & Hp). apply Permutation_length in Hp. rewrite length_app, length_fmap, length_seq in Hp. lia. Qed.

Lemma handed_out_next n :
  (n < 255)%nat → allocate 8 255 (handed_out n []) = Done (page n, handed_out (S n) []).
Proof.
  intros Hn. destruct n as [|n]; [reflexivity|]. unfold allocate, handed_out. cbn [freeHead_ batch currentBatch_ lookup list_lookup].
  cbn [used_ end_ capacity]. destruct (Z.eqb_spec (8 * Z.of_nat (S n)) 255); [lia|]. cbn [lookup list_lookup used_ end_ capacity].
  rewrite defined_if_bind by (apply Z.leb_le; lia). cbn [insert list_insert]. unfold page. repeat f_equal. lia.
Qed.

Lemma allocate_page live s :
  Holds live s →
  if (length live <? 255)%nat then ∃ x s', allocate 8 255 s = Done (x, s') ∧ Holds (x :: live) s'
  else allocate 8 255 s = Fault overrun.
Proof.
  intros H. pose proof (holds_length _ _ H) as Hlen. destruct H as (n & Hn & Hs & Hp).
  pose proof (Permutation_length Hp) as Hl. rewrite length_app, length_fmap, length_seq in Hl.
  destruct (freeHead_ s) as [|x free] eqn:Hfree.
  - cbn in Hl. rewrite app_nil_r in Hp. replace (length live) with n by lia.
    destruct (Nat.ltb_spec n 255) as [Hlt|Hge].
    + rewrite Hs, handed_out_next by done. do 2 eexists. split; [done|]. exists (S n). split; [lia|].
      split; [done|]. cbn [freeHead_ handed_out]. by rewrite app_nil_r, seq_S, fmap_app, <- Hp, Permutation_cons_append.
    + replace n with 255%nat in Hs by lia. by rewrite Hs.
  - cbn in Hl. rewrite (proj2 (Nat.ltb_lt _ _)) by lia. exists x, (mk (batch s) (currentBatch_ s) free).
    unfold allocate. rewrite Hfree. split; [done|]. exists n. split; [done|]. split; [rewrite Hs; by destruct n|].
    cbn [freeHead_]. by rewrite <- Hp, <- Permutation_middle.
Qed.

Lemma holds_release x live s : Holds (x :: live) s → Holds live (release x s).
Proof.
  intros (n & Hn & Hs & Hp). exists n. split; [done|]. split; [cbn; rewrite Hs; by destruct n|].
  cbn [release freeHead_]. by rewrite <- Hp, <- Permutation_middle.
Qed.

Definition pages (n : nat) : outcome (list (nat * Z) * t) :=
  s ← make 8 255; run 8 255 (replicate n Allocate) [] s.
Example batch_overrun : is_done (pages 255) = true ∧ pages 256 = Fault overrun.
Proof. vm_compute. done. Qed.
End BatchAllocator.
