(* ===== verification/InternalArray.v ===== *)
(** jsoncpp's own array of elements (src/IMServer/src/jsoncpp/json_internalarray.inl,
    with the classes of value.h), which [JSON_VALUE_USE_INTERNAL_MAP] selects
    instead of [std::map].  An index of pages of eight cells each; the pages come
    from the allocator of BatchAllocator.v, which all arrays share, and live in a
    store by their address; a cell holds a value once one is constructed there,
    and using a page or a cell that is not there is undefined.  The values of the
    elements are a parameter. *)

From S2P Require Import Prelude BatchAllocator.
Local Open Scope Z_scope.

Definition itemsPerPage : Z := 8.

(** * The array *)
Module InternalArray.
Section Array.
Context {V : Type} (null : V).

(** A page's address: the batch and the offset in it. *)
Notation address := (nat * Z)%type.

(** [pages_] is the index, of [pageCount_] entries, [None] where no page has
    been stored; the pages behind their addresses, and [pagesAllocator_], which
    is the process's and not the array's. *)
Record t := mk {
  pages_ : list (option address);
  size_ : Z;
  store : gmap address (list (option V));
  pagesAllocator_ : BatchAllocator.t
}.
Definition pageCount_ (s : t) : Z := szof (pages_ s).
Definition set_pages x s := mk x (size_ s) (store s) (pagesAllocator_ s).
Definition set_size n s := mk (pages_ s) n (store s) (pagesAllocator_ s).
Definition set_store x s := mk (pages_ s) (size_ s) x (pagesAllocator_ s).
Definition set_allocator x s := mk (pages_ s) (size_ s) (store s) x.

Definition make (al : BatchAllocator.t) : t := mk [] 0 ∅ al.
Definition size (s : t) : Z := size_ s.

(** ** Cells *)
Definition past_index : fault := Undefined "past the page index".
Definition page_at (p : Z) (s : t) : outcome address :=
  match pages_ s !! Z.to_nat p with
  | Some (Some id) => Done id
  | Some None => Fault (Undefined "page that was never stored")
  | None => Fault past_index
  end.
(** [pages_[p][i]], if a value is there. *)
Definition get_cell (p i : Z) (s : t) : outcome (option V) :=
  id ← page_at p s;
  match store s !! id ≫= (.!! Z.to_nat i) with
  | Some c => Done c
  | None => Fault (Undefined "released page")
  end.
Definition put_cell (p i : Z) (c : option V) (s : t) : outcome t :=
  id ← page_at p s;
  _ ← get_cell p i s;
  Done (set_store (alter (<[Z.to_nat i := c]>) id (store s)) s).
Definition read_cell (p i : Z) (s : t) : outcome V :=
  c ← get_cell p i s;
  match c with Some v => Done v | None => Fault (Undefined "no value is constructed there") end.

(** [allocateArrayPage()], of 255 pages a batch, and its store in [pages_[p]];
    [releaseArrayPage( pages_[p] )]. *)
Definition new_page (p : Z) (s : t) : outcome t :=
  '(id, al) ← BatchAllocator.allocate itemsPerPage 255 (pagesAllocator_ s);
  match pages_ s !! Z.to_nat p with
  | Some _ =>
      Done (mk (<[Z.to_nat p := Some id]> (pages_ s)) (size_ s) (<[id := replicate 8 None]> (store s)) al)
  | None => Fault past_index
  end.
Definition release_page (p : Z) (s : t) : outcome t :=
  id ← page_at p s;
  Done (set_store (delete id (store s)) (set_allocator (BatchAllocator.release id (pagesAllocator_ s)) s)).

(** [reallocateArrayPageIndex( pages_, pageCount_, minNewIndexCount )] *)
Definition new_count (indexCount minNewIndexCount : Z) : Z :=
  let newIndexCount := u32 (u32 (indexCount * 3) / 2 + 1) in
  if newIndexCount <? minNewIndexCount then minNewIndexCount else newIndexCount.
Definition reallocate (minNewIndexCount : Z) (s : t) : t :=
  let n := Z.to_nat (new_count (pageCount_ s) minNewIndexCount) in
  set_pages (take n (pages_ s) ++ replicate (n - length (pages_ s)) None) s.

(** ** Iterators: the entry of the index and the cell. *)
Record iterator := mkIt { currentPageIndex_ : Z; currentItemIndex_ : Z }.
#[global] Instance iterator_eq_dec : EqDecision iterator.
Proof. solve_decision. Defined.
Definition equals (x y : iterator) : bool := bool_decide (x = y).
Definition makeIterator (index : Z) : iterator := mkIt (index / itemsPerPage) (index mod itemsPerPage).
Definition makeBeginIterator : iterator := mkIt 0 0.
Definition makeEndIterator (s : t) : iterator := makeIterator (size_ s).
Definition indexOf (it : iterator) : Z := u32 (currentPageIndex_ it * itemsPerPage + currentItemIndex_ it).
Definition distance (x y : iterator) : Z := s32 (indexOf y - indexOf x).

Definition assert_message (b : bool) (what : string) : outcome unit :=
  if b then Done tt else Fault (Thrown what).
Definition increment (it : iterator) (s : t) : outcome iterator :=
  _ ← assert_message (negb (currentPageIndex_ it * itemsPerPage + currentItemIndex_ it =? size_ s))
        "ValueInternalArray::increment(): moving iterator beyond end";
  let i := currentItemIndex_ it + 1 in
  Done (if i =? itemsPerPage then mkIt (currentPageIndex_ it + 1) 0 else mkIt (currentPageIndex_ it) i).
Definition decrement (it : iterator) : outcome iterator :=
  _ ← assert_message ((currentPageIndex_ it =? 0) && (currentItemIndex_ it =? 0))
        "ValueInternalArray::decrement(): moving iterator beyond end";
  Done (if currentItemIndex_ it =? 0 then mkIt (currentPageIndex_ it - 1) (itemsPerPage - 1)
        else mkIt (currentPageIndex_ it) (currentItemIndex_ it - 1)).
(** The check of [dereference]. *)
Definition dereferenceable (it : iterator) (s : t) : outcome unit :=
  assert_message (currentPageIndex_ it * itemsPerPage + currentItemIndex_ it <? size_ s)
    "ValueInternalArray::dereference(): dereferencing invalid iterator".

(** What the loops do to a cell: construct a default value in it, or destroy the
    value it must have; and a loop from an iterator to another. *)
Definition construct (c : option V) : outcome (option V) := Done (Some null).
Definition destroy (c : option V) : outcome (option V) :=
  match c with Some _ => Done None | None => Fault (Undefined "no value is constructed there") end.
Fixpoint each (fuel : nat) (f : option V → outcome (option V)) (it itEnd : iterator) (s : t) : outcome t :=
  match fuel with
  | O => Fault OutOfFuel
  | S fuel =>
      if equals it itEnd then Done s
      else
        _ ← dereferenceable it s;
        c ← get_cell (currentPageIndex_ it) (currentItemIndex_ it) s;
        c ← f c;
        s ← put_cell (currentPageIndex_ it) (currentItemIndex_ it) c s;
        it ← increment it s;
        each fuel f it itEnd s
  end.

(** ** Growing *)
Fixpoint allocate_pages (n : nat) (pageIndex : Z) (s : t) : outcome t :=
  match n with
  | O => Done s
  | S n => s ← new_page pageIndex s; allocate_pages n (pageIndex + 1) s
  end.
Definition makeIndexValid (index : Z) (s : t) : outcome t :=
  s ← (if u32 (pageCount_ s * itemsPerPage) <=? index then
         let minNewPages := u32 (index + 1) / itemsPerPage in
         let s := reallocate minNewPages s in
         _ ← assert_message (minNewPages <=? pageCount_ s) "ValueInternalArray::reserve(): bad reallocation";
         Done s
       else Done s);
  let nextPageIndex :=
    if negb (size_ s mod itemsPerPage =? 0) then u32 (size_ s - size_ s mod itemsPerPage + itemsPerPage) else size_ s in
  s ← (if nextPageIndex <=? index then
         allocate_pages (Z.to_nat ((index - nextPageIndex) / itemsPerPage + 1)) (nextPageIndex / itemsPerPage) s
       else Done s);
  let it := makeIterator (size_ s) in
  let s := set_size (u32 (index + 1)) s in
  each (S (Z.to_nat (size_ s))) construct it (makeEndIterator s) s.

(** [resolveReference( index )]: the cell of the element. *)
Definition resolveReference (index : Z) (s : t) : outcome (Z * Z * t) :=
  s ← (if size_ s <=? index then makeIndexValid index s else Done s);
  _ ← get_cell (index / itemsPerPage) (index mod itemsPerPage) s;
  Done (index / itemsPerPage, index mod itemsPerPage, s).
Definition find (index : Z) (s : t) : outcome (option (Z * Z)) :=
  if size_ s <=? index then Done None
  else _ ← get_cell (index / itemsPerPage) (index mod itemsPerPage) s;
       Done (Some (index / itemsPerPage, index mod itemsPerPage)).

(** [resolveReference( index ) = v], and [*find( index )] if it is found. *)
Definition assign (index : Z) (v : V) (s : t) : outcome t :=
  '(p, i, s) ← resolveReference index s; _ ← read_cell p i s; put_cell p i (Some v) s.
Definition lookup (index : Z) (s : t) : outcome (option V) :=
  r ← find index s;
  match r with Some (p, i) => v ← read_cell p i s; Done (Some v) | None => Done None end.

(** ** Shrinking, copying, comparing, destroying *)
Fixpoint release_pages (n : nat) (pageIndex : Z) (s : t) : outcome t :=
  match n with
  | O => Done s
  | S n => s ← release_page pageIndex s; release_pages n (pageIndex + 1) s
  end.
Definition dtor (s : t) : outcome t :=
  s ← each (S (Z.to_nat (size_ s))) destroy makeBeginIterator (makeEndIterator s) s;
  s ← release_pages (Z.to_nat (size_ s / itemsPerPage)) 0 s;
  Done (set_pages [] s).
(** [swap( other )], [clear()]: the elements go to an array that is destroyed,
    [store] keeps the pages that are left of it. *)
Definition clear (s : t) : outcome t := s ← dtor s; Done (set_size 0 s).
Definition resize (newSize : Z) (s : t) : outcome t :=
  if newSize =? 0 then clear s
  else if newSize <? size_ s then
    s ← each (S (Z.to_nat (size_ s))) destroy (makeIterator newSize) (makeIterator (size_ s)) s;
    let pageIndex := u32 (newSize + itemsPerPage - 1) / itemsPerPage in
    s ← release_pages (Z.to_nat (size_ s / itemsPerPage - pageIndex)) pageIndex s;
    Done (set_size newSize s)
  else if size_ s <? newSize then '(_, _, s) ← resolveReference newSize s; Done s
  else Done s.

(** [ValueInternalArray( other )]: [value] is not moved on inside a page. *)
Fixpoint copy_loop (n : nat) (index : Z) (value : Z) (it : iterator) (other s : t) : outcome t :=
  match n with
  | O => Done s
  | S n =>
      '(value, s) ← (if index mod itemsPerPage =? 0 then
                       s ← new_page (index / itemsPerPage) s; Done (index / itemsPerPage, s)
                     else Done (value, s));
      _ ← dereferenceable it other;
      v ← read_cell (currentPageIndex_ it) (currentItemIndex_ it) other;
      s ← put_cell value 0 (Some v) s;
      it ← increment it other;
      copy_loop n (index + 1) value it other s
  end.
Definition copy (other : t) : outcome t :=
  let minNewPages := size_ other / itemsPerPage in
  let s := reallocate minNewPages (set_size (size_ other) (make (pagesAllocator_ other))) in
  _ ← assert_message (minNewPages <=? pageCount_ s) "ValueInternalArray::reserve(): bad reallocation";
  copy_loop (Z.to_nat (size_ other)) 0 0 makeBeginIterator other s.

Fixpoint compare_loop (compare_value : V → V → Z) (n : nat) (index : Z) (s other : t) : outcome Z :=
  match n with
  | O => Done 0
  | S n =>
      v ← read_cell (index / itemsPerPage) (index mod itemsPerPage) s;
      w ← read_cell (index / itemsPerPage) (index mod itemsPerPage) other;
      if compare_value v w =? 0 then compare_loop compare_value n (index + 1) s other else Done (compare_value v w)
  end.
Definition compare (compare_value : V → V → Z) (s other : t) : outcome Z :=
  let sizeDiff := s32 (size_ s - size_ other) in
  if sizeDiff =? 0 then compare_loop compare_value (Z.to_nat (size_ s)) 0 s other else Done sizeDiff.

(** * Lemmas *)
#[local] Arguments Nat.div : simpl never.
#[local] Arguments Nat.modulo : simpl never.

(** The content of cell [i], if its page is there. *)
Definition cell (s : t) (i : nat) : option (option V) :=
  p ← pages_ s !! (i / 8)%nat; id ← p; page ← store s !! id; page !! (i mod 8)%nat.

(** The pages that some entries of the index have. *)
Definition ids : list (option address) → list address := omap id.
Lemma ids_all l : Forall is_Some l → Some <$> ids l = l.
Proof. induction 1 as [|x l [y ->] _ IH]; [done|]. cbn. by f_equal. Qed.

(** The first [k] entries of the index are pages that are held, as are [r]. *)
Record Pages (k : nat) (r : list address) (s : t) : Prop := {
  pages_valid : ∀ p, (p < k)%nat → ∃ id page,
    pages_ s !! p = Some (Some id) ∧ store s !! id = Some page ∧ length page = 8%nat;
  pages_held : BatchAllocator.Holds (ids (take k (pages_ s)) ++ r) (pagesAllocator_ s)
}.

Lemma pages_le k r s : Pages k r s → (k ≤ length (pages_ s))%nat.
Proof.
  intros H. destruct k as [|k]; [lia|]. destruct (pages_valid _ _ _ H k) as (id & page & Hp & _); [lia|].
  apply lookup_lt_Some in Hp. lia.
Qed.
(** [n] entries from the [m]-th, of the first [k], are all pages. *)
Lemma pages_some k r s m n :
  Pages k r s → (m + n ≤ k)%nat → Some <$> ids (take n (drop m (pages_ s))) = take n (drop m (pages_ s)).
Proof.
  intros Hk Hn. apply ids_all, Forall_lookup. intros p x Hp. apply lookup_take_Some in Hp as [Hp Hlt].
  rewrite lookup_drop in Hp. destruct (pages_valid _ _ _ Hk (m + p)) as (id & page & Hid & _); [lia|].
  rewrite Hid in Hp. injection Hp as <-. by eexists.
Qed.
Lemma pages_count k r s m n : Pages k r s → (m + n ≤ k)%nat → length (ids (take n (drop m (pages_ s)))) = n.
Proof.
  intros Hk Hn. pose proof (pages_le _ _ _ Hk). rewrite <- (length_fmap Some), (pages_some _ _ _ _ _ Hk Hn), length_take, length_drop. lia.
Qed.
Lemma pages_total k r s : Pages k r s → (k + length r ≤ 255)%nat.
Proof.
  intros Hk. pose proof (BatchAllocator.holds_length _ _ (pages_held _ _ _ Hk)) as Hl.
  pose proof (pages_count k r s 0 k Hk ltac:(lia)) as Hc. rewrite drop_0 in Hc. by rewrite length_app, Hc in Hl.
Qed.
Lemma pages_apart k r s p q :
  Pages k r s → (p < k)%nat → (q < k)%nat → pages_ s !! p = pages_ s !! q → p = q.
Proof.
  intros Hk Hp Hq E. pose proof (BatchAllocator.holds_no_dup _ _ (pages_held _ _ _ Hk)) as Hnd.
  apply NoDup_app in Hnd as [Hnd _]. apply (NoDup_fmap_2 Some) in Hnd.
  pose proof (pages_some k r s 0 k Hk ltac:(lia)) as Hs. rewrite drop_0 in Hs. rewrite Hs in Hnd. destruct (pages_valid _ _ _ Hk p Hp) as (id & page & Hid & _).
  eapply (NoDup_lookup _ p q); [exact Hnd|rewrite lookup_take_lt by done; exact Hid|]. by rewrite lookup_take_lt, <- E by done.
Qed.
(** Of the first [k] entries only the first [j] are still counted. *)
Lemma pages_down j k r s :
  (j ≤ k)%nat → Pages k r s → Pages j (ids (take (k - j) (drop j (pages_ s))) ++ r) s.
Proof.
  intros Hj [Hv Hh]. split; [intros p Hp; apply Hv; lia|].
  unfold ids in *. rewrite app_assoc, <- omap_app, take_take_drop. by replace (j + (k - j))%nat with k by lia.
Qed.

Lemma page_of k i : (i < 8 * k)%nat → (i / 8 < k)%nat.
Proof. intros. apply Nat.Div0.div_lt_upper_bound. lia. Qed.
Lemma div_mod_inj i j : (i / 8 = j / 8 → i mod 8 = j mod 8 → i = j)%nat.
Proof. intros Hd Hm. rewrite (Nat.div_mod_eq i 8), (Nat.div_mod_eq j 8). lia. Qed.
Lemma to_nat_div i : Z.to_nat (Z.of_nat i / itemsPerPage) = (i / 8)%nat.
Proof. change itemsPerPage with (Z.of_nat 8). rewrite <- Nat2Z.inj_div. lia. Qed.
Lemma to_nat_mod i : Z.to_nat (Z.of_nat i mod itemsPerPage) = (i mod 8)%nat.
Proof. change itemsPerPage with (Z.of_nat 8). rewrite <- Nat2Z.inj_mod. lia. Qed.

Lemma cell_in k r s i : Pages k r s → (i < 8 * k)%nat → ∃ c, cell s i = Some c.
Proof.
  intros Hk Hi. destruct (pages_valid _ _ _ Hk (i / 8)) as (id & page & Hp & Hs & Hl); [by apply page_of|].
  unfold cell. rewrite Hp. cbn. rewrite Hs. cbn. apply lookup_lt_is_Some_2. rewrite Hl. apply (Nat.mod_upper_bound i 8). done.
Qed.

Lemma get_cell_of s i c :
  cell s i = Some c → get_cell (Z.of_nat i / itemsPerPage) (Z.of_nat i mod itemsPerPage) s = Done c.
Proof.
  unfold cell, get_cell, page_at. rewrite to_nat_div, to_nat_mod. intros Hc.
  destruct (pages_ s !! _) as [[id|]|]; [|done..]. cbn in Hc |- *.
  destruct (store s !! id) as [page|]; [|done]. cbn in Hc |- *. by rewrite Hc.
Qed.
Lemma read_cell_of s i v :
  cell s i = Some (Some v) → read_cell (Z.of_nat i / itemsPerPage) (Z.of_nat i mod itemsPerPage) s = Done v.
Proof. intros Hc. unfold read_cell. by rewrite (get_cell_of _ _ _ Hc). Qed.

(** Only the pages behind the index have changed. *)
Record Frame (s s' : t) : Prop := {
  frame_pages : pages_ s' = pages_ s;
  frame_size : size_ s' = size_ s
}.

Lemma put_cell_of k r s i c :
  Pages k r s → (i < 8 * k)%nat →
  ∃ s', put_cell (Z.of_nat i / itemsPerPage) (Z.of_nat i mod itemsPerPage) c s = Done s' ∧
    Frame s s' ∧ Pages k r s' ∧ cell s' i = Some c ∧
    ∀ j, (j < 8 * k)%nat → j ≠ i → cell s' j = cell s j.
Proof.
  intros Hk Hi. destruct (cell_in _ _ _ _ Hk Hi) as [c0 Hc0].
  destruct (pages_valid _ _ _ Hk (i / 8)) as (id & page & Hp & Hs & Hl); [by apply page_of|].
  eexists. split.
  { unfold put_cell. rewrite (get_cell_of _ _ _ Hc0). unfold page_at. rewrite to_nat_div, Hp. cbn. reflexivity. }
  rewrite to_nat_mod. pose proof (Nat.mod_upper_bound i 8 ltac:(done)) as Hmod.
  split; [done|]. split; [split|split].
  - intros p Hpk. destruct (pages_valid _ _ _ Hk p Hpk) as (id' & page' & Hp' & Hs' & Hl'). exists id'.
    cbn. destruct (decide (id' = id)) as [->|Hne].
    + rewrite lookup_alter_eq, Hs. cbn. eexists. split; [done|]. split; [done|]. by rewrite length_insert.
    + rewrite lookup_alter_ne by done. by eexists.
  - apply (pages_held _ _ _ Hk).
  - unfold cell. cbn. rewrite Hp. cbn. rewrite lookup_alter_eq, Hs. cbn. apply list_lookup_insert_eq. lia.
  - intros j Hj Hne. unfold cell. cbn. destruct (pages_ s !! (j / 8)%nat) as [[id'|]|] eqn:Hpj; [|done..]. cbn.
    destruct (decide (id' = id)) as [->|Hne']; [|by rewrite lookup_alter_ne].
    rewrite lookup_alter_eq, Hs. cbn. apply list_lookup_insert_ne. intros Hmj. apply Hne.
    apply div_mod_inj; [|done]. apply (pages_apart _ _ _ _ _ Hk); [by apply page_of..|congruence].
Qed.

(** ** Loops over the cells *)
Lemma makeIterator_pos i : currentPageIndex_ (makeIterator (Z.of_nat i)) * itemsPerPage +
  currentItemIndex_ (makeIterator (Z.of_nat i)) = Z.of_nat i.
Proof. unfold makeIterator. cbn [currentPageIndex_ currentItemIndex_]. change itemsPerPage with 8. pose proof (Z.div_mod (Z.of_nat i) 8 ltac:(done)). lia. Qed.
Lemma makeIterator_inj i j : makeIterator (Z.of_nat i) = makeIterator (Z.of_nat j) → i = j.
Proof. intros H. apply Nat2Z.inj. by rewrite <- (makeIterator_pos i), H, makeIterator_pos. Qed.
Lemma increment_of i s :
  Z.of_nat i < size_ s → increment (makeIterator (Z.of_nat i)) s = Done (makeIterator (Z.of_nat (S i))).
Proof.
  intros Hi. unfold increment. rewrite makeIterator_pos, (proj2 (Z.eqb_neq (Z.of_nat i) (size_ s))) by lia. cbn [negb assert_message]. rewrite bind_ret_l.
  unfold makeIterator. cbn [currentPageIndex_ currentItemIndex_]. rewrite Nat2Z.inj_succ, <- Z.add_1_r.
  pose proof (Z.div_mod (Z.of_nat i) 8 ltac:(done)). pose proof (Z.mod_pos_bound (Z.of_nat i) 8 eq_refl).
  change itemsPerPage with 8. destruct (Z.eqb_spec (Z.of_nat i mod 8 + 1) 8); do 2 f_equal.
  - apply Z.div_unique with 0; lia.
  - apply Z.mod_unique with (Z.of_nat i / 8 + 1); lia.
  - apply Z.div_unique with (Z.of_nat i mod 8 + 1); lia.
  - apply Z.mod_unique with (Z.of_nat i / 8); lia.
Qed.
Lemma dereferenceable_of i s : Z.of_nat i < size_ s → dereferenceable (makeIterator (Z.of_nat i)) s = Done tt.
Proof. intros Hi. unfold dereferenceable. by rewrite makeIterator_pos, (proj2 (Z.ltb_lt _ _) Hi). Qed.

Lemma each_of k r f d n : ∀ fuel i s,
  Pages k r s → (i + n ≤ 8 * k)%nat → Z.of_nat (i + n) ≤ size_ s → (n < fuel)%nat →
  (∀ j c, (i ≤ j < i + n)%nat → cell s j = Some c → f c = Done d) →
  ∃ s', each fuel f (makeIterator (Z.of_nat i)) (makeIterator (Z.of_nat (i + n))) s = Done s' ∧
    Frame s s' ∧ Pages k r s' ∧ (∀ j, (i ≤ j < i + n)%nat → cell s' j = Some d) ∧
    (∀ j, (j < 8 * k)%nat → (j < i ∨ i + n ≤ j)%nat → cell s' j = cell s j).
Proof.
  induction n as [|n IH]; intros fuel i s Hk Hin Hsz Hfuel Hf; (destruct fuel as [|fuel]; [lia|]); cbn [each].
  - rewrite Nat.add_0_r. unfold equals. rewrite bool_decide_true by done. exists s. split; [done|].
    split; [done|]. split; [done|]. split; [lia|done].
  - unfold equals. rewrite bool_decide_false by (intros E; apply makeIterator_inj in E; lia).
    rewrite dereferenceable_of, bind_ret_l by lia. destruct (cell_in k r s i Hk ltac:(lia)) as [c Hc].
    cbn [currentPageIndex_ currentItemIndex_ makeIterator]. rewrite (get_cell_of _ _ _ Hc), bind_ret_l.
    rewrite (Hf i c ltac:(lia) Hc), bind_ret_l.
    destruct (put_cell_of k r s i d Hk ltac:(lia)) as (s1 & -> & [Hp1 Hs1] & Hk1 & Hc1 & Ho1). rewrite bind_ret_l.
    rewrite <- Nat.add_succ_comm in *. rewrite increment_of, bind_ret_l by lia.
    destruct (IH fuel (S i) s1) as (s' & -> & [Hp' Hs'] & Hk' & Hc' & Ho'); [done|lia|lia|lia| |].
    { intros j c' Hj. rewrite Ho1 by lia. apply Hf. lia. }
    exists s'. split; [done|]. split; [split; congruence|]. split; [done|]. split.
    + intros j Hj. destruct (decide (j = i)) as [->|]; [|apply Hc'; lia]. rewrite Ho' by lia. done.
    + intros j Hjk Hj. rewrite Ho', Ho1 by lia. done.
Qed.

(** ** Pages *)
Definition pages_for (n : nat) : nat := ((n + 7) / 8)%nat.
Lemma pages_for_spec n : (n ≤ 8 * pages_for n < n + 8)%nat.
Proof.
  unfold pages_for. pose proof (Nat.div_mod_eq (n + 7) 8). pose proof (Nat.mod_upper_bound (n + 7) 8 ltac:(done)). lia.
Qed.
Ltac pages_spec n :=
  lazymatch goal with
  | H : (n ≤ 8 * pages_for n < n + 8)%nat |- _ => fail
  | _ => pose proof (pages_for_spec n)
  end.
Lemma div_spec n : (8 * (n / 8) ≤ n < 8 * (n / 8) + 8)%nat.
Proof. pose proof (Nat.div_mod_eq n 8). pose proof (Nat.mod_upper_bound n 8 ltac:(done)). lia. Qed.
Ltac div_spec n :=
  lazymatch goal with
  | H : (8 * (n / 8) ≤ n < 8 * (n / 8) + 8)%nat |- _ => fail
  | _ => pose proof (div_spec n)
  end.
Ltac pages_lia :=
  repeat match goal with
  | |- context [pages_for ?n] => pages_spec n
  | _ : context [pages_for ?n] |- _ => pages_spec n
  | |- context [(?n / 8)%nat] => div_spec n
  end; Z.to_euclidean_division_equations; lia.

(** How the allocation of more pages than there is room for ends: [k] pages are
    in the index, of [count] entries, and [r] are held elsewhere. *)
Definition page_fault (k r count : nat) : fault :=
  if (255 - (k + r) <=? count - k)%nat then BatchAllocator.overrun else past_index.

Lemma page_fault_S k r count : (k + r < 255)%nat → (k < count)%nat → page_fault (S k) r count = page_fault k r count.
Proof.
  intros Hr Hc. unfold page_fault.
  destruct (Nat.leb_spec (255 - (S k + r)) (count - S k)), (Nat.leb_spec (255 - (k + r)) (count - k)); done || lia.
Qed.

Lemma owned_not_new k r s x p :
  Pages k r s → x ∉ ids (take k (pages_ s)) ++ r → (p < k)%nat → pages_ s !! p ≠ Some (Some x).
Proof.
  intros Hk Hx Hp E. apply Hx, elem_of_app. left. apply (list_elem_of_fmap_inj_2 Some).
  pose proof (pages_some k r s 0 k Hk ltac:(lia)) as Hs. rewrite drop_0 in Hs. rewrite Hs.
  apply list_elem_of_lookup. exists p. by rewrite lookup_take_lt.
Qed.

Lemma new_page_of k r s :
  Pages k r s → (k + length r < 255)%nat → (k < length (pages_ s))%nat →
  ∃ s', new_page (Z.of_nat k) s = Done s' ∧ length (pages_ s') = length (pages_ s) ∧ size_ s' = size_ s ∧
    Pages (S k) r s' ∧ ∀ j, (j < 8 * k)%nat → cell s' j = cell s j.
Proof.
  intros Hk Hr Hlen. unfold new_page. rewrite Nat2Z.id. destruct (lookup_lt_is_Some_2 _ _ Hlen) as [old ->].
  pose proof (BatchAllocator.allocate_page _ _ (pages_held _ _ _ Hk)) as Ha.
  pose proof (pages_count k r s 0 k Hk ltac:(lia)) as Hc. rewrite drop_0 in Hc.
  rewrite length_app, Hc, (proj2 (Nat.ltb_lt _ _) Hr) in Ha. destruct Ha as (x & al & Ha & Hheld).
  change itemsPerPage with 8. rewrite Ha, bind_ret_l. pose proof (BatchAllocator.holds_no_dup _ _ Hheld) as Hnew.
  apply NoDup_cons in Hnew as [Hnew _]. pose proof (λ p, owned_not_new _ _ _ x p Hk Hnew) as Hold.
  eexists. split; [done|]. cbn. split; [by rewrite length_insert|]. split; [done|]. split; [split|].
  - intros p Hp. cbn. destruct (decide (p = k)) as [->|Hne].
    + exists x, (replicate 8 None). rewrite list_lookup_insert_eq by done. split; [done|].
      split; [apply lookup_insert_eq|done].
    + destruct (pages_valid _ _ _ Hk p) as (id & page & Hp' & Hs & Hl); [lia|]. exists id, page.
      rewrite list_lookup_insert_ne by done. split; [done|]. rewrite lookup_insert_ne; [done|].
      intros ->. apply (Hold p); [lia|done].
  - cbn [pages_ pagesAllocator_]. rewrite (take_S_r _ _ (Some x)) by by apply list_lookup_insert_eq.
    rewrite take_insert_ge by done. unfold ids in *. rewrite omap_app, <- app_assoc. cbn [app omap list_omap id]. by rewrite <- Permutation_middle.
  - intros j Hj. pose proof (page_of _ _ Hj) as Hpj. unfold cell. cbn. rewrite list_lookup_insert_ne by lia.
    destruct (pages_valid _ _ _ Hk (j / 8) Hpj) as (id & page & Hp & _). rewrite Hp. cbn.
    rewrite lookup_insert_ne; [done|]. intros ->. by apply (Hold (j / 8)%nat).
Qed.

Lemma new_page_fails k r s :
  Pages k r s → (255 ≤ k + length r)%nat ∨ (length (pages_ s) ≤ k)%nat →
  new_page (Z.of_nat k) s = Fault (page_fault k (length r) (length (pages_ s))).
Proof.
  intros Hk Hr. unfold new_page, page_fault. rewrite Nat2Z.id.
  pose proof (BatchAllocator.allocate_page _ _ (pages_held _ _ _ Hk)) as Ha. pose proof (pages_total _ _ _ Hk).
  pose proof (pages_count k r s 0 k Hk ltac:(lia)) as Hc. rewrite drop_0 in Hc. rewrite length_app, Hc in Ha.
  change itemsPerPage with 8. destruct (Nat.ltb_spec (k + length r) 255).
  - destruct Ha as (x & al & -> & _). rewrite bind_ret_l, (proj2 (lookup_ge_None _ _)) by lia.
    by rewrite (proj2 (Nat.leb_gt _ _)) by lia.
  - rewrite Ha. by rewrite (proj2 (Nat.leb_le _ _)) by lia.
Qed.

Lemma allocate_pages_of n r : ∀ k s,
  Pages k r s →
  if ((k + n + length r <=? 255) && (k + n <=? length (pages_ s)))%nat then
    ∃ s', allocate_pages n (Z.of_nat k) s = Done s' ∧ length (pages_ s') = length (pages_ s) ∧ size_ s' = size_ s ∧
      Pages (k + n) r s' ∧ ∀ j, (j < 8 * k)%nat → cell s' j = cell s j
  else allocate_pages n (Z.of_nat k) s = Fault (page_fault k (length r) (length (pages_ s))).
Proof.
  induction n as [|n IH]; intros k s Hk; cbn [allocate_pages]; pose proof (pages_le _ _ _ Hk); pose proof (pages_total _ _ _ Hk).
  - rewrite Nat.add_0_r, !(proj2 (Nat.leb_le _ _)) by lia. by exists s.
  - destruct (decide (k + length r < 255 ∧ k < length (pages_ s))%nat) as [[Hr Hlt]|Hge].
    + destruct (new_page_of k r s Hk Hr Hlt) as (s1 & -> & Hl1 & Hs1 & Hk1 & Hc1). rewrite bind_ret_l.
      specialize (IH (S k) s1 Hk1). rewrite Hl1, Nat.add_succ_comm in IH.
      replace (Z.of_nat k + 1) with (Z.of_nat (S k)) by lia. destruct (_ && _).
      * destruct IH as (s' & Hs' & Hl' & Hz' & Hk' & Hc'). exists s'. split; [done|]. split; [done|].
        split; [congruence|]. split; [done|]. intros j Hj. rewrite Hc', Hc1 by lia. done.
      * rewrite IH. by rewrite page_fault_S.
    + rewrite (new_page_fails k r s Hk) by lia.
      destruct (Nat.leb_spec (k + S n + length r) 255); [|done]. cbn [andb].
      by rewrite (proj2 (Nat.leb_gt _ _)) by lia.
Qed.

(** The page of entry [m] is released, where the first [k] are still in use. *)
Lemma release_page_of k r m id s :
  Pages k (id :: r) s → pages_ s !! m = Some (Some id) →
  ∃ s', release_page (Z.of_nat m) s = Done s' ∧ Frame s s' ∧ Pages k r s' ∧
    ∀ j, (j < 8 * k)%nat → cell s' j = cell s j.
Proof.
  intros Hk Hid. unfold release_page, page_at. rewrite Nat2Z.id, Hid, bind_ret_l.
  pose proof (pages_held _ _ _ Hk) as Hh. rewrite <- Permutation_middle in Hh.
  pose proof (BatchAllocator.holds_no_dup _ _ Hh) as Hnew. apply NoDup_cons in Hnew as [Hnew _].
  apply BatchAllocator.holds_release in Hh.
  assert (Hk' : Pages k r (set_allocator (BatchAllocator.release id (pagesAllocator_ s)) s)).
  { split; [apply (pages_valid _ _ _ Hk)|exact Hh]. }
  pose proof (λ p, owned_not_new _ _ _ id p Hk' Hnew) as Hold.
  eexists. split; [done|]. split; [done|]. split; [split; [|exact Hh]|].
  - intros p Hp. destruct (pages_valid _ _ _ Hk p Hp) as (id' & page & Hp' & Hs' & Hl). exists id', page. cbn.
    rewrite lookup_delete_ne; [done|]. intros ->. by apply (Hold p).
  - intros j Hj. unfold cell. cbn. pose proof (page_of _ _ Hj) as Hpj.
    destruct (pages_valid _ _ _ Hk (j / 8) Hpj) as (id' & page & Hp & _). rewrite Hp. cbn.
    rewrite lookup_delete_ne; [done|]. intros ->. by apply (Hold (j / 8)%nat).
Qed.

Lemma release_pages_of k r n : ∀ m s,
  Pages k (ids (take n (drop m (pages_ s))) ++ r) s →
  (∀ p, (m ≤ p < m + n)%nat → ∃ id, pages_ s !! p = Some (Some id)) →
  ∃ s', release_pages n (Z.of_nat m) s = Done s' ∧ Frame s s' ∧ Pages k r s' ∧
    ∀ j, (j < 8 * k)%nat → cell s' j = cell s j.
Proof.
  induction n as [|n IH]; intros m s Hk Hv; cbn [release_pages]; [by exists s|].
  destruct (Hv m ltac:(lia)) as [id Hid]. rewrite (drop_S _ _ _ Hid) in Hk. cbn in Hk.
  destruct (release_page_of k _ m id s Hk Hid) as (s1 & -> & [Hp1 Hs1] & Hk1 & Hc1). rewrite bind_ret_l.
  replace (Z.of_nat m + 1) with (Z.of_nat (S m)) by lia.
  destruct (IH (S m) s1) as (s' & -> & [Hp' Hs'] & Hk' & Hc'); [by rewrite Hp1|intros p Hp; rewrite Hp1; apply Hv; lia|].
  exists s'. split; [done|]. split; [split; congruence|]. split; [done|]. intros j Hj. by rewrite Hc', Hc1.
Qed.

(** ** The elements of the array *)
Record Rep (s : t) (L : list V) (r : list address) : Prop := {
  rep_size : size_ s = szof L;
  rep_bound : pageCount_ s < 2 ^ 29;
  rep_pages : Pages (pages_for (length L)) r s;
  rep_cells : ∀ i v, L !! i = Some v → cell s i = Some (Some v)
}.
Definition extend (i : nat) (L : list V) : list V := L ++ replicate (S i - length L) null.

(** The size of an index of [count] entries once [makeIndexValid( index )] has
    seen to it, and whether the pages up to the element's are to be had: in the
    index, and within the 255 when [r] are held elsewhere. *)
Definition room (index count : Z) : Z :=
  if count * itemsPerPage <=? index then new_count count ((index + 1) / itemsPerPage) else count.
Definition enough (i r : nat) (count : Z) : bool :=
  ((pages_for (S i) + r <=? 255) && (pages_for (S i) <=? Z.to_nat (room (Z.of_nat i) count)))%nat.
(** How growing from [n] elements ends when they are not. *)
Definition grow_fault (i n r : nat) (count : Z) : fault :=
  page_fault (pages_for n) r (Z.to_nat (room (Z.of_nat i) count)).

Lemma array_rep_make al r : BatchAllocator.Holds r al → Rep (make al) [] r.
Proof. intros Hh. split; [done|done| |done]. split; [|done]. intros p Hp. by apply Nat.nlt_0_r in Hp. Qed.

Lemma rep_cell s L r i v :
  Rep s L r → L !! i = Some v → read_cell (Z.of_nat i / itemsPerPage) (Z.of_nat i mod itemsPerPage) s = Done v.
Proof. intros Hr Hv. by apply read_cell_of, (rep_cells _ _ _ Hr). Qed.

Lemma new_count_grows c m :
  0 ≤ c < 2 ^ 29 → 0 ≤ m < 2 ^ 29 → c * itemsPerPage < 2 ^ 31 → c ≤ new_count c m < 2 ^ 29 ∧ m ≤ new_count c m.
Proof.
  intros Hc Hm Hi. change itemsPerPage with 8 in Hi. unfold new_count.
  rewrite !wrapu_small by (rewrite ?wrapu_small by lia; Z.to_euclidean_division_equations; lia).
  destruct (Z.ltb_spec (c * 3 / 2 + 1) m); Z.to_euclidean_division_equations; lia.
Qed.

Lemma reallocate_of k r m s :
  Pages k r s → pageCount_ s ≤ new_count (pageCount_ s) m →
  pageCount_ (reallocate m s) = new_count (pageCount_ s) m ∧ Pages k r (reallocate m s) ∧
  ∀ j, (j < 8 * k)%nat → cell (reallocate m s) j = cell s j.
Proof.
  intros Hk Hn. assert (Hp : pages_ (reallocate m s) = pages_ s ++ replicate (Z.to_nat (new_count (pageCount_ s) m) - length (pages_ s)) None).
  { unfold reallocate. cbn [pages_ set_pages]. f_equal. apply take_ge. unfold pageCount_ in *. lia. }
  pose proof (pages_le _ _ _ Hk) as Hle. assert (Hsame : ∀ p, (p < k)%nat → pages_ (reallocate m s) !! p = pages_ s !! p).
  { intros p Hpk. rewrite Hp. apply lookup_app_l. lia. }
  split; [|split; [split|]].
  - unfold pageCount_ at 1. rewrite Hp, length_app, length_replicate. unfold pageCount_ in *. lia.
  - intros p Hpk. rewrite Hsame by done. by apply (pages_valid _ _ _ Hk).
  - rewrite Hp, take_app_le by done. apply (pages_held _ _ _ Hk).
  - intros j Hj. unfold cell. by rewrite Hsame by by apply page_of.
Qed.

(** The index grows as far as [room] says. *)
Lemma grow_of i s L r :
  Rep s L r → Z.of_nat i < 2 ^ 31 →
  ∃ s1,
    (if u32 (pageCount_ s * itemsPerPage) <=? Z.of_nat i then
       let minNewPages := u32 (Z.of_nat i + 1) / itemsPerPage in
       let s := reallocate minNewPages s in
       _ ← assert_message (minNewPages <=? pageCount_ s) "ValueInternalArray::reserve(): bad reallocation";
       Done s
     else Done s) = Done s1 ∧ pageCount_ s1 = room (Z.of_nat i) (pageCount_ s) ∧ Rep s1 L r.
Proof.
  intros Hr Hi. pose proof (rep_bound _ _ _ Hr) as Hb. unfold room.
  assert (0 ≤ pageCount_ s) by (unfold pageCount_; lia).
  rewrite (wrapu_small 32 (pageCount_ s * _)) by (change itemsPerPage with 8; lia).
  destruct (Z.leb_spec (pageCount_ s * itemsPerPage) (Z.of_nat i)) as [Hle|Hgt]; [|by exists s].
  rewrite wrapu_small by lia. cbv zeta. set (m := (Z.of_nat i + 1) / itemsPerPage).
  assert (Hm : 0 ≤ m < 2 ^ 29) by (subst m; change itemsPerPage with 8; Z.to_euclidean_division_equations; lia).
  destruct (new_count_grows (pageCount_ s) m) as [[Hc Hcb] Hcm]; [lia|done|lia|].
  destruct (reallocate_of _ _ m s (rep_pages _ _ _ Hr) Hc) as (Hn & Hk & Hcell).
  exists (reallocate m s). rewrite Hn, (proj2 (Z.leb_le _ _) Hcm). split; [done|]. split; [done|].
  split; [apply (rep_size _ _ _ Hr)|by rewrite Hn|done|].
  intros j v Hj. rewrite Hcell; [by apply (rep_cells _ _ _ Hr)|]. apply lookup_lt_Some in Hj. pages_lia.
Qed.

Lemma next_page n :
  Z.of_nat n < 2 ^ 32 - 8 →
  (if negb (Z.of_nat n mod itemsPerPage =? 0) then u32 (Z.of_nat n - Z.of_nat n mod itemsPerPage + itemsPerPage) else Z.of_nat n)
  = Z.of_nat (8 * pages_for n).
Proof.
  intros Hn. change itemsPerPage with 8. destruct (Z.eqb_spec (Z.of_nat n mod 8) 0) as [E|E]; cbn [negb]; [pages_lia|].
  rewrite wrapu_small; pages_lia.
Qed.

Lemma makeIndexValid_of i s L r :
  Rep s L r → (length L ≤ i)%nat → Z.of_nat i < 2 ^ 31 →
  if enough i (length r) (pageCount_ s) then
    ∃ s', makeIndexValid (Z.of_nat i) s = Done s' ∧ Rep s' (extend i L) r ∧
      pageCount_ s' = room (Z.of_nat i) (pageCount_ s)
  else makeIndexValid (Z.of_nat i) s = Fault (grow_fault i (length L) (length r) (pageCount_ s)).
Proof.
  intros Hr Hi Hb. destruct (grow_of i s L r Hr Hb) as (s1 & Hgrow & Hroom & Hr1).
  unfold makeIndexValid. cbv zeta in Hgrow |- *. rewrite Hgrow, !bind_ret_l. clear Hgrow.
  rewrite (rep_size _ _ _ Hr1), next_page by lia. set (k := pages_for (length L)). cbv zeta.
  assert (Halloc : if enough i (length r) (pageCount_ s) then
      ∃ s2, (if Z.of_nat (8 * k) <=? Z.of_nat i then
         allocate_pages (Z.to_nat ((Z.of_nat i - Z.of_nat (8 * k)) / itemsPerPage + 1)) (Z.of_nat (8 * k) / itemsPerPage) s1
       else Done s1) = Done s2 ∧ length (pages_ s2) = length (pages_ s1) ∧ size_ s2 = size_ s1 ∧
        Pages (pages_for (S i)) r s2 ∧ ∀ j, (j < 8 * k)%nat → cell s2 j = cell s1 j
      else (if Z.of_nat (8 * k) <=? Z.of_nat i then
         allocate_pages (Z.to_nat ((Z.of_nat i - Z.of_nat (8 * k)) / itemsPerPage + 1)) (Z.of_nat (8 * k) / itemsPerPage) s1
       else Done s1) = Fault (grow_fault i (length L) (length r) (pageCount_ s))).
  { unfold enough, grow_fault. rewrite <- Hroom. unfold pageCount_. rewrite Nat2Z.id. fold k. change itemsPerPage with 8. pose proof (rep_pages _ _ _ Hr1) as Hk. fold k in Hk.
    destruct (Z.leb_spec (Z.of_nat (8 * k)) (Z.of_nat i)) as [Hle|Hgt].
    - replace (Z.of_nat (8 * k) / 8) with (Z.of_nat k) by (Z.to_euclidean_division_equations; lia).
      pose proof (allocate_pages_of (Z.to_nat ((Z.of_nat i - Z.of_nat (8 * k)) / 8 + 1)) r k s1 Hk) as Ha.
      replace (k + Z.to_nat _)%nat with (pages_for (S i)) in Ha by (subst k; pages_lia).
      destruct (_ && _); [|done]. destruct Ha as (s2 & ? & ? & ? & ? & ?). by exists s2.
    - pose proof (pages_le _ _ _ Hk). pose proof (pages_total _ _ _ Hk).
      assert (Hsame : pages_for (S i) = k) by (subst k; pages_lia). rewrite Hsame, !(proj2 (Nat.leb_le _ _)) by done. by exists s1. }
  destruct (enough _ _ _); [|by rewrite Halloc].
  destruct Halloc as (s2 & -> & Hl2 & Hs2 & Hk2 & Hc2). rewrite bind_ret_l, Hs2, (rep_size _ _ _ Hr1), wrapu_small by lia.
  replace (Z.of_nat i + 1) with (Z.of_nat (length L + (S i - length L))) by lia.
  edestruct (each_of (pages_for (S i)) r construct (Some null) (S i - length L) (S (Z.to_nat (Z.of_nat (length L + (S i - length L))))) (length L)
    (set_size (Z.of_nat (length L + (S i - length L))) s2)) as (s' & Hs' & [Hp' Hz'] & Hk' & Hn' & Ho').
  { split; [apply (pages_valid _ _ _ Hk2)|apply (pages_held _ _ _ Hk2)]. }
  { pages_lia. } { cbn. lia. } { lia. } { done. }
  assert (Hcount : pageCount_ s' = pageCount_ s1) by (unfold pageCount_; rewrite Hp'; cbn; by rewrite Hl2).
  exists s'. split; [exact Hs'|]. split; [|by rewrite Hcount]. split.
  - rewrite Hz'. cbn. unfold extend. rewrite length_app, length_replicate. lia.
  - rewrite Hcount. apply (rep_bound _ _ _ Hr1).
  - unfold extend. rewrite length_app, length_replicate. by replace (length L + (S i - length L))%nat with (S i) by lia.
  - intros j v. unfold extend. rewrite lookup_app_Some, lookup_replicate. intros [Hj|[Hj [-> Hlt]]]; [|apply Hn'; lia].
    pose proof (lookup_lt_Some _ _ _ Hj). rewrite Ho' by pages_lia. unfold cell. cbn. fold (cell s2 j).
    rewrite Hc2 by (subst k; pages_lia). by apply (rep_cells _ _ _ Hr1).
Qed.

(** ** Operations *)
Lemma rep_cell_full s L r i :
  Rep s L r → (i < length L)%nat → ∃ v, L !! i = Some v ∧ cell s i = Some (Some v).
Proof.
  intros Hr Hi. destruct (lookup_lt_is_Some_2 _ _ Hi) as [v Hv]. exists v. split; [done|]. by apply (rep_cells _ _ _ Hr).
Qed.

Lemma lookup_of s L r i : Rep s L r → lookup (Z.of_nat i) s = Done (L !! i).
Proof.
  intros Hr. unfold lookup, find. rewrite (rep_size _ _ _ Hr). destruct (Z.leb_spec (szof L) (Z.of_nat i)).
  - by rewrite (proj2 (lookup_ge_None _ _)) by lia.
  - destruct (rep_cell_full s L r i Hr) as (v & -> & Hc); [lia|].
    rewrite (get_cell_of _ _ _ Hc), !bind_ret_l. by rewrite (read_cell_of _ _ _ Hc).
Qed.

(** The size of the index once element [i] of [n] is there, or how that fails. *)
Definition entries_after (i n r : nat) (count : Z) : outcome Z :=
  if (i <? n)%nat then Done count
  else if enough i r count then Done (room (Z.of_nat i) count) else Fault (grow_fault i n r count).

Lemma resolve_of s L r i :
  Rep s L r → Z.of_nat i < 2 ^ 31 →
  match entries_after i (length L) (length r) (pageCount_ s) with
  | Done c =>
      ∃ s', resolveReference (Z.of_nat i) s = Done (Z.of_nat i / itemsPerPage, Z.of_nat i mod itemsPerPage, s') ∧
        Rep s' (extend i L) r ∧ pageCount_ s' = c
  | Fault f => resolveReference (Z.of_nat i) s = Fault f
  end.
Proof.
  intros Hr Hi. unfold resolveReference, entries_after. rewrite (rep_size _ _ _ Hr).
  destruct (Nat.ltb_spec i (length L)) as [Hlt|Hge].
  - rewrite (proj2 (Z.leb_gt _ _)), bind_ret_l by lia. destruct (rep_cell_full s L r i Hr Hlt) as (v & _ & Hc).
    rewrite (get_cell_of _ _ _ Hc), bind_ret_l. exists s. split; [done|]. unfold extend.
    replace (S i - length L)%nat with 0%nat by lia. by rewrite app_nil_r.
  - rewrite (proj2 (Z.leb_le _ _)) by lia. pose proof (makeIndexValid_of i s L r Hr Hge Hi) as Hm.
    destruct (enough _ _ _); [|by rewrite Hm]. destruct Hm as (s' & -> & Hr' & Hc'). rewrite bind_ret_l.
    destruct (rep_cell_full s' _ r i Hr') as (v & _ & Hc). { unfold extend. rewrite length_app, length_replicate. lia. }
    rewrite (get_cell_of _ _ _ Hc), bind_ret_l. by exists s'.
Qed.

Lemma assign_of s L r i v :
  Rep s L r → Z.of_nat i < 2 ^ 31 →
  match entries_after i (length L) (length r) (pageCount_ s) with
  | Done c => ∃ s', assign (Z.of_nat i) v s = Done s' ∧ Rep s' (<[i := v]> (extend i L)) r ∧ pageCount_ s' = c
  | Fault f => assign (Z.of_nat i) v s = Fault f
  end.
Proof.
  intros Hr Hi. unfold assign. pose proof (resolve_of s L r i Hr Hi) as Hres.
  destruct (entries_after _ _ _ _) as [c|f]; [|by rewrite Hres]. destruct Hres as (s1 & -> & Hr1 & Hc1). rewrite bind_ret_l.
  assert (Hlen : (i < length (extend i L))%nat) by (unfold extend; rewrite length_app, length_replicate; lia).
  destruct (rep_cell_full s1 _ r i Hr1 Hlen) as (w & _ & Hc). rewrite (read_cell_of _ _ _ Hc), bind_ret_l.
  destruct (put_cell_of _ _ s1 i (Some v) (rep_pages _ _ _ Hr1)) as (s' & -> & [Hp Hs] & Hk & Hci & Ho); [pages_lia|].
  assert (Hcount : pageCount_ s' = pageCount_ s1) by (unfold pageCount_; by rewrite Hp).
  exists s'. split; [done|]. split; [|by rewrite Hcount]. split.
  - rewrite Hs, length_insert. apply (rep_size _ _ _ Hr1).
  - rewrite Hcount. apply (rep_bound _ _ _ Hr1).
  - by rewrite length_insert.
  - intros j x. rewrite list_lookup_insert by done. case_decide as Hd; [destruct Hd as [<- _]; by intros [= <-]|].
    intros Hj. pose proof (lookup_lt_Some _ _ _ Hj). rewrite Ho; [by apply (rep_cells _ _ _ Hr1)|pages_lia|].
    intros ->. by apply Hd.
Qed.

(** The values from an element to the end are destroyed. *)
Lemma destroy_from s L r n :
  Rep s L r → (n ≤ length L)%nat →
  ∃ s', each (S (Z.to_nat (size_ s))) destroy (makeIterator (Z.of_nat n)) (makeIterator (size_ s)) s = Done s' ∧
    Frame s s' ∧ Pages (pages_for (length L)) r s' ∧
    ∀ i v, (i < n)%nat → L !! i = Some v → cell s' i = Some (Some v).
Proof.
  intros Hr Hn. pose proof (rep_size _ _ _ Hr) as Hs. rewrite Hs.
  destruct (each_of _ r destroy None (length L - n) (S (Z.to_nat (szof L))) n s (rep_pages _ _ _ Hr)) as (s' & He & Hf & Hk & _ & Ho);
    [pages_lia|lia|lia| |].
  { intros j c Hj Hc. destruct (rep_cell_full s L r j Hr) as (v & _ & Hv); [lia|]. rewrite Hv in Hc. by injection Hc as <-. }
  replace (n + (length L - n))%nat with (length L) in He by lia. exists s'. split; [exact He|]. split; [done|]. split; [done|].
  intros i v Hi Hv. rewrite Ho by (pose proof (lookup_lt_Some _ _ _ Hv); pages_lia). by apply (rep_cells _ _ _ Hr).
Qed.

(** Of [k] pages the [n] from the [m]-th are released, and those behind are lost. *)
Lemma release_from k r m n s :
  Pages k r s → (m + n ≤ k)%nat →
  ∃ s' gone, release_pages n (Z.of_nat m) s = Done s' ∧ Frame s s' ∧ Pages m (gone ++ r) s' ∧
    length gone = (k - (m + n))%nat ∧ ∀ j, (j < 8 * m)%nat → cell s' j = cell s j.
Proof.
  intros Hk Hn. pose proof (pages_down (m + n) k r s Hn Hk) as Hd. set (gone := ids _) in Hd.
  pose proof (pages_down m (m + n) _ s ltac:(lia) Hd) as Hm. replace (m + n - m)%nat with n in Hm by lia.
  destruct (release_pages_of _ _ _ _ _ Hm) as (s' & Hs' & Hf & Hk' & Hc).
  { intros p Hp. destruct (pages_valid _ _ _ Hk p) as (id & page & Hid & _); [lia|]. by exists id. }
  exists s', gone. split; [done|]. split; [done|]. split; [done|]. split; [|done].
  apply (pages_count _ _ _ _ _ Hk). lia.
Qed.

Lemma clear_of s L r :
  Rep s L r → ∃ s' gone, clear s = Done s' ∧ Rep s' [] (gone ++ r) ∧ pageCount_ s' = 0 ∧
    length gone = (pages_for (length L) - length L / 8)%nat.
Proof.
  intros Hr. unfold clear, dtor. destruct (destroy_from s L r 0 Hr ltac:(lia)) as (s1 & He & [Hp1 Hs1] & Hk1 & _).
  change makeBeginIterator with (makeIterator (Z.of_nat 0)). unfold makeEndIterator. rewrite He, bind_ret_l.
  rewrite Hs1, (rep_size _ _ _ Hr), to_nat_div.
  destruct (release_from _ _ 0 (length L / 8) s1 Hk1) as (s2 & gone & Hrel & _ & Hk2 & Hg & _); [pages_lia|].
  change (Z.of_nat 0) with 0 in Hrel. rewrite Hrel, !bind_ret_l. exists (set_size 0 (set_pages [] s2)), gone.
  split; [done|]. split; [|done]. split; [done|done| |done]. split; [|exact (pages_held _ _ _ Hk2)].
  intros p Hp. by apply Nat.nlt_0_r in Hp.
Qed.

Lemma shrink_of s L r n :
  Rep s L r → (0 < n < length L)%nat →
  ∃ s' gone, resize (Z.of_nat n) s = Done s' ∧ Rep s' (take n L) (gone ++ r) ∧ pageCount_ s' = pageCount_ s ∧
    length gone = (pages_for (length L) - Nat.max (pages_for n) (length L / 8))%nat.
Proof.
  intros Hr Hn. unfold resize. rewrite (rep_size _ _ _ Hr), (proj2 (Z.eqb_neq _ 0)), (proj2 (Z.ltb_lt _ _)) by lia.
  destruct (destroy_from s L r n Hr ltac:(lia)) as (s1 & He & [Hp1 Hs1] & Hk1 & Hc1). rewrite (rep_size _ _ _ Hr) in He.
  rewrite He, bind_ret_l, Hs1, (rep_size _ _ _ Hr). cbv zeta. change itemsPerPage with 8.
  assert (HnL : szof L < 2 ^ 31) by (pose proof (pages_total _ _ _ (rep_pages _ _ _ Hr)); pages_lia).
  rewrite wrapu_small by lia. replace ((Z.of_nat n + 8 - 1) / 8) with (Z.of_nat (pages_for n)) by pages_lia.
  replace (Z.to_nat (szof L / 8 - Z.of_nat (pages_for n))) with (length L / 8 - pages_for n)%nat by pages_lia.
  destruct (release_from _ _ (pages_for n) (length L / 8 - pages_for n) s1 Hk1) as (s2 & gone & -> & [Hp2 Hs2] & Hk2 & Hg & Hc2); [pages_lia|].
  rewrite bind_ret_l. assert (Hcount : pageCount_ s2 = pageCount_ s) by (unfold pageCount_; by rewrite Hp2, Hp1).
  exists (set_size (Z.of_nat n) s2), gone. split; [done|]. split; [|split; [exact Hcount|rewrite Hg; lia]]. split; cbn.
  - rewrite length_take. lia.
  - change (pageCount_ s2 < 2 ^ 29). rewrite Hcount. apply (rep_bound _ _ _ Hr).
  - rewrite length_take_le by lia. split; [apply (pages_valid _ _ _ Hk2)|apply (pages_held _ _ _ Hk2)].
  - intros i v Hi. apply lookup_take_Some in Hi as [Hi Hin]. change (cell s2 i = Some (Some v)).
    rewrite Hc2 by pages_lia. by apply Hc1.
Qed.

(** A resize that does not make the array smaller. *)
Lemma enlarge_of s L r n :
  Rep s L r → Z.of_nat n < 2 ^ 31 → (length L < n)%nat →
  match entries_after n (length L) (length r) (pageCount_ s) with
  | Done c => ∃ s', resize (Z.of_nat n) s = Done s' ∧ Rep s' (extend n L) r ∧ pageCount_ s' = c
  | Fault f => resize (Z.of_nat n) s = Fault f
  end.
Proof.
  intros Hr Hb Hn. unfold resize. rewrite (rep_size _ _ _ Hr), (proj2 (Z.eqb_neq _ 0)), (proj2 (Z.ltb_ge _ _)), (proj2 (Z.ltb_lt _ _)) by lia.
  pose proof (resolve_of s L r n Hr Hb) as Hres. destruct (entries_after _ _ _ _); [|by rewrite Hres].
  destruct Hres as (s' & -> & Hr'). by exists s'.
Qed.
Lemma resize_same s L r : Rep s L r → (0 < length L)%nat → resize (szof L) s = Done s.
Proof. intros Hr Hn. unfold resize. by rewrite (rep_size _ _ _ Hr), (proj2 (Z.eqb_neq _ 0)), Z.ltb_irrefl by lia. Qed.

(** The index has, or gets, an entry for the page of the next element. *)
Lemma next_room s L r :
  Rep s L r → (pages_for (S (length L)) ≤ Z.to_nat (room (szof L) (pageCount_ s)))%nat.
Proof.
  intros Hr. pose proof (pages_le _ _ _ (rep_pages _ _ _ Hr)). pose proof (pages_total _ _ _ (rep_pages _ _ _ Hr)).
  pose proof (rep_bound _ _ _ Hr). unfold room, pageCount_ in *. change itemsPerPage with 8.
  destruct (Z.leb_spec (szof (pages_ s) * 8) (szof L)); [|pages_lia].
  unfold new_count. rewrite !wrapu_small by (rewrite ?wrapu_small by lia; Z.to_euclidean_division_equations; lia).
  destruct (Z.ltb_spec (szof (pages_ s) * 3 / 2 + 1) ((szof L + 1) / 8)); pages_lia.
Qed.

Lemma compare_loop_of cmp s s' M M' r r' : ∀ n i,
  Rep s M r → Rep s' M' r' → (i + n = length M)%nat → length M = length M' →
  compare_loop cmp n (Z.of_nat i) s s' =
  Done (default 0 (list_find (λ d, d ≠ 0) (zip_with cmp (drop i M) (drop i M')) ≫= λ p, Some p.2)).
Proof.
  induction n as [|n IH]; intros i Hr Hr' Hi Hlen; cbn [compare_loop].
  - by rewrite drop_ge by lia.
  - destruct (lookup_lt_is_Some_2 M i) as [v Hv]; [lia|]. destruct (lookup_lt_is_Some_2 M' i) as [w Hw]; [lia|].
    rewrite (rep_cell _ _ _ _ _ Hr Hv), (rep_cell _ _ _ _ _ Hr' Hw), !bind_ret_l.
    rewrite (drop_S _ _ _ Hv), (drop_S _ _ _ Hw). cbn [zip_with list_find].
    replace (Z.of_nat i + 1) with (Z.of_nat (S i)) by lia. destruct (Z.eqb_spec (cmp v w) 0) as [E|E].
    + rewrite decide_False by auto. rewrite IH by (done || lia). by destruct (list_find _ _) as [[]|].
    + by rewrite decide_True.
Qed.

Lemma compare_of cmp s s' M M' r r' :
  Rep s M r → Rep s' M' r' →
  compare cmp s s' =
  Done (if decide (length M = length M') then
          default 0 (list_find (λ d, d ≠ 0) (zip_with cmp M M') ≫= λ p, Some p.2)
        else szof M - szof M').
Proof.
  intros Hr Hr'. unfold compare. rewrite (rep_size _ _ _ Hr), (rep_size _ _ _ Hr').
  pose proof (pages_total _ _ _ (rep_pages _ _ _ Hr)). pose proof (pages_total _ _ _ (rep_pages _ _ _ Hr')).
  rewrite wraps_small by pages_lia. destruct (Z.eqb_spec (szof M - szof M') 0) as [E|E]; case_decide as Hd; [|lia..|done].
  rewrite Nat2Z.id. by rewrite (compare_loop_of cmp s s' _ _ _ _ _ 0 Hr Hr').
Qed.

(** ** Histories

    The array and, of the pages the allocator has given out, those that other
    arrays have: these take and give back pages between the array's operations. *)
Record shared := mkShared { array : t; elsewhere : list address }.
Inductive op := Assign (i : nat) (v : V) | Resize (n : nat) | Others (o : BatchAllocator.op).
Definition op_index (o : op) : nat := match o with Assign i _ => i | Resize n => n | Others _ => 0%nat end.
Definition do (o : op) (c : shared) : outcome shared :=
  match o with
  | Assign i v => s ← assign (Z.of_nat i) v (array c); Done (mkShared s (elsewhere c))
  | Resize n => s ← resize (Z.of_nat n) (array c); Done (mkShared s (elsewhere c))
  | Others o =>
      '(e, al) ← BatchAllocator.step itemsPerPage 255 o (elsewhere c) (pagesAllocator_ (array c));
      Done (mkShared (set_allocator al (array c)) e)
  end.
Fixpoint run (l : list op) (c : shared) : outcome shared :=
  match l with [] => Done c | o :: l => c ← do o c; run l c end.
(** An array and an allocator that have just been made. *)
Definition start : outcome shared := al ← BatchAllocator.make itemsPerPage 255; Done (mkShared (make al) []).
Definition history (l : list op) : outcome shared := c ← start; run l c.

(** What the operations make of a list of values. *)
Definition spec (o : op) (L : list V) : list V :=
  match o with
  | Assign i v => <[i := v]> (extend i L)
  | Resize n => if (n <=? length L)%nat then take n L else extend n L
  | Others _ => L
  end.
Definition listed (l : list op) : list V := foldl (flip spec) [] l.
Definition appends (l : list V) : list op := imap Assign l.

(** What they cost: the size of the index, and the pages held that are not the
    array's: those it has lost, each time a last page that was not full was to be
    released, and those that others have. *)
Record account := mkAccount { entries : Z; lost : nat; away : nat }.
Definition held (n : nat) (a : account) : nat := (pages_for n + (lost a + away a))%nat.
Definition charge (o : op) (n : nat) (a : account) : outcome account :=
  let grown i := c ← entries_after i n (lost a + away a) (entries a); Done (mkAccount c (lost a) (away a)) in
  match o with
  | Assign i _ => grown i
  | Resize m =>
      if (m =? 0)%nat then Done (mkAccount 0 (pages_for n - n / 8 + lost a) (away a))
      else if (m <? n)%nat then Done (mkAccount (entries a) (pages_for n - Nat.max (pages_for m) (n / 8) + lost a) (away a))
      else if (m =? n)%nat then Done a else grown m
  | Others BatchAllocator.Allocate =>
      if (held n a <? 255)%nat then Done (mkAccount (entries a) (lost a) (S (away a))) else Fault BatchAllocator.overrun
  | Others (BatchAllocator.Release k) =>
      Done (mkAccount (entries a) (lost a) (if (k <? away a)%nat then pred (away a) else away a))
  end.
Fixpoint charges (l : list op) (L : list V) (a : account) : outcome account :=
  match l with [] => Done a | o :: l => a ← charge o (length L) a; charges l (spec o L) a end.
Definition bill (l : list op) : outcome account := charges l [] (mkAccount 0 0 0).

(** The array stands for the list, at this cost. *)
Record Stands (c : shared) (L : list V) (a : account) (gone : list address) : Prop := {
  stands_rep : Rep (array c) L (gone ++ elsewhere c);
  stands_entries : pageCount_ (array c) = entries a;
  stands_lost : length gone = lost a;
  stands_away : length (elsewhere c) = away a
}.

Lemma rep_others s L r r' al :
  Rep s L r → BatchAllocator.Holds (ids (take (pages_for (length L)) (pages_ s)) ++ r') al → Rep (set_allocator al s) L r'.
Proof.
  intros Hr Hh. split; [apply (rep_size _ _ _ Hr)|apply (rep_bound _ _ _ Hr)| |apply (rep_cells _ _ _ Hr)].
  split; [apply (pages_valid _ _ _ (rep_pages _ _ _ Hr))|exact Hh].
Qed.

Lemma start_of : ∃ c, start = Done c ∧ Stands c [] (mkAccount 0 0 0) [].
Proof. eexists. split; [reflexivity|]. split; [|done..]. apply array_rep_make. by apply BatchAllocator.holds_make. Qed.

Lemma stands_held c L a gone :
  Stands c L a gone →
  ∃ live, BatchAllocator.Holds live (pagesAllocator_ (array c)) ∧ length live = held (length L) a.
Proof.
  intros [Hr He Hl Ha]. pose proof (rep_pages _ _ _ Hr) as Hk. eexists. split; [apply (pages_held _ _ _ Hk)|].
  pose proof (pages_count _ _ _ 0 (pages_for (length L)) Hk ltac:(lia)) as Hc. rewrite drop_0 in Hc.
  rewrite !length_app, Hc, Hl, Ha. done.
Qed.

(** Growing, by an assignment or a resize. *)
Lemma grown_of (r : outcome t) c L L' a gone i :
  Stands c L a gone →
  match entries_after i (length L) (length (gone ++ elsewhere c)) (pageCount_ (array c)) with
  | Done n => ∃ s, r = Done s ∧ Rep s L' (gone ++ elsewhere c) ∧ pageCount_ s = n
  | Fault f => r = Fault f
  end →
  match n ← entries_after i (length L) (lost a + away a) (entries a); Done (mkAccount n (lost a) (away a)) with
  | Done a' => ∃ c' gone', (s ← r; Done (mkShared s (elsewhere c))) = Done c' ∧ Stands c' L' a' gone'
  | Fault f => (s ← r; Done (mkShared s (elsewhere c))) = Fault f
  end.
Proof.
  intros [Hr He Hl Ha] Hg. rewrite length_app, Hl, Ha, He in Hg.
  destruct (entries_after _ _ _ _) as [n|f]; [|by rewrite Hg]. destruct Hg as (s & -> & Hr' & Hn).
  rewrite !bind_ret_l. by exists (mkShared s (elsewhere c)), gone.
Qed.

Lemma others_of c L a gone o :
  Stands c L a gone →
  match charge (Others o) (length L) a with
  | Done a' => ∃ c' gone', do (Others o) c = Done c' ∧ Stands c' L a' gone'
  | Fault f => do (Others o) c = Fault f
  end.
Proof.
  intros [Hr He Hl Ha]. pose proof (rep_pages _ _ _ Hr) as Hk. pose proof (pages_held _ _ _ Hk) as Hh.
  pose proof (pages_count _ _ _ 0 (pages_for (length L)) Hk ltac:(lia)) as Hc. rewrite drop_0 in Hc.
  destruct o as [|k]; cbn [charge do BatchAllocator.step]; change itemsPerPage with 8.
  - pose proof (BatchAllocator.allocate_page _ _ Hh) as Hal.
    rewrite !length_app, Hc, Hl, Ha in Hal. unfold held. destruct (_ <? _)%nat; [|by rewrite Hal].
    destruct Hal as (x & al & -> & Hh'). rewrite !bind_ret_l.
    exists (mkShared (set_allocator al (array c)) (x :: elsewhere c)), gone.
    split; [done|]. split; [|done..|by cbn; rewrite Ha]. eapply rep_others; [exact Hr|].
    cbn. by rewrite app_assoc, <- Permutation_middle, <- app_assoc.
  - rewrite <- Ha. destruct (elsewhere c !! k) as [x|] eqn:Hx; rewrite bind_ret_l.
    + pose proof (lookup_lt_Some _ _ _ Hx) as Hlt. rewrite (proj2 (Nat.ltb_lt _ _) Hlt).
      eexists (mkShared _ (delete k (elsewhere c))), gone. split; [done|].
      split; [|done..|cbn; rewrite length_delete by done; lia]. eapply rep_others; [exact Hr|]. cbn.
      apply BatchAllocator.holds_release. by rewrite 2!Permutation_middle, <- (delete_Permutation _ _ _ Hx).
    + rewrite (proj2 (Nat.ltb_ge _ _)) by by apply lookup_ge_None. exists c, gone. by destruct c as [[] ?].
Qed.

Lemma do_of c L a gone o :
  Stands c L a gone → Z.of_nat (op_index o) < 2 ^ 31 →
  match charge o (length L) a with
  | Done a' => ∃ c' gone', do o c = Done c' ∧ Stands c' (spec o L) a' gone'
  | Fault f => do o c = Fault f
  end.
Proof.
  intros Hs Hi. pose proof (stands_rep _ _ _ _ Hs) as Hr. destruct o as [i v|m|o]; [| |by apply (others_of _ _ _ gone)].
  { apply (grown_of _ _ L _ _ gone); [done|]. by apply assign_of. }
  cbn [charge do spec op_index] in *. pose proof Hs as [_ He Hl Ha].
  destruct (Nat.eqb_spec m 0) as [->|Hm0].
  { destruct (clear_of _ _ _ Hr) as (s & extra & Hc & Hr' & Hn & Hx). change (resize (Z.of_nat 0) (array c)) with (clear (array c)).
    rewrite Hc, bind_ret_l. exists (mkShared s (elsewhere c)), (extra ++ gone). split; [done|].
    split; cbn; [by rewrite <- app_assoc|done|by rewrite length_app, Hx, Hl|done]. }
  destruct (Nat.ltb_spec m (length L)) as [Hlt|Hge].
  { destruct (shrink_of _ _ _ m Hr) as (s & extra & -> & Hr' & Hn & Hx); [lia|]. rewrite bind_ret_l, (proj2 (Nat.leb_le _ _)) by lia.
    exists (mkShared s (elsewhere c)), (extra ++ gone). split; [done|].
    split; cbn; [by rewrite <- app_assoc|by rewrite Hn|by rewrite length_app, Hx, Hl|done]. }
  destruct (Nat.eqb_spec m (length L)) as [->|Hne].
  { rewrite (resize_same _ _ _ Hr), bind_ret_l, Nat.leb_refl, take_ge by lia. exists c, gone. by destruct c. }
  rewrite (proj2 (Nat.leb_gt _ _)) by lia. apply (grown_of _ _ L _ _ gone); [done|]. apply enlarge_of; [done..|lia].
Qed.

Lemma run_of l : ∀ c L a gone,
  Stands c L a gone → Forall (λ o, Z.of_nat (op_index o) < 2 ^ 31) l →
  match charges l L a with
  | Done a' => ∃ c' gone', run l c = Done c' ∧ Stands c' (foldl (flip spec) L l) a' gone'
  | Fault f => run l c = Fault f
  end.
Proof.
  induction l as [|o l IH]; intros c L a gone Hs Hl; [by exists c, gone|]. apply Forall_cons in Hl as [Ho Hl].
  cbn [run charges foldl flip]. pose proof (do_of c L a gone o Hs Ho) as Hdo. destruct (charge _ _ _); [|by rewrite Hdo].
  destruct Hdo as (c1 & gone1 & -> & Hs1). rewrite !bind_ret_l. by eapply IH.
Qed.

Lemma bill_faults l f : bill l = Fault f → f = past_index ∨ f = BatchAllocator.overrun.
Proof.
  unfold bill. generalize (@nil V) (mkAccount 0 0 0). induction l as [|o l IH]; intros L a; [done|]. cbn [charges].
  destruct (charge o (length L) a) as [a'|g] eqn:Hc; [by apply IH|]. intros [= <-]. revert Hc.
  unfold charge, entries_after, grow_fault, page_fault. repeat case_match; cbn; intros [= <-]; auto.
Qed.

(** Elements assigned one after the other find room up to the last of 255 pages. *)
Lemma run_in_turn l : ∀ c L a gone,
  Stands c L a gone → lost a = 0%nat → away a = 0%nat → szof L ≤ 2040 →
  if szof (L ++ l) <=? 2040 then
    ∃ c' a' gone', run (imap (λ i, Assign (length L + i)) l) c = Done c' ∧ Stands c' (L ++ l) a' gone'
  else run (imap (λ i, Assign (length L + i)) l) c = Fault BatchAllocator.overrun.
Proof.
  induction l as [|v l IH]; intros c L a gone Hs Hlost Haway Hb.
  { rewrite app_nil_r, (proj2 (Z.leb_le _ _)) by done. by exists c, a, gone. }
  cbn [imap run]. rewrite Nat.add_0_r. pose proof (do_of c L a gone (Assign (length L) v) Hs ltac:(cbn; lia)) as Hdo.
  pose proof (next_room _ _ _ (stands_rep _ _ _ _ Hs)) as Hroom. rewrite (stands_entries _ _ _ _ Hs) in Hroom.
  cbn [charge] in Hdo. unfold entries_after, enough in Hdo.
  rewrite Hlost, Haway, Nat.ltb_irrefl, (proj2 (Nat.leb_le _ _) Hroom), andb_true_r in Hdo.
  destruct (Nat.leb_spec (pages_for (S (length L)) + (0 + 0)) 255) as [Hle|Hgt].
  - destruct Hdo as (c1 & gone1 & -> & Hs1). rewrite bind_ret_l.
    assert (Hspec : spec (Assign (length L) v) L = L ++ [v]).
    { cbn. unfold extend. replace (S (length L) - length L)%nat with 1%nat by lia. cbn. by rewrite insert_app_r_alt, Nat.sub_diag by lia. }
    rewrite Hspec in Hs1. specialize (IH _ _ _ _ Hs1 eq_refl eq_refl). rewrite <- app_assoc in IH.
    replace (imap _ l) with (imap (λ i, Assign (length (L ++ [v]) + i)) l).
    { apply IH. rewrite length_app. cbn. pages_lia. }
    apply imap_ext. intros i x _. rewrite length_app. cbn. f_equal. lia.
  - rewrite Hdo. unfold grow_fault, page_fault.
    rewrite (proj2 (Z.leb_gt _ _)) by (rewrite length_app; cbn; pages_lia).
    rewrite (proj2 (Nat.leb_le _ _)); [done|pages_lia].
Qed.

(** * Properties *)

(** C40. Whatever elements are assigned and however the array is resized, while
    other arrays take and give back pages of the allocator they share, the history
    goes through exactly when its account does: an element's page must be in the
    index, and no more than 255 pages may be held by the array, lost by it and
    held by others.  Then the array is the list that the operations' list
    counterparts make (elements that are skipped are null): looking up any index
    finds the element of the list, as many pages are held as the account says, and
    comparing with another such array compares the lengths and then the elements
    in order.  Otherwise the history ends as the account does: with a page stored
    past the index, or with one past the end of the allocator's batch.  Elements
    assigned one after the other are always in the index; 2040 of them fit the
    pages, and with more the 256th page lies past the batch. *)
Theorem internal_array_implements_list l :
  Forall (λ o, Z.of_nat (op_index o) < 2 ^ 31) l →
  match bill l with
  | Done a =>
      ∃ c, history l = Done c ∧ size (array c) = szof (listed l) ∧
        (∀ i, lookup (Z.of_nat i) (array c) = Done (listed l !! i)) ∧
        (∃ live, BatchAllocator.Holds live (pagesAllocator_ (array c)) ∧ length live = held (length (listed l)) a) ∧
        ∀ l' c' cmp, Forall (λ o, Z.of_nat (op_index o) < 2 ^ 31) l' → history l' = Done c' →
          compare cmp (array c) (array c') =
          Done (if decide (length (listed l) = length (listed l')) then
                  default 0 (list_find (λ d, d ≠ 0) (zip_with cmp (listed l) (listed l')) ≫= λ p, Some p.2)
                else szof (listed l) - szof (listed l'))
  | Fault f => history l = Fault f ∧ (f = past_index ∨ f = BatchAllocator.overrun)
  end ∧
  ∀ vs, if szof vs <=? 2040 then
      ∃ c, history (appends vs) = Done c ∧ size (array c) = szof vs ∧
        ∀ i, lookup (Z.of_nat i) (array c) = Done (vs !! i)
    else history (appends vs) = Fault BatchAllocator.overrun.
Proof.
  intros Hl. destruct start_of as (c0 & Hstart & Hs0). unfold history. rewrite Hstart, bind_ret_l. split.
  - pose proof (run_of l _ _ _ _ Hs0 Hl) as Hrun. fold (listed l) in Hrun. fold (bill l) in Hrun.
    destruct (bill l) as [a|f] eqn:Hbill; [|by split; [|apply bill_faults in Hbill]].
    destruct Hrun as (c & gone & Hc & Hs). pose proof (stands_rep _ _ _ _ Hs) as Hr. exists c. split; [done|].
    split; [apply (rep_size _ _ _ Hr)|]. split; [intros i; by eapply lookup_of|]. split; [by eapply stands_held|].
    intros l' c' cmp Hl' Hc'. rewrite bind_ret_l in Hc'. pose proof (run_of l' _ _ _ _ Hs0 Hl') as Hrun'.
    destruct (charges l' _ _) as [a'|f]; [|congruence]. destruct Hrun' as (c1 & gone' & Hc1 & Hs').
    rewrite Hc' in Hc1. injection Hc1 as ->. by eapply compare_of, stands_rep.
  - intros vs. pose proof (run_in_turn vs _ _ _ _ Hs0 eq_refl eq_refl ltac:(done)) as Hrun.
    change (imap _ vs) with (appends vs) in Hrun. cbn [app] in Hrun. destruct (_ <=? _); [|done].
    destruct Hrun as (c & a & gone & Hc & Hs). pose proof (stands_rep _ _ _ _ Hs) as Hr. exists c. split; [done|].
    split; [apply (rep_size _ _ _ Hr)|]. intros i. by eapply lookup_of.
Qed.

End Array.
(** ** Examples *)
Module ArraySample.
Definition done_or {A} (d : A) (r : outcome A) : A := match r with Done x => x | Fault _ => d end.
Definition filled (vs : list Z) : t :=
  done_or (make (BatchAllocator.mk [] 0 [])) (c ← history 0 (appends vs); Done (array c)).

Lemma internal_array_implements_list_witness :
  ∃ c, history 0 [Assign 2 7; Others BatchAllocator.Allocate; Resize 9; Resize 1; Assign 1 5] = Done c ∧
    size (array c) = 2 ∧ lookup (Z.of_nat 1) (array c) = Done (Some 5).
Proof.
  destruct (internal_array_implements_list 0 [Assign 2 7; Others BatchAllocator.Allocate; Resize 9; Resize 1; Assign 1 5])
    as [Hhist _].
  - repeat (apply Forall_cons; split; [vm_compute; reflexivity|]). by apply Forall_nil.
  - assert (Hb : is_done (bill 0 [Assign 2 7; Others BatchAllocator.Allocate; Resize 9; Resize 1; Assign 1 5]) = true)
      by (vm_compute; reflexivity).
    destruct (bill _ _) as [a|f]; [|discriminate Hb]. destruct Hhist as (c & Hc & Hz & Hl & _).
    exists c. split; [exact Hc|]. split; [rewrite Hz; reflexivity|rewrite Hl; reflexivity].
Defined.

(** The ninth element of an empty array: the index gets one entry, 9 / 8. *)
Example ninth_first : history 0 [Assign 8 1] = Fault past_index.
Proof. vm_compute. reflexivity. Qed.
Example eighth_first : is_done (history 0 [Assign 7 1]) = true.
Proof. vm_compute. reflexivity. Qed.

(** [resize( n )] makes an array longer by one than asked for. *)
Example resize_one_more : (s ← resize 0 3 (filled []); Done (size s)) = Done 4.
Proof. vm_compute. reflexivity. Qed.

(** A copy constructs the elements of a page over each other in its first cell;
    nine elements do not fit the index it makes; destroying the copy of two
    elements destroys a value that was never constructed. *)
Example copy_first_cell :
  (s ← copy (filled [1; 2]); v ← lookup 0 s; Done v) = Done (Some 2) ∧
  (s ← copy (filled [1; 2]); lookup 1 s) = Fault (Undefined "no value is constructed there") ∧
  (s ← copy (filled [1; 2]); dtor s) = Fault (Undefined "no value is constructed there") ∧
  copy (filled [1; 2; 3; 4; 5; 6; 7; 8; 9]) = Fault past_index.
Proof. vm_compute. repeat split. Qed.

(** The last page is not released unless it is full. *)
Example last_page_leaks :
  (s ← clear (filled [1; 2]); Done (base.size (dom (store s)))) = Done 1%nat ∧
  (s ← clear (filled [1; 2; 3; 4; 5; 6; 7; 8]); Done (base.size (dom (store s)))) = Done 0%nat.
Proof. vm_compute. done. Qed.

(** So the array of one element costs the allocator a page each time it is made
    and cleared, until the 256th lies past the end of the batch. *)
Example pages_run_out :
  is_done (history 0 (concat (replicate 255 [Assign 0 1; Resize 0]))) = true ∧
  history 0 (concat (replicate 255 [Assign 0 1; Resize 0]) ++ [Assign 0 1]) = Fault BatchAllocator.overrun.
Proof. vm_compute. done. Qed.

(** [decrement] asserts what it must exclude: only the first element passes. *)
Example decrement_inverted :
  decrement (makeIterator 3) = Fault (Thrown "ValueInternalArray::decrement(): moving iterator beyond end") ∧
  decrement makeBeginIterator = Done (mkIt (-1) 7).
Proof. vm_compute. done. Qed.

(** The difference of the sizes decides first, and is negative as it should be. *)
Example compare_sizes : compare Z.sub (filled [1]) (filled [0; 0; 0]) = Done (-2).
Proof. vm_compute. reflexivity. Qed.

End ArraySample.
End InternalArray.
