(* ===== verification/JsonWriter.v ===== *)
(** The JSON writers (jsoncpp/json_writer.cpp): scalars to text, [FastWriter],
    [StyledWriter] (the one [Value::toStyledString] uses) and
    [StyledStreamWriter].  The two styled writers are the same code up to the
    indentation unit and [writeIndent], which the record [style] carries.

    A writer visits the elements of a container through [value[ index ]] and
    [value[ name ]]; the recursion is on the value, so each container first
    pairs its elements with their writers and then looks them up. *)

From Stdlib Require Import Floats.SpecFloat.
From S2P Require Import Prelude StdMap CDouble JsonValue.
Local Open Scope Z_scope.

(** ** Scalars *)

Definition isControlCharacter (c : byte) : bool := (0 <? sb c) && (sb c <=? 31).

(** [containsControlCharacter( str )] stops at the NUL. *)
Definition containsControlCharacter (str : bytes) : bool := existsb isControlCharacter str.

(** [uintToString]: digits are produced least significant first, at least one. *)
Definition uintToString (value : Z) : bytes := decimal value.

(** [value = -value] wraps at [INT_MIN], whose conversion to [UInt] is then its
    magnitude. *)
Definition valueToString_int (value : Z) : bytes :=
  let isNegative := value <? 0 in
  let value := if isNegative then s32 (- value) else value in
  (if isNegative then [x2d] else []) ++ uintToString (u32 value).
Definition valueToString_uint (value : Z) : bytes := uintToString value.
Definition valueToString_bool (value : bool) : bytes := bs (if value then "true" else "false").

(** [valueToString( double )]: trailing zeros of a number that has a decimal
    point and no exponent are dropped, except one after the last kept
    character.  [ds] is the printed text reversed. *)
Fixpoint find_point (ds : bytes) : bool :=
  match ds with
  | [] => false
  | c :: ds => if is_digit c then find_point ds else bool_decide (c = x2e)
  end.
Fixpoint skip_zeros (ds : bytes) : bytes :=
  match ds with
  | [] => []
  | c :: rest =>
      match rest with
      | [] => ds
      | _ => if decide (c = x30) then skip_zeros rest else ds
      end
  end.
Definition valueToString_double (value : spec_float) : bytes :=
  let buffer := sprintf_g16 value in
  match rev buffer with
  | c :: _ =>
      if decide (c = x30) then
        let last_nonzero := skip_zeros (rev buffer) in
        if find_point last_nonzero
        then take (length last_nonzero + 1) buffer
        else buffer
      else buffer
  | [] => buffer
  end.

(** [valueToQuotedString] of a C string. *)
Definition hex_upper (d : Z) : byte := if d <? 10 then of_Z (48 + d) else of_Z (55 + d).
Definition hex4 (v : Z) : bytes :=
  [hex_upper (v / 4096 mod 16); hex_upper (v / 256 mod 16);
   hex_upper (v / 16 mod 16); hex_upper (v mod 16)].
Definition escape_char (c : byte) : bytes :=
  if decide (c = x22) then [x5c; x22]
  else if decide (c = x5c) then [x5c; x5c]
  else if decide (c = x08) then [x5c; x62]
  else if decide (c = x0c) then [x5c; x66]
  else if decide (c = x0a) then [x5c; x6e]
  else if decide (c = x0d) then [x5c; x72]
  else if decide (c = x09) then [x5c; x74]
  else if isControlCharacter c then [x5c; x75] ++ hex4 (sb c)
  else [c].
Definition special_char (c : byte) : bool :=
  bool_decide (c ∈ [x22; x5c; x08; x0c; x0a; x0d; x09]).
Definition valueToQuotedString (value : bytes) : bytes :=
  if negb (existsb special_char value) && negb (containsControlCharacter value)
  then [x22] ++ value ++ [x22]
  else [x22] ++ concat (map escape_char value) ++ [x22].

(** [valueToQuotedString( value.asCString() )] with a possibly null pointer. *)
Definition quote_cstring (s : option bytes) : outcome bytes :=
  match s with
  | Some s => Done (valueToQuotedString s)
  | None => Fault (Undefined "valueToQuotedString: null pointer")
  end.

(** Looking up the writer of an element; a missing one is the null value. *)
Definition element {K W} `{KeyOrder K} (dflt : W) (k : K) (l : list (K * (Value * W))) :
    Value * W := default (Value.null, dflt) (StdMap.find k l).

(** [f] for [index], ..., [index + n - 1]. *)
Fixpoint for_range {S} (n : nat) (index : Z) (f : Z → S → outcome S) (s : S) : outcome S :=
  match n with
  | O => Done s
  | S n => s ← f index s; for_range n (index + 1) f s
  end.

(** ** FastWriter *)
Module FastWriter.
(** [yamlCompatiblityEnabled_]; the document is the state. *)
Definition write_null (doc : bytes) : outcome bytes := Done (doc ++ bs "null").

Fixpoint writeValue (yaml : bool) (value : Value) (doc : bytes) {struct value} : outcome bytes :=
  let 'mkValue h _ := value in
  match h with
  | nullV => write_null doc
  | intV i => Done (doc ++ valueToString_int i)
  | uintV u => Done (doc ++ valueToString_uint u)
  | realV r => Done (doc ++ valueToString_double r)
  | stringV s => t ← quote_cstring s; Done (doc ++ t)
  | boolV b => Done (doc ++ valueToString_bool b)
  | arrayV m =>
      let elems := map (λ p : Z * Value, (p.1, (p.2, writeValue yaml p.2))) m in
      let size := s32 (Value.size (Value.of_holder h)) in
      doc ← for_range (Z.to_nat size) 0 (λ index doc,
              let doc := if 0 <? index then doc ++ bs "," else doc in
              (element write_null (s32 index) elems).2 doc) (doc ++ bs "[");
      Done (doc ++ bs "]")
  | objectV m =>
      let elems := map (λ p : bytes * Value, (p.1, (p.2, writeValue yaml p.2))) m in
      let members := m.*1 in
      doc ← for_range (length members) 0 (λ i doc,
              let name := nth (Z.to_nat i) members [] in
              let doc := if 0 <? i then doc ++ bs "," else doc in
              let doc := doc ++ valueToQuotedString name ++
                         (if yaml then bs ": " else bs ":") in
              (element write_null (c_str name) elems).2 doc) (doc ++ bs "{");
      Done (doc ++ bs "}")
  end.

Definition write (yaml : bool) (root : Value) : outcome bytes :=
  doc ← writeValue yaml root []; Done (doc ++ bs (String (Ascii.ascii_of_nat 10) "")).
End FastWriter.

(** ** StyledWriter and StyledStreamWriter *)

(** [normalizeEOL]: CR and CR LF become LF. *)
Fixpoint normalizeEOL (text : bytes) : bytes :=
  match text with
  | [] => []
  | c :: text' =>
      if decide (c = x0d) then
        match text' with
        | d :: text'' => if decide (d = x0a) then x0a :: normalizeEOL text''
                         else x0a :: normalizeEOL text'
        | [] => [x0a]
        end
      else c :: normalizeEOL text'
  end.

(** What the two classes do differently. *)
Record style := mkStyle {
  indentation_ : bytes;
  write_indent : bytes → bytes → bytes (* document_, indentString_ *)
}.

(** [StyledWriter::writeIndent] *)
Definition StyledWriter_writeIndent (document_ indentString_ : bytes) : bytes :=
  match last document_ with
  | Some c =>
      if decide (c = x20) then document_
      else (if decide (c = x0a) then document_ else document_ ++ [x0a]) ++ indentString_
  | None => document_ ++ indentString_
  end.
(** [StyledStreamWriter::writeIndent] *)
Definition StyledStreamWriter_writeIndent (document_ indentString_ : bytes) : bytes :=
  document_ ++ [x0a] ++ indentString_.

Module Styled.
Record t := mk {
  childValues_ : list bytes;
  document_ : bytes;
  indentString_ : bytes;
  addChildValues_ : bool
}.
Definition rightMargin_ : Z := 74.

Section writer.
Context (st : style).

Definition with_document (d : bytes) (w : t) : t :=
  mk (childValues_ w) d (indentString_ w) (addChildValues_ w).
Definition emit (s : bytes) (w : t) : t := with_document (document_ w ++ s) w.

Definition pushValue (value : bytes) (w : t) : t :=
  if addChildValues_ w
  then mk (childValues_ w ++ [value]) (document_ w) (indentString_ w) true
  else emit value w.

Definition writeIndent (w : t) : t :=
  with_document (write_indent st (document_ w) (indentString_ w)) w.
Definition writeWithIndent (value : bytes) (w : t) : t := emit value (writeIndent w).

Definition indent (w : t) : t :=
  mk (childValues_ w) (document_ w) (indentString_ w ++ indentation_ st) (addChildValues_ w).
Definition unindent (w : t) : outcome t :=
  let n := length (indentString_ w) in
  let k := length (indentation_ st) in
  _ ← cassert (k <=? n)%nat "indentString_.size() >= indentSize_";
  Done (mk (childValues_ w) (document_ w) (take (n - k) (indentString_ w)) (addChildValues_ w)).

Definition writeCommentBeforeValue (root : Value) (w : t) : t :=
  if Value.hasComment commentBefore root
  then emit (normalizeEOL (Value.getComment commentBefore root) ++ [x0a]) w
  else w.
Definition writeCommentAfterValueOnSameLine (root : Value) (w : t) : t :=
  let w := if Value.hasComment commentAfterOnSameLine root
           then emit ([x20] ++ normalizeEOL (Value.getComment commentAfterOnSameLine root)) w
           else w in
  if Value.hasComment commentAfter root
  then emit ([x0a] ++ normalizeEOL (Value.getComment commentAfter root) ++ [x0a]) w
  else w.
Definition hasCommentForValue (value : Value) : bool :=
  Value.hasComment commentBefore value || Value.hasComment commentAfterOnSameLine value
  || Value.hasComment commentAfter value.

(** An element and its writer. *)
Notation elem := (Value * (t → outcome t))%type.

(** [isMultineArray]: [at_ index] is [value[ index ]]. *)
Definition isMultineArray (size : Z) (at_ : Z → elem) (w : t) : outcome (bool * t) :=
  let n := Z.to_nat size in
  let isMultiLine := rightMargin_ <=? s32 (size * 3) in
  let w := mk [] (document_ w) (indentString_ w) (addChildValues_ w) in
  let nested (index : Z) :=
    let childValue := (at_ index).1 in
    (Value.isArray childValue || Value.isObject childValue) && (0 <? Value.size childValue) in
  let isMultiLine := isMultiLine || existsb nested (seqZ 0 size) in
  if isMultiLine then Done (true, w)
  else
    let w := mk (childValues_ w) (document_ w) (indentString_ w) true in
    r ← for_range n 0 (λ index (acc : Z * bool * t), let '(lineLength, multi, w) := acc in
          if multi then Done (lineLength, multi, w)
          else
            w ← (at_ index).2 w;
            v ← (match childValues_ w !! Z.to_nat index with
                 | Some v => Done v
                 | None => Fault (Undefined "childValues_[index]")
                 end);
            Done (lineLength + Z.of_nat (length v),
                  multi && hasCommentForValue (at_ index).1, w))
          (4 + (size - 1) * 2, false, w);
    let '(lineLength, multi, w) := (r : Z * bool * t) in
    Done (multi || (rightMargin_ <=? lineLength),
          mk (childValues_ w) (document_ w) (indentString_ w) false).

Definition child_text (w : t) (index : Z) : outcome bytes :=
  match childValues_ w !! Z.to_nat index with
  | Some v => Done v
  | None => Fault (Undefined "childValues_[index]")
  end.

(** [writeArrayValue] *)
Definition writeArrayValue (size : Z) (at_ : Z → elem) (w : t) : outcome t :=
  if size =? 0 then Done (pushValue (bs "[]") w)
  else
    r ← isMultineArray size at_ w;
    let '(isArrayMultiLine, w) := (r : bool * t) in
    if isArrayMultiLine then
      let w := indent (writeWithIndent (bs "[") w) in
      let hasChildValue := negb (length (childValues_ w) =? 0)%nat in
      w ← for_range (Z.to_nat size) 0 (λ (index : Z) (w : t),
            let childValue := (at_ index).1 in
            let w := writeCommentBeforeValue childValue w in
            w ← (if hasChildValue
                 then v ← child_text w index; Done (writeWithIndent v w)
                 else (at_ index).2 (writeIndent w));
            let w := if index + 1 =? size then w else emit (bs ",") w in
            Done (writeCommentAfterValueOnSameLine childValue w)) w;
      w ← unindent w;
      Done (writeWithIndent (bs "]") w)
    else
      _ ← cassert (Z.of_nat (length (childValues_ w)) =? size) "childValues_.size() == size";
      w ← for_range (Z.to_nat size) 0 (λ (index : Z) (w : t),
            let w := if 0 <? index then emit (bs ", ") w else w in
            v ← child_text w index;
            Done (emit v w)) (emit (bs "[ ") w);
      Done (emit (bs " ]") w).

(** The [objectValue] case of [writeValue]. *)
Definition writeObjectValue (members : list bytes) (at_ : bytes → elem) (w : t) : outcome t :=
  if (length members =? 0)%nat then Done (pushValue (bs "{}") w)
  else
    let n := length members in
    w ← for_range n 0 (λ (i : Z) (w : t),
          let name := nth (Z.to_nat i) members [] in
          let '(childValue, write_child) := at_ name in
          let w := writeCommentBeforeValue childValue w in
          let w := writeWithIndent (valueToQuotedString name) w in
          w ← write_child (emit (bs " : ") w);
          let w := if i + 1 =? Z.of_nat n then w else emit (bs ",") w in
          Done (writeCommentAfterValueOnSameLine childValue w))
          (indent (writeWithIndent (bs "{") w));
    w ← unindent w;
    Done (writeWithIndent (bs "}") w).

Definition write_null (w : t) : outcome t := Done (pushValue (bs "null") w).

Fixpoint writeValue (value : Value) (w : t) {struct value} : outcome t :=
  let 'mkValue h _ := value in
  match h with
  | nullV => write_null w
  | intV i => Done (pushValue (valueToString_int i) w)
  | uintV u => Done (pushValue (valueToString_uint u) w)
  | realV r => Done (pushValue (valueToString_double r) w)
  | stringV s => s ← quote_cstring s; Done (pushValue s w)
  | boolV b => Done (pushValue (valueToString_bool b) w)
  | arrayV m =>
      let elems := map (λ p : Z * Value, (p.1, (p.2, writeValue p.2))) m in
      writeArrayValue (Value.size (Value.of_holder h))
        (λ index, element write_null (s32 index) elems) w
  | objectV m =>
      let elems := map (λ p : bytes * Value, (p.1, (p.2, writeValue p.2))) m in
      writeObjectValue m.*1 (λ name, element write_null (c_str name) elems) w
  end.

(** [write( root )] *)
Definition write (root : Value) : outcome bytes :=
  let w := mk [] [] [] false in
  let w := writeCommentBeforeValue root w in
  w ← writeValue root w;
  let w := writeCommentAfterValueOnSameLine root w in
  Done (document_ w ++ [x0a]).
End writer.
End Styled.

(** [StyledWriter()]: [indentSize_( 3 )]; [StyledStreamWriter( indentation )]. *)
Definition StyledWriter : style :=
  mkStyle (replicate 3 x20) StyledWriter_writeIndent.
Definition StyledStreamWriter (indentation : bytes) : style :=
  mkStyle indentation StyledStreamWriter_writeIndent.

(** The methods of [StyledStreamWriter]. *)
Module StyledStreamWriterMethods.
Section methods.
Context (indentation : bytes).
Notation st := (StyledStreamWriter indentation).
Definition writeValue : Value → Styled.t → outcome Styled.t := Styled.writeValue st.
Definition writeArrayValue : Z → (Z → Value * (Styled.t → outcome Styled.t)) → Styled.t →
  outcome Styled.t := Styled.writeArrayValue st.
Definition isMultineArray : Z → (Z → Value * (Styled.t → outcome Styled.t)) → Styled.t →
  outcome (bool * Styled.t) := Styled.isMultineArray.
Definition pushValue : bytes → Styled.t → Styled.t := Styled.pushValue.
Definition writeIndent : Styled.t → Styled.t := Styled.writeIndent st.
Definition writeWithIndent : bytes → Styled.t → Styled.t := Styled.writeWithIndent st.
Definition indent : Styled.t → Styled.t := Styled.indent st.
Definition unindent : Styled.t → outcome Styled.t := Styled.unindent st.
Definition writeCommentBeforeValue : Value → Styled.t → Styled.t := Styled.writeCommentBeforeValue.
Definition writeCommentAfterValueOnSameLine : Value → Styled.t → Styled.t :=
  Styled.writeCommentAfterValueOnSameLine.
Definition hasCommentForValue : Value → bool := Styled.hasCommentForValue.
Definition normalizeEOL : bytes → bytes := normalizeEOL.
End methods.
End StyledStreamWriterMethods.

Definition StyledWriter_write (root : Value) : outcome bytes := Styled.write StyledWriter root.
Definition StyledStreamWriter_write (indentation : bytes) (root : Value) : outcome bytes :=
  Styled.write (StyledStreamWriter indentation) root.

(** [Value::toStyledString] *)
Definition toStyledString (v : Value) : outcome bytes := StyledWriter_write v.

(** * Objects of scalars *)

(** The text of a value that is neither a container nor a null string. *)
Definition scalar_text (v : Value) : option bytes :=
  match Value.holder v with
  | nullV => Some (bs "null")
  | intV i => Some (valueToString_int i)
  | uintV u => Some (valueToString_uint u)
  | realV r => Some (valueToString_double r)
  | stringV (Some s) => Some (valueToQuotedString s)
  | boolV b => Some (valueToString_bool b)
  | _ => None
  end.

Lemma writeValue_scalar st v t w :
  scalar_text v = Some t → Styled.writeValue st v w = Done (Styled.pushValue t w).
Proof.
  destruct v as [h c]. destruct h as [| | | |[s|]| | |]; cbn; intros; simplify_eq; done.
Qed.

(** A text [writeIndent] puts a newline after. *)
Definition solid (d : bytes) : Prop := ∃ a c, d = a ++ [c] ∧ c ≠ x20 ∧ c ≠ x0a.

Lemma solid_app a d : solid d → solid (a ++ d).
Proof. intros (x & c & -> & ?). exists (a ++ x), c. by rewrite app_assoc. Qed.

Lemma solid_cons c d : solid d → solid (c :: d).
Proof. apply (solid_app [c]). Qed.

Lemma writeIndent_solid d ind : solid d → StyledWriter_writeIndent d ind = d ++ x0a :: ind.
Proof.
  intros (a & c & -> & H1 & H2). unfold StyledWriter_writeIndent.
  rewrite last_snoc. rewrite !decide_False by done. by rewrite <-app_assoc.
Qed.

(** The layout of an object whose members have the texts [text]. *)
Section flat.
Context (text : bytes → bytes) (ind : bytes).

Definition entry (name : bytes) : bytes :=
  x0a :: ind ++ valueToQuotedString name ++ bs " : " ++ text name.
Fixpoint entries (l : list bytes) : bytes :=
  match l with
  | [] => []
  | [name] => entry name
  | name :: l => entry name ++ bs "," ++ entries l
  end.

Lemma entries_solid d l :
  solid d → Forall (λ name, solid (text name)) l → solid (d ++ entries l).
Proof.
  intros Hd Hl. revert d Hd. induction Hl as [|name l Hn Hl IH]; intros d Hd.
  - by rewrite app_nil_r.
  - cbn [entries]. destruct l as [|name' l'].
    + unfold entry. apply solid_app, solid_cons. by do 3 apply solid_app.
    + rewrite app_assoc, app_assoc. apply IH.
      by exists (d ++ entry name), x2c.
Qed.

Context (members : list bytes) (at_ : bytes → Value * (Styled.t → outcome Styled.t)).
Hypothesis Hat : ∀ name, name ∈ members →
  Value.comments (at_ name).1 = None ∧
  (∀ w, (at_ name).2 w = Done (Styled.pushValue (text name) w)) ∧ solid (text name).

Lemma object_loop_flat cv l2 l1 d :
  members = l1 ++ l2 → solid d →
  for_range (length l2) (Z.of_nat (length l1)) (λ (i : Z) (w : Styled.t),
    let name := nth (Z.to_nat i) members [] in
    let '(childValue, write_child) := at_ name in
    let w := Styled.writeCommentBeforeValue childValue w in
    let w := Styled.writeWithIndent StyledWriter (valueToQuotedString name) w in
    w ← write_child (Styled.emit (bs " : ") w);
    let w := if i + 1 =? Z.of_nat (length members) then w else Styled.emit (bs ",") w in
    Done (Styled.writeCommentAfterValueOnSameLine childValue w)) (Styled.mk cv d ind false) =
  Done (Styled.mk cv (d ++ entries l2) ind false).
Proof.
  revert l1 d. induction l2 as [|name l2 IH]; intros l1 d Hm Hd.
  - cbn. by rewrite app_nil_r.
  - cbn [length for_range].
    assert (Hn : nth (Z.to_nat (Z.of_nat (length l1))) members [] = name).
    { rewrite Hm, Nat2Z.id, app_nth2, Nat.sub_diag by lia. done. }
    cbv zeta. rewrite Hn. destruct (Hat name) as (Hc & Hw & Hs); [rewrite Hm; set_solver|].
    destruct (at_ name) as [v wr]; cbn [fst snd] in *.
    unfold Styled.writeCommentBeforeValue, Styled.writeCommentAfterValueOnSameLine,
      Value.hasComment, Value.comment_of. rewrite Hc. cbn [mbind option_bind].
    unfold Styled.writeWithIndent, Styled.writeIndent, Styled.emit, Styled.with_document. cbn.
    rewrite writeIndent_solid by done. rewrite Hw. cbn.
    destruct l2 as [|name' l2].
    + rewrite (proj2 (Z.eqb_eq _ _)) by (rewrite Hm, length_app; cbn [length]; lia).
      unfold Styled.pushValue, Styled.emit, Styled.with_document; cbn.
      unfold entry. cbn [bs]. rewrite <-!app_assoc. done.
    + rewrite (proj2 (Z.eqb_neq _ _)) by (rewrite Hm, length_app; cbn [length]; lia).
      unfold Styled.pushValue, Styled.emit, Styled.with_document; cbn [Styled.addChildValues_ Styled.childValues_ Styled.document_ Styled.indentString_].
      specialize (IH (l1 ++ [name])). rewrite length_app in IH. cbn [length] in IH.
      rewrite Nat2Z.inj_add in IH. cbn [Z.of_nat] in IH.
      replace (Z.pos (Pos.of_succ_nat 0)) with 1 in IH by done.
      rewrite IH; [|by rewrite Hm, <-app_assoc|].
      * do 2 f_equal. unfold entry. cbn [entries]. rewrite <-!app_assoc. done.
      * eexists _, x2c. done.
Qed.
End flat.

Lemma element_map {K W} `{KeyOrder K} (dflt : W) (g : Value → W) k (m : list (K * Value)) :
  element dflt k (map (λ p, (p.1, (p.2, g p.2))) m) =
    default (Value.null, dflt) ((λ v, (v, g v)) <$> StdMap.find k m).
Proof.
  unfold element. f_equal. induction m as [|[k' v] m IH]; cbn; [done|].
  by repeat case_match.
Qed.

Lemma solid_quoted s : solid (valueToQuotedString s).
Proof.
  unfold valueToQuotedString. case_match; eexists (_ ++ _), x22; by rewrite <-app_assoc.
Qed.


Lemma digit_not_space c : is_digit c = true → c ≠ x20 ∧ c ≠ x0a.
Proof. intros Hc. by split; intros ->. Qed.

Lemma solid_digits d : Forall (λ c, is_digit c = true) d → d ≠ [] → solid d.
Proof.
  intros Hd Hne. destruct (exists_last Hne) as (a & c & ->).
  exists a, c. split; [done|]. apply digit_not_space.
  apply Forall_app in Hd as [_ Hd]. by inversion Hd.
Qed.

Lemma solid_uint n : 0 ≤ n → solid (valueToString_uint n).
Proof. intros. apply solid_digits; auto with im. Qed.

Lemma solid_int i : solid (valueToString_int i).
Proof.
  unfold valueToString_int. apply solid_app, solid_uint.
  by apply (wrapu_range 32).
Qed.

(** The members of an object [toStyledString] can be read off from: scalar,
    without comments, with a text that does not end in white space. *)
Definition flat_member (p : bytes * Value) : Prop :=
  c_str p.1 = p.1 ∧ Value.comments p.2 = None ∧ ∃ t, scalar_text p.2 = Some t ∧ solid t.
Definition member_text (m : ObjectValues) (name : bytes) : bytes :=
  default [] (v ← StdMap.find name m; scalar_text v).

Lemma toStyledString_flat m :
  StdMap.wf m → m ≠ [] → Forall flat_member m →
  toStyledString (mkValue (objectV m) None) =
    Done (bs "{" ++ entries (member_text m) (replicate 3 x20) m.*1 ++ [x0a] ++ bs "}" ++ [x0a]).
Proof.
  intros Hwf Hne Hm. unfold toStyledString, StyledWriter_write, Styled.write.
  unfold Styled.writeCommentBeforeValue, Styled.writeCommentAfterValueOnSameLine,
    Value.hasComment, Value.comment_of.
  cbn [Value.comments mbind option_bind]. cbn [Styled.writeValue].
  unfold Styled.writeObjectValue.
  destruct (Nat.eqb_spec (length m.*1) 0) as [E|_]; [by destruct m|].
  set (elems := map _ m).
  set (at_ := λ name, element Styled.write_null (c_str name) elems).
  assert (Hat : ∀ name, name ∈ m.*1 →
    Value.comments (at_ name).1 = None ∧
    (∀ w, (at_ name).2 w = Done (Styled.pushValue (member_text m name) w)) ∧
    solid (member_text m name)).
  { intros name ([k v] & -> & Hin)%list_elem_of_fmap; cbn [fst].
    rewrite Forall_forall in Hm. destruct (Hm _ Hin) as (Hk & Hc & t & Ht & Hs); cbn [fst snd] in *.
    unfold at_, elems, member_text. rewrite Hk, element_map.
    rewrite (proj2 (StdMap.find_In k v m Hwf) Hin). cbn. rewrite Ht. split_and!; [done| |done].
    intros w. by apply writeValue_scalar. }
  pose proof (object_loop_flat (member_text m) (replicate 3 x20) m.*1 at_ Hat [] m.*1 []
    (bs "{") eq_refl) as Hloop.
  change (Styled.indent StyledWriter (Styled.writeWithIndent StyledWriter (bs "{") (Styled.mk [] [] [] false)))
    with (Styled.mk [] (bs "{") (replicate 3 x20) false).
  match goal with |- context [for_range ?n ?z ?f ?s] =>
    replace (for_range n z f s) with
      (Done (Styled.mk [] (bs "{" ++ entries (member_text m) (replicate 3 x20) m.*1)
               (replicate 3 x20) false))
      by (symmetry; apply Hloop; by exists [], x7b)
  end. cbn [mbind outcome_bind].
  unfold Styled.unindent, Styled.writeWithIndent, Styled.writeIndent. cbn [Styled.indentString_].
  change (length (indentation_ StyledWriter)) with 3%nat. cbn.
  match goal with |- context [StyledWriter_writeIndent ?d _] => rewrite (writeIndent_solid d) end.
  - cbn. by rewrite <-!app_assoc.
  - apply (entries_solid _ _ (bs "{")); [by exists [], x7b|]. apply Forall_forall. intros. by apply Hat.
Qed.

(** A lower bound on the length of an object text from its names alone. *)
Lemma entries_length text ind l :
  (foldr (λ name n, length name + 6 + n) 0 l ≤ length (entries text ind l))%nat.
Proof.
  assert (He : ∀ name, (length name + 6 ≤ length (entry text ind name))%nat).
  { intros name. unfold entry. cbn [length]. rewrite !length_app.
    change (length (bs " : ")) with 3%nat.
    enough (length name + 2 ≤ length (valueToQuotedString name))%nat by lia.
    unfold valueToQuotedString. case_match; rewrite !length_app; cbn [length]; [lia|].
    enough (length name ≤ length (concat (map escape_char name)))%nat by lia.
    match goal with E : _ = _ |- _ => clear E end. induction name as [|c name IH]; cbn; [done|]. rewrite length_app.
    enough (1 ≤ length (escape_char c))%nat by lia.
    unfold escape_char. repeat case_match; cbn; lia. }
  induction l as [|name l IH]; cbn [foldr]; [done|]. cbn [entries].
  specialize (He name). destruct l as [|name' l]; [cbn in *; lia|].
  rewrite !length_app. lia.
Qed.
