(* ===== verification/JsonReader.v ===== *)
(** The JSON parser (jsoncpp/reader.h, json_reader.cpp).

    A [Location] is an offset into [document_]; reading at the end gives the
    NUL of [c_str()].  A [Value *] into the tree under construction is its path
    from [root], so that comments attached through [lastValue_] and values
    assigned through [nodes_.top()] act on one tree, as in the source.  The
    loops that consume input recurse on the unread suffix; [readValue],
    [readObject] and [readArray] take fuel. *)

From S2P Require Import Prelude StdMap CDouble JsonValue.
Local Open Scope Z_scope.

Inductive TokenType :=
  | tokenEndOfStream | tokenObjectBegin | tokenObjectEnd | tokenArrayBegin
  | tokenArrayEnd | tokenString | tokenNumber | tokenTrue | tokenFalse
  | tokenNull | tokenArraySeparator | tokenMemberSeparator | tokenComment
  | tokenError.

#[export] Instance TokenType_eq_dec : EqDecision TokenType.
Proof. solve_decision. Defined.

Record Token := mkToken { type_ : TokenType; start_ : nat; end_ : nat }.
Record ErrorInfo := mkError { token_ : Token; message_ : bytes; extra_ : option nat }.
Record Features := mkFeatures { allowComments_ : bool; strictRoot_ : bool }.

Definition Features_all : Features := mkFeatures true false.
Definition Features_strictMode : Features := mkFeatures false true.

(** A step from a container to an element, and a pointer into the tree. *)
Inductive step := SKey (key : bytes) | SIndex (index : Z).
Notation path := (list step).

Fixpoint update_at (p : path) (g : Value → Value) (v : Value) : Value :=
  match p with
  | [] => g v
  | SKey k :: p => Value.update_key k (update_at p g) v
  | SIndex i :: p => Value.update_index i (update_at p g) v
  end.
Fixpoint value_at (p : path) (v : Value) : option Value :=
  match p with
  | [] => Some v
  | SKey k :: p =>
      match Value.holder v with
      | objectV m => match StdMap.find (c_str k) m with Some v => value_at p v | None => None end
      | _ => None
      end
  | SIndex i :: p =>
      match Value.holder v with
      | arrayV m => match StdMap.find (s32 i) m with Some v => value_at p v | None => None end
      | _ => None
      end
  end.

Record Reader := mkReader {
  features_ : Features;
  collectComments_ : bool;
  document_ : bytes;
  current_ : nat;
  lastValueEnd_ : option nat;
  lastValue_ : option path;
  commentsBefore_ : bytes;
  errors_ : list ErrorInfo;
  nodes_ : list path;
  root_ : Value
}.

(** Field updates. *)
Definition set_current (n : nat) (s : Reader) : Reader :=
  mkReader (features_ s) (collectComments_ s) (document_ s) n (lastValueEnd_ s)
    (lastValue_ s) (commentsBefore_ s) (errors_ s) (nodes_ s) (root_ s).
Definition set_lastValue (e : option nat) (p : option path) (s : Reader) : Reader :=
  mkReader (features_ s) (collectComments_ s) (document_ s) (current_ s) e p
    (commentsBefore_ s) (errors_ s) (nodes_ s) (root_ s).
Definition set_commentsBefore (c : bytes) (s : Reader) : Reader :=
  mkReader (features_ s) (collectComments_ s) (document_ s) (current_ s)
    (lastValueEnd_ s) (lastValue_ s) c (errors_ s) (nodes_ s) (root_ s).
Definition set_errors (e : list ErrorInfo) (s : Reader) : Reader :=
  mkReader (features_ s) (collectComments_ s) (document_ s) (current_ s)
    (lastValueEnd_ s) (lastValue_ s) (commentsBefore_ s) e (nodes_ s) (root_ s).
Definition set_nodes (n : list path) (s : Reader) : Reader :=
  mkReader (features_ s) (collectComments_ s) (document_ s) (current_ s)
    (lastValueEnd_ s) (lastValue_ s) (commentsBefore_ s) (errors_ s) n (root_ s).
Definition set_root (v : Value) (s : Reader) : Reader :=
  mkReader (features_ s) (collectComments_ s) (document_ s) (current_ s)
    (lastValueEnd_ s) (lastValue_ s) (commentsBefore_ s) (errors_ s) (nodes_ s) v.

(** ** The monad of the parser: state and faults *)
Definition M (A : Type) : Type := Reader → outcome (A * Reader).
#[export] Instance M_ret : MRet M := λ A a s, Done (a, s).
#[export] Instance M_bind : MBind M := λ A B k m s,
  match m s with Done (a, s') => k a s' | Fault f => Fault f end.
Definition getR {A} (f : Reader → A) : M A := λ s, Done (f s, s).
Definition modR (f : Reader → Reader) : M unit := λ s, Done (tt, f s).
Definition lift {A} (m : outcome A) : M A := λ s, a ← m; Done (a, s).

(** ** Text *)

(** The unread part of the document. *)
Definition rest (s : Reader) : bytes := drop (current_ s) (document_ s).
(** [*current_], NUL at the end. *)
Definition peekc (s : Reader) : byte := default x00 (head (rest s)).
Definition advance (n : nat) (s : Reader) : Reader := set_current (current_ s + n) s.
(** The text in [[b, e)]. *)
Definition slice (b e : nat) (s : Reader) : bytes := take (e - b) (drop b (document_ s)).

(** [codePointToUTF8] *)
Definition codePointToUTF8 (cp : Z) : bytes :=
  if cp <=? 127 then [of_Z cp]
  else if cp <=? 2047 then
    [of_Z (Z.lor 192 (Z.land 31 (Z.shiftr cp 6))); of_Z (Z.lor 128 (Z.land 63 cp))]
  else if cp <=? 65535 then
    [of_Z (Z.lor 224 (Z.land 15 (Z.shiftr cp 12)));
     of_Z (Z.lor 128 (Z.land 63 (Z.shiftr cp 6)));
     of_Z (Z.lor 128 (Z.land 63 cp))]
  else if cp <=? 1114111 then
    [of_Z (Z.lor 240 (Z.land 7 (Z.shiftr cp 18)));
     of_Z (Z.lor 128 (Z.land 63 (Z.shiftr cp 12)));
     of_Z (Z.lor 128 (Z.land 63 (Z.shiftr cp 6)));
     of_Z (Z.lor 128 (Z.land 63 cp))]
  else [].

Definition containsNewLine (l : bytes) : bool :=
  existsb (λ c, bool_decide (c = x0a) || bool_decide (c = x0d)) l.

Definition getNextChar : M byte := λ s,
  match rest s with
  | [] => Done (x00, s)
  | c :: _ => Done (c, advance 1 s)
  end.

Definition is_space (c : byte) : bool := bool_decide (c ∈ [x20; x09; x0d; x0a]).
Fixpoint span_len (f : byte → bool) (l : bytes) : nat :=
  match l with
  | c :: l => if f c then S (span_len f l) else O
  | [] => O
  end.
Definition skipSpaces : M unit := modR (λ s, advance (span_len is_space (rest s)) s).

(** [match( pattern, patternLength )] *)
Definition match_ (pattern : bytes) : M bool := λ s,
  if decide (take (length pattern) (rest s) = pattern)
  then Done (true, advance (length pattern) s) else Done (false, s).

(** The number of characters the loop of [readCStyleComment] consumes. *)
Fixpoint cstyle_len (l : bytes) : nat :=
  match l with
  | [] => O
  | c :: l' => if decide (c = x2a ∧ head l' = Some x2f) then 1 else S (cstyle_len l')
  end.
Definition readCStyleComment : M bool :=
  _ ← modR (λ s, advance (cstyle_len (rest s)) s);
  c ← getNextChar;
  mret (bool_decide (c = x2f)).

Fixpoint cpp_len (l : bytes) : nat :=
  match l with
  | [] => O
  | c :: l' => if decide (c = x0d ∨ c = x0a) then 1 else S (cpp_len l')
  end.
Definition readCppStyleComment : M bool :=
  _ ← modR (λ s, advance (cpp_len (rest s)) s); mret true.

Definition number_char (c : byte) : bool :=
  is_digit c || bool_decide (c ∈ [x2e; x65; x45; x2b; x2d]).
Definition readNumber : M unit := modR (λ s, advance (span_len number_char (rest s)) s).

(** [readString]: characters consumed, and the last value of [c]. *)
Fixpoint string_scan (l : bytes) (c : byte) : nat * byte :=
  match l with
  | [] => (O, c)
  | c :: l' =>
      if decide (c = x5c) then
        match l' with
        | [] => (1%nat, c)
        | _ :: l'' => let '(n, c') := string_scan l'' c in (S (S n), c')
        end
      else if decide (c = x22) then (1%nat, c)
      else let '(n, c') := string_scan l' c in (S n, c')
  end.
Definition readString : M bool := λ s,
  let '(n, c) := string_scan (rest s) x00 in
  Done (bool_decide (c = x22), advance n s).

(** ** The tree under construction *)

(** [nodes_.top()] *)
Definition top_node : M path := λ s,
  match nodes_ s with
  | p :: _ => Done (p, s)
  | [] => Fault (Undefined "nodes_.top() of an empty stack")
  end.
(** Mutates [currentValue()]. *)
Definition modify_current (g : Value → Value) : M unit :=
  p ← top_node; modR (λ s, set_root (update_at p g (root_ s)) s).
(** [currentValue() = value] *)
Definition assign_current (value : Value) : M unit :=
  modify_current (λ old, Value.assign old value).
(** [currentValue()[ name ]] and [currentValue()[ index ]]: the element exists
    afterwards.  The container was just assigned, so [resolveReference] cannot
    fail; if it did, the assertion would. *)
Definition current_value : M Value :=
  p ← top_node;
  root ← getR root_;
  match value_at p root with
  | Some v => mret v
  | None => lift (Fault (Undefined "dangling node"))
  end.
Definition subscript_current (r : Value → outcome Value) : M unit :=
  v ← current_value;
  v' ← lift (r v);
  modify_current (λ _, v').
Definition push_child (st : step) : M unit :=
  p ← top_node; modR (λ s, set_nodes ((p ++ [st]) :: nodes_ s) s).
Definition pop_node : M unit := modR (λ s, set_nodes (tail (nodes_ s)) s).

(** ** Errors *)
Definition addError (message : bytes) (token : Token) (extra : option nat) : M bool :=
  _ ← modR (λ s, set_errors (errors_ s ++ [mkError token message extra]) s);
  mret false.

(** ** Comments and tokens *)

(** [setComment] through a pointer. *)
Definition set_comment_at (p : path) (text : bytes) (placement : CommentPlacement) : M unit :=
  root ← getR root_;
  match value_at p root with
  | Some v =>
      v' ← lift (Value.setComment text placement v);
      modR (λ s, set_root (update_at p (λ _, v') (root_ s)) s)
  | None => lift (Fault (Undefined "dangling value"))
  end.

Definition addComment (b e : nat) (placement : CommentPlacement) : M unit :=
  cc ← getR collectComments_;
  _ ← lift (cassert cc "collectComments_");
  text ← getR (slice b e);
  if decide (placement = commentAfterOnSameLine) then
    lv ← getR lastValue_;
    match lv with
    | Some p => set_comment_at p text placement
    | None => lift (Fault (AssertFailed "lastValue_ != 0"))
    end
  else
    modR (λ s,
      let sep := match commentsBefore_ s with [] => [] | _ => [x0a] end in
      set_commentsBefore (commentsBefore_ s ++ sep ++ text) s).

Definition readComment : M bool :=
  commentBegin ← getR (λ s, current_ s - 1)%nat;
  c ← getNextChar;
  successful ← (if decide (c = x2a) then readCStyleComment
                else if decide (c = x2f) then readCppStyleComment
                else mret false);
  if negb successful then mret false
  else
    cc ← getR collectComments_;
    _ ← (if cc : bool then
           lve ← getR lastValueEnd_;
           current ← getR current_;
           before ← getR (λ s, match lve with
                               | Some e => negb (containsNewLine (slice e commentBegin s))
                               | None => false
                               end);
           within ← getR (λ s, containsNewLine (slice commentBegin current s));
           let placement :=
             if (before : bool) && (negb (bool_decide (c = x2a)) || negb within)
             then commentAfterOnSameLine else commentBefore in
           addComment commentBegin current placement
         else mret tt);
    mret true.

(** The [switch] of [readToken]: the token type of the first character, and
    whether the rest of the token is well formed. *)
Definition token_body (c : byte) : M (TokenType * bool) :=
  let just t : M (TokenType * bool) := mret (t, true) in
  let body t (m : M bool) : M (TokenType * bool) := ok ← m; mret (t, ok) in
  if decide (c = x7b) then just tokenObjectBegin
  else if decide (c = x7d) then just tokenObjectEnd
  else if decide (c = x5b) then just tokenArrayBegin
  else if decide (c = x5d) then just tokenArrayEnd
  else if decide (c = x22) then body tokenString readString
  else if decide (c = x2f) then body tokenComment readComment
  else if is_digit c || bool_decide (c = x2d) then
    _ ← readNumber; just tokenNumber
  else if decide (c = x74) then body tokenTrue (match_ (bs "rue"))
  else if decide (c = x66) then body tokenFalse (match_ (bs "alse"))
  else if decide (c = x6e) then body tokenNull (match_ (bs "ull"))
  else if decide (c = x2c) then just tokenArraySeparator
  else if decide (c = x3a) then just tokenMemberSeparator
  else if decide (c = x00) then just tokenEndOfStream
  else mret (tokenError, false).

(** [readToken( token )]; it always returns [true]. *)
Definition readToken : M Token :=
  _ ← skipSpaces;
  start ← getR current_;
  c ← getNextChar;
  r ← token_body c;
  stop ← getR current_;
  let '(t, ok) := (r : TokenType * bool) in
  mret (mkToken (if ok then t else tokenError) start stop).

(** [do readToken( token ); while( token.type_ == tokenComment );] A comment
    consumes input, so the document length bounds the iterations. *)
Fixpoint read_past_comments (fuel : nat) : M Token :=
  match fuel with
  | O => lift (Fault OutOfFuel)
  | S fuel =>
      token ← readToken;
      if decide (type_ token = tokenComment) then read_past_comments fuel else mret token
  end.
Definition doc_fuel : M nat := getR (λ s, S (length (document_ s))).
Definition readToken_nc : M Token := fuel ← doc_fuel; read_past_comments fuel.

Definition skipCommentTokens : M Token :=
  allow ← getR (λ s, allowComments_ (features_ s));
  if allow : bool then readToken_nc else readToken.

(** [while( token.type_ == tokenComment ) readToken( token );] *)
Definition skip_comment_token (token : Token) : M Token :=
  if decide (type_ token = tokenComment) then readToken_nc else mret token.

(** ** Decoding tokens *)

(** [decodeDouble]: the length is converted to [int]; up to 32 characters are
    copied to a buffer of 32 bytes.  The buffer has no room for the NUL of
    exactly 32 characters, nor for a negative length, which [memcpy] takes for
    a huge one. *)
Definition decodeDouble (token : Token) : M bool :=
  text ← getR (slice (start_ token) (end_ token));
  let length_ := s32 (Z.of_nat (end_ token - start_ token)) in
  let short := length_ <=? 32 in
  _ ← lift (defined_if (negb short || (0 <=? length_) && (length_ <? 32)) "decodeDouble: buffer[ 32 ]");
  match sscanf_lf (if short then take (Z.to_nat length_) text else text) with
  | None => addError (bs "'" ++ text ++ bs "' is not a number.") token None
  | Some value => _ ← assign_current (Value.of_double value); mret true
  end.

Fixpoint is_double_text (at_start : bool) (l : bytes) : bool :=
  match l with
  | [] => false
  | c :: l =>
      bool_decide (c ∈ [x2e; x65; x45; x2b]) || (bool_decide (c = x2d) && negb at_start)
      || is_double_text false l
  end.

(** The digit loop of [decodeNumber]. *)
Inductive number_result := NotANumber | TooLarge | Number (value : Z).
Fixpoint number_loop (threshold value : Z) (l : bytes) : number_result :=
  match l with
  | [] => Number value
  | c :: l =>
      if negb (is_digit c) then NotANumber
      else if threshold <=? value then TooLarge
      else number_loop threshold (u32 (value * 10 + digit_value c)) l
  end.

(** [-Value::minInt] is a constant of the program, and the value compilers give
    it, [minInt], becomes 2147483648 as an unsigned number. *)
Definition decodeNumber (token : Token) : M bool :=
  text ← getR (slice (start_ token) (end_ token));
  if is_double_text true text then decodeDouble token
  else
    let isNegative := bool_decide (head text = Some x2d) in
    let digits := if isNegative then tail text else text in
    let threshold := (if isNegative then u32 (s32 (- Value.minInt)) else Value.maxUInt) / 10 in
    match number_loop threshold 0 digits with
    | NotANumber => addError (bs "'" ++ text ++ bs "' is not a number.") token None
    | TooLarge => decodeDouble token
    | Number value =>
        _ ← assign_current
              (if isNegative then Value.of_int (s32 (- s32 value))
               else if value <=? Value.maxInt then Value.of_int (s32 value)
               else Value.of_uint value);
        mret true
    end.

(** Results of the string decoders: the error carries its [extra] location. *)
Inductive decoded (A : Type) :=
  | Decoded (a : A)
  | DecodeError (message : bytes) (extra : nat).
Arguments Decoded {A} _.
Arguments DecodeError {A} _ _.

Definition hex_digit_value (c : byte) : option Z :=
  if is_digit c then Some (digit_value c)
  else if (97 <=? ub c) && (ub c <=? 102) then Some (ub c - 97 + 10)
  else if (65 <=? ub c) && (ub c <=? 70) then Some (ub c - 65 + 10)
  else None.

(** [decodeUnicodeEscapeSequence]: [l] is the text from offset [cur] to the
    end of the string. *)
Fixpoint hex_loop (n : nat) (cur : nat) (l : bytes) (unicode : Z) : decoded (Z * nat * bytes) :=
  match n, l with
  | O, _ => Decoded (unicode, cur, l)
  | S n, c :: l =>
      match hex_digit_value c with
      | Some d => hex_loop n (S cur) l (u32 (unicode * 16 + d))
      | None => DecodeError
          (bs "Bad unicode escape sequence in string: hexadecimal digit expected.") (S cur)
      end
  | S _, [] => DecodeError [] cur
  end.
Definition decodeUnicodeEscapeSequence (cur : nat) (l : bytes) : decoded (Z * nat * bytes) :=
  if (length l <? 4)%nat then
    DecodeError (bs "Bad unicode escape sequence in string: four digits expected.") cur
  else hex_loop 4 cur l 0.

Definition decodeUnicodeCodePoint (cur : nat) (l : bytes) : decoded (Z * nat * bytes) :=
  match decodeUnicodeEscapeSequence cur l with
  | DecodeError m e => DecodeError m e
  | Decoded (unicode, cur, l) =>
      if (55296 <=? unicode) && (unicode <=? 56319) then
        if (length l <? 6)%nat then
          DecodeError (bs "additional six characters expected to parse unicode surrogate pair.") cur
        else
          let bad n := DecodeError
            (bs "expecting another \u token to begin the second half of a unicode surrogate pair")
            (cur + n)%nat in
          match l with
          | c1 :: c2 :: l' =>
              if decide (c1 = x5c) then
                if decide (c2 = x75) then
                  match decodeUnicodeEscapeSequence (cur + 2) l' with
                  | DecodeError m e => DecodeError m e
                  | Decoded (surrogatePair, cur', l'') =>
                      Decoded (65536 + Z.shiftl (Z.land unicode 1023) 10
                               + Z.land surrogatePair 1023, cur', l'')
                  end
                else bad 2%nat
              else bad 1%nat
          | _ => bad 0%nat
          end
      else Decoded (unicode, cur, l)
  end.

(** The loop of [decodeString( token, decoded )]. *)
Fixpoint decode_loop (fuel cur : nat) (l : bytes) (acc : bytes) : outcome (decoded bytes) :=
  match fuel with
  | O => Fault OutOfFuel
  | S fuel =>
      match l with
      | [] => Done (Decoded acc)
      | c :: l =>
          if decide (c = x22) then Done (Decoded acc)
          else if decide (c = x5c) then
            match l with
            | [] => Done (DecodeError (bs "Empty escape sequence in string") (S cur))
            | e :: l =>
                let simple (b : byte) := decode_loop fuel (S (S cur)) l (acc ++ [b]) in
                if decide (e = x22) then simple x22
                else if decide (e = x2f) then simple x2f
                else if decide (e = x5c) then simple x5c
                else if decide (e = x62) then simple x08
                else if decide (e = x66) then simple x0c
                else if decide (e = x6e) then simple x0a
                else if decide (e = x72) then simple x0d
                else if decide (e = x74) then simple x09
                else if decide (e = x75) then
                  match decodeUnicodeCodePoint (S (S cur)) l with
                  | DecodeError m x => Done (DecodeError m x)
                  | Decoded (unicode, cur', l') =>
                      decode_loop fuel cur' l' (acc ++ codePointToUTF8 unicode)
                  end
                else Done (DecodeError (bs "Bad escape sequence in string") (S (S cur)))
            end
          else decode_loop fuel (S cur) l (acc ++ [c])
      end
  end.

(** [decodeString( token, decoded )]: the decoded text, or [None] after the
    error was recorded. *)
Definition decodeString_text (token : Token) : M (option bytes) :=
  body ← getR (slice (start_ token + 1) (end_ token - 1));
  r ← lift (decode_loop (S (length body)) (start_ token + 1) body []);
  match (r : decoded bytes) with
  | Decoded text => mret (Some text)
  | DecodeError message extra => _ ← addError message token (Some extra); mret None
  end.

(** [decodeString( token )] *)
Definition decodeString (token : Token) : M bool :=
  r ← decodeString_text token;
  match r with
  | Some text => _ ← assign_current (Value.of_string text); mret true
  | None => mret false
  end.

(** ** Error recovery *)
Fixpoint skip_until (fuel : nat) (skipUntilToken : TokenType) : M unit :=
  match fuel with
  | O => lift (Fault OutOfFuel)
  | S fuel =>
      skip ← readToken;
      if decide (type_ skip = skipUntilToken ∨ type_ skip = tokenEndOfStream)
      then mret tt else skip_until fuel skipUntilToken
  end.
Definition recoverFromError (skipUntilToken : TokenType) : M bool :=
  errorCount ← getR (λ s, length (errors_ s));
  fuel ← doc_fuel;
  _ ← skip_until fuel skipUntilToken;
  _ ← modR (λ s, set_errors (take errorCount (errors_ s)) s);
  mret false.
Definition addErrorAndRecover (message : bytes) (token : Token) (skipUntilToken : TokenType) : M bool :=
  _ ← addError message token None;
  recoverFromError skipUntilToken.

Definition expectToken (type : TokenType) (message : bytes) : M (bool * Token) :=
  token ← readToken;
  if decide (type_ token = type) then mret (true, token)
  else b ← addError message token None; mret (b, token).

(** ** Values *)

(** The comment collected before a value is attached to it. *)
Definition attach_commentsBefore : M unit :=
  cc ← getR collectComments_;
  cb ← getR commentsBefore_;
  if (cc : bool) && negb (length (cb : bytes) =? 0)%nat then
    p ← top_node;
    _ ← set_comment_at p cb commentBefore;
    modR (set_commentsBefore [])
  else mret tt.

(** The end of [readValue]: [lastValueEnd_] and [lastValue_]. *)
Definition remember_value : M unit :=
  cc ← getR collectComments_;
  if cc : bool then
    p ← top_node; modR (λ s, set_lastValue (Some (current_ s)) (Some p) s)
  else mret tt.

(** [readValue], [readObject] (its loop; [name] is the last member name) and
    the loop of [readArray], whose [int] index is incremented before the element
    is made.  The code calls itself for every level of nesting: the call stack
    is taken to be deep enough, and the fuel, which every nested call and every
    round of a loop uses up, bounds the depth it needs. *)
Fixpoint readValue (fuel : nat) : M bool :=
  match fuel with
  | O => lift (Fault OutOfFuel)
  | S fuel =>
      token ← skipCommentTokens;
      _ ← attach_commentsBefore;
      let finish (m : M bool) : M bool := ok ← m; _ ← remember_value; mret ok in
      match type_ token with
      | tokenObjectBegin =>
          finish (_ ← assign_current (Value.of_type objectValue); object_loop fuel [])
      | tokenArrayBegin =>
          finish (_ ← assign_current (Value.of_type arrayValue);
                  _ ← skipSpaces;
                  c ← getR peekc;
                  if decide (c = x5d) then _ ← readToken; mret true
                  else array_loop fuel 0)
      | tokenNumber => finish (decodeNumber token)
      | tokenString => finish (decodeString token)
      | tokenTrue => finish (_ ← assign_current (Value.of_bool true); mret true)
      | tokenFalse => finish (_ ← assign_current (Value.of_bool false); mret true)
      | tokenNull => finish (_ ← assign_current Value.null; mret true)
      | _ => addError (bs "Syntax error: value, object or array expected.") token None
      end
  end
with object_loop (fuel : nat) (name : bytes) : M bool :=
  match fuel with
  | O => lift (Fault OutOfFuel)
  | S fuel =>
      tokenName ← readToken;
      tokenName ← skip_comment_token tokenName;
      if bool_decide (type_ tokenName = tokenObjectEnd) && (length name =? 0)%nat then mret true
      else if decide (type_ tokenName = tokenString) then
        r ← decodeString_text tokenName;
        match r with
        | None => recoverFromError tokenObjectEnd
        | Some name =>
            colon ← readToken;
            if decide (type_ colon = tokenMemberSeparator) then
              _ ← subscript_current (Value.resolveReference name);
              _ ← push_child (SKey name);
              ok ← readValue fuel;
              _ ← pop_node;
              if negb ok then recoverFromError tokenObjectEnd
              else
                comma ← readToken;
                if bool_decide (type_ comma ∈ [tokenObjectEnd; tokenArraySeparator; tokenComment])
                then
                  comma ← skip_comment_token comma;
                  if decide (type_ comma = tokenObjectEnd) then mret true
                  else object_loop fuel name
                else addErrorAndRecover (bs "Missing ',' or '}' in object declaration")
                       comma tokenObjectEnd
            else addErrorAndRecover (bs "Missing ':' after object member name")
                   colon tokenObjectEnd
        end
      else addErrorAndRecover (bs "Missing '}' or object member name") tokenName tokenObjectEnd
  end
with array_loop (fuel : nat) (index : Z) : M bool :=
  match fuel with
  | O => lift (Fault OutOfFuel)
  | S fuel =>
      next ← lift (int32 (index + 1));
      _ ← subscript_current (Value.resolve_index (u32 index));
      _ ← push_child (SIndex (u32 index));
      ok ← readValue fuel;
      _ ← pop_node;
      if negb ok then recoverFromError tokenArrayEnd
      else
        token ← readToken;
        token ← skip_comment_token token;
        let badTokenType := bool_decide (type_ token = tokenArraySeparator)
                            && bool_decide (type_ token = tokenArrayEnd) in
        if badTokenType then
          addErrorAndRecover (bs "Missing ',' or ']' in array declaration") token tokenArrayEnd
        else if decide (type_ token = tokenArrayEnd) then mret true
        else array_loop fuel next
  end.

(** Enough for every document: see [parse_total]. *)
Definition parse_fuel (document : bytes) : nat := 2 * length document + 4.

(** [parse( beginDoc, endDoc, root, collectComments )] of a reader with the
    given features. *)
Definition init (features : Features) (document : bytes) (root : Value)
    (collectComments : bool) : Reader :=
  mkReader features (if allowComments_ features then collectComments else false)
    document 0 None None [] [] [[]] root.

Definition parse_body (document : bytes) : M bool :=
  successful ← readValue (parse_fuel document);
  token ← skipCommentTokens;
  cc ← getR collectComments_;
  cb ← getR commentsBefore_;
  _ ← (if (cc : bool) && negb (length (cb : bytes) =? 0)%nat
       then set_comment_at [] cb commentAfter else mret tt);
  strict ← getR (λ s, strictRoot_ (features_ s));
  root ← getR root_;
  if (strict : bool) && negb (Value.isArray root) && negb (Value.isObject root) then
    addError (bs "A valid JSON document must be either an array or an object value.")
      (mkToken tokenError 0 (length document)) None
  else mret successful.

(** The result, the root and the errors of a parse. *)
Definition parse_with (features : Features) (document : bytes) (root : Value)
    (collectComments : bool) : outcome (bool * Reader) :=
  parse_body document (init features document root collectComments).

(** [Json::Reader reader; reader.parse( document, root )] *)
Definition parse (document : bytes) (root : Value) : outcome (bool * Value) :=
  r ← parse_with Features_all document root true;
  Done (r.1, root_ r.2).

(** * Lemmas *)

(** Simplifies running the parser from a known state. *)
Lemma M_bind_eq {A B} (m : M A) (k : A → M B) s a s' :
  m s = Done (a, s') → (m ≫= k) s = k a s'.
Proof. unfold mbind, M_bind. by intros ->. Qed.

Lemma M_lift_eq {A B} (m : outcome A) (k : A → M B) a s : m = Done a → (lift m ≫= k) s = k a s.
Proof. by intros ->. Qed.

(** ** Updates of the tree *)

Lemma value_at_app p q r : value_at (p ++ q) r = value_at p r ≫= value_at q.
Proof.
  revert r. induction p as [|[k|i] p IH]; intros r; cbn; [done|..];
    by repeat case_match.
Qed.

Lemma update_at_app p q g r : update_at (p ++ q) g r = update_at p (update_at q g) r.
Proof.
  revert r. induction p as [|[k|i] p IH]; intros [h c]; cbn; [done|..];
    unfold Value.update_key, Value.update_index; cbn; destruct h; try done;
    do 2 f_equal; apply StdMap.update_ext; intros; apply IH.
Qed.

Lemma value_at_update p g r v : value_at p r = Some v → value_at p (update_at p g r) = Some (g v).
Proof.
  revert r. induction p as [|[k|i] p IH]; intros [h c]; cbn; [by intros [= ->]|..];
    destruct h as [| | | | | |m|m]; try done; cbn; rewrite StdMap.find_update_eq;
    destruct (StdMap.find _ m) eqn:E; cbn; try done; apply IH.
Qed.

Lemma update_at_ext p g h r :
  (∀ v, value_at p r = Some v → g v = h v) → update_at p g r = update_at p h r.
Proof.
  revert r. induction p as [|[k|i] p IH]; intros [hd c]; cbn; [intros Hv; by apply Hv|..];
    intros Hv; unfold Value.update_key, Value.update_index; cbn in *; destruct hd; try done;
    do 2 f_equal; apply StdMap.update_ext; intros v Hf; apply IH; rewrite Hf in Hv; apply Hv.
Qed.

Lemma update_at_update p g h r : update_at p g (update_at p h r) = update_at p (λ v, g (h v)) r.
Proof.
  revert r. induction p as [|[k|i] p IH]; intros [hd c]; cbn; [done|..];
    unfold Value.update_key, Value.update_index; cbn; destruct hd; try done; cbn;
    rewrite StdMap.update_update; do 2 f_equal; apply StdMap.update_ext; intros; apply IH.
Qed.

Lemma assign_current_spec v s p ns :
  nodes_ s = p :: ns →
  assign_current v s = Done (tt, set_root (update_at p (λ old, Value.assign old v) (root_ s)) s).
Proof.
  intros Hn. unfold assign_current, modify_current, top_node, mbind, M_bind. by rewrite Hn.
Qed.

Lemma subscript_current_spec r s p ns v v' :
  nodes_ s = p :: ns → value_at p (root_ s) = Some v → r v = Done v' →
  subscript_current r s = Done (tt, set_root (update_at p (λ _, v') (root_ s)) s).
Proof.
  intros Hn Hv Hr. unfold subscript_current, current_value, modify_current, top_node, lift, getR, modR,
    mbind, M_bind. rewrite Hn, Hv. unfold mret, M_ret. rewrite Hr. cbn. by rewrite Hn.
Qed.
