(* ===== verification/JsonText.v ===== *)
(** The language the parser accepts and its meaning: a grammar of JSON texts
    (white space, escapes and surrogate pairs included; reals and comments
    excluded), the proof that [Reader::parse] gives each text its value, and
    that [FastWriter] writes texts of this grammar, so that what it writes is
    read back. *)

From S2P Require Import Prelude StdMap CDouble JsonValue JsonWriter JsonReader.
Local Open Scope Z_scope.

(** ** Grammar *)

Definition spaces (w : bytes) : Prop := Forall (λ c, is_space c = true) w.

(** Four hexadecimal digits, of either case, and their value. *)
Inductive Hex4 : Z → bytes → Prop :=
  | hex4_intro a b c d x y z t :
      hex_digit_value a = Some x → hex_digit_value b = Some y →
      hex_digit_value c = Some z → hex_digit_value d = Some t →
      Hex4 (((x * 16 + y) * 16 + z) * 16 + t) [a; b; c; d].

(** One character of a string literal: the bytes it stands for, and its text. *)
Inductive CharText : bytes → bytes → Prop :=
  | char_raw c : c ≠ x22 → c ≠ x5c → CharText [c] [c]
  | char_escape b e :
      (b, e) ∈ [(x22, x22); (x2f, x2f); (x5c, x5c); (x08, x62); (x0c, x66); (x0a, x6e);
                (x0d, x72); (x09, x74)] → CharText [b] [x5c; e]
  | char_unicode u h : Hex4 u h → ¬ 55296 ≤ u ≤ 56319 →
      CharText (codePointToUTF8 u) (x5c :: x75 :: h)
  | char_pair u h u' h' : Hex4 u h → 55296 ≤ u ≤ 56319 → Hex4 u' h' →
      CharText (codePointToUTF8 (65536 + Z.shiftl (Z.land u 1023) 10 + Z.land u' 1023))
               (x5c :: x75 :: h ++ x5c :: x75 :: h').

Inductive StringText : bytes → bytes → Prop :=
  | string_nil : StringText [] []
  | string_cons b t s l : CharText b t → StringText s l → StringText (b ++ s) (t ++ l).

(** The value of a number without fraction or exponent; the parser reads a
    number within ten of the limits of its type as a real. *)
Definition int_value (neg : bool) (n : Z) : option Value :=
  if neg then if n <? 2147483640 then Some (Value.of_int (- n)) else None
  else if n <=? INT_MAX then Some (Value.of_int n)
  else if n <? 4294967290 then Some (Value.of_uint n) else None.

(** The array of some values, and the object some members are set in, in
    order. *)
Definition array_of (i : Z) (vs : list Value) : ArrayValues := imap (λ j v, (i + Z.of_nat j, v)) vs.
Definition set_member (m : ObjectValues) (p : bytes * Value) : ObjectValues :=
  StdMap.update (λ old, Value.assign old p.2) (c_str p.1) (StdMap.subscript (c_str p.1) Value.null m).
Definition object_of (ms : list (bytes * Value)) : ObjectValues := foldl set_member [] ms.

Inductive JText : Value → bytes → Prop :=
  | text_null : JText Value.null (bs "null")
  | text_true : JText (Value.of_bool true) (bs "true")
  | text_false : JText (Value.of_bool false) (bs "false")
  | text_int (neg : bool) ds v :
      Forall (λ c, is_digit c = true) ds → ds ≠ [] → int_value neg (decimal_value ds) = Some v →
      JText v ((if neg then [x2d] else []) ++ ds)
  | text_string s l : StringText s l → JText (Value.of_string s) (x22 :: l ++ [x22])
  | text_empty_array w : spaces w → JText (Value.of_holder (arrayV [])) (x5b :: w ++ [x5d])
  | text_array vs l : JItems vs l →
      JText (Value.of_holder (arrayV (array_of 0 vs))) (x5b :: l ++ [x5d])
  | text_empty_object w : spaces w → JText (Value.of_holder (objectV [])) (x7b :: w ++ [x7d])
  | text_object ms l : JMembers ms l →
      JText (Value.of_holder (objectV (object_of ms))) (x7b :: l ++ [x7d])
with JItems : list Value → bytes → Prop :=
  | items_last w v l w' : spaces w → JText v l → spaces w' → JItems [v] (w ++ l ++ w')
  | items_more w v l w' vs l' : spaces w → JText v l → spaces w' → JItems vs l' →
      JItems (v :: vs) (w ++ l ++ w' ++ x2c :: l')
with JMembers : list (bytes * Value) → bytes → Prop :=
  | members_last w name n w1 w2 v l w' :
      spaces w → StringText name n → spaces w1 → spaces w2 → JText v l → spaces w' →
      JMembers [(name, v)] (w ++ x22 :: n ++ x22 :: w1 ++ x3a :: w2 ++ l ++ w')
  | members_more w name n w1 w2 v l w' ms l' :
      spaces w → StringText name n → spaces w1 → spaces w2 → JText v l → spaces w' →
      JMembers ms l' →
      JMembers ((name, v) :: ms)
        (w ++ x22 :: n ++ x22 :: w1 ++ x3a :: w2 ++ l ++ w' ++ x2c :: l').

(** Normal forms of concatenations and of their lengths. *)
Ltac apps := repeat (progress (rewrite <-?app_assoc; cbn [app])).
Ltac lengths := repeat (progress (rewrite ?length_app; cbn [length app])).
Ltac lengths_in H := repeat (progress (rewrite ?length_app in H; cbn [length app] in H)).

(** ** The state of the parser *)

Lemma rest_advance n s : rest (advance n s) = drop n (rest s).
Proof. unfold rest, advance; cbn. by rewrite drop_drop. Qed.

Lemma rest_app s w l : rest s = w ++ l → rest (advance (length w) s) = l.
Proof. intros Hr. by rewrite rest_advance, Hr, drop_app_length. Qed.

Lemma rest_cons s w c l : rest s = w ++ c :: l → rest (advance (S (length w)) s) = l.
Proof.
  intros Hr.
  replace (S (length w)) with (length (w ++ [c])) by (rewrite length_app; cbn; lia).
  apply rest_app. by rewrite <-app_assoc.
Qed.

Lemma advance_advance n m s : advance m (advance n s) = advance (n + m) s.
Proof. unfold advance, set_current; cbn. f_equal. lia. Qed.

Lemma advance_0 s : advance 0 s = s.
Proof. unfold advance, set_current. rewrite Nat.add_0_r. by destruct s. Qed.

Lemma span_len_app f w c l :
  Forall (λ c, f c = true) w → f c = false → span_len f (w ++ c :: l) = length w.
Proof. induction 1 as [|a w Ha _ IH]; cbn; intros Hc; [by rewrite Hc|]. by rewrite Ha, IH. Qed.

Lemma span_len_all f w : Forall (λ c, f c = true) w → span_len f w = length w.
Proof. induction 1 as [|a w Ha _ IH]; cbn; [done|]. by rewrite Ha, IH. Qed.

Lemma skipSpaces_spec s w l :
  rest s = w ++ l → spaces w → (∀ c l', l = c :: l' → is_space c = false) →
  skipSpaces s = Done (tt, advance (length w) s).
Proof.
  intros Hr Hw Hl. unfold skipSpaces, modR. rewrite Hr. do 3 f_equal.
  destruct l as [|c l]; [rewrite app_nil_r; by apply span_len_all|].
  apply span_len_app; [done|]. by eapply Hl.
Qed.

(** [readToken] before a token that starts with [c]. *)
Lemma readToken_at s w c l :
  rest s = w ++ c :: l → spaces w → is_space c = false →
  readToken s =
    (r ← token_body c;
     stop ← getR current_;
     let '(t, ok) := (r : TokenType * bool) in
     mret (mkToken (if ok then t else tokenError) (current_ s + length w) stop))
      (advance (S (length w)) s).
Proof.
  intros Hr Hw Hc. unfold readToken.
  rewrite (M_bind_eq skipSpaces _ s tt (advance (length w) s))
    by (apply (skipSpaces_spec s w (c :: l)); [done|done|by intros ? ? [= <- <-]]).
  unfold getNextChar. unfold mbind at 1, M_bind at 1, getR at 1.
  unfold mbind at 1, M_bind at 1. rewrite rest_advance, Hr, drop_app_length.
  rewrite advance_advance. by replace (length w + 1)%nat with (S (length w)) by lia.
Qed.

Definition punctuation (c : byte) : option TokenType :=
  match c with
  | x7b => Some tokenObjectBegin | x7d => Some tokenObjectEnd
  | x5b => Some tokenArrayBegin | x5d => Some tokenArrayEnd
  | x2c => Some tokenArraySeparator | x3a => Some tokenMemberSeparator
  | _ => None
  end.

Lemma readToken_punctuation s w c l t :
  rest s = w ++ c :: l → spaces w → punctuation c = Some t →
  readToken s = Done (mkToken t (current_ s + length w) (current_ s + S (length w)),
                      advance (S (length w)) s).
Proof.
  intros Hr Hw Hp.
  assert (Hc : is_space c = false) by (destruct c; (discriminate Hp || reflexivity)).
  rewrite (readToken_at s w c l) by done.
  destruct c; try discriminate Hp; injection Hp as <-; reflexivity.
Qed.

Lemma readToken_word s w word l t :
  rest s = w ++ word ++ l → spaces w →
  (word, t) ∈ [(bs "null", tokenNull); (bs "true", tokenTrue); (bs "false", tokenFalse)] →
  readToken s = Done (mkToken t (current_ s + length w) (current_ s + length w + length word),
                      advance (length w + length word) s).
Proof.
  intros Hr Hw Ht.
  assert (Hany : ∀ c word', word = c :: word' → is_space c = false →
    (∀ s', take (length word') (rest s') = word' →
       token_body c s' = Done ((t, true), advance (length word') s')) →
    readToken s = Done (mkToken t (current_ s + length w) (current_ s + length w + length word),
                      advance (length w + length word) s)).
  { intros c word' -> Hc Hb. rewrite (readToken_at s w c (word' ++ l)) by done.
    pose proof (rest_cons _ _ _ _ Hr) as Hr'.
    rewrite (M_bind_eq _ _ _ _ _ (Hb (advance (S (length w)) s) ltac:(rewrite Hr'; apply take_app_length))).
    rewrite advance_advance. unfold getR, mbind, M_bind, mret, M_ret. cbn [length].
    replace (length w + S (length word'))%nat with (S (length w) + length word')%nat by lia.
    do 3 f_equal. cbn. lia. }
  assert (Hb : ∀ c word' s', take (length word') (rest s') = word' →
    (c, word', t) ∈ [(x6e, bs "ull", tokenNull); (x74, bs "rue", tokenTrue); (x66, bs "alse", tokenFalse)] →
    token_body c s' = Done ((t, true), advance (length word') s')).
  { intros c word' s' Htk Hin.
    assert (Hbody : token_body c s' = (ok ← match_ word'; mret (t, ok)) s').
    { repeat (apply elem_of_cons in Hin as [[= -> -> ->]|Hin]); [reflexivity..|].
      by apply elem_of_nil in Hin. }
    rewrite Hbody. unfold match_, mbind, M_bind. by rewrite decide_True. }
  repeat (apply elem_of_cons in Ht as [[= -> ->]|Ht]); [..|by apply elem_of_nil in Ht];
    (eapply Hany; [reflexivity|reflexivity|]; intros s' Hs'; apply Hb; [done|];
     rewrite !elem_of_cons; auto 10).
Qed.

(** ** Numbers *)

Lemma digit_number_char c : is_digit c = true → number_char c = true.
Proof. unfold number_char. by intros ->. Qed.

Definition ends_number (l : bytes) : Prop := ∀ c l', l = c :: l' → number_char c = false.

Lemma span_len_number t l :
  Forall (λ c, number_char c = true) t → ends_number l → span_len number_char (t ++ l) = length t.
Proof.
  intros Ht Hl. destruct l as [|c l]; [rewrite app_nil_r; by apply span_len_all|].
  apply span_len_app; [done|]. by eapply Hl.
Qed.

Lemma token_body_number c :
  is_digit c = true ∨ c = x2d →
  is_space c = false ∧ token_body c = (_ ← readNumber; mret (tokenNumber, true)).
Proof. intros [Hc| ->]; [destruct c; (discriminate Hc || done)|done]. Qed.

Definition number_text (neg : bool) (ds : bytes) : bytes := (if neg then [x2d] else []) ++ ds.

Lemma readToken_number s w neg ds l :
  rest s = w ++ number_text neg ds ++ l → spaces w →
  Forall (λ c, is_digit c = true) ds → ds ≠ [] → ends_number l →
  let n := length (number_text neg ds) in
  readToken s = Done (mkToken tokenNumber (current_ s + length w) (current_ s + length w + n),
                      advance (length w + n) s).
Proof.
  intros Hr Hw Hds Hne Hl n.
  assert (Ht : Forall (λ c, number_char c = true) (number_text neg ds)).
  { apply Forall_app; split; [destruct neg; repeat constructor|].
    eapply Forall_impl; [exact Hds|]. apply digit_number_char. }
  assert (Hc : ∃ c t, number_text neg ds = c :: t ∧ (is_digit c = true ∨ c = x2d)).
  { destruct neg; [by exists x2d, ds; auto|]. destruct Hds as [|c ds' Hc _]; [done|]. exists c, ds'. auto. }
  subst n. destruct Hc as (c & t & Ec & Hc). rewrite Ec in *.
  apply token_body_number in Hc as [Hsp Hb]. inversion Ht as [|? ? _ Ht']; subst.
  rewrite (readToken_at s w c (t ++ l)) by done. rewrite Hb.
  unfold readNumber, modR, getR, mbind, M_bind, mret, M_ret.
  rewrite (rest_cons s w c (t ++ l)) by done. rewrite span_len_number by done.
  rewrite advance_advance. cbn [length].
  replace (length w + S (length t))%nat with (S (length w) + length t)%nat by lia.
  do 3 f_equal. cbn. lia.
Qed.

(** The text of a token read after [w]. *)
Lemma slice_token s w t l s' :
  rest s = w ++ t ++ l → document_ s' = document_ s →
  slice (current_ s + length w) (current_ s + length w + length t) s' = t.
Proof.
  intros Hr Hd. unfold slice. rewrite Hd.
  replace (current_ s + length w + length t - (current_ s + length w))%nat with (length t) by lia.
  rewrite <-drop_drop. change (drop (current_ s) (document_ s)) with (rest s).
  rewrite Hr, drop_app_length. apply take_app_length.
Qed.

Lemma is_double_text_number neg ds :
  Forall (λ c, is_digit c = true) ds → is_double_text true (number_text neg ds) = false.
Proof.
  intros Hds. assert (H : ∀ b, is_double_text b ds = false).
  { induction Hds as [|c ds Hc _ IH]; intros b; cbn [is_double_text]; [done|].
    rewrite IH, orb_false_r. destruct c; (discriminate Hc || reflexivity). }
  destruct neg; [|apply H]. unfold number_text. cbn. apply H.
Qed.

Lemma digit_value_range c : is_digit c = true → 0 ≤ digit_value c < 10.
Proof. unfold is_digit, digit_value. intros [H1 H2]%andb_prop. lia. Qed.

(** The digit loop computes the number, as long as the part before the last
    digit stays below the threshold. *)
Lemma number_loop_spec thr ds acc :
  Forall (λ c, is_digit c = true) ds → 0 ≤ acc → 10 * thr ≤ 4294967290 →
  number_loop thr acc ds =
    if (decimal_value_from acc ds <? 10 * thr) || bool_decide (ds = [])
    then Number (decimal_value_from acc ds) else TooLarge.
Proof.
  intros Hds. revert acc. induction Hds as [|c ds Hc Hds IH]; intros acc Hacc Hthr.
  - cbn [number_loop]. by rewrite orb_true_r.
  - cbn [number_loop]. rewrite Hc. cbn [negb].
    pose proof (digit_value_range c Hc) as Hd.
    assert (Hmono : ∀ a l, Forall (λ c, is_digit c = true) l → 0 ≤ a → a ≤ decimal_value_from a l).
    { intros a l Hl. revert a. induction Hl as [|x l Hx _ IHl]; intros a Ha; [cbn; lia|].
      pose proof (digit_value_range x Hx).
      change (a ≤ decimal_value_from (a * 10 + digit_value x) l).
      specialize (IHl (a * 10 + digit_value x)). lia. }
    change (decimal_value_from acc (c :: ds)) with (decimal_value_from (acc * 10 + digit_value c) ds).
    specialize (Hmono (acc * 10 + digit_value c) ds Hds).
    rewrite (bool_decide_false (c :: ds = [])), orb_false_r by done.
    destruct (Z.leb_spec thr acc) as [Hle|Hlt].
    + rewrite (proj2 (Z.ltb_ge _ _)) by lia. done.
    + rewrite (wrapu_small 32) by lia. rewrite IH by lia.
      destruct (bool_decide_reflect (ds = [])) as [->|]; [|by rewrite orb_false_r].
      cbn [decimal_value_from foldl]. rewrite orb_true_r, (proj2 (Z.ltb_lt _ _)) by lia. done.
Qed.

Lemma decimal_value_nonneg ds : Forall (λ c, is_digit c = true) ds → 0 ≤ decimal_value ds.
Proof.
  intros Hds. unfold decimal_value. assert (H : ∀ a, 0 ≤ a → 0 ≤ decimal_value_from a ds); [|by apply H].
  induction Hds as [|c ds Hc _ IH]; intros a Ha; [done|].
  apply digit_value_range in Hc. apply (IH (a * 10 + digit_value c)). lia.
Qed.

(** [decodeNumber] on a sign and digits. *)
Lemma decodeNumber_eq token s neg ds :
  slice (start_ token) (end_ token) s = number_text neg ds →
  Forall (λ c, is_digit c = true) ds →
  decodeNumber token s =
    match int_value neg (decimal_value ds) with
    | Some v => (_ ← assign_current v; mret true) s
    | None => decodeDouble token s
    end.
Proof.
  intros Hs Hds. unfold decodeNumber. unfold mbind at 1, M_bind at 1, getR at 1.
  rewrite Hs, is_double_text_number by done. cbn zeta.
  assert (Hneg : bool_decide (head (number_text neg ds) = Some x2d) = neg).
  { destruct neg; [done|]. apply bool_decide_eq_false. destruct ds as [|c ds]; [done|].
    apply Forall_inv in Hds. cbn. by intros [= ->]. }
  rewrite Hneg.
  assert (Htl : (if neg then tail (number_text neg ds) else number_text neg ds) = ds) by by destruct neg.
  rewrite Htl. pose proof (decimal_value_nonneg ds Hds) as Hpos.
  assert (Hnil : ds = [] → decimal_value ds = 0) by by intros ->.
  rewrite number_loop_spec; [|done|done|by destruct neg].
  change (decimal_value_from 0 ds) with (decimal_value ds).
  unfold int_value, INT_MAX. unfold Value.maxInt, INT_MAX. destruct neg.
  - change (10 * _) with 2147483640.
    destruct (Z.ltb_spec (decimal_value ds) 2147483640); cbn [orb].
    + rewrite (wraps_small 32 (decimal_value ds)), wraps_small by lia. done.
    + destruct (bool_decide_reflect (ds = [])) as [E|E]; [pose proof (Hnil E); lia|done].
  - change (10 * _) with 4294967290.
    destruct (Z.ltb_spec (decimal_value ds) 4294967290); cbn [orb].
    + destruct (Z.leb_spec (decimal_value ds) 2147483647); [|done].
      by rewrite (wraps_small 32) by lia.
    + rewrite (proj2 (Z.leb_gt _ _)) by lia.
      destruct (bool_decide_reflect (ds = [])) as [E|E]; [pose proof (Hnil E); lia|done].
Qed.

(** ** Strings *)

Lemma hex_digit_plain a x : hex_digit_value a = Some x → a ≠ x22 ∧ a ≠ x5c ∧ 0 ≤ x < 16.
Proof.
  intros H. split_and!; [by intros ->|by intros ->|..]; revert H; unfold hex_digit_value, is_digit, digit_value;
    repeat case_match; intros [= <-]; repeat match goal with H : _ && _ = true |- _ => apply andb_prop in H as [?%Z.leb_le ?%Z.leb_le] end; lia.
Qed.

Lemma string_scan_plain c l c0 : c ≠ x22 → c ≠ x5c → 
  string_scan (c :: l) c0 = let '(n, c') := string_scan l c in (S n, c').
Proof. intros H1 H2. cbn [string_scan]. by rewrite !decide_False. Qed.

Lemma string_scan_escape e l c0 :
  string_scan (x5c :: e :: l) c0 = let '(n, c') := string_scan l x5c in (S (S n), c').
Proof. done. Qed.

(** The scan depends on its last argument only at the end of the document. *)
Lemma string_scan_hex u h l c0 c1 :
  Hex4 u h → string_scan l c1 = string_scan l c0 → l ≠ [] →
  string_scan (h ++ l) c0 = ((4 + (string_scan l c0).1)%nat, (string_scan l c0).2).
Proof.
  intros [a b c d x y z t Ha Hb Hc Hd] _ Hl. cbn [app].
  apply hex_digit_plain in Ha as (? & ? & _), Hb as (? & ? & _), Hc as (? & ? & _), Hd as (? & ? & _).
  rewrite !string_scan_plain by done.
  assert (Hs : string_scan l d = string_scan l c0) by by destruct l.
  rewrite Hs. by destruct (string_scan l c0).
Qed.

Lemma string_scan_spec s n l c0 :
  StringText s n → string_scan (n ++ x22 :: l) c0 = (S (length n), x22).
Proof.
  intros Hn. revert c0. induction Hn as [|b t s n Hc Hn IH]; intros c0; [done|].
  rewrite <-app_assoc, length_app. destruct Hc as [c H1 H2|b e _|u h Hh _|u h u' h' Hh _ Hh'].
  - cbn [app]. rewrite string_scan_plain by done. by rewrite IH.
  - cbn [app]. rewrite string_scan_escape. by rewrite IH.
  - cbn [app]. rewrite string_scan_escape. rewrite (string_scan_hex u h _ _ x5c); [|done..|by destruct n].
    rewrite IH. by destruct Hh.
  - cbn [app]. rewrite string_scan_escape, <-app_assoc.
    rewrite (string_scan_hex u h _ _ x5c); [|done..]. cbn [app]. rewrite string_scan_escape.
    rewrite (string_scan_hex u' h' _ _ x5c); [|done..|by destruct n].
    rewrite IH. by destruct Hh, Hh'.
Qed.

Lemma readToken_string s w name n l :
  rest s = w ++ x22 :: n ++ x22 :: l → spaces w → StringText name n →
  let len := (2 + length n)%nat in
  readToken s = Done (mkToken tokenString (current_ s + length w) (current_ s + length w + len),
                      advance (length w + len) s).
Proof.
  intros Hr Hw Hn len. rewrite (readToken_at s w x22 (n ++ x22 :: l)) by done.
  assert (Hb : token_body x22 = (ok ← readString; mret (tokenString, ok))) by done.
  rewrite Hb. unfold readString, getR, mbind, M_bind, mret, M_ret.
  rewrite (rest_cons _ _ _ _ Hr), (string_scan_spec name) by done.
  rewrite advance_advance. subst len. rewrite bool_decide_true by done.
  replace (length w + (2 + length n))%nat with (S (length w) + S (length n))%nat by lia.
  do 3 f_equal. cbn. lia.
Qed.

Lemma decodeUnicodeEscape_spec cur u h l :
  Hex4 u h → decodeUnicodeEscapeSequence cur (h ++ l) = Decoded (u, (cur + 4)%nat, l) ∧ 0 ≤ u < 65536.
Proof.
  intros [a b c d x y z t Ha Hb Hc Hd]. unfold decodeUnicodeEscapeSequence.
  assert (Hlen : (length ([a; b; c; d] ++ l) <? 4)%nat = false) by (apply Nat.ltb_ge; cbn; lia).
  rewrite Hlen. cbn [app hex_loop]. rewrite Ha, Hb, Hc, Hd.
  apply hex_digit_plain in Ha as (_ & _ & ?), Hb as (_ & _ & ?), Hc as (_ & _ & ?), Hd as (_ & _ & ?).
  rewrite (wrapu_small 32 (0 * 16 + x)) by lia. change (0 * 16 + x) with x.
  rewrite (wrapu_small 32 (x * 16 + y)), (wrapu_small 32 ((x * 16 + y) * 16 + z)),
    wrapu_small by lia.
  split; [|lia]. do 3 f_equal. lia.
Qed.

Lemma decodeCodePoint_spec cur u h l :
  Hex4 u h → ¬ 55296 ≤ u ≤ 56319 →
  decodeUnicodeCodePoint cur (h ++ l) = Decoded (u, (cur + 4)%nat, l).
Proof.
  intros Hh Hu. unfold decodeUnicodeCodePoint.
  destruct (decodeUnicodeEscape_spec cur u h l Hh) as [-> _].
  destruct (_ && _) eqn:E; [|done]. apply andb_prop in E as [?%Z.leb_le ?%Z.leb_le]. lia.
Qed.

Lemma decodeCodePoint_pair cur u h u' h' l :
  Hex4 u h → 55296 ≤ u ≤ 56319 → Hex4 u' h' →
  decodeUnicodeCodePoint cur (h ++ x5c :: x75 :: h' ++ l) =
    Decoded (65536 + Z.shiftl (Z.land u 1023) 10 + Z.land u' 1023, (cur + 10)%nat, l).
Proof.
  intros Hh Hu Hh'. unfold decodeUnicodeCodePoint.
  destruct (decodeUnicodeEscape_spec cur u h (x5c :: x75 :: h' ++ l) Hh) as [-> _].
  rewrite (proj2 (Z.leb_le 55296 u)), (proj2 (Z.leb_le u 56319)) by lia. cbn [andb].
  assert (Hlen : (length (x5c :: x75 :: h' ++ l) <? 6)%nat = false)
    by (apply Nat.ltb_ge; destruct Hh'; cbn; lia).
  rewrite Hlen, !decide_True by done.
  destruct (decodeUnicodeEscape_spec (cur + 4 + 2) u' h' l Hh') as [-> _]. do 3 f_equal. lia.
Qed.

Lemma decode_loop_spec s n fuel cur acc :
  StringText s n → (length n < fuel)%nat →
  decode_loop fuel cur n acc = Done (Decoded (acc ++ s)).
Proof.
  intros Hn. revert fuel cur acc. induction Hn as [|b t s n Hc Hn IH]; intros fuel cur acc Hf.
  - destruct fuel; [lia|]. cbn. by rewrite app_nil_r.
  - rewrite length_app in Hf. rewrite app_assoc. destruct fuel as [|fuel]; [lia|].
    destruct Hc as [c H1 H2|b e Hin|u h Hh Hu|u h u' h' Hh Hu Hh'].
    + cbn [app decode_loop]. rewrite !decide_False by done. apply IH. cbn in Hf. lia.
    + repeat (apply elem_of_cons in Hin as [[= -> ->]|Hin]); [..|by apply elem_of_nil in Hin];
        cbn -[app]; (apply IH; cbn in Hf; lia).
    + cbn [app]. change (decode_loop (S fuel) cur (x5c :: x75 :: h ++ n) acc) with
        (match decodeUnicodeCodePoint (S (S cur)) (h ++ n) with
         | DecodeError m x => Done (DecodeError m x)
         | Decoded (unicode, cur', l') => decode_loop fuel cur' l' (acc ++ codePointToUTF8 unicode)
         end).
      rewrite (decodeCodePoint_spec _ u h) by done. apply IH. cbn in Hf. lia.
    + cbn [app]. rewrite <-app_assoc. cbn [app].
      change (decode_loop (S fuel) cur (x5c :: x75 :: h ++ x5c :: x75 :: h' ++ n) acc) with
        (match decodeUnicodeCodePoint (S (S cur)) (h ++ x5c :: x75 :: h' ++ n) with
         | DecodeError m x => Done (DecodeError m x)
         | Decoded (unicode, cur', l') => decode_loop fuel cur' l' (acc ++ codePointToUTF8 unicode)
         end).
      rewrite (decodeCodePoint_pair _ u h u' h') by done. apply IH.
      cbn in Hf. rewrite length_app in Hf. cbn in Hf. lia.
Qed.

(** What reading a value changes: the position and the tree (and what is
    remembered for the placement of comments). *)
Record moved (n : nat) (r : Value) (s s' : Reader) : Prop := mkMoved {
  moved_features : features_ s' = features_ s;
  moved_collect : collectComments_ s' = collectComments_ s;
  moved_document : document_ s' = document_ s;
  moved_current : current_ s' = (current_ s + n)%nat;
  moved_before : commentsBefore_ s' = commentsBefore_ s;
  moved_errors : errors_ s' = errors_ s;
  moved_nodes : nodes_ s' = nodes_ s;
  moved_root : root_ s' = r
}.

Lemma moved_refl s : moved 0 (root_ s) s s.
Proof. split; (done || lia). Qed.
Lemma moved_trans n1 n2 r1 r2 s1 s2 s3 :
  moved n1 r1 s1 s2 → moved n2 r2 s2 s3 → moved (n1 + n2) r2 s1 s3.
Proof. intros [] []. split; (congruence || lia). Qed.
Lemma moved_advance n s : moved n (root_ s) s (advance n s).
Proof. by split. Qed.
Lemma moved_set_root r s : moved 0 r s (set_root r s).
Proof. split; (done || (cbn; lia)). Qed.
Lemma moved_rest n r s s' : moved n r s s' → rest s' = drop n (rest s).
Proof. intros []. unfold rest. by rewrite moved_document0, moved_current0, drop_drop. Qed.
Lemma moved_rest_app n r s s' a l : moved n r s s' → rest s = a ++ l → n = length a → rest s' = l.
Proof. intros Hm Hr ->. rewrite (moved_rest _ _ _ _ Hm), Hr. apply drop_app_length. Qed.

Lemma remember_value_spec s p ns :
  nodes_ s = p :: ns → ∃ s', remember_value s = Done (tt, s') ∧ moved 0 (root_ s) s s'.
Proof.
  intros Hn. unfold remember_value, top_node, getR, modR, mbind, M_bind, mret, M_ret.
  destruct (collectComments_ s); rewrite ?Hn; (eexists; split; [done|]); split; (done || (cbn; lia)).
Qed.

Lemma attach_nothing s : commentsBefore_ s = [] → attach_commentsBefore s = Done (tt, s).
Proof.
  intros Hc. unfold attach_commentsBefore, getR, mbind, M_bind. rewrite Hc. cbn.
  by rewrite andb_false_r.
Qed.

(** A token that is not a comment is read at once. *)
Lemma skipCommentTokens_token s t s' :
  readToken s = Done (t, s') → type_ t ≠ tokenComment → skipCommentTokens s = Done (t, s').
Proof.
  intros Hr Ht. unfold skipCommentTokens, readToken_nc, doc_fuel, getR. unfold mbind at 1, M_bind at 1.
  destruct (allowComments_ (features_ s)); [|done].
  unfold mbind at 1, M_bind at 1. cbn [read_past_comments]. unfold mbind at 1, M_bind at 1.
  rewrite Hr. by rewrite decide_False.
Qed.

Lemma text_nonempty v l : JText v l → (1 ≤ length l)%nat.
Proof.
  destruct 1 as [| | |neg ds v _ Hne _|s l _|w _|vs l _|w _|ms l _]; cbn; try lia.
  rewrite length_app. destruct ds; [done|]. cbn. lia.
Qed.

(** The end of a scalar: its token, the assignment and the bookkeeping. *)
Lemma finish_assign (m : M bool) v s p ns :
  nodes_ s = p :: ns → m s = (_ ← assign_current v; mret true) s →
  ∃ s', (ok ← m; _ ← remember_value; mret ok) s = Done (true, s') ∧
        moved 0 (update_at p (λ old, Value.assign old v) (root_ s)) s s'.
Proof.
  intros Hn Hm. unfold mbind at 1, M_bind at 1. rewrite Hm.
  unfold mbind at 1, M_bind at 1. rewrite (assign_current_spec v s p ns Hn).
  unfold mret at 1, M_ret at 1.
  destruct (remember_value_spec (set_root (update_at p (λ old, Value.assign old v) (root_ s)) s) p ns Hn)
    as (s' & Hr & Hm').
  exists s'. unfold mbind, M_bind. rewrite Hr. split; [done|].
  exact (moved_trans 0 0 _ _ _ _ _ (moved_set_root _ s) Hm').
Qed.

(** ** Correctness of the recursive descent *)

Lemma text_no_comments v l : JText v l → Value.comments v = None.
Proof.
  destruct 1 as [| | |neg ds v _ _ Hv|s l _|w _|vs l _|w _|ms l _]; try done.
  unfold int_value in Hv. by repeat case_match; simplify_eq.
Qed.

Lemma assign_null v : Value.comments v = None → Value.assign Value.null v = v.
Proof. destruct v as [h c]. by cbn; intros ->. Qed.

Lemma ends_number_cons c l : number_char c = false → ends_number (c :: l).
Proof. by intros Hc ? ? [= <- <-]. Qed.
Lemma ends_number_spaces w l : spaces w → ends_number l → ends_number (w ++ l).
Proof.
  intros Hw Hl. destruct Hw as [|c w Hc _]; [done|]. cbn [app]. apply ends_number_cons.
  destruct c; (discriminate Hc || reflexivity).
Qed.

Section descent.
Context (fuel : nat).

Definition value_ok : Prop := ∀ v l w tail s p ns old,
  JText v l → (length l < fuel)%nat → rest s = w ++ l ++ tail → spaces w → ends_number tail →
  nodes_ s = p :: ns → value_at p (root_ s) = Some old → commentsBefore_ s = [] →
  Z.of_nat (length (rest s)) < 2 ^ 31 →
  ∃ s', readValue fuel s = Done (true, s') ∧
    moved (length w + length l) (update_at p (λ old, Value.assign old v) (root_ s)) s s'.

Definition items_ok : Prop := ∀ vs l tail s p ns i m c0,
  JItems vs l → (S (length l) < fuel)%nat → rest s = l ++ x5d :: tail →
  nodes_ s = p :: ns → value_at p (root_ s) = Some (mkValue (arrayV m) c0) →
  Forall (λ q : Z * Value, q.1 < i) m → commentsBefore_ s = [] →
  0 ≤ i → i + Z.of_nat (length (rest s)) < 2 ^ 31 →
  ∃ s', array_loop fuel i s = Done (true, s') ∧
    moved (S (length l)) (update_at p (λ _, mkValue (arrayV (m ++ array_of i vs)) c0) (root_ s)) s s'.

Definition members_ok : Prop := ∀ ms l tail s p ns name0 m c0,
  JMembers ms l → (S (length l) < fuel)%nat → rest s = l ++ x7d :: tail →
  nodes_ s = p :: ns → value_at p (root_ s) = Some (mkValue (objectV m) c0) →
  commentsBefore_ s = [] → Z.of_nat (length (rest s)) < 2 ^ 31 →
  ∃ s', object_loop fuel name0 s = Done (true, s') ∧
    moved (S (length l)) (update_at p (λ _, mkValue (objectV (foldl set_member m ms)) c0) (root_ s)) s s'.

(** Reading a value into an element: [st] leads to it in the container [A], which
    [B] is with the value put there. *)
Lemma read_element (Hok : value_ok) st A v l w tail s p ns :
  JText v l → (length l < fuel)%nat → rest s = w ++ l ++ tail → spaces w → ends_number tail →
  nodes_ s = p :: ns → value_at p (root_ s) = Some A → is_Some (value_at [st] A) →
  commentsBefore_ s = [] → Z.of_nat (length (rest s)) < 2 ^ 31 →
  ∃ s', (∀ B (k : bool → M B), (_ ← push_child st; ok ← readValue fuel; _ ← pop_node; k ok) s = k true s') ∧
    moved (length w + length l)
      (update_at p (λ _, update_at [st] (λ old, Value.assign old v) A) (root_ s)) s s'.
Proof.
  intros Ht Hf Hr Hw Htl Hn Hv [old Ho] Hc Hlen.
  set (s2 := set_nodes ((p ++ [st]) :: p :: ns) s).
  destruct (Hok v l w tail s2 (p ++ [st]) (p :: ns) old) as (s3 & Hread & Hm); try done.
  { cbn [root_ set_nodes s2]. rewrite value_at_app, Hv. exact Ho. }
  exists (set_nodes (p :: ns) s3). split.
  - intros B k. unfold push_child, top_node, modR, pop_node, mbind, M_bind. rewrite Hn. cbn match. rewrite Hn.
    fold s2. rewrite Hread. unfold modR. by rewrite (moved_nodes _ _ _ _ Hm).
  - destruct Hm. split; try done; cbn.
    + rewrite moved_root0, update_at_app. cbn [root_ set_nodes s2].
      apply update_at_ext. intros v0 Hv0. by assert (v0 = A) as -> by congruence.
Qed.

Lemma subscript_new {K} `{KeyOrder K} (g : Value → Value) k (m : list (K * Value)) :
  Forall (λ q, key_lt q.1 k = true) m →
  StdMap.subscript k Value.null m = m ++ [(k, Value.null)] ∧
  StdMap.update g k (m ++ [(k, Value.null)]) = m ++ [(k, g Value.null)].
Proof.
  intros Hm. rewrite <-!StdMap.assign_snoc by done. rewrite StdMap.update_assign. split; [|done].
  unfold StdMap.subscript, StdMap.insert. by rewrite StdMap.find_above.
Qed.

(** Reading the element [i] of an array. *)
Lemma read_item (Hok : value_ok) v l w tail s p ns i m c0 :
  JText v l → (length l < fuel)%nat → rest s = w ++ l ++ tail → spaces w → ends_number tail →
  nodes_ s = p :: ns → value_at p (root_ s) = Some (mkValue (arrayV m) c0) →
  Forall (λ q : Z * Value, q.1 < i) m → commentsBefore_ s = [] →
  0 ≤ i → i + Z.of_nat (length (rest s)) < 2 ^ 31 →
  ∃ s', (∀ B (k : bool → M B),
      (_ ← subscript_current (Value.resolve_index (u32 i)); _ ← push_child (SIndex (u32 i));
       ok ← readValue fuel; _ ← pop_node; k ok) s = k true s') ∧
    moved (length w + length l)
      (update_at p (λ _, mkValue (arrayV (m ++ [(i, v)])) c0) (root_ s)) s s'.
Proof.
  intros Ht Hf Hr Hw Htl Hn Hv Hm Hc Hi Hlen.
  assert (Hi' : u32 i = i ∧ s32 i = i) by (split; [apply wrapu_small; lia|apply wraps_small; lia]).
  destruct Hi' as [Hu Hs].
  assert (Hlt : Forall (λ q : Z * Value, key_lt q.1 i = true) m)
    by (eapply Forall_impl; [exact Hm|]; intros q Hq; cbn in *; lia).
  destruct (subscript_new (λ old, Value.assign old v) i m Hlt) as [Hsub Hupd].
  set (A := mkValue (arrayV (m ++ [(i, Value.null)])) c0).
  set (s1 := set_root (update_at p (λ _, A) (root_ s)) s).
  assert (HA : value_at [SIndex i] A = Some Value.null).
  { cbn. rewrite Hs, <-StdMap.assign_snoc by done. by rewrite StdMap.find_assign_eq. }
  destruct (read_element Hok (SIndex i) A v l w tail s1 p ns) as (s' & Hk & Hmv); try done.
  { cbn [s1 root_ set_root]. by rewrite (value_at_update p _ _ _ Hv). }
  { change (rest s1) with (rest s). lia. }
  exists s'. split.
  - intros B k. rewrite Hu. erewrite M_bind_eq; [apply Hk|].
    apply (subscript_current_spec _ s p ns _ _ Hn Hv). unfold Value.resolve_index; cbn. by rewrite Hs, Hsub.
  - destruct Hmv. split; try done. rewrite moved_root0. cbn [s1 root_ set_root].
    rewrite update_at_update. cbn [update_at]. unfold Value.update_index.
    cbn [Value.holder Value.comments A]. rewrite Hs, Hupd.
    by rewrite assign_null by by eapply text_no_comments.
Qed.

(** Reading the member [name] of an object. *)
Lemma read_member (Hok : value_ok) v l w tail s p ns name m c0 :
  JText v l → (length l < fuel)%nat → rest s = w ++ l ++ tail → spaces w → ends_number tail →
  nodes_ s = p :: ns → value_at p (root_ s) = Some (mkValue (objectV m) c0) →
  commentsBefore_ s = [] → Z.of_nat (length (rest s)) < 2 ^ 31 →
  ∃ s', (∀ B (k : bool → M B),
      (_ ← subscript_current (Value.resolveReference name); _ ← push_child (SKey name);
       ok ← readValue fuel; _ ← pop_node; k ok) s = k true s') ∧
    moved (length w + length l)
      (update_at p (λ _, mkValue (objectV (set_member m (name, v))) c0) (root_ s)) s s'.
Proof.
  intros Ht Hf Hr Hw Htl Hn Hv Hc Hlen.
  set (A := mkValue (objectV (StdMap.subscript (c_str name) Value.null m)) c0).
  set (s1 := set_root (update_at p (λ _, A) (root_ s)) s).
  assert (HA : is_Some (value_at [SKey name] A)).
  { cbn. unfold StdMap.subscript, StdMap.insert. destruct (StdMap.find (c_str name) m) eqn:E;
      [rewrite E|rewrite StdMap.find_assign_eq]; eauto. }
  destruct (read_element Hok (SKey name) A v l w tail s1 p ns) as (s' & Hk & Hmv); try done.
  { cbn [s1 root_ set_root]. by rewrite (value_at_update p _ _ _ Hv). }
  exists s'. split.
  - intros B k. erewrite M_bind_eq; [apply Hk|].
    by apply (subscript_current_spec _ s p ns _ _ Hn Hv).
  - destruct Hmv. split; try done. rewrite moved_root0. cbn [s1 root_ set_root].
    by rewrite update_at_update.
Qed.
End descent.

Lemma spaces_punctuation w c l : spaces w → number_char c = false → ends_number (w ++ c :: l).
Proof. intros Hw Hc. apply ends_number_spaces; [done|]. by apply ends_number_cons. Qed.

Lemma items_step fuel : value_ok fuel → items_ok fuel → items_ok (S fuel).
Proof.
  intros Hv Hit vs l tail s p ns i m c0 Hvs Hf Hr Hn Hat Hm Hc Hi Hlen.
  assert (Hnext : int32 (i + 1) = Done (i + 1)).
  { apply int32_ok. unfold INT_MIN, INT_MAX. rewrite Hr, length_app in Hlen. cbn [length] in Hlen. lia. }
  destruct Hvs as [w v l w' Hw Ht Hw'|w v l w' vs l' Hw Ht Hw' Hvs];
    pose proof (text_nonempty _ _ Ht) as Hne.
  - rewrite !length_app in Hf. rewrite <-!app_assoc in Hr.
    destruct (read_item fuel Hv v l w (w' ++ x5d :: tail) s p ns i m c0) as (s1 & Hk & Hm1);
      try done; [lia|by apply spaces_punctuation|].
    assert (Hr1 : rest s1 = w' ++ x5d :: tail).
    { apply (moved_rest_app _ _ _ _ (w ++ l) _ Hm1); [by rewrite <-app_assoc|by rewrite length_app]. }
    exists (advance (S (length w')) s1). split.
    + cbn [array_loop]. rewrite (M_lift_eq _ _ _ _ Hnext). etrans; [apply Hk|]. cbn [negb].
      rewrite (M_bind_eq _ _ _ _ _ (readToken_punctuation s1 w' x5d tail _ Hr1 Hw' eq_refl)). done.
    + rewrite !length_app. replace (S _) with ((length w + length l) + S (length w'))%nat by lia.
      eapply moved_trans; [exact Hm1|]. cbn [array_of imap]. rewrite Z.add_0_r.
      rewrite <-(moved_root _ _ _ _ Hm1). apply moved_advance.
  - rewrite !length_app in Hf. cbn [length] in Hf. rewrite <-!app_assoc in Hr. cbn [app] in Hr.
    destruct (read_item fuel Hv v l w (w' ++ x2c :: l' ++ x5d :: tail) s p ns i m c0) as (s1 & Hk & Hm1);
      try done; [lia|by apply spaces_punctuation|].
    assert (Hr1 : rest s1 = w' ++ x2c :: l' ++ x5d :: tail).
    { apply (moved_rest_app _ _ _ _ (w ++ l) _ Hm1); [by rewrite <-app_assoc|by rewrite length_app]. }
    set (s2 := advance (S (length w')) s1).
    assert (Hm2 : moved ((length w + length l) + S (length w')) (root_ s1) s s2).
    { eapply moved_trans; [exact Hm1|apply moved_advance]. }
    assert (Hr2 : rest s2 = l' ++ x5d :: tail) by by apply rest_cons in Hr1.
    assert (Hlen2 : (length (rest s2) + 2 ≤ length (rest s))%nat)
      by (rewrite Hr, Hr2, !length_app; cbn [length]; rewrite !length_app; cbn [length]; lia).
    destruct (Hit vs l' tail s2 p ns (i + 1) (m ++ [(i, v)]) c0) as (s3 & Hl & Hm3); try done.
    { lia. }
    { by rewrite (moved_nodes _ _ _ _ Hm2). }
    { rewrite (moved_root _ _ _ _ Hm2), (moved_root _ _ _ _ Hm1). by rewrite (value_at_update p _ _ _ Hat). }
    { apply Forall_app; split; [eapply Forall_impl; [exact Hm|]; cbn; lia|]. repeat constructor. cbn. lia. }
    { by rewrite (moved_before _ _ _ _ Hm2). }
    { lia. } { lia. }
    exists s3. split.
    + cbn [array_loop]. rewrite (M_lift_eq _ _ _ _ Hnext). etrans; [apply Hk|]. cbn [negb].
      rewrite (M_bind_eq _ _ _ _ _ (readToken_punctuation s1 w' x2c _ _ Hr1 Hw' eq_refl)).
      fold s2. unfold skip_comment_token. cbn -[array_loop wraps]. unfold mbind, M_bind, mret, M_ret.
      exact Hl.
    + replace (S _) with ((length w + length l + S (length w')) + S (length l'))%nat
        by (rewrite !length_app; cbn [length]; lia).
      eapply moved_trans; [exact Hm2|]. destruct Hm3. split; try done.
      rewrite moved_root0, (moved_root _ _ _ _ Hm2), (moved_root _ _ _ _ Hm1), update_at_update.
      apply update_at_ext. intros _ _. rewrite <-app_assoc. do 3 f_equal.
      unfold array_of. cbn [imap app]. rewrite Z.add_0_r. f_equal.
      apply imap_ext. intros j x _. cbn. f_equal. lia.
Qed.

Lemma decodeString_text_spec s w name n l s' :
  rest s = w ++ x22 :: n ++ x22 :: l → StringText name n → document_ s' = document_ s →
  decodeString_text (mkToken tokenString (current_ s + length w) (current_ s + length w + (2 + length n))) s' =
    Done (Some name, s').
Proof.
  intros Hr Hn Hd. unfold decodeString_text. cbn [start_ end_].
  assert (Hsl : slice (current_ s + length w + 1) (current_ s + length w + (2 + length n) - 1) s' = n).
  { pose proof (slice_token s (w ++ [x22]) n (x22 :: l) s') as Hs. rewrite length_app in Hs. cbn [length] in Hs.
    rewrite <-Hs at 2; [|by rewrite <-app_assoc|done]. f_equal; lia. }
  unfold getR, lift, mbind, M_bind, mret, M_ret. rewrite Hsl.
  rewrite (decode_loop_spec name n) by (done || lia). done.
Qed.

Lemma skip_comment_token_other t s :
  type_ t ≠ tokenComment → skip_comment_token t s = Done (t, s).
Proof. intros Ht. unfold skip_comment_token. by rewrite decide_False. Qed.

(** A member name, the colon, and the value. *)
Lemma member_head fuel w name n w1 w2 v l tail s p ns m c0 :
  value_ok fuel → spaces w → StringText name n → spaces w1 → spaces w2 → JText v l →
  (length l < fuel)%nat → rest s = w ++ x22 :: n ++ x22 :: w1 ++ x3a :: w2 ++ l ++ tail →
  ends_number tail → nodes_ s = p :: ns → value_at p (root_ s) = Some (mkValue (objectV m) c0) →
  commentsBefore_ s = [] → Z.of_nat (length (rest s)) < 2 ^ 31 →
  ∃ s', moved (length (w ++ x22 :: n ++ x22 :: w1 ++ x3a :: w2 ++ l))
      (update_at p (λ _, mkValue (objectV (set_member m (name, v))) c0) (root_ s)) s s' ∧
    rest s' = tail ∧ ∀ name0,
    object_loop (S fuel) name0 s =
      (comma ← readToken;
       if bool_decide (type_ comma ∈ [tokenObjectEnd; tokenArraySeparator; tokenComment])
       then
         comma ← skip_comment_token comma;
         if decide (type_ comma = tokenObjectEnd) then mret true
         else object_loop fuel name
       else addErrorAndRecover (bs "Missing ',' or '}' in object declaration") comma tokenObjectEnd) s'.
Proof.
  intros Hv Hw Hn Hw1 Hw2 Ht Hf Hr Htl Hns Hat Hc Hlen.
  set (len := (length w + (2 + length n))%nat). set (s1 := advance len s).
  assert (Hr1 : rest s1 = w1 ++ x3a :: w2 ++ l ++ tail).
  { apply (moved_rest_app len (root_ s) s s1 (w ++ x22 :: n ++ [x22])); [apply moved_advance| |].
    - rewrite Hr. by apps.
    - unfold len. lengths. lia. }
  set (s2 := advance (S (length w1)) s1).
  assert (Hr2 : rest s2 = w2 ++ l ++ tail) by by apply rest_cons in Hr1.
  assert (Hm2 : moved (len + S (length w1)) (root_ s) s s2)
    by exact (moved_trans _ _ _ _ s s1 s2 (moved_advance _ _) (moved_advance _ _)).
  destruct (read_member fuel Hv v l w2 tail s2 p ns name m c0) as (s3 & Hk & Hm3); try done.
  { assert (length (rest s2) ≤ length (rest s))%nat; [|lia].
    rewrite (moved_rest _ _ _ _ Hm2), length_drop. lia. }
  exists s3. split_and!.
  - replace (length _) with ((len + S (length w1)) + (length w2 + length l))%nat.
    + eapply moved_trans; [exact Hm2|exact Hm3].
    + unfold len. lengths. lia.
  - apply (moved_rest_app _ _ _ _ (w2 ++ l) _ Hm3); [by rewrite <-app_assoc|by rewrite length_app].
  - intros name0. cbn [object_loop].
    rewrite (M_bind_eq _ _ _ _ _ (readToken_string s w name n _ Hr Hw Hn)). fold len. fold s1.
    rewrite (M_bind_eq _ _ _ _ _ (skip_comment_token_other (mkToken tokenString _ _) s1 ltac:(done))).
    cbn [type_]. rewrite bool_decide_false by done. cbn [andb]. rewrite decide_True by done.
    rewrite (M_bind_eq _ _ _ _ _ (decodeString_text_spec s w name n _ s1 Hr Hn eq_refl)).
    rewrite (M_bind_eq _ _ _ _ _ (readToken_punctuation s1 w1 x3a _ _ Hr1 Hw1 eq_refl)).
    cbn [type_]. rewrite decide_True by done. fold s2. etrans; [apply Hk|]. done.
Qed.

Lemma members_step fuel : value_ok fuel → members_ok fuel → members_ok (S fuel).
Proof.
  intros Hv Hms ms l tail s p ns name0 m c0 Ht Hf Hr Hn Hat Hc Hlen.
  destruct Ht as [w name n w1 w2 v l w' Hw Hnm Hw1 Hw2 Ht Hw'|w name n w1 w2 v l w' ms l' Hw Hnm Hw1 Hw2 Ht Hw' Hmems];
    pose proof (text_nonempty _ _ Ht) as Hne.
  - set (h := w ++ x22 :: n ++ x22 :: w1 ++ x3a :: w2 ++ l).
    assert (Eh : w ++ x22 :: n ++ x22 :: w1 ++ x3a :: w2 ++ l ++ w' = h ++ w')
      by (unfold h; by apps).
    rewrite Eh in *. rewrite <-app_assoc in Hr.
    destruct (member_head fuel w name n w1 w2 v l (w' ++ x7d :: tail) s p ns m c0)
      as (s1 & Hm1 & Hr1 & Hk); try done.
    { unfold h in Hf. lengths_in Hf. lia. }
    { rewrite Hr. unfold h. by apps. }
    { by apply spaces_punctuation. }
    exists (advance (S (length w')) s1). split.
    + rewrite Hk. by rewrite (M_bind_eq _ _ _ _ _ (readToken_punctuation s1 w' x7d tail _ Hr1 Hw' eq_refl)).
    + rewrite length_app. replace (S _) with (length h + S (length w'))%nat by lia.
      eapply moved_trans; [exact Hm1|]. cbn [foldl]. rewrite <-(moved_root _ _ _ _ Hm1).
      apply moved_advance.
  - set (h := w ++ x22 :: n ++ x22 :: w1 ++ x3a :: w2 ++ l).
    assert (Eh : w ++ x22 :: n ++ x22 :: w1 ++ x3a :: w2 ++ l ++ w' ++ x2c :: l' = h ++ w' ++ x2c :: l')
      by (unfold h; by apps).
    rewrite Eh in *. rewrite <-!app_assoc in Hr. cbn [app] in Hr.
    destruct (member_head fuel w name n w1 w2 v l (w' ++ x2c :: l' ++ x7d :: tail) s p ns m c0)
      as (s1 & Hm1 & Hr1 & Hk); try done.
    { unfold h in Hf. lengths_in Hf. lia. }
    { rewrite Hr. unfold h. by apps. }
    { by apply spaces_punctuation. }
    set (s2 := advance (S (length w')) s1).
    assert (Hm2 : moved (length h + S (length w')) (root_ s1) s s2)
      by (eapply moved_trans; [exact Hm1|apply moved_advance]).
    assert (Hr2 : rest s2 = l' ++ x7d :: tail) by by apply rest_cons in Hr1.
    destruct (Hms ms l' tail s2 p ns name (set_member m (name, v)) c0) as (s3 & Hl & Hm3); try done.
    { rewrite !length_app in Hf. cbn [length] in Hf. lia. }
    { by rewrite (moved_nodes _ _ _ _ Hm2). }
    { rewrite (moved_root _ _ _ _ Hm2), (moved_root _ _ _ _ Hm1). by rewrite (value_at_update p _ _ _ Hat). }
    { by rewrite (moved_before _ _ _ _ Hm2). }
    { rewrite (moved_rest _ _ _ _ Hm2), length_drop. lia. }
    exists s3. split.
    + rewrite Hk, (M_bind_eq _ _ _ _ _ (readToken_punctuation s1 w' x2c _ _ Hr1 Hw' eq_refl)).
      fold s2. exact Hl.
    + replace (S _) with ((length h + S (length w')) + S (length l'))%nat
        by (rewrite !length_app; cbn [length]; lia).
      eapply moved_trans; [exact Hm2|]. destruct Hm3. split; try done.
      by rewrite moved_root0, (moved_root _ _ _ _ Hm2), (moved_root _ _ _ _ Hm1), update_at_update.
Qed.

(** What [readValue] does once its token is read. *)
Lemma readValue_token fuel s t s1 :
  readToken s = Done (t, s1) → type_ t ≠ tokenComment → commentsBefore_ s1 = [] →
  readValue (S fuel) s =
    (let finish (m : M bool) : M bool := ok ← m; _ ← remember_value; mret ok in
     match type_ t with
     | tokenObjectBegin =>
         finish (_ ← assign_current (Value.of_type objectValue); object_loop fuel [])
     | tokenArrayBegin =>
         finish (_ ← assign_current (Value.of_type arrayValue);
                 _ ← skipSpaces;
                 c ← getR peekc;
                 if decide (c = x5d) then _ ← readToken; mret true
                 else array_loop fuel 0)
     | tokenNumber => finish (decodeNumber t)
     | tokenString => finish (decodeString t)
     | tokenTrue => finish (_ ← assign_current (Value.of_bool true); mret true)
     | tokenFalse => finish (_ ← assign_current (Value.of_bool false); mret true)
     | tokenNull => finish (_ ← assign_current Value.null; mret true)
     | _ => addError (bs "Syntax error: value, object or array expected.") t None
     end) s1.
Proof.
  intros Hr Ht Hc. cbn [readValue].
  rewrite (M_bind_eq _ _ _ _ _ (skipCommentTokens_token _ _ _ Hr Ht)).
  by rewrite (M_bind_eq _ _ _ _ _ (attach_nothing _ Hc)).
Qed.

(** The end of a container: the loop, then the bookkeeping. *)
Lemma finish_moved (m : M bool) n r s sa s1 p ns :
  m sa = Done (true, s1) → moved n r s s1 → nodes_ s = p :: ns →
  ∃ s', (ok ← m; _ ← remember_value; mret ok) sa = Done (true, s') ∧ moved n r s s'.
Proof.
  intros Hm Hmv Hn. rewrite (M_bind_eq _ _ _ _ _ Hm).
  destruct (remember_value_spec s1 p ns) as (s2 & Hs2 & Hm2); [by rewrite (moved_nodes _ _ _ _ Hmv)|].
  exists s2. rewrite (M_bind_eq _ _ _ _ _ Hs2). split; [done|].
  pose proof (moved_trans _ _ _ _ _ _ _ Hmv Hm2) as Ht. rewrite Nat.add_0_r in Ht.
  by rewrite (moved_root _ _ _ _ Hmv) in Ht.
Qed.

(** A scalar: its token is read and its value assigned. *)
Lemma scalar_step fuel s t v w len p ns :
  readToken s = Done (t, advance (w + len) s) →
  (∃ m, readValue (S fuel) s = (ok ← m; _ ← remember_value; mret ok) (advance (w + len) s) ∧
        m (advance (w + len) s) = (_ ← assign_current v; mret true) (advance (w + len) s)) →
  nodes_ s = p :: ns →
  ∃ s', readValue (S fuel) s = Done (true, s') ∧
    moved (w + len) (update_at p (λ old, Value.assign old v) (root_ s)) s s'.
Proof.
  intros Hr (m & Hv & Hm') Hn.
  destruct (finish_assign m v (advance (w + len) s) p ns Hn Hm') as (s' & Hf & Hmv).
  exists s'. rewrite Hv. split; [done|].
  rewrite <-(Nat.add_0_r (w + len)). exact (moved_trans _ _ _ _ _ _ _ (moved_advance _ _) Hmv).
Qed.

Lemma word_value fuel s w word v t tail p ns :
  rest s = w ++ word ++ tail → spaces w → nodes_ s = p :: ns → commentsBefore_ s = [] →
  (word, t, v) ∈ [(bs "null", tokenNull, Value.null); (bs "true", tokenTrue, Value.of_bool true);
                  (bs "false", tokenFalse, Value.of_bool false)] →
  ∃ s', readValue (S fuel) s = Done (true, s') ∧
    moved (length w + length word) (update_at p (λ old, Value.assign old v) (root_ s)) s s'.
Proof.
  intros Hr Hw Hn Hc Hin.
  assert (Ht : readToken s = Done (mkToken t (current_ s + length w) (current_ s + length w + length word),
                                   advance (length w + length word) s) ∧ t ≠ tokenComment).
  { repeat (apply elem_of_cons in Hin as [[= -> -> ->]|Hin]); [..|by apply elem_of_nil in Hin];
      (split; [eapply readToken_word; [exact Hr|exact Hw|]; rewrite !elem_of_cons; auto|done]). }
  destruct Ht as [Ht Htc]. eapply scalar_step; [exact Ht| |exact Hn].
  eexists. split; [|reflexivity].
  rewrite (readValue_token _ _ _ _ Ht Htc Hc). cbn [type_].
  repeat (apply elem_of_cons in Hin as [[= -> -> ->]|Hin]); [done..|by apply elem_of_nil in Hin].
Qed.

Lemma number_value fuel s w neg ds v tail p ns :
  rest s = w ++ number_text neg ds ++ tail → spaces w → nodes_ s = p :: ns → commentsBefore_ s = [] →
  Forall (λ c, is_digit c = true) ds → ds ≠ [] → int_value neg (decimal_value ds) = Some v →
  ends_number tail →
  ∃ s', readValue (S fuel) s = Done (true, s') ∧
    moved (length w + length (number_text neg ds)) (update_at p (λ old, Value.assign old v) (root_ s)) s s'.
Proof.
  intros Hr Hw Hn Hc Hds Hne Hv Htl.
  pose proof (readToken_number s w neg ds tail Hr Hw Hds Hne Htl) as Ht. cbn zeta in Ht.
  eapply scalar_step; [exact Ht| |exact Hn]. eexists. split.
  - by rewrite (readValue_token _ _ _ _ Ht).
  - rewrite (decodeNumber_eq _ _ neg ds); [by rewrite Hv| |done]. by apply (slice_token s w _ tail).
Qed.

Lemma string_value fuel s w name n tail p ns :
  rest s = w ++ x22 :: n ++ x22 :: tail → spaces w → nodes_ s = p :: ns → commentsBefore_ s = [] →
  StringText name n →
  ∃ s', readValue (S fuel) s = Done (true, s') ∧
    moved (length w + (2 + length n))
      (update_at p (λ old, Value.assign old (Value.of_string name)) (root_ s)) s s'.
Proof.
  intros Hr Hw Hn Hc Hs.
  pose proof (readToken_string s w name n tail Hr Hw Hs) as Ht. cbn zeta in Ht.
  eapply scalar_step; [exact Ht| |exact Hn]. eexists. split.
  - by rewrite (readValue_token _ _ _ _ Ht).
  - unfold decodeString.
    by rewrite (M_bind_eq _ _ _ _ _ (decodeString_text_spec s w name n tail (advance _ s) Hr Hs eq_refl)).
Qed.

Lemma text_head v l : JText v l → ∃ c l', l = c :: l' ∧ is_space c = false ∧ c ≠ x5d.
Proof.
  destruct 1 as [| | |neg ds v Hds Hne _|s l _|w _|vs l _|w _|ms l _]; try (eexists _, _; split; [done|done]).
  destruct neg; [eexists _, _; split; [done|done]|]. destruct Hds as [|c ds Hc _]; [done|].
  exists c, ds. split; [done|]. destruct c; (discriminate Hc || done).
Qed.

(** The white space in front of the first element. *)
Lemma items_strip vs l :
  JItems vs l → ∃ w c l', l = w ++ c :: l' ∧ spaces w ∧ JItems vs (c :: l') ∧
    is_space c = false ∧ c ≠ x5d.
Proof.
  destruct 1 as [w v l w' Hw Ht Hw'|w v l w' vs l' Hw Ht Hw' Hvs];
    destruct (text_head _ _ Ht) as (c & t & -> & Hc & Hc').
  - exists w, c, (t ++ w'). split_and!; try done. apply (items_last [] v (c :: t) w'); [constructor|done..].
  - exists w, c, (t ++ w' ++ x2c :: l'). split_and!; try done.
    apply (items_more [] v (c :: t) w' vs l'); [constructor|done..].
Qed.

Section containers.
Context (fuel : nat) (s : Reader) (w tail : bytes) (p : path) (ns : list path) (old : Value).
Context (Hw : spaces w) (Hn : nodes_ s = p :: ns) (Hat : value_at p (root_ s) = Some old).
Context (Hc : commentsBefore_ s = []) (Hlen : Z.of_nat (length (rest s)) < 2 ^ 31).

(** The state after the opening bracket, with the container emptied. *)
Definition opened (h : ValueHolder) : Reader :=
  set_root (update_at p (λ old, Value.assign old (Value.of_holder h)) (root_ s))
    (advance (S (length w)) s).

Lemma opened_at h : value_at p (root_ (opened h)) = Some (mkValue h (Value.comments old)).
Proof. cbn. by rewrite (value_at_update p _ _ _ Hat). Qed.

Lemma opened_moved h n s1 h' :
  moved n (update_at p (λ _, mkValue h' (Value.comments old)) (root_ (opened h))) (opened h) s1 →
  moved (S (length w) + n) (update_at p (λ old, Value.assign old (Value.of_holder h')) (root_ s)) s s1.
Proof.
  intros Hm. assert (Ho : moved (S (length w)) (root_ (opened h)) s (opened h)) by by split.
  pose proof (moved_trans _ _ _ _ _ _ _ Ho Hm) as Ht.
  replace (update_at p (λ old, Value.assign old (Value.of_holder h')) (root_ s))
    with (update_at p (λ _, mkValue h' (Value.comments old)) (root_ (opened h))); [done|].
  cbn. rewrite update_at_update. apply update_at_ext. intros v Hv. simplify_eq. done.
Qed.

Lemma opened_assign h :
  assign_current (Value.of_holder h) (advance (S (length w)) s) = Done (tt, opened h).
Proof. exact (assign_current_spec _ (advance (S (length w)) s) p ns Hn). Qed.

Lemma opened_rest c l h : rest s = w ++ c :: l → rest (opened h) = l.
Proof. intros Hr. change (rest (opened h)) with (rest (advance (S (length w)) s)). by apply rest_cons in Hr. Qed.

Lemma rest_shrinks c l : rest s = w ++ c :: l → Z.of_nat (length l) < 2 ^ 31.
Proof. intros Hr. rewrite Hr in Hlen. revert Hlen. lengths. lia. Qed.

Lemma opened_root h :
  root_ (opened h) = update_at p (λ _, mkValue h (Value.comments old)) (root_ (opened h)).
Proof.
  cbn. rewrite update_at_update. apply update_at_ext. intros v Hv. simplify_eq. done.
Qed.

(** Closing an empty container. *)
Lemma empty_moved h w' (c c' : byte) :
  moved (length w + length (c :: w' ++ [c']))
    (update_at p (λ old, Value.assign old (Value.of_holder h)) (root_ s)) s
    (advance (S (length w')) (opened h)).
Proof.
  replace (_ + _)%nat with (S (length w) + S (length w'))%nat by (lengths; lia).
  apply (opened_moved h). rewrite <-opened_root. apply moved_advance.
Qed.

Lemma empty_array_value w' :
  spaces w' → rest s = w ++ x5b :: w' ++ x5d :: tail →
  ∃ s', readValue (S fuel) s = Done (true, s') ∧
    moved (length w + length (x5b :: w' ++ [x5d]))
      (update_at p (λ old, Value.assign old (Value.of_holder (arrayV []))) (root_ s)) s s'.
Proof.
  intros Hw' Hr. pose proof (readToken_punctuation s w x5b _ _ Hr Hw eq_refl) as Ht.
  rewrite (readValue_token _ _ _ _ Ht ltac:(done) Hc). cbn [type_]. cbv zeta.
  pose proof (opened_rest _ _ (arrayV []) Hr) as Hr0.
  eapply finish_moved; [|apply empty_moved|exact Hn].
  rewrite (M_bind_eq _ _ _ _ _ (opened_assign (arrayV []) : assign_current (Value.of_type arrayValue) _ = _)).
  rewrite (M_bind_eq _ _ _ _ _ (skipSpaces_spec _ w' (x5d :: tail) Hr0 Hw' ltac:(by intros ? ? [= <- <-]))).
  pose proof (rest_app _ _ _ Hr0) as Hr1.
  unfold getR, peekc. unfold mbind at 1, M_bind at 1. rewrite Hr1. cbn [head default].
  rewrite decide_True by done.
  rewrite (M_bind_eq _ _ _ _ _ (readToken_punctuation _ [] x5d tail _ Hr1 ltac:(constructor) eq_refl)).
  rewrite advance_advance. cbn [length]. by rewrite Nat.add_1_r.
Qed.

Lemma empty_object_value w' :
  spaces w' → rest s = w ++ x7b :: w' ++ x7d :: tail → (0 < fuel)%nat →
  ∃ s', readValue (S fuel) s = Done (true, s') ∧
    moved (length w + length (x7b :: w' ++ [x7d]))
      (update_at p (λ old, Value.assign old (Value.of_holder (objectV []))) (root_ s)) s s'.
Proof.
  intros Hw' Hr Hf. pose proof (readToken_punctuation s w x7b _ _ Hr Hw eq_refl) as Ht.
  rewrite (readValue_token _ _ _ _ Ht ltac:(done) Hc). cbn [type_]. cbv zeta.
  pose proof (opened_rest _ _ (objectV []) Hr) as Hr0.
  eapply finish_moved; [|apply empty_moved|exact Hn].
  rewrite (M_bind_eq _ _ _ _ _ (opened_assign (objectV []) : assign_current (Value.of_type objectValue) _ = _)). destruct fuel as [|f]; [lia|]. cbn [object_loop].
  rewrite (M_bind_eq _ _ _ _ _ (readToken_punctuation _ w' x7d tail _ Hr0 Hw' eq_refl)).
  by rewrite (M_bind_eq _ _ _ _ _ (skip_comment_token_other (mkToken tokenObjectEnd _ _) _ ltac:(done))).
Qed.

Lemma array_value vs l :
  items_ok fuel → JItems vs l → (S (length l) < fuel)%nat → rest s = w ++ x5b :: l ++ x5d :: tail →
  ∃ s', readValue (S fuel) s = Done (true, s') ∧
    moved (length w + length (x5b :: l ++ [x5d]))
      (update_at p (λ old, Value.assign old (Value.of_holder (arrayV (array_of 0 vs)))) (root_ s)) s s'.
Proof.
  intros Hit Hvs Hf Hr. pose proof (readToken_punctuation s w x5b _ _ Hr Hw eq_refl) as Ht.
  rewrite (readValue_token _ _ _ _ Ht ltac:(done) Hc). cbn [type_]. cbv zeta.
  pose proof (opened_rest _ _ (arrayV []) Hr) as Hr0. apply rest_shrinks in Hr as Hsh.
  destruct (items_strip vs l Hvs) as (w0 & c & l0 & -> & Hw0 & Hvs0 & Hcs & Hc5).
  rewrite <-app_assoc in Hr0, Hsh. lengths_in Hf.
  set (s1 := advance (length w0) (opened (arrayV []))).
  assert (Hr1 : rest s1 = (c :: l0) ++ x5d :: tail) by by apply rest_app.
  destruct (Hit vs (c :: l0) tail s1 p ns 0 [] (Value.comments old) Hvs0) as (s2 & Hl & Hm2); try done.
  { cbn [length]. lia. } { apply opened_at. }
  { rewrite Hr1. revert Hsh. lengths. lia. }
  eapply (finish_moved _ _ _ _ _ s2); [| |exact Hn].
  - rewrite (M_bind_eq _ _ _ _ _ (opened_assign (arrayV []) : assign_current (Value.of_type arrayValue) _ = _)).
    rewrite (M_bind_eq _ _ _ _ _ (skipSpaces_spec _ w0 (c :: l0 ++ x5d :: tail) Hr0 Hw0 ltac:(by intros ? ? [= <- <-]))).
    fold s1. unfold getR, peekc. unfold mbind at 1, M_bind at 1. rewrite Hr1. cbn [head default app].
    rewrite decide_False by done. exact Hl.
  - replace (_ + _)%nat with (S (length w) + (length w0 + S (length (c :: l0))))%nat by (lengths; lia).
    apply (opened_moved (arrayV [])).
    exact (moved_trans _ _ _ _ _ s1 _ (moved_advance _ _) Hm2).
Qed.

Lemma object_value ms l :
  members_ok fuel → JMembers ms l → (S (length l) < fuel)%nat → rest s = w ++ x7b :: l ++ x7d :: tail →
  ∃ s', readValue (S fuel) s = Done (true, s') ∧
    moved (length w + length (x7b :: l ++ [x7d]))
      (update_at p (λ old, Value.assign old (Value.of_holder (objectV (object_of ms)))) (root_ s)) s s'.
Proof.
  intros Hms Ht' Hf Hr. pose proof (readToken_punctuation s w x7b _ _ Hr Hw eq_refl) as Ht.
  rewrite (readValue_token _ _ _ _ Ht ltac:(done) Hc). cbn [type_]. cbv zeta.
  pose proof (opened_rest _ _ (objectV []) Hr) as Hr0. apply rest_shrinks in Hr as Hsh.
  destruct (Hms ms l tail (opened (objectV [])) p ns [] [] (Value.comments old) Ht') as (s2 & Hl & Hm2);
    try done; [apply opened_at|by rewrite Hr0|].
  eapply (finish_moved _ _ _ _ _ s2); [| |exact Hn].
  - rewrite (M_bind_eq _ _ _ _ _ (opened_assign (objectV []) : assign_current (Value.of_type objectValue) _ = _)). exact Hl.
  - replace (_ + _)%nat with (S (length w) + S (length l))%nat by (lengths; lia).
    by apply (opened_moved (objectV [])).
Qed.
End containers.

Lemma value_step fuel : items_ok fuel → members_ok fuel → value_ok (S fuel).
Proof.
  intros Hit Hms v l w tail s p ns old Ht Hf Hr Hw Htl Hn Hat Hc Hlen.
  destruct Ht as [| | |neg ds v Hds Hne Hv|name n Hs|w' Hw'|vs l Hvs|w' Hw'|ms l Hmem].
  1-3: eapply word_value; try done; rewrite !elem_of_cons; eauto.
  - by eapply number_value.
  - replace (length (x22 :: n ++ [x22])) with (2 + length n)%nat by (lengths; lia).
    eapply string_value; try done. rewrite Hr. by apps.
  - eapply empty_array_value; try done. rewrite Hr. by apps.
  - eapply array_value; try done; [revert Hf; lengths; lia|rewrite Hr; by apps].
  - eapply empty_object_value; try done; [rewrite Hr; by apps|revert Hf; lengths; lia].
  - eapply object_value; try done; [revert Hf; lengths; lia|rewrite Hr; by apps].
Qed.

Lemma descent_ok fuel : value_ok fuel ∧ items_ok fuel ∧ members_ok fuel.
Proof.
  induction fuel as [|fuel (Hv & Hit & Hms)].
  - split_and!; repeat intro; lia.
  - split_and!; [by apply value_step|by apply items_step|by apply members_step].
Qed.

Lemma readToken_end s w :
  rest s = w → spaces w → ∃ t, readToken s = Done (t, advance (length w) s) ∧ type_ t = tokenEndOfStream.
Proof.
  intros Hr Hw. unfold readToken.
  rewrite (M_bind_eq _ _ _ _ _ (skipSpaces_spec s w [] ltac:(by rewrite app_nil_r) Hw ltac:(done))).
  assert (Hr' : rest (advance (length w) s) = []) by (apply rest_app; by rewrite app_nil_r).
  rewrite (M_bind_eq (getR current_) _ _ _ _ eq_refl).
  assert (Hc : getNextChar (advance (length w) s) = Done (x00, advance (length w) s))
    by (unfold getNextChar; by rewrite Hr').
  rewrite (M_bind_eq _ _ _ _ _ Hc). by eexists.
Qed.

(** ** The whole document *)

(** A reader with any features and with or without comments: the document is
    accepted when strictness allows its root. *)
Lemma parse_with_text v l w1 w2 features root cc :
  JText v l → spaces w1 → spaces w2 → szof (w1 ++ l ++ w2) < 2 ^ 31 →
  (strictRoot_ features = true → Value.type v = arrayValue ∨ Value.type v = objectValue) →
  ∃ s, parse_with features (w1 ++ l ++ w2) root cc = Done (true, s) ∧
    root_ s = Value.assign root v ∧ errors_ s = [].
Proof.
  intros Ht Hw1 Hw2 Hlen Hst. unfold parse_with, parse_body.
  set (doc := w1 ++ l ++ w2) in *. set (s0 := init features doc root cc).
  destruct (proj1 (descent_ok (parse_fuel doc)) v l w1 w2 s0 [] [] root) as (s1 & Hr & Hm); try done.
  { unfold parse_fuel, doc. lengths. lia. }
  { rewrite <-(app_nil_r w2). by apply ends_number_spaces. }
  rewrite (M_bind_eq _ _ _ _ _ Hr).
  assert (Hr1 : rest s1 = w2).
  { apply (moved_rest_app _ _ _ _ (w1 ++ l) _ Hm); [by apps|by rewrite length_app]. }
  destruct (readToken_end s1 w2 Hr1 Hw2) as (t & Ht1 & Ht2).
  rewrite (M_bind_eq _ _ _ _ _ (skipCommentTokens_token _ _ _ Ht1 ltac:(by rewrite Ht2))).
  destruct Hm as [Hf _ _ _ Hb He _ Hroot].
  exists (advance (length w2) s1). split; [|by split].
  unfold getR, mbind, M_bind, mret, M_ret. cbn. rewrite Hb, andb_false_r. cbn. rewrite Hf, Hroot. cbn.
  destruct (strictRoot_ features) eqn:Es; [|done]. cbn [andb].
  destruct (Hst eq_refl) as [Hty|Hty]; unfold Value.type in Hty;
    destruct v as [[] ?]; try discriminate Hty; reflexivity.
Qed.

(** C13. The parser is correct on the grammar: a text of value [v], surrounded by
    white space, is accepted and the root becomes [v] (its own comments apart),
    whatever the root was; and a strict reader, which reads no comments, gives
    the same for the text of an array or an object. *)
Theorem parse_text v l w1 w2 root :
  JText v l → spaces w1 → spaces w2 → szof (w1 ++ l ++ w2) < 2 ^ 31 →
  parse (w1 ++ l ++ w2) root = Done (true, Value.assign root v) ∧
  (Value.type v = arrayValue ∨ Value.type v = objectValue →
   ∃ s, parse_with Features_strictMode (w1 ++ l ++ w2) root false = Done (true, s) ∧
     root_ s = Value.assign root v ∧ errors_ s = []).
Proof.
  intros Ht Hw1 Hw2 Hlen. split; [|intros Hv; by apply parse_with_text].
  destruct (parse_with_text v l w1 w2 Features_all root true Ht Hw1 Hw2 Hlen) as (s & Hs & Hr & _); [done|].
  unfold parse. rewrite Hs, bind_ret_l. cbn. by rewrite Hr.
Qed.

(** ** What the writer writes *)

(** The values [FastWriter] writes texts of the grammar for: no reals and no
    null strings, integers the parser reads back, arrays without holes. *)
Inductive Plain : Value → Prop :=
  | plain_null : Plain Value.null
  | plain_bool b : Plain (Value.of_bool b)
  | plain_int i : - 2147483640 < i ≤ INT_MAX → Plain (Value.of_int i)
  | plain_uint u : INT_MAX < u < 4294967290 → Plain (Value.of_uint u)
  | plain_string s : x00 ∉ s → Plain (Value.of_holder (stringV (Some s)))
  | plain_array vs : Forall Plain vs → Z.of_nat (length vs) ≤ INT_MAX →
      Plain (Value.of_holder (arrayV (array_of 0 vs)))
  | plain_object m : StdMap.wf m → Forall (λ p, x00 ∉ p.1) m → Forall (λ p, Plain p.2) m →
      Plain (Value.of_holder (objectV m)).

(** Induction over the elements of containers. *)
Lemma Plain_rec (P : Value → Prop) :
  P Value.null → (∀ b, P (Value.of_bool b)) →
  (∀ i, - 2147483640 < i ≤ INT_MAX → P (Value.of_int i)) →
  (∀ u, INT_MAX < u < 4294967290 → P (Value.of_uint u)) →
  (∀ s, x00 ∉ s → P (Value.of_holder (stringV (Some s)))) →
  (∀ vs, Forall P vs → Z.of_nat (length vs) ≤ INT_MAX → P (Value.of_holder (arrayV (array_of 0 vs)))) →
  (∀ m, StdMap.wf m → Forall (λ p, x00 ∉ p.1) m → Forall (λ p, Plain p.2) m → Forall (λ p, P p.2) m →
     P (Value.of_holder (objectV m))) →
  ∀ v, Plain v → P v.
Proof.
  intros H1 H2 H3 H4 H5 H6 H7. fix IH 2. intros v [| | | | |vs Hvs Hl|m Hm Hk Hp]; [auto..| |].
  - apply H6; [|done]. clear Hl. induction Hvs; constructor; auto.
  - apply H7; [done..|]. clear Hm Hk. induction Hp; constructor; auto.
Qed.

Lemma hex_upper_value d : 0 ≤ d < 16 → hex_digit_value (hex_upper d) = Some d.
Proof.
  intros Hd. assert (Hn : ∃ n, (n < 16)%nat ∧ d = Z.of_nat n) by (exists (Z.to_nat d); lia).
  destruct Hn as (n & Hn & ->). do 16 (destruct n as [|n]; [reflexivity|]). lia.
Qed.

Lemma hex4_text v : 0 ≤ v < 65536 → Hex4 v (hex4 v).
Proof.
  intros Hv. unfold hex4.
  replace v with ((((v / 4096 mod 16) * 16 + v / 256 mod 16) * 16 + v / 16 mod 16) * 16 + v mod 16) at 1
    by (Z.to_euclidean_division_equations; lia).
  constructor; apply hex_upper_value, Z.mod_pos_bound; lia.
Qed.

Lemma control_code c :
  isControlCharacter c = true → 0 ≤ sb c < 65536 ∧ ¬ 55296 ≤ sb c ≤ 56319 ∧ codePointToUTF8 (sb c) = [c].
Proof.
  intros Hc. assert (Hr : 0 < sb c ≤ 31) by (unfold isControlCharacter in Hc; apply andb_prop in Hc; lia).
  split_and!; [lia..|]. destruct c; (discriminate Hc || reflexivity).
Qed.

Lemma escape_char_text c : CharText [c] (escape_char c).
Proof.
  unfold escape_char.
  do 7 (case_decide; [subst; apply char_escape; rewrite !elem_of_cons; auto 10|]).
  destruct (isControlCharacter c) eqn:E; [|by apply char_raw].
  apply control_code in E as (Hr & Hs & Hc). rewrite <-Hc at 1. by apply char_unicode; [apply hex4_text|].
Qed.

Lemma quoted_text s : ∃ n, valueToQuotedString s = x22 :: n ++ [x22] ∧ StringText s n.
Proof.
  unfold valueToQuotedString. destruct (negb _ && _) eqn:E.
  - exists s. split; [done|]. apply andb_prop in E as [E _]. apply negb_true_iff in E.
    induction s as [|c s IH]; [constructor|]. cbn [existsb] in E. apply orb_false_iff in E as [Hc Hs].
    apply (string_cons [c] [c]); [|by apply IH].
    apply bool_decide_eq_false in Hc. apply char_raw; intros ->; apply Hc; rewrite !elem_of_cons; auto.
  - exists (concat (map escape_char s)). split; [done|]. clear E.
    induction s as [|c s IH]; [constructor|]. apply (string_cons [c]); [apply escape_char_text|done].
Qed.

Lemma int_text i :
  - 2147483640 < i ≤ INT_MAX → JText (Value.of_int i) (valueToString_int i).
Proof.
  unfold INT_MAX. intros Hi. unfold valueToString_int, uintToString.
  assert (H : ∀ n, 0 ≤ n ≤ INT_MAX → u32 n = n) by (unfold INT_MAX; intros; apply wrapu_small; lia).
  unfold INT_MAX in H. destruct (Z.ltb_spec i 0).
  - rewrite wraps_small, H by lia. apply (text_int true); [apply decimal_digits; lia|apply decimal_nonempty; lia|].
    rewrite decimal_value_decimal by lia. unfold int_value. rewrite (proj2 (Z.ltb_lt _ _)) by lia.
    by rewrite Z.opp_involutive.
  - rewrite H by lia. apply (text_int false); [apply decimal_digits; lia|apply decimal_nonempty; lia|].
    rewrite decimal_value_decimal by lia. unfold int_value, INT_MAX. by rewrite (proj2 (Z.leb_le _ _)) by lia.
Qed.

Lemma uint_text u :
  INT_MAX < u < 4294967290 → JText (Value.of_uint u) (valueToString_uint u).
Proof.
  unfold INT_MAX. intros Hu.
  apply (text_int false (decimal u) (Value.of_uint u)); [apply decimal_digits; lia|apply decimal_nonempty; lia|].
  rewrite decimal_value_decimal by lia. unfold int_value, INT_MAX.
  rewrite (proj2 (Z.leb_gt _ _)), (proj2 (Z.ltb_lt _ _)) by lia. done.
Qed.

(** The elements of a container, separated by commas. *)
Definition joined (ts : list bytes) : bytes :=
  match ts with [] => [] | t :: ts => t ++ concat (map (cons x2c) ts) end.

Lemma joined_cons t t' ts : joined (t :: t' :: ts) = t ++ x2c :: joined (t' :: ts).
Proof. done. Qed.

Lemma items_joined vs ts : vs ≠ [] → Forall2 JText vs ts → JItems vs (joined ts).
Proof.
  intros Hne Hts. induction Hts as [|v t vs ts Ht Hts IH]; [done|].
  destruct Hts as [|v' t' vs ts Ht' Hts].
  - unfold joined. cbn. rewrite app_nil_r. rewrite <-(app_nil_r t).
    apply (items_last [] v t []); [constructor|done|constructor].
  - rewrite joined_cons. apply (items_more [] v t [] _ (joined (t' :: ts))); [constructor|done|constructor|].
    by apply IH.
Qed.

(** The text of a member. *)
Definition member_of (yaml : bool) (name t : bytes) : bytes :=
  valueToQuotedString name ++ (if yaml then bs ": " else bs ":") ++ t.

Lemma members_joined yaml (m : ObjectValues) ts :
  m ≠ [] → Forall2 (λ p t, JText p.2 t) m ts →
  JMembers m (joined (zip_with (member_of yaml) m.*1 ts)).
Proof.
  intros Hne Hts. induction Hts as [|[k v] t m ts Ht Hts IH]; [done|]. cbn [snd] in Ht.
  destruct (quoted_text k) as (n & Hq & Hn).
  assert (Hm : member_of yaml k t = x22 :: n ++ x22 :: x3a :: (if yaml then [x20] else []) ++ t).
  { unfold member_of. rewrite Hq. by destruct yaml; apps. }
  assert (Hw : spaces (if yaml then [x20] else [])) by (destruct yaml; repeat constructor).
  destruct Hts as [|[k' v'] t' m ts Ht' Hts].
  - unfold joined. cbn. rewrite app_nil_r, Hm. rewrite <-(app_nil_r t).
    apply (members_last [] k n [] (if yaml then [x20] else []) v t []); try done; constructor.
  - cbn [fmap list_fmap zip_with fst]. rewrite joined_cons, Hm.
    set (J := joined _). set (sp := if yaml then [x20] else []).
    replace (_ ++ x2c :: J) with ([] ++ x22 :: n ++ x22 :: [] ++ x3a :: sp ++ t ++ [] ++ x2c :: J)
      by by apps.
    apply members_more; try done; try constructor. by apply IH.
Qed.

Lemma object_of_sorted (m : ObjectValues) :
  StdMap.wf m → Forall (λ p, x00 ∉ p.1) m → Forall (λ p, Value.comments p.2 = None) m →
  object_of m = m.
Proof.
  intros Hw Hk Hc. unfold object_of.
  induction m as [|[k v] m IH] using rev_ind; [done|]. rewrite foldl_snoc.
  apply StdMap.wf_snoc in Hw as [Hw Hlt]. apply Forall_app in Hk as [Hk Hk1], Hc as [Hc Hc1].
  rewrite IH by done. apply Forall_inv in Hk1, Hc1. cbn in Hk1, Hc1. unfold set_member. cbn [fst snd].
  rewrite c_str_id by done.
  destruct (subscript_new (λ old, Value.assign old v) k m Hlt) as [-> ->]. by rewrite assign_null.
Qed.

Lemma array_of_cons i v vs : array_of i (v :: vs) = (i, v) :: array_of (i + 1) vs.
Proof.
  unfold array_of. cbn. rewrite Z.add_0_r. f_equal. apply imap_ext. intros. cbn. f_equal. lia.
Qed.

Lemma find_array_of i vs n : StdMap.find (i + Z.of_nat n) (array_of i vs) = vs !! n.
Proof.
  revert i n. induction vs as [|v vs IH]; intros i n; [done|]. rewrite array_of_cons. cbn.
  destruct n as [|n].
  - rewrite Z.add_0_r. by rewrite Z.ltb_irrefl.
  - rewrite (proj2 (Z.ltb_lt _ _)) by lia. specialize (IH (i + 1) n).
    replace (i + Z.of_nat (S n)) with (i + 1 + Z.of_nat n) by lia. exact IH.
Qed.

Lemma array_of_size vs :
  Z.of_nat (length vs) ≤ INT_MAX →
  Z.to_nat (s32 (Value.size (Value.of_holder (arrayV (array_of 0 vs))))) = length vs.
Proof.
  unfold INT_MAX. intros Hl. destruct vs as [|v vs _] using rev_ind; [done|].
  rewrite length_app in Hl. cbn in Hl. unfold array_of, Value.size; cbn [Value.holder Value.of_holder].
  rewrite imap_app, last_app. cbn. rewrite Nat.add_0_r.
  rewrite (wrapu_small 32), wraps_small by lia. rewrite length_app. cbn. lia.
Qed.

(** The comma loop: [g i] appends the text of the element [i]. *)
Lemma comma_loop (g : Z → bytes → outcome bytes) ts2 ts1 doc :
  (∀ i t, (ts1 ++ ts2) !! i = Some t → ∀ doc, g (Z.of_nat i) doc = Done (doc ++ t)) →
  for_range (length ts2) (Z.of_nat (length ts1))
    (λ index doc, g index (if 0 <? index then doc ++ bs "," else doc)) doc =
  Done (doc ++ match ts1 with [] => joined ts2 | _ => concat (map (cons x2c) ts2) end).
Proof.
  revert ts1 doc. induction ts2 as [|t ts2 IH]; intros ts1 doc Hg.
  - cbn. destruct ts1; by rewrite app_nil_r.
  - cbn [length for_range].
    rewrite (Hg (length ts1) t) by (rewrite lookup_app_r, Nat.sub_diag by lia; done).
    rewrite bind_ret_l. specialize (IH (ts1 ++ [t])). rewrite length_app in IH. cbn [length] in IH.
    replace (Z.of_nat (length ts1) + 1) with (Z.of_nat (length ts1 + 1)) by lia.
    rewrite IH by (by rewrite <-app_assoc).
    change (bs ",") with [x2c]. destruct ts1 as [|t1 ts1]; [cbn; by apps|].
    cbn [length app map concat]. rewrite (proj2 (Z.ltb_lt _ _)) by lia. by apps.
Qed.

(** Rewrites the loop in front of the goal with its equation, up to
    computation. *)
Ltac run_loop H :=
  match type of H with
  | _ → ?L = _ => match goal with |- mbind ?k ?m = _ => change m with L end
  end; rewrite H.

Definition writes (yaml : bool) (v : Value) (t : bytes) : Prop :=
  JText v t ∧ ∀ doc, FastWriter.writeValue yaml v doc = Done (doc ++ t).

Lemma choose_texts {A} (f : A → Value) yaml (l : list A) :
  Forall (λ x, ∃ t, writes yaml (f x) t) l → ∃ ts, Forall2 (λ x t, writes yaml (f x) t) l ts.
Proof.
  induction 1 as [|x l [t Ht] _ [ts Hts]]; [by exists []|]. exists (t :: ts). by constructor.
Qed.

Lemma array_writes yaml vs :
  Forall (λ v, ∃ t, writes yaml v t) vs → Z.of_nat (length vs) ≤ INT_MAX →
  ∃ t, writes yaml (Value.of_holder (arrayV (array_of 0 vs))) t.
Proof.
  intros Hvs Hl. destruct (choose_texts id yaml vs Hvs) as (ts & Hts). cbn in Hts.
  exists (x5b :: joined ts ++ [x5d]). split.
  - destruct Hts as [|v t vs ts Ht Hts]; [by apply (text_empty_array []); constructor|].
    apply text_array, items_joined; [done|]. constructor; [apply Ht|].
    eapply Forall2_impl; [exact Hts|]. by intros ? ? [].
  - intros doc. cbn [FastWriter.writeValue Value.of_holder]. cbv zeta.
    rewrite array_of_size by done.
    set (elems := map _ (array_of 0 vs)).
    pose proof (comma_loop (λ i, (element FastWriter.write_null (s32 i) elems).2) ts [] (doc ++ bs "[")) as Hloop.
    cbn [length app] in Hloop. rewrite <-(Forall2_length _ _ _ Hts) in Hloop.
    run_loop Hloop.
    + rewrite bind_ret_l. f_equal. by apps.
    + intros i t Hi d. destruct (Forall2_lookup_r _ _ _ _ _ Hts Hi) as (v & Hv & _ & Hw).
      apply lookup_lt_Some in Hv as Hlt. unfold INT_MAX in Hl. rewrite wraps_small by lia.
      unfold elems. rewrite element_map. pose proof (find_array_of 0 vs i) as Hf.
      rewrite Z.add_0_l in Hf. rewrite Hf, Hv. cbn. apply Hw.
Qed.

Lemma object_writes yaml (m : ObjectValues) :
  StdMap.wf m → Forall (λ p, x00 ∉ p.1) m → Forall (λ p, ∃ t, writes yaml p.2 t) m →
  ∃ t, writes yaml (Value.of_holder (objectV m)) t.
Proof.
  intros Hm Hk Hp. destruct (choose_texts snd yaml m Hp) as (ts & Hts).
  set (us := zip_with (member_of yaml) m.*1 ts). exists (x7b :: joined us ++ [x7d]).
  assert (Hus : length us = length m.*1).
  { unfold us. rewrite length_zip_with, length_fmap, <-(Forall2_length _ _ _ Hts). lia. }
  assert (Hts' : Forall2 (λ p t, JText p.2 t) m ts)
    by (eapply Forall2_impl; [exact Hts|]; by intros ? ? []).
  split.
  - destruct (decide (m = [])) as [->|Hne].
    + unfold us. cbn. by apply (text_empty_object []); constructor.
    + rewrite <-(object_of_sorted m) at 1; [by apply text_object, members_joined|done|done|].
      apply Forall_forall. intros p Hin. apply list_elem_of_lookup in Hin as [i Hi].
      destruct (Forall2_lookup_l _ _ _ _ _ Hts' Hi) as (t & _ & Ht). by eapply text_no_comments.
  - intros doc. cbn [FastWriter.writeValue Value.of_holder]. cbv zeta.
    set (elems := map _ m).
    pose proof (comma_loop (λ i doc, (element FastWriter.write_null (c_str (nth (Z.to_nat i) m.*1 [])) elems).2
      (doc ++ valueToQuotedString (nth (Z.to_nat i) m.*1 []) ++ (if yaml then bs ": " else bs ":")))
      us [] (doc ++ bs "{")) as Hloop.
    cbn [length app] in Hloop. rewrite Hus in Hloop.
    run_loop Hloop; [rewrite bind_ret_l; f_equal; by apps|].
    intros i u Hi d. unfold us in Hi. apply lookup_zip_with_Some in Hi as (k & t & -> & Hki & Ht).
    apply list_lookup_fmap_Some in Hki as ([k' v] & -> & Hkv). cbn [fst].
    assert (Hnth : nth (Z.to_nat (Z.of_nat i)) m.*1 [] = k').
    { rewrite Nat2Z.id, nth_lookup, list_lookup_fmap, Hkv. done. }
    rewrite Hnth. apply list_elem_of_lookup_2 in Hkv as Hin.
    pose proof (proj1 (Forall_forall _ _) Hk _ Hin) as Hnul. cbn in Hnul. rewrite (c_str_id k') by done.
    unfold elems. rewrite element_map, (proj2 (StdMap.find_In k' v m Hm) Hin). cbn.
    destruct (Forall2_lookup_l _ _ _ _ _ Hts Hkv) as (t' & Ht' & _ & Hw).
    assert (t' = t) as -> by congruence. cbn in Hw. rewrite Hw. unfold member_of. f_equal. by apps.
Qed.

(** What [FastWriter] writes for a plain value (without reals, null
    strings, array holes, or integers within ten of their limits) is a text of
    that value, whatever was written before, in both of its modes. *)
Lemma writeValue_text yaml v :
  Plain v → ∃ t, JText v t ∧ ∀ doc, FastWriter.writeValue yaml v doc = Done (doc ++ t).
Proof.
  revert v. apply (Plain_rec (λ v, ∃ t, writes yaml v t)).
  - exists (bs "null"). split; [constructor|done].
  - intros b. exists (valueToString_bool b). split; [destruct b; constructor|done].
  - intros i Hi. exists (valueToString_int i). split; [by apply int_text|done].
  - intros u Hu. exists (valueToString_uint u). split; [by apply uint_text|done].
  - intros s Hs. exists (valueToQuotedString s). destruct (quoted_text s) as (n & Hq & Hn).
    split; [|done]. rewrite Hq. pose proof (text_string s n Hn) as Ht.
    unfold Value.of_string in Ht. by rewrite c_str_id in Ht.
  - intros vs Hvs Hl. by apply array_writes.
  - intros m Hm Hk _ Hp. by apply object_writes.
Qed.

(** C14. Round trip: the document [FastWriter] writes for a plain value is read
    back as that value. *)
Theorem fastwriter_roundtrip yaml v root :
  Plain v →
  ∃ t, FastWriter.write yaml v = Done t ∧
    (szof t < 2 ^ 31 → parse t root = Done (true, Value.assign root v)).
Proof.
  intros Hv. destruct (writeValue_text yaml v Hv) as (t & Ht & Hw). exists (t ++ [x0a]).
  unfold FastWriter.write. rewrite Hw, bind_ret_l. split; [done|]. intros Hl.
  destruct (parse_with_text v t [] [x0a] Features_all root true) as (s & Hs & Hr & _);
    [done|constructor|by repeat constructor|done|done|].
  unfold parse. rewrite (Hs : parse_with _ (t ++ [x0a]) _ _ = _), bind_ret_l. cbn. by rewrite Hr.
Qed.

(** An object, an array, a string with an escape, and a number. *)
Definition sample_value : Value :=
  Value.of_holder (objectV
    [(bs "list", Value.of_holder (arrayV (array_of 0
        [Value.of_int (-7); Value.of_holder (stringV (Some [x01; x61]))])));
     (bs "ok", Value.of_bool true)]).
Definition quote_marks (s : string) : bytes := map (λ c, if decide (c = x27) then x22 else c) (bs s).

Lemma fastwriter_roundtrip_witness :
  ∃ t, FastWriter.write false sample_value = Done t ∧
    t = quote_marks "{'list':[-7,'\u0001a'],'ok':true}" ++ [x0a] ∧
    parse t Value.null = Done (true, sample_value).
Proof.
  assert (Hp : Plain sample_value).
  { apply plain_object; [repeat constructor|repeat constructor; cbn; set_solver|].
    constructor; [|repeat constructor]. cbn [snd]. apply plain_array; [|done].
    constructor; [|constructor; [|constructor]].
    - apply plain_int. unfold INT_MAX. lia.
    - apply plain_string. set_solver. }
  destruct (fastwriter_roundtrip false sample_value Value.null Hp) as (t & Hw & Hr).
  assert (Ht : FastWriter.write false sample_value =
    Done (quote_marks "{'list':[-7,'\u0001a'],'ok':true}" ++ [x0a])) by (vm_compute; reflexivity).
  exists t. split; [exact Hw|]. assert (Et : t = quote_marks "{'list':[-7,'\u0001a'],'ok':true}" ++ [x0a])
    by congruence.
  split; [exact Et|]. apply Hr. rewrite Et. vm_compute. reflexivity.
Defined.

Lemma parse_text_witness :
  parse (quote_marks " [ 12 , '\u0041b' ] ") (Value.of_int 3) =
    Done (true, Value.of_holder (arrayV [(0, Value.of_int 12); (1, Value.of_string (bs "Ab"))])).
Proof.
  assert (H12 : JText (Value.of_int 12) (bs "12")).
  { apply (text_int false (bs "12") (Value.of_int 12)); [repeat constructor|done|reflexivity]. }
  assert (Hs : JText (Value.of_string (bs "Ab")) (quote_marks "'\u0041b'")).
  { apply (text_string (bs "Ab") (bs "\u0041b")).
    apply (string_cons (codePointToUTF8 65) (bs "\u0041") (bs "b") (bs "b")).
    - apply (char_unicode 65 (bs "0041")); [exact (hex4_text 65 ltac:(lia))|lia].
    - apply (string_cons (bs "b") (bs "b") [] []); [by apply char_raw|constructor]. }
  assert (Hi : JItems [Value.of_int 12; Value.of_string (bs "Ab")] (quote_marks " 12 , '\u0041b' ")).
  { apply (items_more [x20] _ (bs "12") [x20] _ (quote_marks " '\u0041b' ")); [by repeat constructor|done|by repeat constructor|].
    apply (items_last [x20] _ (quote_marks "'\u0041b'") [x20]); [by repeat constructor|done|by repeat constructor]. }
  exact (proj1 (parse_text _ _ [x20] [x20] (Value.of_int 3) (text_array _ _ Hi)
    ltac:(by repeat constructor) ltac:(by repeat constructor) ltac:(vm_compute; reflexivity))).
Defined.

(** C19. Integers: a token of an optional minus sign and digits denotes its
    number exactly, as [int] where that holds it and else as [unsigned int],
    except for numbers within ten of the limits -2147483648 and 4294967295 and
    beyond, which are read as reals.  A lone minus sign is zero. *)
Theorem integers_exact token s (neg : bool) ds :
  slice (start_ token) (end_ token) s = number_text neg ds →
  Forall (λ c, is_digit c = true) ds →
  let n := if neg then - decimal_value ds else decimal_value ds in
  decodeNumber token s =
    if (-2147483640 <? n) && (n <? 4294967290)
    then (_ ← assign_current (if n <=? INT_MAX then Value.of_int n else Value.of_uint n); mret true) s
    else decodeDouble token s.
Proof.
  intros Hs Hds n. rewrite (decodeNumber_eq token s neg ds Hs Hds).
  pose proof (decimal_value_nonneg ds Hds) as Hp. subst n. unfold int_value, INT_MAX.
  destruct neg.
  - rewrite (proj2 (Z.ltb_lt (- _) 4294967290)), (proj2 (Z.leb_le (- _) _)), andb_true_r by lia.
    destruct (Z.ltb_spec (decimal_value ds) 2147483640), (Z.ltb_spec (-2147483640) (- decimal_value ds));
      (lia || done).
  - rewrite (proj2 (Z.ltb_lt (-2147483640) _)) by lia. cbn [andb].
    destruct (Z.leb_spec (decimal_value ds) 2147483647);
      [by rewrite (proj2 (Z.ltb_lt _ _)) by lia|by destruct (decimal_value ds <? 4294967290)].
Qed.

Lemma integers_exact_witness :
  let s := init Features_all (bs "2147483648") Value.null true in
  decodeNumber (mkToken tokenNumber 0 10) s = Done (true, set_root (Value.of_uint 2147483648) s).
Proof.
  intros s. etrans; [apply (integers_exact (mkToken tokenNumber 0 10) s false (bs "2147483648"));
    [reflexivity|repeat constructor]|]. vm_compute. reflexivity.
Defined.
