(* ===== verification/JsonSafety.v ===== *)
(** The parser on arbitrary input: for every document of at most [INT_MAX]
    bytes, well formed or not, with any features, [Reader::parse] terminates,
    and the only way it can go wrong is the 32-byte buffer of [decodeDouble].  The proof is in the style of a
    weakest precondition: [run m s Q] says that [m] started in [s] either ends
    in a result [Q] accepts or overruns that buffer. *)

From S2P Require Import Prelude StdMap CDouble JsonValue JsonReader.
Local Open Scope Z_scope.

Definition buffer_fault : fault := Undefined "decodeDouble: buffer[ 32 ]".

Definition run {A} (m : M A) (s : Reader) (Q : A → Reader → Prop) : Prop :=
  match m s with
  | Done (a, s') => Q a s'
  | Fault f => f = buffer_fault
  end.

Lemma run_ret {A} (a : A) s (Q : A → Reader → Prop) : Q a s → run (mret a) s Q.
Proof. done. Qed.

Lemma run_bind {A B} (m : M A) (k : A → M B) s (Q : B → Reader → Prop) :
  run m s (λ a s', run (k a) s' Q) → run (m ≫= k) s Q.
Proof.
  unfold run, mbind, M_bind. destruct (m s) as [[a s']|f]; [|done].
  by destruct (k a s') as [[b s'']|f].
Qed.

Lemma run_mono {A} (m : M A) s (Q Q' : A → Reader → Prop) :
  run m s Q → (∀ a s', Q a s' → Q' a s') → run m s Q'.
Proof. unfold run. destruct (m s) as [[a s']|f]; auto. Qed.

Lemma run_getR {A B} (f : Reader → A) (k : A → M B) s Q : run (k (f s)) s Q → run (getR f ≫= k) s Q.
Proof. done. Qed.
Lemma run_modR {B} (f : Reader → Reader) (k : unit → M B) s Q :
  run (k tt) (f s) Q → run (modR f ≫= k) s Q.
Proof. done. Qed.

(** ** The tree: what an update keeps *)

Definition valid (q : path) (r : Value) : Prop := is_Some (value_at q r).

(** Shorter paths than [n] lead to values of the same type, and paths of up to
    [n] steps stay valid. *)
Record keeps (n : nat) (r r' : Value) : Prop := mkKeeps {
  keeps_type q v : (length q < n)%nat → value_at q r = Some v →
    ∃ v', value_at q r' = Some v' ∧ Value.type v' = Value.type v;
  keeps_valid q : (length q ≤ n)%nat → valid q r → valid q r'
}.

Lemma keeps_refl n r : keeps n r r.
Proof. split; eauto. Qed.
Lemma keeps_trans n r1 r2 r3 : keeps n r1 r2 → keeps n r2 r3 → keeps n r1 r3.
Proof.
  intros [H1 H2] [H3 H4]. split; [|auto]. intros q v Hq Hv.
  destruct (H1 q v Hq Hv) as (v' & Hv' & Ht). destruct (H3 q v' Hq Hv') as (v'' & Hv'' & Ht').
  exists v''. split; [done|congruence].
Qed.
Lemma keeps_le n m r r' : (n ≤ m)%nat → keeps m r r' → keeps n r r'.
Proof. intros Hn [H1 H2]. split; intros; [eapply H1|eapply H2]; (lia || done). Qed.

(** The child a step leads to, and replacing it. *)
Lemma value_at_cons st q r : value_at (st :: q) r = value_at [st] r ≫= value_at q.
Proof. destruct st; cbn; by repeat case_match. Qed.

Lemma child_update_other st st' g r v :
  value_at [st] r = Some v →
  value_at [st] (update_at [st'] g r) = Some v ∨
  (value_at [st] (update_at [st'] g r) = Some (g v) ∧ value_at [st'] r = Some v).
Proof.
  destruct r as [h c], st as [k|i], st' as [k'|i']; cbn; destruct h as [| | | | | |m|m]; try done; auto;
    cbn; intros Hv.
  - destruct (StdMap.find (c_str k) m) as [x|] eqn:E; [injection Hv as ->|done].
    destruct (decide (c_str k = c_str k')) as [Hk|Hk].
    + right. by rewrite <-Hk, StdMap.find_update_eq, E.
    + left. by rewrite StdMap.find_update_ne, E.
  - destruct (StdMap.find (s32 i) m) as [x|] eqn:E; [injection Hv as ->|done].
    destruct (decide (s32 i = s32 i')) as [Hk|Hk].
    + right. by rewrite <-Hk, StdMap.find_update_eq, E.
    + left. by rewrite StdMap.find_update_ne, E.
Qed.

Lemma type_update st g r : Value.type (update_at [st] g r) = Value.type r.
Proof. destruct r as [h c], st; cbn; by destruct h. Qed.

Lemma update_at_cons st p g r : update_at (st :: p) g r = update_at [st] (update_at p g) r.
Proof. by destruct st. Qed.

(** Replacing the value at [p] concerns only [p] and what is below it. *)
Lemma keeps_update p g r : keeps (length p) r (update_at p g r).
Proof.
  revert r. induction p as [|st p IH]; intros r.
  - split; [intros q v Hq; cbn in Hq; lia|]. intros [|] Hq Hv; [by eexists|cbn in Hq; lia].
  - rewrite update_at_cons. split.
    + intros [|st' q] v Hq Hv.
      * injection Hv as <-. eexists; split; [done|]. apply type_update.
      * rewrite value_at_cons in Hv. destruct (value_at [st'] r) as [x|] eqn:E; [|done].
        cbn [mbind option_bind] in Hv. rewrite value_at_cons.
        destruct (child_update_other st' st (update_at p g) r x E) as [-> | [-> _]]; [by exists v|].
        cbn [mbind option_bind length] in *. apply (keeps_type _ _ _ (IH x)); [lia|done].
    + intros [|st' q] Hq [v Hv]; [by eexists|]. unfold valid.
      rewrite value_at_cons in *. destruct (value_at [st'] r) as [x|] eqn:E; [|done].
      cbn [mbind option_bind] in Hv.
      destruct (child_update_other st' st (update_at p g) r x E) as [-> | [-> _]]; [by eexists|].
      cbn [mbind option_bind length] in *. apply (keeps_valid _ _ _ (IH x)); [lia|by eexists].
Qed.

(** [v'] has everything [v] has. *)
Definition refines (v v' : Value) : Prop :=
  ∀ q x, value_at q v = Some x → ∃ x', value_at q v' = Some x' ∧ Value.type x' = Value.type x.

Lemma keeps_refines n r r' : refines r r' → keeps n r r'.
Proof. intros Hr. split; [auto|]. intros q _ [x Hx]. destruct (Hr q x Hx) as (x' & Hx' & _). by eexists. Qed.

Lemma refines_update p g r :
  (∀ v, value_at p r = Some v → refines v (g v)) → refines r (update_at p g r).
Proof.
  revert r. induction p as [|st p IH]; intros r Hg; [by apply Hg|].
  rewrite update_at_cons. intros [|st' q] x Hx.
  - injection Hx as <-. eexists; split; [done|]. apply type_update.
  - rewrite value_at_cons in *. destruct (value_at [st'] r) as [y|] eqn:E; [|done].
    cbn [mbind option_bind] in Hx.
    destruct (child_update_other st' st (update_at p g) r y E) as [-> | [-> Hy]]; [by exists x|].
    cbn [mbind option_bind]. apply (IH y); [|done]. intros v Hv. apply Hg. by rewrite value_at_cons, Hy.
Qed.

(** ** The state *)

(** Texts a comment may have: [setComment] throws for others. *)
Definition comment_like (l : bytes) : Prop := l = [] ∨ ∃ l', l = x2f :: l'.

(** Positions are inside the document, and the value comments are attached to
    exists, at most [n] steps deep. *)
Record safe (n : nat) (s : Reader) : Prop := mkSafe {
  safe_current : (current_ s ≤ length (document_ s))%nat;
  safe_before : comment_like (commentsBefore_ s);
  safe_end : is_Some (lastValueEnd_ s) → is_Some (lastValue_ s);
  safe_last q : lastValue_ s = Some q → valid q (root_ s) ∧ (length q ≤ n)%nat;
  safe_off : collectComments_ s = false → lastValue_ s = None
}.

(** From [s] to [s'] the input advanced and the tree kept its first [n]
    levels. *)
Record after (n : nat) (s s' : Reader) : Prop := mkAfter {
  after_document : document_ s' = document_ s;
  after_features : features_ s' = features_ s;
  after_collect : collectComments_ s' = collectComments_ s;
  after_nodes : nodes_ s' = nodes_ s;
  after_current : (current_ s ≤ current_ s')%nat;
  after_keeps : keeps n (root_ s) (root_ s')
}.

Lemma after_refl n s : after n s s.
Proof. split; (done || apply keeps_refl). Qed.
Lemma after_trans n s1 s2 s3 : after n s1 s2 → after n s2 s3 → after n s1 s3.
Proof. intros [] []. split; (congruence || lia || by eapply keeps_trans). Qed.
Lemma after_le n m s s' : (n ≤ m)%nat → after m s s' → after n s s'.
Proof. intros Hn []. split; try done. by eapply keeps_le. Qed.

(** Reading tokens keeps every level. *)
Definition tokens (s s' : Reader) : Prop := ∀ n, after n s s'.
Lemma tokens_refl s : tokens s s.
Proof. intros n. apply after_refl. Qed.
Lemma tokens_trans s1 s2 s3 : tokens s1 s2 → tokens s2 s3 → tokens s1 s3.
Proof. intros H1 H2 n. by eapply after_trans. Qed.

(** The stack of nodes: paths into the tree, the top one the deepest. *)
Definition stack (p : path) (ns : list path) (s : Reader) : Prop :=
  nodes_ s = p :: ns ∧ Forall (λ q, valid q (root_ s) ∧ (length q ≤ length p)%nat) (p :: ns).

Lemma stack_after n p ns s s' :
  (length p ≤ n)%nat → stack p ns s → after n s s' → stack p ns s'.
Proof.
  intros Hn [Hs Hv] Ha. split; [by rewrite (after_nodes _ _ _ Ha)|].
  eapply Forall_impl; [exact Hv|]. intros q [Hq Hl]. split; [|done].
  apply (keeps_valid _ _ _ (after_keeps _ _ _ Ha)); [lia|done].
Qed.

(** Unread input. *)
Definition left_ (s : Reader) : nat := (length (document_ s) - current_ s)%nat.
Lemma left_rest s : left_ s = length (rest s).
Proof. unfold left_, rest. by rewrite length_drop. Qed.
Lemma left_after n s s' : after n s s' → (left_ s' ≤ left_ s)%nat.
Proof. intros []. unfold left_. rewrite after_document0. lia. Qed.

Lemma advance_ok n k s : (k ≤ left_ s)%nat → safe n s → safe n (advance k s) ∧ tokens s (advance k s).
Proof.
  intros Hk []. split; [split; try done; cbn; unfold left_ in Hk; lia|].
  intros m. split; try done; cbn; [lia|apply keeps_refl].
Qed.

Lemma span_len_le f l : (span_len f l ≤ length l)%nat.
Proof. induction l as [|c l IH]; cbn; [done|]. case_match; lia. Qed.
Lemma cstyle_len_le l : (cstyle_len l ≤ length l)%nat.
Proof. induction l as [|c l IH]; cbn; [done|]. case_decide; lia. Qed.
Lemma cpp_len_le l : (cpp_len l ≤ length l)%nat.
Proof. induction l as [|c l IH]; cbn; [done|]. case_decide; lia. Qed.
Lemma string_scan_le l c : ((string_scan l c).1 ≤ length l)%nat.
Proof.
  assert (H : ∀ k l c, (length l ≤ k)%nat → ((string_scan l c).1 ≤ length l)%nat);
    [|by eapply H].
  clear. induction k as [|k IH]; intros [|c l] c0 Hl; cbn in *; try lia.
  case_decide; [destruct l as [|c' l]; cbn in *; [lia|]|case_decide; cbn; [lia|]];
    specialize (IH l); [specialize (IH c)|specialize (IH c)];
    destruct (string_scan l c) as [m c'']; cbn in *; lia.
Qed.

(** What reading part of a token guarantees. *)
Definition reads {A} (n : nat) (m : M A) (s : Reader) : Prop :=
  run m s (λ _ s', safe n s' ∧ tokens s s').

Lemma reads_advance n s f :
  safe n s → (f (rest s) ≤ length (rest s))%nat → reads n (modR (λ s, advance (f (rest s)) s)) s.
Proof. intros Hs Hf. unfold reads, run, modR. apply advance_ok; [by rewrite left_rest|done]. Qed.

Lemma getNextChar_reads n s :
  safe n s → run getNextChar s (λ c s', safe n s' ∧ tokens s s' ∧
    (rest s = [] ∧ c = x00 ∧ s' = s ∨ ∃ l, rest s = c :: l ∧ s' = advance 1 s)).
Proof.
  intros Hs. unfold run, getNextChar. destruct (rest s) as [|c l] eqn:E.
  - split_and!; [done|apply tokens_refl|by left].
  - assert (1 ≤ left_ s)%nat by (rewrite left_rest, E; cbn; lia).
    destruct (advance_ok n 1 s) as [H1 H2]; [done..|]. split_and!; [done..|]. right. eauto.
Qed.

(** ** Comments *)

Lemma refines_comment v c : refines v (mkValue (Value.holder v) c).
Proof.
  intros [|st q] x Hx.
  - injection Hx as <-. by eexists.
  - exists x. split; [|done]. destruct v as [h c']. by destruct st.
Qed.

Lemma setComment_done text placement v :
  comment_like text → ∃ c, Value.setComment text placement v = Done (mkValue (Value.holder v) c).
Proof.
  intros [-> | [l ->]]; unfold Value.setComment; cbn; by eexists.
Qed.

Lemma safe_refines n s r : safe n s → refines (root_ s) r → safe n (set_root r s) ∧ tokens s (set_root r s).
Proof.
  intros [] Hr. split.
  - split; try done. cbn. intros q Hq. destruct (safe_last0 q Hq) as [Hv Hl]. split; [|done].
    by apply (keeps_valid _ _ _ (keeps_refines (length q) _ _ Hr)).
  - intros m. split; try done. by apply keeps_refines.
Qed.

Lemma set_comment_at_reads n p text placement s :
  safe n s → valid p (root_ s) → comment_like text → reads n (set_comment_at p text placement) s.
Proof.
  intros Hs [v Hv] Ht. unfold reads, set_comment_at. apply run_getR. rewrite Hv.
  destruct (setComment_done text placement v Ht) as [c Hc].
  unfold run, lift, modR, mbind, M_bind. rewrite Hc. cbn. apply safe_refines; [done|].
  apply refines_update. intros v0 Hv0. assert (v0 = v) as -> by congruence. apply refines_comment.
Qed.

Lemma addComment_reads n b e placement s :
  safe n s → collectComments_ s = true → comment_like (slice b e s) →
  (placement = commentAfterOnSameLine → is_Some (lastValue_ s)) →
  reads n (addComment b e placement) s.
Proof.
  intros Hs Hc Ht Hl. unfold reads, addComment. apply run_getR. rewrite Hc.
  apply run_bind, run_ret. apply run_getR. case_decide as Hp.
  - apply run_getR. destruct (Hl Hp) as [q Hq]. rewrite Hq.
    apply set_comment_at_reads; [done|by eapply safe_last|done].
  - unfold run, modR. destruct Hs. split; [|intros m; split; try done; apply keeps_refl].
    split; try done. cbn. destruct safe_before0 as [-> | [l ->]]; cbn; [done|]. right. by eexists.
Qed.

(** [commentBegin] is where the slash was. *)
Lemma readComment_reads n s l :
  safe n s → (1 ≤ current_ s)%nat → drop (current_ s - 1) (document_ s) = x2f :: l →
  reads n readComment s.
Proof.
  intros Hs Hpos Hdoc. unfold reads, readComment. apply run_getR, run_bind.
  eapply run_mono; [by apply getNextChar_reads|]. intros c s1 (Hs1 & Ht1 & _).
  apply run_bind.
  assert (Hm : reads n (if decide (c = x2a) then readCStyleComment
                else if decide (c = x2f) then readCppStyleComment else mret false) s1).
  { case_decide; [|case_decide; [|split; [done|apply tokens_refl]]].
    - unfold reads, readCStyleComment. apply run_bind.
      eapply run_mono; [apply (reads_advance n s1 cstyle_len Hs1), cstyle_len_le|].
      intros _ s2 [Hs2 Ht2]. apply run_bind. eapply run_mono; [by apply getNextChar_reads|].
      intros c' s3 (Hs3 & Ht3 & _). apply run_ret. split; [done|by eapply tokens_trans].
    - unfold reads, readCppStyleComment. apply run_bind.
      eapply run_mono; [apply (reads_advance n s1 cpp_len Hs1), cpp_len_le|].
      intros _ s2 [Hs2 Ht2]. by apply run_ret. }
  eapply run_mono; [exact Hm|]. intros ok s2 [Hs2 Ht2].
  assert (Ht : tokens s s2) by by eapply tokens_trans. clear Hm.
  destruct ok; cbn [negb]; [|by apply run_ret]. apply run_getR, run_bind.
  destruct (collectComments_ s2) eqn:Ec; [|by apply run_ret].
  apply run_getR, run_getR, run_getR, run_getR.
  assert (Hsl : comment_like (slice (current_ s - 1) (current_ s2) s2)).
  { right. unfold slice. rewrite (after_document _ _ _ (Ht 0%nat)), Hdoc.
    pose proof (after_current _ _ _ (Ht 0%nat)).
    destruct (current_ s2 - (current_ s - 1))%nat eqn:E; [lia|]. by eexists. }
  eapply run_mono; [apply (addComment_reads n); [done|done|done|]|].
  - intros Hp. apply (safe_end _ _ Hs2). destruct (lastValueEnd_ s2); [by eexists|done].
  - intros _ s3 [Hs3 Ht3]. apply run_ret. split; [done|by eapply tokens_trans].
Qed.

(** ** Tokens *)

Lemma reads_ret {A} n (a : A) s : safe n s → reads n (mret a) s.
Proof. intros Hs. apply run_ret. split; [done|apply tokens_refl]. Qed.
Lemma reads_bind {A B} n (m : M A) (k : A → M B) s :
  reads n m s → (∀ a s', safe n s' → reads n (k a) s') → reads n (m ≫= k) s.
Proof.
  intros Hm Hk. apply run_bind. eapply run_mono; [exact Hm|]. intros a s1 [H1 H2].
  eapply run_mono; [by apply Hk|]. intros b s2 [H3 H4]. split; [done|by eapply tokens_trans].
Qed.

Lemma match_reads n pattern s : safe n s → reads n (match_ pattern) s.
Proof.
  intros Hs. unfold reads, run, match_. case_decide as Hm; [|split; [done|apply tokens_refl]].
  apply advance_ok; [|done]. rewrite left_rest, <-Hm, length_take. lia.
Qed.

Lemma readString_reads n s : safe n s → reads n readString s.
Proof.
  intros Hs. unfold reads, run, readString. pose proof (string_scan_le (rest s) x00) as Hl.
  destruct (string_scan (rest s) x00) as [k c]. apply advance_ok; [by rewrite left_rest|done].
Qed.

Lemma token_body_reads n c s :
  safe n s → (c = x2f → (1 ≤ current_ s)%nat ∧ ∃ l, drop (current_ s - 1) (document_ s) = x2f :: l) →
  reads n (token_body c) s.
Proof.
  intros Hs Hc. unfold token_body.
  assert (Hbody : ∀ (t : TokenType) (m : M bool), reads n m s → reads n (ok ← m; mret (t, ok)) s).
  { intros t m Hm. apply reads_bind; [done|]. intros. by apply reads_ret. }
  assert (Hret : ∀ r : TokenType * bool, reads n (mret r) s) by (intros; by apply reads_ret).
  do 4 (case_decide; [by apply Hret|]).
  case_decide; [by apply Hbody, readString_reads|].
  case_decide as Hsl; [destruct (Hc Hsl) as (Hp & l & Hl); by eapply Hbody, readComment_reads|].
  destruct (_ || _).
  { apply reads_bind; [|intros; by apply reads_ret].
    apply (reads_advance n s (span_len number_char)); [done|apply span_len_le]. }
  do 3 (case_decide; [by apply Hbody, match_reads|]).
  do 3 (case_decide; [by apply Hret|]). by apply Hret.
Qed.

(** A token, or the end of the input. *)
Definition reads_token (n : nat) (m : M Token) (s : Reader) : Prop :=
  run m s (λ t s', safe n s' ∧ tokens s s' ∧
    ((left_ s' < left_ s)%nat ∨ type_ t = tokenEndOfStream)).

Lemma readToken_reads n s : safe n s → reads_token n readToken s.
Proof.
  intros Hs. unfold reads_token, readToken. apply run_bind.
  eapply run_mono; [apply (reads_advance n s (span_len is_space) Hs), span_len_le|].
  intros _ s1 [Hs1 Ht1]. apply run_getR, run_bind.
  eapply run_mono; [by apply getNextChar_reads|]. intros c s2 (Hs2 & Ht2 & Hc). apply run_bind.
  destruct Hc as [(Hr & -> & ->)|(l & Hr & ->)].
  - apply run_ret. apply run_getR, run_ret. split_and!; [done..|by right].
  - assert (Hlt : (left_ (advance 1 s1) < left_ s1)%nat).
    { unfold left_. cbn. pose proof (safe_current _ _ Hs2) as Hcur. cbn in Hcur. lia. }
    eapply run_mono; [apply (token_body_reads n); [done|]|].
    + intros ->. cbn. split; [lia|]. exists l.
      replace (current_ s1 + 1 - 1)%nat with (current_ s1) by lia. exact Hr.
    + intros [t ok] s3 [Hs3 Ht3]. apply run_getR, run_ret.
      assert (Ht : tokens s s3) by (do 2 (eapply tokens_trans; [done|]); done).
      split_and!; [done..|]. left.
      pose proof (left_after _ _ _ (Ht3 0%nat)). pose proof (left_after _ _ _ (Ht1 0%nat)). lia.
Qed.

Lemma token_trans s s1 s2 : tokens s s1 → (left_ s1 < left_ s)%nat → tokens s1 s2 → (left_ s2 < left_ s)%nat.
Proof. intros H1 H2 H3. pose proof (left_after _ _ _ (H3 0%nat)). lia. Qed.

Lemma read_past_comments_reads fuel n s :
  safe n s → (left_ s < fuel)%nat → reads_token n (read_past_comments fuel) s.
Proof.
  revert s. induction fuel as [|fuel IH]; intros s Hs Hf; [lia|]. cbn [read_past_comments].
  apply run_bind. eapply run_mono; [by apply readToken_reads|]. intros t s1 (Hs1 & Ht1 & He).
  case_decide as Hc; [|by apply run_ret].
  destruct He as [He|He]; [|congruence].
  eapply run_mono; [apply IH; [done|lia]|]. intros t2 s2 (Hs2 & Ht2 & _).
  split_and!; [done|by eapply tokens_trans|left; by eapply token_trans].
Qed.

Lemma readToken_nc_reads n s : safe n s → reads_token n readToken_nc s.
Proof.
  intros Hs. unfold reads_token, readToken_nc, doc_fuel. apply run_getR.
  apply read_past_comments_reads; [done|]. unfold left_. lia.
Qed.

Lemma skipCommentTokens_reads n s : safe n s → reads_token n skipCommentTokens s.
Proof.
  intros Hs. unfold reads_token, skipCommentTokens. apply run_getR.
  destruct (allowComments_ _); [by apply readToken_nc_reads|by apply readToken_reads].
Qed.

Lemma skip_comment_token_reads n t s : safe n s → reads n (skip_comment_token t) s.
Proof.
  intros Hs. unfold reads, skip_comment_token. case_decide; [|by apply reads_ret].
  eapply run_mono; [by apply readToken_nc_reads|]. by intros ? ? (? & ? & _).
Qed.

Lemma skip_until_reads fuel n t s : safe n s → (left_ s < fuel)%nat → reads n (skip_until fuel t) s.
Proof.
  revert s. induction fuel as [|fuel IH]; intros s Hs Hf; [lia|]. cbn [skip_until].
  apply run_bind. eapply run_mono; [by apply readToken_reads|]. intros t' s1 (Hs1 & Ht1 & He).
  case_decide as Hc; [by apply run_ret|]. destruct He as [He|He]; [|naive_solver].
  eapply run_mono; [apply IH; [done|lia]|]. intros [] s2 [Hs2 Ht2]. split; [done|by eapply tokens_trans].
Qed.

Lemma errors_ok n e s : safe n s → safe n (set_errors e s) ∧ tokens s (set_errors e s).
Proof. intros []. split; [by split|]. intros m. split; try done. apply keeps_refl. Qed.

(** The error functions return [false]. *)
Definition fails (n : nat) (m : M bool) (s : Reader) : Prop :=
  run m s (λ ok s', ok = false ∧ safe n s' ∧ tokens s s').

Lemma addError_fails n msg t x s : safe n s → fails n (addError msg t x) s.
Proof. intros Hs. unfold fails, addError. apply run_modR, run_ret. split; [done|by apply errors_ok]. Qed.

Lemma recoverFromError_fails n t s : safe n s → fails n (recoverFromError t) s.
Proof.
  intros Hs. unfold fails, recoverFromError, doc_fuel. apply run_getR, run_getR, run_bind.
  eapply run_mono; [apply (skip_until_reads _ n); [done|unfold left_; lia]|]. intros [] s1 [Hs1 Ht1].
  apply run_modR, run_ret. destruct (errors_ok n (take (length (errors_ s)) (errors_ s1)) s1 Hs1) as [H1 H2].
  split_and!; [done..|by eapply tokens_trans].
Qed.

Lemma addErrorAndRecover_fails n msg t u s : safe n s → fails n (addErrorAndRecover msg t u) s.
Proof.
  intros Hs. unfold fails, addErrorAndRecover. apply run_bind.
  eapply run_mono; [by apply addError_fails|]. intros b s1 (_ & Hs1 & Ht1).
  eapply run_mono; [by apply recoverFromError_fails|]. intros ok s2 (-> & Hs2 & Ht2).
  split_and!; [done..|by eapply tokens_trans].
Qed.

(** ** Decoding *)

Lemma hex_loop_length n cur l u u' cur' l' :
  hex_loop n cur l u = Decoded (u', cur', l') → (length l' ≤ length l)%nat.
Proof.
  revert cur l u. induction n as [|n IH]; intros cur l u; cbn.
  - destruct l; intros [= <- <- <-]; lia.
  - destruct l as [|c l]; [done|]. case_match; [|done]. intros H1. apply IH in H1. cbn. lia.
Qed.

Lemma escape_length cur l u cur' l' :
  decodeUnicodeEscapeSequence cur l = Decoded (u, cur', l') → (length l' ≤ length l)%nat.
Proof. unfold decodeUnicodeEscapeSequence. case_match; [done|]. apply hex_loop_length. Qed.

Lemma code_point_length cur l u cur' l' :
  decodeUnicodeCodePoint cur l = Decoded (u, cur', l') → (length l' ≤ length l)%nat.
Proof.
  unfold decodeUnicodeCodePoint. destruct (decodeUnicodeEscapeSequence cur l) as [[[u1 c1] l1]|] eqn:E; [|done].
  apply escape_length in E. case_match; [|intros [= <- <- <-]; done].
  case_match; [done|]. destruct l1 as [|x [|y l1]]; try done. do 2 (case_decide; [|done]).
  destruct (decodeUnicodeEscapeSequence _ l1) as [[[u2 c2] l2]|] eqn:E2; [|done].
  apply escape_length in E2. intros [= <- <- <-]. cbn in E. lia.
Qed.

Lemma decode_loop_total fuel cur l acc :
  (length l < fuel)%nat → ∃ d, decode_loop fuel cur l acc = Done d.
Proof.
  revert cur l acc. induction fuel as [|fuel IH]; intros cur l acc Hf; [lia|]. cbn [decode_loop].
  destruct l as [|c l]; [by eexists|]. cbn in Hf. case_decide; [by eexists|].
  case_decide; [|apply IH; lia]. destruct l as [|e l]; [by eexists|]. cbn in Hf.
  do 8 (case_decide; [apply IH; lia|]). case_decide; [|by eexists].
  destruct (decodeUnicodeCodePoint _ l) as [[[u c'] l']|] eqn:E; [|by eexists].
  apply code_point_length in E. apply IH. lia.
Qed.

Lemma decodeString_text_reads n t s : safe n s → reads n (decodeString_text t) s.
Proof.
  intros Hs. unfold reads, decodeString_text. apply run_getR, run_bind.
  destruct (decode_loop_total (S (length (slice (start_ t + 1) (end_ t - 1) s))) (start_ t + 1)
    (slice (start_ t + 1) (end_ t - 1) s) []) as [d Hd]; [lia|].
  unfold run at 1, lift, mbind at 1, outcome_bind. rewrite Hd.
  destruct d as [text|msg extra]; [by apply reads_ret|]. apply run_bind.
  eapply run_mono; [by apply addError_fails|]. intros b s1 (_ & H1 & H2). by apply run_ret.
Qed.

(** Assigning to the top node. *)
Definition assigns (p : path) (m : M bool) (s : Reader) : Prop :=
  run m s (λ _ s', safe (length p) s' ∧ after (length p) s s').

Lemma assign_current_run v s p ns :
  safe (length p) s → stack p ns s →
  run (assign_current v) s (λ _ s', safe (length p) s' ∧ after (length p) s s' ∧
    left_ s' = left_ s ∧
    ∃ v', value_at p (root_ s') = Some v' ∧ Value.type v' = Value.type v).
Proof.
  intros Hs [Hn Hst]. unfold run. rewrite (assign_current_spec v s p ns Hn).
  pose proof (keeps_update p (λ old, Value.assign old v) (root_ s)) as Hk.
  apply Forall_inv in Hst as [[old Hold] _]. split_and!; [|by split|done|].
  - destruct Hs. split; try done. cbn. intros q Hq. destruct (safe_last0 q Hq) as [Hv Hl].
    split; [|done]. by apply (keeps_valid _ _ _ Hk).
  - exists (Value.assign old v). split; [|done]. exact (value_at_update p (λ old, Value.assign old v) (root_ s) old Hold).
Qed.

Lemma assigns_assign v p ns s :
  safe (length p) s → stack p ns s → assigns p (_ ← assign_current v; mret true) s.
Proof.
  intros Hs Hst. apply run_bind. eapply run_mono; [by eapply assign_current_run|].
  intros [] s1 (H1 & H2 & _). by apply run_ret.
Qed.

Lemma assigns_error p msg t x s : safe (length p) s → assigns p (addError msg t x) s.
Proof.
  intros Hs. eapply run_mono; [by apply addError_fails|]. intros b s1 (_ & H1 & H2). by split.
Qed.

Lemma decodeDouble_assigns t p ns s :
  safe (length p) s → stack p ns s → assigns p (decodeDouble t) s.
Proof.
  intros Hs Hst. unfold assigns, decodeDouble. apply run_getR.
  cbv zeta. unfold defined_if. destruct (_ || _); [|done].
  apply run_bind, run_ret. destruct (sscanf_lf _); [by eapply assigns_assign|by apply assigns_error].
Qed.

Lemma decodeNumber_assigns t p ns s :
  safe (length p) s → stack p ns s → assigns p (decodeNumber t) s.
Proof.
  intros Hs Hst. unfold assigns, decodeNumber. apply run_getR.
  destruct (is_double_text _ _); [by eapply decodeDouble_assigns|].
  destruct (number_loop _ _ _); [by apply assigns_error|by eapply decodeDouble_assigns|by eapply assigns_assign].
Qed.

Lemma decodeString_assigns t p ns s :
  safe (length p) s → stack p ns s → assigns p (decodeString t) s.
Proof.
  intros Hs Hst. unfold assigns, decodeString. apply run_bind.
  eapply run_mono; [by apply decodeString_text_reads|]. intros r s1 [Hs1 Ht1].
  destruct r as [text|]; [|by apply run_ret].
  eapply run_mono; [eapply assigns_assign; [done|by eapply stack_after]|].
  intros ok s2 [H1 H2]. split; [done|by eapply after_trans].
Qed.

(** ** The descent *)

Lemma safe_le n m s : (n ≤ m)%nat → safe n s → safe m s.
Proof. intros Hn []. split; try done. intros q Hq. destruct (safe_last0 q Hq). split; [done|lia]. Qed.

Lemma attach_reads p ns s :
  safe (length p) s → stack p ns s → reads (length p) attach_commentsBefore s.
Proof.
  intros Hs [Hn Hst]. unfold reads, attach_commentsBefore. apply run_getR, run_getR.
  destruct (_ && _); [|by apply reads_ret]. unfold top_node. apply run_bind. unfold run at 1. rewrite Hn.
  apply run_bind. eapply run_mono; [apply (set_comment_at_reads (length p)); [done| |apply Hs]|].
  - by apply Forall_inv in Hst as [? _].
  - intros [] s1 [[] H2]. unfold run, modR. split; [by split; try done; left|].
    intros m. destruct (H2 m). by split.
Qed.

(** The end of [readValue], after something at the top node. *)
Lemma finish_run n p ns s s1 (ok : bool) :
  safe n s1 → stack p ns s → after (length p) s s1 →
  run (_ ← remember_value; mret ok) s1 (λ ok' s', ok' = ok ∧ safe (length p) s' ∧
    after (length p) s s' ∧ left_ s' = left_ s1).
Proof.
  intros Hs1 Hst Ha. pose proof (stack_after _ _ _ _ _ (le_n _) Hst Ha) as [Hn Hv].
  apply run_bind. unfold remember_value. apply run_getR.
  destruct (collectComments_ s1) eqn:Ec.
  - apply run_bind. unfold top_node, run at 1. rewrite Hn. unfold run, modR.
    split_and!; [done| |by destruct Ha|done].
    destruct Hs1. split; cbn; try done; try congruence. intros q [= <-]. split; [|done].
    by apply Forall_inv in Hv as [? _].
  - apply run_ret, run_ret. split_and!; [done| |done|done]. destruct Hs1. split; try done.
    intros q. rewrite safe_off0 by done. done.
Qed.

Lemma stack_push p ns st s :
  stack p ns s → valid (p ++ [st]) (root_ s) →
  stack (p ++ [st]) (p :: ns) (set_nodes ((p ++ [st]) :: p :: ns) s).
Proof.
  intros [Hn Hv] Hp. split; [done|]. constructor; [by split|].
  eapply Forall_impl; [exact Hv|]. intros q [Hq Hl]. split; [done|]. rewrite length_app. cbn. lia.
Qed.

(** Reaching the element [st], which [r] makes exist in the container. *)
Lemma subscript_run r p ns s n v :
  safe n s → stack p ns s → value_at p (root_ s) = Some v →
  (∃ v', r v = Done v' ∧ refines v v') →
  run (subscript_current r) s (λ _ s', safe n s' ∧ tokens s s' ∧ left_ s' = left_ s ∧
    ∃ v', r v = Done v' ∧ value_at p (root_ s') = Some v').
Proof.
  intros Hs [Hn Hst] Hv (v' & Hr & Href). unfold run.
  rewrite (subscript_current_spec r s p ns v v' Hn Hv Hr).
  assert (Hrr : refines (root_ s) (update_at p (λ _, v') (root_ s))).
  { apply refines_update. intros v0 Hv0. by assert (v0 = v) as -> by congruence. }
  destruct (safe_refines n s _ Hs Hrr) as [H1 H2]. split_and!; [done..|].
  exists v'. split; [done|]. by apply (value_at_update p _ _ v).
Qed.

Section descent.
Context (fuel : nat).

Definition value_total : Prop := ∀ s p ns,
  safe (length p) s → stack p ns s → (2 * left_ s + 1 ≤ fuel)%nat → Z.of_nat (left_ s) ≤ INT_MAX →
  run (readValue fuel) s (λ ok s', safe (length p) s' ∧ after (length p) s s' ∧
    (ok = true → (left_ s' < left_ s)%nat)).

(** The loops, at a container of the given type, with room to count [i] further. *)
Definition loop_total (type : ValueType) (i : Z) (loop : M bool) : Prop := ∀ s p ns,
  safe (S (length p)) s → stack p ns s → (2 * left_ s + 2 ≤ fuel)%nat →
  0 ≤ i → i + Z.of_nat (left_ s) < INT_MAX →
  (∃ v, value_at p (root_ s) = Some v ∧ Value.type v = type) →
  run loop s (λ _ s', safe (S (length p)) s' ∧ after (S (length p)) s s').

Lemma child_run st p ns s {B} (k : bool → M B) Q :
  value_total → safe (S (length p)) s → stack p ns s → valid (p ++ [st]) (root_ s) →
  (2 * left_ s + 1 ≤ fuel)%nat → Z.of_nat (left_ s) ≤ INT_MAX →
  (∀ ok s', safe (S (length p)) s' → after (S (length p)) s s' →
     (ok = true → (left_ s' < left_ s)%nat) → run (k ok) s' Q) →
  run (_ ← push_child st; ok ← readValue fuel; _ ← pop_node; k ok) s Q.
Proof.
  intros Hv Hs Hst Hval Hf Hb Hk. pose proof (stack_push _ _ _ _ Hst Hval) as Hst'.
  pose proof Hst as [Hn _]. apply run_bind. unfold push_child. apply run_bind.
  unfold top_node, run at 1. rewrite Hn. unfold run at 1, modR. rewrite Hn.
  set (s1 := set_nodes _ s) in *.
  assert (Hlen : length (p ++ [st]) = S (length p)) by (rewrite length_app; cbn; lia).
  apply run_bind. eapply run_mono.
  - apply (Hv s1 (p ++ [st]) (p :: ns)); [rewrite Hlen|done..]. destruct Hs. by split.
  - rewrite Hlen. intros ok s2 (Hs2 & Ha2 & Hlt). apply run_bind. unfold pop_node, run at 1, modR.
    apply Hk.
    + destruct Hs2. by split.
    + destruct Ha2. split; try done. cbn. by rewrite after_nodes0.
    + exact Hlt.
Qed.

(** The container after its element was read. *)
Lemma container_kept (p : path) s s' v :
  after (S (length p)) s s' → value_at p (root_ s) = Some v →
  ∃ v', value_at p (root_ s') = Some v' ∧ Value.type v' = Value.type v.
Proof. intros Ha Hv. apply (keeps_type _ _ _ (after_keeps _ _ _ Ha)); [lia|done]. Qed.

(** A failure inside a loop. *)
Lemma loop_fails (p : path) s0 s m :
  safe (S (length p)) s → after (S (length p)) s0 s → fails (S (length p)) m s →
  run m s (λ _ s', safe (S (length p)) s' ∧ after (S (length p)) s0 s').
Proof.
  intros Hs Ha Hm. eapply run_mono; [exact Hm|]. intros ok s1 (_ & H1 & H2).
  split; [done|by eapply after_trans].
Qed.

Lemma subscript_find {K} `{KeyOrder K} (k : K) (m : list (K * Value)) :
  is_Some (StdMap.find k (StdMap.subscript k Value.null m)) ∧
  ∀ k' x, StdMap.find k' m = Some x → StdMap.find k' (StdMap.subscript k Value.null m) = Some x.
Proof.
  unfold StdMap.subscript. split.
  - unfold StdMap.insert. destruct (StdMap.find k m) eqn:E; [by rewrite E|]. by rewrite StdMap.find_assign_eq.
  - intros k' x Hx. by rewrite StdMap.find_insert, Hx.
Qed.

Lemma resolve_index_refines i v :
  Value.type v = arrayValue →
  ∃ v', Value.resolve_index i v = Done v' ∧ refines v v' ∧ valid [SIndex i] v' ∧ Value.type v' = arrayValue.
Proof.
  destruct v as [[] c]; intros Ht; try discriminate Ht. unfold Value.resolve_index. cbn.
  destruct (subscript_find (s32 i) map_) as [Hi Hk].
  eexists; split; [done|]. split_and!; [|unfold valid; cbn; by destruct Hi as [? ->]|done].
  intros [|st q] x Hx; [injection Hx as <-; by eexists|]. exists x. split; [|done].
  destruct st as [k|j]; [done|]. cbn in *. destruct (StdMap.find (s32 j) map_) eqn:E; [|done].
  by rewrite (Hk _ _ E).
Qed.

Lemma resolveReference_refines k v :
  Value.type v = objectValue →
  ∃ v', Value.resolveReference k v = Done v' ∧ refines v v' ∧ valid [SKey k] v' ∧ Value.type v' = objectValue.
Proof.
  destruct v as [[] c]; intros Ht; try discriminate Ht. unfold Value.resolveReference. cbn.
  destruct (subscript_find (c_str k) map_) as [Hi Hk].
  eexists; split; [done|]. split_and!; [|unfold valid; cbn; by destruct Hi as [? ->]|done].
  intros [|st q] x Hx; [injection Hx as <-; by eexists|]. exists x. split; [|done].
  destruct st as [j|j]; [|done]. cbn in *. destruct (StdMap.find (c_str j) map_) eqn:E; [|done].
  by rewrite (Hk _ _ E).
Qed.

(** Making an element exist and reading it. *)
Lemma element_run st r type p ns s {B} (k : bool → M B) Q :
  value_total → safe (S (length p)) s → stack p ns s →
  (∃ v, value_at p (root_ s) = Some v ∧ Value.type v = type) →
  (∀ v, Value.type v = type → ∃ v', r v = Done v' ∧ refines v v' ∧ valid [st] v' ∧ Value.type v' = type) →
  (2 * left_ s + 1 ≤ fuel)%nat → Z.of_nat (left_ s) ≤ INT_MAX →
  (∀ ok s', safe (S (length p)) s' → after (S (length p)) s s' →
     (∃ v, value_at p (root_ s') = Some v ∧ Value.type v = type) →
     (ok = true → (left_ s' < left_ s)%nat) → run (k ok) s' Q) →
  run (_ ← subscript_current r; _ ← push_child st; ok ← readValue fuel; _ ← pop_node; k ok) s Q.
Proof.
  intros Hval Hs Hst (v & Hv & Hty) Hr Hf Hb Hk. destruct (Hr v Hty) as (v' & Hrv & Href & Hstv & Hty').
  apply run_bind. eapply run_mono; [by eapply subscript_run; eauto|].
  intros [] s1 (Hs1 & Ht1 & Hl1 & v1 & Hrv1 & Hv1). assert (v1 = v') as -> by congruence.
  eapply child_run; [done|done|by eapply stack_after| |by rewrite Hl1|by rewrite Hl1|].
  - unfold valid. by rewrite value_at_app, Hv1.
  - intros ok s2 Hs2 Ha2 Hlt. apply Hk; [done|by eapply after_trans| |].
    + destruct (container_kept _ _ _ _ Ha2 Hv1) as (v2 & Hv2 & Ht2). exists v2. split; [done|congruence].
    + by rewrite Hl1 in Hlt.
Qed.
End descent.

Lemma array_step fuel :
  value_total fuel → (∀ i, loop_total fuel arrayValue i (array_loop fuel i)) →
  ∀ i, loop_total (S fuel) arrayValue i (array_loop (S fuel) i).
Proof.
  intros Hval Hloop i s p ns Hs Hst Hf Hi Hb Ht. cbn [array_loop].
  rewrite int32_ok by (unfold INT_MIN; lia). apply run_bind, run_ret.
  eapply (element_run fuel _ _ arrayValue); try done; [intros v; by apply resolve_index_refines|lia|lia|].
  intros ok s1 Hs1 Ha1 Ht1 Hlt. destruct ok; cbn [negb];
    [|apply (loop_fails p s s1); [done|done|by apply recoverFromError_fails]].
  apply run_bind. eapply run_mono; [by apply readToken_reads|]. intros t s2 (Hs2 & Ht2 & _).
  apply run_bind. eapply run_mono; [by apply skip_comment_token_reads|]. intros t' s3 [Hs3 Ht3].
  assert (Ht23 : tokens s1 s3) by by eapply tokens_trans.
  assert (Ha3 : after (S (length p)) s s3) by by eapply after_trans.
  cbv zeta. destruct (_ && _); [by apply (loop_fails p s s3), addErrorAndRecover_fails|].
  case_decide; [by apply run_ret|]. specialize (Hlt eq_refl).
  pose proof (left_after _ _ _ (Ht23 0%nat)). destruct Ht1 as (v & Hv & Hty).
  eapply run_mono; [apply (Hloop _ s3 p ns)|].
  - done.
  - eapply stack_after; [|done|done]. lia.
  - lia.
  - lia.
  - lia.
  - destruct (container_kept p s1 s3 v (Ht23 _) Hv) as (v' & Hv' & Hty'). exists v'. split; [done|congruence].
  - intros ok s4 [H4 A4]. split; [done|by eapply after_trans].
Qed.

(** The part of [object_loop] after the value of a member. *)
Lemma member_tail fuel name p ns s s1 :
  (∀ name, loop_total fuel objectValue 0 (object_loop fuel name)) →
  safe (S (length p)) s1 → stack p ns s → after (S (length p)) s s1 →
  (∃ v, value_at p (root_ s1) = Some v ∧ Value.type v = objectValue) →
  (2 * left_ s1 + 2 ≤ fuel)%nat → Z.of_nat (left_ s1) < INT_MAX →
  run (comma ← readToken;
       if bool_decide (type_ comma ∈ [tokenObjectEnd; tokenArraySeparator; tokenComment])
       then
         comma ← skip_comment_token comma;
         if decide (type_ comma = tokenObjectEnd) then mret true
         else object_loop fuel name
       else addErrorAndRecover (bs "Missing ',' or '}' in object declaration")
              comma tokenObjectEnd) s1
    (λ _ s', safe (S (length p)) s' ∧ after (S (length p)) s s').
Proof.
  intros Hloop Hs1 Hst Ha1 (v & Hv & Hty) Hf Hb.
  apply run_bind. eapply run_mono; [by apply readToken_reads|]. intros t s2 (Hs2 & Ht2 & _).
  assert (Ha2 : after (S (length p)) s s2) by by eapply after_trans.
  case_bool_decide; [|by apply (loop_fails p s s2), addErrorAndRecover_fails].
  apply run_bind. eapply run_mono; [by apply skip_comment_token_reads|]. intros t' s3 [Hs3 Ht3].
  assert (Ht23 : tokens s1 s3) by by eapply tokens_trans.
  assert (Ha3 : after (S (length p)) s s3) by by eapply after_trans.
  case_decide; [by apply run_ret|]. pose proof (left_after _ _ _ (Ht23 0%nat)).
  eapply run_mono; [apply (Hloop _ s3 p ns)|].
  - done.
  - eapply stack_after; [|done|done]. lia.
  - lia.
  - lia.
  - lia.
  - destruct (container_kept p s1 s3 v (Ht23 _) Hv) as (v' & Hv' & Hty'). exists v'. split; [done|congruence].
  - intros ok s4 [H4 A4]. split; [done|by eapply after_trans].
Qed.

Lemma object_step fuel :
  value_total fuel → (∀ name, loop_total fuel objectValue 0 (object_loop fuel name)) →
  ∀ name, loop_total (S fuel) objectValue 0 (object_loop (S fuel) name).
Proof.
  intros Hval Hloop name s p ns Hs Hst Hf Hi Hb (v & Hv & Hty). cbn [object_loop].
  apply run_bind. eapply run_mono; [by apply readToken_reads|]. intros t s1 (Hs1 & Ht1 & _).
  apply run_bind. eapply run_mono; [by apply skip_comment_token_reads|]. intros t1 s2 [Hs2 Ht2].
  assert (Ha2 : tokens s s2) by by eapply tokens_trans.
  destruct (_ && _); [by apply run_ret|].
  case_decide; [|by apply (loop_fails p s s2), addErrorAndRecover_fails].
  apply run_bind. eapply run_mono; [by apply decodeString_text_reads|]. intros r s3 [Hs3 Ht3].
  assert (Ha3 : tokens s s3) by by eapply tokens_trans.
  destruct r as [key|]; [|by apply (loop_fails p s s3), recoverFromError_fails].
  apply run_bind. eapply run_mono; [by apply readToken_reads|]. intros colon s4 (Hs4 & Ht4 & _).
  assert (Ha4 : tokens s s4) by by eapply tokens_trans.
  case_decide; [|by apply (loop_fails p s s4), addErrorAndRecover_fails].
  pose proof (left_after _ _ _ (Ha4 0%nat)).
  eapply (element_run fuel _ _ objectValue).
  - done.
  - done.
  - eapply stack_after; [|done|apply (Ha4 (S (length p)))]. lia.
  - destruct (container_kept p s s4 v (Ha4 _) Hv) as (v' & Hv' & Hty'). exists v'. split; [done|congruence].
  - intros v'. by apply resolveReference_refines.
  - lia.
  - lia.
  - intros ok s5 Hs5 Ha5 Ht5 Hlt.
    assert (Ha : after (S (length p)) s s5) by (eapply after_trans; [apply Ha4|exact Ha5]).
    destruct ok; cbn [negb]; [|by apply (loop_fails p s s5), recoverFromError_fails].
    specialize (Hlt eq_refl). apply (member_tail fuel key p ns s s5); try done; lia.
Qed.

(** A container: the assignment, then the loop. *)
Lemma container_run fuel type m p ns s :
  loop_total fuel type 0 m → safe (length p) s → stack p ns s → (2 * left_ s + 2 ≤ fuel)%nat →
  Z.of_nat (left_ s) < INT_MAX →
  run (_ ← assign_current (Value.of_type type); m) s
    (λ _ s', safe (S (length p)) s' ∧ after (length p) s s').
Proof.
  intros Hm Hs Hst Hf Hb. apply run_bind. eapply run_mono; [by eapply assign_current_run|].
  intros [] s1 (Hs1 & Ha1 & Hl1 & v & Hv & Hty). eapply run_mono; [apply (Hm s1 p ns)|].
  - eapply safe_le; [|exact Hs1]. lia.
  - by eapply stack_after.
  - lia.
  - done.
  - lia.
  - exists v. split; [done|]. rewrite Hty. by destruct type.
  - intros ok s2 [H2 A2]. split; [done|]. eapply after_trans; [exact Ha1|]. eapply after_le; [|exact A2]. lia.
Qed.

Lemma array_body fuel :
  (∀ i, loop_total fuel arrayValue i (array_loop fuel i)) →
  loop_total fuel arrayValue 0
    (_ ← skipSpaces; c ← getR peekc;
     if decide (c = x5d) then _ ← readToken; mret true else array_loop fuel 0).
Proof.
  intros Harr s p ns Hs Hst Hf Hi Hb (v & Hv & Hty). apply run_bind.
  eapply run_mono; [apply (reads_advance _ s (span_len is_space) Hs), span_len_le|].
  intros [] s1 [Hs1 Ht1]. apply run_getR. pose proof (left_after _ _ _ (Ht1 0%nat)). case_decide.
  - apply run_bind. eapply run_mono; [by apply readToken_reads|]. intros t s2 (H2 & T2 & _).
    apply run_ret. split; [done|exact (after_trans _ _ _ _ (Ht1 _) (T2 _))].
  - eapply run_mono; [apply (Harr 0 s1 p ns)|].
    + done.
    + eapply stack_after; [|exact Hst|apply (Ht1 (length p))]. lia.
    + lia.
    + done.
    + lia.
    + destruct (container_kept p s s1 v (Ht1 _) Hv) as (v' & Hv' & Hty'). exists v'. split; [done|congruence].
    + intros ok s2 [H2 A2]. split; [done|exact (after_trans _ _ _ _ (Ht1 _) A2)].
Qed.

Lemma value_total_step fuel :
  (∀ i, loop_total fuel arrayValue i (array_loop fuel i)) →
  (∀ name, loop_total fuel objectValue 0 (object_loop fuel name)) → value_total (S fuel).
Proof.
  intros Harr Hobj s p ns Hs Hst Hf Hb. cbn [readValue].
  apply run_bind. eapply run_mono; [by apply skipCommentTokens_reads|]. intros t s1 (Hs1 & Ht1 & Hlt1).
  apply run_bind. eapply run_mono; [apply (attach_reads p ns s1); [done|by eapply stack_after]|].
  intros [] s2 [Hs2 Ht2]. assert (Ht : tokens s s2) by by eapply tokens_trans.
  assert (Hst2 : stack p ns s2) by (eapply stack_after; [|exact Hst|apply (Ht (length p))]; lia).
  assert (Hlt : type_ t ≠ tokenEndOfStream → (left_ s2 < left_ s)%nat).
  { intros Hne. destruct Hlt1 as [Hlt1|]; [|done]. exact (token_trans _ _ _ Ht1 Hlt1 Ht2). }
  assert (Hfinish : ∀ m, type_ t ≠ tokenEndOfStream →
    run m s2 (λ ok s', safe (S (length p)) s' ∧ after (length p) s2 s') →
    run (ok ← m; _ ← remember_value; mret ok) s2
      (λ ok s', safe (length p) s' ∧ after (length p) s s' ∧ (ok = true → (left_ s' < left_ s)%nat))).
  { intros m Hne Hm. apply run_bind. eapply run_mono; [exact Hm|]. intros ok s3 [Hs3 Ha3].
    eapply run_mono; [by apply (finish_run (S (length p)) p ns s2)|]. intros ok' s4 (_ & Hs4 & Ha4 & Hl4).
    split_and!; [done|exact (after_trans _ _ _ _ (Ht _) Ha4)|]. intros _. specialize (Hlt Hne).
    pose proof (left_after _ _ _ Ha3). lia. }
  assert (Hassign : ∀ m, assigns p m s2 →
    run m s2 (λ ok s', safe (S (length p)) s' ∧ after (length p) s2 s')).
  { intros m Hm. eapply run_mono; [exact Hm|]. intros ok s3 [H3 A3].
    split; [by eapply safe_le; [|exact H3]; lia|done]. }
  assert (Herror : run (addError (bs "Syntax error: value, object or array expected.") t None) s2
    (λ ok s', safe (length p) s' ∧ after (length p) s s' ∧ (ok = true → (left_ s' < left_ s)%nat))).
  { eapply run_mono; [by apply addError_fails|]. intros ok s3 (-> & H3 & T3).
    split_and!; [done|exact (after_trans _ _ _ _ (Ht _) (T3 _))|done]. }
  destruct (type_ t) eqn:Et; try exact Herror; apply Hfinish; try done.
  - specialize (Hlt ltac:(done)). apply (container_run fuel _ _ p ns); [done..|lia|lia].
  - specialize (Hlt ltac:(done)). apply (container_run fuel _ _ p ns); [by apply array_body|done..|lia|lia].
  - by eapply Hassign, decodeString_assigns.
  - by eapply Hassign, decodeNumber_assigns.
  - by eapply Hassign, assigns_assign.
  - by eapply Hassign, assigns_assign.
  - by eapply Hassign, assigns_assign.
Qed.

(** ** Every level of fuel *)

Lemma descent_total fuel :
  value_total fuel ∧ (∀ i, loop_total fuel arrayValue i (array_loop fuel i)) ∧
  (∀ name, loop_total fuel objectValue 0 (object_loop fuel name)).
Proof.
  induction fuel as [|fuel (Hv & Ha & Ho)].
  - split_and!; [intros s p ns ? ? Hf; lia|intros i s p ns ? ? Hf; lia|intros i s p ns ? ? Hf; lia].
  - split_and!; [by apply value_total_step|by apply array_step|by apply object_step].
Qed.

Lemma init_safe features document root cc : safe 0 (init features document root cc).
Proof. split; cbn; try done; [lia|by left]. Qed.

(** Comments left over at the end go to the root. *)
Lemma trailing_comments_run s :
  safe 0 s →
  reads 0 (if collectComments_ s && negb (length (commentsBefore_ s) =? 0)%nat
           then set_comment_at [] (commentsBefore_ s) commentAfter else mret tt) s.
Proof.
  intros Hs. unfold reads. destruct (_ && _); [|apply run_ret; split; [done|apply tokens_refl]].
  apply set_comment_at_reads; [done|by eexists|apply Hs].
Qed.

Lemma parse_body_run features document root cc :
  szof document ≤ INT_MAX →
  run (parse_body document) (init features document root cc)
    (λ _ s, document_ s = document ∧ (current_ s ≤ length document)%nat).
Proof.
  intros Hsize. set (s0 := init features document root cc). pose proof (init_safe features document root cc : safe 0 s0) as Hs0.
  assert (Hst : stack [] [] s0).
  { split; [done|]. constructor; [|constructor]. split; [by eexists|done]. }
  assert (Hdone : ∀ s, safe 0 s → after 0 s0 s →
    document_ s = document ∧ (current_ s ≤ length document)%nat).
  { intros s Hs Ha. pose proof (after_document _ _ _ Ha : _ = document) as Hd.
    pose proof (safe_current _ _ Hs) as Hc. rewrite Hd in Hc. done. }
  destruct (descent_total (parse_fuel document)) as [Hv _]. unfold parse_body.
  apply run_bind. eapply run_mono; [apply (Hv s0 [] []); [done|done| |]|].
  { unfold left_, parse_fuel. cbn. lia. }
  { unfold left_. cbn. lia. }
  intros ok s1 (Hs1 & Ha1 & _). apply run_bind.
  eapply run_mono; [by apply skipCommentTokens_reads|]. intros t s2 (Hs2 & Ht2 & _).
  apply run_getR, run_getR, run_bind.
  eapply run_mono; [exact (trailing_comments_run s2 Hs2)|]. intros [] s3 [Hs3 Ht3].
  assert (Ha3 : after 0 s0 s3).
  { eapply after_trans; [exact Ha1|]. eapply after_trans; [apply Ht2|apply Ht3]. }
  apply run_getR, run_getR. destruct (_ && _).
  - eapply run_mono; [by apply addError_fails|]. intros ok' s4 (_ & H4 & T4).
    apply Hdone; [done|]. eapply after_trans; [exact Ha3|apply T4].
  - apply run_ret. by apply Hdone.
Qed.

(** C20. The parser terminates on every document of at most [INT_MAX] bytes:
    whatever the bytes, the features, the value it reads into and whether
    comments are collected, [Reader::parse] returns, with its position inside
    the document, except that it may overrun the 32-byte buffer of
    [decodeDouble]; no other undefined behaviour, exception or failed assertion
    can happen, the index of [readArray] included.  Twice the length of the
    document and four bounds the rounds of loops and the nested calls of
    [readValue]; memory and a call stack for as many nested calls are taken to
    be there, which the code does not test. *)
Theorem parse_total features document root cc :
  szof document ≤ INT_MAX →
  (∃ ok s, parse_with features document root cc = Done (ok, s) ∧
     document_ s = document ∧ (current_ s ≤ length document)%nat) ∨
  parse_with features document root cc = Fault buffer_fault.
Proof.
  intros Hsize. pose proof (parse_body_run features document root cc Hsize) as H. unfold run in H. unfold parse_with.
  destruct (parse_body document _) as [[ok s]|f]; [left; by exists ok, s|right; by rewrite H].
Qed.

Lemma parse_total_witness :
  ∃ ok s, parse_with Features_all (bs "[[[7,") Value.null true = Done (ok, s) ∧
    document_ s = bs "[[[7," ∧ (current_ s ≤ 5)%nat.
Proof.
  destruct (parse_total Features_all (bs "[[[7,") Value.null true ltac:(by vm_compute)) as [H|H]; [exact H|].
  exfalso. vm_compute in H. discriminate.
Defined.

(** The buffer is overrun by a number of 32 characters. *)
Example long_number_faults :
  parse_with Features_all (repeat "7"%byte 32) Value.null true = Fault buffer_fault.
Proof. vm_compute. reflexivity. Qed.
