(* ===== verification/JsonReport.v ===== *)
(** Error messages of the JSON parser and reading from a stream
    (src/IMServer/src/jsoncpp/json_reader.cpp: getLocationLineAndColumn,
    getFormatedErrorMessages, operator>>). *)

From S2P Require Import Prelude StdMap CDouble JsonValue JsonReader JsonSafety.
Local Open Scope Z_scope.

(** * The code *)
Section report.
Context (document : bytes).

(** The loop of [getLocationLineAndColumn] from [current], where the document
    goes on with [rest]; the character at the end is a NUL. *)
Fixpoint location_loop (rest : bytes) (location current lastLineStart : nat) (line : Z) : outcome (Z * nat) :=
  if (current <? location)%nat then
    match rest with
    | [] => Done (line, lastLineStart)
    | c :: rest =>
        if decide (c = x0d) then
          line ← int32 (line + 1);
          match rest with
          | d :: rest' =>
              if decide (d = x0a) then location_loop rest' location (S (S current)) (S (S current)) line
              else location_loop rest location (S current) (S current) line
          | [] => location_loop rest location (S current) (S current) line
          end
        else if decide (c = x0a) then
          line ← int32 (line + 1); location_loop rest location (S current) (S current) line
        else location_loop rest location (S current) lastLineStart line
    end
  else Done (line, lastLineStart).

(** [getLocationLineAndColumn( location, line, column )] *)
Definition getLocationLineAndColumn (location : nat) : outcome (Z * Z) :=
  '(line, lastLineStart) ← location_loop document location 0 0 0;
  column ← int32 (s32 (Z.of_nat location - Z.of_nat lastLineStart) + 1);
  line ← int32 (line + 1);
  Done (line, column).

(** [getLocationLineAndColumn( location )]; the text has at most 36 characters. *)
Definition location_text (location : nat) : outcome bytes :=
  '(line, column) ← getLocationLineAndColumn location;
  Done (bs "Line " ++ signed_decimal line ++ bs ", Column " ++ signed_decimal column).

(** [getFormatedErrorMessages()] *)
Fixpoint getFormatedErrorMessages (errors : list ErrorInfo) : outcome bytes :=
  match errors with
  | [] => Done []
  | error :: errors =>
      at_ ← location_text (start_ (token_ error));
      see ← match extra_ error with
            | Some extra => text ← location_text extra; Done (bs "See " ++ text ++ bs " for detail." ++ [x0a])
            | None => Done []
            end;
      more ← getFormatedErrorMessages errors;
      Done (bs "* " ++ at_ ++ [x0a] ++ bs "  " ++ message_ error ++ [x0a] ++ see ++ more)
  end.
End report.

(** [std::getline( sin, doc, (char)EOF )]: up to a byte 0xFF. *)
Fixpoint getline (sin : bytes) : bytes :=
  match sin with
  | [] => []
  | c :: sin => if decide (c = xff) then [] else c :: getline sin
  end.

(** [Reader::parse( sin, root, collectComments )] *)
Definition parse_stream (features : Features) (sin : bytes) (root : Value) (collectComments : bool) : outcome (bool * Reader) :=
  parse_with features (getline sin) root collectComments.

(** [operator>>( sin, root )]: the root, or what the [std::runtime_error] says. *)
Definition operator_in (sin : bytes) (root : Value) : outcome (Value + bytes) :=
  '(ok, reader) ← parse_stream Features_all sin root true;
  if (ok : bool) then Done (inl (root_ reader))
  else message ← getFormatedErrorMessages (document_ reader) (errors_ reader); Done (inr message).

(** * Where lines start *)

(** A line starts at the beginning and after a line feed, or after a carriage
    return that no line feed follows. *)
Definition starts_line (document : bytes) (i : nat) : bool :=
  match i with
  | O => true
  | S p =>
      match document !! p with
      | Some c => bool_decide (c = x0a) || (bool_decide (c = x0d) && negb (bool_decide (document !! i = Some x0a)))
      | None => false
      end
  end.
(** The lines that start after the beginning and not after [n]. *)
Fixpoint starts_upto (document : bytes) (n : nat) : Z :=
  match n with O => 0 | S p => starts_upto document p + Z.b2z (starts_line document n) end.
(** The start of the line [n] is in. *)
Fixpoint start_of (document : bytes) (n : nat) : nat :=
  match n with O => O | S p => if starts_line document n then n else start_of document p end.
(** Between the two characters of a line end. *)
Definition within_crlf (document : bytes) (i : nat) : bool :=
  match i with
  | O => false
  | S p => bool_decide (document !! p = Some x0d) && bool_decide (document !! i = Some x0a)
  end.

Lemma starts_upto_range document n : 0 ≤ starts_upto document n ≤ Z.of_nat n.
Proof. induction n as [|n IH]; cbn [starts_upto]; [done|]. destruct (starts_line document (S n)); cbn; lia. Qed.
Lemma start_of_le document n : (start_of document n ≤ n)%nat.
Proof. induction n as [|n IH]; cbn [start_of]; [done|]. destruct (starts_line document (S n)); lia. Qed.

Lemma starts_upto_mono document n m : (n ≤ m)%nat → starts_upto document n ≤ starts_upto document m.
Proof.
  induction 1 as [|m _ IH]; [done|]. cbn [starts_upto]. destruct (starts_line document (S m)); cbn; lia.
Qed.
(** Positions in the same line have the same start. *)
Lemma start_of_same document n m : (n ≤ m)%nat → starts_upto document n = starts_upto document m → start_of document n = start_of document m.
Proof.
  induction 1 as [|m Hle IH]; [done|]. cbn [starts_upto start_of]. pose proof (starts_upto_mono document n m Hle).
  destruct (starts_line document (S m)); cbn; [lia|]. intros E. apply IH. lia.
Qed.

Section location.
Context (document : bytes) (location : nat).
Context (Hlen : szof document < 2 ^ 31 - 1) (Hloc : (location ≤ length document)%nat).

(** Where the loop stops. *)
Definition stops_at : nat := if within_crlf document location then S location else location.

Definition at_head (current : nat) : Prop :=
  within_crlf document current = false ∧
  ((current ≤ location)%nat ∨ current = S location ∧ within_crlf document location = true).

Lemma location_loop_ok k rest pre : (length rest ≤ k)%nat → document = pre ++ rest → at_head (length pre) →
  location_loop rest location (length pre) (start_of document (length pre)) (starts_upto document (length pre)) =
    Done (starts_upto document stops_at, start_of document stops_at).
Proof.
  revert rest pre. induction k as [k IH] using lt_wf_ind. intros rest pre Hk Hd [Hw Hpos].
  assert (∀ i, starts_upto document i ≤ Z.of_nat i) as Hup by (intros; apply starts_upto_range).
  destruct rest as [|c rest]; cbn [location_loop].
  { assert (length pre = stops_at) as <-.
    { rewrite Hd, app_nil_r in Hloc. unfold stops_at. destruct Hpos as [Hle|[-> ->]]; [|done].
      assert (length pre = location) as <- by lia. by rewrite Hw. }
    by destruct (length pre <? location)%nat. }
  destruct (Nat.ltb_spec (length pre) location) as [Hlt|Hge].
  2: { assert (length pre = stops_at) as <-; [|done]. unfold stops_at. destruct Hpos as [Hle|[-> ->]]; [|done].
       assert (length pre = location) as <- by lia. by rewrite Hw. }
  assert (document !! length pre = Some c) as Hc by (by rewrite Hd, list_lookup_middle).
  assert (∀ d rest', rest = d :: rest' → document !! S (length pre) = Some d) as Hnext.
  { intros d rest' ->. rewrite Hd, cons_middle, app_assoc. apply list_lookup_middle. rewrite length_app. cbn. lia. }
  assert (rest = [] → document !! S (length pre) = None) as Hend.
  { intros ->. apply lookup_ge_None. rewrite Hd, length_app. cbn. lia. }
  assert (Z.of_nat (length pre) + 1 ≤ INT_MAX) as Hmax by (unfold INT_MAX; lia).
  assert (∀ line, line ≤ Z.of_nat (length pre) → 0 ≤ line → int32 (line + 1) = Done (line + 1)) as Hint.
  { intros line H1 H2. apply int32_ok. unfold INT_MIN, INT_MAX in *. lia. }
  pose proof (starts_upto_range document (length pre)) as Hr.
  (* one character further *)
  assert (∀ line lls, within_crlf document (S (length pre)) = false → starts_upto document (S (length pre)) = line →
    start_of document (S (length pre)) = lls → location_loop rest location (S (length pre)) lls line =
    Done (starts_upto document stops_at, start_of document stops_at)) as Hone.
  { intros line lls Hw' <- <-. assert (S (length pre) = length (pre ++ [c])) as -> by (rewrite length_app; cbn; lia).
    apply (IH (length rest)); [cbn in Hk; lia|done|by rewrite Hd, <-app_assoc|].
    split; [rewrite length_app, Nat.add_1_r; done|left; rewrite length_app; cbn; lia]. }
  destruct (decide (c = x0d)) as [->|Hcr].
  - rewrite Hint, bind_ret_l by lia. destruct rest as [|d rest'].
    + apply Hone; cbn [within_crlf starts_upto start_of starts_line]; rewrite Hc, Hend by done; done.
    + pose proof (Hnext d rest' eq_refl) as Hd'. destruct (decide (d = x0a)) as [->|Hlf].
      * assert (starts_line document (S (length pre)) = false) as Hs1 by (cbn [starts_line]; by rewrite Hc, Hd').
        assert (starts_line document (S (S (length pre))) = true) as Hs2 by (cbn [starts_line]; by rewrite Hd').
        assert (S (S (length pre)) = length (pre ++ [x0d; x0a])) as E by (rewrite length_app; cbn; lia).
        assert (starts_upto document (length pre) + 1 = starts_upto document (S (S (length pre)))) as ->
          by (cbn [starts_upto]; rewrite Hs1, Hs2; cbn; lia).
        replace (S (S (length pre))) with (start_of document (S (S (length pre)))) at 2 by (cbn [start_of]; by rewrite Hs2).
        rewrite E. apply (IH (length rest')); [cbn in Hk; lia|done|by rewrite Hd, <-app_assoc|]. rewrite <-E. split.
        { cbn [within_crlf]. by rewrite Hd'. }
        destruct (decide (location = S (length pre))) as [Hl|]; [right; rewrite Hl; split; [done|]|left; lia].
        cbn [within_crlf]. by rewrite Hc, Hd', !bool_decide_eq_true_2.
      * assert (bool_decide (Some d = Some x0a) = false) as Hb by (apply bool_decide_eq_false_2; congruence).
        apply Hone; cbn [within_crlf starts_upto start_of starts_line]; rewrite Hc, Hd', Hb; done.
  - assert (bool_decide (Some c = Some x0d) = false) as Hb1 by (apply bool_decide_eq_false_2; congruence).
    assert (bool_decide (c = x0d) = false) as Hb2 by (by apply bool_decide_eq_false_2).
    destruct (decide (c = x0a)) as [->|Hlf].
    + rewrite Hint, bind_ret_l by lia. apply Hone; cbn [within_crlf starts_upto start_of starts_line]; rewrite Hc; done.
    + assert (bool_decide (c = x0a) = false) as Hb3 by (by apply bool_decide_eq_false_2).
      apply Hone; cbn [within_crlf starts_upto start_of starts_line]; rewrite Hc, ?Hb1, ?Hb2, ?Hb3; cbn; try done. lia.
Qed.
End location.

Lemma start_of_starts document n : starts_line document (start_of document n) = true.
Proof. induction n as [|n IH]; cbn [start_of]; [done|]. by destruct (starts_line document (S n)) eqn:E. Qed.
Lemma no_start_between document n i : (start_of document n < i ≤ n)%nat → starts_line document i = false.
Proof.
  induction n as [|n IH]; cbn [start_of]; [lia|]. destruct (starts_line document (S n)) eqn:E; [lia|].
  intros Hi. destruct (decide (i = S n)) as [->|]; [done|]. apply IH. lia.
Qed.

Lemma location_ok document location : szof document < 2 ^ 31 - 1 → (location ≤ length document)%nat →
  getLocationLineAndColumn document location =
    Done (starts_upto document (stops_at document location) + 1,
          Z.of_nat location - Z.of_nat (start_of document (stops_at document location)) + 1).
Proof.
  intros Hlen Hloc. unfold getLocationLineAndColumn.
  pose proof (location_loop_ok document location Hlen Hloc (length document) document [] (le_n _) eq_refl) as H.
  cbn [length start_of starts_upto] in H. rewrite H by (split; [done|left; cbn; lia]). rewrite bind_ret_l. cbv beta iota.
  pose proof (start_of_le document (stops_at document location)) as Hs.
  pose proof (starts_upto_range document (stops_at document location)) as Hu.
  assert (stops_at document location ≤ S location)%nat as Hst by (unfold stops_at; destruct (within_crlf document location); lia).
  assert (stops_at document location ≤ length document)%nat as Hst'.
  { unfold stops_at. destruct (within_crlf document location) eqn:E; [|done]. unfold within_crlf in E.
    destruct location as [|p]; [done|]. apply andb_true_iff in E as [_ E]. apply bool_decide_eq_true in E.
    apply lookup_lt_Some in E. lia. }
  rewrite wraps_small by (cbn; lia). rewrite !bind_int32 by (unfold INT_MIN, INT_MAX; lia). done.
Qed.

(** The position the parser reports for an error is exact: the line is one
    more than the number of lines that start after the beginning and up to the
    position (line feeds, carriage returns and pairs of them each end a line),
    the column counts from the start of that line, and no other position of the
    document has the same line and column.  Only between the two characters of a
    line end is it column 0 of the next line. *)
Theorem error_position_exact document location :
  szof document < 2 ^ 31 - 1 → (location ≤ length document)%nat →
  ∃ line column start, getLocationLineAndColumn document location = Done (line, column) ∧
    line = starts_upto document (stops_at document location) + 1 ∧ column = Z.of_nat location - Z.of_nat start + 1 ∧
    starts_line document start = true ∧ (∀ i, (start < i ≤ location)%nat → starts_line document i = false) ∧
    (column = 0 ↔ within_crlf document location = true) ∧ 0 ≤ column ∧
    ∀ location', (location' ≤ length document)%nat →
      getLocationLineAndColumn document location' = Done (line, column) → location' = location.
Proof.
  intros Hlen Hloc. pose proof (location_ok document location Hlen Hloc) as H.
  pose proof (start_of_le document (stops_at document location)) as Hs.
  eexists _, _, _. split; [exact H|]. split; [done|]. split; [done|]. split; [apply start_of_starts|].
  assert (stops_at document location = location ∧ within_crlf document location = false ∨
          stops_at document location = S location ∧ within_crlf document location = true ∧
          start_of document (S location) = S location) as Hst.
  { unfold stops_at. destruct (within_crlf document location) eqn:E; [right|by left]. split; [done|]. split; [done|].
    cbn [start_of]. assert (starts_line document (S location) = true) as ->; [|done].
    unfold within_crlf in E. destruct location as [|p]; [done|]. apply andb_true_iff in E as [_ E].
    apply bool_decide_eq_true in E. cbn [starts_line]. by rewrite E. }
  split_and!.
  - intros i Hi. apply (no_start_between document (stops_at document location)).
    destruct Hst as [[E _]|(E & _ & Hst)]; rewrite E in Hi |- *; [done|lia].
  - destruct Hst as [[E ->]|(-> & -> & ->)]; [rewrite E in Hs |- *|]; split; done || lia.
  - destruct Hst as [[E _]|(-> & _ & ->)]; [rewrite E in Hs |- *|]; lia.
  - intros location' Hloc' H'. rewrite (location_ok document location' Hlen Hloc') in H'. injection H' as Hl Hc.
    assert (start_of document (stops_at document location') = start_of document (stops_at document location)) as E; [|lia].
    destruct (Nat.le_ge_cases (stops_at document location') (stops_at document location));
      [|symmetry]; apply start_of_same; lia.
Qed.

(** * Examples *)
Module Sample.

Theorem error_position_exact_witness :
  ∃ line column, getLocationLineAndColumn (bs "{" ++ [x0d; x0a] ++ bs "  1" ++ [x0a]) 5 = Done (line, column) ∧ column ≠ 0 ∧
    ∀ l, (l ≤ 7)%nat → getLocationLineAndColumn (bs "{" ++ [x0d; x0a] ++ bs "  1" ++ [x0a]) l = Done (line, column) → l = 5%nat.
Proof.
  destruct (error_position_exact (bs "{" ++ [x0d; x0a] ++ bs "  1" ++ [x0a]) 5) as (line & column & start & H & _ & _ & _ & _ & Hc & _ & Hinj).
  - vm_compute. reflexivity.
  - apply Nat.leb_le. reflexivity.
  - exists line, column. split; [exact H|]. split; [intros E; apply Hc in E; discriminate E|exact Hinj].
Defined.

Definition text_of (r : outcome (Value + bytes)) : option bytes := match r with Done (inr m) => Some m | _ => None end.
Example missing_colon :
  text_of (operator_in (bs "{" ++ [x0a] ++ bs "  1 }") Value.null) =
    Some (bs "* Line 2, Column 3" ++ [x0a] ++ bs "  Missing '}' or object member name" ++ [x0a]).
Proof. vm_compute. reflexivity. Qed.
(** A byte 0xFF ends the stream. *)
Example stream_ends_at_ff : getline (bs "[1]" ++ [xff] ++ bs "garbage") = bs "[1]".
Proof. reflexivity. Qed.
End Sample.
