(* ===== verification/JsonTyping.v ===== *)
(** The types of JSON values: what a [Value] the library builds may look like,
    and that the parser only ever builds such values
    (src/IMServer/src/jsoncpp: value.h, json_value.cpp, json_reader.cpp). *)

From S2P Require Import Prelude StdMap CDouble JsonValue JsonReader.
Local Open Scope Z_scope.

(** * Well-typed values *)

Definition int_range (z : Z) : Prop := Value.minInt ≤ z ≤ Value.maxInt.
Definition uint_range (z : Z) : Prop := 0 ≤ z ≤ Value.maxUInt.
(** A C string: the class stores [char *]. *)
Definition c_string (l : bytes) : Prop := x00 ∉ l.
Definition comment_text (l : option bytes) : Prop :=
  match l with Some l => c_string l ∧ (l = [] ∨ head l = Some x2f) | None => True end.
Definition typed_comments (c : option CommentInfos) : Prop :=
  match c with
  | Some c => comment_text (c_before c) ∧ comment_text (c_same_line c) ∧ comment_text (c_after c)
  | None => True
  end.

(** Integers in the range of their type, strings and names without a NUL, maps
    in the order of their keys, and so on all the way down. *)
Inductive typed : Value → Prop :=
  | typed_null c : typed_comments c → typed (mkValue nullV c)
  | typed_int i c : int_range i → typed_comments c → typed (mkValue (intV i) c)
  | typed_uint u c : uint_range u → typed_comments c → typed (mkValue (uintV u) c)
  | typed_real r c : typed_comments c → typed (mkValue (realV r) c)
  | typed_bool b c : typed_comments c → typed (mkValue (boolV b) c)
  | typed_string s c : (∀ l, s = Some l → c_string l) → typed_comments c → typed (mkValue (stringV s) c)
  | typed_array m c : StdMap.wf m → Forall (λ p, int_range p.1) m → Forall (λ p, typed p.2) m →
      typed_comments c → typed (mkValue (arrayV m) c)
  | typed_object m c : StdMap.wf m → Forall (λ p, c_string p.1) m → Forall (λ p, typed p.2) m →
      typed_comments c → typed (mkValue (objectV m) c).

Create HintDb types.

Lemma s32_int_range z : int_range (s32 z).
Proof.
  unfold int_range, Value.minInt, Value.maxInt, INT_MIN, INT_MAX, wraps.
  pose proof (Z.mod_pos_bound (z + 2 ^ (32 - 1)) (2 ^ 32) eq_refl). lia.
Qed.
Lemma c_str_c_string l : c_string (c_str l).
Proof. apply c_str_no_nul. Qed.
Lemma typed_comments_of v : typed v → typed_comments (Value.comments v).
Proof. by destruct 1. Qed.
Lemma typed_with_comments v c : typed v → typed_comments c → typed (mkValue (Value.holder v) c).
Proof. destruct 1; intros Hc; by constructor. Qed.
#[export] Hint Resolve s32_int_range c_str_c_string typed_comments_of : types.

(** ** Values the parser makes *)

Lemma of_holder_typed h : typed (mkValue h None) → typed (Value.of_holder h).
Proof. done. Qed.
Lemma null_typed : typed Value.null.
Proof. by constructor. Qed.
Lemma of_type_typed t : typed (Value.of_type t).
Proof.
  destruct t; constructor; try done; try (apply StdMap.wf_nil); try constructor;
    unfold Value.minInt, Value.maxInt, Value.maxUInt, INT_MIN, INT_MAX, UINT_MAX; lia.
Qed.
Lemma of_int_typed z : typed (Value.of_int (s32 z)).
Proof. constructor; [apply s32_int_range|done]. Qed.
Lemma of_uint_typed z : uint_range z → typed (Value.of_uint z).
Proof. by constructor. Qed.
Lemma of_double_typed r : typed (Value.of_double r).
Proof. by constructor. Qed.
Lemma of_bool_typed b : typed (Value.of_bool b).
Proof. by constructor. Qed.
Lemma of_string_typed l : typed (Value.of_string l).
Proof. constructor; [|done]. intros ? [= <-]. apply c_str_c_string. Qed.
#[export] Hint Resolve null_typed of_type_typed of_int_typed of_uint_typed of_double_typed of_bool_typed of_string_typed : types.

(** ** Operations *)

Lemma Forall_update {K} `{KeyOrder K} (P : K * Value → Prop) g k m :
  Forall P m → (∀ k v, P (k, v) → P (k, g v)) → Forall P (StdMap.update g k m).
Proof.
  intros Hm Hg. induction Hm as [|[k' v] m Hp Hm IH]; cbn; [constructor|].
  repeat case_match; constructor; auto.
Qed.
Lemma Forall_insert {K} `{KeyOrder K} (P : K * Value → Prop) k v m :
  P (k, v) → (∀ v', P (k, v') → P (k, v)) → Forall P m → Forall P (StdMap.insert k v m).
Proof. intros Hk Hv Hm. unfold StdMap.insert. destruct (StdMap.find k m); [done|]. by apply StdMap.Forall_assign. Qed.

Lemma assign_typed v other : typed v → typed other → typed (Value.assign v other).
Proof. intros Hv Ho. unfold Value.assign, Value.swap, Value.copy. cbn. apply typed_with_comments; auto with types. Qed.
Lemma object_typed k m c : StdMap.wf m → Forall (λ p, c_string p.1) m → Forall (λ p, typed p.2) m →
  typed_comments c → typed (mkValue (objectV (StdMap.subscript (c_str k) Value.null m)) c).
Proof.
  intros. constructor; [by apply StdMap.wf_insert|..|done]; apply Forall_insert; cbn; auto with types.
Qed.
Lemma array_typed i m c : StdMap.wf m → Forall (λ p, int_range p.1) m → Forall (λ p, typed p.2) m →
  typed_comments c → typed (mkValue (arrayV (StdMap.subscript (s32 i) Value.null m)) c).
Proof.
  intros. constructor; [by apply StdMap.wf_insert|..|done]; apply Forall_insert; cbn; auto with types.
Qed.
Lemma resolveReference_typed key v v' : typed v → Value.resolveReference key v = Done v' → typed v'.
Proof.
  intros Hv. unfold Value.resolveReference, Value.as_object.
  destruct Hv; cbn [Value.holder mbind outcome_bind Value.comments]; try discriminate; intros [= <-]; 
    first [by apply object_typed|apply object_typed; [apply StdMap.wf_nil|constructor|constructor|done]].
Qed.
Lemma resolve_index_typed i v v' : typed v → Value.resolve_index i v = Done v' → typed v'.
Proof.
  intros Hv. unfold Value.resolve_index, Value.as_array.
  destruct Hv; cbn [Value.holder mbind outcome_bind Value.comments]; try discriminate; intros [= <-]; 
    first [by apply array_typed|apply array_typed; [apply StdMap.wf_nil|constructor|constructor|done]].
Qed.
Lemma setComment_typed text placement v v' : typed v → Value.setComment text placement v = Done v' → typed v'.
Proof.
  intros Hv. unfold Value.setComment. destruct (match c_str text with [] => true | b :: _ => bool_decide (b = x2f) end) eqn:E; [|done].
  cbn. intros [= <-]. apply typed_with_comments; [done|]. apply typed_comments_of in Hv.
  assert (comment_text (Some (c_str text))) as Ht.
  { split; [apply c_str_c_string|]. destruct (c_str text) as [|b l]; [by left|right]. apply bool_decide_eq_true in E. by subst. }
  destruct (Value.comments v) as [c|]; cbn in Hv; destruct placement; cbn; naive_solver.
Qed.

Lemma update_key_typed key g v : typed v → (∀ u, typed u → typed (g u)) → typed (Value.update_key key g v).
Proof.
  intros Hv Hg. unfold Value.update_key. destruct Hv; cbn; try by constructor.
  constructor; [by apply StdMap.wf_update|..|done]; apply Forall_update; cbn; auto.
Qed.
Lemma update_index_typed i g v : typed v → (∀ u, typed u → typed (g u)) → typed (Value.update_index i g v).
Proof.
  intros Hv Hg. unfold Value.update_index. destruct Hv; cbn; try by constructor.
  constructor; [by apply StdMap.wf_update|..|done]; apply Forall_update; cbn; auto.
Qed.
Lemma update_at_typed p g v : typed v → (∀ u, typed u → typed (g u)) → typed (update_at p g v).
Proof.
  intros Hv Hg. revert v Hv. induction p as [|[k|i] p IH]; intros v Hv; cbn; [auto|..].
  - apply update_key_typed; auto.
  - apply update_index_typed; auto.
Qed.
Lemma find_typed {K} `{KeyOrder K} (k : K) m v : Forall (λ p, typed p.2) m → StdMap.find k m = Some v → typed v.
Proof. intros Hm Hf%StdMap.find_elem. rewrite Forall_forall in Hm. by apply (Hm _ Hf). Qed.
Lemma value_at_typed p v u : typed v → value_at p v = Some u → typed u.
Proof.
  revert v. induction p as [|[k|i] p IH]; intros v Hv; cbn; [by intros [= <-]|..];
    destruct Hv; cbn; try done; destruct (StdMap.find _ m) as [w|] eqn:E; try done;
    apply IH; first [exact (find_typed (K:=bytes) _ _ _ ltac:(eassumption) E)|exact (find_typed (K:=Z) _ _ _ ltac:(eassumption) E)].
Qed.

(** * The parser keeps its tree well typed *)

(** A computation of the parser after which the tree is well typed if it was
    before. *)
Definition keeps_types {A} (m : M A) : Prop := ∀ s a s', m s = Done (a, s') → typed (root_ s) → typed (root_ s').

Lemma kt_ret {A} (a : A) : keeps_types (mret a).
Proof. by intros s a' s' [= <- <-]. Qed.
Lemma kt_bind {A B} (m : M A) (k : A → M B) : keeps_types m → (∀ a, keeps_types (k a)) → keeps_types (m ≫= k).
Proof.
  intros Hm Hk s b s'. unfold mbind, M_bind. destruct (m s) as [[a s1]|] eqn:E; [|done].
  intros Hb Hs. eapply Hk; [exact Hb|]. by eapply Hm.
Qed.
Lemma kt_getR {A} (f : Reader → A) : keeps_types (getR f).
Proof. by intros s a s' [= <- <-]. Qed.
Lemma kt_modR f : (∀ s, root_ (f s) = root_ s) → keeps_types (modR f).
Proof. intros Hf s a s' [= <- <-]. by rewrite Hf. Qed.
Lemma kt_lift {A} (m : outcome A) : keeps_types (lift m).
Proof. intros s a s'. unfold lift. destruct m; [|done]. by intros [= <- <-]. Qed.
#[local] Hint Resolve kt_ret kt_getR kt_lift : types.

(** Binds, returns and case distinctions. *)
Ltac kt :=
  repeat first
    [ solve [auto 3 with types]
    | apply kt_bind; [|intros ?]
    | apply kt_modR; intros ?; reflexivity
    | progress cbv zeta
    | case_match
    | case_decide ].

Lemma kt_getNextChar : keeps_types getNextChar.
Proof. intros s a s'. unfold getNextChar. destruct (rest s); by intros [= <- <-]. Qed.
Lemma kt_skipSpaces : keeps_types skipSpaces.
Proof. unfold skipSpaces. kt. Qed.
Lemma kt_match pattern : keeps_types (match_ pattern).
Proof. intros s a s'. unfold match_. case_decide; by intros [= <- <-]. Qed.
Lemma kt_readString : keeps_types readString.
Proof. intros s a s'. unfold readString. destruct (string_scan _ _). by intros [= <- <-]. Qed.
Lemma kt_top_node : keeps_types top_node.
Proof. intros s a s'. unfold top_node. destruct (nodes_ s); [done|]. by intros [= <- <-]. Qed.
#[local] Hint Resolve kt_getNextChar kt_skipSpaces kt_match kt_readString kt_top_node : types.

Lemma kt_modify_current g : (∀ u, typed u → typed (g u)) → keeps_types (modify_current g).
Proof.
  intros Hg. unfold modify_current. apply kt_bind; [auto with types|]. intros p s a s' [= <- <-] Hs. cbn.
  by apply update_at_typed.
Qed.
Lemma kt_assign_current v : typed v → keeps_types (assign_current v).
Proof. intros Hv. apply kt_modify_current. intros u Hu. by apply assign_typed. Qed.
Lemma kt_subscript_current r : (∀ v v', typed v → r v = Done v' → typed v') → keeps_types (subscript_current r).
Proof.
  intros Hr s a s'. unfold subscript_current, current_value, top_node, modify_current, lift, getR, modR, mbind, M_bind.
  destruct (nodes_ s) as [|p ps] eqn:En; [done|]. destruct (value_at p (root_ s)) as [v|] eqn:Ev; [|done]. cbn.
  destruct (r v) as [v'|] eqn:Er; [|done]. cbn. unfold top_node. rewrite En. intros [= <- <-] Hs. cbn.
  apply update_at_typed; [done|]. intros u _. eapply Hr; [|exact Er]. by eapply value_at_typed.
Qed.
Lemma kt_set_comment_at p text placement : keeps_types (set_comment_at p text placement).
Proof.
  intros s a s'. unfold set_comment_at, lift, getR, modR, mbind, M_bind.
  destruct (value_at p (root_ s)) as [v|] eqn:Ev; [|done].
  destruct (Value.setComment text placement v) as [v'|] eqn:Ec; [|done]. cbn. intros [= <- <-] Hs. cbn.
  apply update_at_typed; [done|]. intros u _. eapply setComment_typed; [|exact Ec]. by eapply value_at_typed.
Qed.
Lemma kt_addError msg t x : keeps_types (addError msg t x).
Proof. unfold addError. kt. Qed.
#[local] Hint Resolve kt_assign_current kt_set_comment_at kt_addError : types.

(** ** Tokens *)

Lemma kt_addComment b e placement : keeps_types (addComment b e placement).
Proof. unfold addComment. kt. Qed.
#[local] Hint Resolve kt_addComment : types.
Lemma kt_readComment : keeps_types readComment.
Proof. unfold readComment, readCStyleComment, readCppStyleComment. kt. Qed.
#[local] Hint Resolve kt_readComment : types.
Lemma kt_token_body c : keeps_types (token_body c).
Proof. unfold token_body, readNumber. kt. Qed.
#[local] Hint Resolve kt_token_body : types.
Lemma kt_readToken : keeps_types readToken.
Proof. unfold readToken. kt. Qed.
#[local] Hint Resolve kt_readToken : types.
Lemma kt_read_past_comments fuel : keeps_types (read_past_comments fuel).
Proof. induction fuel as [|fuel IH]; cbn [read_past_comments]; kt. Qed.
#[local] Hint Resolve kt_read_past_comments : types.
Lemma kt_readToken_nc : keeps_types readToken_nc.
Proof. unfold readToken_nc, doc_fuel. kt. Qed.
#[local] Hint Resolve kt_readToken_nc : types.
Lemma kt_skipCommentTokens : keeps_types skipCommentTokens.
Proof. unfold skipCommentTokens. kt. Qed.
Lemma kt_skip_comment_token t : keeps_types (skip_comment_token t).
Proof. unfold skip_comment_token. kt. Qed.
Lemma kt_skip_until fuel t : keeps_types (skip_until fuel t).
Proof. induction fuel as [|fuel IH]; cbn [skip_until]; kt. Qed.
#[local] Hint Resolve kt_skipCommentTokens kt_skip_comment_token kt_skip_until : types.
Lemma kt_recoverFromError t : keeps_types (recoverFromError t).
Proof. unfold recoverFromError, doc_fuel. kt. Qed.
#[local] Hint Resolve kt_recoverFromError : types.
Lemma kt_addErrorAndRecover msg t u : keeps_types (addErrorAndRecover msg t u).
Proof. unfold addErrorAndRecover. kt. Qed.
#[local] Hint Resolve kt_addErrorAndRecover : types.

(** ** Decoding *)

Lemma number_loop_range threshold value l n : uint_range value → number_loop threshold value l = Number n → uint_range n.
Proof.
  revert value. induction l as [|c l IH]; intros value Hv; cbn [number_loop]; [by intros [= <-]|].
  destruct (negb (is_digit c)); [done|]. destruct (threshold <=? value); [done|]. apply IH.
  pose proof (wrapu_range 32 (value * 10 + digit_value c) ltac:(done)) as Hw.
  unfold uint_range, Value.maxUInt, UINT_MAX. change (2 ^ 32) with 4294967296 in Hw. lia.
Qed.

Lemma kt_decodeDouble t : keeps_types (decodeDouble t).
Proof. unfold decodeDouble. kt. Qed.
#[local] Hint Resolve kt_decodeDouble : types.
Lemma kt_decodeNumber t : keeps_types (decodeNumber t).
Proof.
  unfold decodeNumber. apply kt_bind; [auto with types|intros text]. destruct (is_double_text true text); [auto with types|].
  cbv zeta. destruct (number_loop _ _ _) as [| |n] eqn:E; [auto with types..|].
  assert (uint_range n) as Hn.
  { eapply number_loop_range; [|exact E]. unfold uint_range, Value.maxUInt, UINT_MAX. lia. }
  apply kt_bind; [|auto with types]. apply kt_assign_current. repeat case_match; auto with types.
Qed.
Lemma kt_decodeString_text t : keeps_types (decodeString_text t).
Proof. unfold decodeString_text. kt. Qed.
#[local] Hint Resolve kt_decodeNumber kt_decodeString_text : types.
Lemma kt_decodeString t : keeps_types (decodeString t).
Proof. unfold decodeString. kt. Qed.
#[local] Hint Resolve kt_decodeString : types.

(** ** Values *)

Lemma kt_push_child st : keeps_types (push_child st).
Proof. unfold push_child. kt. Qed.
Lemma kt_pop_node : keeps_types pop_node.
Proof. unfold pop_node. kt. Qed.
Lemma kt_attach : keeps_types attach_commentsBefore.
Proof. unfold attach_commentsBefore. kt. Qed.
Lemma kt_remember : keeps_types remember_value.
Proof. unfold remember_value. kt. Qed.
Lemma kt_reference name : keeps_types (subscript_current (Value.resolveReference name)).
Proof. apply kt_subscript_current. intros v v'. apply resolveReference_typed. Qed.
Lemma kt_index i : keeps_types (subscript_current (Value.resolve_index i)).
Proof. apply kt_subscript_current. intros v v'. apply resolve_index_typed. Qed.
#[local] Hint Resolve kt_push_child kt_pop_node kt_attach kt_remember kt_reference kt_index : types.

Lemma kt_values fuel :
  keeps_types (readValue fuel) ∧ (∀ name, keeps_types (object_loop fuel name)) ∧ (∀ i, keeps_types (array_loop fuel i)).
Proof.
  induction fuel as [|fuel (IHv & IHo & IHa)]; cbn [readValue object_loop array_loop]; [split_and!; auto with types|].
  split_and!; [|intros name|intros i]; kt.
Qed.

(** C18. The parser builds well-typed values only.  Whatever the document, the
    features and the comments, and also when the parse fails half way: if the
    value it reads into was well typed then it is afterwards - integers in the
    range of [int] or [unsigned], strings, member names and comments without a
    NUL and comments starting with a slash, elements and members in the order of
    their keys and no key twice, at every depth. *)
Theorem parse_well_typed features document root cc ok s :
  typed root → parse_with features document root cc = Done (ok, s) → typed (root_ s).
Proof.
  intros Hroot Hp. enough (keeps_types (parse_body document)) as Hk by (by eapply Hk).
  unfold parse_body. pose proof (proj1 (kt_values (parse_fuel document))) as Hv. kt.
Qed.

(** * Examples *)
Module Sample.

(** [{"b": [1, -7, 4294967295], /**/ "a": nul] *)
Definition document : bytes :=
  bs "{" ++ [x22; x62; x22] ++ bs ": [1, -7, 4294967295], /**/ " ++ [x22; x61; x22] ++ bs ": nul".
(** A failed parse leaves a well-typed part of the document. *)
Theorem parse_well_typed_witness :
  ∃ s, parse_with Features_all document Value.null true = Done (false, s) ∧
    typed (root_ s) ∧ root_ s ≠ Value.null.
Proof.
  destruct (parse_with Features_all document Value.null true) as [[ok s]|f] eqn:E;
    [|exfalso; vm_compute in E; discriminate E].
  assert (ok = false) as -> by (vm_compute in E; injection E; congruence).
  exists s. split; [reflexivity|]. split.
  - exact (parse_well_typed _ _ _ _ _ _ null_typed E).
  - intros H. vm_compute in E. injection E as <-. vm_compute in H. discriminate H.
Defined.
End Sample.
