(* ===== verification/Mysql.v ===== *)
(** Access to the database: [Field] (Field.h/.cpp), [QueryResult]
    (QueryResult.h/.cpp) and [MysqlTool] (MysqlTool.h/.cpp).  libmysqlclient is
    the class [MysqlClient]: an abstract connection state and result type with
    the functions the code calls. *)

From S2P Require Import Prelude.
Local Open Scope Z_scope.

Notation szof b := (Z.of_nat (length b)).

(** ** Conversions of the C library *)

(** [isspace] in the "C" locale. *)
Definition isspace (c : byte) : bool := bool_decide (c ∈ [x20; x09; x0a; x0b; x0c; x0d]).

Fixpoint drop_spaces (s : bytes) : bytes :=
  match s with
  | c :: s' => if isspace c then drop_spaces s' else s
  | [] => []
  end.

Definition decimal_digit (c : byte) : option Z :=
  if (48 <=? ub c) && (ub c <=? 57) then Some (ub c - 48) else None.

Fixpoint digits_value (acc : Z) (s : bytes) : Z :=
  match s with
  | c :: s => match decimal_digit c with Some d => digits_value (acc * 10 + d) s | None => acc end
  | [] => acc
  end.

(** [strtol( s, NULL, 10 )] with a 64-bit [long], which saturates. *)
Definition strtol (s : bytes) : Z :=
  let clamp z := Z.max (- 2 ^ 63) (Z.min (2 ^ 63 - 1) z) in
  match drop_spaces (c_str s) with
  | c :: s =>
      if decide (c = x2d) then clamp (- digits_value 0 s)
      else if decide (c = x2b) then clamp (digits_value 0 s)
      else clamp (digits_value 0 (c :: s))
  | [] => 0
  end.
Definition atoi (s : bytes) : Z := s32 (strtol s).
Definition atoll (s : bytes) : Z := strtol s.

Module Field.
Inductive IMDataTypes :=
  | TYPE_NONE | TYPE_STRING | TYPE_INT | TYPE_FLOAT | TYPE_BOOL | TYPE_NULL.

Record t := mk {
  _name : bytes; _value : bytes; _len : Z; _type : IMDataTypes; _isEmpty : bool }.

Definition make : t := mk [] [] 0 TYPE_NONE true.
Definition setType (tp : IMDataTypes) (f : t) : t :=
  mk (_name f) (_value f) (_len f) tp (_isEmpty f).
Definition setName (name : bytes) (f : t) : t :=
  mk name (_value f) (_len f) (_type f) (_isEmpty f).

(** [setValue( value, len )]: [None] is the null pointer, and a value comes
    with its length.  Field.cpp spells the members [m_value], [nLen] and
    [m_isnull] and compares [size_t] with 0; those are read as [_value],
    [len], [_isEmpty] and [len]. *)
Definition setValue (value : option bytes) (f : t) : t :=
  match value with
  | None | Some [] => mk (_name f) [] (_len f) (_type f) true
  | Some value => mk (_name f) value (_len f) (_type f) false
  end.

Definition getType (f : t) : IMDataTypes := _type f.
Definition getName (f : t) : bytes := _name f.
Definition getValue (f : t) : bytes := _value f.
Definition toBool (f : t) : bool := negb (atoi (_value f) =? 0).
Definition toInt8 (f : t) : Z := wraps 8 (atoi (_value f)).
Definition toInt32 (f : t) : Z := atoi (_value f).
Definition toInt64 (f : t) : Z := atoll (_value f).
Definition isEmpty (f : t) : bool := _isEmpty f.
End Field.

(** The column types [toIMType] names, and the others. *)
Inductive enum_field_types :=
  | FIELD_TYPE_TIMESTAMP | FIELD_TYPE_DATE | FIELD_TYPE_TIME | FIELD_TYPE_DATETIME
  | FIELD_TYPE_YEAR | FIELD_TYPE_STRING | FIELD_TYPE_BLOB | FIELD_TYPE_SET
  | FIELD_TYPE_NULL | FIELD_TYPE_TINY | FIELD_TYPE_SHORT | FIELD_TYPE_INT24
  | FIELD_TYPE_LONG | FIELD_TYPE_LONGLONG | FIELD_TYPE_ENUM | FIELD_TYPE_DECIMAL
  | FIELD_TYPE_FLOAT | FIELD_TYPE_DOUBLE | FIELD_TYPE_other (code : Z).

(** The functions of libmysqlclient.  [W] is the state of the library and the
    server, [R] a result set ([MYSQL_RES]).  A row holds a pointer per column,
    null for an SQL NULL, and [mysql_fetch_lengths] their lengths: together a
    list of optional byte strings. *)
Class MysqlClient (W R : Type) := {
  mysql_init : W → W * bool;
  mysql_close : W → W;
  mysql_real_connect :
    W → bytes → bytes → bytes → bytes → Z → W * bool;
  mysql_query : W → bytes → W * Z;
  mysql_real_query : W → bytes → W * Z;
  mysql_errno : W → Z;
  mysql_store_result : W → W * option R;
  mysql_affected_rows : W → Z;
  mysql_field_count : W → Z;
  mysql_fetch_fields : R → list (bytes * enum_field_types);
  mysql_fetch_row : R → R * option (list (option bytes));
}.

Definition CR_SERVER_GONE_ERROR : Z := 2006.

Module QueryResult.
Section client.
Context {W R : Type} `{MysqlClient W R}.

Record t := mk {
  _currentRow : list Field.t;
  _fieldName : list bytes;
  _res : option R;
  _rowCount : Z;
  _columnCount : Z
}.

Definition toIMType (mysqlType : enum_field_types) : Field.IMDataTypes :=
  match mysqlType with
  | FIELD_TYPE_TIMESTAMP | FIELD_TYPE_DATE | FIELD_TYPE_TIME | FIELD_TYPE_DATETIME
  | FIELD_TYPE_YEAR | FIELD_TYPE_STRING | FIELD_TYPE_BLOB | FIELD_TYPE_SET => Field.TYPE_STRING
  | FIELD_TYPE_NULL => Field.TYPE_NULL
  | FIELD_TYPE_TINY | FIELD_TYPE_SHORT | FIELD_TYPE_INT24 | FIELD_TYPE_LONG
  | FIELD_TYPE_LONGLONG | FIELD_TYPE_ENUM => Field.TYPE_INT
  | FIELD_TYPE_DECIMAL | FIELD_TYPE_FLOAT | FIELD_TYPE_DOUBLE => Field.TYPE_FLOAT
  | FIELD_TYPE_other _ => Field.TYPE_NONE
  end.

(** [v[ i ] = x] on a [std::vector]: defined below [size()] only. *)
Definition vector_store {A} (v : list A) (i : nat) (x : A) (what : string) : outcome (list A) :=
  match v !! i with
  | Some _ => Done (<[i := x]> v)
  | None => Fault (Undefined what)
  end.
Definition vector_get {A} (v : list A) (i : nat) (what : string) : outcome A :=
  match v !! i with
  | Some x => Done x
  | None => Fault (Undefined what)
  end.

(** The loop of the constructor over the columns. *)
Fixpoint init_columns (n i : nat) (fields : list (bytes * enum_field_types)) (q : t) : outcome t :=
  match n with
  | O => Done q
  | S n =>
      f ← vector_get fields i "fields[i]";
      names ← vector_store (_fieldName q) i f.1 "_fieldName[i]: reserve does not resize";
      c ← vector_get (_currentRow q) i "_currentRow[i]";
      row ← vector_store (_currentRow q) i
              (Field.setName f.1 (Field.setType (toIMType f.2) c)) "_currentRow[i]";
      init_columns n (S i) fields
        (mk row names (_res q) (_rowCount q) (_columnCount q))
  end.

(** [QueryResult( res, rowCount, columnCount )]: [_currentRow] is resized,
    [_fieldName] is reserved. *)
Definition make (res : option R) (rowCount columnCount : Z) : outcome t :=
  let q := mk (replicate (Z.to_nat columnCount) Field.make) [] res rowCount columnCount in
  match res with
  | None => Fault (Undefined "mysql_fetch_fields( NULL )")
  | Some r => init_columns (Z.to_nat columnCount) 0 (mysql_fetch_fields r) q
  end.

(** [end()] *)
Definition end_ (q : t) : t := mk [] [] None 0 0.

Fixpoint set_row (n i : nat) (row : list (option bytes)) (fields : list Field.t) :
    outcome (list Field.t) :=
  match n with
  | O => Done fields
  | S n =>
      v ← vector_get row i "row[i]";
      f ← vector_get fields i "_currentRow[i]";
      fields ← vector_store fields i (Field.setValue v f) "_currentRow[i]";
      set_row n (S i) row fields
  end.

Definition nextRow (q : t) : outcome (bool * t) :=
  match _res q with
  | None => Done (false, q)
  | Some r =>
      let '(r, row) := mysql_fetch_row r in
      match row with
      | None => Done (false, end_ q)
      | Some row =>
          fields ← set_row (Z.to_nat (_columnCount q)) 0 row (_currentRow q);
          Done (true, mk fields (_fieldName q) (Some r) (_rowCount q) (_columnCount q))
      end
  end.

(** [Fetch()]: the pointer to the first field of the current row. *)
Definition Fetch (q : t) : list Field.t := _currentRow q.
Definition at_index (index : nat) (q : t) : outcome Field.t :=
  vector_get (_currentRow q) index "_currentRow[index]".

(** [operator[]( const std::string& )]: no [return] after the loop. *)
Fixpoint find_name (nane : bytes) (i : nat) (names : list bytes) : option nat :=
  match names with
  | [] => None
  | n :: names => if decide (n = nane) then Some i else find_name nane (S i) names
  end.
Definition at_name (nane : bytes) (q : t) : outcome Field.t :=
  match find_name nane 0 (_fieldName q) with
  | Some i => at_index i q
  | None => Fault (Undefined "operator[] without a return")
  end.

Definition getFieldCount (q : t) : Z := _columnCount q.
Definition getRowCount (q : t) : Z := _rowCount q.
Definition getFieldsName (q : t) : list bytes := _fieldName q.
End client.
Arguments t : clear implicits.
End QueryResult.

Module MysqlTool.
Section client.
Context {W R : Type} `{MysqlClient W R}.

(** [_mysql != NULL] and the remembered parameters. *)
Record t := mk {
  _mysql : bool; _host : bytes; _user : bytes; _pwd : bytes; _dbname : bytes; _port : bytes }.

Definition make : t := mk false [] [] [] [] [].

Definition set_mysql (b : bool) (m : t) : t :=
  mk b (_host m) (_user m) (_pwd m) (_dbname m) (_port m).

Definition closeDB (m : t) (w : W) : t * W :=
  if _mysql m then (set_mysql false m, mysql_close w) else (m, w).

(** [connect( host, user, pwd, dbName, port = 3306 )].  [_port = port] selects
    [std::string::operator=( char )]. *)
Definition connect (host user pwd dbName : bytes) (port : Z) (m : t) (w : W) :
    outcome (bool * t * W) :=
  let '(m, w) := closeDB m w in
  let '(w, ok) := mysql_init w in
  _ ← defined_if ok "mysql_real_connect( NULL )";
  let '(w, ok) := mysql_real_connect w (c_str host) (c_str user) (c_str pwd) (c_str dbName) port in
  if ok : bool then
    let m := mk true host user pwd dbName [of_Z port] in
    let '(w, _) := mysql_query w (bs "set names utf8") in
    Done (true, m, w)
  else Done (false, set_mysql false m, w).

(** [connect( _host, _user, _pwd, _dbname )]: the default port. *)
Definition reconnect (m : t) (w : W) : outcome (bool * t * W) :=
  connect (_host m) (_user m) (_pwd m) (_dbname m) 3306 m w.

Definition connected_or (m : t) (w : W) : outcome (bool * t * W) :=
  if _mysql m then Done (true, m, w) else reconnect m w.

(** The statement, once more after a reconnection when the server has gone;
    [run] is the query function used.  The results are success, the last error
    number when there was one, and the states. *)
Definition run_with_retry (run : W → bytes → W * Z) (sql : bytes) (m : t) (w : W) :
    outcome (bool * option Z * t * W) :=
  let '(w, ret) := run w sql in
  if ret =? 0 then Done (true, None, m, w)
  else
    let nErrno := mysql_errno w in
    if CR_SERVER_GONE_ERROR =? nErrno then
      r ← reconnect m w;
      let '(ok, m, w) := (r : bool * t * W) in
      if negb ok then Done (false, Some nErrno, m, w)
      else
        let '(w, ret) := run w sql in
        if ret =? 0 then Done (true, Some nErrno, m, w)
        else Done (false, Some (mysql_errno w), m, w)
    else Done (false, Some nErrno, m, w).

(** [query( sql )]: [None] is the null [QueryResultPtr]. *)
Definition query (sql : bytes) (m : t) (w : W) : outcome (option (QueryResult.t R) * t * W) :=
  r ← connected_or m w;
  let '(ok, m, w) := (r : bool * t * W) in
  if negb ok then Done (None, m, w)
  else
    r ← run_with_retry mysql_real_query sql m w;
    let '(ok, _, m, w) := (r : bool * option Z * t * W) in
    if negb ok then Done (None, m, w)
    else
      let '(w, res) := mysql_store_result w in
      let rowCount := mysql_affected_rows w in
      if rowCount =? 0 then Done (None, m, w)
      else
        let columnCount := mysql_field_count w in
        q ← QueryResult.make res rowCount columnCount;
        Done (Some q, m, w).

(** [execute( sql, nAffectedRowCount, nErrno )]: the two reference arguments
    are threaded, and written only where the code writes them. *)
Definition execute_count (sql : bytes) (nAffectedRowCount nErrno : Z) (m : t) (w : W) :
    outcome (bool * Z * Z * t * W) :=
  r ← connected_or m w;
  let '(ok, m, w) := (r : bool * t * W) in
  if negb ok then Done (false, nAffectedRowCount, nErrno, m, w)
  else
    r ← run_with_retry mysql_query (c_str sql) m w;
    let '(ok, e, m, w) := (r : bool * option Z * t * W) in
    let nErrno := default nErrno e in
    if negb ok then Done (false, nAffectedRowCount, nErrno, m, w)
    else Done (true, mysql_affected_rows w, nErrno, m, w).

(** [execute( sql )]: its two locals are not initialised, and not read. *)
Definition execute (sql : bytes) (m : t) (w : W) : outcome (bool * t * W) :=
  r ← execute_count sql 0 0 m w;
  let '(ok, _, _, m, w) := (r : bool * Z * Z * t * W) in
  Done (ok, m, w).

Definition getDBName (m : t) : bytes := _dbname m.
End client.
End MysqlTool.

(** * A client in memory: the reference implementation of the interface *)

(** A result set: its columns and the rows not fetched yet. *)
Definition MemResult : Type := list (bytes * enum_field_types) * list (list (option bytes)).

(** A server that logs the statements and the ports of the connections made to
    it; what it answers may depend on the statements so far. *)
Record MemServer := mkServer {
  up : bool;
  ret : list bytes → bytes → Z;
  errno : list bytes → Z;
  affected : list bytes → Z;
  result : list bytes → option MemResult;
  statements : list bytes;
  ports : list Z
}.
Definition log_statement (sql : bytes) (w : MemServer) : MemServer :=
  mkServer (up w) (ret w) (errno w) (affected w) (result w) (statements w ++ [sql]) (ports w).
Definition log_port (p : Z) (w : MemServer) : MemServer :=
  mkServer (up w) (ret w) (errno w) (affected w) (result w) (statements w) (ports w ++ [p]).

#[export] Instance mem_client : MysqlClient MemServer MemResult := {|
  mysql_init := λ w, (w, true);
  mysql_close := id;
  mysql_real_connect := λ w _ _ _ _ port, (log_port port w, up w);
  mysql_query := λ w sql, (log_statement sql w, ret w (statements w) sql);
  mysql_real_query := λ w sql, (log_statement sql w, ret w (statements w) sql);
  mysql_errno := λ w, errno w (statements w);
  mysql_store_result := λ w, (w, result w (statements w));
  mysql_affected_rows := λ w, affected w (statements w);
  mysql_field_count := λ w, match result w (statements w) with
                            | Some r => Z.of_nat (length r.1) | None => 0 end;
  mysql_fetch_fields := fst;
  mysql_fetch_row := λ r, match r.2 with
                          | [] => (r, None)
                          | row :: rows => ((r.1, rows), Some row)
                          end;
|}.

(** * Properties *)

(** No result with columns can be built: the constructor of [QueryResult]
    assigns to [_fieldName[i]] of a vector that was only reserved, so with at
    least one column it is undefined, and with none it gives a result whose
    [nextRow] reads no field. *)
Theorem QueryResult_has_no_columns {W R} `{MysqlClient W R} r rowCount columnCount :
  (length (mysql_fetch_fields r) = Z.to_nat columnCount)%nat →
  QueryResult.make (Some r) rowCount columnCount =
    if 0 <? columnCount
    then Fault (Undefined "_fieldName[i]: reserve does not resize")
    else Done (QueryResult.mk [] [] (Some r) rowCount columnCount).
Proof.
  intros Hl. unfold QueryResult.make. destruct (Z.ltb_spec 0 columnCount).
  - destruct (Z.to_nat columnCount) as [|n] eqn:E; [lia|].
    cbn [QueryResult.init_columns]. destruct (mysql_fetch_fields r) as [|f fs]; [done|].
    reflexivity.
  - assert (Z.to_nat columnCount = 0%nat) as -> by lia. done.
Qed.

Lemma QueryResult_has_no_columns_witness :
  QueryResult.make (Some ([(bs "Database", FIELD_TYPE_STRING)], [[Some (bs "IMServer")]])) 1 1 =
    Fault (Undefined "_fieldName[i]: reserve does not resize").
Proof.
  exact (QueryResult_has_no_columns (R := MemResult)
    ([(bs "Database", FIELD_TYPE_STRING)], [[Some (bs "IMServer")]]) 1 1 eq_refl).
Defined.

(** [execute] on a connected tool, against any server: the statement is sent
    up to its first NUL; a success needs one attempt; an error other than the
    server having gone is final; a server that has gone is reconnected to
    once, on port 3306 whatever port was used before, and the statement sent
    once more, whose result is final. *)
Theorem execute_retries_once sql m (w : MemServer) :
  MysqlTool._mysql m = true →
  let stmt := c_str sql in
  let w1 := log_statement stmt w in
  let w2 := log_port 3306 w1 in
  let w3 := log_statement (bs "set names utf8") w2 in
  MysqlTool.execute sql m w =
    if ret w (statements w) stmt =? 0 then Done (true, m, w1)
    else if negb (errno w1 (statements w1) =? 2006) then Done (false, m, w1)
    else if negb (up w) then Done (false, MysqlTool.set_mysql false m, w2)
    else Done (ret w (statements w3) stmt =? 0,
               MysqlTool.mk true (MysqlTool._host m) (MysqlTool._user m) (MysqlTool._pwd m)
                 (MysqlTool._dbname m) [of_Z 3306],
               log_statement stmt w3).
Proof.
  intros Hm stmt w1 w2 w3. unfold MysqlTool.execute, MysqlTool.execute_count, MysqlTool.connected_or.
  rewrite Hm, bind_ret_l. cbn [negb]. unfold MysqlTool.run_with_retry. fold stmt.
  cbn [mysql_query mem_client]. destruct (ret w (statements w) stmt =? 0); [done|].
  cbn [mysql_errno mem_client]. fold w1. rewrite (Z.eqb_sym _ 2006).
  unfold CR_SERVER_GONE_ERROR. destruct (2006 =? errno w1 (statements w1)); cbn [negb]; [|done].
  unfold MysqlTool.reconnect, MysqlTool.connect, MysqlTool.closeDB. rewrite Hm.
  destruct m as [? h u p n po]; cbn in *. destruct (up w); cbn; [|done].
  by destruct (ret w _ stmt =? 0).
Qed.

Lemma execute_retries_once_witness :
  let w := mkServer true (λ h _, if (length h =? 0)%nat then 1 else 0) (λ _, 2006) (λ _, 1)
             (λ _, None) [] [] in
  let m := MysqlTool.mk true (bs "h") (bs "u") (bs "p") (bs "db") [of_Z 3307] in
  ∃ m' w', MysqlTool.execute (bs "delete from t") m w = Done (true, m', w') ∧
    statements w' = [bs "delete from t"; bs "set names utf8"; bs "delete from t"] ∧
    ports w' = [3306].
Proof.
  intros w m. eexists _, _. split; [exact (execute_retries_once (bs "delete from t") m w eq_refl)|].
  split; reflexivity.
Defined.

(** [Field] conversions: [setValue] makes null and empty values the same
    empty field; the integer conversions parse optional white space, a sign
    and digits, and wrap to their width. *)
Theorem field_conversions f v :
  Field.setValue None f = Field.setValue (Some []) f ∧
  Field.isEmpty (Field.setValue v f) = bool_decide (default [] v = []) ∧
  Field.getValue (Field.setValue v f) = default [] v ∧
  INT_MIN ≤ Field.toInt32 f ≤ INT_MAX ∧ -128 ≤ Field.toInt8 f ≤ 127 ∧
  - 2 ^ 63 ≤ Field.toInt64 f ≤ 2 ^ 63 - 1 ∧ Field.toInt32 f = s32 (Field.toInt64 f).
Proof.
  split; [done|]. split; [by destruct v as [[]|]|]. split; [by destruct v as [[]|]|].
  unfold Field.toInt32, Field.toInt8, Field.toInt64, atoll, atoi, INT_MIN, INT_MAX.
  assert (H32 : ∀ z, -2147483648 ≤ s32 z ≤ 2147483647).
  { intros z. unfold wraps. change (2 ^ 32) with 4294967296. change (2 ^ (32 - 1)) with 2147483648.
    pose proof (Z.mod_pos_bound (z + 2147483648) 4294967296). lia. }
  assert (H8 : ∀ z, -128 ≤ wraps 8 z ≤ 127).
  { intros z. unfold wraps. change (2 ^ 8) with 256. change (2 ^ (8 - 1)) with 128.
    pose proof (Z.mod_pos_bound (z + 128) 256). lia. }
  assert (H64 : - 2 ^ 63 ≤ strtol (Field._value f) ≤ 2 ^ 63 - 1).
  { unfold strtol. cbv zeta. repeat case_match; lia. }
  auto.
Qed.
