(* ===== verification/MysqlBusiness.v ===== *)
(** The database layer of the server (MysqlBusiness.h/.cpp): the tables the
    program expects, and [MysqlManager], which connects, checks the database
    and creates what is missing.  [Database] is what it offers to the user
    manager. *)

From S2P Require Import Prelude StdMap Mysql.
Local Open Scope Z_scope.

(** A database as the business code sees it: statements, queries, and a cursor
    over the rows of a result. *)
Class Database (D Q : Type) := {
  db_excute : bytes → D → outcome (bool * D);
  db_query : bytes → D → outcome (option Q * D);
  db_nextRow : Q → outcome (bool * Q);
  db_row : Q → list Field.t;
}.

Module MysqlManager.
Record sFieldInfo := mkField { f_sName : bytes; sType : bytes; sDesc : bytes }.
Record sTableInfo := mkTable { sName : bytes; sKey : bytes; mFields : list (bytes * sFieldInfo) }.

(** [info.mFields[ k ] = { name, type, desc }], in the order of the source. *)
Definition fields (l : list (string * string * string * string)) : list (bytes * sFieldInfo) :=
  foldl (λ m '(k, n, t, d), StdMap.assign (bs k) (mkField (bs n) (bs t) (bs d)) m) [] l.

Definition user_table : sTableInfo :=
  mkTable (bs "user")
    (bs "PRIMARY KEY (user_id), INDEX user_id (user_id), KEY  id  ( id )")
    (fields [
       ("id", "id",
        "bigint(20) NOT NULL AUTO_INCREMENT COMMENT '自增ID'",
        "bigint(20)");
       ("user_id", "user_id",
        "bigint(20) NOT NULL COMMENT '用户ID'",
        "bigint(20)");
       ("username", "username",
        "varchar(64) NOT NULL COMMENT '用户名(手机号)'",
        "varchar(64)");
       ("nickname", "nickname",
        "varchar(64) NOT NULL COMMENT '用户昵称'",
        "varchar(64)");
       ("password", "password",
        "varchar(64) NOT NULL COMMENT '用户密码'",
        "varchar(64)");
       ("facetype", "facetype",
        "int(10) DEFAULT 0 COMMENT '用户头像类型'",
        "int(10)");
       ("customface", "customface",
        "varchar(32) DEFAULT NULL COMMENT '自定义头像名'",
        "varchar(32)");
       ("customfacefmt", "customfacefmt",
        "varchar(6) DEFAULT NULL COMMENT '自定义头像格式'",
        "varchar(6)");
       ("gender", "gender",
        "int(2)  DEFAULT 0 COMMENT '性别'",
        "int(2)");
       ("birthday", "birthday",
        "bigint(20)  DEFAULT 19900101 COMMENT '生日'",
        "bigint(20)");
       ("signature", "signature",
        "varchar(256) DEFAULT NULL COMMENT '个性签名'",
        "varchar(256)");
       ("address", "address",
        "varchar(256) DEFAULT NULL COMMENT '地址'",
        "varchar(256)");
       ("phonenumber", "phonenumber",
        "varchar(64) DEFAULT NULL COMMENT '电话'",
        "varchar(64)");
       ("mail", "mail",
        "varchar(256) DEFAULT NULL COMMENT '邮箱'",
        "varchar(256)");
       ("owner_id", "owner_id",
        "bigint(20) DEFAULT 0 COMMENT '群账号群主userid'",
        "bigint(20)");
       ("register_time", "register_time",
        "datetime NOT NULL COMMENT '注册时间'",
        "datetime");
       ("remark", "remark",
        "varchar(64) NULL COMMENT '备注'",
        "varchar(64)");
       ("update_time", "update_time",
        "timestamp NOT NULL DEFAULT CURRENT_TIMESTAMP ON UPDATE CURRENT_TIMESTAMP COMMENT '更新时间'",
        "timestamp")
     ]%string).

Definition chatmsg_table : sTableInfo :=
  mkTable (bs "chatmsg")
    (bs "PRIMARY KEY (id), INDEX id (id)")
    (fields [
       ("id", "id",
        "bigint(20) NOT NULL AUTO_INCREMENT COMMENT '自增ID'",
        "bigint(20)");
       ("senderid", "senderid",
        "bigint(20) NOT NULL COMMENT '发送者id'",
        "bigint(20)");
       ("targetid", "targetid",
        "bigint(20) NOT NULL COMMENT '接收者id'",
        "bigint(20)");
       ("msgcontent", "msgcontent",
        "blob NOT NULL COMMENT '聊天内容'",
        "blob");
       ("create_time", "create_time",
        "timestamp NOT NULL DEFAULT CURRENT_TIMESTAMP ON UPDATE CURRENT_TIMESTAMP COMMENT '更新时间'",
        "timestamp");
       ("remark", "remark",
        "varchar(64) NULL COMMENT '备注'",
        "varchar(64)")
     ]%string).

Definition user_relationship_table : sTableInfo :=
  mkTable (bs "user_relationship")
    (bs "PRIMARY KEY (id), INDEX id (id)")
    (fields [
       ("id", "id",
        "bigint(20) NOT NULL AUTO_INCREMENT COMMENT '自增ID'",
        "bigint(20)");
       ("user_id1", "user_id1",
        "bigint(20) NOT NULL COMMENT '用户ID'",
        "bigint(20)");
       ("user_id2", "user_id2",
        "bigint(20) NOT NULL COMMENT '用户ID'",
        "bigint(20)");
       ("remark", "remark",
        "varchar(64) NULL COMMENT '备注'",
        "varchar(64)");
       ("create_time", "create_time",
        "timestamp NOT NULL DEFAULT CURRENT_TIMESTAMP ON UPDATE CURRENT_TIMESTAMP COMMENT '更新时间'",
        "timestamp")
     ]%string).

(** [MysqlManager()]: the map of tables, filled by [insert]. *)
Definition tables : list (bytes * sTableInfo) :=
  foldl (λ m t, StdMap.insert (sName t) t m) []
    [user_table; chatmsg_table; user_relationship_table].

Section client.
Context {W R : Type} `{MysqlClient W R}.

(** [_mTables] is fixed by the constructor; [_mysqlToolPtr] may be null. *)
Record t := mk { _mTables : list (bytes * sTableInfo); _mysqlToolPtr : option MysqlTool.t }.

Definition make : t := mk tables None.

Definition set_tool (tool : MysqlTool.t) (m : t) : t := mk (_mTables m) (Some tool).

Definition Query (sql : bytes) (m : t) (w : W) : outcome (option (QueryResult.t R) * t * W) :=
  match _mysqlToolPtr m with
  | None => Done (None, m, w)
  | Some tool =>
      r ← MysqlTool.query sql tool w;
      let '(q, tool, w) := (r : option (QueryResult.t R) * MysqlTool.t * W) in
      Done (q, set_tool tool m, w)
  end.

Definition excute (sql : bytes) (m : t) (w : W) : outcome (bool * t * W) :=
  match _mysqlToolPtr m with
  | None => Done (false, m, w)
  | Some tool =>
      r ← MysqlTool.execute sql tool w;
      let '(ok, tool, w) := (r : bool * MysqlTool.t * W) in
      Done (ok, set_tool tool m, w)
  end.

(** The loop of [checkDatabase]: [Fetch()] is taken once, before the loop, and
    is null only for a result without columns.  [rows] bounds the iterations. *)
Fixpoint find_database (rows : nat) (dbName : bytes) (q : QueryResult.t R) : outcome bool :=
  match rows with
  | O => Fault OutOfFuel
  | S rows =>
      r ← QueryResult.nextRow q;
      let '(more, q) := (r : bool * QueryResult.t R) in
      if negb more then Done false
      else
        f ← QueryResult.vector_get (QueryResult.Fetch q) 0 "row[0]";
        if decide (dbName = Field.getValue f) then Done true
        else find_database rows dbName q
  end.

Definition checkDatabase (rows : nat) (m : t) (w : W) : outcome (bool * t * W) :=
  match _mysqlToolPtr m with
  | None => Done (false, m, w)
  | Some tool =>
      r ← MysqlTool.query (bs "show databases;") tool w;
      let '(result, tool, w) := (r : option (QueryResult.t R) * MysqlTool.t * W) in
      let m := set_tool tool m in
      match result with
      | None => Done (false, m, w)
      | Some q =>
          match QueryResult.Fetch q with
          | [] => Done (false, m, w)
          | _ :: _ =>
              found ← find_database rows (MysqlTool.getDBName tool) q;
              Done (found, m, w)
          end
      end
  end.

Definition checkTable (tableName : bytes) (m : t) (w : W) : outcome (bool * t * W) :=
  match _mysqlToolPtr m with
  | None => Done (false, m, w)
  | Some tool =>
      let sql := bs "desc " ++ tableName ++ bs ";" in
      r ← MysqlTool.query sql tool w;
      let '(result, tool, w) := (r : option (QueryResult.t R) * MysqlTool.t * W) in
      Done (bool_decide (is_Some result), set_tool tool m, w)
  end.

(** The [if] on [execute] has an empty body: only the affected rows decide. *)
Definition createDataBase (m : t) (w : W) : outcome (bool * t * W) :=
  match _mysqlToolPtr m with
  | None => Done (false, m, w)
  | Some tool =>
      let sql := bs "create database " ++ MysqlTool.getDBName tool ++ bs ";" in
      r ← MysqlTool.execute_count sql 0 0 tool w;
      let '(_, affectRow, _, tool, w) := (r : bool * Z * Z * MysqlTool.t * W) in
      Done (affectRow =? 1, set_tool tool m, w)
  end.

(** The text [createTable] builds. *)
Fixpoint column_list (first : bool) (l : list (bytes * sFieldInfo)) : bytes :=
  match l with
  | [] => []
  | (_, field) :: l =>
      (if first then [] else bs ",") ++ f_sName field ++ bs " " ++ sType field ++
      column_list false l
  end.
Definition createTable_sql (info : sTableInfo) : bytes :=
  bs "create table if not exists " ++ sName info ++ bs "(" ++
  column_list true (mFields info) ++
  (match sKey info with [] => [] | key => bs "," ++ key end) ++
  bs ") default charset=utf-8,ENGINE=InnoDB;".

Definition createTable (info : sTableInfo) (m : t) (w : W) : outcome (bool * t * W) :=
  match _mysqlToolPtr m with
  | None => Done (false, m, w)
  | Some tool =>
      match mFields info with
      | [] => Done (false, m, w)
      | _ :: _ =>
          r ← MysqlTool.execute (createTable_sql info) tool w;
          let '(ok, tool, w) := (r : bool * MysqlTool.t * W) in
          Done (ok, set_tool tool m, w)
      end
  end.

(** The loop of [init] over the tables. *)
Fixpoint check_tables (l : list (bytes * sTableInfo)) (m : t) (w : W) : outcome (bool * t * W) :=
  match l with
  | [] => Done (true, m, w)
  | (_, info) :: l =>
      r ← checkTable (sName info) m w;
      let '(ok, m, w) := (r : bool * t * W) in
      if ok then check_tables l m w
      else
        r ← createTable info m w;
        let '(ok, m, w) := (r : bool * t * W) in
        if ok then check_tables l m w else Done (false, m, w)
  end.

(** [init( host, user, pwd, dbname, port )]; [reset] destroys a previous tool. *)
Definition init (rows : nat) (host user pwd dbname : bytes) (port : Z) (m : t) (w : W) :
    outcome (bool * t * W) :=
  let w := match _mysqlToolPtr m with
           | Some old => (MysqlTool.closeDB old w).2
           | None => w
           end in
  r ← MysqlTool.connect host user pwd dbname port MysqlTool.make w;
  let '(res, tool, w) := (r : bool * MysqlTool.t * W) in
  let m := set_tool tool m in
  if negb res then Done (false, m, w)
  else
    r ← checkDatabase rows m w;
    let '(ok, m, w) := (r : bool * t * W) in
    if ok then check_tables (_mTables m) m w
    else
      r ← createDataBase m w;
      let '(ok, m, w) := (r : bool * t * W) in
      if ok then check_tables (_mTables m) m w else Done (false, m, w).
End client.

(** [Singleton<MysqlManager>] with its connection, as a database. *)
#[export] Instance manager_database {W R} `{MysqlClient W R} : Database (t * W) (QueryResult.t R) := {|
  db_excute := λ sql d, '(ok, m, w) ← excute sql d.1 d.2; Done (ok, (m, w));
  db_query := λ sql d, '(q, m, w) ← Query sql d.1 d.2; Done (q, (m, w));
  db_nextRow := QueryResult.nextRow;
  db_row := QueryResult.Fetch;
|}.
End MysqlManager.

(** * Lemmas *)
Import MysqlManager.

(** The SQL of the three tables goes to the server unchanged: no NUL. *)
Lemma tables_no_nul :
  Forall (λ p, c_str (createTable_sql p.2) = createTable_sql p.2) tables.
Proof. repeat constructor. Qed.

(** The statements of the table check when every [desc] finds nothing. *)
Definition check_statements (l : list (bytes * sTableInfo)) : list bytes :=
  concat (map (λ p, [bs "desc " ++ sName p.2 ++ bs ";"; createTable_sql p.2]) l).

(** A server on which statements succeed, no query finds a row, and creating a
    database affects [a] rows. *)
Definition is_create (sql : bytes) : bool := bool_decide (take 16 sql = bs "create database ").
Definition fresh_server (a : Z) (done : list bytes) (ps : list Z) : MemServer :=
  mkServer true (λ _ _, 0) (λ _, 0)
    (λ h, match last h with Some sql => if is_create sql then a else 0 | None => 0 end)
    (λ _, None) done ps.

Lemma fresh_connect host user pwd dbname port (w : MemServer) :
  up w = true →
  MysqlTool.connect host user pwd dbname port MysqlTool.make w =
    Done (true, MysqlTool.mk true host user pwd dbname [of_Z port],
          log_statement (bs "set names utf8") (log_port port w)).
Proof. intros Hup. unfold MysqlTool.connect, MysqlTool.closeDB. cbn. by rewrite Hup. Qed.

Lemma query_of_columns sql tool (w : MemServer) col cols rs :
  MysqlTool._mysql tool = true → ret w (statements w) sql = 0 →
  affected w (statements w ++ [sql]) ≠ 0 →
  result w (statements w ++ [sql]) = Some (col :: cols, rs) →
  MysqlTool.query sql tool w = Fault (Undefined "_fieldName[i]: reserve does not resize").
Proof.
  intros Ht Hr Ha Hres. unfold MysqlTool.query, MysqlTool.connected_or. rewrite Ht, bind_ret_l.
  cbn [negb]. unfold MysqlTool.run_with_retry. cbn. rewrite Hr. cbn.
  rewrite (proj2 (Z.eqb_neq _ 0) Ha), Hres. unfold QueryResult.make. by rewrite Nat2Z.id.
Qed.

Lemma fresh_query a h ps sql tool :
  MysqlTool._mysql tool = true → is_create sql = false →
  MysqlTool.query sql tool (fresh_server a h ps) =
    Done (None, tool, fresh_server a (h ++ [sql]) ps).
Proof.
  intros Ht Hs. unfold MysqlTool.query, MysqlTool.connected_or. rewrite Ht, bind_ret_l.
  cbn [negb]. unfold MysqlTool.run_with_retry. cbn -[is_create]. by rewrite last_snoc, Hs.
Qed.

Lemma fresh_execute a h ps sql tool :
  MysqlTool._mysql tool = true → c_str sql = sql →
  MysqlTool.execute_count sql 0 0 tool (fresh_server a h ps) =
    Done (true, if is_create sql then a else 0, 0, tool, fresh_server a (h ++ [sql]) ps).
Proof.
  intros Ht Hs. unfold MysqlTool.execute_count, MysqlTool.connected_or. rewrite Ht, bind_ret_l.
  cbn [negb]. unfold MysqlTool.run_with_retry. cbn -[is_create]. rewrite Hs. by rewrite last_snoc.
Qed.

Lemma fresh_check_tables a l h ps m tool :
  _mysqlToolPtr m = Some tool → MysqlTool._mysql tool = true →
  Forall (λ p, c_str (createTable_sql p.2) = createTable_sql p.2 ∧ mFields p.2 ≠ [] ∧
               is_create (createTable_sql p.2) = false) l →
  check_tables l m (fresh_server a h ps) =
    Done (true, m, fresh_server a (h ++ check_statements l) ps).
Proof.
  intros Hm Ht Hl. revert h. induction Hl as [|[k info] l (Hc & Hf & Hd) _ IH]; intros h; cbn [check_tables].
  - by rewrite app_nil_r.
  - cbn [snd] in *. unfold checkTable. rewrite Hm, fresh_query, !bind_ret_l by done.
    cbn [bool_decide].
    assert (Hset : set_tool tool m = m) by (unfold set_tool; rewrite <-Hm; by destruct m).
    rewrite Hset. rewrite bool_decide_false by (by intros []).
    unfold createTable. rewrite Hm. destruct (mFields info) as [|f fs] eqn:Ef; [done|].
    unfold MysqlTool.execute. rewrite fresh_execute, !bind_ret_l by done. rewrite Hset, IH.
    unfold check_statements. cbn [map concat]. by rewrite <-!app_assoc.
Qed.

Lemma tables_creatable :
  Forall (λ p, c_str (createTable_sql p.2) = createTable_sql p.2 ∧ mFields p.2 ≠ [] ∧
               is_create (createTable_sql p.2) = false) tables.
Proof. repeat constructor; try discriminate; vm_compute; reflexivity. Qed.

(** * Properties *)

(** On a server without the database the manager creates it and then, when
    that affected exactly one row, looks at and creates each of the three
    tables in the order of their names; otherwise it fails.  The statements
    sent are exactly these. *)
Theorem init_creates_schema rows host user pwd dbname port a :
  c_str dbname = dbname →
  ∃ m,
    init rows host user pwd dbname port make (fresh_server a [] []) =
      Done (a =? 1, m,
        fresh_server a ([bs "set names utf8"; bs "show databases;";
                         bs "create database " ++ dbname ++ bs ";"] ++
                        if a =? 1 then check_statements tables else []) [port]).
Proof.
  intros Hdb. unfold init. cbn [_mysqlToolPtr make].
  set (tool := MysqlTool.mk true host user pwd dbname [of_Z port]).
  assert (Hconn : MysqlTool.connect host user pwd dbname port MysqlTool.make (fresh_server a [] [])
            = Done (true, tool, fresh_server a [bs "set names utf8"] [port])) by by rewrite fresh_connect.
  rewrite Hconn, bind_ret_l. cbn [negb].
  set (m := set_tool tool make). exists m.
  assert (Hset : set_tool tool m = m) by done.
  assert (Hck : ∀ w, checkDatabase rows m w =
    ('(result, tool', w) ← MysqlTool.query (bs "show databases;") tool w;
     match result with
     | None => Done (false, set_tool tool' m, w)
     | Some q => match QueryResult.Fetch q with
                 | [] => Done (false, set_tool tool' m, w)
                 | _ :: _ => found ← find_database rows (MysqlTool.getDBName tool') q;
                             Done (found, set_tool tool' m, w)
                 end
     end)) by done.
  rewrite Hck, fresh_query, bind_ret_l, Hset, bind_ret_l by done.
  unfold createDataBase. cbn [m set_tool _mysqlToolPtr].
  change (MysqlTool.getDBName tool) with dbname.
  assert (Hc : ∀ s, c_str s = s → c_str (bs "create database " ++ s ++ bs ";") =
                                   bs "create database " ++ s ++ bs ";").
  { intros s Hs. rewrite c_str_id; [done|]. rewrite <-Hs.
    pose proof (c_str_no_nul s). intros [|[|]%elem_of_app]%elem_of_app; [|done|];
      match goal with H : x00 ∈ bs _ |- _ => revert H end; clear; cbn; set_solver. }
  rewrite fresh_execute, bind_ret_l by auto.
  change (is_create (bs "create database " ++ dbname ++ bs ";")) with true. cbn match.
  rewrite bind_ret_l. fold m. destruct (a =? 1); [|done].
  rewrite (fresh_check_tables a tables _ [port] m tool);
    [by rewrite <-app_assoc|done|done|apply tables_creatable].
Qed.

Lemma init_creates_schema_witness :
  ∃ m, init 1 (bs "127.0.0.1") (bs "root") (bs "pw") (bs "IMServer") 3306 make (fresh_server 1 [] []) =
    Done (true, m, fresh_server 1 ([bs "set names utf8"; bs "show databases;";
                         bs "create database " ++ bs "IMServer" ++ bs ";"] ++
                        check_statements tables) [3306]).
Proof.
  exact (init_creates_schema 1 (bs "127.0.0.1") (bs "root") (bs "pw") (bs "IMServer") 3306 1 eq_refl).
Defined.

(** On a server that answers [show databases] with any row, as a running
    MySQL server does, the initialisation is undefined: it never gets past the
    construction of the result. *)
Theorem init_undefined_on_running_server rows host user pwd dbname port (w : MemServer) col cols rs :
  up w = true →
  let h := statements w ++ [bs "set names utf8"] in
  ret w h (bs "show databases;") = 0 →
  affected w (h ++ [bs "show databases;"]) ≠ 0 →
  result w (h ++ [bs "show databases;"]) = Some (col :: cols, rs) →
  init rows host user pwd dbname port make w =
    Fault (Undefined "_fieldName[i]: reserve does not resize").
Proof.
  intros Hup h Hret Haff Hres. unfold init. cbn [_mysqlToolPtr make].
  rewrite fresh_connect, bind_ret_l by done. cbn [negb]. unfold checkDatabase.
  cbn [_mysqlToolPtr set_tool].
  by rewrite (query_of_columns _ _ _ col cols rs).
Qed.

Lemma init_undefined_on_running_server_witness :
  init 5 (bs "127.0.0.1") (bs "root") (bs "pw") (bs "IMServer") 3306 make
    (mkServer true (λ _ _, 0) (λ _, 0) (λ _, 1)
       (λ _, Some ([(bs "Database", FIELD_TYPE_STRING)], [[Some (bs "IMServer")]])) [] []) =
    Fault (Undefined "_fieldName[i]: reserve does not resize").
Proof.
  refine (init_undefined_on_running_server 5 _ _ _ _ 3306 _ (bs "Database", FIELD_TYPE_STRING) []
    [[Some (bs "IMServer")]] _ _ _ _); [reflexivity..|discriminate|reflexivity].
Defined.

(** The description of the tables: they are keyed by name in increasing
    order, each column appears once, under its own name and in increasing
    order, and the statement that creates the message table is the given one. *)
Theorem tables_described :
  StdMap.wf tables ∧ tables.*1 = [bs "chatmsg"; bs "user"; bs "user_relationship"] ∧
  Forall (λ p, sName p.2 = p.1 ∧ StdMap.wf (mFields p.2) ∧
               Forall (λ q, f_sName q.2 = q.1) (mFields p.2)) tables ∧
  map (λ p, length (mFields p.2)) tables = [6; 18; 5]%nat ∧
  (mFields user_table).*1 = map bs
    ["address"; "birthday"; "customface"; "customfacefmt"; "facetype"; "gender"; "id"; "mail";
     "nickname"; "owner_id"; "password"; "phonenumber"; "register_time"; "remark"; "signature";
     "update_time"; "user_id"; "username"]%string ∧
  createTable_sql user_relationship_table = bs
    "create table if not exists user_relationship(create_time timestamp NOT NULL DEFAULT CURRENT_TIMESTAMP ON UPDATE CURRENT_TIMESTAMP COMMENT '更新时间',id bigint(20) NOT NULL AUTO_INCREMENT COMMENT '自增ID',remark varchar(64) NULL COMMENT '备注',user_id1 bigint(20) NOT NULL COMMENT '用户ID',user_id2 bigint(20) NOT NULL COMMENT '用户ID',PRIMARY KEY (id), INDEX id (id)) default charset=utf-8,ENGINE=InnoDB;".
Proof. split_and!; try (vm_compute; reflexivity); repeat constructor. Qed.
