(* ===== verification/UserManager.v ===== *)
(** The registry of users (UserManager.h/.cpp): the cache of all users, the
    last user id, registration and loading.  The database is used through the
    interface [Database]. *)

From S2P Require Import Prelude CDouble Mysql MysqlBusiness.
Local Open Scope Z_scope.

(** [class User].  The members without an initialiser, [_birthDay] and
    [_ownerid], are indeterminate ([None]) until they are assigned. *)
Module User.
Record t := mk {
  _userId : Z;
  _userName : bytes;
  _passWord : bytes;
  _nickName : bytes;
  _signature : bytes;
  _faceType : Z;
  _customFace : bytes;
  _customFaceFmt : bytes;
  _gender : Z;
  _birthDay : option Z;
  _adress : bytes;
  _pthone : bytes;
  _mail : bytes;
  _ownerid : option Z;
  _friends : gset Z
}.

Definition make : t := mk 0 [] [] [] [] (-1) [] [] 0 None [] [] [] None ∅.

(** Reading a member that may be indeterminate. *)
Definition read (m : option Z) (what : string) : outcome Z :=
  match m with Some z => Done z | None => Fault (Undefined what) end.

Definition set_friends (f : gset Z) (u : t) : t :=
  mk (_userId u) (_userName u) (_passWord u) (_nickName u) (_signature u) (_faceType u)
    (_customFace u) (_customFaceFmt u) (_gender u) (_birthDay u) (_adress u) (_pthone u)
    (_mail u) (_ownerid u) f.
End User.

Module UserManager.
(** [_cachedUsers] and [_currentUserId]; the mutex only brackets the
    [push_back] of [addUser]. *)
Record t := mk { _cachedUsers : list User.t; _currentUserId : Z }.

Definition make : t := mk [] 10000.

(** The first cached user a test accepts. *)
Fixpoint first_user (p : User.t → bool) (l : list User.t) : option User.t :=
  match l with
  | [] => None
  | it :: l => if p it then Some it else first_user p l
  end.

(** [getUserInfoFromCached]: success, and [user] after the call. *)
Definition getUserInfoFromCached_name (username : bytes) (user : User.t) (m : t) : bool * User.t :=
  match first_user (λ it, bool_decide (User._userName it = username)) (_cachedUsers m) with
  | Some it => (true, it)
  | None => (false, user)
  end.
Definition getUserInfoFromCached_id (userid : Z) (user : User.t) (m : t) : bool * User.t :=
  match first_user (λ it, User._userId it =? userid) (_cachedUsers m) with
  | Some it => (true, it)
  | None => (false, user)
  end.

(** [getUserInfoFromDB]: both overloads return [true] and do nothing. *)
Definition getUserInfoFromDB_name (username : bytes) (user : User.t) (m : t) : bool * User.t :=
  (true, user).
Definition getUserInfoFromDB_id (userid : Z) (user : User.t) (m : t) : bool * User.t :=
  (true, user).

(** The statement of [addUser]. *)
Definition insert_sql (id : Z) (user : User.t) : bytes :=
  bs "INSERT INTO user(user_id,username,nickname,password,register_time)" ++
  bs "VALUES(" ++ signed_decimal id ++ bs ",'" ++ User._userName user ++ bs "','" ++
  User._nickName user ++ bs "','" ++ User._nickName user ++ bs "',NOW())".

(** What [addUser] stores in the user it adds. *)
Definition registered (id : Z) (u : User.t) : User.t :=
  User.mk id (User._userName u) (User._passWord u) (User._nickName u) (User._signature u) 0
    (User._customFace u) (User._customFaceFmt u) 0 (Some 20000101) (User._adress u)
    (User._pthone u) (User._mail u) (Some 0) (User._friends u).

Definition users_sql : bytes := bs
  "SELECT user_id, username, nickname, password,  facetype, customface, gender, birthday, signature, address, phonenumber, mail FROM user ORDER BY  user_id DESC".

Definition relation_sql (userid : Z) : bytes :=
  bs "SELECT user_id1, user_id2 FROM user_relationship WHERE user_id1=" ++
  signed_decimal userid ++ bs " OR user_id2=" ++ signed_decimal userid ++ bs " ;".

Section database.
Context {D Q : Type} `{Database D Q}.

(** [addUser( user )]: success, [user] after the call, and the states. *)
Definition addUser (user : User.t) (m : t) (d : D) : outcome (bool * User.t * t * D) :=
  _ ← defined_if (_currentUserId m <? INT_MAX) "_currentUserId + 1";
  r ← db_excute (insert_sql (_currentUserId m + 1) user) d;
  let '(result, d) := (r : bool * D) in
  if negb result then Done (false, user, m, d)
  else
    let id := _currentUserId m + 1 in
    let user := registered id user in
    Done (true, user, mk (_cachedUsers m ++ [user]) id, d).

(** The body of the loop of [loadUsers]. *)
Definition user_of_row (row : list Field.t) : outcome User.t :=
  let col i := QueryResult.vector_get row i "row[]" in
  c0 ← col 0%nat; c1 ← col 1%nat; c2 ← col 2%nat; c3 ← col 3%nat;
  c4 ← col 4%nat; c5 ← col 5%nat; c6 ← col 6%nat; c7 ← col 7%nat;
  c8 ← col 8%nat; c9 ← col 9%nat; c10 ← col 10%nat; c11 ← col 11%nat;
  Done (User.mk (Field.toInt32 c0) (Field.getValue c1) (Field.getValue c3) (Field.getValue c2)
    (Field.getValue c8) (Field.toInt32 c4) (Field.getValue c5) [] (Field.toInt32 c6)
    (Some (Field.toInt32 c7)) (Field.getValue c9) (Field.getValue c10) (Field.getValue c11)
    None ∅).

Definition add_loaded (user : User.t) (m : t) : t :=
  mk (_cachedUsers m ++ [user])
     (if _currentUserId m <? User._userId user then User._userId user else _currentUserId m).

(** [while( res->nextRow() )]; [rows] bounds the iterations. *)
Fixpoint load_loop (rows : nat) (res : Q) (m : t) : outcome t :=
  match rows with
  | O => Fault OutOfFuel
  | S rows =>
      r ← db_nextRow res;
      let '(more, res) := (r : bool * Q) in
      if negb more then Done m
      else
        user ← user_of_row (db_row res);
        load_loop rows res (add_loaded user m)
  end.

Definition loadUsers (rows : nat) (m : t) (d : D) : outcome (bool * t * D) :=
  r ← db_query users_sql d;
  let '(res, d) := (r : option Q * D) in
  match res with
  | None => Done (false, m, d)
  | Some res => m ← load_loop rows res m; Done (true, m, d)
  end.

Fixpoint relation_loop (rows : nat) (userid : Z) (res : Q) (friends : gset Z) : outcome (gset Z) :=
  match rows with
  | O => Fault OutOfFuel
  | S rows =>
      r ← db_nextRow res;
      let '(more, res) := (r : bool * Q) in
      if negb more then Done friends
      else
        c0 ← QueryResult.vector_get (db_row res) 0 "row[0]";
        c1 ← QueryResult.vector_get (db_row res) 1 "row[1]";
        let id1 := Field.toInt32 c0 in
        let id2 := Field.toInt32 c1 in
        relation_loop rows userid res
          ({[ if id1 =? userid then id2 else id1 ]} ∪ friends)
  end.

(** [loadRelation( userid, friends )] *)
Definition loadRelation (rows : nat) (userid : Z) (friends : gset Z) (d : D) :
    outcome (bool * gset Z * D) :=
  r ← db_query (relation_sql userid) d;
  let '(res, d) := (r : option Q * D) in
  match res with
  | None => Done (false, friends, d)
  | Some res => friends ← relation_loop rows userid res friends; Done (true, friends, d)
  end.

(** The loop of [init] over the cached users: a failure is only reported. *)
Fixpoint load_relations (rows : nat) (users : list User.t) (d : D) : outcome (list User.t * D) :=
  match users with
  | [] => Done ([], d)
  | u :: users =>
      r ← loadRelation rows (User._userId u) (User._friends u) d;
      let '(_, friends, d) := (r : bool * gset Z * D) in
      r ← load_relations rows users d;
      let '(users, d) := (r : list User.t * D) in
      Done (User.set_friends friends u :: users, d)
  end.

Definition init (rows : nat) (m : t) (d : D) : outcome (bool * t * D) :=
  r ← loadUsers rows m d;
  let '(ok, m, d) := (r : bool * t * D) in
  if negb ok then Done (false, m, d)
  else
    r ← load_relations rows (_cachedUsers m) d;
    let '(users, d) := (r : list User.t * D) in
    Done (true, mk users (_currentUserId m), d).
End database.

(** Every cached id is positive-side bounded by the counter. *)
Definition wf (m : t) : Prop :=
  Forall (λ u, User._userId u ≤ _currentUserId m) (_cachedUsers m) ∧
  INT_MIN ≤ _currentUserId m ≤ INT_MAX.
End UserManager.

(** * A database in memory: the reference implementation of the interface *)

(** Whether statements are accepted, the statements so far, and the rows each
    query answers ([None]: the query fails). *)
Record MemDb := mkMemDb {
  accepts : bool; log : list bytes; answers : bytes → option (list (list Field.t)) }.

#[export] Instance mem_database : Database MemDb (list Field.t * list (list Field.t)) := {|
  db_excute := λ sql d, Done (accepts d, mkMemDb (accepts d) (log d ++ [sql]) (answers d));
  db_query := λ sql d, Done ((λ rows, ([], rows)) <$> answers d sql, d);
  db_nextRow := λ q, match q.2 with
                     | [] => Done (false, ([], []))
                     | r :: rows => Done (true, (r, rows))
                     end;
  db_row := fst;
|}.

(** * Cursors *)
Section cursor.
Context {D Q : Type} `{Database D Q}.
Import UserManager.

(** A cursor that yields the given rows and then ends. *)
Inductive enumerates : Q → list (list Field.t) → Prop :=
  | enumerates_end q q' : db_nextRow q = Done (false, q') → enumerates q []
  | enumerates_row q q' rows :
      db_nextRow q = Done (true, q') → enumerates q' rows →
      enumerates q (db_row q' :: rows).

(** The cell of a column as text. *)
Definition cell (i : nat) (row : list Field.t) : bytes := from_option Field._value [] (row !! i).
Definition cell_int (i : nat) (row : list Field.t) : Z := atoi (cell i row).

(** The user a complete row describes. *)
Definition row_user (row : list Field.t) : User.t :=
  User.mk (cell_int 0 row) (cell 1 row) (cell 3 row) (cell 2 row) (cell 8 row) (cell_int 4 row)
    (cell 5 row) [] (cell_int 6 row) (Some (cell_int 7 row)) (cell 9 row) (cell 10 row)
    (cell 11 row) None ∅.

Lemma user_of_row_complete row : (12 ≤ length row)%nat → user_of_row row = Done (row_user row).
Proof.
  intros Hl. do 12 (destruct row as [|? row]; [cbn in Hl; lia|]). reflexivity.
Qed.

Lemma user_of_row_short row :
  (length row < 12)%nat → user_of_row row = Fault (Undefined "row[]").
Proof.
  intros Hl. do 12 (destruct row as [|? row]; [reflexivity|]). cbn in Hl. lia.
Qed.

(** The state after loading users: appended in order, the counter raised to
    the largest id. *)
Definition loaded (rows : list (list Field.t)) (m : t) : t :=
  mk (_cachedUsers m ++ map row_user rows)
     (foldl Z.max (_currentUserId m) (map (cell_int 0) rows)).

Lemma load_loop_eq fuel q rows m :
  enumerates q rows → (length rows < fuel)%nat → Forall (λ r, 12 ≤ length r)%nat rows →
  load_loop fuel q m = Done (loaded rows m).
Proof.
  intros Hq. revert fuel m. induction Hq as [q q' E|q q' rows E Hq IH]; intros fuel m Hf Hr;
    (destruct fuel as [|fuel]; [cbn in Hf; lia|]); cbn [load_loop]; rewrite E, bind_ret_l; cbn [negb].
  - unfold loaded. cbn. rewrite app_nil_r. by destruct m.
  - apply Forall_cons in Hr as [Hl Hr]. rewrite user_of_row_complete, bind_ret_l by done.
    rewrite IH by (cbn in Hf; done || lia). f_equal. unfold loaded, add_loaded. cbn.
    rewrite <-app_assoc. f_equal. f_equal.
    destruct (Z.ltb_spec (_currentUserId m) (cell_int 0 (db_row q'))); lia.
Qed.

Lemma foldl_max_ge c l : c ≤ foldl Z.max c l ∧ Forall (λ x, x ≤ foldl Z.max c l) l.
Proof.
  revert c. induction l as [|x l IH]; intros c; cbn; [split; [lia|constructor]|].
  destruct (IH (Z.max c x)) as [H1 H2]. split; [lia|]. constructor; [lia|done].
Qed.

Lemma atoi_range s : INT_MIN ≤ atoi s ≤ INT_MAX.
Proof.
  unfold atoi, wraps, INT_MIN, INT_MAX. change (2 ^ 32) with 4294967296.
  change (2 ^ (32 - 1)) with 2147483648.
  pose proof (Z.mod_pos_bound (strtol s + 2147483648) 4294967296). lia.
Qed.

Lemma loaded_wf rows m : wf m → wf (loaded rows m).
Proof.
  intros [Hu Hc]. unfold loaded, wf; cbn.
  destruct (foldl_max_ge (_currentUserId m) (map (cell_int 0) rows)) as [H1 H2].
  split; [apply Forall_app; split|].
  - eapply Forall_impl; [exact Hu|]. cbn. intros. lia.
  - apply Forall_forall. intros u (r & -> & Hr)%list_elem_of_fmap. apply (proj1 (Forall_forall _ _) H2), list_elem_of_fmap. eauto.
  - split; [lia|]. clear H1 H2. assert (Hx : _currentUserId m ≤ INT_MAX) by lia. revert Hx.
    generalize (_currentUserId m). induction rows as [|r rows IH]; intros c Hx; cbn; [done|].
    apply IH. pose proof (atoi_range (cell 0 r)). unfold cell_int. lia.
Qed.

(** The ids related to a user. *)
Definition related (userid : Z) (row : list Field.t) : Z :=
  if cell_int 0 row =? userid then cell_int 1 row else cell_int 0 row.

Lemma relation_loop_eq fuel userid q rows friends :
  enumerates q rows → (length rows < fuel)%nat → Forall (λ r, 2 ≤ length r)%nat rows →
  relation_loop fuel userid q friends = Done (list_to_set (map (related userid) rows) ∪ friends).
Proof.
  intros Hq. revert fuel friends. induction Hq as [q q' E|q q' rows E Hq IH]; intros fuel friends Hf Hr;
    (destruct fuel as [|fuel]; [cbn in Hf; lia|]); cbn [relation_loop]; rewrite E, bind_ret_l; cbn [negb].
  - f_equal. set_solver.
  - apply Forall_cons in Hr as [Hl Hr].
    assert (∃ a b row, db_row q' = a :: b :: row) as (a & b & row & Er).
    { destruct (db_row q') as [|a [|b row]]; cbn in Hl; try lia. eauto. }
    rewrite Er. cbn [QueryResult.vector_get lookup list_lookup]. rewrite !bind_ret_l.
    rewrite IH by (cbn in Hf; done || lia). f_equal. cbn [map list_to_set].
    unfold related at 2. unfold cell_int, cell, Field.toInt32. cbn [lookup list_lookup from_option].
    set_solver.
Qed.
End cursor.

Lemma mem_enumerates r rows : enumerates (D := MemDb) (r, rows) rows.
Proof.
  revert r. induction rows as [|r' rows IH]; intros r.
  - by eapply enumerates_end.
  - refine (enumerates_row (D := MemDb) (r, r' :: rows) (r', rows) rows _ _); [done|apply IH].
Qed.

Section registry.
Context {D Q : Type} `{Database D Q}.
Import UserManager.

Lemma first_user_app p l l' :
  first_user p (l ++ l') = match first_user p l with Some u => Some u | None => first_user p l' end.
Proof. induction l as [|u l IH]; cbn; [done|]. by destruct (p u). Qed.

Lemma first_user_none p l : first_user p l = None ↔ Forall (λ u, p u = false) l.
Proof.
  induction l as [|u l IH]; cbn; [done|]. rewrite Forall_cons. destruct (p u); naive_solver.
Qed.

(** The manager after a registration. *)
Definition with_user (user : User.t) (m : t) : t :=
  mk (_cachedUsers m ++ [registered (_currentUserId m + 1) user]) (_currentUserId m + 1).

Lemma addUser_eq user m (d : D) ok d' :
  _currentUserId m < INT_MAX → db_excute (insert_sql (_currentUserId m + 1) user) d = Done (ok, d') →
  addUser user m d =
    Done (if ok : bool then (true, registered (_currentUserId m + 1) user, with_user user m, d')
          else (false, user, m, d')).
Proof.
  intros Hm E. unfold addUser. rewrite (proj2 (Z.ltb_lt _ _)) by done.
  cbn [defined_if]. rewrite bind_ret_l, E, bind_ret_l. by destruct ok.
Qed.

Lemma with_user_wf user m : wf m → _currentUserId m < INT_MAX → wf (with_user user m).
Proof.
  intros [Hu Hc] Hm. unfold with_user, wf; cbn [_cachedUsers _currentUserId].
  split; [|unfold INT_MIN, INT_MAX in *; lia].
  apply Forall_app; split; [|repeat constructor; cbn; lia].
  apply Forall_forall. intros u Hin. pose proof (proj1 (Forall_forall _ _) Hu u Hin). cbn in *. lia.
Qed.

Lemma lookup_new_id m :
  wf m → first_user (λ it, User._userId it =? _currentUserId m + 1) (_cachedUsers m) = None.
Proof.
  intros [Hu _]. apply first_user_none, Forall_forall. intros u Hin.
  pose proof (proj1 (Forall_forall _ _) Hu u Hin). apply Z.eqb_neq. cbn in *. lia.
Qed.
End registry.

(** * Properties *)
Import UserManager.

(** [addUser] on a well-formed manager: the user gets the next id, which no
    cached user has, default values for its other members, and is appended to
    the cache; the manager stays well formed (every cached id is at most the
    counter).  When the statement is refused nothing changes. *)
Theorem addUser_registers {D Q} `{Database D Q} user m (d : D) ok d' :
  wf m → _currentUserId m < INT_MAX →
  db_excute (insert_sql (_currentUserId m + 1) user) d = Done (ok, d') →
  ∃ user' m',
    addUser user m d = Done (ok, user', m', d') ∧ wf m' ∧
    if ok : bool
    then user' = registered (_currentUserId m + 1) user ∧
         _cachedUsers m' = _cachedUsers m ++ [user'] ∧
         _currentUserId m' = _currentUserId m + 1 ∧
         Forall (λ u, User._userId u ≠ User._userId user') (_cachedUsers m)
    else user' = user ∧ m' = m.
Proof.
  intros Hw Hm E. exists (if ok then registered (_currentUserId m + 1) user else user),
    (if ok then with_user user m else m).
  rewrite (addUser_eq _ _ _ _ _ Hm E). destruct ok; split_and!; try done.
  - by apply with_user_wf.
  - pose proof (lookup_new_id m Hw) as Hn. apply first_user_none in Hn.
    apply Forall_forall. intros u Hin. pose proof (proj1 (Forall_forall _ _) Hn u Hin) as Hu.
    by apply Z.eqb_neq in Hu.
Qed.

Lemma addUser_registers_witness :
  ∃ user' m',
    addUser (User.mk 0 (bs "alice") [] [] [] (-1) [] [] 0 None [] [] [] None ∅) make
      (mkMemDb true [] (λ _, None)) = Done (true, user', m', mkMemDb true
        [bs "INSERT INTO user(user_id,username,nickname,password,register_time)VALUES(10001,'alice','','',NOW())"]
        (λ _, None)) ∧ wf m'.
Proof.
  destruct (addUser_registers (D := MemDb)
    (User.mk 0 (bs "alice") [] [] [] (-1) [] [] 0 None [] [] [] None ∅) make
    (mkMemDb true [] (λ _, None)) true
    (mkMemDb true [bs "INSERT INTO user(user_id,username,nickname,password,register_time)VALUES(10001,'alice','','',NOW())"]
       (λ _, None))) as (u & m & Hr & Hm & _).
  - split; [constructor | unfold INT_MIN, INT_MAX; cbn; lia].
  - reflexivity.
  - reflexivity.
  - exists u, m. by split.
Defined.

(** The password of a registration is never sent to the database: two users
    that differ only in it produce the same statement, whose password column
    is the nickname. *)
Theorem password_not_stored {D Q} `{Database D Q} id user password m (d : D) :
  let user' := User.mk (User._userId user) (User._userName user) password (User._nickName user)
    (User._signature user) (User._faceType user) (User._customFace user) (User._customFaceFmt user)
    (User._gender user) (User._birthDay user) (User._adress user) (User._pthone user)
    (User._mail user) (User._ownerid user) (User._friends user) in
  insert_sql id user' = insert_sql id user ∧
  (∃ before, insert_sql id user = before ++ bs "'" ++ User._nickName user ++ bs "',NOW())") ∧
  ('(_, _, _, d') ← addUser user' m d; Done d') = ('(_, _, _, d') ← addUser user m d; Done d').
Proof.
  intros user'. split; [done|]. split.
  - exists (bs "INSERT INTO user(user_id,username,nickname,password,register_time)" ++
            bs "VALUES(" ++ signed_decimal id ++ bs ",'" ++ User._userName user ++ bs "','" ++
            User._nickName user ++ bs "',").
    unfold insert_sql. rewrite <-!app_assoc. reflexivity.
  - unfold addUser. change (insert_sql _ user') with (insert_sql (_currentUserId m + 1) user).
    destruct (defined_if _ _); cbn [mbind outcome_bind]; [|done].
    by destruct (db_excute _ d) as [[[] ?]|].
Qed.

(** A registered user is found again: by its id always; by its name when
    no earlier user has that name, and otherwise the earlier user is found,
    since registration does not look for duplicates. *)
Theorem registered_user_found {D Q} `{Database D Q} user u0 m (d : D) d' :
  wf m → _currentUserId m < INT_MAX →
  db_excute (insert_sql (_currentUserId m + 1) user) d = Done (true, d') →
  ∃ user' m',
    addUser user m d = Done (true, user', m', d') ∧
    getUserInfoFromCached_id (_currentUserId m + 1) u0 m' = (true, user') ∧
    getUserInfoFromCached_name (User._userName user) u0 m' =
      match first_user (λ it, bool_decide (User._userName it = User._userName user)) (_cachedUsers m) with
      | Some earlier => (true, earlier)
      | None => (true, user')
      end.
Proof.
  intros Hw Hm E. rewrite (addUser_eq _ _ _ _ _ Hm E). eexists _, _. split; [done|].
  unfold getUserInfoFromCached_id, getUserInfoFromCached_name, with_user. cbn [_cachedUsers].
  rewrite !first_user_app, lookup_new_id by done. cbn [first_user registered User._userId User._userName].
  rewrite Z.eqb_refl. split; [done|].
  destruct (first_user _ (_cachedUsers m)); [done|]. by rewrite bool_decide_true.
Qed.

Lemma registered_user_found_witness :
  let alice := User.mk 0 (bs "alice") [] [] [] (-1) [] [] 0 None [] [] [] None ∅ in
  ∃ user' m',
    addUser alice make (mkMemDb true [] (λ _, None)) =
      Done (true, user', m', mkMemDb true
        [bs "INSERT INTO user(user_id,username,nickname,password,register_time)VALUES(10001,'alice','','',NOW())"]
        (λ _, None)) ∧
    getUserInfoFromCached_id 10001 User.make m' = (true, user') ∧
    getUserInfoFromCached_name (bs "alice") User.make m' = (true, user').
Proof.
  intros alice.
  destruct (registered_user_found (D := MemDb) alice User.make make (mkMemDb true [] (λ _, None))
    (mkMemDb true [bs "INSERT INTO user(user_id,username,nickname,password,register_time)VALUES(10001,'alice','','',NOW())"]
       (λ _, None))) as (u & m & Hr & Hi & Hn).
  - split; [constructor | unfold INT_MIN, INT_MAX; cbn; lia].
  - reflexivity.
  - reflexivity.
  - exists u, m. split; [exact Hr|]. split; [exact Hi | exact Hn].
Defined.

(** [loadUsers] appends one cached user per row of the result, in its
    order and with the columns in their places, and raises the id counter to
    the largest id seen, so that the manager stays well formed; enough fuel is
    one more than the rows.  A null result fails and changes nothing. *)
Theorem loadUsers_loads {D Q} `{Database D Q} fuel m (d d' : D) q rows :
  wf m → db_query users_sql d = Done (Some q, d') → enumerates q rows →
  Forall (λ r, 12 ≤ length r)%nat rows → (length rows < fuel)%nat →
  ∃ m',
    loadUsers fuel m d = Done (true, m', d') ∧ wf m' ∧
    _cachedUsers m' = _cachedUsers m ++ map row_user rows ∧
    _currentUserId m' = foldl Z.max (_currentUserId m) (map (cell_int 0) rows).
Proof.
  intros Hw Hq He Hr Hf. exists (loaded rows m). split_and!; [|by apply loaded_wf|done|done].
  unfold loadUsers. rewrite Hq, bind_ret_l. by rewrite (load_loop_eq fuel q rows m He Hf Hr), bind_ret_l.
Qed.

Lemma loadUsers_loads_witness :
  let text v := Field.mk [] (bs v) 0 Field.TYPE_STRING false in
  let row := map text ["10007"; "bob"; "Bob"; "pw"; "0"; ""; "1"; "19900101"; ""; ""; ""; "b@x"]%string in
  ∃ m',
    loadUsers 2 make (mkMemDb true [] (λ _, Some [row])) =
      Done (true, m', mkMemDb true [] (λ _, Some [row])) ∧ wf m' ∧
    _cachedUsers m' = [row_user row] ∧ _currentUserId m' = 10007.
Proof.
  intros text row.
  destruct (loadUsers_loads (D := MemDb) 2 make (mkMemDb true [] (λ _, Some [row]))
    (mkMemDb true [] (λ _, Some [row])) ([], [row]) [row]) as (m' & Hl & Hw & Hu & Hc).
  - split; [constructor | unfold INT_MIN, INT_MAX; cbn; lia].
  - reflexivity.
  - apply mem_enumerates.
  - repeat constructor.
  - cbn. lia.
  - exists m'. split; [exact Hl|]. split; [exact Hw|]. split; [exact Hu|]. rewrite Hc. reflexivity.
Defined.

(** [loadRelation] adds to the friends, for every row of the result, the
    member of the pair that is not the user. *)
Theorem loadRelation_adds_friends {D Q} `{Database D Q} fuel userid friends (d d' : D) q rows :
  db_query (relation_sql userid) d = Done (Some q, d') → enumerates q rows →
  Forall (λ r, 2 ≤ length r)%nat rows → (length rows < fuel)%nat →
  ∃ friends',
    loadRelation fuel userid friends d = Done (true, friends', d') ∧
    ∀ x, x ∈ friends' ↔ x ∈ friends ∨
      ∃ r, r ∈ rows ∧ (cell_int 0 r = userid ∧ x = cell_int 1 r ∨
                       cell_int 0 r ≠ userid ∧ x = cell_int 0 r).
Proof.
  intros Hq He Hr Hf. exists (list_to_set (map (related userid) rows) ∪ friends). split.
  - unfold loadRelation. rewrite Hq, bind_ret_l.
    by rewrite (relation_loop_eq fuel userid q rows friends He Hf Hr), bind_ret_l.
  - intros x. rewrite elem_of_union, elem_of_list_to_set, list_elem_of_fmap.
    unfold related. split.
    + intros [(r & -> & Hin)|]; [|by left]. right. exists r. split; [done|].
      destruct (Z.eqb_spec (cell_int 0 r) userid); [by left|by right].
    + intros [|(r & Hin & [[E ->]|[E ->]])]; [by right| |]; left; exists r; split; try done;
        destruct (Z.eqb_spec (cell_int 0 r) userid); congruence.
Qed.

Lemma loadRelation_adds_friends_witness :
  let text v := Field.mk [] (bs v) 0 Field.TYPE_STRING false in
  let row := map text ["7"; "10001"]%string in
  ∃ friends',
    loadRelation 2 10001 ∅ (mkMemDb true [] (λ _, Some [row])) =
      Done (true, friends', mkMemDb true [] (λ _, Some [row])) ∧ 7 ∈ friends'.
Proof.
  intros text row.
  destruct (loadRelation_adds_friends (D := MemDb) 2 10001 ∅ (mkMemDb true [] (λ _, Some [row]))
    (mkMemDb true [] (λ _, Some [row])) ([], [row]) [row]) as (f & Hl & Hf).
  - reflexivity.
  - apply mem_enumerates.
  - repeat constructor.
  - cbn. lia.
  - exists f. split; [exact Hl|]. apply Hf. right. exists row. split; [by left|]. right.
    split; [discriminate | reflexivity].
Defined.
