(* ===== verification/ClientSession.v ===== *)
(** A client session (ClientSession.h/.cpp): cutting the byte stream of a
    connection into packets, dispatching a packet, and the handlers of the
    heartbeat, registration and login messages.

    [onRead] works on any input buffer that is a [ByteQueue], and the handlers
    on any [Database].  A handler maps the state of the process the session can
    reach ([env]: the user manager, the database and the bytes handed to
    [conn->send]) to its next state. *)

From S2P Require Import Prelude StdMap BinaryIO Buffer CDouble JsonValue.
From S2P Require Import JsonWriter JsonReader Mysql MysqlBusiness UserManager.
Local Open Scope Z_scope.

(** ** Message types and result codes *)
Definition MSG_TYPE_UNKNOW : Z := 0.
Definition MSG_TYPE_HEARTBEAT : Z := 1000.
Definition MSG_TYPE_REGISTER : Z := 1001.
Definition MSG_TYPE_LOGIN : Z := 1002.
Definition MSG_TYPE_FRIENDLIST : Z := 1003.
Definition MSG_TYPE_FINDUSER : Z := 1004.
Definition MSG_TYPE_OPERATEFRIEND : Z := 1005.
Definition MSG_TYPE_USERSTATUS : Z := 1006.
Definition MSG_TYPE_UPDATEUSERINFO : Z := 1007.
Definition MSG_TYPE_MODIFYPWD : Z := 1008.
Definition MSG_TYPE_CREATEGROUP : Z := 1009.
Definition MSG_TYPE_GETGROUPMEMBERS : Z := 1010.
Definition MSG_TYPE_CHAT : Z := 1100.
Definition MSG_TYPE_GROUPCHAT : Z := 1101.

Definition RES_PARSE_FAILED : Z := 400.
Definition RES_JOSNTYPE_ERROR : Z := 401.
Definition RES_REGISTER_FAIED : Z := 402.
Definition RES_LOGIN_NOREGISTER : Z := 403.
Definition RES_LOGIN_NOPASSWORD : Z := 404.
Definition RES_REGISTER_SUCCESS : Z := 200.
Definition RES_LOGIN_SUCCESS : Z := 201.

(** [std::string::max_size()] of the library; a longer [assign] or [resize]
    throws [std::length_error]. *)
Definition string_max_size : Z := 2 ^ 62 - 1.

(** [root[ key ]] on a non-const value: the element, and the value with it. *)
Definition member (key : string) (root : Value) : outcome (Value * Value) :=
  root ← Value.resolveReference (bs key) root;
  el ← Value.const_key (bs key) root;
  Done (default Value.null el, root).

(** ** Cutting the stream into packets *)
Section framing.
Context {B : Type} `{ByteQueue B} {S : Type}.

(** The loop of [onRead].  [process] handles one packet; an iteration retrieves
    at least the four bytes of the length. *)
Fixpoint read_loop (fuel : nat) (process : bytes → S → outcome S) (buf : B) (s : S) :
    outcome (B * S) :=
  match fuel with
  | O => Fault OutOfFuel
  | Datatypes.S fuel =>
      if negb (4 <=? bq_readable buf) then Done (buf, s)
      else
        let packgeSize := s32 (le_value (bq_peek 4 buf)) in
        if bq_readable buf <? u64 (4 + u64 packgeSize) then Done (buf, s)
        else
          buf ← bq_retrieve 4 buf;
          _ ← (if u64 packgeSize <=? string_max_size then Done tt
               else Fault (Thrown "std::length_error"));
          let msg := bq_peek packgeSize buf in
          buf ← bq_retrieve packgeSize buf;
          s ← process msg s;
          read_loop fuel process buf s
  end.

Definition read_packets (process : bytes → S → outcome S) (buf : B) (s : S) : outcome (B * S) :=
  read_loop (Datatypes.S (Z.to_nat (bq_readable buf))) process buf s.
End framing.

Module ClientSession.
(** [_sessionId] and [_seq]. *)
Record t := mk { _sessionId : bytes; _seq : Z }.

(** [ClientSession( conn )]: [uuid] is the generated identifier, which also
    becomes the name of the connection. *)
Definition make (uuid : bytes) : t := mk uuid 0.
Definition set_seq (seq : Z) (s : t) : t := mk (_sessionId s) seq.
(** [operator std::string()] *)
Definition to_string (s : t) : bytes := _sessionId s.

Definition getJsonString (code : Z) (msg : bytes) : outcome bytes :=
  let value := Value.null in
  value ← Value.set_key (bs "code") (Value.of_int code) value;
  value ← Value.set_key (bs "msg") (Value.of_string msg) value;
  toStyledString value.

Section handlers.
Context {D Q : Type} `{Database D Q}.

Record env := mkEnv { users : UserManager.t; db : D; sent : list bytes }.

(** [if( conn != NULL ) conn->send( out.c_str(), out.size() )] *)
Definition conn_send (conn : bool) (out : bytes) (e : env) : env :=
  if conn then mkEnv (users e) (db e) (sent e ++ [out]) else e.

(** [send( conn, writer )]: the packet length is an [int]. *)
Definition send (conn : bool) (writer : BinaryWriter.t) (e : env) : env :=
  let out := BinaryWriter.getMsg writer in
  let writer := BinaryWriter.clear writer in
  let len := s32 (szof out) in
  let '(_, writer) := BinaryWriter.writeData (le_bytes 4 len) writer in
  conn_send conn (BinaryWriter.getMsg writer ++ out) e.

(** [writer.writeData( cmd ); writer.writeData( _seq )] *)
Definition header (cmd : Z) (s : t) : BinaryWriter.t :=
  let '(_, writer) := BinaryWriter.writeData (le_bytes 4 cmd) BinaryWriter.empty in
  (BinaryWriter.writeData (le_bytes 4 (_seq s)) writer).2.

(** The length field of the heartbeat is a [size_t]. *)
Definition onHeartbeatResponse (conn : bool) (data : bytes) (s : t) (e : env) : outcome env :=
  let writer := header MSG_TYPE_HEARTBEAT s in
  '(_, writer) ← BinaryWriter.writeString [] writer;
  let out := BinaryWriter.getMsg writer in
  let writer := BinaryWriter.clear writer in
  let data_len := szof out in
  let '(_, writer) := BinaryWriter.writeData (le_bytes 8 data_len) writer in
  Done (conn_send conn (BinaryWriter.getMsg writer ++ out) e).

(** [writer.writeData( res ); send( conn, writer )] *)
Definition reply (conn : bool) (res : bytes) (writer : BinaryWriter.t) (e : env) : outcome env :=
  '(_, writer) ← BinaryWriter.writeString res writer;
  Done (send conn writer e).
Definition reply_code (conn : bool) (code : Z) (msg : string) (writer : BinaryWriter.t) (e : env) :
    outcome env :=
  res ← getJsonString code (bs msg);
  reply conn res writer e.

(** The registration once the format test has passed. *)
Definition register_user (conn : bool) (root : Value) (writer : BinaryWriter.t) (e : env) :
    outcome env :=
  '(v, root) ← member "username" root;
  userName ← Value.asString v;
  '(v, root) ← member "nicknime" root;
  nickName ← Value.asString v;
  '(v, root) ← member "password" root;
  passWord ← Value.asString v;
  let user := User.mk 0 userName passWord nickName [] (-1) [] [] 0 None [] [] [] None ∅ in
  '(ok, _, m, d) ← UserManager.addUser user (users e) (db e);
  let e := mkEnv m d (sent e) in
  if ok : bool then reply_code conn RES_REGISTER_SUCCESS "register success" writer e
  else reply_code conn RES_REGISTER_FAIED "register failed" writer e.

Definition onRegisterResponse (conn : bool) (data : bytes) (s : t) (e : env) : outcome env :=
  let writer := header MSG_TYPE_REGISTER s in
  let type_error := reply_code conn RES_JOSNTYPE_ERROR "json type error" writer e in
  '(ok, root) ← parse data Value.null;
  if negb ok then reply_code conn RES_PARSE_FAILED "json parse faied" writer e
  else
    '(v, root) ← member "username" root;
    if negb (Value.isString v) then type_error
    else
      '(v, root) ← member "nickname" root;
      if negb (Value.isString v) then type_error
      else
        '(v, root) ← member "password" root;
        if Value.isString v then type_error
        else register_user conn root writer e.

(** The lookup of the account: success, and the user found. *)
Definition login_lookup (value : Value) (m : UserManager.t) : outcome (bool * User.t * Value) :=
  let user := User.make in
  '(v, value) ← member "user" value;
  if Value.isString v then
    sAccount ← Value.asString v;
    let '(bRet, user) := UserManager.getUserInfoFromCached_name sAccount user m in
    if bRet then Done (true, user, value)
    else
      let '(bRet, user) := UserManager.getUserInfoFromDB_name sAccount user m in
      Done (bRet, user, value)
  else
    iAccount ← Value.asInt v;
    let '(bRet, user) := UserManager.getUserInfoFromCached_id iAccount user m in
    if bRet then Done (true, user, value)
    else
      let '(bRet, user) := UserManager.getUserInfoFromDB_id iAccount user m in
      Done (bRet, user, value).

(** [response[ key ] = x] for each pair in turn. *)
Fixpoint set_keys (l : list (string * Value)) (response : Value) : outcome Value :=
  match l with
  | [] => Done response
  | (key, x) :: l => response ← Value.set_key (bs key) x response; set_keys l response
  end.

(** The members of the reply to a successful login, in the order they are
    assigned. *)
Definition login_response (user : User.t) (birthDay : Z) : list (string * Value) :=
  [("code", Value.of_int RES_LOGIN_SUCCESS);
   ("msg", Value.of_cstr (bs "user is not exist or password is incorrecr!"));
   ("userid", Value.of_int (User._userId user));
   ("username", Value.of_string (User._userName user));
   ("nickname", Value.of_string (User._nickName user));
   ("facetype", Value.of_int (User._faceType user));
   ("customface", Value.of_string (User._customFace user));
   ("gender", Value.of_int (User._gender user));
   ("birthday", Value.of_int birthDay);
   ("_signature", Value.of_string (User._signature user));
   ("_adress", Value.of_string (User._adress user));
   ("_pthone", Value.of_string (User._pthone user));
   ("_mail", Value.of_string (User._mail user))]%string.

(** The reply to a login that passed the password test. *)
Definition login_success (conn : bool) (user : User.t) (writer : BinaryWriter.t) (e : env) :
    outcome env :=
  birthDay ← User.read (User._birthDay user) "user._birthDay";
  response ← set_keys (login_response user birthDay) Value.null;
  msg ← toStyledString response;
  reply conn msg writer e.

Definition not_registered_text : string := "user is not exist or password is incorrecr!".

Definition onLoginResponse (conn : bool) (data : bytes) (s : t) (e : env) : outcome env :=
  let writer := header MSG_TYPE_LOGIN s in
  let type_error := reply_code conn RES_JOSNTYPE_ERROR "json josn type error" writer e in
  '(ok, value) ← parse data Value.null;
  if negb ok then reply_code conn RES_PARSE_FAILED "json parse faied" writer e
  else
    '(v, value) ← member "password" value;
    if negb (Value.isString v) then type_error
    else
      '(v, value) ← member "stastus" value;
      if negb (Value.isInt v) then type_error
      else
        '(v, value) ← member "password" value;
        password ← Value.asString v;
        '(v, value) ← member "status" value;
        status ← Value.asInt v;
        '(bRet, user, value) ← login_lookup value (users e);
        if negb bRet then reply_code conn RES_LOGIN_NOREGISTER not_registered_text writer e
        else if negb (bool_decide (User._passWord user = password))
        then reply_code conn RES_LOGIN_NOPASSWORD not_registered_text writer e
        else login_success conn user writer e.

(** The [switch] of [process]; the other message types are accepted and
    ignored. *)
Definition dispatch (cmd : Z) (conn : bool) (data : bytes) (s : t) (e : env) : outcome env :=
  if cmd =? MSG_TYPE_HEARTBEAT then onHeartbeatResponse conn data s e
  else if cmd =? MSG_TYPE_REGISTER then onRegisterResponse conn data s e
  else if cmd =? MSG_TYPE_LOGIN then onLoginResponse conn data s e
  else Done e.

(** [process( conn, msg )].  The variables handed to [readData] are their
    bytes in memory. *)
Definition process (conn : bool) (msg : bytes) (s : t) (e : env) : outcome (bool * t * env) :=
  let reader := BinaryReader.make msg in
  '(ok, cmd, reader) ← BinaryReader.readData 4 (le_bytes 4 (-1)) reader;
  if negb ok then Done (false, s, e)
  else
    '(ok, seq, reader) ← BinaryReader.readData 4 (le_bytes 4 (_seq s)) reader;
    let s := set_seq (s32 (le_value seq)) s in
    if negb ok then Done (false, s, e)
    else
      '(ok, dataLen, reader) ← BinaryReader.readData 8 (le_bytes 8 0) reader;
      if negb ok then Done (false, s, e)
      else
        let dataLen := le_value dataLen in
        _ ← (if dataLen <=? string_max_size then Done tt
             else Fault (Thrown "std::length_error"));
        let data := replicate (Z.to_nat dataLen) x00 in
        '(_, data, reader) ← BinaryReader.readString data reader;
        e ← dispatch (s32 (le_value cmd)) conn data s e;
        Done (true, s, e).

(** [onRead]: a packet that [process] rejects is only reported. *)
Definition onRead {B} `{ByteQueue B} (conn : bool) (buf : B) (s : t) (e : env) :
    outcome (B * (t * env)) :=
  read_packets (λ msg (st : t * env),
    '(_, s, e) ← process conn msg st.1 st.2; Done (s, e)) buf (s, e).
End handlers.
Arguments env : clear implicits.
End ClientSession.

(** * The packet stream *)

(** Reference: what a byte stream holds.  A packet is four bytes of length,
    least significant first, and that many bytes; [rest_of] is what follows the
    complete packets, and a length field that [std::string] cannot serve ends
    the stream. *)
Inductive stream_end := Incomplete (rest : bytes) | BadLength.

Fixpoint packets_from (fuel : nat) (l : bytes) : list bytes * stream_end :=
  match fuel with
  | O => ([], Incomplete l)
  | Datatypes.S fuel =>
      if (length l <? 4)%nat then ([], Incomplete l)
      else
        let size := s32 (le_value (take 4 l)) in
        if size <? -4 then ([], Incomplete l)
        else if size <? 0 then ([], BadLength)
        else if szof (drop 4 l) <? size then ([], Incomplete l)
        else
          let n := Z.to_nat size in
          let '(ms, e) := packets_from fuel (drop n (drop 4 l)) in
          (take n (drop 4 l) :: ms, e)
  end.
Definition packets (l : bytes) : list bytes * stream_end := packets_from (length l) l.

(** The packet of a message. *)
Definition packet (m : bytes) : bytes := le_bytes 4 (szof m) ++ m.

(** The handler on each packet in turn. *)
Fixpoint process_all {S} (process : bytes → S → outcome S) (ms : list bytes) (s : S) : outcome S :=
  match ms with
  | [] => Done s
  | m :: ms => s ← process m s; process_all process ms s
  end.

(** The bytes left over and the final state after a stream. *)
Definition stream_result {S} (process : bytes → S → outcome S) (l : bytes) (s : S) :
    outcome (bytes * S) :=
  let '(ms, e) := packets l in
  s' ← process_all process ms s;
  match e with
  | Incomplete rest => Done (rest, s')
  | BadLength => Fault (Thrown "std::length_error")
  end.

Lemma packets_from_fuel f1 f2 l :
  (length l ≤ f1)%nat → (length l ≤ f2)%nat → packets_from f1 l = packets_from f2 l.
Proof.
  revert f2 l. induction f1 as [|f1 IH]; intros [|f2] l H1 H2; cbn [packets_from]; try done.
  - destruct l; cbn in *; [done | lia].
  - destruct l; cbn in *; [done | lia].
  - destruct (Nat.ltb_spec (length l) 4); [done|].
    repeat case_match; try done; simplify_eq;
      match goal with
      | E1 : packets_from f1 ?x = _, E2 : packets_from f2 _ = _ |- _ =>
          rewrite (IH f2) in E1 by (rewrite !length_drop; lia); congruence
      end.
Qed.

Lemma packets_step l :
  packets l =
    if (length l <? 4)%nat then ([], Incomplete l)
    else
      let size := s32 (le_value (take 4 l)) in
      if size <? -4 then ([], Incomplete l)
      else if size <? 0 then ([], BadLength)
      else if szof (drop 4 l) <? size then ([], Incomplete l)
      else
        let n := Z.to_nat size in
        let '(ms, e) := packets (drop n (drop 4 l)) in
        (take n (drop 4 l) :: ms, e).
Proof.
  unfold packets at 1. destruct (length l) as [|k] eqn:E.
  { by destruct l. }
  cbn [packets_from]. rewrite E. destruct (Nat.ltb_spec (S k) 4); [done|]. cbn zeta.
  do 3 (case_match; [done|]).
  unfold packets. rewrite (packets_from_fuel k (length (drop (Z.to_nat (s32 (le_value (take 4 l)))) (drop 4 l))));
    [done | rewrite !length_drop; lia | lia].
Qed.

Lemma s32_range z : INT_MIN ≤ s32 z ≤ INT_MAX.
Proof.
  unfold wraps, INT_MIN, INT_MAX. change (2 ^ 32) with 4294967296. change (2 ^ (32 - 1)) with 2147483648.
  pose proof (Z.mod_pos_bound (z + 2147483648) 4294967296). lia.
Qed.

(** [size_t] of an [int]. *)
Lemma u64_of_int z :
  INT_MIN ≤ z ≤ INT_MAX → u64 z = if z <? 0 then z + 2 ^ 64 else z.
Proof.
  unfold INT_MIN, INT_MAX. intros. destruct (Z.ltb_spec z 0).
  - unfold wrapu. symmetry. apply Z.mod_unique with (-1); lia.
  - apply wrapu_small. lia.
Qed.

Section refinement.
Context {B : Type} `{ByteQueue B} {S : Type} (process : bytes → S → outcome S).

(** What the loop does with a buffer of contents [l], as the reference sees
    it. *)
Definition reads (run : outcome (B * S)) (l : bytes) (s : S) : Prop :=
  match stream_result process l s with
  | Done (rest, s') => ∃ buf', run = Done (buf', s') ∧ bq_valid buf' ∧ bq_contents buf' = rest
  | Fault f => run = Fault f
  end.

Lemma read_loop_reads fuel buf s :
  bq_valid buf → szof (bq_contents buf) < 2 ^ 62 → (length (bq_contents buf) < fuel)%nat →
  reads (read_loop fuel process buf s) (bq_contents buf) s.
Proof.
  revert buf s. induction fuel as [|fuel IH]; intros buf s Hv Hmax Hf; [lia|].
  unfold reads, stream_result. rewrite packets_step. cbn [read_loop].
  rewrite bq_readable_spec by done.
  destruct (Nat.ltb_spec (length (bq_contents buf)) 4) as [Hs|Hs].
  { rewrite (proj2 (Z.leb_gt 4 _)) by lia. cbn [negb process_all mbind outcome_bind]. eauto. }
  rewrite (proj2 (Z.leb_le 4 _)) by lia. cbn [negb].
  rewrite bq_peek_spec by (done || lia). change (Z.to_nat 4) with 4%nat.
  set (size := s32 (le_value (take 4 (bq_contents buf)))). cbn zeta.
  assert (Hsz : INT_MIN ≤ size ≤ INT_MAX) by apply s32_range.
  rewrite (u64_of_int size) by done. unfold INT_MIN, INT_MAX in Hsz.
  destruct (Z.ltb_spec size (-4)).
  { rewrite (proj2 (Z.ltb_lt size 0)) by lia. rewrite u64_small by lia.
    rewrite (proj2 (Z.ltb_lt _ _)) by lia. cbn [process_all mbind outcome_bind]. eauto. }
  destruct (bq_retrieve_spec buf 4) as (b1 & Hr1 & Hv1 & Hc1); [done|lia|].
  change (Z.to_nat 4) with 4%nat in Hc1.
  destruct (Z.ltb_spec size 0).
  { rewrite (proj2 (Z.ltb_ge _ _)); cycle 1.
    { unfold wrapu. rewrite <-(Z.mod_unique (4 + (size + 2 ^ 64)) (2 ^ 64) 1 (4 + size)); lia. }
    rewrite Hr1. cbn [mbind outcome_bind process_all]. unfold string_max_size.
    by rewrite (proj2 (Z.leb_gt _ _)) by lia. }
  rewrite u64_small by lia. rewrite length_drop.
  destruct (Z.ltb_spec (szof (bq_contents buf)) (4 + size));
    [rewrite (proj2 (Z.ltb_lt _ _)) by lia; cbn [process_all mbind outcome_bind]; by eauto|].
  rewrite (proj2 (Z.ltb_ge _ _)) by lia. rewrite Hr1.
  unfold string_max_size. rewrite (proj2 (Z.leb_le _ _)) by lia. cbn [mbind outcome_bind].
  rewrite bq_peek_spec by (rewrite ?Hc1, ?length_drop; done || lia). rewrite Hc1.
  destruct (bq_retrieve_spec b1 size) as (b2 & Hr2 & Hv2 & Hc2);
    [done | rewrite Hc1, length_drop; lia |].
  rewrite Hr2, Hc1 in *.
  destruct (packets (drop (Z.to_nat size) (drop 4 (bq_contents buf)))) as [ms e] eqn:Ep.
  cbn [mbind outcome_bind process_all].
  destruct (process (take (Z.to_nat size) (drop 4 (bq_contents buf))) s) as [s1|f]; [|done].
  cbn [mbind outcome_bind].
  specialize (IH b2 s1 Hv2). unfold reads, stream_result in IH. rewrite Hc2, Ep in IH.
  apply IH; rewrite !length_drop; lia.
Qed.

Lemma read_packets_reads buf s :
  bq_valid buf → szof (bq_contents buf) < 2 ^ 62 →
  reads (read_packets process buf s) (bq_contents buf) s.
Proof.
  intros Hv Hm. apply read_loop_reads; [done..|].
  rewrite bq_readable_spec by done. lia.
Qed.
End refinement.

(** ** Reading in pieces *)

Lemma process_all_app {S} (process : bytes → S → outcome S) ms1 ms2 s :
  process_all process (ms1 ++ ms2) s = (s' ← process_all process ms1 s; process_all process ms2 s').
Proof.
  revert s. induction ms1 as [|m ms1 IH]; intros s; cbn; [done|].
  destruct (process m s); cbn; auto.
Qed.

(** What follows the complete packets of a prefix is where reading resumes. *)
Lemma packets_app l1 l2 ms rest :
  packets l1 = (ms, Incomplete rest) →
  packets (l1 ++ l2) = let '(ms', e) := packets (rest ++ l2) in (ms ++ ms', e).
Proof.
  remember (length l1) as n eqn:Hn. revert l1 ms rest Hn.
  induction n as [n IH] using lt_wf_ind; intros l1 ms rest Hn.
  rewrite (packets_step l1). destruct (Nat.ltb_spec (length l1) 4) as [|H4].
  { intros [= <- <-]. cbn. by destruct (packets _). }
  set (size := s32 (le_value (take 4 l1))). cbn zeta.
  destruct (size <? -4) eqn:E1; [intros [= <- <-]; cbn; by destruct (packets _)|].
  destruct (size <? 0) eqn:E2; [done|].
  destruct (szof (drop 4 l1) <? size) eqn:E3;
    [intros [= <- <-]; cbn; by destruct (packets _)|].
  destruct (packets (drop (Z.to_nat size) (drop 4 l1))) as [ms1 e1] eqn:E4.
  intros [= <- ->]. rewrite (packets_step (l1 ++ l2)), length_app.
  rewrite (proj2 (Nat.ltb_ge _ _)) by lia. rewrite take_app_le by lia.
  fold size. cbn zeta. rewrite E1, E2. apply Z.ltb_ge in E3, E2.
  rewrite (drop_app_le l1 l2 4) by lia. rewrite length_app.
  rewrite (proj2 (Z.ltb_ge _ _)) by lia.
  rewrite drop_app_le, take_app_le by lia.
  erewrite (IH (length (drop (Z.to_nat size) (drop 4 l1)))); [|rewrite !length_drop; lia|done|done].
  by destruct (packets (rest ++ l2)).
Qed.

Lemma packet_front m l :
  szof m ≤ INT_MAX →
  packets (packet m ++ l) = let '(ms, e) := packets l in (m :: ms, e).
Proof.
  unfold INT_MAX, packet. intros Hm. rewrite packets_step.
  rewrite !length_app, length_le_bytes.
  rewrite (proj2 (Nat.ltb_ge _ _)) by lia. rewrite <-app_assoc.
  rewrite take_app_le by (rewrite length_le_bytes; lia).
  rewrite (take_ge (le_bytes 4 _)) by (rewrite length_le_bytes; lia).
  rewrite le_value_bytes. change (256 ^ Z.of_nat 4) with (2 ^ 32).
  rewrite wraps_wrapu, s32_small by (unfold INT_MIN, INT_MAX; lia). cbn zeta.
  rewrite (proj2 (Z.ltb_ge (szof m) (-4))), (proj2 (Z.ltb_ge (szof m) 0)) by lia.
  rewrite (drop_app_ge _ _ 4) by (rewrite length_le_bytes; lia).
  rewrite length_le_bytes, Nat.sub_diag, drop_0, length_app.
  rewrite (proj2 (Z.ltb_ge _ _)) by lia. rewrite Nat2Z.id.
  rewrite take_app_length, drop_app_length. done.
Qed.

Lemma packets_app_bad l1 l2 ms :
  packets l1 = (ms, BadLength) → packets (l1 ++ l2) = (ms, BadLength).
Proof.
  remember (length l1) as n eqn:Hn. revert l1 ms Hn.
  induction n as [n IH] using lt_wf_ind; intros l1 ms Hn.
  rewrite (packets_step l1). destruct (Nat.ltb_spec (length l1) 4) as [|H4]; [done|].
  rewrite (packets_step (l1 ++ l2)), length_app.
  rewrite (proj2 (Nat.ltb_ge _ _)) by lia. rewrite take_app_le by lia.
  set (size := s32 (le_value (take 4 l1))). cbn zeta.
  destruct (size <? -4) eqn:E1; [done|]. destruct (size <? 0) eqn:E2; [done|].
  destruct (szof (drop 4 l1) <? size) eqn:E3; [done|].
  destruct (packets (drop (Z.to_nat size) (drop 4 l1))) as [ms1 e1] eqn:E4.
  intros [= <- ->]. apply Z.ltb_ge in E3, E2.
  rewrite (drop_app_le l1 l2 4) by lia. rewrite length_app.
  rewrite (proj2 (Z.ltb_ge _ _)) by lia.
  rewrite drop_app_le, take_app_le by lia.
  by erewrite (IH (length (drop (Z.to_nat size) (drop 4 l1)))); [|rewrite !length_drop; lia|done|done].
Qed.

(** Bytes that arrive later continue where the earlier ones stopped. *)
Lemma stream_result_app {S} (process : bytes → S → outcome S) l1 l2 s :
  stream_result process (l1 ++ l2) s =
    ('(rest, s') ← stream_result process l1 s; stream_result process (rest ++ l2) s').
Proof.
  unfold stream_result. destruct (packets l1) as [ms [rest|]] eqn:E1.
  - rewrite (packets_app l1 l2 ms rest E1).
    destruct (process_all process ms s) as [s1|f] eqn:Es; cbn [mbind outcome_bind];
      destruct (packets (rest ++ l2)) as [ms' e] eqn:E2;
      by rewrite process_all_app, Es.
  - rewrite (packets_app_bad l1 l2 ms E1).
    by destruct (process_all process ms s).
Qed.

Lemma packets_rest_le l ms rest :
  packets l = (ms, Incomplete rest) → (length rest ≤ length l)%nat.
Proof.
  remember (length l) as n eqn:Hn. revert l ms Hn.
  induction n as [n IH] using lt_wf_ind; intros l ms Hn. rewrite packets_step.
  destruct (Nat.ltb_spec (length l) 4); [intros [= <- <-]; lia|]. cbn zeta.
  do 3 (case_match; [intros; simplify_eq; lia|]).
  destruct (packets (drop _ _)) as [ms1 e1] eqn:E4. intros [= <- ->].
  set (l' := drop _ (drop 4 l)) in E4.
  assert (length l' < n)%nat as Hlt by (unfold l'; rewrite !length_drop; lia).
  pose proof (IH _ Hlt l' ms1 eq_refl E4). lia.
Qed.

Lemma stream_result_rest_le {S} (process : bytes → S → outcome S) l s rest s' :
  stream_result process l s = Done (rest, s') → (length rest ≤ length l)%nat.
Proof.
  unfold stream_result. destruct (packets l) as [ms [r|]] eqn:E;
    destruct (process_all process ms s); cbn; intros; simplify_eq.
  by eapply packets_rest_le.
Qed.

(** One segment arrives ([readFd]) and the message callback runs. *)
Definition deliver {S} (process : bytes → S → outcome S) (chunk : bytes) (st : Buffer.t * S) :
    outcome (Buffer.t * S) :=
  r ← Buffer.readFd (Buffer.ReadBytes chunk) st.1;
  read_packets process r.2 st.2.
Fixpoint deliver_all {S} (process : bytes → S → outcome S) (chunks : list bytes)
    (st : Buffer.t * S) : outcome (Buffer.t * S) :=
  match chunks with
  | [] => Done st
  | c :: chunks => st ← deliver process c st; deliver_all process chunks st
  end.
(** The result, with the buffer seen as its unread bytes. *)
Definition observe {S} (m : outcome (Buffer.t * S)) : outcome (bytes * S) :=
  '(b, s) ← m; Done (Buffer.contents b, s).

Lemma deliver_result {S} (process : bytes → S → outcome S) chunk b s :
  Buffer.wf b → szof (Buffer.contents b) + 2 * szof chunk + 8 < 2 ^ 62 →
  match stream_result process (Buffer.contents b ++ chunk) s with
  | Done (rest, s') =>
      ∃ b', deliver process chunk (b, s) = Done (b', s') ∧ Buffer.wf b' ∧ Buffer.contents b' = rest
  | Fault f => deliver process chunk (b, s) = Fault f
  end.
Proof.
  intros Hb Hm. unfold deliver; cbn [fst snd].
  destruct (readFd_spec b chunk Hb) as (b1 & -> & H1 & Hc1); [exact Hm|].
  cbn [mbind outcome_bind fst snd].
  pose proof (read_packets_reads process b1 s H1) as Hr. cbn in Hr. unfold reads in Hr.
  cbn [bq_contents Buffer_queue bq_valid] in Hr. rewrite Hc1 in Hr.
  apply Hr. rewrite length_app. lia.
Qed.

Lemma deliver_all_result {S} (process : bytes → S → outcome S) chunks b s :
  Buffer.wf b → szof (Buffer.contents b) + 2 * szof (concat chunks) + 8 < 2 ^ 62 →
  stream_result process (Buffer.contents b) s = Done (Buffer.contents b, s) →
  observe (deliver_all process chunks (b, s)) =
    stream_result process (Buffer.contents b ++ concat chunks) s.
Proof.
  revert b s. induction chunks as [|c chunks IH]; intros b s Hb Hm Hq.
  - cbn. by rewrite app_nil_r, Hq.
  - cbn [concat deliver_all] in *. rewrite length_app in Hm.
    rewrite app_assoc, stream_result_app.
    pose proof (deliver_result process c b s Hb) as Hd.
    destruct (stream_result process (Buffer.contents b ++ c) s) as [[rest s']|f] eqn:E.
    + destruct Hd as (b' & -> & Hb' & Hc'); [lia|]. cbn [mbind outcome_bind].
      apply stream_result_rest_le in E as Hl. rewrite length_app in Hl. subst rest.
      apply IH; [done|lia|].
      pose proof (stream_result_app process (Buffer.contents b ++ c) [] s) as Ha.
      rewrite app_nil_r, E in Ha. cbn in Ha. by rewrite app_nil_r in Ha.
    + rewrite Hd by lia. done.
Qed.

(** * Packets as [process] sees them *)
Section process_facts.
Context {D Q : Type} `{Database D Q}.
Import ClientSession.

Definition read_fault {A} : outcome A := Fault (Undefined "BinaryReader: read past the message").

(** The outcome of [process] by the length of the message. *)
Definition process_outcome (msg : bytes) (s : t) (e : env D) : outcome (bool * t * env D) :=
  let n := szof msg in
  if (n =? 4) || (n =? 8) || (n =? 16) then read_fault
  else Done (16 <? n, s, e).

Lemma seq_in_place s : INT_MIN ≤ _seq s ≤ INT_MAX →
  set_seq (s32 (le_value (le_bytes 4 (_seq s)))) s = s.
Proof.
  intros Hs. rewrite le_value_bytes. change (256 ^ Z.of_nat 4) with (2 ^ 32).
  rewrite wraps_wrapu by lia. rewrite s32_small by done. by destruct s.
Qed.

Lemma process_eq conn msg s e :
  szof msg ≤ INT_MAX → INT_MIN ≤ _seq s ≤ INT_MAX →
  process conn msg s e = process_outcome msg s e.
Proof.
  intros Hm Hs. unfold process, process_outcome.
  assert (Hw : ∀ i, 0 ≤ i ≤ szof msg → BinaryReader.wf (BinaryReader.mk msg i)) by (intros i Hi; by split).
  rewrite readData_spec by (apply (Hw 0) || lia; lia). unfold BinaryReader.size; cbn [BinaryReader.index BinaryReader.msg BinaryReader.make].
  destruct (Z.ltb_spec (szof msg) (0 + 4)).
  { cbn [mbind outcome_bind negb].
    rewrite (proj2 (Z.eqb_neq _ 4)), (proj2 (Z.eqb_neq _ 8)), (proj2 (Z.eqb_neq _ 16)) by lia.
    by rewrite (proj2 (Z.ltb_ge 16 _)) by lia. }
  destruct (Z.eqb_spec (szof msg) (0 + 4)) as [E|].
  { rewrite E. done. }
  cbn [mbind outcome_bind negb].
  rewrite readData_spec by (apply (Hw 4) || lia; lia).
  unfold BinaryReader.size; cbn [BinaryReader.index BinaryReader.msg BinaryReader.make].
  destruct (Z.ltb_spec (szof msg) (0 + 4 + 4)).
  { cbn [mbind outcome_bind negb]. rewrite seq_in_place by done.
    rewrite (proj2 (Z.eqb_neq _ 4)), (proj2 (Z.eqb_neq _ 8)), (proj2 (Z.eqb_neq _ 16)) by lia.
    by rewrite (proj2 (Z.ltb_ge 16 _)) by lia. }
  destruct (Z.eqb_spec (szof msg) (0 + 4 + 4)) as [E|].
  { rewrite E. done. }
  cbn [mbind outcome_bind negb]. rewrite seq_in_place by done.
  rewrite readData_spec by (apply (Hw 8) || lia; lia).
  unfold BinaryReader.size; cbn [BinaryReader.index BinaryReader.msg BinaryReader.make].
  rewrite (proj2 (Z.eqb_neq _ 4)), (proj2 (Z.eqb_neq _ 8)) by lia. cbn [orb].
  destruct (Z.ltb_spec (szof msg) (0 + 4 + 4 + 8)).
  { cbn [mbind outcome_bind negb]. rewrite (proj2 (Z.eqb_neq _ 16)) by lia.
    by rewrite (proj2 (Z.ltb_ge 16 _)) by lia. }
  destruct (Z.eqb_spec (szof msg) (0 + 4 + 4 + 8)) as [E|].
  { rewrite E. done. }
  cbn [mbind outcome_bind negb].
  change (le_value (le_bytes 8 0)) with 0. change (0 <=? string_max_size) with true.
  cbn [mbind outcome_bind]. change (replicate (Z.to_nat 0) x00) with (@nil byte).
  unfold BinaryReader.readString, BinaryReader.size; cbn [BinaryReader.index BinaryReader.msg length].
  rewrite (proj2 (Z.leb_le _ _)) by lia. rewrite (proj2 (Z.leb_le _ _)) by lia.
  cbn [andb defined_if mbind outcome_bind].
  change (s32 (le_value (le_bytes 4 (-1)))) with (-1). cbn [dispatch].
  change (dispatch (-1) conn (take 0 _) s e) with (Done (A := env D) e).
  cbn [mbind outcome_bind]. rewrite (proj2 (Z.eqb_neq _ 16)) by lia.
  by rewrite (proj2 (Z.ltb_lt 16 _)) by lia.
Qed.
End process_facts.

(** * Replies *)
Section reply_facts.
Context {D Q : Type} `{Database D Q}.
Import ClientSession.
Implicit Types (e : env D) (s : t).

(** The second [writeData] copies the sequence number over the command. *)
Lemma header_eq cmd s :
  header cmd s = BinaryWriter.mk (le_bytes 4 (_seq s) ++ replicate 4 x00) 8.
Proof. reflexivity. Qed.

(** A packet as [send] and the handlers build it. *)
Definition reply_bytes (s : t) (res : bytes) : bytes :=
  le_bytes 4 (szof res + 9) ++ le_bytes 4 (_seq s) ++ replicate 4 x00 ++ of_Z (szof res) :: res.

Lemma reply_short conn res cmd s e :
  szof res < 128 →
  reply conn res (header cmd s) e = Done (conn_send conn (reply_bytes s res) e).
Proof.
  intros Hr. unfold reply. rewrite writeString_short by done. cbn [mbind outcome_bind].
  rewrite header_eq. unfold send, reply_bytes. cbn [BinaryWriter.msg BinaryWriter.getMsg].
  do 2 f_equal.
  match goal with |- context [le_bytes 4 (s32 ?x)] =>
    replace (s32 x) with (szof res + 9)
  end; [reflexivity|].
  rewrite !length_app, length_le_bytes, length_replicate. cbn [length].
  rewrite s32_small; unfold INT_MIN, INT_MAX; lia.
Qed.

Lemma reply_long conn res cmd s e :
  128 ≤ szof res →
  reply conn res (header cmd s) e = Fault (Undefined "BinaryWriter::compress: shift count").
Proof. intros Hr. unfold reply. by rewrite writeString_long. Qed.
End reply_facts.

(** * Requests *)

(** A member of an object; a missing one reads as null. *)
Definition field (key : string) (m : ObjectValues) : Value :=
  default Value.null (StdMap.find (bs key) m).

(** Looking at a member adds a null entry, which no later look notices. *)
Lemma member_object key m c :
  bs key = c_str (bs key) →
  member key (mkValue (objectV m) c) =
    Done (field key m, mkValue (objectV (StdMap.subscript (bs key) Value.null m)) c).
Proof.
  intros Hk. unfold member, Value.resolveReference, Value.const_key, Value.as_object. cbn -[bs].
  rewrite <-Hk. by rewrite StdMap.find_subscript_default.
Qed.

Lemma field_subscript key key' m :
  field key (StdMap.subscript (bs key') Value.null m) = field key m.
Proof. apply StdMap.find_subscript_default. Qed.

(** The members of a value [member] can look into. *)
Lemma member_as_object key v m :
  bs key = c_str (bs key) → Value.as_object v = Done m →
  member key v =
    Done (field key m, mkValue (objectV (StdMap.subscript (bs key) Value.null m)) (Value.comments v)).
Proof.
  intros Hk. destruct v as [h c]. destruct h; cbn [Value.as_object Value.holder]; intros [= <-].
  - unfold member, Value.resolveReference, Value.const_key, Value.as_object. cbn -[bs].
    rewrite bytes_lt_irrefl. by rewrite <-Hk.
  - by apply member_object.
Qed.

Lemma member_fault key v f : Value.as_object v = Fault f → member key v = Fault f.
Proof. intros E. unfold member, Value.resolveReference. by rewrite E. Qed.

(** Rewrites the lookups of a request one after the other. *)
Ltac members :=
  repeat (rewrite member_object by reflexivity; cbn [mbind outcome_bind]; rewrite ?field_subscript).

Section request_facts.
Context {D Q : Type} `{Database D Q}.
Import ClientSession.
Implicit Types (e : env D) (s : t).

(** The text of a coded reply, written with single quotes for the double
    ones. *)
Definition dq (t : string) : bytes := map (λ b, if decide (b = x27) then x22 else b) (bs t).
Definition json_reply (code : Z) (msg : string) : bytes :=
  dq "{
   'code' : " ++ signed_decimal code ++ dq ",
   'msg' : '" ++ bs msg ++ dq "'
}
".

(** The reply with that text. *)
Definition replied (conn : bool) (s : t) (code : Z) (msg : string) (e : env D) : env D :=
  conn_send conn (reply_bytes s (json_reply code msg)) e.

Lemma reply_code_eq conn code msg cmd s e :
  getJsonString code (bs msg) = Done (json_reply code msg) → szof (json_reply code msg) < 128 →
  reply_code conn code msg (header cmd s) e = Done (replied conn s code msg e).
Proof. intros E Hl. unfold reply_code. rewrite E. by apply reply_short. Qed.

(** The registration of an object whose members have passed the format test. *)
Definition register_fields (conn : bool) (m : ObjectValues) (s : t) (e : env D) : outcome (env D) :=
  userName ← Value.asString (field "username" m);
  nickName ← Value.asString (field "nicknime" m);
  passWord ← Value.asString (field "password" m);
  let user := User.mk 0 userName passWord nickName [] (-1) [] [] 0 None [] [] [] None ∅ in
  '(ok, _, um, d) ← UserManager.addUser user (users e) (db e);
  Done (replied conn s (if ok : bool then 200 else 402)
          (if ok : bool then "register success" else "register failed") (mkEnv um d (sent e))).

(** What [onRegisterResponse] does with a parsed document. *)
Definition register_outcome (conn : bool) (parsed : outcome (bool * Value)) (s : t) (e : env D) :
    outcome (env D) :=
  '(ok, root) ← parsed;
  if negb ok then Done (replied conn s 400 "json parse faied" e)
  else
    m ← Value.as_object root;
    if Value.isString (field "username" m) && Value.isString (field "nickname" m)
       && negb (Value.isString (field "password" m))
    then register_fields conn m s e
    else Done (replied conn s 401 "json type error" e).

Lemma register_eq conn data s e :
  onRegisterResponse conn data s e = register_outcome conn (parse data Value.null) s e.
Proof.
  unfold onRegisterResponse, register_outcome.
  destruct (parse data Value.null) as [[[] root]|f]; cbn [mbind outcome_bind negb]; [| |done];
    [|by apply reply_code_eq].
  assert (Ht : reply_code conn RES_JOSNTYPE_ERROR "json type error" (header MSG_TYPE_REGISTER s) e
               = Done (replied conn s 401 "json type error" e)) by (by apply reply_code_eq).
  destruct (Value.as_object root) as [m|f] eqn:Em; cbn [mbind outcome_bind];
    [|by rewrite (member_fault _ _ _ Em)].
  rewrite (member_as_object _ _ m) by done. cbn [mbind outcome_bind].
  destruct (Value.isString (field "username" m)); cbn [negb andb]; [|done].
  members. destruct (Value.isString (field "nickname" m)); cbn [negb andb]; [|done].
  members. destruct (Value.isString (field "password" m)); cbn [negb]; [done|].
  unfold register_user, register_fields. members.
  destruct (Value.asString (field "username" m)); [|done]. members.
  destruct (Value.asString (field "nicknime" m)); [|done]. members.
  destruct (Value.asString (field "password" m)); [|done]. cbn [mbind outcome_bind].
  destruct (UserManager.addUser _ _ _) as [[[[[] u] um] d]|f]; cbn [mbind outcome_bind]; [| |done];
    by apply reply_code_eq.
Qed.

(** The account [login_lookup] compares the password with: the cached user, or
    a fresh [User] when there is none; the lookup never fails. *)
Definition account (v : Value) (um : UserManager.t) : outcome User.t :=
  if Value.isString v then
    name ← Value.asString v;
    Done (default User.make
      (UserManager.first_user (λ it, bool_decide (User._userName it = name)) (UserManager._cachedUsers um)))
  else
    id ← Value.asInt v;
    Done (default User.make
      (UserManager.first_user (λ it, User._userId it =? id) (UserManager._cachedUsers um))).

(** What [onLoginResponse] does with a parsed document. *)
Definition login_outcome (conn : bool) (parsed : outcome (bool * Value)) (s : t) (e : env D) :
    outcome (env D) :=
  '(ok, root) ← parsed;
  if negb ok then Done (replied conn s 400 "json parse faied" e)
  else
    m ← Value.as_object root;
    if Value.isString (field "password" m) && Value.isInt (field "stastus" m) then
      password ← Value.asString (field "password" m);
      _ ← Value.asInt (field "status" m);
      user ← account (field "user" m) (users e);
      if bool_decide (User._passWord user = password)
      then login_success conn user (header MSG_TYPE_LOGIN s) e
      else Done (replied conn s 404 "user is not exist or password is incorrecr!" e)
    else Done (replied conn s 401 "json josn type error" e).

Lemma login_lookup_eq root m um :
  Value.as_object root = Done m →
  login_lookup root um =
    (user ← account (field "user" m) um;
     Done (true, user,
       mkValue (objectV (StdMap.subscript (bs "user") Value.null m)) (Value.comments root))).
Proof.
  intros Em. unfold login_lookup, account. rewrite (member_as_object _ _ m) by done.
  cbn [mbind outcome_bind].
  unfold UserManager.getUserInfoFromCached_name, UserManager.getUserInfoFromCached_id.
  destruct (Value.isString (field "user" m)).
  - destruct (Value.asString (field "user" m)); cbn [mbind outcome_bind]; [|done].
    by destruct (UserManager.first_user _ _).
  - destruct (Value.asInt (field "user" m)); cbn [mbind outcome_bind]; [|done].
    by destruct (UserManager.first_user _ _).
Qed.

Lemma login_eq conn data s e :
  onLoginResponse conn data s e = login_outcome conn (parse data Value.null) s e.
Proof.
  unfold onLoginResponse, login_outcome.
  destruct (parse data Value.null) as [[[] root]|f]; cbn [mbind outcome_bind negb]; [| |done];
    [|by apply reply_code_eq].
  assert (Ht : reply_code conn RES_JOSNTYPE_ERROR "json josn type error" (header MSG_TYPE_LOGIN s) e
               = Done (replied conn s 401 "json josn type error" e)) by (by apply reply_code_eq).
  destruct (Value.as_object root) as [m|f] eqn:Em; cbn [mbind outcome_bind];
    [|by rewrite (member_fault _ _ _ Em)].
  rewrite (member_as_object _ _ m) by done. cbn [mbind outcome_bind].
  destruct (Value.isString (field "password" m)); cbn [negb andb]; [|done].
  members. destruct (Value.isInt (field "stastus" m)); cbn [negb andb]; [|done].
  members. destruct (Value.asString (field "password" m)); [|done]. members.
  destruct (Value.asInt (field "status" m)); [|done]. cbn [mbind outcome_bind].
  erewrite login_lookup_eq by done. rewrite !field_subscript.
  destruct (account (field "user" m) (users e)); cbn [mbind outcome_bind negb]; [|done].
  destruct (bool_decide _); cbn [negb]; [done|]. by apply reply_code_eq.
Qed.

(** The object of the reply to a successful login. *)
Definition login_members (user : User.t) (birthDay : Z) : ObjectValues :=
  [(bs "_adress", Value.of_string (User._adress user));
   (bs "_mail", Value.of_string (User._mail user));
   (bs "_pthone", Value.of_string (User._pthone user));
   (bs "_signature", Value.of_string (User._signature user));
   (bs "birthday", Value.of_int birthDay);
   (bs "code", Value.of_int RES_LOGIN_SUCCESS);
   (bs "customface", Value.of_string (User._customFace user));
   (bs "facetype", Value.of_int (User._faceType user));
   (bs "gender", Value.of_int (User._gender user));
   (bs "msg", Value.of_cstr (bs "user is not exist or password is incorrecr!"));
   (bs "nickname", Value.of_string (User._nickName user));
   (bs "userid", Value.of_int (User._userId user));
   (bs "username", Value.of_string (User._userName user))].

Lemma login_members_wf user b : StdMap.wf (login_members user b).
Proof. repeat (apply StdMap.wf_cons; split; [|repeat constructor; fail]); constructor. Qed.

Lemma flat_of_int k i : c_str k = k → flat_member (k, Value.of_int i).
Proof. intros. split_and!; [done..|]. eexists; split; [done|]. apply solid_int. Qed.
Lemma flat_of_string k x : c_str k = k → flat_member (k, Value.of_string x).
Proof. intros. split_and!; [done..|]. eexists; split; [done|]. apply solid_quoted. Qed.

Lemma login_members_flat user b : Forall flat_member (login_members user b).
Proof.
  repeat (apply Forall_cons; split; [first [by apply flat_of_int | by apply flat_of_string]|]).
  constructor.
Qed.

Lemma login_response_members user b :
  set_keys (login_response user b) Value.null = Done (mkValue (objectV (login_members user b)) None).
Proof. reflexivity. Qed.

(** The text of the reply is longer than [compress] can describe. *)
Lemma login_text_long user b :
  ∃ text, toStyledString (mkValue (objectV (login_members user b)) None) = Done text ∧
          128 ≤ szof text.
Proof.
  eexists. split.
  - apply toStyledString_flat; [apply login_members_wf|done|apply login_members_flat].
  - rewrite !length_app.
    pose proof (entries_length (member_text (login_members user b)) (replicate 3 x20)
                  (login_members user b).*1) as Hl.
    match type of Hl with (?n ≤ _)%nat => change n with 168%nat in Hl end. lia.
Qed.

Lemma login_success_eq conn user cmd s e :
  login_success conn user (header cmd s) e =
    match User._birthDay user with
    | None => Fault (Undefined "user._birthDay")
    | Some _ => Fault (Undefined "BinaryWriter::compress: shift count")
    end.
Proof.
  unfold login_success. destruct (User._birthDay user) as [b|]; [|reflexivity].
  destruct (login_text_long user b) as (text & Et & Hl).
  unfold User.read. rewrite bind_ret_l, login_response_members, bind_ret_l, Et, bind_ret_l.
  by apply reply_long.
Qed.
End request_facts.

(** * Properties *)
Import ClientSession.

(** C1. [onRead]'s loop implements the packet framing on any input buffer that
    is a byte queue, for any handler of a packet: the packets handled, in
    order, are those of the reference [packets] of the unread bytes, the bytes
    of an incomplete packet stay in the buffer, and a length between -4 and -1
    throws [std::length_error].  The loop always terminates. *)
Theorem framing_refines_stream {B} `{ByteQueue B} {S} (process : bytes → S → outcome S) (buf : B) s :
  bq_valid buf → szof (bq_contents buf) < 2 ^ 62 →
  match stream_result process (bq_contents buf) s with
  | Done (rest, s') =>
      ∃ buf', read_packets process buf s = Done (buf', s') ∧ bq_valid buf' ∧ bq_contents buf' = rest
  | Fault f => read_packets process buf s = Fault f
  end.
Proof. apply read_packets_reads. Qed.

Lemma framing_refines_stream_witness :
  let stream := packet (bs "ab") ++ packet [] ++ take 5 (packet (bs "xyz")) in
  ∃ buf', read_packets (λ m (l : list bytes), Done (l ++ [m])) stream [] =
            Done (buf', [bs "ab"; []]) ∧ True ∧ buf' = take 5 (packet (bs "xyz")).
Proof.
  exact (framing_refines_stream (λ m (l : list bytes), Done (l ++ [m]))
    (packet (bs "ab") ++ packet [] ++ take 5 (packet (bs "xyz"))) [] I eq_refl).
Defined.

(** C2. How TCP cuts the stream does not matter: reading the segments one by one
    into a [Buffer] with the loop of [onRead] after each handles the same
    packets, leaves the same unread bytes and fails in the same way as reading
    all the bytes at once. *)
Theorem segmentation_irrelevant {S} (process : bytes → S → outcome S) chunks b s :
  Buffer.wf b → Buffer.contents b = [] → szof (concat chunks) < 2 ^ 60 →
  observe (deliver_all process chunks (b, s)) =
    observe (deliver_all process [concat chunks] (b, s)).
Proof.
  intros Hb Hc Hm.
  rewrite !deliver_all_result; rewrite ?Hc; cbn [concat length]; rewrite ?app_nil_r; try done; lia.
Qed.

Lemma segmentation_irrelevant_witness :
  let b := Buffer.mk (replicate 16 x00) 8 8 in
  observe (deliver_all (λ m (l : list bytes), Done (l ++ [m]))
    [[x02]; [x00; x00; x00; x61]; [x62; x01]] (b, [])) = Done ([x01], [bs "ab"]).
Proof.
  intros b.
  transitivity (observe (deliver_all (λ m (l : list bytes), Done (l ++ [m]))
    [concat [[x02]; [x00; x00; x00; x61]; [x62; x01]]] (b, []))).
  - apply segmentation_irrelevant; [|reflexivity|reflexivity].
    repeat split; cbn; unfold Buffer.kCheapPrepend; lia.
  - reflexivity.
Defined.

(** Packets survive the wire: the stream made of the packets of some
    messages and a remainder is cut into exactly these messages and then the
    packets of the remainder. *)
Theorem packets_roundtrip ms rest :
  Forall (λ m, szof m ≤ INT_MAX) ms →
  packets (concat (map packet ms) ++ rest) = let '(ms', e) := packets rest in (ms ++ ms', e).
Proof.
  induction 1 as [|m ms Hm _ IH]; cbn [map concat app].
  - by destruct (packets rest).
  - rewrite <-app_assoc, packet_front, IH by done. by destruct (packets rest).
Qed.

Lemma packets_roundtrip_witness :
  packets (concat (map packet [bs "hello"; []]) ++ [x01; x00]) =
    ([bs "hello"; []], Incomplete [x01; x00]).
Proof.
  rewrite packets_roundtrip; [reflexivity|]. repeat constructor; unfold INT_MAX; cbn; lia.
Defined.

(** C23. [process] never dispatches a message, because [readData] stores nothing
    into [cmd]: a message of exactly 4, 8 or 16 bytes reads past its end, any
    other is rejected up to 15 bytes and ignored from 17 on, and neither the
    session nor the users, the database or the connection are touched. *)
Theorem process_never_dispatches {D Q} `{Database D Q} conn msg s (e : env D) :
  szof msg ≤ INT_MAX → INT_MIN ≤ _seq s ≤ INT_MAX →
  process conn msg s e =
    if (szof msg =? 4) || (szof msg =? 8) || (szof msg =? 16)
    then Fault (Undefined "BinaryReader: read past the message")
    else Done (16 <? szof msg, s, e).
Proof. apply process_eq. Qed.

Lemma process_never_dispatches_witness :
  let e := mkEnv UserManager.make (mkMemDb true [] (λ _, None)) [] in
  process true (le_bytes 4 MSG_TYPE_HEARTBEAT ++ le_bytes 4 7 ++ le_bytes 8 0 ++ [x00])
    (ClientSession.make []) e = Done (true, ClientSession.make [], e).
Proof.
  intros e.
  exact (process_never_dispatches (D := MemDb) true
    (le_bytes 4 MSG_TYPE_HEARTBEAT ++ le_bytes 4 7 ++ le_bytes 8 0 ++ [x00])
    (ClientSession.make []) e ltac:(unfold INT_MAX; cbn; lia)
    ltac:(unfold INT_MIN, INT_MAX; cbn; lia)).
Defined.

(** The bytes of a heartbeat reply: an eight-byte length (9), then the
    sequence number where the command belongs, four zero bytes where the
    sequence number belongs, and an empty string; the request data plays no
    part.  The length field of every other reply ([send]) has four bytes. *)
Theorem heartbeat_reply {D Q} `{Database D Q} conn data s (e : env D) :
  onHeartbeatResponse conn data s e =
    Done (conn_send conn (le_bytes 8 9 ++ le_bytes 4 (_seq s) ++ replicate 5 x00) e).
Proof. reflexivity. Qed.

(** C33. What the registration handler does, for every request: an unparsable one
    is answered 400; a parsed value that is neither null nor an object aborts;
    otherwise the members decide.  The test accepts only a request whose
    password is not a string; the user is registered with the name, the member
    spelt nicknime and the password converted to strings, and answered 200 or,
    when the database refuses, 402; all others are answered 401.  The reply is
    sent as one packet. *)
Theorem register_behaviour {D Q} `{Database D Q} conn data s (e : env D) :
  onRegisterResponse conn data s e =
    ('(ok, root) ← parse data Value.null;
     if negb ok then Done (replied conn s 400 "json parse faied" e)
     else
       m ← Value.as_object root;
       if Value.isString (field "username" m) && Value.isString (field "nickname" m)
          && negb (Value.isString (field "password" m))
       then register_fields conn m s e
       else Done (replied conn s 401 "json type error" e)).
Proof. apply register_eq. Qed.

(** Every request of the documented form, with string username, nickname and
    password, is rejected as malformed and registers nobody: the format test
    lacks a negation on the password. *)
Theorem register_rejects_documented_form {D Q} `{Database D Q} conn data s (e : env D) m c :
  parse data Value.null = Done (true, mkValue (objectV m) c) →
  Value.isString (field "username" m) = true → Value.isString (field "nickname" m) = true →
  Value.isString (field "password" m) = true →
  onRegisterResponse conn data s e = Done (replied conn s 401 "json type error" e).
Proof.
  intros Hp Hu Hn Hpw. rewrite register_eq. unfold register_outcome. rewrite Hp, bind_ret_l.
  cbn [negb]. unfold Value.as_object; cbn [Value.holder]. rewrite bind_ret_l.
  by rewrite Hu, Hn, Hpw.
Qed.

Lemma register_rejects_documented_form_witness :
  let e := mkEnv UserManager.make (mkMemDb true [] (λ _, None)) [] in
  let data := dq "{'username':'13800000000','nickname':'bob','password':'secret'}" in
  onRegisterResponse true data (ClientSession.make []) e =
    Done (replied true (ClientSession.make []) 401 "json type error" e).
Proof.
  intros e data.
  refine (register_rejects_documented_form (D := MemDb) true data (ClientSession.make []) e
    [(bs "nickname", Value.of_string (bs "bob")); (bs "password", Value.of_string (bs "secret"));
     (bs "username", Value.of_string (bs "13800000000"))] None _ _ _ _);
    vm_compute; reflexivity.
Defined.

(** C32. What the login handler does, for every request: 400 for an unparsable
    one, an abort for a value that is neither null nor an object, 401 unless
    password is a string and stastus an integer; then the password is
    compared with that of the cached user with the given name or id, or of a
    fresh [User] when there is none, and the answer is 404 or the success
    reply.  The answer 403 (not registered) is never given. *)
Theorem login_behaviour {D Q} `{Database D Q} conn data s (e : env D) :
  onLoginResponse conn data s e =
    ('(ok, root) ← parse data Value.null;
     if negb ok then Done (replied conn s 400 "json parse faied" e)
     else
       m ← Value.as_object root;
       if Value.isString (field "password" m) && Value.isInt (field "stastus" m) then
         password ← Value.asString (field "password" m);
         _ ← Value.asInt (field "status" m);
         user ← account (field "user" m) (users e);
         if bool_decide (User._passWord user = password)
         then login_success conn user (header MSG_TYPE_LOGIN s) e
         else Done (replied conn s 404 "user is not exist or password is incorrecr!" e)
       else Done (replied conn s 401 "json josn type error" e)).
Proof. apply login_eq. Qed.

(** An account that does not exist passes the password test with an empty
    password: [getUserInfoFromDB] returns success without filling in the user,
    whose password is then the empty string. *)
Theorem unknown_user_passes_login {D Q} `{Database D Q} conn data s (e : env D) m c name st :
  parse data Value.null = Done (true, mkValue (objectV m) c) →
  field "user" m = Value.of_string name → field "password" m = Value.of_string [] →
  Value.isInt (field "stastus" m) = true → Value.asInt (field "status" m) = Done st →
  Forall (λ u, User._userName u ≠ c_str name) (UserManager._cachedUsers (users e)) →
  onLoginResponse conn data s e = login_success conn User.make (header MSG_TYPE_LOGIN s) e.
Proof.
  intros Hp Hu Hpw Hs Hst Hn. rewrite login_eq. unfold login_outcome. rewrite Hp, bind_ret_l.
  cbn [negb]. unfold Value.as_object; cbn [Value.holder]. rewrite bind_ret_l, Hpw, Hs, Hst, Hu.
  change (Value.isString (Value.of_string [])) with true. cbn [andb].
  change (Value.asString (Value.of_string [])) with (Done (@nil byte)). rewrite !bind_ret_l.
  unfold account. change (Value.isString (Value.of_string name)) with true. cbn match.
  change (Value.asString (Value.of_string name)) with (Done (c_str name)). rewrite bind_ret_l.
  rewrite (proj2 (first_user_none _ _)); [by rewrite bind_ret_l|].
  eapply Forall_impl; [exact Hn|]. intros u Hx. by apply bool_decide_false.
Qed.

Lemma unknown_user_passes_login_witness :
  let e := mkEnv UserManager.make (mkMemDb true [] (λ _, None)) [] in
  let data := dq "{'user':'nobody','password':'','stastus':1,'status':1}" in
  onLoginResponse true data (ClientSession.make []) e =
    login_success true User.make (header MSG_TYPE_LOGIN (ClientSession.make [])) e.
Proof.
  intros e data.
  refine (unknown_user_passes_login (D := MemDb) true data (ClientSession.make []) e
    [(bs "password", Value.of_string []); (bs "stastus", Value.of_int 1);
     (bs "status", Value.of_int 1); (bs "user", Value.of_string (bs "nobody"))]
    None (bs "nobody") 1 _ _ _ _ _ _); [vm_compute; reflexivity..|constructor].
Defined.

(** No login is ever answered with success: whichever user passed the
    password test, building the reply reads the indeterminate birthday of an
    unknown user, or hands [compress] a text of at least 128 bytes, on which
    its loop does not end. *)
Theorem login_success_never_sent {D Q} `{Database D Q} conn user cmd s (e : env D) :
  login_success conn user (header cmd s) e =
    match User._birthDay user with
    | None => Fault (Undefined "user._birthDay")
    | Some _ => Fault (Undefined "BinaryWriter::compress: shift count")
    end.
Proof. apply login_success_eq. Qed.
