(* ===== verification/TcpConnection.v ===== *)
(** muduo's [TcpConnection] with its [Channel] (muduo/net/TcpConnection.h/.cc,
    Channel.h/.cc), run in the thread of its event loop; the program starts
    no other loop.  System calls are inputs: [write] and [readv] results are
    arguments of the operations.  A callback the code invokes, or queues in the
    loop, is returned to the caller as a [call].  [op] is the alphabet of things
    that can happen to a connection and [step] its transition relation. *)

From S2P Require Import Prelude Buffer.
Local Open Scope Z_scope.

Module Channel.
Definition POLLIN : Z := 1.
Definition POLLPRI : Z := 2.
Definition POLLOUT : Z := 4.
Definition POLLERR : Z := 8.
Definition POLLHUP : Z := 16.
Definition POLLNVAL : Z := 32.
Definition POLLRDHUP : Z := 8192.

Definition kNoneEvent : Z := 0.
Definition kReadEvent : Z := Z.lor POLLIN POLLPRI.
Definition kWriteEvent : Z := POLLOUT.

(** [events_], [addedToLoop_] and [tied_]. *)
Record t := mk { events_ : Z; addedToLoop_ : bool; tied_ : bool }.

Definition make : t := mk 0 false false.
Definition update (events : Z) (c : t) : t := mk events true (tied_ c).
Definition tie (c : t) : t := mk (events_ c) (addedToLoop_ c) true.

Definition isNoneEvent (c : t) : bool := events_ c =? kNoneEvent.
Definition enableReading (c : t) : t := update (Z.lor (events_ c) kReadEvent) c.
Definition disableReading (c : t) : t := update (Z.land (events_ c) (Z.lnot kReadEvent)) c.
Definition enableWriting (c : t) : t := update (Z.lor (events_ c) kWriteEvent) c.
Definition disableWriting (c : t) : t := update (Z.land (events_ c) (Z.lnot kWriteEvent)) c.
Definition disableAll (c : t) : t := update kNoneEvent c.
Definition isWriting (c : t) : bool := negb (Z.land (events_ c) kWriteEvent =? 0).
Definition isReading (c : t) : bool := negb (Z.land (events_ c) kReadEvent =? 0).

Definition remove (c : t) : outcome t :=
  _ ← cassert (isNoneEvent c) "isNoneEvent()";
  Done (mk (events_ c) false (tied_ c)).

(** The callbacks [handleEventWithGuard] runs for the received events, in
    order. *)
Inductive handler := OnClose | OnError | OnRead | OnWrite.
Definition handleEventWithGuard (revents : Z) : list handler :=
  let has m := negb (Z.land revents m =? 0) in
  (if has POLLHUP && negb (has POLLIN) then [OnClose] else []) ++
  (if has (Z.lor POLLERR POLLNVAL) then [OnError] else []) ++
  (if has (Z.lor (Z.lor POLLIN POLLPRI) POLLRDHUP) then [OnRead] else []) ++
  (if has POLLOUT then [OnWrite] else []).
End Channel.

(** The socket: the bytes its kernel side accepted, and whether the write side
    is shut down. *)
Record Socket := mkSocket { accepted : bytes; write_shut : bool }.

(** The result of [write]. *)
Inductive write_result := Wrote (n : Z) | WriteError (errno : Z).
Definition EWOULDBLOCK : Z := 11.
Definition EPIPE : Z := 32.
Definition ECONNRESET : Z := 104.

Definition sockets_write (data : bytes) (r : write_result) (s : Socket) : Z * Socket :=
  match r with
  | Wrote n => (n, mkSocket (accepted s ++ take (Z.to_nat n) data) (write_shut s))
  | WriteError _ => (-1, s)
  end.

Inductive StateE := kDisconnected | kConnecting | kConnected | kDisconnecting.
#[export] Instance StateE_eq_dec : EqDecision StateE.
Proof. solve_decision. Defined.

(** What an operation invokes or queues, in order. *)
Inductive call :=
  | ConnectionCallback | MessageCallback | CloseCallback
  | QueueWriteComplete | QueueHighWaterMark (len : Z) | QueueForceClose
  | TimerForceClose.
#[export] Instance call_eq_dec : EqDecision call.
Proof. solve_decision. Defined.

Module TcpConnection.
Record t := mk {
  name_ : bytes;
  state_ : StateE;
  reading_ : bool;
  socket_ : Socket;
  channel_ : Channel.t;
  has_writeComplete : bool;
  has_highWaterMark : bool;
  highWaterMark_ : Z;
  inputBuffer_ : Buffer.t;
  outputBuffer_ : Buffer.t
}.

Definition set_name (n : bytes) (c : t) : t :=
  mk n (state_ c) (reading_ c) (socket_ c) (channel_ c) (has_writeComplete c)
    (has_highWaterMark c) (highWaterMark_ c) (inputBuffer_ c) (outputBuffer_ c).
Definition setState (s : StateE) (c : t) : t :=
  mk (name_ c) s (reading_ c) (socket_ c) (channel_ c) (has_writeComplete c)
    (has_highWaterMark c) (highWaterMark_ c) (inputBuffer_ c) (outputBuffer_ c).
Definition set_reading (b : bool) (ch : Channel.t) (c : t) : t :=
  mk (name_ c) (state_ c) b (socket_ c) ch (has_writeComplete c)
    (has_highWaterMark c) (highWaterMark_ c) (inputBuffer_ c) (outputBuffer_ c).
Definition set_channel (ch : Channel.t) (c : t) : t :=
  mk (name_ c) (state_ c) (reading_ c) (socket_ c) ch (has_writeComplete c)
    (has_highWaterMark c) (highWaterMark_ c) (inputBuffer_ c) (outputBuffer_ c).
Definition set_socket (s : Socket) (c : t) : t :=
  mk (name_ c) (state_ c) (reading_ c) s (channel_ c) (has_writeComplete c)
    (has_highWaterMark c) (highWaterMark_ c) (inputBuffer_ c) (outputBuffer_ c).
Definition set_input (b : Buffer.t) (c : t) : t :=
  mk (name_ c) (state_ c) (reading_ c) (socket_ c) (channel_ c) (has_writeComplete c)
    (has_highWaterMark c) (highWaterMark_ c) b (outputBuffer_ c).
Definition set_output (b : Buffer.t) (c : t) : t :=
  mk (name_ c) (state_ c) (reading_ c) (socket_ c) (channel_ c) (has_writeComplete c)
    (has_highWaterMark c) (highWaterMark_ c) (inputBuffer_ c) b.
Definition setWriteCompleteCallback (b : bool) (c : t) : t :=
  mk (name_ c) (state_ c) (reading_ c) (socket_ c) (channel_ c) b
    (has_highWaterMark c) (highWaterMark_ c) (inputBuffer_ c) (outputBuffer_ c).
Definition setHighWaterMarkCallback (b : bool) (mark : Z) (c : t) : t :=
  mk (name_ c) (state_ c) (reading_ c) (socket_ c) (channel_ c) (has_writeComplete c)
    b mark (inputBuffer_ c) (outputBuffer_ c).

(** A default-constructed [Buffer]. *)
Definition new_buffer : Buffer.t :=
  Buffer.mk (replicate 1032 x00) Buffer.kCheapPrepend Buffer.kCheapPrepend.

(** The constructor. *)
Definition make (nameArg : bytes) : t :=
  mk nameArg kConnecting true (mkSocket [] false) Channel.make false false (64 * 1024 * 1024)
    new_buffer new_buffer.

Definition connected (c : t) : bool := bool_decide (state_ c = kConnected).
Definition disconnected (c : t) : bool := bool_decide (state_ c = kDisconnected).

(** [~TcpConnection()] *)
Definition dtor (c : t) : outcome unit :=
  cassert (disconnected c) "state_ == kDisconnected".

(** The last block of [sendInLoop]: the [remaining] bytes [data] go to the
    output buffer; [calls] are the callbacks queued so far. *)
Definition enqueue (data : bytes) (remaining : Z) (calls : list call) (c : t) :
    outcome (t * list call) :=
  let oldLen := Buffer.readableBytes (outputBuffer_ c) in
  let calls := calls ++
    if (highWaterMark_ c <=? u64 (oldLen + remaining)) && (oldLen <? highWaterMark_ c)
       && has_highWaterMark c
    then [QueueHighWaterMark (u64 (oldLen + remaining))] else [] in
  out ← Buffer.append data (outputBuffer_ c);
  let c := set_output out c in
  let c := if negb (Channel.isWriting (channel_ c))
           then set_channel (Channel.enableWriting (channel_ c)) c else c in
  Done (c, calls).

(** [sendInLoop( data, len )] *)
Definition sendInLoop (data : bytes) (r : write_result) (c : t) : outcome (t * list call) :=
  let len := szof data in
  if decide (state_ c = kDisconnected) then Done (c, [])
  else
    let direct := negb (Channel.isWriting (channel_ c))
                  && (Buffer.readableBytes (outputBuffer_ c) =? 0) in
    let '(nwrote, socket) := if direct then sockets_write data r (socket_ c) else (0, socket_ c) in
    let c := set_socket socket c in
    let remaining := if direct && (0 <=? nwrote) then u64 (len - nwrote) else len in
    let calls := if direct && (0 <=? nwrote) && (remaining =? 0) && has_writeComplete c
                 then [QueueWriteComplete] else [] in
    let faultError := match r with
                      | WriteError errno =>
                          direct && negb (errno =? EWOULDBLOCK)
                          && ((errno =? EPIPE) || (errno =? ECONNRESET))
                      | Wrote _ => false
                      end in
    let nwrote := if nwrote <? 0 then 0 else nwrote in
    _ ← cassert (remaining <=? len) "remaining <= len";
    if negb faultError && (0 <? remaining)
    then enqueue (drop (Z.to_nat nwrote) data) remaining calls c
    else Done (c, calls).

(** [sendInLoop( const StringPiece& )]: a negative length becomes a huge
    [size_t]. *)
Definition sendInLoop_piece (message : bytes * Z) (r : write_result) (c : t) : outcome (t * list call) :=
  _ ← defined_if (0 <=? message.2) "sendInLoop: negative StringPiece length";
  sendInLoop message.1 r c.

(** [send( data, len )] *)
Definition send (data : bytes) (r : write_result) (c : t) : outcome (t * list call) :=
  if decide (state_ c = kConnected) then sendInLoop data r c else Done (c, []).

(** [send( Buffer* buf )] *)
Definition send_buffer (buf : Buffer.t) (r : write_result) (c : t) :
    outcome (t * list call * Buffer.t) :=
  if decide (state_ c = kConnected) then
    '(c, calls) ← sendInLoop (Buffer.contents buf) r c;
    Done (c, calls, Buffer.retrieveAll buf)
  else Done (c, [], buf).

Definition shutdownInLoop (c : t) : t :=
  if negb (Channel.isWriting (channel_ c))
  then set_socket (mkSocket (accepted (socket_ c)) true) c else c.
Definition shutdown (c : t) : t :=
  if decide (state_ c = kConnected) then shutdownInLoop (setState kDisconnecting c) else c.

Definition forceClose (c : t) : t * list call :=
  if decide (state_ c = kConnected ∨ state_ c = kDisconnecting)
  then (setState kDisconnecting c, [QueueForceClose]) else (c, []).

Definition forceCloseWithDelay (c : t) : t * list call :=
  if decide (state_ c = kConnected ∨ state_ c = kDisconnecting)
  then (setState kDisconnecting c, [TimerForceClose]) else (c, []).

Definition handleClose (c : t) : outcome (t * list call) :=
  _ ← cassert (bool_decide (state_ c = kConnected ∨ state_ c = kDisconnecting))
        "state_ == kConnected || state_ == kDisconnecting";
  let c := setState kDisconnected c in
  let c := set_channel (Channel.disableAll (channel_ c)) c in
  Done (c, [ConnectionCallback; CloseCallback]).

Definition forceCloseInLoop (c : t) : outcome (t * list call) :=
  if decide (state_ c = kConnected ∨ state_ c = kDisconnecting)
  then handleClose c else Done (c, []).

Definition stateToString (c : t) : string :=
  match state_ c with
  | kDisconnected => "kDisconnected"
  | kConnecting => "kConnecting"
  | kConnected => "kConnected"
  | kDisconnecting => "kDisconnecting"
  end.

Definition startReadInLoop (c : t) : t :=
  if negb (reading_ c) || negb (Channel.isReading (channel_ c))
  then set_reading true (Channel.enableReading (channel_ c)) c else c.
Definition stopReadInLoop (c : t) : t :=
  if reading_ c || Channel.isReading (channel_ c)
  then set_reading false (Channel.disableReading (channel_ c)) c else c.

Definition connectEstablished (c : t) : outcome (t * list call) :=
  _ ← cassert (bool_decide (state_ c = kConnecting)) "state_ == kConnecting";
  let c := setState kConnected c in
  let c := set_channel (Channel.enableReading (Channel.tie (channel_ c))) c in
  Done (c, [ConnectionCallback]).

Definition connectDestroyed (c : t) : outcome (t * list call) :=
  let '(c, calls) :=
    if decide (state_ c = kConnected)
    then (set_channel (Channel.disableAll (channel_ c)) (setState kDisconnected c),
          [ConnectionCallback])
    else (c, []) in
  ch ← Channel.remove (channel_ c);
  Done (set_channel ch c, calls).

(** [handleRead]: [r] is the result of [readv]. *)
Definition handleRead (r : Buffer.readv_result) (c : t) : outcome (t * list call) :=
  '(n, savedErrno, b) ← Buffer.readFd r (inputBuffer_ c);
  let c := set_input b c in
  if 0 <? n then Done (c, [MessageCallback])
  else if n =? 0 then handleClose c
  else Done (c, []).

Definition handleWrite (r : write_result) (c : t) : outcome (t * list call) :=
  if Channel.isWriting (channel_ c) then
    let '(n, socket) := sockets_write (Buffer.contents (outputBuffer_ c)) r (socket_ c) in
    let c := set_socket socket c in
    if 0 <? n then
      out ← Buffer.retrieve n (outputBuffer_ c);
      let c := set_output out c in
      if Buffer.readableBytes out =? 0 then
        let c := set_channel (Channel.disableWriting (channel_ c)) c in
        let calls := if has_writeComplete c then [QueueWriteComplete] else [] in
        Done (if decide (state_ c = kDisconnecting) then shutdownInLoop c else c, calls)
      else Done (c, [])
    else Done (c, [])
  else Done (c, []).

(** ** The connection as a state machine *)
Inductive op :=
  | Establish
  | Send (data : bytes) (r : write_result)
  | Readable (r : Buffer.readv_result)
  | Writable (r : write_result)
  | HangUp
  | Consume (n : Z)
  | Shutdown | ForceClose | ForceCloseLater | RunForceClose | StartRead | StopRead
  | Destroy.

Definition run_op (o : op) (c : t) : outcome (t * list call) :=
  match o with
  | Establish => connectEstablished c
  | Send data r => send data r c
  | Readable r => handleRead r c
  | Writable r => handleWrite r c
  | HangUp => handleClose c
  | Consume n => b ← Buffer.retrieve n (inputBuffer_ c); Done (set_input b c, [])
  | Shutdown => Done (shutdown c, [])
  | ForceClose => Done (forceClose c)
  | ForceCloseLater => Done (forceCloseWithDelay c)
  | RunForceClose => forceCloseInLoop c
  | StartRead => Done (startReadInLoop c, [])
  | StopRead => Done (stopReadInLoop c, [])
  | Destroy => connectDestroyed c
  end.

(** A [write] of [len] bytes accepts at most [len] of them, or fails. *)
Definition write_ok (len : Z) (r : write_result) : Prop :=
  match r with Wrote n => 0 ≤ n ≤ len | WriteError _ => True end.

(** When an operation can occur: the loop delivers an input only to a channel
    that asked for it, an output also to one that no longer does, since the
    connection closed in the same round, and [POLLHUP] without [POLLIN], which
    is [HangUp], to one that watches for anything; the server establishes a connection once and destroys it
    when it is down or, shutting down itself, up; the users of a connection
    restart reading only while it is up. *)
Definition enabled (o : op) (c : t) : Prop :=
  match o with
  | Establish => state_ c = kConnecting
  | Send data r => write_ok (szof data) r ∧ Buffer.fits (szof data) (outputBuffer_ c)
  | Readable r =>
      Channel.isReading (channel_ c) = true ∧
      match r with Buffer.ReadBytes data => Buffer.fits (szof data) (inputBuffer_ c)
                 | Buffer.ReadError _ => True end
  | Writable r =>
      Channel.isWriting (channel_ c) = true →
      write_ok (szof (Buffer.contents (outputBuffer_ c))) r
  | HangUp => Channel.isNoneEvent (channel_ c) = false
  | Consume n => 0 ≤ n ≤ szof (Buffer.contents (inputBuffer_ c))
  | StartRead => state_ c = kConnected ∨ state_ c = kDisconnecting
  | Destroy => state_ c = kConnected ∨ state_ c = kDisconnected
  | Shutdown | ForceClose | ForceCloseLater | RunForceClose | StopRead => True
  end.

(** What happened: the state before, the operation, and its callbacks. *)
Record event := mkEvent { before : t; what : op; result : list call }.

Inductive step (o : op) (c : t) : t → list call → Prop :=
  | step_intro c' calls :
      enabled o c → run_op o c = Done (c', calls) → step o c c' calls.

(** A history from one state to another. *)
Inductive steps (c0 : t) : list event → t → Prop :=
  | steps_nil : steps c0 [] c0
  | steps_snoc h c o c' calls :
      steps c0 h c → step o c c' calls → steps c0 (h ++ [mkEvent c o calls]) c'.

(** The data an operation hands over for transmission: a [send] on a connected
    connection, unless the peer is found gone. *)
Definition taken (e : event) : bytes :=
  match what e with
  | Send data r =>
      if decide (state_ (before e) = kConnected) then
        match r with
        | WriteError errno =>
            if negb (Channel.isWriting (channel_ (before e)))
               && (Buffer.readableBytes (outputBuffer_ (before e)) =? 0)
               && ((errno =? EPIPE) || (errno =? ECONNRESET))
            then [] else data
        | Wrote _ => data
        end
      else []
  | _ => []
  end.

Definition callbacks (k : call) (h : list event) : nat :=
  length (filter (λ k', k' = k) (concat (map result h))).
End TcpConnection.

(** * Lemmas *)
Import TcpConnection.

Definition is_up (c : t) : Prop := state_ c = kConnected ∨ state_ c = kDisconnecting.
Definition pending (c : t) : bytes := Buffer.contents (outputBuffer_ c).

(** The invariant: both buffers are well formed; a channel watches for reading
    with [POLLIN] and [POLLPRI] together; before it is up a connection watches
    nothing and holds no output, while up it waits to write exactly when output
    is pending, and when down it watches nothing; the write side is shut only
    while closing and after the output has gone. *)
Record inv (c : t) : Prop := mkInv {
  inv_input : Buffer.wf (inputBuffer_ c);
  inv_output : Buffer.wf (outputBuffer_ c);
  inv_events : let e := Channel.events_ (channel_ c) in e = 0 ∨ e = 3 ∨ e = 4 ∨ e = 7;
  inv_connecting : state_ c = kConnecting → Channel.events_ (channel_ c) = 0 ∧ pending c = [];
  inv_up : is_up c → Channel.isWriting (channel_ c) = bool_decide (pending c ≠ []);
  inv_down : state_ c = kDisconnected → Channel.events_ (channel_ c) = 0;
  inv_shut : write_shut (socket_ c) = true →
    pending c = [] ∧ (state_ c = kDisconnecting ∨ state_ c = kDisconnected)
}.

(** How often the connection callback has run, by state. *)
Definition reports (s : StateE) : nat :=
  match s with kConnecting => 0 | kConnected | kDisconnecting => 1 | kDisconnected => 2 end.
Definition occurrences (k : call) (ks : list call) : nat := length (filter (λ k', k' = k) ks).

(** What a step from [c] to [c'] with [calls] keeps. *)
Record step_ok (o : op) (c c' : t) (calls : list call) : Prop := mkStepOk {
  ok_inv : inv c';
  ok_stream : accepted (socket_ c') ++ pending c' =
              (accepted (socket_ c) ++ pending c) ++ taken (mkEvent c o calls);
  ok_reports : (reports (state_ c) + occurrences ConnectionCallback calls)%nat = reports (state_ c');
  ok_close : (occurrences CloseCallback calls + (reports (state_ c) - 1) ≤ reports (state_ c') - 1)%nat;
  ok_message : MessageCallback ∈ calls → is_up c ∧ is_up c'
}.

Lemma new_buffer_made : Buffer.make Buffer.kInitialSize = Done new_buffer.
Proof. reflexivity. Qed.

Lemma new_buffer_spec : Buffer.wf new_buffer ∧ Buffer.contents new_buffer = [].
Proof.
  destruct (make_spec Buffer.kInitialSize) as (b & Hb & Hwf & Hc & _); [done|].
  rewrite new_buffer_made in Hb. by simplify_eq.
Qed.

Lemma inv_make name : inv (make name).
Proof.
  destruct new_buffer_spec. split; cbn; try done. by left.
Qed.

Lemma readable_nil b : Buffer.wf b → (Buffer.readableBytes b =? 0) = bool_decide (Buffer.contents b = []).
Proof.
  intros Hb. rewrite <-length_contents by done. destruct (Buffer.contents b); [done|].
  cbn [length]. rewrite bool_decide_false by done. apply Z.eqb_neq. lia.
Qed.

Ltac events H := destruct H as [H|[H|[H|H]]]; rewrite ?H in *.

Lemma enableWriting_spec ch :
  (let e := Channel.events_ ch in e = 0 ∨ e = 3 ∨ e = 4 ∨ e = 7) →
  let ch' := Channel.enableWriting ch in
  Channel.isWriting ch' = true ∧
  (let e := Channel.events_ ch' in e = 0 ∨ e = 3 ∨ e = 4 ∨ e = 7).
Proof.
  destruct ch as [e a d]; unfold Channel.isWriting; cbn. intros H. events H; cbn; auto.
Qed.

Lemma disableWriting_spec ch :
  (let e := Channel.events_ ch in e = 0 ∨ e = 3 ∨ e = 4 ∨ e = 7) →
  let ch' := Channel.disableWriting ch in
  Channel.isWriting ch' = false ∧
  (let e := Channel.events_ ch' in e = 0 ∨ e = 3 ∨ e = 4 ∨ e = 7).
Proof.
  destruct ch as [e a d]; unfold Channel.isWriting; cbn. intros H. events H; cbn; auto.
Qed.

Lemma reading_spec ch :
  (let e := Channel.events_ ch in e = 0 ∨ e = 3 ∨ e = 4 ∨ e = 7) →
  (let e := Channel.events_ (Channel.enableReading ch) in e = 0 ∨ e = 3 ∨ e = 4 ∨ e = 7) ∧
  (let e := Channel.events_ (Channel.disableReading ch) in e = 0 ∨ e = 3 ∨ e = 4 ∨ e = 7) ∧
  Channel.isWriting (Channel.enableReading ch) = Channel.isWriting ch ∧
  Channel.isWriting (Channel.disableReading ch) = Channel.isWriting ch ∧
  (Channel.events_ ch = 0 → Channel.events_ (Channel.disableReading ch) = 0).
Proof.
  destruct ch as [e a d]; unfold Channel.isWriting; cbn. intros H.
  events H; cbn; repeat split; auto; intros ?; lia.
Qed.

(** A watched channel belongs to a connection that is up. *)
Lemma watched_up c : inv c → Channel.events_ (channel_ c) ≠ 0 → is_up c.
Proof. intros [] He. unfold is_up. destruct (state_ c); naive_solver. Qed.

Lemma unchanged_ok o c : inv c → taken (mkEvent c o []) = [] → step_ok o c c [].
Proof. intros Hi Ht. split; [done|by rewrite Ht, app_nil_r|done|done|set_solver]. Qed.

(** Callbacks that are queued in the loop, not run. *)
Definition queued (k : call) : bool :=
  match k with ConnectionCallback | MessageCallback | CloseCallback => false | _ => true end.
Definition quiet (ks : list call) : Prop := Forall queued ks.

Lemma quiet_occurrences k ks : queued k = false → quiet ks → occurrences k ks = 0%nat.
Proof.
  intros Hk Hq. unfold occurrences. induction Hq as [|k' ks Hk' _ IH]; [done|].
  rewrite filter_cons_False; [done|]. intros ->. by rewrite Hk in Hk'.
Qed.

(** A step that only moves output between the caller, the buffer and the socket. *)
Lemma output_step_ok o c c' calls :
  inv c' → quiet calls → reports (state_ c') = reports (state_ c) →
  accepted (socket_ c') ++ pending c' =
    (accepted (socket_ c) ++ pending c) ++ taken (mkEvent c o calls) →
  step_ok o c c' calls.
Proof.
  intros Hi Hq Hs Hst. split; [done|done|..].
  - rewrite quiet_occurrences by done. lia.
  - rewrite quiet_occurrences by done. lia.
  - intros Hm. by pose proof (proj1 (Forall_forall _ _) Hq _ Hm).
Qed.

Lemma enqueue_ok data remaining calls c :
  inv c → is_up c → write_shut (socket_ c) = false → data ≠ [] → Buffer.fits (szof data) (outputBuffer_ c) →
  quiet calls →
  ∃ c' calls', enqueue data remaining calls c = Done (c', calls') ∧ quiet calls' ∧ inv c' ∧
    state_ c' = state_ c ∧ socket_ c' = socket_ c ∧ pending c' = pending c ++ data.
Proof.
  intros Hi Hc Hopen Hd Hf Hq. pose proof Hi as [Hin Hout Hev Hcon Hup Hdown Hshut].
  unfold enqueue. destruct (append_spec _ data Hout Hf) as (out & -> & Hw & Hcont).
  rewrite bind_ret_l. eexists _, _; split; [done|].
  split; [apply Forall_app; split; [done|]; case_match; repeat constructor|].
  assert (Hne : Buffer.contents out ≠ []) by (rewrite Hcont; by intros [_ ?]%app_nil).
  assert (Hns : state_ c ≠ kConnecting ∧ state_ c ≠ kDisconnected) by (destruct Hc as [->| ->]; done). destruct Hns.
  destruct (enableWriting_spec _ Hev) as [Hwr Hev']. cbn [channel_ set_output].
  destruct (Channel.isWriting (channel_ c)) eqn:Ew; cbn [negb].
  all: split_and!; [|done..].
  all: split; cbn; try done; try congruence.
  all: intros _; by rewrite bool_decide_true.
Qed.

(** Setting the bytes the socket accepted. *)
Definition wrote (l : bytes) (c : t) : t :=
  set_socket (mkSocket (accepted (socket_ c) ++ l) (write_shut (socket_ c))) c.
Lemma inv_wrote l c : inv c → inv (wrote l c).
Proof. intros []. by split. Qed.

Lemma enqueue_rest_ok rest calls c :
  inv c → is_up c → write_shut (socket_ c) = false → Buffer.fits (szof rest) (outputBuffer_ c) → quiet calls →
  ∃ c' calls',
    (if 0 <? szof rest then enqueue rest (szof rest) calls c else Done (c, calls)) =
      Done (c', calls') ∧
    quiet calls' ∧ inv c' ∧ state_ c' = state_ c ∧ socket_ c' = socket_ c ∧
    pending c' = pending c ++ rest.
Proof.
  intros Hi Hc Hopen Hf Hq. destruct (Z.ltb_spec 0 (szof rest)) as [Hl|Hl].
  - apply enqueue_ok; try done. intros ->; cbn in Hl; lia.
  - destruct rest; [|cbn in Hl; lia]. exists c, calls. by rewrite app_nil_r.
Qed.

Lemma wrote_nil c : set_socket (socket_ c) c = wrote [] c.
Proof. unfold wrote. rewrite app_nil_r. by destruct c as [? ? ? [] ? ? ? ? ? ?]. Qed.

Lemma fits_le n m b : n ≤ m → Buffer.fits m b → Buffer.fits n b.
Proof. unfold Buffer.fits. lia. Qed.

(** What [sendInLoop] takes of [data]: nothing if the peer is found gone. *)
Definition taken_up (data : bytes) (r : write_result) (c : t) : bytes :=
  match r with
  | WriteError errno =>
      if negb (Channel.isWriting (channel_ c)) && (Buffer.readableBytes (outputBuffer_ c) =? 0)
         && ((errno =? EPIPE) || (errno =? ECONNRESET))
      then [] else data
  | Wrote _ => data
  end.
Lemma sendInLoop_ok data r c :
  inv c → is_up c → write_shut (socket_ c) = false → write_ok (szof data) r → Buffer.fits (szof data) (outputBuffer_ c) →
  ∃ c' calls, sendInLoop data r c = Done (c', calls) ∧ inv c' ∧ quiet calls ∧ state_ c' = state_ c ∧
    write_shut (socket_ c') = false ∧
    accepted (socket_ c') ++ pending c' = (accepted (socket_ c) ++ pending c) ++ taken_up data r c.
Proof.
  intros Hi Hc Hopen Hr Hf.
  assert (Hlen : szof data < 2 ^ 62) by (unfold Buffer.fits in Hf; lia).
  assert (Hq : ∀ b : bool, quiet (if b then [QueueWriteComplete] else []))
    by (intros []; repeat constructor).
  assert (Hall : ∀ l rest calls,
    szof rest ≤ szof data → quiet calls → l ++ pending c ++ rest = pending c ++ taken_up data r c →
    ∃ c' calls',
      (if 0 <? szof rest then enqueue rest (szof rest) calls (wrote l c)
       else Done (wrote l c, calls)) = Done (c', calls') ∧ inv c' ∧ quiet calls' ∧ state_ c' = state_ c ∧
      write_shut (socket_ c') = false ∧
      accepted (socket_ c') ++ pending c' = (accepted (socket_ c) ++ pending c) ++ taken_up data r c).
  { intros l rest calls Hle Hqc Hst.
    destruct (enqueue_rest_ok rest calls (wrote l c)) as (c' & calls' & He & Hq' & Hi' & Hs' & Hk & Hp);
      [by apply inv_wrote|done|done|by apply (fits_le _ (szof data))|done|].
    exists c', calls'. split_and!; [done..|by rewrite Hk|].
    rewrite Hk, Hp. cbn [wrote socket_ set_socket accepted]. change (pending (wrote l c)) with (pending c).
    rewrite <-!app_assoc. by rewrite Hst. }
  unfold sendInLoop. rewrite decide_False by by destruct Hc as [->| ->]. cbn zeta.
  pose proof (readable_nil _ (inv_output _ Hi)) as Hnil. unfold taken_up in Hall.
  destruct (negb _ && _) eqn:Ed; cbn [andb] in *.
  - unfold taken_up. rewrite Ed. cbn [andb]. apply andb_prop in Ed as [Ew Ed]. rewrite Hnil in Ed. apply bool_decide_eq_true in Ed.
    unfold pending in Hall. rewrite Ed in Hall.
    destruct r as [n|e]; cbn [sockets_write].
    + rewrite (proj2 (Z.leb_le 0 n)), (proj2 (Z.ltb_ge n 0)) by apply Hr.
      cbn in Hr. rewrite (wrapu_small 64) by lia. rewrite (proj2 (Z.leb_le _ _)) by lia.
      cbn [cassert mbind outcome_bind negb andb].
      replace (szof data - n) with (szof (drop (Z.to_nat n) data)) by (rewrite length_drop; lia).
      unfold pending at 2. rewrite Ed. apply Hall; [rewrite length_drop; lia|done|]. cbn [app]. apply take_drop.
    + cbn. rewrite Z.leb_refl, wrote_nil. cbn. unfold EWOULDBLOCK, EPIPE, ECONNRESET in *. unfold pending at 2. rewrite Ed.
      destruct (Z.eqb_spec e 32) as [->|]; [|destruct (Z.eqb_spec e 104) as [->|]]; cbn in *.
      1-2: apply (Hall [] [] []); [cbn; lia|constructor|done].
      rewrite andb_false_r. cbn. rewrite drop_0. apply (Hall [] data []); [lia|constructor|done].
  - unfold taken_up. rewrite Ed. cbn [andb]. rewrite Z.leb_refl, wrote_nil. cbn. rewrite drop_0.
    assert (Hr' : match r with Wrote _ | _ => false end = false) by by destruct r.
    rewrite Hr'. cbn.
    assert (match r with Wrote _ | _ => data end = data) as Hd by by destruct r. rewrite Hd in *.
    by apply (Hall [] data []); [lia|constructor|].
Qed.

Lemma send_ok data r c :
  inv c → write_ok (szof data) r → Buffer.fits (szof data) (outputBuffer_ c) →
  ∃ c' calls, send data r c = Done (c', calls) ∧ step_ok (Send data r) c c' calls.
Proof.
  intros Hi Hr Hf. unfold send. destruct (decide (state_ c = kConnected)) as [Hc|Hc].
  2: { exists c, []. split; [done|]. apply unchanged_ok; [done|].
       unfold taken; cbn. by rewrite decide_False. }
  assert (write_shut (socket_ c) = false) as Hopen.
  { destruct (write_shut _) eqn:E; [|done]. apply (inv_shut _ Hi) in E as [_ [?|?]]; congruence. }
  destruct (sendInLoop_ok data r c Hi (or_introl Hc) Hopen Hr Hf) as (c' & calls & -> & Hi' & Hq & Hs & _ & Hst).
  exists c', calls. split; [done|]. apply output_step_ok; [done|done|by rewrite Hs|]. rewrite Hst. f_equal.
  unfold taken. cbn [what before]. by rewrite decide_True.
Qed.

Lemma handleClose_ok o c :
  inv c → is_up c → taken (mkEvent c o [ConnectionCallback; CloseCallback]) = [] →
  ∃ c' calls, handleClose c = Done (c', calls) ∧ step_ok o c c' calls.
Proof.
  intros Hi Hup Ht. pose proof Hi as [Hin Hout Hev Hcon Hwr Hdown Hshut].
  unfold handleClose. rewrite bool_decide_true by done. cbn [cassert mbind outcome_bind].
  eexists _, _; split; [done|].
  assert (Hr : reports (state_ c) = 1%nat) by (destruct Hup as [->| ->]; done).
  split; cbn.
  - split; cbn; try done; [by left|by intros [|]|by intros [? _]%Hshut; auto].
  - by rewrite Ht, app_nil_r.
  - by rewrite Hr.
  - by rewrite Hr.
  - set_solver.
Qed.

(** The piece made of a string that is not too long is the string. *)
Lemma sendInLoop_string data r c :
  szof data ≤ INT_MAX → sendInLoop_piece (Buffer.pieceOf data) r c = sendInLoop data r c.
Proof.
  unfold INT_MAX. intros Hl. unfold sendInLoop_piece, Buffer.pieceOf. rewrite (wraps_small 32) by lia. cbn [fst snd].
  rewrite defined_if_bind by (apply Z.leb_le; lia). by rewrite take_ge by lia.
Qed.

Lemma shutdownInLoop_ok c :
  (inv c ∧ state_ c = kDisconnecting) →
  inv (shutdownInLoop c) ∧ state_ (shutdownInLoop c) = kDisconnecting ∧
  pending (shutdownInLoop c) = pending c ∧
  accepted (socket_ (shutdownInLoop c)) = accepted (socket_ c).
Proof.
  intros [Hi Hs]. unfold shutdownInLoop.
  destruct (Channel.isWriting (channel_ c)) eqn:Ew; cbn [negb]; [done|].
  split_and!; [|done..]. destruct Hi. split; cbn; try done. intros _. split; [|by left].
  rewrite inv_up0 in Ew by (by right). by apply bool_decide_eq_false, dec_stable in Ew.
Qed.

Lemma inv_disconnecting c : inv c → is_up c → inv (setState kDisconnecting c).
Proof. intros [] Hu. split; cbn; try done; [by intros _; auto|]. intros [? _]%inv_shut0. auto. Qed.

Lemma handleWrite_ok r c :
  inv c → Channel.isWriting (channel_ c) = true →
  write_ok (szof (Buffer.contents (outputBuffer_ c))) r →
  ∃ c' calls, handleWrite r c = Done (c', calls) ∧ step_ok (Writable r) c c' calls.
Proof.
  intros Hi Hw Hr. pose proof Hi as [Hin Hout Hev Hcon Hup Hdown Hshut].
  assert (Hu : is_up c) by (apply watched_up; [done|]; intros He; unfold Channel.isWriting in Hw;
                         by rewrite He in Hw).
  unfold handleWrite. rewrite Hw. destruct r as [n|e]; cbn [sockets_write].
  2: { exists (set_socket (socket_ c) c), []. split; [done|].
       rewrite wrote_nil. apply output_step_ok; [by apply inv_wrote|constructor|done|].
       cbn. by rewrite !app_nil_r. }
  cbn in Hr. destruct (Z.ltb_spec 0 n) as [Hn|Hn].
  2: { eexists _, []. split; [done|]. assert (n = 0) as -> by lia.
       change (mkSocket _ _) with (mkSocket (accepted (socket_ c) ++ []) (write_shut (socket_ c))).
       fold (wrote [] c). apply output_step_ok; [by apply inv_wrote|constructor|done|].
       cbn. by rewrite !app_nil_r. }
  cbn [outputBuffer_ set_socket].
  destruct (retrieve_spec _ n Hout) as (out & -> & Hwf & Hc); [lia|]. rewrite bind_ret_l.
  rewrite readable_nil by done.
  assert (Hns : write_shut (socket_ c) = true → False).
  { intros [Hp _]%Hshut. rewrite Hup, Hp in Hw by done. done. }
  set (s := mkSocket _ _). set (c1 := set_output out (set_socket s c)).
  assert (Hst : accepted (socket_ c1) ++ pending c1 = accepted (socket_ c) ++ pending c).
  { unfold pending. cbn. rewrite Hc, <-app_assoc. by rewrite take_drop. }
  destruct (bool_decide_reflect (Buffer.contents out = [])) as [Ho|Ho].
  - destruct (disableWriting_spec _ Hev) as [Hwr Hev'].
    set (c2 := set_channel (Channel.disableWriting (channel_ c1)) c1).
    assert (Hi2 : inv c2).
    { assert (state_ c ≠ kConnecting ∧ state_ c ≠ kDisconnected) as [? ?]
        by (destruct Hu as [Hu|Hu]; by rewrite Hu).
      split; cbn; try done. intros _. rewrite Hwr. unfold pending; cbn. by rewrite Ho. }
    eexists _, _; split; [done|]. case_decide as Hd.
    + destruct (shutdownInLoop_ok c2) as (H1 & H2 & H3 & H4); [by split|].
      apply output_step_ok; [done|by case_match; repeat constructor|by rewrite H2; cbn in Hd; rewrite Hd|].
      rewrite H3, H4. cbn [taken what]. rewrite app_nil_r. exact Hst.
    + apply output_step_ok; [done|by case_match; repeat constructor|done|].
      cbn [taken what]. rewrite app_nil_r. exact Hst.
  - eexists _, []. split; [done|]. apply output_step_ok; [|constructor|done|].
    + assert (state_ c ≠ kConnecting) by (destruct Hu as [Hu|Hu]; by rewrite Hu).
      split; cbn; try done. intros _. by rewrite Hw, bool_decide_true.
    + cbn [taken what]. rewrite app_nil_r. exact Hst.
Qed.

Lemma handleRead_ok r c :
  inv c → Channel.isReading (channel_ c) = true →
  match r with Buffer.ReadBytes data => Buffer.fits (szof data) (inputBuffer_ c)
             | Buffer.ReadError _ => True end →
  ∃ c' calls, handleRead r c = Done (c', calls) ∧ step_ok (Readable r) c c' calls.
Proof.
  intros Hi Hrd Hf. assert (Hu : is_up c).
  { apply watched_up; [done|]. intros He. unfold Channel.isReading in Hrd. by rewrite He in Hrd. }
  assert (Hset : ∀ b, Buffer.wf b → inv (set_input b c)) by (intros b Hb; destruct Hi; by split).
  unfold handleRead. destruct r as [e|data].
  - exists (set_input (inputBuffer_ c) c), []. split; [done|].
    apply output_step_ok; [apply Hset, Hi|constructor|done|]. cbn. by rewrite app_nil_r.
  - destruct (readFd_spec _ data (inv_input _ Hi) Hf) as (b & -> & Hb & Hc). rewrite bind_ret_l.
    pose proof (Hset b Hb) as Hi'. destruct (Z.ltb_spec 0 (szof data)) as [Hl|Hl].
    + eexists _, _; split; [done|]. split; try done. cbn. by rewrite app_nil_r.
    + rewrite (proj2 (Z.eqb_eq _ _)) by lia.
      destruct (handleClose_ok (Readable (Buffer.ReadBytes data)) (set_input b c))
        as (c' & calls & He & []); [done..|]. by exists c', calls.
Qed.

Lemma connectEstablished_ok c :
  inv c → state_ c = kConnecting →
  ∃ c' calls, connectEstablished c = Done (c', calls) ∧ step_ok Establish c c' calls.
Proof.
  intros Hi Hs. unfold connectEstablished. rewrite bool_decide_true by done.
  cbn [cassert mbind outcome_bind]. eexists _, _; split; [done|].
  destruct Hi as [? ? ? Hcon ? ? Hshut]. destruct (Hcon Hs) as [He Hp].
  split; cbn; rewrite ?Hs; try done.
  - split; cbn; rewrite ?He; try done; [by auto|..].
    + intros _. unfold Channel.isWriting; cbn. rewrite He. by rewrite bool_decide_false; [|intros ?].
    + intros [_ [|]]%Hshut; congruence.
  - by rewrite app_nil_r.
  - set_solver.
Qed.

Lemma connectDestroyed_ok c :
  inv c → state_ c = kConnected ∨ state_ c = kDisconnected →
  ∃ c' calls, connectDestroyed c = Done (c', calls) ∧ step_ok Destroy c c' calls.
Proof.
  intros Hi Hs. unfold connectDestroyed. pose proof Hi as [? ? ? ? ? Hdown Hshut].
  case_decide as Hc.
  - eexists _, _; split; [done|]. split; cbn; rewrite ?Hc; try done;
      [|by rewrite app_nil_r|rewrite decide_False by done; cbn; lia|set_solver].
    split; cbn; try done; [by left|by intros [|]|]. intros [? _]%Hshut; auto.
  - destruct Hs as [Hs|Hs]; [done|]. unfold Channel.remove, Channel.isNoneEvent.
    rewrite (Hdown Hs). cbn. eexists _, _; split; [done|].
    apply output_step_ok; [|constructor|done|cbn; by rewrite app_nil_r].
    split; cbn; try done; [by left|congruence|intros [Hu|Hu]; cbn in Hu; congruence].
Qed.

Lemma disconnecting_ok o c calls :
  inv c → is_up c → quiet calls → taken (mkEvent c o calls) = [] →
  step_ok o c (setState kDisconnecting c) calls.
Proof.
  intros Hi Hu Hq Ht. apply output_step_ok; [by apply inv_disconnecting|done| |].
  - by destruct Hu as [-> | ->].
  - rewrite Ht, app_nil_r. done.
Qed.

Lemma reading_ok o b ch c :
  inv c → taken (mkEvent c o []) = [] →
  (let e := Channel.events_ ch in e = 0 ∨ e = 3 ∨ e = 4 ∨ e = 7) →
  Channel.isWriting ch = Channel.isWriting (channel_ c) →
  (¬ is_up c → Channel.events_ (channel_ c) = 0 → Channel.events_ ch = 0) →
  step_ok o c (set_reading b ch c) [].
Proof.
  intros [] Ht Hev Hw H0. apply output_step_ok; [|constructor|done|rewrite Ht; by rewrite app_nil_r].
  split; cbn; try done.
  - intros Hs. split; [|by apply inv_connecting0]. apply H0; [|by apply inv_connecting0].
    intros [|]; congruence.
  - intros Hu. rewrite Hw. by apply inv_up0.
  - intros Hs. apply H0; [|by apply inv_down0]. intros [|]; congruence.
Qed.

(** Every enabled operation succeeds and keeps the invariant. *)
Lemma run_op_ok o c :
  inv c → enabled o c → ∃ c' calls, run_op o c = Done (c', calls) ∧ step_ok o c c' calls.
Proof.
  intros Hi He. destruct (reading_spec _ (inv_events _ Hi)) as (H1 & H2 & H3 & H4 & H5).
  assert (Hsame : taken (mkEvent c o []) = [] → ∃ c' calls, Done (c, []) = Done (c', calls) ∧ step_ok o c c' calls).
  { intros Ht. exists c, []. split; [done|]. by apply unchanged_ok. }
  destruct o; cbn [run_op enabled] in *.
  - by apply connectEstablished_ok.
  - destruct He. by apply send_ok.
  - destruct He. by apply handleRead_ok.
  - destruct (Channel.isWriting (channel_ c)) eqn:Ew; [by apply handleWrite_ok; auto|].
    unfold handleWrite. rewrite Ew. by apply Hsame.
  - apply handleClose_ok; [done| |done]. apply watched_up; [done|]. intros H0. unfold Channel.isNoneEvent in He. by rewrite H0 in He.
  - destruct (retrieve_spec _ n (inv_input _ Hi)) as (b & -> & Hb & _); [done|]. rewrite bind_ret_l.
    exists (set_input b c), []. split; [done|].
    apply output_step_ok; [destruct Hi; by split|constructor|done|cbn; by rewrite app_nil_r].
  - unfold shutdown. case_decide as Hc; [|by apply Hsame].
    eexists _, []. split; [done|].
    destruct (shutdownInLoop_ok (setState kDisconnecting c)) as (Ha & Hb & Hp & Hacc).
    { split; [|done]. apply inv_disconnecting; [done|by left]. }
    apply output_step_ok; [done|constructor|by rewrite Hb, Hc|]. rewrite Hp, Hacc. cbn. by rewrite app_nil_r.
  - unfold forceClose. case_decide as Hc; [|by apply Hsame].
    eexists _, _; split; [done|]. apply disconnecting_ok; [done|done|repeat constructor|done].
  - unfold forceCloseWithDelay. case_decide as Hc; [|by apply Hsame].
    eexists _, _; split; [done|]. apply disconnecting_ok; [done|done|repeat constructor|done].
  - unfold forceCloseInLoop. case_decide as Hc; [|by apply Hsame]. by apply handleClose_ok.
  - unfold startReadInLoop. case_match; [|by apply Hsame].
    eexists _, []. split; [done|]. by apply reading_ok.
  - unfold stopReadInLoop. case_match; [|by apply Hsame].
    eexists _, []. split; [done|]. apply reading_ok; auto.
  - by apply connectDestroyed_ok.
Qed.

Lemma step_facts o c c' calls : inv c → step o c c' calls → step_ok o c c' calls.
Proof.
  intros Hi [c1 calls1 He Hr]. destruct (run_op_ok o c Hi He) as (c2 & calls2 & Hr2 & Hok). congruence.
Qed.

Lemma steps_inv c0 h c : inv c0 → steps c0 h c → inv c.
Proof.
  intros H0 Hs. induction Hs as [|h c o c' calls _ IH Hstep]; [done|].
  by eapply ok_inv, step_facts.
Qed.

Lemma callbacks_snoc k h e : callbacks k (h ++ [e]) = (callbacks k h + occurrences k (result e))%nat.
Proof.
  unfold callbacks, occurrences. by rewrite map_app, concat_app, filter_app, length_app; cbn; rewrite app_nil_r.
Qed.

(** * Properties *)

(** C3. A connection never reaches undefined behaviour or a failed assertion:
    after any history of enabled operations, whatever the results of the system
    calls, every enabled operation completes. *)
Theorem connection_never_faults name h c o :
  steps (make name) h c → enabled o c → ∃ c' calls, run_op o c = Done (c', calls).
Proof.
  intros Hs He. destruct (run_op_ok o c) as (c' & calls & Hr & _); [|done|by exists c', calls].
  eapply steps_inv; [apply inv_make|done].
Qed.

(** Runs the operations that are enabled, up to the first that is not. *)
#[export] Instance write_ok_dec len r : Decision (write_ok len r).
Proof. destruct r; apply _. Defined.
#[export] Instance fits_dec n b : Decision (Buffer.fits n b).
Proof. unfold Buffer.fits. apply _. Defined.
#[export] Instance enabled_dec o c : Decision (enabled o c).
Proof. destruct o; cbn; try apply _. destruct r; apply _. Defined.

Fixpoint run_ops (l : list op) (c : t) (h : list event) : t * list event :=
  match l with
  | [] => (c, h)
  | o :: l =>
      if decide (enabled o c) then
        match run_op o c with
        | Done (c', calls) => run_ops l c' (h ++ [mkEvent c o calls])
        | Fault _ => (c, h)
        end
      else (c, h)
  end.

Lemma run_ops_steps l c0 c h :
  steps c0 h c → steps c0 (run_ops l c h).2 (run_ops l c h).1.
Proof.
  revert c h. induction l as [|o l IH]; intros c h Hs; cbn [run_ops]; [done|].
  case_decide; [|done]. destruct (run_op o c) as [[c' calls]|] eqn:E; [|done].
  apply IH. eapply steps_snoc; [done|]. by split.
Qed.

(** A send half written, a read, the rest written when the socket allows it
    after the connection was shut down, and the end of the peer. *)
Definition sample : t * list event :=
  run_ops [Establish; Send (bs "hello world") (Wrote 5); Readable (Buffer.ReadBytes (bs "in"));
           Shutdown; Writable (Wrote 6); Readable (Buffer.ReadBytes []); Destroy] (make (bs "c")) [].
Lemma sample_steps : steps (make (bs "c")) sample.2 sample.1.
Proof. apply run_ops_steps. constructor. Qed.

Lemma connection_never_faults_witness :
  length sample.2 = 7%nat ∧ ∃ c' calls, run_op Destroy sample.1 = Done (c', calls).
Proof.
  split; [vm_compute; reflexivity|].
  apply (connection_never_faults (bs "c") sample.2 sample.1 Destroy sample_steps).
  right. vm_compute. reflexivity.
Defined.

Lemma stream_steps name h c :
  steps (make name) h c → accepted (socket_ c) ++ pending c = concat (map taken h).
Proof.
  intros Hs. assert (Hi := inv_make name).
  induction Hs as [|h c o c' calls Hs IH Hstep].
  - unfold pending. cbn. apply (proj2 new_buffer_spec).
  - destruct (step_facts o c c' calls (steps_inv _ _ _ Hi Hs) Hstep) as [_ Hst _ _ _].
    rewrite Hst, IH, map_app, concat_app. cbn. by rewrite app_nil_r.
Qed.

(** C4. Output is neither lost, reordered nor duplicated: at any time the bytes
    the socket accepted followed by the bytes pending in the output buffer are
    the concatenation of the data taken by the sends so far, in order; and when
    the write side has been shut down, the socket has accepted all of it. *)
Theorem output_in_order name h c :
  steps (make name) h c →
  accepted (socket_ c) ++ pending c = concat (map taken h) ∧
  (write_shut (socket_ c) = true →
   accepted (socket_ c) = concat (map taken h) ∧ state_ c ≠ kConnected).
Proof.
  intros Hs. pose proof (stream_steps _ _ _ Hs) as Hst. split; [done|]. intros Hw.
  destruct (inv_shut _ (steps_inv _ _ _ (inv_make name) Hs) Hw) as [Hp Hd].
  rewrite Hp, app_nil_r in Hst. split; [done|]. by destruct Hd as [-> | ->].
Qed.

Lemma output_in_order_witness :
  accepted (socket_ sample.1) = bs "hello world" ∧
  accepted (socket_ sample.1) ++ pending sample.1 = concat (map taken sample.2).
Proof.
  split; [vm_compute; reflexivity|].
  exact (proj1 (output_in_order (bs "c") sample.2 sample.1 sample_steps)).
Defined.

(** C36. The life of a connection as its users see it: the connection callback
    runs once when it comes up and once more when it goes down, and never
    again; the close callback runs at most once, and only for a connection
    that is down; messages are delivered only while it is up. *)
Theorem callbacks_bracket_life name h c :
  steps (make name) h c →
  callbacks ConnectionCallback h = reports (state_ c) ∧
  (callbacks CloseCallback h ≤ reports (state_ c) - 1)%nat ∧
  Forall (λ e, MessageCallback ∈ result e → is_up (before e)) h.
Proof.
  intros Hs. assert (Hi := inv_make name).
  induction Hs as [|h c o c' calls Hs IH Hstep]; [done|]. destruct IH as (H1 & H2 & H3).
  destruct (step_facts o c c' calls (steps_inv _ _ _ Hi Hs) Hstep) as [_ _ Hr Hc Hm].
  rewrite !callbacks_snoc; cbn [result]. split_and!; [lia|lia|].
  apply Forall_app; split; [done|]. constructor; [|constructor]. cbn. intros Hk. by apply Hm.
Qed.

Lemma callbacks_bracket_life_witness :
  callbacks CloseCallback sample.2 = 1%nat ∧
  callbacks ConnectionCallback sample.2 = reports (state_ sample.1).
Proof.
  split; [vm_compute; reflexivity|].
  exact (proj1 (callbacks_bracket_life (bs "c") sample.2 sample.1 sample_steps)).
Defined.

(** A connection that is closing but not yet closed cannot be destroyed:
    [connectDestroyed], which the destructor of the server runs on every
    connection it still has, fails the assertion [isNoneEvent()] of its
    channel while that watches for events, and the destructor of the
    connection fails [state_ == kDisconnected] in any case. *)
Theorem closing_connection_not_destroyed c :
  state_ c = kDisconnecting →
  (connectDestroyed c =
    if Channel.events_ (channel_ c) =? 0
    then Done (set_channel (Channel.mk 0 false (Channel.tied_ (channel_ c))) c, [])
    else Fault (AssertFailed "isNoneEvent()")) ∧
  dtor c = Fault (AssertFailed "state_ == kDisconnected").
Proof.
  intros Hs. unfold connectDestroyed, dtor, disconnected. rewrite decide_False by by rewrite Hs.
  rewrite bool_decide_false by by rewrite Hs. split; [|done].
  unfold Channel.remove, Channel.isNoneEvent, Channel.kNoneEvent.
  by destruct (Z.eqb_spec (Channel.events_ (channel_ c)) 0) as [->|].
Qed.

Definition closing : t := (run_ops [Establish; Shutdown] (make (bs "c")) []).1.
Lemma closing_connection_not_destroyed_witness :
  connectDestroyed closing = Fault (AssertFailed "isNoneEvent()").
Proof. exact (proj1 (closing_connection_not_destroyed closing eq_refl)). Defined.

(** * What an owner of connections needs *)

(** The operations the loop and the session perform on a connection: all but
    those the server performs itself. *)
Definition loop_op (o : TcpConnection.op) : bool :=
  match o with TcpConnection.Establish | TcpConnection.Destroy => false | _ => true end.

(** An operation that completes keeps the name of the connection, and either
    closes it or leaves it as up as it was, without connection callbacks. *)
Record kept (c c' : TcpConnection.t) (calls : list call) : Prop := mkKept {
  kept_name : TcpConnection.name_ c' = TcpConnection.name_ c;
  kept_up : is_up c → is_up c';
  kept_calls : ConnectionCallback ∉ calls ∧ CloseCallback ∉ calls
}.
Definition closed (c c' : TcpConnection.t) (calls : list call) : Prop :=
  TcpConnection.name_ c' = TcpConnection.name_ c ∧ calls = [ConnectionCallback; CloseCallback] ∧
  TcpConnection.state_ c' = kDisconnected.

Lemma kept_refl c calls : quiet calls → kept c c calls.
Proof.
  intros Hq. split; [done|done|]. split; intros Hin;
    by pose proof (proj1 (Forall_forall _ _) Hq _ Hin).
Qed.

Lemma quiet_if (b : bool) k : queued k = true → quiet (if b then [k] else []).
Proof. intros Hk. destruct b; repeat constructor. by rewrite Hk. Qed.

Lemma send_kept data r c c' calls :
  TcpConnection.send data r c = Done (c', calls) → kept c c' calls.
Proof.
  unfold TcpConnection.send. case_decide as Hs; [|intros [= <- <-]; apply kept_refl; constructor].
  assert (Hany : ∀ c1 ks, TcpConnection.name_ c1 = TcpConnection.name_ c →
    TcpConnection.state_ c1 = TcpConnection.state_ c → quiet ks → kept c c1 ks).
  { intros c1 ks Hn Hst Hq. destruct (kept_refl c ks Hq). split; [done| |done].
    unfold is_up. by rewrite Hst. }
  unfold TcpConnection.sendInLoop, TcpConnection.enqueue. case_decide; [congruence|].
  intros Hd. case_match. destruct_done Hd. case_match.
  - destruct_done Hd. injection Hd as <- <-. apply Hany; [by destruct (negb _)..|].
    apply Forall_app; split; apply quiet_if; done.
  - injection Hd as <- <-. apply Hany; [done..|]. by apply quiet_if.
Qed.

Lemma handleClose_closed c c' calls :
  TcpConnection.handleClose c = Done (c', calls) → is_up c ∧ closed c c' calls.
Proof.
  unfold TcpConnection.handleClose. intros Hd. destruct_done Hd.
  injection Hd as <- <-. split; [|done].
  destruct a. by apply cassert_true, bool_decide_eq_true in E.
Qed.

Lemma run_op_kept_or_closed o c c' calls :
  loop_op o = true → TcpConnection.run_op o c = Done (c', calls) →
  kept c c' calls ∨ closed c c' calls.
Proof.
  assert (Hany : ∀ c1 ks, TcpConnection.name_ c1 = TcpConnection.name_ c →
    (is_up c → is_up c1) → quiet ks → kept c c1 ks).
  { intros c1 ks Hn Hst Hq. by destruct (kept_refl c ks Hq). }
  assert (Hsame : kept c c []) by (apply kept_refl; constructor).
  destruct o; cbn [TcpConnection.run_op loop_op]; intros Hl Hd; try done.
  - left. by eapply send_kept.
  - unfold TcpConnection.handleRead in Hd. destruct_done Hd. destruct a as [[n e] b].
    destruct (0 <? n); [|destruct (n =? 0)].
    + injection Hd as <- <-. left. split; [done|done|]. split; set_solver.
    + apply handleClose_closed in Hd as [_ (Hn & Hk & Hs)]. right. done.
    + injection Hd as <- <-. left. apply Hany; [done|done|constructor].
  - left. unfold TcpConnection.handleWrite in Hd. case_match; [|by injection Hd as <- <-].
    case_match. case_match; [|injection Hd as <- <-; apply Hany; [done|done|constructor]].
    destruct_done Hd. case_match; injection Hd as <- <-; [|apply Hany; [done|done|constructor]].
    assert (Hs : ∀ x, is_up x → is_up (TcpConnection.shutdownInLoop x) ∧ True)
      by (intros x Hx; unfold TcpConnection.shutdownInLoop; by case_match).
    assert (Hn : ∀ x, TcpConnection.name_ (TcpConnection.shutdownInLoop x) = TcpConnection.name_ x)
      by (intros x; unfold TcpConnection.shutdownInLoop; by case_match).
    case_decide; (apply Hany; [by rewrite ?Hn|intros Hu; try apply Hs; exact Hu|by apply quiet_if]).
  - right. by apply handleClose_closed in Hd as [_ ?].
  - left. destruct_done Hd. injection Hd as <- <-. apply Hany; [done|done|constructor].
  - left. injection Hd as <- <-. unfold TcpConnection.shutdown, TcpConnection.shutdownInLoop.
    case_decide; [|done]. case_match; (apply Hany; [done|by right|constructor]).
  - left. unfold TcpConnection.forceClose in Hd. case_decide; injection Hd as <- <-; [|done].
    apply Hany; [done|by right|repeat constructor].
  - left. unfold TcpConnection.forceCloseWithDelay in Hd. case_decide; injection Hd as <- <-; [|done].
    apply Hany; [done|by right|repeat constructor].
  - unfold TcpConnection.forceCloseInLoop in Hd. case_decide; [|injection Hd as <- <-; by left].
    right. by apply handleClose_closed in Hd as [_ ?].
  - left. injection Hd as <- <-. unfold TcpConnection.startReadInLoop. case_match; [|done].
    apply Hany; [done|done|constructor].
  - left. injection Hd as <- <-. unfold TcpConnection.stopReadInLoop. case_match; [|done].
    apply Hany; [done|done|constructor].
Qed.
