(* ===== verification/ConnThreads.v ===== *)
(** A connection used from threads other than that of its loop (TcpConnection.cc:
    [send], [shutdown], [forceClose], [forceCloseWithDelay], [startRead],
    [stopRead] and their halves in the loop).  A call is the steps other threads
    can come between: the test of [state_], its assignment, the functor queued
    in the loop.  Functors bound to [this] do not keep the object alive, those
    bound to [shared_from_this()] do, and the object is destroyed when the
    server, the threads and the queue have let go of it.  Accesses to [state_]
    are taken to be atomic, as the code does. *)

From S2P Require Import Prelude Buffer TcpConnection.
Local Open Scope Z_scope.

Module ConnThreads.

(** What a thread can call. *)
Inductive user_call :=
  | USend (data : bytes) | UShutdown | UForceClose | UForceCloseWithDelay | UStartRead | UStopRead.

(** What is queued in the loop: of the members bound to [this], the thread that
    queued them; [Callback] is a write-complete or high-water-mark callback,
    [AddTimer] the addition of the timer of [forceCloseWithDelay]. *)
Inductive functor :=
  | SendInLoop (tid : Z) (data : bytes) | ShutdownInLoop (tid : Z)
  | StartReadInLoop (tid : Z) | StopReadInLoop (tid : Z)
  | ForceCloseInLoop | ConnectDestroyed | Callback | AddTimer.

(** Functors that own a share of the connection. *)
Definition shared (f : functor) : bool :=
  match f with ForceCloseInLoop | ConnectDestroyed | Callback => true | _ => false end.
(** The thread whose pointer a functor uses without sharing it. *)
Definition raw_of (f : functor) : option Z :=
  match f with
  | SendInLoop t _ | ShutdownInLoop t | StartReadInLoop t | StopReadInLoop t => Some t
  | _ => None
  end.

(** Where a thread is in a call: [state_] is tested, or also assigned. *)
Inductive pc := Tested (u : user_call) | Stored (u : user_call).
#[global] Instance user_call_eq_dec : EqDecision user_call.
Proof. solve_decision. Defined.
#[global] Instance functor_eq_dec : EqDecision functor.
Proof. solve_decision. Defined.
#[global] Instance pc_eq_dec : EqDecision pc.
Proof. solve_decision. Defined.

#[global] Instance write_result_eq_dec : EqDecision write_result.
Proof. solve_decision. Defined.

(** A piece of data that [sendInLoop] worked on: the thread that sent it, if
    not the loop's, and what was taken of it. *)
Record sent := mkSent { origin : option Z; data_ : bytes; took : bytes }.

(** The connection and who holds it: the server's map, the threads; the queue of
    the loop and the timers set; [gone] once it is destroyed.  [log] and
    [handed] are the sends run and the sends queued by threads, in order. *)
Record t := mk {
  conn : TcpConnection.t;
  server : bool;
  holders : gset Z;
  pcs : gmap Z pc;
  queue : list functor;
  timers : nat;
  gone : bool;
  log : list sent;
  handed : list (Z * bytes)
}.
Definition set_conn c s := mk c (server s) (holders s) (pcs s) (queue s) (timers s) (gone s) (log s) (handed s).
Definition set_server b s := mk (conn s) b (holders s) (pcs s) (queue s) (timers s) (gone s) (log s) (handed s).
Definition set_holders h s := mk (conn s) (server s) h (pcs s) (queue s) (timers s) (gone s) (log s) (handed s).
Definition set_pcs p s := mk (conn s) (server s) (holders s) p (queue s) (timers s) (gone s) (log s) (handed s).
Definition set_queue q s := mk (conn s) (server s) (holders s) (pcs s) q (timers s) (gone s) (log s) (handed s).
Definition set_timers n s := mk (conn s) (server s) (holders s) (pcs s) (queue s) n (gone s) (log s) (handed s).
Definition set_gone s := mk (conn s) (server s) (holders s) (pcs s) (queue s) (timers s) true (log s) (handed s).
Definition add_log l s := mk (conn s) (server s) (holders s) (pcs s) (queue s) (timers s) (gone s) (log s ++ l) (handed s).
Definition add_handed l s := mk (conn s) (server s) (holders s) (pcs s) (queue s) (timers s) (gone s) (log s) (handed s ++ l).
Definition enqueue (l : list functor) s := set_queue (queue s ++ l) s.

Definition referenced (s : t) : bool :=
  server s || negb (bool_decide (holders s = ∅)) || existsb shared (queue s).

(** The destructors, [~TcpConnection()] and [~Channel()], when the last share
    is gone. *)
Definition collect (s : t) : outcome t :=
  if referenced s || gone s then Done s
  else
    _ ← TcpConnection.dtor (conn s);
    _ ← cassert (negb (Channel.addedToLoop_ (TcpConnection.channel_ (conn s)))) "!addedToLoop_";
    Done (set_gone s).

(** Any use of the object. *)
Definition touch (s : t) : outcome TcpConnection.t :=
  if gone s then Fault (Undefined "use of a destroyed connection") else Done (conn s).

(** What the callbacks of an operation leave behind: the close callback is
    [TcpServer::removeConnection]. *)
Definition after_call (k : call) (s : t) : t :=
  match k with
  | ConnectionCallback | MessageCallback => s
  | CloseCallback => enqueue [ConnectDestroyed] (set_server false s)
  | QueueWriteComplete | QueueHighWaterMark _ => enqueue [Callback] s
  | QueueForceClose => enqueue [ForceCloseInLoop] s
  | TimerForceClose => set_timers (S (timers s)) s
  end.
Definition after_calls (ks : list call) (s : t) : t := fold_left (λ s k, after_call k s) ks s.

(** The test of [state_] a call begins with. *)
Definition passes (u : user_call) (c : TcpConnection.t) : bool :=
  match u with
  | USend _ | UShutdown => bool_decide (TcpConnection.state_ c = kConnected)
  | UForceClose | UForceCloseWithDelay =>
      bool_decide (TcpConnection.state_ c = kConnected ∨ TcpConnection.state_ c = kDisconnecting)
  | UStartRead | UStopRead => true
  end.
Definition stores (u : user_call) : bool :=
  match u with UShutdown | UForceClose | UForceCloseWithDelay => true | _ => false end.
(** What a call queues in the loop. *)
Definition functor_of (tid : Z) (u : user_call) : functor :=
  match u with
  | USend data => SendInLoop tid data
  | UShutdown => ShutdownInLoop tid
  | UForceClose => ForceCloseInLoop
  | UForceCloseWithDelay => AddTimer
  | UStartRead => StartReadInLoop tid
  | UStopRead => StopReadInLoop tid
  end.

(** The steps: a callback in the loop gives a thread a share of the connection,
    or the thread drops it; a thread begins, continues or ends a call; the
    loop performs an operation, calls the first functor of its queue ([r] is
    the result of a [write] that makes), or fires a timer. *)
Inductive action :=
  | Share (tid : Z) | Release (tid : Z)
  | Begin (tid : Z) (u : user_call) | Store (tid : Z) | Queue (tid : Z)
  | InLoop (o : TcpConnection.op)
  | RunFunctor (r : write_result)
  | FireTimer.

(** [sendInLoop] run for [origin]. *)
Definition note_sent (o : option Z) (data : bytes) (r : write_result) (c : TcpConnection.t) (s : t) : t :=
  add_log [mkSent o data (if decide (TcpConnection.state_ c = kDisconnected) then [] else taken_up data r c)] s.

Definition run_functor (f : functor) (r : write_result) (s : t) : outcome t :=
  match f with
  | SendInLoop tid data =>
      c ← touch s;
      '(c', calls) ← TcpConnection.sendInLoop_piece (Buffer.pieceOf data) r c;
      Done (after_calls calls (note_sent (Some tid) data r c (set_conn c' s)))
  | ShutdownInLoop _ => c ← touch s; Done (set_conn (TcpConnection.shutdownInLoop c) s)
  | StartReadInLoop _ => c ← touch s; Done (set_conn (TcpConnection.startReadInLoop c) s)
  | StopReadInLoop _ => c ← touch s; Done (set_conn (TcpConnection.stopReadInLoop c) s)
  | ForceCloseInLoop =>
      c ← touch s;
      '(c, calls) ← TcpConnection.forceCloseInLoop c;
      Done (after_calls calls (set_conn c s))
  | ConnectDestroyed =>
      c ← touch s;
      '(c, calls) ← TcpConnection.connectDestroyed c;
      Done (after_calls calls (set_conn c s))
  | Callback => Done s
  | AddTimer => Done (set_timers (S (timers s)) s)
  end.

Definition run (a : action) (s : t) : outcome t :=
  match a with
  | Share tid => _ ← touch s; Done (set_holders ({[tid]} ∪ holders s) s)
  | Release tid => collect (set_holders (holders s ∖ {[tid]}) s)
  | Begin tid u =>
      c ← touch s;
      Done (if passes u c then set_pcs (<[tid := Tested u]> (pcs s)) s else s)
  | Store tid =>
      match pcs s !! tid with
      | Some (Tested u) =>
          c ← touch s;
          Done (set_pcs (<[tid := Stored u]> (pcs s)) (set_conn (TcpConnection.setState kDisconnecting c) s))
      | _ => Done s
      end
  | Queue tid =>
      match pcs s !! tid with
      | Some (Tested u) | Some (Stored u) =>
          _ ← touch s;
          let s := set_pcs (delete tid (pcs s)) (enqueue [functor_of tid u] s) in
          Done (match u with USend data => add_handed [(tid, data)] s | _ => s end)
      | None => Done s
      end
  | InLoop o =>
      c ← touch s;
      '(c', calls) ← TcpConnection.run_op o c;
      let s := set_conn c' s in
      let s := match o with
               | TcpConnection.Send data r =>
                   if decide (TcpConnection.state_ c = kConnected) then note_sent None data r c s else s
               | _ => s
               end in
      collect (after_calls calls s)
  | RunFunctor r =>
      match queue s with
      | [] => Done s
      | f :: q => s ← run_functor f r (set_queue q s); collect s
      end
  | FireTimer =>
      let s := set_timers (timers s - 1) s in
      if gone s then Done s                   (* the weak pointer has expired *)
      else
        let '(c, calls) := TcpConnection.forceClose (conn s) in
        collect (after_calls calls (set_conn c s))
  end.

(** A connection the server has just established. *)
Definition start (c : TcpConnection.t) : t := mk c true ∅ ∅ [] 0 false [] [].

(** How the connection is to be used.  A thread drops its share only when its
    own calls have run; it assigns [state_] only while the connection is up,
    what the compare-and-swap the code leaves to do would ensure; it leaves
    [startRead] and [stopRead] to the loop.  A queued send, whose string becomes a
    [StringPiece] again, has at most [INT_MAX] bytes.  A shut-down socket refuses a
    [write] with [EPIPE]. *)
Definition disciplined (a : action) (s : t) : Prop :=
  match a with
  | Share tid => server s = true
  | Release tid => pcs s !! tid = None ∧ Forall (λ f, raw_of f ≠ Some tid) (queue s)
  | Begin tid u => tid ∈ holders s ∧ pcs s !! tid = None ∧ u ≠ UStartRead ∧ u ≠ UStopRead
  | Store tid => ∃ u, pcs s !! tid = Some (Tested u) ∧ stores u = true ∧ is_up (conn s)
  | Queue tid =>
      ∃ u, pcs s !! tid = Some (Tested u) ∧ stores u = false ∨ pcs s !! tid = Some (Stored u)
  | InLoop o => loop_op o = true ∧ is_up (conn s) ∧ TcpConnection.enabled o (conn s)
  | RunFunctor r =>
      match queue s with
      | [] => False
      | SendInLoop _ data :: _ =>
          szof data ≤ INT_MAX ∧
          TcpConnection.write_ok (szof data) r ∧ Buffer.fits (szof data) (TcpConnection.outputBuffer_ (conn s)) ∧
          (write_shut (TcpConnection.socket_ (conn s)) = true → r = WriteError EPIPE)
      | _ => True
      end
  | FireTimer => (0 < timers s)%nat
  end.

(** A history. *)
Inductive reachable (c0 : TcpConnection.t) : t → Prop :=
  | reach_start : reachable c0 (start c0)
  | reach_step s a s' : reachable c0 s → disciplined a s → run a s = Done s' → reachable c0 s'.

Definition from_threads (l : list sent) : list (Z * bytes) :=
  omap (λ e, t ← origin e; Some (t, data_ e)) l.
Definition queued_sends (q : list functor) : list (Z * bytes) :=
  omap (λ f, match f with SendInLoop t d => Some (t, d) | _ => None end) q.

(** * Lemmas *)

(** What does not concern the threads that hold a pointer. *)
Definition harmless (f : functor) : Prop := f ∈ [Callback; ForceCloseInLoop; ConnectDestroyed; AddTimer].

(** The connection is up while the server has it, and closed, with nothing
    watched, afterwards; its channel then is removed or about to be. *)
Definition conn_ok (c : TcpConnection.t) (b : bool) (q : list functor) : Prop :=
  if b then is_up c ∧ inv c ∧ ConnectDestroyed ∉ q
  else TcpConnection.state_ c = kDisconnected ∧ Channel.events_ (TcpConnection.channel_ c) = 0 ∧
       (ConnectDestroyed ∈ q ∨ Channel.addedToLoop_ (TcpConnection.channel_ c) = false).

(** Members bound to [this] belong to threads that keep their pointer. *)
Definition functor_ok (h : gset Z) (st : StateE) (f : functor) : Prop :=
  match f with
  | SendInLoop t _ => t ∈ h
  | ShutdownInLoop t => t ∈ h ∧ st ≠ kConnected
  | StartReadInLoop _ | StopReadInLoop _ => False
  | _ => True
  end.
Definition pc_ok (h : gset Z) (st : StateE) (tid : Z) (p : pc) : Prop :=
  tid ∈ h ∧ match p with
            | Tested u => u ≠ UStartRead ∧ u ≠ UStopRead
            | Stored u => stores u = true ∧ st ≠ kConnected
            end.
Definition took_ok (e : sent) : Prop := took e = [] ∨ took e = data_ e.

Record core (s : t) : Prop := mkCore {
  core_conn : conn_ok (conn s) (server s) (queue s);
  core_pcs : map_Forall (pc_ok (holders s) (TcpConnection.state_ (conn s))) (pcs s);
  core_queue : Forall (functor_ok (holders s) (TcpConnection.state_ (conn s))) (queue s);
  core_stream : accepted (TcpConnection.socket_ (conn s)) ++ pending (conn s) = concat (map took (log s));
  core_fifo : from_threads (log s) ++ queued_sends (queue s) = handed s;
  core_took : Forall took_ok (log s)
}.
(** Destroyed exactly when nobody holds it. *)
Definition ok (s : t) : Prop := core s ∧ gone s = negb (referenced s).

Lemma functor_ok_mono h st st' f :
  (st ≠ kConnected → st' ≠ kConnected) → functor_ok h st f → functor_ok h st' f.
Proof. destruct f; cbn; naive_solver. Qed.
Lemma harmless_ok h st f : harmless f → functor_ok h st f.
Proof. unfold harmless. destruct f; cbn; try done; set_solver. Qed.
Lemma pcs_ok_mono h st st' (m : gmap Z pc) :
  (st ≠ kConnected → st' ≠ kConnected) → map_Forall (pc_ok h st) m → map_Forall (pc_ok h st') m.
Proof. intros Hs Hm t p Hp. destruct (Hm t p Hp) as [? H]. split; [done|]. destruct p; naive_solver. Qed.

Lemma from_threads_app l l' : from_threads (l ++ l') = from_threads l ++ from_threads l'.
Proof. apply omap_app. Qed.
Lemma queued_sends_app q l : queued_sends (q ++ l) = queued_sends q ++ queued_sends l.
Proof. apply omap_app. Qed.

(** The connection moves on, the threads stay where they are. *)
Lemma core_next s c b q n g lg :
  core s → conn_ok c b q →
  (TcpConnection.state_ (conn s) ≠ kConnected → TcpConnection.state_ c ≠ kConnected) →
  accepted (TcpConnection.socket_ c) ++ pending c =
    (accepted (TcpConnection.socket_ (conn s)) ++ pending (conn s)) ++ concat (map took lg) →
  Forall (λ f, f ∈ queue s ∨ harmless f) q →
  from_threads lg ++ queued_sends q = queued_sends (queue s) → Forall took_ok lg →
  core (mk c b (holders s) (pcs s) q n g (log s ++ lg) (handed s)).
Proof.
  intros [] Hc Hst Hs Hq Hf Ht. split; cbn -[from_threads queued_sends].
  - done.
  - by eapply pcs_ok_mono.
  - apply Forall_forall. intros f Hin.
    destruct (proj1 (Forall_forall _ _) Hq f Hin) as [Hold|Hh]; [|by apply harmless_ok].
    eapply functor_ok_mono; [done|]. by apply (proj1 (Forall_forall _ _) core_queue0).
  - rewrite Hs, core_stream0. by rewrite map_app, concat_app.
  - by rewrite from_threads_app, <-app_assoc, Hf.
  - by apply Forall_app.
Qed.

Lemma shared_in q f : f ∈ q → shared f = true → existsb shared q = true.
Proof. intros Hin Hs. apply existsb_exists. exists f. by rewrite <-list_elem_of_In. Qed.

Lemma collect_ok s :
  core s → (gone s = true → referenced s = false) → ∃ s', collect s = Done s' ∧ ok s'.
Proof.
  intros Hc Hg. unfold collect. destruct (referenced s) eqn:Er; cbn [orb].
  - exists s. split; [done|]. split; [done|]. rewrite Er. destruct (gone s); [|done]. by discriminate Hg.
  - destruct (gone s) eqn:Eg.
    + exists s. split; [done|]. split; [done|]. by rewrite Er, Eg.
    + pose proof (core_conn _ Hc) as Hk. unfold referenced in Er.
      apply orb_false_elim in Er as [Er Hsh]. apply orb_false_elim in Er as [Hsv Hh].
      rewrite Hsv in Hk. destruct Hk as (Hd & _ & Ha).
      destruct Ha as [Hin|Ha]; [by rewrite (shared_in _ _ Hin) in Hsh|].
      unfold TcpConnection.dtor, TcpConnection.disconnected. rewrite bool_decide_true by done.
      rewrite Ha. cbn. eexists. split; [done|]. split; [by destruct Hc; split|].
      cbn. unfold referenced. cbn. by rewrite Hsv, Hh, Hsh.
Qed.

(** What the callbacks of a step leave behind. *)
Lemma after_kept ks s :
  CloseCallback ∉ ks →
  ∃ l n, after_calls ks s = set_timers n (enqueue l s) ∧ Forall (λ f, f = Callback ∨ f = ForceCloseInLoop) l.
Proof.
  unfold after_calls. revert s. induction ks as [|k ks IH]; intros s Hk; cbn [fold_left].
  - exists [], (timers s). split; [|done]. destruct s. unfold enqueue, set_timers, set_queue; cbn. by rewrite app_nil_r.
  - apply not_elem_of_cons in Hk as [Hne Hk]. destruct (IH (after_call k s) Hk) as (l & n & -> & Hl).
    destruct k; try done; cbn [after_call]; try (by exists l, n).
    1-3: eexists (_ :: l), n; split; [unfold enqueue, set_timers, set_queue; cbn; by rewrite <-app_assoc|].
    1-3: constructor; [|done]; auto.
Qed.
Lemma quiet_no_close ks : quiet ks → CloseCallback ∉ ks.
Proof. intros Hq Hin. by pose proof (proj1 (Forall_forall _ _) Hq _ Hin). Qed.

Lemma queued_sends_quiet l : Forall (λ f, f = Callback ∨ f = ForceCloseInLoop) l → queued_sends l = [].
Proof. induction 1 as [|f l [->| ->]]; done. Qed.

(** Something that happens to the connection while the server has it, on the
    way to the queue [q]: it stays up, or closes. *)
Lemma core_up_step s c calls q lg :
  core s → server s = true → q `sublist_of` queue s →
  from_threads lg ++ queued_sends q = queued_sends (queue s) → Forall took_ok lg →
  inv c → (TcpConnection.state_ (conn s) ≠ kConnected → TcpConnection.state_ c ≠ kConnected) →
  accepted (TcpConnection.socket_ c) ++ pending c =
    (accepted (TcpConnection.socket_ (conn s)) ++ pending (conn s)) ++ concat (map took lg) →
  is_up c ∧ CloseCallback ∉ calls ∨
  calls = [ConnectionCallback; CloseCallback] ∧ TcpConnection.state_ c = kDisconnected →
  core (after_calls calls (mk c true (holders s) (pcs s) q (timers s) (gone s) (log s ++ lg) (handed s))).
Proof.
  intros Hc Hsv Hq Hf Ht Hi Hst Hs Hcase.
  pose proof (core_conn _ Hc) as Hk. rewrite Hsv in Hk. destruct Hk as (_ & _ & Hnd).
  assert (Hold : Forall (λ f, f ∈ queue s ∨ harmless f) q)
    by (apply Forall_forall; intros f Hin; left; by eapply elem_of_sublist).
  destruct Hcase as [[Hu Hno]|[-> Hd]].
  - destruct (after_kept calls (mk c true (holders s) (pcs s) q (timers s) (gone s) (log s ++ lg) (handed s)) Hno)
      as (l & n & -> & Hl). apply (core_next s); try done.
    + split; [done|]. split; [done|]. cbn. intros [Hin|Hin]%elem_of_app.
      * apply Hnd. by eapply elem_of_sublist.
      * by destruct (proj1 (Forall_forall _ _) Hl _ Hin).
    + apply Forall_app. split; [done|]. eapply Forall_impl; [done|]. unfold harmless. set_solver.
    + cbn. by rewrite queued_sends_app, (queued_sends_quiet l), app_nil_r.
  - apply (core_next s); try done.
    + cbn. split; [done|]. split; [by apply inv_down|]. left. set_solver.
    + apply Forall_app. split; [done|]. constructor; [|done]. right. unfold harmless. set_solver.
    + cbn. by rewrite queued_sends_app, app_nil_r.
Qed.

Lemma run_op_not_connected o c c' calls :
  loop_op o = true → TcpConnection.run_op o c = Done (c', calls) →
  TcpConnection.state_ c ≠ kConnected → TcpConnection.state_ c' ≠ kConnected.
Proof.
  intros Hl Hr Hn. destruct o; try done; cbn in Hr.
  - unfold TcpConnection.send in Hr. case_decide; [done|]. by simplify_eq.
  - unfold TcpConnection.handleRead in Hr. destruct_done Hr. destruct a as [[n e] b].
    repeat case_match; simplify_eq; try done. by apply handleClose_closed in Hr as [_ (_ & _ & ->)].
  - unfold TcpConnection.handleWrite in Hr. case_match; [|by simplify_eq]. case_match.
    case_match; [|by simplify_eq]. destruct_done Hr.
    unfold TcpConnection.shutdownInLoop in Hr. repeat case_match; simplify_eq; done.
  - by apply handleClose_closed in Hr as [_ (_ & _ & ->)].
  - destruct_done Hr. by simplify_eq.
  - unfold TcpConnection.shutdown in Hr. case_decide; [done|]. by simplify_eq.
  - unfold TcpConnection.forceClose in Hr. case_decide; by simplify_eq.
  - unfold TcpConnection.forceCloseWithDelay in Hr. case_decide; by simplify_eq.
  - unfold TcpConnection.forceCloseInLoop in Hr. case_decide; [|by simplify_eq].
    by apply handleClose_closed in Hr as [_ (_ & _ & ->)].
  - unfold TcpConnection.startReadInLoop in Hr. case_match; by simplify_eq.
  - unfold TcpConnection.stopReadInLoop in Hr. case_match; by simplify_eq.
Qed.

(** An operation of the loop while the server has the connection. *)
Lemma op_core o s q lg :
  core s → server s = true → q `sublist_of` queue s → queued_sends q = queued_sends (queue s) →
  loop_op o = true → TcpConnection.enabled o (conn s) →
  from_threads lg = [] → Forall took_ok lg →
  concat (map took lg) = TcpConnection.taken (TcpConnection.mkEvent (conn s) o []) →
  ∃ c' calls, TcpConnection.run_op o (conn s) = Done (c', calls) ∧
    core (after_calls calls (mk c' true (holders s) (pcs s) q (timers s) (gone s) (log s ++ lg) (handed s))).
Proof.
  intros Hc Hsv Hq Hqs Hl He Hf Ht Hlg. pose proof (core_conn _ Hc) as Hk. rewrite Hsv in Hk.
  destruct Hk as (Hu & Hi & _).
  destruct (run_op_ok o (conn s) Hi He) as (c' & calls & Hr & [Hi' Hst _ _ _]).
  exists c', calls. split; [done|]. apply core_up_step; try done.
  - by rewrite Hf.
  - by eapply run_op_not_connected.
  - by rewrite Hlg.
  - destruct (run_op_kept_or_closed o _ _ _ Hl Hr) as [[_ Hup [_ Hno]]|(_ & -> & Hd)]; [left|right]; auto.
Qed.

(** [sendInLoop] on a connection that is up, the write side shut or not. *)
Lemma sendInLoop_up data r c :
  inv c → is_up c → TcpConnection.write_ok (szof data) r →
  Buffer.fits (szof data) (TcpConnection.outputBuffer_ c) →
  (write_shut (TcpConnection.socket_ c) = true → r = WriteError EPIPE) →
  ∃ c' calls, TcpConnection.sendInLoop data r c = Done (c', calls) ∧ inv c' ∧ quiet calls ∧
    TcpConnection.state_ c' = TcpConnection.state_ c ∧
    accepted (TcpConnection.socket_ c') ++ pending c' =
      (accepted (TcpConnection.socket_ c) ++ pending c) ++ taken_up data r c.
Proof.
  intros Hi Hu Hr Hf Hp. destruct (write_shut (TcpConnection.socket_ c)) eqn:Esh.
  2: { destruct (sendInLoop_ok data r c) as (c' & calls & ? & ? & ? & ? & _ & ?); try done. by exists c', calls. }
  rewrite Hp by done. destruct (inv_shut _ Hi Esh) as [Hnil _].
  assert (Hw : Channel.isWriting (TcpConnection.channel_ c) = false).
  { rewrite (inv_up _ Hi Hu). by rewrite bool_decide_false; [|intros ?]. }
  assert (Hz : (Buffer.readableBytes (TcpConnection.outputBuffer_ c) =? 0) = true).
  { rewrite readable_nil by apply Hi. by apply bool_decide_eq_true. }
  exists c, []. unfold TcpConnection.sendInLoop, taken_up. rewrite Hw, Hz.
  rewrite decide_False by by destruct Hu as [-> | ->].
  cbn. rewrite Z.leb_refl. cbn. rewrite wrote_nil. unfold wrote. rewrite !app_nil_r.
  split_and!; [by destruct c as [? ? ? [] ? ? ? ? ? ?]|done|constructor|done|done].
Qed.

Lemma taken_up_all data r c : taken_up data r c = [] ∨ taken_up data r c = data.
Proof. unfold taken_up. repeat case_match; auto. Qed.

(** [s] with the first functor of its queue taken out. *)
Lemma popped s f q :
  queue s = f :: q → q `sublist_of` queue s ∧ Forall (λ f, f ∈ queue s ∨ harmless f) q.
Proof.
  intros Hq. rewrite Hq. split; [by apply sublist_cons|].
  apply Forall_forall. intros g Hg. left. by right.
Qed.

Lemma run_send_ok t data q r s :
  ok s → gone s = false → queue s = SendInLoop t data :: q → disciplined (RunFunctor r) s →
  ∃ s', run_functor (SendInLoop t data) r (set_queue q s) = Done s' ∧ core s' ∧ gone s' = false.
Proof.
  intros [Hc _] Hg Hq Hd. cbn [disciplined] in Hd. rewrite Hq in Hd. destruct Hd as (Hl & Hr & Hf & Hp).
  destruct (popped _ _ _ Hq) as [Hsub Hold].
  unfold run_functor, touch. change (gone (set_queue q s)) with (gone s). rewrite Hg.
  change (conn (set_queue q s)) with (conn s). rewrite bind_ret_l, sendInLoop_string by done.
  pose proof (core_conn _ Hc) as Hk. destruct (server s) eqn:Hsv.
  - destruct Hk as (Hu & Hi & _).
    destruct (sendInLoop_up data r _ Hi Hu Hr Hf Hp) as (c' & calls & -> & Hi' & Hqt & Hst & Hs).
    rewrite bind_ret_l. eexists. split; [done|]. split.
    + unfold note_sent. rewrite decide_False by by destruct Hu as [-> | ->].
      destruct s as [c0 sv0 h0 p0 q0 n0 g0 l0 hd0]. cbn in *. subst sv0.
      apply (core_up_step (mk c0 true h0 p0 q0 n0 g0 l0 hd0) c' calls q
               [mkSent (Some t) data (taken_up data r c0)]); try done.
      * cbn. by rewrite Hq.
      * constructor; [|done]. apply taken_up_all.
      * by rewrite Hst.
      * cbn. by rewrite app_nil_r.
      * left. split; [|by apply quiet_no_close]. unfold is_up. by rewrite Hst.
    + destruct (after_kept calls (note_sent (Some t) data r (conn s) (set_conn c' (set_queue q s))))
        as (l & n & -> & _); [by apply quiet_no_close|done].
  - unfold TcpConnection.sendInLoop, note_sent. rewrite !decide_True by apply Hk. rewrite bind_ret_l.
    eexists. split; [done|]. split; [|done].
    apply (core_next s _ _ _ _ _ [mkSent (Some t) data []]); try done.
    + cbn. rewrite Hsv. destruct Hk as (? & ? & Hin). split; [done|]. split; [done|]. rewrite Hq in Hin.
      destruct Hin as [Hin|?]; [|by right]. apply elem_of_cons in Hin as [?|?]; [done|by left].
    + cbn. by rewrite !app_nil_r.
    + cbn. by rewrite Hq.
    + constructor; [by left|done].
Qed.

(** The same when nothing was sent. *)
Lemma core_same s c b q n g :
  core s → conn_ok c b q →
  (TcpConnection.state_ (conn s) ≠ kConnected → TcpConnection.state_ c ≠ kConnected) →
  accepted (TcpConnection.socket_ c) = accepted (TcpConnection.socket_ (conn s)) → pending c = pending (conn s) →
  Forall (λ f, f ∈ queue s ∨ harmless f) q → queued_sends q = queued_sends (queue s) →
  core (mk c b (holders s) (pcs s) q n g (log s) (handed s)).
Proof.
  intros Hc Hk Hst Ha Hp Hq Hs. rewrite <-(app_nil_r (log s)). apply core_next; try done.
  by rewrite Ha, Hp, app_nil_r.
Qed.

Lemma conn_ok_pop c b f q : conn_ok c b (f :: q) → f ≠ ConnectDestroyed → conn_ok c b q.
Proof. unfold conn_ok. intros Hk Hf. destruct b; set_solver. Qed.
Lemma queued_sends_pop s f q :
  queue s = f :: q → queued_sends [f] = [] → queued_sends q = queued_sends (queue s).
Proof. intros -> Hf. change (f :: q) with ([f] ++ q). by rewrite queued_sends_app, Hf. Qed.

(** A functor that leaves what the others see of the connection. *)
Lemma functor_popped s c f q n :
  core s → queue s = f :: q → queued_sends [f] = [] → f ≠ ConnectDestroyed →
  conn_ok c (server s) (f :: q) → TcpConnection.state_ c = TcpConnection.state_ (conn s) →
  accepted (TcpConnection.socket_ c) = accepted (TcpConnection.socket_ (conn s)) →
  pending c = pending (conn s) → core (set_timers n (set_conn c (set_queue q s))).
Proof.
  intros Hc Hq Hs Hf Hk Hst Ha Hp. apply (core_same s); try done.
  - by eapply conn_ok_pop.
  - cbn. by rewrite Hst.
  - apply (popped _ _ _ Hq).
  - by apply (queued_sends_pop _ f).
Qed.

Lemma gone_after ks s : gone (after_calls ks s) = gone s.
Proof.
  unfold after_calls. revert s. induction ks as [|k ks IH]; intros s; [done|]. cbn [fold_left].
  rewrite IH. by destruct k.
Qed.

Lemma run_shutdown_ok t q r s :
  ok s → gone s = false → queue s = ShutdownInLoop t :: q →
  ∃ s', run_functor (ShutdownInLoop t) r (set_queue q s) = Done s' ∧ core s' ∧ gone s' = false.
Proof.
  intros [Hc _] Hg Hq. unfold run_functor, touch. change (gone (set_queue q s)) with (gone s). rewrite Hg, bind_ret_l.
  eexists. split; [done|]. split; [|done]. change (conn (set_queue q s)) with (conn s).
  pose proof (core_conn _ Hc) as Hk. destruct (server s) eqn:Hsv.
  - destruct Hk as (Hu & Hi & Hno).
    assert (TcpConnection.state_ (conn s) = kDisconnecting) as Hst.
    { pose proof (core_queue _ Hc) as HF. rewrite Hq in HF. apply Forall_cons in HF as [[_ Hn] _].
      by destruct Hu. }
    destruct (shutdownInLoop_ok (conn s)) as (Hi' & Hst' & Hp & Ha); [done|].
    apply (functor_popped s (TcpConnection.shutdownInLoop (conn s)) (ShutdownInLoop t) q (timers s)); try done; [|congruence].
    rewrite Hsv. split; [by right|]. split; [done|]. by rewrite <-Hq.
  - destruct Hk as (Hd & He & Hin).
    apply (functor_popped s (TcpConnection.shutdownInLoop (conn s)) (ShutdownInLoop t) q (timers s)); try done; rewrite ?Hsv, <-?Hq.
    all: unfold TcpConnection.shutdownInLoop; by case_match.
Qed.

Lemma run_forceClose_ok q r s :
  ok s → gone s = false → queue s = ForceCloseInLoop :: q →
  ∃ s', run_functor ForceCloseInLoop r (set_queue q s) = Done s' ∧ core s' ∧ gone s' = false.
Proof.
  intros [Hc _] Hg Hq. unfold run_functor, touch. change (gone (set_queue q s)) with (gone s). rewrite Hg, bind_ret_l.
  change (conn (set_queue q s)) with (conn s). destruct (server s) eqn:Hsv.
  - destruct (op_core TcpConnection.RunForceClose s q [] Hc Hsv) as (c & calls & Hr & Hcore); try done.
    { apply (popped _ _ _ Hq). }
    { by rewrite Hq. }
    cbn [TcpConnection.run_op] in Hr. rewrite Hr, bind_ret_l. eexists. split; [done|]. split; [|by rewrite gone_after].
    rewrite app_nil_r in Hcore. unfold set_conn, set_queue. cbn. by rewrite Hsv.
  - pose proof (core_conn _ Hc) as Hk. rewrite Hsv in Hk. destruct Hk as (Hd & _).
    unfold TcpConnection.forceCloseInLoop. rewrite decide_False by (rewrite Hd; by intros [|]).
    eexists. split; [done|]. split; [|done].
    apply (functor_popped s (conn s) ForceCloseInLoop q (timers s)); try done. rewrite <-Hq. apply Hc.
Qed.

Lemma run_destroyed_ok q r s :
  ok s → gone s = false → queue s = ConnectDestroyed :: q →
  ∃ s', run_functor ConnectDestroyed r (set_queue q s) = Done s' ∧ core s' ∧ gone s' = false.
Proof.
  intros [Hc _] Hg Hq. unfold run_functor, touch. change (gone (set_queue q s)) with (gone s). rewrite Hg, bind_ret_l.
  change (conn (set_queue q s)) with (conn s). pose proof (core_conn _ Hc) as Hk. destruct (server s) eqn:Hsv.
  { destruct Hk as (_ & _ & Hno). rewrite Hq in Hno. set_solver. }
  destruct Hk as (Hd & He & _). unfold TcpConnection.connectDestroyed. rewrite decide_False by by rewrite Hd.
  unfold Channel.remove, Channel.isNoneEvent. rewrite He. cbn [Z.eqb Channel.kNoneEvent cassert mbind outcome_bind].
  eexists. split; [done|]. split; [|done]. destruct (popped _ _ _ Hq) as [_ Hold].
  unfold set_conn, set_queue. cbn. rewrite Hsv. apply (core_same s); try done.
  - split; [done|]. split; [done|]. by right.
  - by apply (queued_sends_pop _ ConnectDestroyed).
Qed.

(** A functor the queue has been left with finds the object alive. *)
Lemma functor_alive s f q :
  ok s → queue s = f :: q → f ≠ AddTimer → gone s = false.
Proof.
  intros [Hc Hg] Hq Hf. rewrite Hg. unfold referenced. pose proof (core_queue _ Hc) as HF.
  rewrite Hq in HF. apply Forall_cons in HF as [HF _].
  assert (Hh : ∀ t, t ∈ holders s → bool_decide (holders s = ∅) = false).
  { intros t Ht. apply bool_decide_eq_false. set_solver. }
  rewrite Hq. destruct f; cbn in HF |- *; try done; rewrite ?orb_true_r; try done.
  - by rewrite (Hh _ HF), orb_true_r.
  - destruct HF as [HF _]. by rewrite (Hh _ HF), orb_true_r.
Qed.

Lemma run_functor_ok f q r s :
  ok s → queue s = f :: q → disciplined (RunFunctor r) s →
  ∃ s', run_functor f r (set_queue q s) = Done s' ∧ core s' ∧ (gone s' = true → referenced s' = false).
Proof.
  intros Ho Hq Hd. destruct (decide (f = AddTimer)) as [->|Hf].
  - destruct Ho as [Hc Hg]. eexists. split; [done|]. split.
    + apply (functor_popped s (conn s) AddTimer q (S (timers s))); try done. rewrite <-Hq. apply Hc.
    + cbn. rewrite Hg. unfold referenced. cbn. rewrite Hq. cbn. by destruct (_ || existsb _ _).
  - pose proof (functor_alive _ _ _ Ho Hq Hf) as Hg.
    assert (Hdone : (∃ s', run_functor f r (set_queue q s) = Done s' ∧ core s' ∧ gone s' = false) →
      ∃ s', run_functor f r (set_queue q s) = Done s' ∧ core s' ∧ (gone s' = true → referenced s' = false)).
    { intros (s' & ? & ? & Hg'). exists s'. split_and!; [done..|]. by rewrite Hg'. }
    apply Hdone. destruct f; try done.
    + by apply run_send_ok.
    + by apply run_shutdown_ok.
    + destruct Ho as [Hc _]. pose proof (core_queue _ Hc) as HF. rewrite Hq in HF. by apply Forall_cons in HF as [? _].
    + destruct Ho as [Hc _]. pose proof (core_queue _ Hc) as HF. rewrite Hq in HF. by apply Forall_cons in HF as [? _].
    + by apply run_forceClose_ok.
    + by apply run_destroyed_ok.
    + exists (set_queue q s). split; [done|]. split; [|done]. destruct Ho as [Hc _].
      apply (functor_popped s (conn s) Callback q (timers s)); try done. rewrite <-Hq. apply Hc.
Qed.

(** More holders, or fewer of those that are idle. *)
Lemma core_holders h s :
  core s →
  map_Forall (pc_ok h (TcpConnection.state_ (conn s))) (pcs s) →
  Forall (functor_ok h (TcpConnection.state_ (conn s))) (queue s) → core (set_holders h s).
Proof. intros [] Hp Hq. by split. Qed.

Lemma held s tid : ok s → tid ∈ holders s → gone s = false.
Proof.
  intros [_ ->] Ht. unfold referenced. rewrite bool_decide_false by set_solver. by rewrite orb_true_r.
Qed.
Lemma served s : ok s → server s = true → gone s = false.
Proof. intros [_ ->] Hs. unfold referenced. by rewrite Hs. Qed.
Lemma up_served s : core s → is_up (conn s) → server s = true ∧ inv (conn s) ∧ ConnectDestroyed ∉ queue s.
Proof.
  intros Hc Hu. pose proof (core_conn _ Hc) as Hk. destruct (server s); [by destruct Hk|].
  destruct Hk as [Hd _]. destruct Hu; congruence.
Qed.

(** A step that leaves the object held. *)
Lemma still_held s tid : core s → gone s = false → tid ∈ holders s → ok s.
Proof.
  intros Hc Hg Ht. split; [done|]. rewrite Hg. unfold referenced.
  rewrite bool_decide_false by set_solver. by rewrite orb_true_r.
Qed.

Lemma share_ok tid s :
  ok s → disciplined (Share tid) s → ∃ s', run (Share tid) s = Done s' ∧ ok s'.
Proof.
  intros Ho Hd. cbn in Hd. cbn [run]. unfold touch. rewrite (served _ Ho Hd), bind_ret_l.
  eexists. split; [done|]. apply (still_held _ tid); [|by apply (served s)|cbn; set_solver].
  destruct Ho as [Hc _]. apply core_holders; [done|..]; pose proof Hc as [].
  - intros t p Hp. destruct (core_pcs0 t p Hp) as [? ?]. split; [set_solver|done].
  - eapply Forall_impl; [done|]. intros f. destruct f; cbn; set_solver.
Qed.

Lemma release_ok tid s :
  ok s → disciplined (Release tid) s → ∃ s', run (Release tid) s = Done s' ∧ ok s'.
Proof.
  intros [Hc Hg] [Hp Hq]. cbn [run]. apply collect_ok.
  - apply core_holders; [done|..]; pose proof Hc as [].
    + intros t p Ht. destruct (core_pcs0 t p Ht) as [? ?]. split; [|done].
      apply elem_of_difference. split; [done|]. intros ->%elem_of_singleton. congruence.
    + apply Forall_forall. intros f Hin. pose proof (proj1 (Forall_forall _ _) core_queue0 f Hin) as Hf.
      pose proof (proj1 (Forall_forall _ _) Hq f Hin) as Hr. destruct f; cbn in *; set_solver.
  - cbn. rewrite Hg. unfold referenced. cbn. destruct (server s); [done|]. cbn.
    destruct (existsb shared (queue s)); [by rewrite orb_true_r|]. rewrite !orb_false_r.
    rewrite negb_involutive. intros He%bool_decide_eq_true. rewrite He. by rewrite bool_decide_true by set_solver.
Qed.

Lemma begin_ok tid u s :
  ok s → disciplined (Begin tid u) s → ∃ s', run (Begin tid u) s = Done s' ∧ ok s'.
Proof.
  intros Ho (Ht & Hp & Hu1 & Hu2). cbn [run]. unfold touch. rewrite (held _ _ Ho Ht), bind_ret_l.
  eexists. split; [done|]. destruct (passes u (conn s)); [|done].
  apply (still_held _ tid); [|by apply (held s tid)|done].
  destruct Ho as [[] _]. split; cbn; try done. apply map_Forall_insert_2; [done|done].
Qed.

Lemma store_ok tid s :
  ok s → disciplined (Store tid) s → ∃ s', run (Store tid) s = Done s' ∧ ok s'.
Proof.
  intros Ho (u & Hp & Hs & Hup). cbn [run]. rewrite Hp. pose proof Ho as [Hc _].
  destruct (core_pcs _ Hc tid _ Hp) as [Ht _]. unfold touch. rewrite (held _ _ Ho Ht), bind_ret_l.
  eexists. split; [done|]. apply (still_held _ tid); [|by apply (held s tid)|done].
  destruct (up_served _ Hc Hup) as (Hsv & Hi & Hno). destruct Hc. split; cbn; try done.
  - rewrite Hsv. split; [by right|]. split; [by apply inv_disconnecting|done].
  - apply map_Forall_insert_2; [done|]. eapply pcs_ok_mono; [|done]. done.
  - eapply Forall_impl; [done|]. intros f. apply functor_ok_mono. done.
Qed.

Lemma queue_ok tid s :
  ok s → disciplined (Queue tid) s → ∃ s', run (Queue tid) s = Done s' ∧ ok s'.
Proof.
  intros Ho (u & Hu). pose proof Ho as [Hc _].
  assert (∃ p, pcs s !! tid = Some p ∧ (p = Tested u ∧ stores u = false ∨ p = Stored u)) as (p & Hp & Hcase)
    by (destruct Hu as [[? ?]| ?]; eauto).
  destruct (core_pcs _ Hc tid p Hp) as [Ht Hpc]. pose proof (held _ _ Ho Ht) as Hg.
  set (s' := set_pcs (delete tid (pcs s)) (enqueue [functor_of tid u] s)).
  set (s'' := match u with USend data => add_handed [(tid, data)] s' | _ => s' end).
  assert (Hrun : run (Queue tid) s = Done s'').
  { cbn [run]. rewrite Hp. unfold touch. rewrite Hg. by destruct Hcase as [[-> _]| ->]. }
  rewrite Hrun. exists s''. split; [done|].
  apply (still_held _ tid); [|by destruct u|by destruct u].
  assert (Hf : functor_ok (holders s) (TcpConnection.state_ (conn s)) (functor_of tid u)).
  { destruct Hcase as [[-> Hst]| ->]; cbn in Hpc; [destruct u; try done; naive_solver|].
    destruct Hpc. by destruct u. }
  assert (Hnd : functor_of tid u ≠ ConnectDestroyed) by by destruct u.
  destruct Hc as [Hk Hps Hqs Hst Hff Htk].
  assert (Hconn : conn_ok (conn s) (server s) (queue s ++ [functor_of tid u])).
  { unfold conn_ok in *. destruct (server s); [|set_solver]. split; [apply Hk|]. split; [apply Hk|]. set_solver. }
  assert (Hpcs : map_Forall (pc_ok (holders s) (TcpConnection.state_ (conn s))) (delete tid (pcs s))).
  { by apply map_Forall_delete. }
  assert (Hqu : Forall (functor_ok (holders s) (TcpConnection.state_ (conn s))) (queue s ++ [functor_of tid u])).
  { apply Forall_app. split; [done|]. by constructor. }
  destruct u; split; try done; cbn -[from_threads queued_sends];
    rewrite queued_sends_app, app_assoc, Hff; done || by rewrite app_nil_r.
Qed.

Lemma inloop_ok o s :
  ok s → disciplined (InLoop o) s → ∃ s', run (InLoop o) s = Done s' ∧ ok s'.
Proof.
  intros Ho (Hl & Hup & He). pose proof Ho as [Hc _]. destruct (up_served _ Hc Hup) as (Hsv & Hi & _).
  pose proof (served _ Ho Hsv) as Hg. cbn [run]. unfold touch. rewrite Hg, bind_ret_l.
  set (lg := match o with
             | TcpConnection.Send data r =>
                 if decide (TcpConnection.state_ (conn s) = kConnected)
                 then [mkSent None data (taken_up data r (conn s))] else []
             | _ => []
             end).
  destruct (op_core o s (queue s) lg) as (c' & calls & Hr & Hcore); try done.
  - unfold lg. destruct o; try done. by case_decide.
  - unfold lg. destruct o; try constructor. case_decide; constructor; [apply taken_up_all|constructor].
  - unfold lg. destruct o; try done. unfold TcpConnection.taken. cbn. case_decide; [|done].
    cbn. by rewrite app_nil_r.
  - rewrite Hr, bind_ret_l. apply collect_ok; [|rewrite gone_after; by destruct o; try case_decide; cbn; rewrite Hg].
    assert (Heq : match o with
                  | TcpConnection.Send data r =>
                      if decide (TcpConnection.state_ (conn s) = kConnected)
                      then note_sent None data r (conn s) (set_conn c' s) else set_conn c' s
                  | _ => set_conn c' s
                  end = mk c' true (holders s) (pcs s) (queue s) (timers s) (gone s) (log s ++ lg) (handed s)).
    { unfold note_sent, add_log, set_conn, lg. cbn. rewrite Hsv.
      destruct o; rewrite ?app_nil_r; try done. case_decide as Hc1; [|by rewrite app_nil_r].
      by rewrite decide_False by by rewrite Hc1. }
    by rewrite Heq.
Qed.

Lemma timer_ok s :
  ok s → disciplined FireTimer s → ∃ s', run FireTimer s = Done s' ∧ ok s'.
Proof.
  intros Ho _. cbn [run]. change (gone (set_timers _ s)) with (gone s). destruct (gone s) eqn:Hg.
  { eexists. split; [done|]. destruct Ho as [[] Hr]. split; [by split|]. cbn. by rewrite Hg in Hr |- *. }
  destruct Ho as [Hc Hr]. change (conn (set_timers _ s)) with (conn s).
  destruct (TcpConnection.forceClose (conn s)) as [c calls] eqn:Ef.
  apply collect_ok; [|rewrite gone_after; cbn; by rewrite Hg].
  pose proof (core_conn _ Hc) as Hk. destruct (server s) eqn:Hsv.
  - set (s1 := set_timers (timers s - 1) s).
    assert (Hc1 : core s1) by by destruct Hc; split.
    destruct (op_core TcpConnection.ForceClose s1 (queue s) [] Hc1) as (c' & calls' & Hrun & Hcore); try done.
    cbn [TcpConnection.run_op] in Hrun. change (conn s1) with (conn s) in Hrun. rewrite Ef in Hrun. injection Hrun as <- <-.
    rewrite app_nil_r in Hcore. unfold set_conn. cbn. by rewrite Hsv.
  - destruct Hk as (Hd & He & Hin). unfold TcpConnection.forceClose in Ef.
    rewrite decide_False in Ef by (rewrite Hd; by intros [|]). injection Ef as <- <-.
    by destruct Hc; split.
Qed.

Lemma run_ok a s : ok s → disciplined a s → ∃ s', run a s = Done s' ∧ ok s'.
Proof.
  intros Ho Hd. destruct a as [tid|tid|tid u|tid|tid|o|r|].
  - by apply share_ok.
  - by apply release_ok.
  - by apply begin_ok.
  - by apply store_ok.
  - by apply queue_ok.
  - by apply inloop_ok.
  - cbn [run]. destruct (queue s) as [|f q] eqn:Hq; [cbn in Hd; by rewrite Hq in Hd|].
    destruct (run_functor_ok f q r s) as (s' & -> & Hc & Hg); try done. rewrite bind_ret_l. by apply collect_ok.
  - by apply timer_ok.
Qed.

(** The connection the server has just established. *)
Lemma start_ok name c calls :
  TcpConnection.connectEstablished (TcpConnection.make name) = Done (c, calls) → ok (start c).
Proof.
  intros He. destruct (connectEstablished_ok (TcpConnection.make name)) as (c' & calls' & He' & [Hi Hst _ _ _]);
    [apply inv_make|done|]. rewrite He in He'. injection He' as <- <-.
  unfold TcpConnection.connectEstablished in He. cbn in He. injection He as <- <-.
  split; [|done]. split; try done.
  split; [by left|]. split; [done|set_solver].
Qed.

Lemma reachable_ok name c calls s :
  TcpConnection.connectEstablished (TcpConnection.make name) = Done (c, calls) → reachable c s → ok s.
Proof.
  intros He Hr. induction Hr as [|s a s' _ IH Hd Hrun]; [by eapply start_ok|].
  destruct (run_ok a s IH Hd) as (s2 & Hrun2 & Ho). congruence.
Qed.

#[export] Instance disciplined_dec a s : Decision (disciplined a s).
Proof.
  destruct a as [tid|tid|tid u|tid|tid|o|r|]; cbn; try apply _.
  - destruct (pcs s !! tid) as [[u|u]|]; try (right; naive_solver).
    destruct (decide (stores u = true ∧ is_up (conn s))) as [[? ?]|Hn]; [left; by exists u|right].
    intros (u' & [= <-] & ? & ?). by apply Hn.
  - destruct (pcs s !! tid) as [[u|u]|]; [|left; exists u; by right|right; naive_solver].
    destruct (decide (stores u = false)); [left; exists u; by left|right; naive_solver].
  - destruct (queue s) as [|[]]; apply _.
Defined.

(** A list of actions, run while the discipline is kept; and run anyhow. *)
Fixpoint run_disciplined (l : list action) (s : t) : t :=
  match l with
  | [] => s
  | a :: l =>
      if decide (disciplined a s) then
        match run a s with Done s => run_disciplined l s | Fault _ => s end
      else s
  end.
Fixpoint run_all (l : list action) (s : t) : outcome t :=
  match l with [] => Done s | a :: l => s ← run a s; run_all l s end.

Lemma run_disciplined_reachable l c s : reachable c s → reachable c (run_disciplined l s).
Proof.
  revert s. induction l as [|a l IH]; intros s Hs; [done|]. cbn [run_disciplined].
  case_decide; [|done]. destruct (run a s) eqn:E; [|done]. apply IH. by eapply reach_step.
Qed.

(** Thread 1 tests [state_] before the peer closes the connection and goes on
    after; thread 2 sends, with a partial write, and both let go. *)
Definition established : TcpConnection.t :=
  default (TcpConnection.make []) (match TcpConnection.connectEstablished (TcpConnection.make (bs "c")) with
                                   | Done (c, _) => Some c | Fault _ => None end).
Definition peer_closes : action := InLoop (TcpConnection.Readable (Buffer.ReadBytes [])).
Definition sample : t :=
  run_disciplined
    [Share 1; Share 2; Begin 2 (USend (bs "hello")); Begin 1 UShutdown; Queue 2;
     InLoop (TcpConnection.Send (bs "ab") (Wrote 1)); RunFunctor (Wrote 0); Store 1; Queue 1;
     InLoop (TcpConnection.Writable (Wrote 6)); RunFunctor (Wrote 0); Begin 2 UForceClose; Store 2; Queue 2;
     RunFunctor (Wrote 0); Release 1; RunFunctor (Wrote 0)] (start established).
Lemma sample_reachable : reachable established sample.
Proof. apply run_disciplined_reachable. constructor. Qed.

(** * Properties *)

(** C34. A connection used from any number of threads, their calls interleaved
    step by step with each other and with the loop: under the discipline, no
    step reaches a failed assertion or a destroyed object; the socket's bytes
    followed by the pending ones are the data taken by the sends in the order
    the loop ran them, each taken whole or, once the connection or the peer is
    gone, not at all; the sends queued by threads run in the order they were
    queued, none lost or run twice; and the object is destroyed exactly when
    nobody holds it. *)
Theorem threads_share_connection name c calls s a :
  TcpConnection.connectEstablished (TcpConnection.make name) = Done (c, calls) →
  reachable c s → disciplined a s →
  (∃ s', run a s = Done s') ∧
  accepted (TcpConnection.socket_ (conn s)) ++ pending (conn s) = concat (map took (log s)) ∧
  Forall took_ok (log s) ∧
  from_threads (log s) ++ queued_sends (queue s) = handed s ∧
  gone s = negb (referenced s).
Proof.
  intros He Hr Hd. pose proof (reachable_ok _ _ _ _ He Hr) as Ho.
  destruct (run_ok a s Ho Hd) as (s' & Hrun & _), Ho as [[] Hg]. split_and!; try done. by exists s'.
Qed.

Lemma threads_share_connection_witness :
  accepted (TcpConnection.socket_ (conn sample)) = bs "abhello" ∧ gone sample = false ∧
  ∃ s', run (Release 2) sample = Done s'.
Proof.
  split; [vm_compute; reflexivity|]. split; [vm_compute; reflexivity|].
  apply (threads_share_connection (bs "c") established [ConnectionCallback] sample (Release 2));
    [reflexivity|exact sample_reachable|].
  apply (bool_decide_unpack _). vm_compute. reflexivity.
Defined.

Example sample_ends : from_option gone false (match run (Release 2) sample with Done s => Some s | _ => None end) = true.
Proof. vm_compute. reflexivity. Qed.

(** Without the discipline each of its clauses is needed. *)

(** [shutdown]: the connection closes between the test and the assignment of
    [state_]; it ends as [kDisconnecting], and the destructor's assertion
    fails. *)
Example shutdown_race :
  run_all [Share 1; Begin 1 UShutdown; peer_closes; RunFunctor (Wrote 0); Store 1; Queue 1;
           RunFunctor (Wrote 0); Release 1] (start established) =
  Fault (AssertFailed "state_ == kDisconnected").
Proof. vm_compute. reflexivity. Qed.

(** [startRead] queued while the connection is up and run once it is closed:
    the channel is watched again, and [connectDestroyed] fails. *)
Example start_read_late :
  run_all [Share 1; InLoop TcpConnection.ForceClose; Begin 1 UStartRead; Queue 1;
           RunFunctor (Wrote 0); RunFunctor (Wrote 0); RunFunctor (Wrote 0)] (start established) =
  Fault (AssertFailed "isNoneEvent()").
Proof. vm_compute. reflexivity. Qed.

(** [stopRead] run once the channel has been removed puts it back in the loop,
    and the destructor of the channel fails. *)
Example stop_read_late :
  run_all [Share 1; peer_closes; Begin 1 UStopRead; Queue 1; RunFunctor (Wrote 0); RunFunctor (Wrote 0);
           Release 1] (start established) =
  Fault (AssertFailed "!addedToLoop_").
Proof. vm_compute. reflexivity. Qed.

(** [send] followed by dropping the pointer: the functor holds none, and finds
    the object destroyed. *)
Example pointer_dropped_early :
  run_all [Share 1; Begin 1 (USend (bs "x")); peer_closes; Queue 1; Release 1; RunFunctor (Wrote 0);
           RunFunctor (Wrote 0)] (start established) =
  Fault (Undefined "use of a destroyed connection").
Proof. vm_compute. reflexivity. Qed.

(** A send queued before the shutdown of another thread but run after it is
    lost. *)
Example send_after_shutdown :
  match run_all [Share 1; Share 2; Begin 1 (USend (bs "x")); Begin 2 UShutdown; Store 2; Queue 2; Queue 1;
           RunFunctor (Wrote 0); RunFunctor (WriteError EPIPE)] (start established) with
  | Done s => log s = [mkSent (Some 1) (bs "x") []]
  | Fault _ => False
  end.
Proof. vm_compute. reflexivity. Qed.

End ConnThreads.
