(* ===== verification/Sockets.v ===== *)
(** Addresses and accepting connections (src/IMServer/src/muduo/net: Socket.h/.cc,
    SocketsOps.cc, InetAddress.h/.cc, Acceptor.h/.cc).  An address is the bytes of
    the union of [sockaddr_in] and [sockaddr_in6]; its text forms come from the C
    library (class [AddressText]).  The acceptor runs over the descriptor table
    and the accept queue of the kernel (class [Kernel]). *)

From S2P Require Import Prelude CDouble Buffer TcpConnection.
Local Open Scope Z_scope.

(** * Addresses *)

Definition AF_INET : Z := 2.
Definition AF_INET6 : Z := 10.
(** The size of an address without its port. *)
Definition address_size (af : Z) : nat := if af =? AF_INET then 4 else 16.
Definition family_ok (af : Z) : Prop := af = AF_INET ∨ af = AF_INET6.

(** [inet_ntop] and [inet_pton]. *)
Class AddressText := { inet_ntop : Z → bytes → bytes; inet_pton : Z → bytes → option bytes }.

(** [a.b.c.d] *)
Definition dotted (l : bytes) : bytes :=
  match l with
  | [a; b; c; d] => decimal (ub a) ++ x2e :: decimal (ub b) ++ x2e :: decimal (ub c) ++ x2e :: decimal (ub d)
  | _ => []
  end.

(** What they are documented to do: version 4 in dotted decimal, version 6 with
    colons in at most 45 characters; text read is what was written. *)
Class AddressTextOk (T : AddressText) : Prop := {
  ntop_dotted l : length l = 4%nat → inet_ntop AF_INET l = dotted l;
  ntop6_short l : length l = 16%nat → szof (inet_ntop AF_INET6 l) ≤ 45;
  ntop6_text l : length l = 16%nat → x00 ∉ inet_ntop AF_INET6 l ∧ x3a ∈ inet_ntop AF_INET6 l;
  pton_size af t l : family_ok af → inet_pton af t = Some l → length l = address_size af;
  pton_ntop af l : family_ok af → length l = address_size af → inet_pton af (inet_ntop af l) = Some l
}.

Definition INET_ADDRSTRLEN : Z := 16.
Definition INET6_ADDRSTRLEN : Z := 46.

Module InetAddress.

(** The 28 bytes of the union. *)
Definition t := bytes.
Definition size : nat := 28.

(** [n] bytes at an offset, and storing bytes there. *)
Definition get (off n : nat) (a : t) : bytes := take n (drop off a).
Definition put (off : nat) (l : bytes) (a : t) : t := take off a ++ l ++ drop (off + length l) a.
Definition memZero (n : nat) (a : t) : t := put 0 (replicate n x00) a.

(** The fields of both structures, as the integers the host reads. *)
Definition family (a : t) : Z := le_value (get 0 2 a).
Definition portNetEndian (a : t) : Z := le_value (get 2 2 a).
Definition sin_addr (a : t) : bytes := get 4 4 a.
Definition sin6_flowinfo (a : t) : bytes := get 4 4 a.
Definition sin6_addr (a : t) : bytes := get 8 16 a.
Definition sin6_scope_id (a : t) : Z := le_value (get 24 4 a).
Definition set_family (f : Z) : t → t := put 0 (le_bytes 2 f).
Definition set_port (p : Z) : t → t := put 2 (le_bytes 2 p).
Definition set_sin_addr (l : bytes) : t → t := put 4 l.
Definition set_sin6_addr (l : bytes) : t → t := put 8 l.

Definition in6addr_any : bytes := replicate 16 x00.
Definition in6addr_loopback : bytes := replicate 15 x00 ++ [x01].
Definition kInaddrAny : Z := 0.
Definition kInaddrLoopback : Z := 2130706433.

(** [InetAddress( portArg, loopbackOnly, ipv6 )]; [a] is the memory of the
    object before. *)
Definition of_port (portArg : Z) (loopbackOnly ipv6 : bool) (a : t) : t :=
  if ipv6 then
    let a := set_family AF_INET6 (memZero 28 a) in
    let a := set_sin6_addr (if loopbackOnly then in6addr_loopback else in6addr_any) a in
    set_port (hostToNetwork16 portArg) a
  else
    let a := set_family AF_INET (memZero 16 a) in
    let ip := if loopbackOnly then kInaddrLoopback else kInaddrAny in
    let a := set_sin_addr (le_bytes 4 (hostToNetwork32 ip)) a in
    set_port (hostToNetwork16 portArg) a.

(** [getSockAddr], [setSockAddrInet6], [InetAddress( sockaddr_in6 )] *)
Definition setSockAddrInet6 (addr6 : bytes) (a : t) : t := addr6.

(** [setScopeId( scope_id )] *)
Definition setScopeId (scope_id : Z) (a : t) : t :=
  if family a =? AF_INET6 then put 24 (le_bytes 4 scope_id) a else a.

(** [port()], [ipv4NetEndian()] *)
Definition port (a : t) : Z := networkToHost16 (portNetEndian a).
Definition ipv4NetEndian (a : t) : outcome Z :=
  _ ← cassert (family a =? AF_INET) "family() == AF_INET"; Done (le_value (sin_addr a)).

(** [resolve( hostname, out )]: [he] is what [gethostbyname_r] finds, its address
    type, length and first address. *)
Definition resolve (he : option (Z * Z * bytes)) (out : t) : outcome (bool * t) :=
  match he with
  | Some (h_addrtype, h_length, h_addr) =>
      _ ← cassert ((h_addrtype =? AF_INET) && (h_length =? 4)) "he->h_addrtype == AF_INET && he->h_length == sizeof(uint32_t)";
      Done (true, set_sin_addr (take 4 h_addr) out)
  | None => Done (false, out)
  end.

(** [sockets::isSelfConnect]: the local and the peer address. *)
Definition isSelfConnect (localaddr peeraddr : t) : bool :=
  if family localaddr =? AF_INET then
    (portNetEndian localaddr =? portNetEndian peeraddr)
    && (le_value (sin_addr localaddr) =? le_value (sin_addr peeraddr))
  else if family localaddr =? AF_INET6 then
    (portNetEndian localaddr =? portNetEndian peeraddr)
    && bool_decide (sin6_addr localaddr = sin6_addr peeraddr)
  else false.

Section Text.
Context `{AddressText}.

(** [sockets::fromIpPort] for both families: an address that cannot be read is
    only logged. *)
Definition fromIpPort4 (ip : bytes) (port : Z) (addr : t) : t :=
  let addr := set_port (hostToNetwork16 port) (set_family AF_INET addr) in
  match inet_pton AF_INET ip with Some l => set_sin_addr l addr | None => addr end.
Definition fromIpPort6 (ip : bytes) (port : Z) (addr : t) : t :=
  let addr := set_port (hostToNetwork16 port) (set_family AF_INET6 addr) in
  match inet_pton AF_INET6 ip with Some l => set_sin6_addr l addr | None => addr end.

(** [InetAddress( ip, portArg, ipv6 )] *)
Definition of_ip (ip : bytes) (portArg : Z) (ipv6 : bool) (a : t) : t :=
  let ip := c_str ip in
  if ipv6 || bool_decide (x3a ∈ ip) then fromIpPort6 ip portArg (memZero 28 a)
  else fromIpPort4 ip portArg (memZero 16 a).

(** [sockets::toIp] into a buffer of [size] bytes that holds an empty string. *)
Definition toIp_buf (size : Z) (a : t) : outcome bytes :=
  if family a =? AF_INET then
    _ ← cassert (INET_ADDRSTRLEN <=? size) "size >= INET_ADDRSTRLEN";
    Done (inet_ntop AF_INET (sin_addr a))
  else if family a =? AF_INET6 then
    _ ← cassert (INET6_ADDRSTRLEN <=? size) "size >= INET6_ADDRSTRLEN";
    Done (inet_ntop AF_INET6 (sin6_addr a))
  else Done [].

(** [snprintf( buf + end, size - end, .. )] *)
Definition print_at (size : Z) (buf text : bytes) : bytes :=
  buf ++ take (Z.to_nat (size - szof buf - 1)) text.

(** [sockets::toIpPort] *)
Definition toIpPort_buf (size : Z) (a : t) : outcome bytes :=
  if family a =? AF_INET6 then
    text ← toIp_buf (size - 1) a;
    let buf := x5b :: text in
    _ ← cassert (szof buf <? size) "size > end";
    Done (print_at size buf (bs "]:" ++ decimal (networkToHost16 (portNetEndian a))))
  else
    buf ← toIp_buf size a;
    _ ← cassert (szof buf <? size) "size > end";
    Done (print_at size buf (bs ":" ++ decimal (networkToHost16 (portNetEndian a)))).

(** [toIp()], [toIpPort()] *)
Definition toIp (a : t) : outcome bytes := toIp_buf 64 a.
Definition toIpPort (a : t) : outcome bytes := toIpPort_buf 64 a.

End Text.

(** ** The bytes of an address *)

Lemma put_length off l a : (off + length l ≤ length a)%nat → length (put off l a) = length a.
Proof. intros Hl. unfold put. rewrite !length_app, length_take, length_drop. lia. Qed.
Lemma get_put off n l a : length l = n → (off ≤ length a)%nat → get off n (put off l a) = l.
Proof.
  intros <- Ho. unfold get, put. rewrite drop_app_length' by (rewrite length_take; lia). by rewrite take_app_length.
Qed.
Lemma get_put_before off n off' l a :
  (off + n ≤ off')%nat → (off' ≤ length a)%nat → get off n (put off' l a) = get off n a.
Proof.
  intros Ho Hl. unfold get, put. rewrite drop_app_le by (rewrite length_take; lia).
  rewrite take_app_le by (rewrite length_drop, length_take; lia).
  rewrite skipn_firstn_comm, take_take. f_equal. lia.
Qed.
Lemma get_put_after off n off' l a :
  (off' + length l ≤ off)%nat → (off' ≤ length a)%nat → get off n (put off' l a) = get off n a.
Proof.
  intros Ho Hl. unfold get, put. rewrite app_assoc.
  rewrite drop_app_ge by (rewrite length_app, length_take; lia).
  rewrite drop_drop, length_app, length_take. f_equal. f_equal. lia.
Qed.
End InetAddress.

Import InetAddress.

Lemma byteswap_twice n x : 0 ≤ x < 256 ^ Z.of_nat n → byteswap n (byteswap n x) = x.
Proof.
  intros Hx. unfold byteswap at 2. rewrite (byteswap_bytes n x) by done. by rewrite Z.mod_small.
Qed.
Lemma byteswap_range n x : 0 ≤ byteswap n x < 256 ^ Z.of_nat n.
Proof. unfold byteswap. pose proof (le_value_range (be_bytes n x)). by rewrite length_be_bytes in *. Qed.
Lemma le_value_small n x : 0 ≤ x < 256 ^ Z.of_nat n → le_value (le_bytes n x) = x.
Proof. intros. rewrite le_value_bytes. by rewrite Z.mod_small. Qed.

Lemma length_zeroed n a : (n ≤ length a)%nat → length (memZero n a) = length a.
Proof. intros. apply put_length. by rewrite length_replicate. Qed.

Definition number_offset (af : Z) : nat := if af =? AF_INET then 4%nat else 8%nat.

(** An address of [family_ok] family [af] with port [p] and number [l]. *)
Record address (af p : Z) (l : bytes) (a : t) : Prop := mkAddress {
  address_length : length a = size;
  address_family : family a = af;
  address_port : portNetEndian a = hostToNetwork16 p;
  address_number : (if af =? AF_INET then sin_addr a else sin6_addr a) = l
}.

Lemma filled_address af p l a :
  family_ok af → length a = size → length l = address_size af →
  address af p l (put (number_offset af) l (set_port (hostToNetwork16 p) (set_family af a))).
Proof.
  intros Haf Ha Hl. set (a1 := set_family af a). set (a2 := set_port _ a1).
  change size with 28%nat in Ha.
  assert (H1 : length a1 = 28%nat) by (unfold a1, set_family; rewrite put_length; rewrite ?length_le_bytes; lia).
  assert (H2 : length a2 = 28%nat) by (unfold a2, set_port; rewrite put_length; rewrite ?length_le_bytes; lia).
  assert (Hp : 0 ≤ hostToNetwork16 p < 256 ^ Z.of_nat 2) by apply byteswap_range.
  assert (Hfam : 0 ≤ af < 256 ^ Z.of_nat 2) by by destruct Haf as [-> | ->].
  assert (Hfit : (number_offset af + length l ≤ 28)%nat) by (rewrite Hl; destruct Haf as [-> | ->]; cbn; lia).
  assert (Hoff : (4 ≤ number_offset af ≤ 28)%nat) by (destruct Haf as [-> | ->]; cbn; lia).
  split.
  - by rewrite put_length by (rewrite H2; exact Hfit).
  - unfold family. rewrite get_put_before by (rewrite ?H2; lia).
    unfold a2, set_port. rewrite get_put_before by (rewrite ?H1; lia).
    unfold a1, set_family. rewrite get_put by (rewrite ?length_le_bytes; lia). by apply le_value_small.
  - unfold portNetEndian. rewrite get_put_before by (rewrite ?H2; lia).
    unfold a2, set_port. rewrite get_put by (rewrite ?length_le_bytes; lia). by apply le_value_small.
  - unfold sin_addr, sin6_addr. destruct Haf as [-> | ->]; cbn [AF_INET AF_INET6 Z.eqb Pos.eqb address_size] in *.
    + apply get_put; [done|]. rewrite H2. cbn. lia.
    + apply get_put; [done|]. rewrite H2. cbn. lia.
Qed.

(** The family an address text is read in. *)
Definition text_family (ip : bytes) (ipv6 : bool) : Z :=
  if ipv6 || bool_decide (x3a ∈ c_str ip) then AF_INET6 else AF_INET.
Lemma text_family_ok ip ipv6 : family_ok (text_family ip ipv6).
Proof. unfold text_family. case_match; [by right|by left]. Qed.

(** The port and the number may be stored in either order. *)
Lemma port_then_number af p l a :
  length a = size → family_ok af → length l = address_size af →
  set_port p (put (number_offset af) l a) = put (number_offset af) l (set_port p a).
Proof.
  intros Ha Haf Hl. do 28 (destruct a as [|? a]; [discriminate|]). destruct a; [|discriminate].
  destruct Haf as [-> | ->].
  - do 4 (destruct l as [|? l]; [discriminate|]). by destruct l.
  - do 16 (destruct l as [|? l]; [discriminate|]). by destruct l.
Qed.

Lemma of_port_address p (loopbackOnly ipv6 : bool) a :
  length a = size →
  address (if ipv6 then AF_INET6 else AF_INET) p
    (if ipv6 then (if loopbackOnly then in6addr_loopback else in6addr_any)
     else be_bytes 4 (if loopbackOnly then kInaddrLoopback else kInaddrAny))
    (of_port p loopbackOnly ipv6 a).
Proof.
  intros Ha. assert (Hz : ∀ n : nat, (n ≤ 28)%nat → length (memZero n a) = size)
    by (intros n Hn; rewrite length_zeroed; [done|by rewrite Ha]).
  assert (Hs : ∀ (f : Z) (n : nat), (n ≤ 28)%nat → length (set_family f (memZero n a)) = size).
  { intros f n Hn. unfold set_family. rewrite put_length; [by apply Hz|].
    rewrite length_le_bytes, Hz by done. apply Nat.leb_le. reflexivity. }
  unfold of_port. destruct ipv6; cbn zeta.
  - set (l := if loopbackOnly then in6addr_loopback else in6addr_any).
    assert (Hl : length l = address_size AF_INET6) by by destruct loopbackOnly.
    pose proof (port_then_number AF_INET6 (hostToNetwork16 p) l (set_family AF_INET6 (memZero 28 a))) as Hc.
    change (number_offset AF_INET6) with 8%nat in Hc. unfold set_sin6_addr. rewrite Hc; [|by apply Hs|by right|done].
    apply filled_address; [by right|by apply Hz|done].
  - unfold hostToNetwork32. rewrite le_bytes_byteswap.
    set (l := be_bytes 4 _). assert (Hl : length l = address_size AF_INET) by apply length_be_bytes.
    pose proof (port_then_number AF_INET (hostToNetwork16 p) l (set_family AF_INET (memZero 16 a))) as Hc.
    change (number_offset AF_INET) with 4%nat in Hc. unfold set_sin_addr. rewrite Hc; [|apply Hs; lia|by left|done].
    apply filled_address; [by left|apply Hz; lia|done].
Qed.

Section Text.
Context `{AddressTextOk}.

Lemma of_ip_address ip p ipv6 l a :
  length a = size → inet_pton (text_family ip ipv6) (c_str ip) = Some l →
  address (text_family ip ipv6) p l (of_ip ip p ipv6 a).
Proof.
  intros Ha Hl. pose proof (pton_size _ _ _ (text_family_ok ip ipv6) Hl) as Hlen.
  assert (Hz : ∀ n : nat, (n ≤ 28)%nat → length (memZero n a) = size)
    by (intros n Hn; rewrite length_zeroed; [done|by rewrite Ha]).
  unfold of_ip, text_family in *. destruct (ipv6 || _).
  - unfold fromIpPort6. rewrite Hl. apply filled_address; [by right|by apply Hz|done].
  - unfold fromIpPort4. rewrite Hl. apply filled_address; [by left|apply Hz; lia|done].
Qed.

Lemma octet_short b : (length (decimal (ub b)) ≤ 3)%nat.
Proof. pose proof (ub_range b). apply (decimal_length _ 2). cbn. lia. Qed.
Lemma dotted_short l : length l = 4%nat → szof (dotted l) ≤ 15.
Proof.
  intros Hl. do 4 (destruct l as [|? l]; [discriminate|]). destruct l; [|discriminate]. cbn [dotted].
  repeat (rewrite length_app; cbn [length]).
  pose proof (octet_short b). pose proof (octet_short b0). pose proof (octet_short b1). pose proof (octet_short b2). lia.
Qed.
Lemma ntop_short af l : family_ok af → length l = address_size af → szof (inet_ntop af l) ≤ 45.
Proof.
  intros [-> | ->] Hl; [rewrite ntop_dotted by done; pose proof (dotted_short l Hl); lia|by apply ntop6_short].
Qed.

(** The text of an address. *)
Definition ip_text (af : Z) (l : bytes) : bytes := inet_ntop af l.
Definition ip_port_text (af p : Z) (l : bytes) : bytes :=
  if af =? AF_INET6 then x5b :: inet_ntop af l ++ bs "]:" ++ decimal p else inet_ntop af l ++ bs ":" ++ decimal p.

Lemma networkToHost16_port p : 0 ≤ p < 65536 → networkToHost16 (hostToNetwork16 p) = p.
Proof. intros. by apply byteswap_twice. Qed.

Lemma address_texts af p l a :
  family_ok af → length l = address_size af → 0 ≤ p < 65536 → address af p l a →
  port a = p ∧ toIp a = Done (ip_text af l) ∧ toIpPort a = Done (ip_port_text af p l).
Proof.
  intros Haf Hl Hp [_ Hf Hport Hn]. unfold port, toIp, toIpPort, toIpPort_buf, toIp_buf.
  rewrite Hport, networkToHost16_port by done. split; [done|]. rewrite Hf.
  pose proof (ntop_short af l Haf Hl) as Hs. pose proof (decimal_length p 4 ltac:(cbn; lia)) as Hd.
  destruct Haf as [-> | ->].
  - change (AF_INET =? AF_INET) with true in *. change (AF_INET =? AF_INET6) with false in *. cbn iota in *. rewrite Hn.
    change (INET_ADDRSTRLEN <=? 64) with true. cbn [cassert mbind outcome_bind]. split; [done|].
    rewrite (proj2 (Z.ltb_lt _ _)) by lia. cbn [cassert mbind outcome_bind].
    unfold print_at, ip_port_text. change (AF_INET =? AF_INET6) with false. cbn iota. do 2 f_equal. apply take_ge.
    rewrite length_app. change (length (bs ":")) with 1%nat. lia.
  - change (AF_INET6 =? AF_INET) with false in *. change (AF_INET6 =? AF_INET6) with true in *. cbn iota in *. rewrite Hn.
    change (INET6_ADDRSTRLEN <=? 64) with true. change (INET6_ADDRSTRLEN <=? 64 - 1) with true.
    cbn [cassert mbind outcome_bind]. split; [done|].
    rewrite (proj2 (Z.ltb_lt _ _)) by (cbn [length]; lia). cbn [cassert mbind outcome_bind].
    unfold print_at, ip_port_text. change (AF_INET6 =? AF_INET6) with true. cbn iota.
    cbn [app]. do 2 f_equal. f_equal. apply take_ge. rewrite length_app.
    change (length (bs "]:")) with 2%nat. cbn [length]. lia.
Qed.

Lemma is_digit_plain c : is_digit c = true → c ≠ x00 ∧ c ≠ x3a.
Proof. intros Hd. split; by intros ->. Qed.
Lemma octet_plain b c : c ∈ decimal (ub b) → c ≠ x00 ∧ c ≠ x3a.
Proof.
  intros Hc. apply is_digit_plain. pose proof (ub_range b).
  by apply (proj1 (Forall_forall _ _) (decimal_digits (ub b) ltac:(lia))).
Qed.
Lemma dotted_plain l c : length l = 4%nat → c ∈ dotted l → c ≠ x00 ∧ c ≠ x3a.
Proof.
  intros Hl. do 4 (destruct l as [|? l]; [discriminate|]). destruct l; [|discriminate]. cbn [dotted].
  rewrite !elem_of_app, !elem_of_cons, !elem_of_app, !elem_of_cons, !elem_of_app, !elem_of_cons.
  intros [?|[->|[?|[->|[?|[->|?]]]]]]; by eauto using octet_plain.
Qed.

(** The text of an address is read as that address. *)
Lemma ntop_read af l :
  family_ok af → length l = address_size af →
  text_family (inet_ntop af l) false = af ∧ inet_pton af (c_str (inet_ntop af l)) = Some l.
Proof.
  intros Haf Hl. assert (Hnul : x00 ∉ inet_ntop af l).
  { destruct Haf as [-> | ->]; [|by apply ntop6_text]. rewrite ntop_dotted by done.
    intros Hin. by apply (dotted_plain l x00) in Hin as [? _]. }
  unfold text_family. rewrite c_str_id by done. split; [|by apply pton_ntop].
  destruct Haf as [-> | ->].
  - rewrite ntop_dotted by done. rewrite bool_decide_false; [done|].
    intros Hin. by apply (dotted_plain l x3a) in Hin as [_ ?].
  - by rewrite bool_decide_true by (by apply ntop6_text).
Qed.

Lemma le_value_inj a b : length a = length b → le_value a = le_value b → a = b.
Proof. intros Hl Hv. by rewrite <-(le_bytes_value a), <-(le_bytes_value b), Hl, Hv. Qed.

Lemma self_connect_spec af p q l m a b :
  family_ok af → 0 ≤ p < 65536 → 0 ≤ q < 65536 → length l = address_size af → length m = address_size af →
  address af p l a → address af q m b → isSelfConnect a b = bool_decide (p = q ∧ l = m).
Proof.
  intros Haf Hp Hq Hl Hm [_ Hfa Hpa Hna] [_ Hfb Hpb Hnb]. unfold isSelfConnect. rewrite Hfa, Hpa, Hpb.
  assert (Hport : (hostToNetwork16 p =? hostToNetwork16 q) = bool_decide (p = q)).
  { apply eq_bool_prop_intro. rewrite Is_true_true, Z.eqb_eq, bool_decide_spec. split; [|by intros ->].
    intros He. by rewrite <-(networkToHost16_port p), <-(networkToHost16_port q), He. }
  rewrite Hport. apply eq_bool_prop_intro. destruct Haf as [-> | ->].
  - change (AF_INET =? AF_INET) with true in *. cbn iota in *. rewrite Hna, Hnb, andb_True, !bool_decide_spec.
    rewrite Is_true_true, Z.eqb_eq. split; intros [? He]; (split; [done|]); [apply le_value_inj; congruence|by rewrite He].
  - change (AF_INET6 =? AF_INET) with false in *. change (AF_INET6 =? AF_INET6) with true in *. cbn iota in *.
    by rewrite Hna, Hnb, andb_True, !bool_decide_spec.
Qed.

(** Addresses and their texts: an address made from a text that can be read
    and a port has that family, port and number; its texts, which the buffers of
    64 bytes always hold, are those of the C library with the port in decimal,
    a version 6 address in brackets; reading the text gives the same address;
    and [isSelfConnect] compares number and port. *)
Theorem address_roundtrip ip p ipv6 l a :
  length a = size → 0 ≤ p < 65536 → inet_pton (text_family ip ipv6) (c_str ip) = Some l →
  let af := text_family ip ipv6 in
  let x := of_ip ip p ipv6 a in
  family x = af ∧ port x = p ∧ toIp x = Done (inet_ntop af l) ∧ toIpPort x = Done (ip_port_text af p l) ∧
  ∀ q m b y, 0 ≤ q < 65536 → length b = size → length m = address_size af →
    y = of_ip (inet_ntop af m) q false b → isSelfConnect x y = bool_decide (p = q ∧ l = m).
Proof.
  intros Ha Hp Hl af x. pose proof (text_family_ok ip ipv6) as Haf. pose proof (pton_size _ _ _ Haf Hl) as Hsize.
  pose proof (of_ip_address ip p ipv6 l a Ha Hl) as Hx.
  destruct (address_texts _ p l _ Haf Hsize Hp Hx) as (H1 & H2 & H3).
  split; [apply Hx|]. split; [done|]. split; [done|]. split; [done|].
  intros q m b y Hq Hb Hm ->. destruct (ntop_read af m Haf Hm) as [Hf Hr].
  pose proof (of_ip_address (inet_ntop af m) q false m b Hb) as Hy. rewrite Hf in Hy.
  apply (self_connect_spec af p q l m); try done. by apply Hy.
Qed.

(** An address that cannot be read is only logged, and leaves the address of
    all interfaces. *)
Theorem unreadable_is_any ip p a :
  length a = size → text_family ip false = AF_INET → inet_pton AF_INET (c_str ip) = None →
  sin_addr (of_ip ip p false a) = replicate 4 x00.
Proof.
  intros Ha Hf Hn. unfold of_ip, text_family in *. destruct (false || _); [done|].
  unfold fromIpPort4. rewrite Hn. do 28 (destruct a as [|? a]; [discriminate|]). by destruct a; [|discriminate].
Qed.

End Text.

(** [resolve] stores the address as if the object were of version 4: what it
    finds for a version 6 object ends in the flow information. *)
Theorem resolve_ignores_family h out out' :
  length out = size → length h = 4%nat → family out = AF_INET6 →
  resolve (Some (AF_INET, 4, h)) out = Done (true, out') →
  sin6_addr out' = sin6_addr out ∧ sin6_flowinfo out' = h.
Proof.
  intros Ho Hh _. cbn. intros [= <-].
  do 28 (destruct out as [|? out]; [discriminate|]). destruct out; [|discriminate].
  do 4 (destruct h as [|? h]; [discriminate|]). by destruct h; [|discriminate].
Qed.

(** * [Socket::getTcpInfoString]

    The counters of [tcp_info] it writes, in the order of its format; [None] if
    [getsockopt] fails. *)
Definition tcp_info_labels : list bytes :=
  [bs "unrecovered="; bs " rto="; bs " ato="; bs " snd_mss="; bs " rcv_mss="; bs " lost="; bs " retrans="; bs " rtt=";
   bs " rttvar="; bs " sshthresh="; bs " cwnd="; bs " total_retrans="].
Definition tcp_info_text (tcpi : list Z) : bytes :=
  concat (zip_with (λ label n, label ++ decimal n) tcp_info_labels tcpi).
Definition Socket_getTcpInfoString (buf : bytes) (len : Z) (tcpi : option (list Z)) : bool * bytes :=
  match tcpi with
  | Some tcpi => (true, take (Z.to_nat (len - 1)) (tcp_info_text tcpi))
  | None => (false, buf)
  end.
(** [TcpConnection::getTcpInfoString()] *)
Definition getTcpInfoString (tcpi : option (list Z)) : bytes := (Socket_getTcpInfoString [] 1024 tcpi).2.

Lemma length_labelled ls ns k :
  Forall (λ n, 0 ≤ n < 2 ^ 32) ns → Forall (λ l, (length l ≤ k)%nat) ls →
  (length (concat (zip_with (λ label n, label ++ decimal n) ls ns)) ≤ length ls * (k + 10))%nat.
Proof.
  intros Hn Hl. revert ns Hn. induction Hl as [|l ls Hk _ IH]; intros ns Hn; [done|].
  destruct Hn as [|n ns Hn Hns]; [cbn; lia|]. cbn [zip_with concat length]. rewrite !length_app.
  pose proof (IH ns Hns). pose proof (decimal_length n 9 ltac:(cbn; lia)). lia.
Qed.
(** The buffer of 1024 bytes always holds the text. *)
Theorem tcp_info_fits tcpi :
  Forall (λ n, 0 ≤ n < 2 ^ 32) tcpi → getTcpInfoString (Some tcpi) = tcp_info_text tcpi.
Proof.
  intros Hn. unfold getTcpInfoString, Socket_getTcpInfoString. cbn [snd]. apply take_ge.
  pose proof (length_labelled tcp_info_labels tcpi 15 Hn) as Hl. unfold tcp_info_text.
  assert (length tcp_info_labels = 12%nat) as Hk by done. rewrite Hk in Hl.
  assert (Forall (λ l, (length l ≤ 15)%nat) tcp_info_labels) as Hf by (apply (bool_decide_unpack _); vm_compute; reflexivity).
  specialize (Hl Hf). lia.
Qed.

(** ** Texts that satisfy the interface *)
Module PlainText.
Fixpoint span_digits (t : bytes) : bytes * bytes :=
  match t with
  | c :: t' => if is_digit c then let '(d, r) := span_digits t' in (c :: d, r) else ([], t)
  | [] => ([], [])
  end.
(** One number of the dotted form, without leading zeros. *)
Definition octet (t : bytes) : option (byte * bytes) :=
  let '(d, r) := span_digits t in
  let v := decimal_value d in
  if bool_decide (0 ≤ v < 256 ∧ decimal v = d) then Some (of_Z v, r) else None.
Definition dot (t : bytes) : option bytes := match t with c :: t => if bool_decide (c = x2e) then Some t else None | [] => None end.
Definition pton4 (t : bytes) : option bytes :=
  '(a, t) ← octet t; t ← dot t; '(b, t) ← octet t; t ← dot t; '(c, t) ← octet t; t ← dot t; '(d, t) ← octet t;
  if bool_decide (t = []) then Some [a; b; c; d] else None.

Definition hex_digit (d : Z) : byte := if d <? 10 then of_Z (48 + d) else of_Z (87 + d).
Definition hex2 (b : byte) : bytes := [hex_digit (ub b / 16); hex_digit (ub b mod 16)].
Definition unhex (c : byte) : option Z :=
  let z := ub c in
  if (48 <=? z) && (z <? 58) then Some (z - 48) else if (97 <=? z) && (z <? 103) then Some (z - 87) else None.
Definition unhex2 (c d : byte) : option byte := x ← unhex c; y ← unhex d; Some (of_Z (16 * x + y)).
(** Eight groups of four digits. *)
Fixpoint hex_text (l : bytes) : bytes :=
  match l with
  | [a; b] => hex2 a ++ hex2 b
  | a :: b :: l => hex2 a ++ hex2 b ++ x3a :: hex_text l
  | _ => []
  end.
Definition group (t : bytes) : option (byte * byte * bytes) :=
  match t with
  | c1 :: c2 :: c3 :: c4 :: t => a ← unhex2 c1 c2; b ← unhex2 c3 c4; Some (a, b, t)
  | _ => None
  end.
Fixpoint unhex_text (n : nat) (t : bytes) : option bytes :=
  '(a, b, t) ← group t;
  match n, t with
  | O, [] => Some [a; b]
  | S n, c :: t => if bool_decide (c = x3a) then l ← unhex_text n t; Some (a :: b :: l) else None
  | _, _ => None
  end.

#[export] Instance plain : AddressText := {|
  inet_ntop af l := if af =? AF_INET then dotted l else hex_text l;
  inet_pton af t := if af =? AF_INET then pton4 t else unhex_text 7 t
|}.

Lemma span_digits_app d r :
  Forall (λ c, is_digit c = true) d → head r ≫= (λ c, Some (is_digit c)) ≠ Some true → span_digits (d ++ r) = (d, r).
Proof.
  intros Hd Hr. induction Hd as [|c d Hc _ IH]; cbn [app span_digits].
  - destruct r as [|c r]; [done|]. cbn in Hr |- *. destruct (is_digit c); [done|done].
  - by rewrite Hc, IH.
Qed.
Lemma octet_decimal b r :
  head r ≫= (λ c, Some (is_digit c)) ≠ Some true → octet (decimal (ub b) ++ r) = Some (b, r).
Proof.
  intros Hr. pose proof (ub_range b) as Hb. unfold octet.
  rewrite span_digits_app by (done || by apply decimal_digits; lia).
  rewrite decimal_value_decimal by lia. rewrite bool_decide_true by (split; [lia|done]). by rewrite of_Z_ub.
Qed.
Lemma dot_dot t : dot (x2e :: t) = Some t.
Proof. done. Qed.
Lemma unhex2_hex2 b : unhex2 (hex_digit (ub b / 16)) (hex_digit (ub b mod 16)) = Some b.
Proof. by destruct b. Qed.
Lemma group_hex2 a b t : group (hex2 a ++ hex2 b ++ t) = Some (a, b, t).
Proof. unfold group, hex2. cbn [app]. by rewrite !unhex2_hex2. Qed.
Lemma unhex_hex_text n l : length l = (2 * n + 2)%nat → unhex_text n (hex_text l) = Some l.
Proof.
  revert l. induction n as [|n IH]; intros [|a [|b l]] Hl; cbn in Hl; try lia.
  - destruct l; [|cbn in Hl; lia]. cbn [hex_text unhex_text].
    rewrite <-(app_nil_r (hex2 b)), group_hex2. done.
  - destruct l as [|c l]; [cbn in Hl; lia|]. change (hex_text (a :: b :: c :: l)) with (hex2 a ++ hex2 b ++ x3a :: hex_text (c :: l)).
    cbn [unhex_text]. rewrite group_hex2. cbn [mbind option_bind]. rewrite bool_decide_true by done.
    rewrite IH by (cbn in *; lia). done.
Qed.
Lemma hex2_plain b c : c ∈ hex2 b → c ≠ x00.
Proof. unfold hex2. intros Hc ->. by destruct b; vm_compute in Hc; set_solver. Qed.

#[export] Instance plain_ok : AddressTextOk plain.
Proof.
  split.
  - done.
  - intros l Hl. do 16 (destruct l as [|? l]; [discriminate|]). destruct l; [|discriminate]. done.
  - intros l Hl. do 16 (destruct l as [|? l]; [discriminate|]). destruct l; [|discriminate].
    unfold inet_ntop, plain. change (AF_INET6 =? AF_INET) with false. cbn iota. split.
    + cbn [hex_text]. intros Hin.
      repeat first [apply elem_of_app in Hin as [Hin|Hin]; [by apply hex2_plain in Hin|]
                   |apply elem_of_cons in Hin as [Hin|Hin]; [discriminate|]].
      by apply hex2_plain in Hin.
    + cbn [hex_text]. apply elem_of_app; right. apply elem_of_app; right. by left.
  - intros af t l [-> | ->]; unfold inet_pton, plain.
    + change (AF_INET =? AF_INET) with true. cbn iota. unfold pton4. intros Hd.
      repeat (apply bind_Some in Hd as (? & _ & Hd); try case_match).
      repeat case_match; by simplify_eq.
    + change (AF_INET6 =? AF_INET) with false. cbn iota. cbn [address_size].
      assert (Hall : ∀ n t l, unhex_text n t = Some l → length l = (2 * n + 2)%nat).
      { clear. intros n. induction n as [|n IH]; intros t l Hu; cbn [unhex_text] in Hu;
          apply bind_Some in Hu as ([[a b] r] & _ & Hu); destruct r as [|c r]; simplify_option_eq; try done.
        apply IH in Heqo. cbn. lia. }
      intros Hu. by apply Hall in Hu.
  - intros af l [-> | ->] Hl; unfold inet_ntop, inet_pton, plain.
    + change (AF_INET =? AF_INET) with true. cbn iota.
      do 4 (destruct l as [|? l]; [discriminate|]). destruct l; [|discriminate]. unfold pton4, dotted.
      do 3 (rewrite octet_decimal by done; cbn [mbind option_bind]; rewrite dot_dot; cbn [mbind option_bind]).
      by rewrite <-(app_nil_r (decimal (ub b2))), octet_decimal by done.
    + change (AF_INET6 =? AF_INET) with false. cbn iota.
      by apply (unhex_hex_text 7).
Qed.
End PlainText.

Import PlainText.
Lemma address_roundtrip_witness :
  text_family (bs "192.168.0.1") false = AF_INET ∧
  toIpPort (of_ip (bs "192.168.0.1") 8080 false (replicate size x00)) = Done (bs "192.168.0.1:8080") ∧
  toIpPort (of_ip (bs "0000:0000:0000:0000:0000:0000:0000:00fe") 80 false (replicate size xff)) =
    Done (bs "[0000:0000:0000:0000:0000:0000:0000:00fe]:80").
Proof.
  split; [vm_compute; reflexivity|]. split.
  - exact (proj1 (proj2 (proj2 (proj2 (@address_roundtrip plain plain_ok (bs "192.168.0.1") 8080 false [xc0; xa8; x00; x01]
      (replicate size x00) eq_refl ltac:(lia) ltac:(vm_compute; reflexivity)))))).
  - vm_compute. reflexivity.
Defined.
