(* ===== verification/Acceptor.v ===== *)
(** Accepting connections (src/IMServer/src/muduo/net: Acceptor.h/.cc, Socket.cc
    and the calls of SocketsOps.cc it makes).  The descriptors of the process and
    the queue of connections that wait to be accepted are the kernel's: the
    class [Kernel], with what [open], [close] and [accept] are documented to do
    to them.  The acceptor keeps one idle descriptor to give up when the process
    runs out of descriptors. *)

From S2P Require Import Prelude Buffer TcpConnection.
Local Open Scope Z_scope.

(** * Descriptors *)

Inductive accept_result := Accepted (fd : Z) (peer : bytes) | AcceptError (errno : Z).

Definition EPERM : Z := 1.
Definition EINTR : Z := 4.
Definition EAGAIN : Z := 11.
Definition ENFILE : Z := 23.
Definition EMFILE : Z := 24.
Definition EPROTO : Z := 71.
Definition ECONNABORTED : Z := 103.

(** The calls, and what can be told of the state of the kernel: the open
    descriptors of the process, the peers that wait in the accept queue, whether
    the process may open no more descriptors, and whether the rest of the system
    is well: it has memory and files to give, no network error is pending and no
    signal interrupts a call. *)
Class Kernel (K : Type) := {
  sys_open : K → Z * K;                  (* [open( /dev/null )]: -1 if it fails *)
  sys_close : Z → K → K;
  sys_accept : K → accept_result * K;
  fds : K → gset Z;
  backlog : K → list bytes;
  full : K → bool;
  healthy : K → bool
}.

(** A new descriptor is one that was not open. *)
Definition opened `{Kernel K} (fd : Z) (k k' : K) : Prop :=
  0 ≤ fd ∧ fd ∉ fds k ∧ fds k' = {[fd]} ∪ fds k.
(** At most the first peer is taken off the queue; it is, or there was none. *)
Definition shifted `{Kernel K} (k k' : K) : Prop := backlog k' = backlog k ∨ ∃ peer, backlog k = peer :: backlog k'.
Definition served `{Kernel K} (k k' : K) : Prop :=
  backlog k = [] ∧ backlog k' = [] ∨ ∃ peer, backlog k = peer :: backlog k'.

(** Their documented behaviour.  Both [open] and [accept] may fail, [accept]
    with any error, whether or not it takes a peer off the queue; [EMFILE] means
    that the process is out of descriptors.  If the system is well they fail
    for want of a descriptor only, and [accept] if no peer waits, or the first
    one has given up or may not connect. *)
Class KernelOk (K : Type) `{Kernel K} : Prop := {
  open_ok k fd k' : sys_open k = (fd, k') →
    backlog k' = backlog k ∧ (fd = -1 ∧ fds k' = fds k ∨ opened fd k k') ∧
    (healthy k = true → healthy k' = true ∧ (full k = false → fd ≠ -1));
  close_ok fd k :
    fds (sys_close fd k) = fds k ∖ {[fd]} ∧ backlog (sys_close fd k) = backlog k ∧
    (fd ∈ fds k → full (sys_close fd k) = false) ∧ (fd ∉ fds k → sys_close fd k = k) ∧
    healthy (sys_close fd k) = healthy k;
  accept_ok k r k' : sys_accept k = (r, k') →
    match r with
    | Accepted fd peer => full k = false ∧ opened fd k k' ∧ backlog k = peer :: backlog k'
    | AcceptError errno => fds k' = fds k ∧ shifted k k' ∧ (errno = EMFILE → k' = k)
    end;
  accept_healthy k r k' : sys_accept k = (r, k') → healthy k = true →
    healthy k' = true ∧
    if full k then r = AcceptError EMFILE
    else match r with
         | Accepted fd peer => True
         | AcceptError errno =>
             full k' = false ∧
             (errno = EAGAIN ∧ k' = k ∧ backlog k = [] ∨
              errno ∈ [ECONNABORTED; EPROTO; EPERM] ∧ ∃ peer, backlog k = peer :: backlog k')
         end;
  fds_nonneg k fd : fd ∈ fds k → 0 ≤ fd
}.

(** * The acceptor *)
Module Acceptor.

(** [acceptSocket_] and [idleFd_] by their descriptors; [newConnectionCallback_]
    by whether it is set. *)
Record t := mk {
  acceptSocket_ : Z;
  acceptChannel_ : Channel.t;
  newConnectionCallback_ : bool;
  listening_ : bool;
  idleFd_ : Z
}.

(** [Acceptor( loop, listenAddr, reuseport )]: [sockfd] and [idleFd] are what
    [socket] and [open] return, [bound] whether [bind] succeeds; the failures
    of [socket] and [bind] are fatal. *)
Definition make (sockfd idleFd : Z) (bound : bool) : outcome t :=
  if sockfd <? 0 then Fault (Thrown "LOG_SYSFATAL")
  else
    _ ← cassert (0 <=? idleFd) "idleFd_ >= 0";
    if bound then Done (mk sockfd Channel.make false false idleFd) else Fault (Thrown "LOG_SYSFATAL").

Definition setNewConnectionCallback (b : bool) (a : t) : t :=
  mk (acceptSocket_ a) (acceptChannel_ a) b (listening_ a) (idleFd_ a).
Definition set_channel (ch : Channel.t) (a : t) : t :=
  mk (acceptSocket_ a) ch (newConnectionCallback_ a) (listening_ a) (idleFd_ a).
Definition set_listening (a : t) : t :=
  mk (acceptSocket_ a) (acceptChannel_ a) (newConnectionCallback_ a) true (idleFd_ a).
Definition set_idle (fd : Z) (a : t) : t :=
  mk (acceptSocket_ a) (acceptChannel_ a) (newConnectionCallback_ a) (listening_ a) fd.

(** [listen()]: [ok] is whether the call [listen] succeeds. *)
Definition listen (ok : bool) (a : t) : outcome t :=
  let a := set_listening a in
  if ok then Done (set_channel (Channel.enableReading (acceptChannel_ a)) a) else Fault (Thrown "LOG_SYSFATAL").

Section Run.
Context `{Kernel K}.

(** [sockets::accept]: errors that are not expected are fatal. *)
Definition expected (errno : Z) : bool :=
  bool_decide (errno ∈ [EAGAIN; ECONNABORTED; EINTR; EPROTO; EPERM; EMFILE]).
Definition sockets_accept (k : K) : outcome (accept_result * K) :=
  let '(r, k) := sys_accept k in
  match r with
  | Accepted _ _ => Done (r, k)
  | AcceptError errno => if expected errno then Done (r, k) else Fault (Thrown "LOG_FATAL")
  end.

(** [handleRead()], and the connection it hands to the callback. *)
Definition handleRead (a : t) (k : K) : outcome (option (Z * bytes) * t * K) :=
  '(r, k) ← sockets_accept k;
  match r with
  | Accepted connfd peerAddr =>
      if newConnectionCallback_ a then Done (Some (connfd, peerAddr), a, k)
      else Done (None, a, sys_close connfd k)
  | AcceptError errno =>
      if errno =? EMFILE then
        let k := sys_close (idleFd_ a) k in
        let '(r, k) := sys_accept k in
        let fd := match r with Accepted fd _ => fd | AcceptError _ => -1 end in
        let k := sys_close fd k in
        let '(fd, k) := sys_open k in
        Done (None, set_idle fd a, k)
      else Done (None, a, k)
  end.

(** [~Acceptor()] and [~Socket()] *)
Definition dtor (a : t) (k : K) : outcome K :=
  _ ← Channel.remove (Channel.disableAll (acceptChannel_ a));
  Done (sys_close (acceptSocket_ a) (sys_close (idleFd_ a) k)).

(** ** The acceptor at work

    Its descriptors and those of the connections handed over; what happened
    to the peers, and which arrived, in order. *)
Inductive fate := HandedOver (fd : Z) (peer : bytes) | Dismissed (peer : bytes).
Definition peer_of (f : fate) : bytes := match f with HandedOver _ p | Dismissed p => p end.

Record st := mkSt {
  acceptor : t; kernel : K; connections : gset Z; fates : list fate; arrived : list bytes
}.

(** The peer the kernel took off its queue, if any. *)
Definition taken_off (k k' : K) : list bytes :=
  take (length (backlog k) - length (backlog k')) (backlog k).

(** A readiness of the listening socket is handled; a connection is closed;
    peers arrive, or the limit of the process or the use of descriptors by
    its other parts changes whether there is room. *)
Inductive step : st → st → Prop :=
  | step_read s conn a' k' :
      handleRead (acceptor s) (kernel s) = Done (conn, a', k') →
      step s (mkSt a' k'
        (match conn with Some (fd, _) => {[fd]} | None => ∅ end ∪ connections s)
        (fates s ++ match conn with
                    | Some (fd, peer) => [HandedOver fd peer]
                    | None => map Dismissed (taken_off (kernel s) k')
                    end) (arrived s))
  | step_close s fd :
      fd ∈ connections s →
      step s (mkSt (acceptor s) (sys_close fd (kernel s)) (connections s ∖ {[fd]}) (fates s) (arrived s))
  | step_arrive s k' new :
      fds k' = fds (kernel s) → backlog k' = backlog (kernel s) ++ new →
      step s (mkSt (acceptor s) k' (connections s) (fates s) (arrived s ++ new)).

Inductive reachable (s0 : st) : st → Prop :=
  | reach_start : reachable s0 s0
  | reach_step s s' : reachable s0 s → step s s' → reachable s0 s'.

(** [n] readinesses in a row. *)
Fixpoint reads (n : nat) (a : t) (k : K) : outcome (list (Z * bytes) * t * K) :=
  match n with
  | O => Done ([], a, k)
  | S n =>
      '(conn, a, k) ← handleRead a k;
      '(conns, a, k) ← reads n a k;
      Done (match conn with Some c => c :: conns | None => conns end, a, k)
  end.

(** ** Lemmas *)
Context `{!KernelOk K}.

(** The idle descriptor, if there is one. *)
Definition idle (a : t) : gset Z := if idleFd_ a =? -1 then ∅ else {[idleFd_ a]}.

(** The descriptors of the process: those of other parts, the acceptor's two
    and those of the connections. *)
Record wf (base : gset Z) (a : t) (k : K) (conns : gset Z) : Prop := mkWf {
  wf_fds : fds k = base ∪ {[acceptSocket_ a]} ∪ idle a ∪ conns;
  wf_apart : acceptSocket_ a ∉ idle a;
  wf_base : acceptSocket_ a ∉ base ∧ idle a ## base ∧ base ## conns;
  wf_conns : acceptSocket_ a ∉ conns ∧ idle a ## conns
}.

Lemma close_minus_one k : sys_close (-1) k = k.
Proof. apply close_ok. intros Hin%fds_nonneg. lia. Qed.

Lemma close_idle a k : fds (sys_close (idleFd_ a) k) = fds k ∖ idle a.
Proof.
  unfold idle. destruct (Z.eqb_spec (idleFd_ a) (-1)) as [->|]; [rewrite close_minus_one; set_solver|].
  by destruct (close_ok (idleFd_ a) k) as [-> _].
Qed.

Lemma idle_set fd a : fd ≠ -1 → idle (set_idle fd a) = {[fd]}.
Proof. intros Hfd. unfold idle. cbn. by rewrite (proj2 (Z.eqb_neq _ _) Hfd). Qed.

(** Accepting a connection, if there is one, and closing it at once. *)
Lemma dismiss_ok k r k1 :
  sys_accept k = (r, k1) →
  let k2 := sys_close (match r with Accepted fd _ => fd | AcceptError _ => -1 end) k1 in
  fds k2 = fds k ∧ shifted k k2 ∧
  (healthy k = true → full k = false → healthy k2 = true ∧ full k2 = false ∧ served k k2).
Proof.
  intros Ha k2. pose proof (accept_ok _ _ _ Ha) as Hok. pose proof (accept_healthy _ _ _ Ha) as Hh.
  unfold k2, shifted, served. destruct r as [fd peer|e].
  - destruct Hok as (_ & (_ & Hn & Hfds) & Hb). destruct (close_ok fd k1) as (Hc & Hcb & Hcf & _ & Hch).
    rewrite Hcb, Hch. split; [rewrite Hc, Hfds; set_solver|]. split; [by right; exists peer|].
    intros Hk _. destruct (Hh Hk) as [-> _]. split_and!; [done|apply Hcf; set_solver|by right; exists peer].
  - rewrite close_minus_one. destruct Hok as (Hfds & Hsh & _). split_and!; [done..|].
    intros Hk Hf. destruct (Hh Hk) as [-> He]. rewrite Hf in He. destruct He as [Hf1 [(_ & -> & Hb)|(_ & Hb)]]; auto.
Qed.

(** What becomes of the acceptor and of the first peer that waits. *)
Definition read_ok (a : t) (k : K) (conn : option (Z * bytes)) (a' : t) (k' : K) : Prop :=
  match conn with
  | Some (fd, peer) =>
      full k = false ∧ newConnectionCallback_ a = true ∧ a' = a ∧ opened fd k k' ∧ backlog k = peer :: backlog k'
  | None =>
      shifted k k' ∧
      (a' = a ∧ fds k' = fds k ∨
       ∃ fd, a' = set_idle fd a ∧
         (fd = -1 ∧ fds k' = fds k ∖ idle a ∨
          0 ≤ fd ∧ fd ∉ fds k ∖ idle a ∧ fds k' = {[fd]} ∪ fds k ∖ idle a))
  end.
(** What it does besides in a system that is well, with its idle descriptor. *)
Definition read_healthy (a : t) (k : K) (a' : t) (k' : K) : Prop :=
  healthy k = true → idleFd_ a ∈ fds k → healthy k' = true ∧ idleFd_ a' ∈ fds k' ∧ served k k'.
(** The error that is fatal. *)
Definition unexpected (k : K) : Prop := ∃ errno k', sys_accept k = (AcceptError errno, k') ∧ expected errno = false.

(** Out of descriptors: the idle one is given up for the first peer. *)
Lemma give_up_idle a k :
  sys_accept k = (AcceptError EMFILE, k) →
  ∃ a' k', handleRead a k = Done (None, a', k') ∧ read_ok a k None a' k' ∧ read_healthy a k a' k'.
Proof.
  intros Ea. unfold handleRead, sockets_accept. rewrite Ea. change (expected EMFILE) with true.
  cbn [mbind outcome_bind]. rewrite Z.eqb_refl.
  pose proof (close_idle a k) as Hc. destruct (close_ok (idleFd_ a) k) as (_ & Hb & Hroom & _ & Hh).
  destruct (sys_accept (sys_close (idleFd_ a) k)) as [r k2] eqn:Ea2.
  destruct (dismiss_ok _ _ _ Ea2) as (Hfds & Hsh & Hwell).
  set (k3 := sys_close _ k2) in *. destruct (sys_open k3) as [fd k4] eqn:Eo.
  destruct (open_ok _ _ _ Eo) as (Hb4 & Hopen & Hwell4).
  eexists _, k4. split; [done|]. rewrite Hfds, Hc in Hopen. unfold opened in Hopen. rewrite Hfds, Hc in Hopen. split.
  - split; [unfold shifted in *; rewrite Hb4, <-Hb; exact Hsh|]. right. exists fd. split; [done|].
    destruct Hopen as [?|(? & ? & ?)]; [by left|by right].
  - intros Hk Hidle. rewrite Hh in Hwell. destruct (Hwell Hk (Hroom Hidle)) as (Hk3 & Hf3 & Hs3).
    destruct (Hwell4 Hk3) as [Hk4 Hfd]. specialize (Hfd Hf3). split; [done|]. split.
    + destruct Hopen as [[? _]|(_ & _ & ->)]; [done|]. cbn. set_solver.
    + unfold served in *. by rewrite Hb4, <-Hb.
Qed.

Lemma acceptor_read_ok a k :
  (∃ conn a' k', handleRead a k = Done (conn, a', k') ∧ read_ok a k conn a' k' ∧ read_healthy a k a' k') ∨
  handleRead a k = Fault (Thrown "LOG_FATAL") ∧ healthy k = false ∧ unexpected k.
Proof.
  destruct (sys_accept k) as [r k1] eqn:Ea.
  pose proof (accept_ok _ _ _ Ea) as Hok. pose proof (accept_healthy _ _ _ Ea) as Hh.
  destruct (dismiss_ok _ _ _ Ea) as (Hfds & Hsh & Hwell). destruct r as [fd peer|e].
  - left. unfold handleRead, sockets_accept. rewrite Ea. cbn [mbind outcome_bind].
    destruct Hok as (Hf & Hop & Hb). destruct (newConnectionCallback_ a) eqn:Ecb.
    + eexists (Some (fd, peer)), a, k1. split; [done|]. split; [by split_and!|].
      intros Hk Hidle. destruct (Hh Hk) as [-> _]. destruct Hop as (_ & _ & ->).
      split_and!; [done|set_solver|by right; exists peer].
    + eexists None, a, _. split; [done|]. split; [split; [done|by left]|].
      intros Hk Hidle. destruct (Hwell Hk Hf) as (Hk2 & _ & Hs2). by rewrite Hfds.
  - destruct Hok as (Hfd & Hsh1 & Hfull). destruct (decide (e = EMFILE)) as [->|Hne].
    { rewrite Hfull in Ea by done. left. exists None. by apply give_up_idle. }
    unfold handleRead, sockets_accept. rewrite Ea. destruct (expected e) eqn:Ee.
    + left. cbn [mbind outcome_bind]. rewrite (proj2 (Z.eqb_neq _ _) Hne). rewrite close_minus_one in Hwell.
      eexists None, a, k1. split; [done|]. split; [split; [done|by left]|].
      intros Hk Hidle. rewrite Hfd. destruct (full k) eqn:Hf; [destruct (Hh Hk) as [_ [= ->]]; done|].
      by destruct (Hwell Hk eq_refl) as (? & _ & ?).
    + right. split; [done|]. split; [|by exists e, k1]. apply not_true_is_false. intros Hk.
      destruct (Hh Hk) as [_ He]. destruct (full k); [by injection He as ->|].
      enough (expected e = true) by congruence. unfold expected. apply bool_decide_eq_true.
      destruct He as (_ & [(-> & _)|(Hin & _)]); set_solver.
Qed.

(** It keeps the descriptors apart, and those of the connections known. *)
Lemma read_wf base a k conns conn a' k' :
  wf base a k conns → read_ok a k conn a' k' →
  wf base a' k' (match conn with Some (fd, _) => {[fd]} | None => ∅ end ∪ conns).
Proof.
  intros [Hf Ha (Hb1 & Hb2 & Hb3) [Hc1 Hc2]] Hr. destruct conn as [[fd peer]|].
  - destruct Hr as (_ & _ & -> & (_ & Hn & Hfds) & _). rewrite Hf in Hn. split; [|done|set_solver..].
    rewrite Hfds, Hf. set_solver.
  - rewrite union_empty_l_L. destruct Hr as [_ [[-> Hfds]|(fd & -> & Hr)]].
    + split; [by rewrite Hfds|done|set_solver..].
    + assert (fds k ∖ idle a = base ∪ {[acceptSocket_ a]} ∪ conns) as Hrest by (rewrite Hf; set_solver).
      rewrite Hrest in Hr. destruct Hr as [(-> & Hfds)|(Hfd & Hn & Hfds)].
      * assert (idle (set_idle (-1) a) = ∅) as Hi by done. split; rewrite ?Hi; cbn; set_solver.
      * assert (idle (set_idle fd a) = {[fd]}) as Hi by (apply idle_set; lia).
        split; rewrite ?Hi; cbn; set_solver.
Qed.

Lemma taken_off_spec k k' l : backlog k = l ++ backlog k' → taken_off k k' = l.
Proof.
  intros Hb. unfold taken_off. rewrite Hb, length_app. rewrite Nat.add_sub. by apply take_app_length.
Qed.

Definition inv (base : gset Z) (s : st) : Prop :=
  wf base (acceptor s) (kernel s) (connections s) ∧
  map peer_of (fates s) ++ backlog (kernel s) = arrived s.

Lemma wf_idle base a k conns : wf base a k conns → idleFd_ a ∈ fds k ↔ idleFd_ a ≠ -1.
Proof.
  intros [Hf _ _ _]. split; [intros Hin%fds_nonneg; lia|]. intros Hne. rewrite Hf. unfold idle.
  rewrite (proj2 (Z.eqb_neq _ _) Hne). set_solver.
Qed.

Lemma map_peer_dismissed l : map peer_of (map Dismissed l) = l.
Proof. induction l as [|p l IH]; cbn; [done|]. by rewrite IH. Qed.

Lemma acceptor_step_inv base s s' : inv base s → step s s' → inv base s'.
Proof.
  intros [Hwf Hlog] Hs. destruct Hs as [s conn a' k' Hr|s fd Hin|s k' new Hf Hb].
  - destruct (acceptor_read_ok (acceptor s) (kernel s)) as [(c2 & a2 & k2 & Hr2 & Hok & _)|[Hr2 _]]; [|congruence].
    rewrite Hr in Hr2. injection Hr2 as <- <- <-. split; [by eapply read_wf|]. cbn.
    rewrite map_app, <-Hlog, <-app_assoc. f_equal. destruct conn as [[fd peer]|].
    + by destruct Hok as (_ & _ & _ & _ & ->).
    + rewrite map_peer_dismissed. destruct Hok as [[Hb|[p Hp]] _].
      * rewrite <-Hb. by rewrite (taken_off_spec _ _ []).
      * by rewrite (taken_off_spec _ _ [p] Hp).
  - destruct (close_ok fd (kernel s)) as (Hc & Hb & _). split; [|cbn; by rewrite Hb].
    destruct Hwf as [Hfd Ha (Hb1 & Hb2 & Hb3) [Hc1 Hc2]]. split; cbn; [|done|set_solver..].
    rewrite Hc, Hfd. set_solver.
  - split; cbn; [|by rewrite <-Hlog, <-app_assoc, Hb]. destruct Hwf. by split; [rewrite Hf|..].
Qed.

Lemma acceptor_reachable_inv base s0 s : inv base s0 → reachable s0 s → inv base s.
Proof. intros H0 Hr. induction Hr; [done|]. by eapply acceptor_step_inv. Qed.

Lemma reads_ok n a k :
  healthy k = true → idleFd_ a ∈ fds k → (length (backlog k) ≤ n)%nat →
  ∃ l a' k', reads n a k = Done (l, a', k') ∧ backlog k' = [].
Proof.
  revert a k. induction n as [|n IH]; intros a k Hk Hidle Hn.
  - exists [], a, k. split; [done|]. destruct (backlog k); [done|cbn in Hn; lia].
  - destruct (acceptor_read_ok a k) as [(conn & a1 & k1 & Hr & _ & Hh)|(_ & Hno & _)]; [|congruence]. cbn [reads].
    rewrite Hr, bind_ret_l. destruct (Hh Hk Hidle) as (Hk1 & Hidle1 & Hs).
    assert (length (backlog k1) ≤ n)%nat as Hn1 by (destruct Hs as [[_ Hb]|[p Hb]]; rewrite Hb in *; cbn in *; lia).
    destruct (IH a1 k1 Hk1 Hidle1 Hn1) as (l & a' & k' & Hl & Hb). rewrite Hl, bind_ret_l. by eexists _, a', k'.
Qed.

Lemma acceptor_dtor_ok base a k conns :
  wf base a k conns → ∃ k', dtor a k = Done k' ∧ fds k' = base ∪ conns.
Proof.
  intros [Hf Ha (Hb1 & Hb2 & Hb3) [Hc1 Hc2]]. unfold dtor, Channel.remove, Channel.isNoneEvent. cbn.
  eexists. split; [done|]. pose proof (close_idle a k) as H1.
  destruct (close_ok (acceptSocket_ a) (sys_close (idleFd_ a) k)) as (H2 & _). rewrite H2, H1, Hf. set_solver.
Qed.

(** * Properties *)

(** C35. The acceptor at work, whatever arrives, closes or runs short, and
    whatever errors [accept] and [open] give.  A readiness is handled, or ends
    in [LOG_FATAL] exactly when the system is not well and [accept] fails with
    an error the code does not expect ([ENFILE], [ENOMEM], a network error ...).
    The descriptors of the process are always those of its other parts, the
    listening socket, the idle descriptor unless it was lost, and those of the
    connections still open, so none leaks; peers leave the queue in the order
    they came, each handed over with a descriptor of its own or dismissed, and
    while there is room for descriptors none is dismissed that could be
    accepted.  As long as the system is well the idle descriptor is not lost by
    handling a readiness, and with it a readiness for each peer that waits
    empties the queue, so a process out of descriptors does not spin.  The
    destructor gives up the descriptors of the acceptor and no other. *)
Theorem acceptor_serves_queue base s0 s :
  wf base (acceptor s0) (kernel s0) (connections s0) → fates s0 = [] → arrived s0 = backlog (kernel s0) →
  reachable s0 s →
  ((∃ conn a' k', handleRead (acceptor s) (kernel s) = Done (conn, a', k') ∧
      (∀ fd peer, conn = Some (fd, peer) → backlog (kernel s) = peer :: backlog k' ∧ fd ∉ fds (kernel s)) ∧
      (full (kernel s) = true → conn = None) ∧
      (∀ fd peer k1, sys_accept (kernel s) = (Accepted fd peer, k1) → newConnectionCallback_ (acceptor s) = true →
         conn = Some (fd, peer)) ∧
      (healthy (kernel s) = true → idleFd_ (acceptor s) ≠ -1 → idleFd_ a' ≠ -1 ∧ served (kernel s) k')) ∨
   handleRead (acceptor s) (kernel s) = Fault (Thrown "LOG_FATAL") ∧ healthy (kernel s) = false ∧ unexpected (kernel s)) ∧
  fds (kernel s) = base ∪ {[acceptSocket_ (acceptor s)]} ∪ idle (acceptor s) ∪ connections s ∧
  idle (acceptor s) ## base ∪ {[acceptSocket_ (acceptor s)]} ∪ connections s ∧
  map peer_of (fates s) ++ backlog (kernel s) = arrived s ∧
  (∃ k', dtor (acceptor s) (kernel s) = Done k' ∧ fds k' = base ∪ connections s) ∧
  (healthy (kernel s) = true → idleFd_ (acceptor s) ≠ -1 →
   ∃ conns a' k', reads (length (backlog (kernel s))) (acceptor s) (kernel s) = Done (conns, a', k') ∧ backlog k' = []).
Proof.
  intros Hwf0 Hf0 Ha0 Hr. destruct (acceptor_reachable_inv base s0 s) as [Hwf Hlog]; [by split; [|by rewrite Hf0, Ha0]|done|].
  pose proof (wf_idle _ _ _ _ Hwf) as Hidle.
  split; [|split; [apply Hwf|split; [destruct Hwf; set_solver|split; [done|split; [by eapply acceptor_dtor_ok|]]]]].
  - destruct (acceptor_read_ok (acceptor s) (kernel s)) as [(conn & a' & k' & Hd & Hok & Hh)|?]; [left|by right].
    exists conn, a', k'. split; [done|]. split; [|split; [|split]].
    + intros fd peer ->. destruct Hok as (_ & _ & _ & (_ & Hn & _) & Hb). done.
    + intros Hfull. destruct conn as [[fd peer]|]; [|done]. destruct Hok as [Hf _]. congruence.
    + intros fd peer k1 Ha Hcb. unfold handleRead, sockets_accept in Hd. rewrite Ha in Hd. cbn in Hd.
      rewrite Hcb in Hd. by injection Hd as <- _ _.
    + intros Hk Hne%Hidle. destruct (Hh Hk Hne) as (_ & Hin%fds_nonneg & Hs). split; [lia|done].
  - intros Hk Hne%Hidle. by apply reads_ok.
Qed.

End Run.
(** ** A kernel that satisfies the interface: the open descriptors, the number
    of those that may still be opened, the queue of peers, some of which have
    given up, and whether the files of the system are used up. *)
Module TableKernel.
Record table := mkTable { used : gset nat; free : nat; waiting : list (bool * bytes); well : bool }.
Definition set_waiting (w : list (bool * bytes)) (k : table) : table := mkTable (used k) (free k) w (well k).
Definition alloc (k : table) : Z * table :=
  match free k with
  | O => (-1, k)
  | S n => let fd := fresh (used k) in (Z.of_nat fd, mkTable ({[fd]} ∪ used k) n (waiting k) (well k))
  end.
#[export] Instance table_kernel : Kernel table := {|
  sys_open k := if well k then alloc k else (-1, k);
  sys_close fd k :=
    if bool_decide (0 ≤ fd ∧ Z.to_nat fd ∈ used k) then mkTable (used k ∖ {[Z.to_nat fd]}) (S (free k)) (waiting k) (well k) else k;
  sys_accept k :=
    match free k with
    | O => (AcceptError EMFILE, k)
    | S _ =>
        if negb (well k) then (AcceptError ENFILE, k) else
        match waiting k with
        | [] => (AcceptError EAGAIN, k)
        | (true, p) :: w => let '(fd, k) := alloc (set_waiting w k) in (Accepted fd p, k)
        | (false, p) :: w => (AcceptError ECONNABORTED, set_waiting w k)
        end
    end;
  fds k := set_map Z.of_nat (used k);
  backlog k := map snd (waiting k);
  full k := bool_decide (free k = 0%nat);
  healthy := well
|}.

Lemma alloc_spec k n :
  free k = S n → opened (alloc k).1 k (alloc k).2 ∧ waiting (alloc k).2 = waiting k ∧ well (alloc k).2 = well k.
Proof.
  intros Hf. unfold alloc. rewrite Hf. split; [|done]. unfold opened. cbn. split; [lia|].
  split; [|set_solver]. intros (x & Hx & Hin)%elem_of_map. apply Nat2Z.inj in Hx as <-.
  by apply (is_fresh (used k)).
Qed.

Lemma table_open k fd k' : sys_open k = (fd, k') →
  backlog k' = backlog k ∧ (fd = -1 ∧ fds k' = fds k ∨ opened fd k k') ∧
  (healthy k = true → healthy k' = true ∧ (full k = false → fd ≠ -1)).
Proof.
  cbn. destruct (well k) eqn:Ew; [|intros [= <- <-]; split_and!; [done|by left|congruence]]. intros Ho.
  destruct (free k) as [|n] eqn:En.
  - unfold alloc in Ho. rewrite En in Ho. injection Ho as <- <-. rewrite bool_decide_true by done. split_and!; [done|by left|done].
  - destruct (alloc_spec k n En) as (H1 & H2 & H3). rewrite Ho in H1, H2, H3. cbn in H1, H2, H3. rewrite H2, H3.
    split_and!; [done|by right|]. intros _. split; [done|]. intros _. destruct H1. lia.
Qed.

Lemma table_close fd (k : table) :
  fds (sys_close fd k) = fds k ∖ {[fd]} ∧ backlog (sys_close fd k) = backlog k ∧
  (fd ∈ fds k → full (sys_close fd k) = false) ∧ (fd ∉ fds k → sys_close fd k = k) ∧
  healthy (sys_close fd k) = healthy k.
Proof.
  cbn. case_bool_decide as Hin.
  - cbn. split; [|split; [done|split; [|split; [|done]]]].
    + apply set_eq. intros x. rewrite elem_of_difference, !elem_of_map. setoid_rewrite elem_of_difference.
      rewrite elem_of_singleton. setoid_rewrite elem_of_singleton. split.
      * intros (y & -> & Hy & Hne). split; [by exists y|]. intros <-. by rewrite Nat2Z.id in Hne.
      * intros [(y & -> & Hy) Hne]. exists y. split_and!; [done..|]. intros ->. apply Hne. lia.
    + intros _. by rewrite bool_decide_false.
    + intros Hn. exfalso. apply Hn, elem_of_map. exists (Z.to_nat fd). split; [lia|apply Hin].
  - assert (Hn : fd ∉@{gset Z} set_map Z.of_nat (used k)).
    { intros (y & -> & Hy)%elem_of_map. apply Hin. rewrite Nat2Z.id. split; [lia|done]. }
    split; [set_solver|]. by split_and!.
Qed.

Lemma table_accept (k : table) r k' : sys_accept k = (r, k') →
  match r with
  | Accepted fd peer => full k = false ∧ opened fd k k' ∧ backlog k = peer :: backlog k'
  | AcceptError errno => fds k' = fds k ∧ shifted k k' ∧ (errno = EMFILE → k' = k)
  end ∧
  (healthy k = true → healthy k' = true ∧
    if full k then r = AcceptError EMFILE
    else match r with
         | Accepted fd peer => True
         | AcceptError errno =>
             full k' = false ∧
             (errno = EAGAIN ∧ k' = k ∧ backlog k = [] ∨
              errno ∈ [ECONNABORTED; EPROTO; EPERM] ∧ ∃ peer, backlog k = peer :: backlog k')
         end).
Proof.
  unfold shifted. cbn. destruct (free k) as [|n] eqn:En.
  { intros [= <- <-]. rewrite ?En, !bool_decide_true by done. split; [|done]. split_and!; [done|by left|done]. }
  rewrite bool_decide_false by done. destruct (well k) eqn:Ewell; cbn [negb].
  2: { intros [= <- <-]. split; [|congruence]. split_and!; [done|by left|done]. }
  destruct (waiting k) as [|[[] p] w] eqn:Ew.
  - intros [= <- <-]. rewrite En, Ew, Ewell. split; [split_and!; [done|by left|done]|]. intros _. by split_and!; [..|left].
  - destruct (alloc_spec (set_waiting w k) n En) as (H1 & H2 & H3).
    destruct (alloc (set_waiting w k)) as [fd k1]. intros [= <- <-]. cbn in H2, H3. rewrite H2, H3. by split_and!.
  - intros [= <- <-]. cbn. rewrite En. split; [split_and!; [done|by right; exists p|done]|]. intros _. split; [done|].
    rewrite bool_decide_false by done. split; [done|]. right. split; [set_solver|]. by exists p.
Qed.

#[export] Instance table_kernel_ok : KernelOk table.
Proof.
  split.
  - apply table_open.
  - apply table_close.
  - intros k r k' Ha. by apply table_accept.
  - intros k r k' Ha. by apply table_accept.
  - cbn. intros k fd (y & -> & _)%elem_of_map. lia.
Qed.
End TableKernel.
Import TableKernel.

(** A process with no free descriptor and three peers, one of which has gone. *)
Definition sample_acceptor : t := mk 3 (Channel.enableReading Channel.make) true true 4.
Definition sample_queue : list (bool * bytes) := [(true, bs "a"); (false, bs "b"); (true, bs "c")].
Definition sample_kernel : table := mkTable {[0; 1; 2; 3; 4]}%nat 0 sample_queue true.
Definition sample : st := mkSt sample_acceptor sample_kernel ∅ [] [bs "a"; bs "b"; bs "c"].

Lemma acceptor_serves_queue_witness :
  ∃ conns a' k', reads 3 sample_acceptor sample_kernel = Done (conns, a', k') ∧ backlog k' = [].
Proof.
  refine (proj2 (proj2 (proj2 (proj2 (proj2
    (acceptor_serves_queue {[0; 1; 2]} sample sample _ eq_refl eq_refl (reach_start _)))))) eq_refl ltac:(done)).
  split; [apply (bool_decide_unpack _); vm_compute; reflexivity|done|..];
    split_and!; try (apply (bool_decide_unpack _); vm_compute; reflexivity); set_solver.
Defined.

(** With a free descriptor the first is handed over, which uses it up; of the
    others one has gone and one is dismissed. *)
Example one_handed_over :
  match reads 3 sample_acceptor (mkTable {[0; 1; 2; 3; 4]}%nat 1 sample_queue true) with
  | Done (conns, _, k) => (conns, backlog k, full k)
  | Fault _ => ([], [], false)
  end = ([(5, bs "a")], [], true).
Proof. vm_compute. reflexivity. Qed.

(** A system out of files ends the process, although it could try again. *)
Example no_files_fatal :
  handleRead sample_acceptor (mkTable {[0; 1; 2; 3; 4]}%nat 1 sample_queue false) = Fault (Thrown "LOG_FATAL").
Proof. vm_compute. reflexivity. Qed.

(** With the process out of descriptors as well, giving up the idle descriptor
    gains nothing and it is lost: the peers stay in the queue. *)
Example idle_lost :
  match handleRead sample_acceptor (mkTable {[0; 1; 2; 3; 4]}%nat 0 sample_queue false) with
  | Done (conn, a, k) => (conn, idleFd_ a, length (backlog k))
  | Fault _ => (None, 0, 0%nat)
  end = (None, -1, 3%nat).
Proof. vm_compute. reflexivity. Qed.

End Acceptor.
