(* ===== verification/Client.v ===== *)
(** The client side (src/IMServer/src/muduo/net: Connector.h, Connector.cc,
    TcpClient.h, TcpClient.cc): the connector with its back-off, the client that
    owns it and one connection at a time (TcpConnection.v), and the rounds of the
    loop they run in: what is polled is handled, then the functors queued so far
    are called.  Results of system calls are inputs; members that other threads
    may call are steps that may come at any point. *)

From S2P Require Import Prelude CDouble Buffer TcpConnection.
Local Open Scope Z_scope.

Module Connector.

Definition kMaxRetryDelayMs : Z := 30 * 1000.
Definition kInitRetryDelayMs : Z := 500.

Inductive States := kDisconnected | kConnecting | kConnected.
#[global] Instance States_eq_dec : EqDecision States.
Proof. solve_decision. Defined.

(** [channel_] is the descriptor and its channel. *)
Record t := mk {
  connect_ : bool;
  state_ : States;
  channel_ : option (Z * Channel.t);
  retryDelayMs_ : Z
}.
Definition set_connect b s := mk b (state_ s) (channel_ s) (retryDelayMs_ s).
Definition setState x s := mk (connect_ s) x (channel_ s) (retryDelayMs_ s).
Definition set_channel x s := mk (connect_ s) (state_ s) x (retryDelayMs_ s).
Definition set_delay x s := mk (connect_ s) (state_ s) (channel_ s) x.

(** What the members do beside changing the object, in order. *)
Inductive act :=
  | Open (fd : Z)                         (* [createNonblockingOrDie] *)
  | Close (fd : Z)                        (* [sockets::close] *)
  | GiveUp (errno : Z)                    (* an error of [connect] that is only logged *)
  | QueueReset                            (* [resetChannel] is queued *)
  | RunAfter (ms : Z)                     (* [startInLoop] after so many milliseconds *)
  | NewConnection (fd : Z).               (* [newConnectionCallback_] *)

(** [Connector( loop, serverAddr )], [~Connector()] *)
Definition make : t := mk false kDisconnected None kInitRetryDelayMs.
Definition dtor (s : t) : outcome unit := cassert (bool_decide (channel_ s = None)) "!channel_".

(** [retry( sockfd )] *)
Definition retry (sockfd : Z) (s : t) : list act * t :=
  let s := setState kDisconnected s in
  if connect_ s then
    ([Close sockfd; RunAfter (retryDelayMs_ s)], set_delay (Z.min (retryDelayMs_ s * 2) kMaxRetryDelayMs) s)
  else ([Close sockfd], s).

(** [connecting( sockfd )] *)
Definition connecting (sockfd : Z) (s : t) : outcome t :=
  let s := setState kConnecting s in
  _ ← cassert (bool_decide (channel_ s = None)) "!channel_";
  Done (set_channel (Some (sockfd, Channel.enableWriting Channel.make)) s).

Definition EINTR : Z := 4.
Definition EAGAIN : Z := 11.
Definition EADDRINUSE : Z := 98.
Definition EADDRNOTAVAIL : Z := 99.
Definition ENETUNREACH : Z := 101.
Definition EISCONN : Z := 106.
Definition ECONNREFUSED : Z := 111.
Definition EINPROGRESS : Z := 115.

(** [connect()]: [sys] is the new descriptor and the error of [connect], 0 for
    none. *)
Definition connect (sys : Z * Z) (s : t) : outcome (list act * t) :=
  let '(sockfd, savedErrno) := sys in
  if bool_decide (savedErrno ∈ [0; EINPROGRESS; EINTR; EISCONN]) then
    s ← connecting sockfd s; Done ([Open sockfd], s)
  else if bool_decide (savedErrno ∈ [EAGAIN; EADDRINUSE; EADDRNOTAVAIL; ECONNREFUSED; ENETUNREACH]) then
    let '(acts, s) := retry sockfd s in Done (Open sockfd :: acts, s)
  else Done ([Open sockfd; GiveUp savedErrno; Close sockfd], s).

(** [startInLoop()] *)
Definition startInLoop (sys : Z * Z) (s : t) : outcome (list act * t) :=
  _ ← cassert (bool_decide (state_ s = kDisconnected)) "state_ == kDisconnected";
  if connect_ s then connect sys s else Done ([], s).

(** [restart()] *)
Definition restart (sys : Z * Z) (s : t) : outcome (list act * t) :=
  startInLoop sys (set_connect true (set_delay kInitRetryDelayMs (setState kDisconnected s))).

(** [removeAndResetChannel()]: the descriptor; [resetChannel] is queued. *)
Definition removeAndResetChannel (s : t) : outcome (Z * t) :=
  match channel_ s with
  | Some (sockfd, channel) =>
      channel ← Channel.remove (Channel.disableAll channel);
      Done (sockfd, set_channel (Some (sockfd, channel)) s)
  | None => Fault (Undefined "channel_ is null")
  end.
Definition resetChannel (s : t) : t := set_channel None s.

(** [stopInLoop()] *)
Definition stopInLoop (s : t) : outcome (list act * t) :=
  if decide (state_ s = kConnecting) then
    '(sockfd, s) ← removeAndResetChannel (setState kDisconnected s);
    let '(acts, s) := retry sockfd s in Done (QueueReset :: acts, s)
  else Done ([], s).

(** [handleWrite()]: [err] is the error of the socket, [self] whether it is
    connected to itself. *)
Definition handleWrite (err : Z) (self : bool) (s : t) : outcome (list act * t) :=
  if decide (state_ s = kConnecting) then
    '(sockfd, s) ← removeAndResetChannel s;
    if negb (err =? 0) then let '(acts, s) := retry sockfd s in Done (QueueReset :: acts, s)
    else if self then let '(acts, s) := retry sockfd s in Done (QueueReset :: acts, s)
    else
      let s := setState kConnected s in
      if connect_ s then Done ([QueueReset; NewConnection sockfd], s)
      else Done ([QueueReset; Close sockfd], s)
  else
    _ ← cassert (bool_decide (state_ s = kDisconnected)) "state_ == kDisconnected";
    Done ([], s).

(** [handleError()] *)
Definition handleError (s : t) : outcome (list act * t) :=
  if decide (state_ s = kConnecting) then
    '(sockfd, s) ← removeAndResetChannel s;
    let '(acts, s) := retry sockfd s in Done (QueueReset :: acts, s)
  else Done ([], s).

(** The callbacks of the channel for the events [revents]; those for reading and
    closing are not set. *)
Fixpoint run_handlers (hs : list Channel.handler) (err : Z) (self : bool) (s : t) : outcome (list act * t) :=
  match hs with
  | [] => Done ([], s)
  | h :: hs =>
      '(acts, s) ← match h with
                   | Channel.OnError => handleError s
                   | Channel.OnWrite => handleWrite err self s
                   | Channel.OnClose | Channel.OnRead => Done ([], s)
                   end;
      '(more, s) ← run_handlers hs err self s;
      Done (acts ++ more, s)
  end.
Definition handleEvent (revents err : Z) (self : bool) (s : t) : outcome (list act * t) :=
  run_handlers (Channel.handleEventWithGuard revents) err self s.
End Connector.

Module TcpClient.

(** What is queued in the loop. *)
Inductive functor :=
  | StartInLoop | StopInLoop | ResetChannel   (* of the connector *)
  | ConnectDestroyed (c : Z) | ForceCloseInLoop (c : Z).  (* of a connection *)
#[export] Instance functor_eq_dec : EqDecision functor.
Proof. solve_decision. Defined.

(** What a timer runs; [fresh] says that nothing was polled since it was made. *)
Inductive task := Retry | RemoveConnector | ForceCloseLater (c : Z).
#[export] Instance task_eq_dec : EqDecision task.
Proof. solve_decision. Defined.
Record timer := mkTimer { what : task; fresh : bool }.

(** The members of [TcpClient], and whether it was destroyed. *)
Record client := mkClient {
  name_ : bytes;
  retry_ : bool;
  connect_ : bool;
  nextConnId_ : Z;
  connection_ : option Z;
  destroyed : bool
}.
(** The loop: whether it is handling what it polled or calling functors, the
    functors of this round and those queued for the next, the timers, and which
    connections were made, and whether a channel was, since it polled. *)
Record loop := mkLoop {
  handling : bool;
  calling : list functor;
  pendingFunctors_ : list functor;
  timers : list timer;
  new_connections : list Z;
  new_channel : bool
}.
(** What happened: descriptors opened and closed, delays of retries, and whether
    [connect] failed in a way that is not tried again. *)
Record log := mkLog { opened : list Z; closed : list Z; waits : list Z; gave_up : bool }.

Record t := mk {
  connector_ : option Connector.t;
  client_ : client;
  loop_ : loop;
  connections : gmap Z (Z * TcpConnection.t);   (* with their descriptors *)
  log_ : log
}.
Definition set_connector x s := mk x (client_ s) (loop_ s) (connections s) (log_ s).
Definition set_client x s := mk (connector_ s) x (loop_ s) (connections s) (log_ s).
Definition set_loop x s := mk (connector_ s) (client_ s) x (connections s) (log_ s).
Definition set_connections x s := mk (connector_ s) (client_ s) (loop_ s) x (log_ s).
Definition set_log x s := mk (connector_ s) (client_ s) (loop_ s) (connections s) x.

Definition set_connect b c := mkClient (name_ c) (retry_ c) b (nextConnId_ c) (connection_ c) (destroyed c).
Definition set_connection x c := mkClient (name_ c) (retry_ c) (connect_ c) (nextConnId_ c) x (destroyed c).
Definition queueInLoop (f : functor) (s : t) : t :=
  let l := loop_ s in
  set_loop (mkLoop (handling l) (calling l) (pendingFunctors_ l ++ [f]) (timers l) (new_connections l) (new_channel l)) s.
Definition runAfter (w : task) (s : t) : t :=
  let l := loop_ s in
  set_loop (mkLoop (handling l) (calling l) (pendingFunctors_ l) (timers l ++ [mkTimer w true]) (new_connections l) (new_channel l)) s.

(** [TcpClient( loop, serverAddr, nameArg )] *)
Definition make (nameArg : bytes) : t :=
  mk (Some Connector.make) (mkClient nameArg false true 1 None false)
    (mkLoop false [] [] [] [] false) ∅ (mkLog [] [] [] false).

(** What the callbacks an operation of connection [c] asked for queue. *)
Definition queue_call (c : Z) (k : call) (s : t) : t :=
  match k with
  | QueueForceClose => queueInLoop (ForceCloseInLoop c) s
  | TimerForceClose => runAfter (ForceCloseLater c) s
  | _ => s
  end.

(** [stop()] and [disconnect()]; [enableRetry()] *)
Definition Connector_stop (s : t) : outcome t :=
  match connector_ s with
  | Some k => Done (queueInLoop StopInLoop (set_connector (Some (Connector.set_connect false k)) s))
  | None => Fault (Undefined "connector_ is gone")
  end.
Definition stop (s : t) : outcome t := Connector_stop (set_client (set_connect false (client_ s)) s).

(** What a user does with a connection, at any time. *)
Definition on_connection (c : Z) (o : TcpConnection.op) (s : t) : outcome t :=
  match connections s !! c with
  | Some (fd, x) =>
      '(x, calls) ← TcpConnection.run_op o x;
      Done (foldl (λ s k, queue_call c k s) (set_connections (<[c := (fd, x)]> (connections s)) s) calls)
  | None => Done s
  end.
Definition disconnect (s : t) : outcome t :=
  let s := set_client (set_connect false (client_ s)) s in
  match connection_ (client_ s) with
  | Some c => on_connection c TcpConnection.Shutdown s
  | None => Done s
  end.
Definition enableRetry (s : t) : t :=
  let c := client_ s in set_client (mkClient (name_ c) true (connect_ c) (nextConnId_ c) (connection_ c) (destroyed c)) s.

(** What the connection callback of the user may do. *)
Inductive reaction := DoStop | DoDisconnect | DoEnableRetry | DoShutdown (c : Z) | DoForceClose (c : Z) | DoForceCloseLater (c : Z).
Definition react (r : reaction) (s : t) : outcome t :=
  match r with
  | DoStop => stop s
  | DoDisconnect => disconnect s
  | DoEnableRetry => Done (enableRetry s)
  | DoShutdown c => on_connection c TcpConnection.Shutdown s
  | DoForceClose c => on_connection c TcpConnection.ForceClose s
  | DoForceCloseLater c => on_connection c TcpConnection.ForceCloseLater s
  end.
Fixpoint react_all (rs : list reaction) (s : t) : outcome t :=
  match rs with [] => Done s | r :: rs => s ← react r s; react_all rs s end.

(** [newConnection( sockfd )]: [snprintf] into 32 bytes keeps 31 characters;
    [connectEstablished] ends with the connection callback. *)
Definition connName (peer : bytes) (c : client) : bytes :=
  name_ c ++ take 31 (bs ":" ++ peer ++ bs "#" ++ signed_decimal (nextConnId_ c)).
Definition newConnection (peer : bytes) (rs : list reaction) (sockfd : Z) (s : t) : outcome t :=
  let c := client_ s in
  let id := nextConnId_ c in
  _ ← defined_if (id <? INT_MAX) "++nextConnId_";
  let conn := TcpConnection.make (connName peer c) in
  let s := set_client (mkClient (name_ c) (retry_ c) (connect_ c) (id + 1) (Some id) (destroyed c)) s in
  '(conn, _) ← TcpConnection.connectEstablished conn;
  let l := loop_ s in
  let s := set_loop (mkLoop (handling l) (calling l) (pendingFunctors_ l) (timers l) (id :: new_connections l) (new_channel l)) s in
  react_all rs (set_connections (<[id := (sockfd, conn)]> (connections s)) s).

(** What a member of the connector asks for. *)
Definition do_act (peer : bytes) (rs : list reaction) (a : Connector.act) (s : t) : outcome t :=
  let l := log_ s in
  match a with
  | Connector.Open fd =>
      let lp := loop_ s in
      let s := set_loop (mkLoop (handling lp) (calling lp) (pendingFunctors_ lp) (timers lp) (new_connections lp) true) s in
      Done (set_log (mkLog (opened l ++ [fd]) (closed l) (waits l) (gave_up l)) s)
  | Connector.Close fd => Done (set_log (mkLog (opened l) (closed l ++ [fd]) (waits l) (gave_up l)) s)
  | Connector.GiveUp _ => Done (set_log (mkLog (opened l) (closed l) (waits l) true) s)
  | Connector.QueueReset => Done (queueInLoop ResetChannel s)
  | Connector.RunAfter ms => Done (runAfter Retry (set_log (mkLog (opened l) (closed l) (waits l ++ [ms]) (gave_up l)) s))
  | Connector.NewConnection fd => newConnection peer rs fd s
  end.
Fixpoint do_acts (peer : bytes) (rs : list reaction) (acts : list Connector.act) (s : t) : outcome t :=
  match acts with [] => Done s | a :: acts => s ← do_act peer rs a s; do_acts peer rs acts s end.
Definition with_connector (f : Connector.t → outcome (list Connector.act * Connector.t)) (peer : bytes) (rs : list reaction) (s : t) :
    outcome t :=
  match connector_ s with
  | Some k => '(acts, k) ← f k; do_acts peer rs acts (set_connector (Some k) s)
  | None => Fault (Undefined "Connector: freed")
  end.

(** [connect()]: in the thread of the loop [startInLoop] is called at once. *)
Definition connect (in_loop : bool) (sys : Z * Z) (s : t) : outcome t :=
  let s := set_client (set_connect true (client_ s)) s in
  match connector_ s with
  | Some k =>
      let l := log_ s in
      let s := set_log (mkLog (opened l) (closed l) (waits l) false) (set_connector (Some (Connector.set_connect true k)) s) in
      if in_loop then with_connector (Connector.startInLoop sys) [] [] s else Done (queueInLoop StartInLoop s)
  | None => Fault (Undefined "connector_ is gone")
  end.

(** [removeConnection( conn )], or [detail::removeConnection] once the client is
    destroyed. *)
Definition removeConnection (sys : Z * Z) (c : Z) (s : t) : outcome t :=
  if destroyed (client_ s) then Done (queueInLoop (ConnectDestroyed c) s)
  else
    _ ← cassert (bool_decide (connection_ (client_ s) = Some c)) "connection_ == conn";
    let s := queueInLoop (ConnectDestroyed c) (set_client (set_connection None (client_ s)) s) in
    if retry_ (client_ s) && connect_ (client_ s) then
      let l := log_ s in
      with_connector (Connector.restart sys) [] [] (set_log (mkLog (opened l) (closed l) [] false) s)
    else Done s.

(** Runs the callbacks an operation of connection [c] asked for. *)
Definition run_call (sys : Z * Z) (rs : list reaction) (c : Z) (k : call) (s : t) : outcome t :=
  match k with
  | ConnectionCallback => react_all rs s
  | CloseCallback => removeConnection sys c s
  | _ => Done (queue_call c k s)
  end.
Fixpoint run_calls (sys : Z * Z) (rs : list reaction) (c : Z) (ks : list call) (s : t) : outcome t :=
  match ks with [] => Done s | k :: ks => s ← run_call sys rs c k s; run_calls sys rs c ks s end.
Definition connection_event (sys : Z * Z) (rs : list reaction) (c : Z) (o : TcpConnection.op) (s : t) : outcome t :=
  match connections s !! c with
  | Some (fd, x) =>
      '(x, calls) ← TcpConnection.run_op o x;
      run_calls sys rs c calls (set_connections (<[c := (fd, x)]> (connections s)) s)
  | None => Done s
  end.

(** [connectDestroyed] of a connection, after which it goes and its socket with it. *)
Definition connection_destroyed (c : Z) (s : t) : outcome t :=
  match connections s !! c with
  | Some (fd, x) =>
      '(x, _) ← TcpConnection.connectDestroyed x;
      _ ← TcpConnection.dtor x;
      let l := log_ s in
      Done (set_log (mkLog (opened l) (closed l ++ [fd]) (waits l) (gave_up l)) (set_connections (delete c (connections s)) s))
  | None => Fault (Undefined "TcpConnection: freed")
  end.

(** The connector goes with the last pointer to it: the client, and the timers
    that hold one. *)
Definition holds_connector (w : timer) : bool := match what w with ForceCloseLater _ => false | _ => true end.
Definition release (s : t) : outcome t :=
  match connector_ s with
  | Some k =>
      if destroyed (client_ s) && negb (existsb holds_connector (timers (loop_ s)))
      then _ ← Connector.dtor k; Done (set_connector None s)
      else Done s
  | None => Done s
  end.

(** [~TcpClient()], in the thread of the loop; [unique] is [connection_.unique()]. *)
Definition dtor (unique : bool) (s : t) : outcome t :=
  let c := client_ s in
  s ← match connection_ c with
      | Some id => if unique then on_connection id TcpConnection.ForceClose s else Done s
      | None => s ← Connector_stop s; Done (runAfter RemoveConnector s)
      end;
  let c := client_ s in
  release (set_client (mkClient (name_ c) (retry_ c) (connect_ c) (nextConnId_ c) None true) s).

(** ** The loop *)

(** A functor is called. *)
Definition call_functor (sys : Z * Z) (rs : list reaction) (f : functor) (s : t) : outcome t :=
  match f with
  | StartInLoop => with_connector (Connector.startInLoop sys) [] [] s
  | StopInLoop => with_connector Connector.stopInLoop [] [] s
  | ResetChannel => with_connector (λ k, Done ([], Connector.resetChannel k)) [] [] s
  | ConnectDestroyed c => connection_destroyed c s
  | ForceCloseInLoop c => connection_event sys rs c TcpConnection.RunForceClose s
  end.
(** A timer runs. *)
Definition run_task (sys : Z * Z) (w : task) (s : t) : outcome t :=
  match w with
  | Retry => s ← with_connector (Connector.startInLoop sys) [] [] s; release s
  | RemoveConnector => release s
  | ForceCloseLater c => on_connection c TcpConnection.ForceClose s
  end.

Inductive op :=
  | Connect (in_loop : bool) (sys : Z * Z)
  | React (r : reaction)                  (* a member is called outside of a callback *)
  | Use (c : Z) (o : TcpConnection.op)    (* a connection is used *)
  | Destroy (unique : bool)               (* the client is destroyed *)
  | BeginCalling                          (* [doPendingFunctors] takes the functors *)
  | CallFunctor (sys : Z * Z) (rs : list reaction)
  | Poll                                  (* the next iteration *)
  | ConnectorEvent (revents err : Z) (self : bool) (peer : bytes) (rs : list reaction)
  | ConnectionEvent (c : Z) (o : TcpConnection.op) (sys : Z * Z) (rs : list reaction)
  | TimerFires (i : nat) (sys : Z * Z).

Definition run (o : op) (s : t) : outcome t :=
  let l := loop_ s in
  match o with
  | Connect in_loop sys => connect in_loop sys s
  | React r => react r s
  | Use c o => on_connection c o s
  | Destroy unique => dtor unique s
  | BeginCalling => Done (set_loop (mkLoop false (pendingFunctors_ l) [] (timers l) (new_connections l) (new_channel l)) s)
  | CallFunctor sys rs =>
      match calling l with
      | f :: fs =>
          call_functor sys rs f (set_loop (mkLoop (handling l) fs (pendingFunctors_ l) (timers l) (new_connections l) (new_channel l)) s)
      | [] => Done s
      end
  | Poll => Done (set_loop (mkLoop true [] (pendingFunctors_ l) (map (λ w, mkTimer (what w) false) (timers l)) [] false) s)
  | ConnectorEvent revents err self peer rs => with_connector (Connector.handleEvent revents err self) peer rs s
  | ConnectionEvent c o sys rs => connection_event sys rs c o s
  | TimerFires i sys =>
      match timers l !! i with
      | Some w =>
          run_task sys (what w) (set_loop (mkLoop (handling l) (calling l) (pendingFunctors_ l) (delete i (timers l)) (new_connections l) (new_channel l)) s)
      | None => Done s
      end
  end.
End TcpClient.

(** * The discipline of the users and of the loop *)
Section discipline.
Import TcpClient.

(** The functors to be called: those in [hand], those of this round, those queued. *)
Definition functors (hand : list functor) (s : t) : list functor := hand ++ calling (loop_ s) ++ pendingFunctors_ (loop_ s).
Definition count (f : functor) (l : list functor) : nat := count_occ functor_eq_dec l f.
Definition of_connector (f : functor) : bool := match f with StartInLoop | StopInLoop | ResetChannel => true | _ => false end.
Definition retry_timers (ws : list timer) : nat := length (filter (λ w, what w = Retry) ws).
Definition retries (s : t) : nat := retry_timers (timers (loop_ s)).

(** [connect()] is for a connector that is doing nothing. *)
Definition idle (s : t) : Prop :=
  ∃ k, connector_ s = Some k ∧ Connector.state_ k = Connector.kDisconnected ∧ Connector.channel_ k = None ∧
    count StartInLoop (functors [] s) = 0%nat ∧ count StopInLoop (functors [] s) = 0%nat ∧ retries s = 0%nat.
(** Members of a client are not called after it was destroyed. *)
Definition reaction_ok (s : t) (r : reaction) : Prop :=
  match r with DoStop | DoDisconnect | DoEnableRetry => destroyed (client_ s) = false | _ => True end.
Definition user_op (o : TcpConnection.op) : bool :=
  match o with
  | TcpConnection.Send _ _ | TcpConnection.Consume _ | TcpConnection.Shutdown | TcpConnection.ForceClose
  | TcpConnection.ForceCloseLater | TcpConnection.StartRead | TcpConnection.StopRead => true
  | _ => false
  end.
Definition loop_event (o : TcpConnection.op) : bool :=
  match o with TcpConnection.Readable _ | TcpConnection.Writable _ | TcpConnection.HangUp | TcpConnection.RunForceClose => true | _ => false end.

(** When an operation may happen.  The loop handles only channels and timers it
    polled; a client with a connection is destroyed only when its connector has
    nothing queued; when the last timer that keeps the connector of a destroyed
    client runs, the functors queued when the client was destroyed were called. *)
Definition enabled (o : op) (s : t) : Prop :=
  let l := loop_ s in
  match o with
  | Connect _ _ => destroyed (client_ s) = false ∧ idle s
  | React r => reaction_ok s r
  | Use c o => user_op o = true ∧ ∃ fd x, connections s !! c = Some (fd, x) ∧ TcpConnection.enabled o x
  | Destroy _ =>
      destroyed (client_ s) = false ∧
      (connection_ (client_ s) ≠ None → ∀ f, f ∈ functors [] s → of_connector f = false)
  | BeginCalling => handling l = true
  | CallFunctor _ rs => handling l = false ∧ calling l ≠ [] ∧ Forall (reaction_ok s) rs
  | Poll => handling l = false ∧ calling l = []
  | ConnectorEvent _ _ _ _ rs =>
      handling l = true ∧ new_channel l = false ∧ Forall (reaction_ok s) rs ∧ nextConnId_ (client_ s) < INT_MAX ∧
      ∃ k fd ch, connector_ s = Some k ∧ Connector.channel_ k = Some (fd, ch) ∧ Channel.addedToLoop_ ch = true
  | ConnectionEvent c o _ rs =>
      handling l = true ∧ loop_event o = true ∧ Forall (reaction_ok s) rs ∧ c ∉ new_connections l ∧
      ∃ fd x, connections s !! c = Some (fd, x) ∧ TcpConnection.enabled o x
  | TimerFires i _ =>
      handling l = true ∧ ∃ w, timers l !! i = Some w ∧ fresh w = false ∧
      (destroyed (client_ s) = true → existsb holds_connector (delete i (timers l)) = false →
       ∀ f, f ∈ functors [] s → of_connector f = false)
  end.

Inductive step (s : t) : t → Prop :=
  | step_intro o s' : enabled o s → run o s = Done s' → step s s'.

(** ** The invariant *)

(** The functors that will be called before the loop polls again. *)
Definition current (hand : list functor) (s : t) : list functor :=
  hand ++ if handling (loop_ s) then pendingFunctors_ (loop_ s) else calling (loop_ s).
(** The delay before the [n]-th retry in a row. *)
Definition delay_of (n : nat) : Z := Z.min (Connector.kInitRetryDelayMs * 2 ^ Z.of_nat n) Connector.kMaxRetryDelayMs.

(** The channel of the connector: registered while connecting, removed with a
    [resetChannel] on its way, or none. *)
Definition channel_ok (k : Connector.t) (resets : nat) : Prop :=
  match Connector.channel_ k with
  | None => resets = 0%nat ∧ Connector.state_ k ≠ Connector.kConnecting
  | Some (fd, ch) =>
      if Channel.addedToLoop_ ch then Connector.state_ k = Connector.kConnecting ∧ resets = 0%nat
      else Connector.state_ k ≠ Connector.kConnecting ∧ resets = 1%nat
  end.
(** No [forceCloseInLoop] of [c] before the [resetChannel]. *)
Definition reset_first (c : Z) (l : list functor) : Prop := ∃ l1 l2, l = l1 ++ ResetChannel :: l2 ∧ ForceCloseInLoop c ∉ l1.

Section in_hand.
Context (hand : list functor).

Record connector_ok (k : Connector.t) (s : t) : Prop := {
  k_channel : channel_ok k (count ResetChannel (functors hand s));
  k_tokens : (count StartInLoop (functors hand s) + retries s ≤ 1)%nat;
  k_waiting : (0 < count StartInLoop (functors hand s) + retries s)%nat → Connector.state_ k = Connector.kDisconnected;
  k_start : (0 < count StartInLoop (functors hand s))%nat → Connector.channel_ k = None;
  k_timer w : w ∈ timers (loop_ s) → what w = Retry →
    Connector.channel_ k = None ∨ fresh w = true ∧ (0 < count ResetChannel (current hand s))%nat;
  k_stop : (0 < count StopInLoop (functors hand s))%nat → Connector.connect_ k = false;
  k_running : destroyed (client_ s) = false → TcpClient.connect_ (client_ s) = true → count StopInLoop (functors hand s) = 0%nat;
  k_destroyed : destroyed (client_ s) = true → Connector.connect_ k = false ∧
    (Connector.state_ k = Connector.kConnecting → 0 < count StopInLoop (functors hand s))%nat;
  k_delay : ∃ n, waits (log_ s) = map delay_of (seq 0 n) ∧ Connector.retryDelayMs_ k = delay_of n
}.

(** [cl] is a connection whose callbacks for closing are running.
    A connection is up and the client's, or is up after the client was destroyed,
    or is down and about to be destroyed. *)
Context (cl : option Z).
Definition connection_ok (s : t) (c : Z) (x : TcpConnection.t) : Prop :=
  TcpConnection.inv x ∧ 1 ≤ c < nextConnId_ (client_ s) ∧
  if decide (cl = Some c) then
    TcpConnection.state_ x = kDisconnected ∧ (connection_ (client_ s) = Some c ∨ destroyed (client_ s) = true) ∧
    count (ConnectDestroyed c) (functors hand s) = 0%nat
  else
    is_up x ∧ (connection_ (client_ s) = Some c ∨ destroyed (client_ s) = true) ∧ count (ConnectDestroyed c) (functors hand s) = 0%nat ∨
    TcpConnection.state_ x = kDisconnected ∧ connection_ (client_ s) ≠ Some c ∧ count (ConnectDestroyed c) (functors hand s) = 1%nat.

(** The descriptors in use. *)
Definition connector_fd (k : option Connector.t) : list Z :=
  match k with
  | Some k => match Connector.channel_ k with
              | Some (fd, ch) => if Channel.addedToLoop_ ch then [fd] else []
              | None => []
              end
  | None => []
  end.
Definition connection_fds (m : gmap Z (Z * TcpConnection.t)) : list Z := (λ p, p.2.1) <$> map_to_list m.

Record core (s : t) : Prop := {
  c_connector : match connector_ s with
                | Some k => connector_ok k s
                | None => destroyed (client_ s) = true ∧ (∀ f, f ∈ functors hand s → of_connector f = false) ∧ retries s = 0%nat
                end;
  c_connection c : connection_ (client_ s) = Some c → destroyed (client_ s) = false ∧ is_Some (connections s !! c) ∧
    ∃ k, connector_ s = Some k ∧ Connector.state_ k = Connector.kConnected ∧
      (Connector.channel_ k = None ∨ cl ≠ Some c ∧ c ∈ new_connections (loop_ s) ∧ reset_first c (current hand s));
  c_connections c fd x : connections s !! c = Some (fd, x) → connection_ok s c x;
  c_closing c : cl = Some c → is_Some (connections s !! c);
  c_destroy c : (0 < count (ConnectDestroyed c) (functors hand s))%nat → is_Some (connections s !! c);
  c_close c : (0 < count (ForceCloseInLoop c) (functors hand s))%nat → c < nextConnId_ (client_ s);
  c_next : 1 ≤ nextConnId_ (client_ s);
  c_remove w : destroyed (client_ s) = false → w ∈ timers (loop_ s) → what w ≠ RemoveConnector;
  c_handling : handling (loop_ s) = true → hand = [] ∧ calling (loop_ s) = [];
  c_fds : opened (log_ s) ≡ₚ closed (log_ s) ++ connector_fd (connector_ s) ++ connection_fds (connections s)
}.
End in_hand.

(** A connector that should connect is doing so, is connected, is going to try, or
    gave up. *)
Definition progress (s : t) : Prop := ∀ k, connector_ s = Some k → Connector.connect_ k = true →
  Connector.state_ k ≠ Connector.kDisconnected ∨ (count StartInLoop (functors [] s) + retries s = 1)%nat ∨ gave_up (log_ s) = true.
End discipline.

#[local] Arguments count : simpl never.
#[local] Arguments retry_timers : simpl never.
#[local] Arguments is_up : simpl never.

(** * Lemmas *)
Section lemmas.
Import TcpClient.

Lemma count_app f l k : count f (l ++ k) = (count f l + count f k)%nat.
Proof. apply count_occ_app. Qed.
Lemma count_cons f g l : count f (g :: l) = ((if decide (g = f) then 1 else 0) + count f l)%nat.
Proof. unfold count. cbn. destruct (functor_eq_dec g f), (decide (g = f)); congruence || done. Qed.
Lemma count_nil f : count f [] = 0%nat.
Proof. done. Qed.
Lemma count_in f l : (0 < count f l)%nat ↔ f ∈ l.
Proof. unfold count. rewrite list_elem_of_In. symmetry. apply count_occ_In. Qed.
Lemma count_none f l : of_connector f = true → (∀ g, g ∈ l → of_connector g = false) → count f l = 0%nat.
Proof. intros Hf Hl. destruct (count f l) eqn:E; [done|]. assert (f ∈ l) as H%Hl by (apply count_in; lia). congruence. Qed.

Lemma retry_timers_app l k : retry_timers (l ++ k) = (retry_timers l + retry_timers k)%nat.
Proof. unfold retry_timers. by rewrite filter_app, length_app. Qed.
Lemma retry_timers_one w b : retry_timers [mkTimer w b] = (if decide (w = Retry) then 1 else 0)%nat.
Proof. unfold retry_timers. rewrite filter_cons. cbn [what]. by case_decide. Qed.
Lemma retry_timers_delete ws i w : ws !! i = Some w → retry_timers ws = ((if decide (what w = Retry) then 1 else 0) + retry_timers (delete i ws))%nat.
Proof.
  intros Hi. rewrite delete_take_drop, <-(take_drop_middle ws i w Hi) at 1. rewrite !retry_timers_app.
  change (w :: drop (S i) ws) with ([w] ++ drop (S i) ws). rewrite retry_timers_app.
  assert (retry_timers [w] = if decide (what w = Retry) then 1 else 0)%nat as ->; [|lia].
  unfold retry_timers. rewrite filter_cons. by case_decide.
Qed.
Lemma retry_timers_map ws : retry_timers (map (λ w, mkTimer (what w) false) ws) = retry_timers ws.
Proof. unfold retry_timers. induction ws as [|w ws IH]; [done|]. cbn [map]. rewrite !filter_cons. cbn [what]. case_decide; cbn; by rewrite IH. Qed.
Lemma retry_timer_in ws w : w ∈ ws → what w = Retry → (0 < retry_timers ws)%nat.
Proof.
  intros Hw Hr. unfold retry_timers. assert (w ∈ filter (λ w, what w = Retry) ws) as H by by apply list_elem_of_filter.
  destruct (filter _ ws); [by apply not_elem_of_nil in H|cbn; lia].
Qed.

Lemma fds_insert m c fd x : m !! c = None → connection_fds (<[c := (fd, x)]> m) ≡ₚ fd :: connection_fds m.
Proof. intros H. unfold connection_fds. by rewrite map_to_list_insert. Qed.
Lemma fds_delete m c fd x : m !! c = Some (fd, x) → connection_fds m ≡ₚ fd :: connection_fds (delete c m).
Proof. intros H. unfold connection_fds. by rewrite <-(map_to_list_delete m c (fd, x)). Qed.
Lemma fds_update m c fd x y : m !! c = Some (fd, x) → connection_fds (<[c := (fd, y)]> m) ≡ₚ connection_fds m.
Proof. intros H. rewrite (fds_delete m c fd x H), <-insert_delete_eq. apply fds_insert, lookup_delete_eq. Qed.

(** An operation of a user keeps a connection up, or down. *)
Lemma user_op_kept o x x' calls : user_op o = true → TcpConnection.run_op o x = Done (x', calls) → kept x x' calls.
Proof.
  intros Ho Hr. assert (loop_op o = true) as Hl by by destruct o.
  destruct (run_op_kept_or_closed _ _ _ _ Hl Hr) as [?|(_ & -> & _)]; [done|]. exfalso.
  destruct o; try done; cbn in Hr.
  - apply send_kept in Hr as [_ _ [Hn _]]. apply Hn. left.
  - by destruct_done Hr.
  - unfold TcpConnection.forceClose in Hr. by case_decide.
  - unfold TcpConnection.forceCloseWithDelay in Hr. by case_decide.
Qed.
Lemma occurrences_none k ks : k ∉ ks → occurrences k ks = 0%nat.
Proof.
  intros Hk. unfold occurrences. induction ks as [|k' ks IH]; [done|]. apply not_elem_of_cons in Hk as [Hne Hk].
  rewrite filter_cons, decide_False by congruence. by apply IH.
Qed.
Lemma user_op_reports o x : TcpConnection.inv x → TcpConnection.enabled o x → user_op o = true →
  ∃ x' calls, TcpConnection.run_op o x = Done (x', calls) ∧ TcpConnection.inv x' ∧
    reports (TcpConnection.state_ x') = reports (TcpConnection.state_ x).
Proof.
  intros Hi He Ho. destruct (run_op_ok o x Hi He) as (x' & calls & Hr & [Hi' _ Hrep _ _]). exists x', calls.
  destruct (user_op_kept _ _ _ _ Ho Hr) as [_ _ [Hc _]]. rewrite occurrences_none in Hrep by done. split_and!; [done..|lia].
Qed.
Lemma up_reports x : is_up x ↔ reports (TcpConnection.state_ x) = 1%nat.
Proof. unfold is_up. destruct (TcpConnection.state_ x); cbn; split; intros H; try done; try (by destruct H); (by left) || by right. Qed.
Lemma down_reports x : TcpConnection.state_ x = kDisconnected ↔ reports (TcpConnection.state_ x) = 2%nat.
Proof. destruct (TcpConnection.state_ x); cbn; split; done || lia. Qed.

(** An event of the loop leaves a connection up, or closes it. *)
Lemma loop_event_result o x : TcpConnection.inv x → TcpConnection.enabled o x → loop_event o = true →
  ∃ x' calls, TcpConnection.run_op o x = Done (x', calls) ∧ TcpConnection.inv x' ∧
    ((reports (TcpConnection.state_ x') = reports (TcpConnection.state_ x) ∧ ConnectionCallback ∉ calls ∧ CloseCallback ∉ calls) ∨
     (calls = [ConnectionCallback; CloseCallback] ∧ is_up x ∧ TcpConnection.state_ x' = kDisconnected)).
Proof.
  intros Hi He Ho. destruct (run_op_ok o x Hi He) as (x' & calls & Hr & [Hi' _ Hrep _ _]). exists x', calls.
  assert (loop_op o = true) as Hl by by destruct o. split_and!; [done..|].
  destruct (run_op_kept_or_closed _ _ _ _ Hl Hr) as [[_ _ [Hc Hc']]|(_ & -> & Hs)].
  - left. rewrite occurrences_none in Hrep by done. split_and!; [lia|done..].
  - right. split_and!; [done| |done]. apply up_reports. rewrite Hs in Hrep.
    change (occurrences _ _) with 1%nat in Hrep. cbn in Hrep. lia.
Qed.
End lemmas.

(** * Every operation keeps the invariant *)
Section preservation.
Import TcpClient.
Implicit Types s : TcpClient.t.

(** Counts functors in lists. *)
Ltac counts :=
  unfold functors, current, retries, queueInLoop, runAfter in *; cbn [handling calling pendingFunctors_ timers loop_ set_loop set_client set_connector set_connections set_log] in *;
  rewrite ?count_app, ?count_cons, ?count_nil, ?retry_timers_app, ?retry_timers_one in *; repeat case_decide; simplify_eq; try lia.


(** What happens to connections does not touch the connector. *)
Record aside (s s' : t) : Prop := mkAside {
  a_connector : connector_ s' = connector_ s;
  a_client : client_ s' = client_ s;
  a_log : log_ s' = log_ s;
  a_phase : handling (loop_ s') = handling (loop_ s);
  a_calling : calling (loop_ s') = calling (loop_ s);
  a_new : new_connections (loop_ s') = new_connections (loop_ s);
  a_retries : retries s' = retries s;
  a_functors hand f : of_connector f = true → count f (functors hand s') = count f (functors hand s)
}.

Lemma core_force hand cl s c : core hand cl s → c < nextConnId_ (client_ s) → core hand cl (queueInLoop (ForceCloseInLoop c) s).
Proof.
  intros [Hk Hc Hx Hcl Hd Hf Hn Hrm Hh Hfd] Hlt.
  assert (Hcount : ∀ f, f ≠ ForceCloseInLoop c → count f (functors hand (queueInLoop (ForceCloseInLoop c) s)) = count f (functors hand s)).
  { intros f Hne. unfold functors. cbn. counts. }
  assert (Hcur : ∃ l, current hand (queueInLoop (ForceCloseInLoop c) s) = current hand s ++ l).
  { unfold current. cbn. destruct (handling _); [exists [ForceCloseInLoop c]; by rewrite app_assoc|exists []; by rewrite app_nil_r]. }
  destruct Hcur as [l Hcur]. split; try done.
  - cbn. destruct (connector_ s) as [k|].
    + destruct Hk. split; rewrite ?Hcount by done; try done. rewrite Hcur. intros w Hw Hr. cbn in Hw.
      destruct (k_timer0 w Hw Hr) as [?|[? ?]]; [by left|right; split; [done|]]. rewrite count_app. lia.
    + destruct Hk as (? & Hno & ?). split_and!; [done| |done]. intros f. unfold functors. cbn. rewrite !elem_of_app, list_elem_of_singleton.
      intros [?|[?|[?| ->]]]; try done; apply Hno; unfold functors; rewrite !elem_of_app; tauto.
  - cbn. intros c' Hc'. destruct (Hc c' Hc') as (? & ? & k & ? & ? & Hch). split_and!; [done..|]. exists k. split_and!; [done..|].
    destruct Hch as [?|(? & ? & l1 & l2 & El & Hl1)]; [by left|right]. split_and!; [done..|]. rewrite Hcur, El.
    exists l1, (l2 ++ l). by rewrite <-app_assoc.
  - intros c' fd x Hx'. destruct (Hx c' fd x Hx') as (? & ? & ?). split; [done|split; [done|]]. rewrite Hcount by done. done.
  - intros c'. rewrite Hcount by done. apply Hd.
  - intros c'. destruct (decide (c' = c)) as [->|]; [done|]. rewrite Hcount by congruence. apply Hf.
Qed.

Lemma core_timer hand cl s w : core hand cl s → w ≠ Retry → w ≠ RemoveConnector → core hand cl (runAfter w s).
Proof.
  intros [Hk Hc Hx Hcl Hd Hf Hn Hrm Hh Hfd] Hw Hw'.
  assert (retries (runAfter w s) = retries s) as Hret.
  { unfold retries. cbn. rewrite retry_timers_app, retry_timers_one, decide_False by done. lia. }
  split; try done.
  - cbn. destruct (connector_ s) as [k|].
    + destruct Hk. split; rewrite ?Hret; try done. cbn. intros w' [?|Hin%list_elem_of_singleton]%elem_of_app Hr; [by apply k_timer0|].
      by subst w'.
    + destruct Hk as (? & ? & ?). by rewrite Hret.
  - cbn. intros w' Hdest [?|Hin%list_elem_of_singleton]%elem_of_app; [by apply Hrm|by subst w'].
Qed.

Lemma aside_refl s : aside s s.
Proof. by split. Qed.
Lemma aside_trans s1 s2 s3 : aside s1 s2 → aside s2 s3 → aside s1 s3.
Proof. intros [] []. split; try congruence. intros. by etransitivity; [apply a_functors1|apply a_functors0]. Qed.
Lemma progress_aside s s' : aside s s' → progress s → progress s'.
Proof.
  intros [Ek _ El _ _ _ Er Ef] Hp k Hk Hc. rewrite El, Er, Ef by done. apply Hp; [by rewrite <-Ek|done].
Qed.

Lemma queue_calls_core hand cl c calls : ∀ s, core hand cl s → c < nextConnId_ (client_ s) →
  let s' := foldl (λ s k, queue_call c k s) s calls in core hand cl s' ∧ aside s s' ∧ connections s' = connections s.
Proof.
  induction calls as [|k calls IH]; intros s Hs Hc; cbn [foldl]; [by split; [|split; [apply aside_refl|]]|].
  assert (core hand cl (queue_call c k s) ∧ aside s (queue_call c k s) ∧ connections (queue_call c k s) = connections s) as (Hs1 & Ha1 & Hx1).
  { destruct k; try (by split; [|split; [apply aside_refl|]]); cbn [queue_call].
    - split; [by apply core_force|]. split; [|done]. split; try done. intros h f Hf. counts.
    - split; [by apply core_timer|]. split; [|done]. split; try done. unfold retries. cbn. rewrite retry_timers_app, retry_timers_one, decide_False by done. lia. }
  destruct (IH (queue_call c k s) Hs1) as (? & ? & Hx); [by rewrite (a_client _ _ Ha1)|].
  split; [done|split; [by eapply aside_trans|by rewrite Hx]].
Qed.

Lemma core_update hand cl s c fd x x' : core hand cl s → connections s !! c = Some (fd, x) → TcpConnection.inv x' →
  reports (TcpConnection.state_ x') = reports (TcpConnection.state_ x) → core hand cl (set_connections (<[c := (fd, x')]> (connections s)) s).
Proof.
  intros [Hk Hc Hx Hcl Hd Hf Hn Hrm Hh Hfd] Hl Hi Hrep. split; try done.
  - cbn. destruct (connector_ s); [by destruct Hk|done].
  - cbn. intros c' Hc'. destruct (Hc c' Hc') as (? & ? & ?). split; [done|]. split; [|done].
    destruct (decide (c' = c)) as [->|]; [by rewrite lookup_insert_eq|by rewrite lookup_insert_ne].
  - cbn. intros c' fd' y Hy. destruct (decide (c' = c)) as [->|]; [|rewrite lookup_insert_ne in Hy by done; by eapply Hx].
    rewrite lookup_insert_eq in Hy. injection Hy as <- <-. destruct (Hx c fd x Hl) as (_ & ? & Hst).
    split; [done|split; [done|]]. case_decide; revert Hst; rewrite ?up_reports, !down_reports, Hrep; done.
  - cbn. intros c' Hc'. destruct (decide (c' = c)) as [->|]; [by rewrite lookup_insert_eq|]. rewrite lookup_insert_ne by done. by apply Hcl.
  - cbn. intros c' Hc'. destruct (decide (c' = c)) as [->|]; [by rewrite lookup_insert_eq|]. rewrite lookup_insert_ne by done. by apply Hd.
  - cbn. by rewrite (fds_update _ _ _ _ _ Hl).
Qed.

Lemma on_connection_core hand cl s c o : core hand cl s → user_op o = true →
  (∀ fd x, connections s !! c = Some (fd, x) → TcpConnection.enabled o x) →
  ∃ s', on_connection c o s = Done s' ∧ core hand cl s' ∧ aside s s'.
Proof.
  intros Hs Ho He. unfold on_connection. destruct (connections s !! c) as [[fd x]|] eqn:Hl; [|exists s; split_and!; try done; apply aside_refl].
  destruct (c_connections _ _ _ Hs c fd x Hl) as (Hi & Hc & _).
  destruct (user_op_reports o x Hi (He fd x eq_refl) Ho) as (x' & calls & -> & Hi' & Hrep). rewrite bind_ret_l.
  pose proof (core_update _ _ _ _ _ _ _ Hs Hl Hi' Hrep) as Hs1.
  destruct (queue_calls_core hand cl c calls _ Hs1) as (Hs2 & Ha & _); [cbn; lia|].
  eexists. split; [done|]. split; [exact Hs2|]. eapply aside_trans; [|exact Ha]. by split.
Qed.

(** Members that only change flags of the client. *)
Lemma core_flags hand cl s c' : core hand cl s →
  nextConnId_ c' = nextConnId_ (client_ s) → connection_ c' = connection_ (client_ s) → destroyed c' = destroyed (client_ s) →
  (TcpClient.connect_ c' = true → TcpClient.connect_ (client_ s) = true ∨ count StopInLoop (functors hand s) = 0%nat) → core hand cl (set_client c' s).
Proof.
  intros [Hk Hc Hx Hcl Hd Hf Hn Hrm Hh Hfd] E1 E2 E3 E4. split; cbn; rewrite ?E1, ?E2, ?E3; try done.
  - destruct (connector_ s); [|done]. destruct Hk. split; try done; cbn; rewrite ?E3; [|done]. intros Hdest Hc'. destruct (E4 Hc'); [by apply k_running0|done].
  - intros c fd x Hl. destruct (Hx c fd x Hl) as (? & ? & ?). split; [done|]. cbn. by rewrite E1, E2, E3.
Qed.

Lemma Connector_stop_core hand cl s : core hand cl s → destroyed (client_ s) = false → TcpClient.connect_ (client_ s) = false →
  ∃ s', Connector_stop s = Done s' ∧ core hand cl s' ∧ progress s' ∧ destroyed (client_ s') = false.
Proof.
  intros [Hk Hc Hx Hcl Hd Hf Hn Hrm Hh Hfd] Hdest Hconn. unfold Connector_stop.
  destruct (connector_ s) as [k|] eqn:Ek; [|by destruct Hk; congruence]. eexists. split; [done|]. split; [|split; [|done]].
  - set (s' := queueInLoop StopInLoop _).
    assert (Hcount : ∀ f, f ≠ StopInLoop → count f (functors hand s') = count f (functors hand s)) by (intros f Hne; unfold s'; counts).
    assert (Hcur : ∃ l, current hand s' = current hand s ++ l).
    { unfold current, s'. cbn. destruct (handling _); [exists [StopInLoop]; by rewrite app_assoc|exists []; by rewrite app_nil_r]. }
    destruct Hcur as [l Hcur]. split; try done.
    + cbn. destruct Hk. split; rewrite ?Hcount by done; try done; cbn.
      * intros w Hw Hr. destruct (k_timer0 w Hw Hr) as [?|[? ?]]; [by left|right; split; [done|]]. rewrite Hcur, count_app. lia.
      * intros. congruence.
      * intros. congruence.
    + cbn. intros c Hc'. destruct (Hc c Hc') as (? & ? & k' & Ek' & ? & Hch). split_and!; [done..|]. eexists. split; [done|].
      injection Ek' as <-. split; [done|].
      destruct Hch as [?|(? & ? & l1 & l2 & El & Hl1)]; [by left|right]. split_and!; [done..|]. rewrite Hcur, El.
      exists l1, (l2 ++ l). by rewrite <-app_assoc.
    + intros c fd x Hl. destruct (Hx c fd x Hl) as (? & ? & ?). split; [done|split; [done|]]. rewrite Hcount by done. done.
    + intros c. rewrite Hcount by done. apply Hd.
    + intros c. rewrite Hcount by done. apply Hf.
  - intros k' [= <-]. done.
Qed.
Lemma stop_core hand cl s : core hand cl s → destroyed (client_ s) = false →
  ∃ s', stop s = Done s' ∧ core hand cl s' ∧ progress s' ∧ destroyed (client_ s') = false.
Proof. intros Hs Hd. unfold stop. apply Connector_stop_core; [|done..]. by apply core_flags. Qed.

Lemma react_core hand cl s r : core hand cl s → progress s → reaction_ok s r →
  ∃ s', react r s = Done s' ∧ core hand cl s' ∧ progress s' ∧ destroyed (client_ s') = destroyed (client_ s).
Proof.
  intros Hs Hp Hr.
  assert (Huse : ∀ c o s1, core hand cl s1 → progress s1 → user_op o = true → (∀ x, TcpConnection.enabled o x) → ∃ s', on_connection c o s1 = Done s' ∧
    core hand cl s' ∧ progress s' ∧ destroyed (client_ s') = destroyed (client_ s1)).
  { intros c o s1 Hs1 Hp1 Ho He. destruct (on_connection_core hand cl s1 c o Hs1 Ho) as (s' & ? & ? & Ha); [done|].
    exists s'. split_and!; [done..|by eapply progress_aside|by rewrite (a_client _ _ Ha)]. }
  destruct r; cbn [react reaction_ok] in *.
  - destruct (stop_core _ _ _ Hs Hr) as (s' & ? & ? & ? & ?). exists s'. split_and!; congruence || done.
  - pose proof (core_flags _ _ _ (set_connect false (client_ s)) Hs eq_refl eq_refl eq_refl ltac:(done)) as Hs1.
    unfold disconnect. cbn. destruct (connection_ (client_ s)) as [c|]; [|eexists; split_and!; done].
    by apply (Huse c TcpConnection.Shutdown _ Hs1).
  - eexists. split; [done|]. split_and!; [|done..]. apply core_flags; [done..|by left].
  - by apply Huse.
  - by apply Huse.
  - by apply Huse.
Qed.
Lemma react_all_core hand cl rs : ∀ s, core hand cl s → progress s → Forall (reaction_ok s) rs →
  ∃ s', react_all rs s = Done s' ∧ core hand cl s' ∧ progress s' ∧ destroyed (client_ s') = destroyed (client_ s).
Proof.
  induction rs as [|r rs IH]; intros s Hs Hp Hr; cbn [react_all]; [by exists s|].
  apply List.Forall_cons_iff in Hr as [Hr Hrs]. destruct (react_core _ _ _ _ Hs Hp Hr) as (s1 & -> & Hs1 & Hp1 & Hd1). rewrite bind_ret_l.
  destruct (IH s1 Hs1 Hp1) as (s' & ? & ? & ? & ?); [|exists s'; split_and!; congruence || done].
  eapply Forall_impl; [exact Hrs|]. intros []; cbn; congruence.
Qed.

(** A step of the connector while the client has no connection. *)
Lemma core_connector hand cl s s' k' : core hand cl s → connection_ (client_ s) = None → client_ s' = client_ s → connections s' = connections s →
  connector_ s' = Some k' → (∀ f, of_connector f = false → count f (functors hand s') = count f (functors hand s)) →
  (handling (loop_ s') = true → hand = [] ∧ calling (loop_ s') = []) →
  (∀ w, w ∈ timers (loop_ s') → w ∈ timers (loop_ s) ∨ what w = Retry) → connector_ok hand k' s' →
  opened (log_ s') ≡ₚ closed (log_ s') ++ connector_fd (Some k') ++ connection_fds (connections s) → core hand cl s'.
Proof.
  intros [Hk Hc Hx Hcl Hd Hf Hn Hrm Hh Hfd] Hnone Ec Ex Ek Hcount Hh' Htm Hok Hfd'. split; rewrite ?Ec, ?Ex, ?Ek; try done.
  - intros c Hc'. congruence.
  - intros c fd x Hl. destruct (Hx c fd x Hl) as (? & ? & ?). split; [done|]. rewrite Ec. split; [done|]. by rewrite Hcount.
  - intros c. rewrite Hcount by done. apply Hd.
  - intros c. rewrite Hcount by done. apply Hf.
  - intros w Hdest Hw. destruct (Htm w Hw) as [?|Hr]; [by apply Hrm|by rewrite Hr].
Qed.
Ltac old_timers := cbn; intros ?w; rewrite ?elem_of_app, ?list_elem_of_singleton; intuition (subst; auto).
Lemma set_connector_same k s : connector_ s = Some k → set_connector (Some k) s = s.
Proof. destruct s. cbn. by intros ->. Qed.
Lemma delay_next n : Z.min (delay_of n * 2) Connector.kMaxRetryDelayMs = delay_of (S n).
Proof.
  unfold delay_of, Connector.kInitRetryDelayMs, Connector.kMaxRetryDelayMs. rewrite Nat2Z.inj_succ, Z.pow_succ_r by lia. lia.
Qed.
Lemma waits_snoc n : map delay_of (seq 0 n) ++ [delay_of n] = map delay_of (seq 0 (S n)).
Proof. by rewrite seq_S, map_app. Qed.

Lemma start_core cl s k sys : core [] cl s → connector_ s = Some k → Connector.state_ k = Connector.kDisconnected → Connector.channel_ k = None →
  count StartInLoop (functors [] s) = 0%nat → retries s = 0%nat →
  ∃ s', with_connector (Connector.startInLoop sys) [] [] s = Done s' ∧ core [] cl s' ∧ progress s' ∧ client_ s' = client_ s.
Proof.
  intros Hs Ek Hst Hch Hns Hnr. unfold with_connector. rewrite Ek. unfold Connector.startInLoop.
  rewrite cassert_bind by (by apply bool_decide_eq_true). destruct (Connector.connect_ k) eqn:Ec.
  2: { cbn. rewrite set_connector_same by done. eexists. split; [done|]. split_and!; [done| |done]. intros k'. rewrite Ek. intros [= <-]. congruence. }
  assert (connection_ (client_ s) = None) as Hnone.
  { destruct (connection_ (client_ s)) as [c|] eqn:E; [|done]. destruct (c_connection _ _ _ Hs c E) as (_ & _ & k' & Ek' & ? & _). congruence. }
  pose proof (c_connector _ _ _ Hs) as Hk. pose proof (c_fds _ _ _ Hs) as Hfd. pose proof (c_handling _ _ _ Hs) as Hh. rewrite Ek in Hk, Hfd.
  cbn in Hfd. rewrite Hch in Hfd. cbn in Hfd. destruct Hk. unfold channel_ok in k_channel0. rewrite Hch in k_channel0. destruct k_channel0 as [Hres _].
  assert (count StopInLoop (functors [] s) = 0%nat) as Hnstop by (destruct (count StopInLoop _) eqn:E; [done|]; rewrite k_stop0 in Ec by lia; done).
  assert (destroyed (client_ s) = false) as Hdest by (destruct (destroyed _) eqn:E; [|done]; by destruct (k_destroyed0 eq_refl); congruence).
  assert (∀ w, w ∈ timers (loop_ s) → what w ≠ Retry) as Hnt by (intros w Hw Hr; pose proof (retry_timer_in _ _ Hw Hr); unfold retries in Hnr; lia).
  destruct sys as [fd err]. unfold Connector.connect. destruct (bool_decide _); [|destruct (bool_decide _)].
  - (* connecting *)
    unfold Connector.connecting. cbn. rewrite Hch. cbn. eexists. split; [done|]. split_and!; [|intros k' [= <-] _; left; by cbn|done].
    eapply core_connector; [exact Hs|done..|old_timers| |].
    + split; cbn; rewrite ?Hns, ?Hnstop; try done; try (unfold functors in *; cbn in *; unfold retries in *; cbn in *; lia).
      * intros w Hw Hr. by destruct (Hnt w).
      * congruence.
    + cbn. rewrite Hfd. solve_Permutation.
  - (* retry *)
    destruct k_delay0 as (n & Hw & Hdel). unfold Connector.retry. cbn. rewrite Ec. cbn. eexists. split; [done|].
    split_and!; [|intros k' [= <-] _; right; left; unfold functors, retries in *; cbn; rewrite retry_timers_app, retry_timers_one, decide_True by done; cbn in *; lia|done].
    eapply core_connector; [exact Hs|done..|old_timers| |].
    + split; cbn; try done; try (unfold functors, retries in *; cbn in *; rewrite ?retry_timers_app, ?retry_timers_one, ?decide_True by done; lia).
      * unfold channel_ok. cbn. rewrite Hch. done.
      * intros w [Hw'|Hw'%list_elem_of_singleton]%elem_of_app Hr; [by destruct (Hnt w)|by left].
      * congruence.
      * exists (S n). by rewrite Hw, Hdel, <-delay_next, waits_snoc.
    + cbn. rewrite Hch, Hfd. solve_Permutation.
  - (* given up *)
    cbn. eexists. split; [done|]. split_and!; [|intros k' [= <-] _; right; by right|done].
    eapply core_connector; [exact Hs|done..|old_timers| |].
    + split; cbn; try done; try (unfold functors, retries in *; cbn in *; lia).
      unfold channel_ok. by rewrite Hch, Hst.
    + cbn. rewrite Hch, Hfd. solve_Permutation.
Qed.

(** The last part of closing a connection: it is queued to be destroyed. *)
Lemma core_closed s c client' : core [] (Some c) s →
  nextConnId_ client' = nextConnId_ (client_ s) → connection_ client' = None → destroyed client' = destroyed (client_ s) →
  TcpClient.connect_ client' = TcpClient.connect_ (client_ s) →
  core [] None (queueInLoop (ConnectDestroyed c) (set_client client' s)).
Proof.
  intros [Hk Hc Hx Hcl Hd Hf Hn Hrm Hh Hfd] E1 E2 E3 E4. set (s' := queueInLoop _ _).
  assert (Hcount : ∀ f, f ≠ ConnectDestroyed c → count f (functors [] s') = count f (functors [] s)) by (intros f Hne; unfold s'; counts).
  assert (Hc1 : count (ConnectDestroyed c) (functors [] s') = S (count (ConnectDestroyed c) (functors [] s))) by (unfold s'; counts).
  assert (Hcur : ∃ l, current [] s' = current [] s ++ l).
  { unfold current, s'. cbn. destruct (handling _); [by eexists|exists []; by rewrite app_nil_r]. }
  destruct Hcur as [l Hcur]. split; try done.
  - cbn. destruct (connector_ s) as [k|].
    + destruct Hk. split; rewrite ?Hcount by done; try done; cbn; rewrite ?E3, ?E4; try done.
      intros w Hw Hr. destruct (k_timer0 w Hw Hr) as [?|[? ?]]; [by left|right; split; [done|]].
      change (0 < count ResetChannel (current [] s'))%nat. rewrite Hcur, count_app. lia.
    + destruct Hk as (? & Hno & ?). rewrite E3. split_and!; [done| |done]. intros f. unfold functors, s'. cbn. rewrite elem_of_app, elem_of_app, list_elem_of_singleton.
      intros [?|[?| ->]]; try done; apply Hno; unfold functors; cbn; rewrite elem_of_app; tauto.
  - cbn. intros c' Hc'. congruence.
  - intros c' fd x Hl. destruct (Hx c' fd x Hl) as (? & ? & Hst). split; [done|]. change (client_ s') with client'. rewrite E1, E2, E3. split; [done|].
    rewrite decide_False by done.
    destruct (decide (c' = c)) as [->|Hne].
    + rewrite decide_True in Hst by done. right. rewrite Hc1. destruct Hst as (? & ? & ->). done.
    + rewrite decide_False in Hst by congruence. rewrite Hcount by congruence. destruct Hst as [(? & Hcur' & ?)|(? & ? & ?)]; [left|by right].
      split_and!; [done| |done]. right. destruct Hcur' as [Hcur'|?]; [|done]. destruct (Hcl c eq_refl) as [[fd' x'] Hl'].
      destruct (Hx c fd' x' Hl') as (_ & _ & Hst'). rewrite decide_True in Hst' by done. destruct Hst' as (_ & [?|?] & _); [congruence|done].
  - cbn. intros c' Hc'. destruct (decide (c' = c)) as [->|]; [by apply Hcl|]. apply Hd. by rewrite Hcount in Hc' by congruence.
  - cbn. rewrite E1. intros c'. rewrite Hcount by done. apply Hf.
  - cbn. by rewrite E1.
  - cbn. by rewrite E3.
Qed.

Lemma removeConnection_core sys c s : core [] (Some c) s → progress s →
  ∃ s', removeConnection sys c s = Done s' ∧ core [] None s' ∧ progress s'.
Proof.
  intros Hs Hp. unfold removeConnection. destruct (destroyed (client_ s)) eqn:Hdest.
  { eexists. split; [done|]. assert (connection_ (client_ s) = None) as Hnone.
    { destruct (connection_ (client_ s)) as [c'|] eqn:E; [|done]. destruct (c_connection _ _ _ Hs c' E). congruence. }
    pose proof (core_closed s c (client_ s) Hs eq_refl Hnone eq_refl eq_refl) as Hs1.
    assert (set_client (client_ s) s = s) as Es by by destruct s. rewrite Es in Hs1. split; [done|].
    intros k Hk Hc. destruct (Hp k Hk Hc) as [?|[?|?]]; [by left|right; left|by right; right]. unfold retries in *. counts. }
  destruct (c_closing _ _ _ Hs c eq_refl) as [[fd x] Hl]. destruct (c_connections _ _ _ Hs c fd x Hl) as (_ & _ & Hok).
  rewrite decide_True in Hok by done. destruct Hok as (_ & [Hcur|?] & _); [|congruence].
  rewrite cassert_bind by (by apply bool_decide_eq_true). cbv zeta.
  destruct (c_connection _ _ _ Hs c Hcur) as (_ & _ & k & Ek & Hst & [Hch|[? _]]); [|done].
  pose proof (core_closed s c (set_connection None (client_ s)) Hs eq_refl eq_refl eq_refl eq_refl) as Hs1.
  set (s1 := queueInLoop _ _) in *.
  destruct (retry_ (client_ s1) && TcpClient.connect_ (client_ s1)) eqn:Hretry.
  2: { exists s1. split_and!; [done..|]. intros k' Hk' Hc'. left. cbn in Hk'. rewrite Ek in Hk'. injection Hk' as <-. by rewrite Hst. }
  apply andb_true_iff in Hretry as [_ Hrun]. set (l := log_ s1).
  set (k' := Connector.set_connect true (Connector.set_delay Connector.kInitRetryDelayMs (Connector.setState Connector.kDisconnected k))).
  set (s2 := set_log (mkLog (opened l) (closed l) [] false) s1).
  assert (with_connector (Connector.restart sys) [] [] s2 = with_connector (Connector.startInLoop sys) [] [] (set_connector (Some k') s2)) as ->.
  { unfold with_connector. cbn. rewrite Ek. done. }
  pose proof (c_connector _ _ _ Hs1) as Hk. change (connector_ s1) with (connector_ s) in Hk. rewrite Ek in Hk. destruct Hk.
  destruct (start_core None (set_connector (Some k') s2) k' sys) as (s' & ? & ? & ? & _); [|done..| | |by exists s'].
  - eapply (core_connector _ _ s1 _ k'); [exact Hs1|done..| |old_timers| |].
    + apply Hs1.
    + split; try done.
      * revert k_channel0. unfold channel_ok, k'. cbn. rewrite Hch. by intros [? _].
      * intros Hstop. change (functors [] (set_connector (Some k') s2)) with (functors [] s1) in Hstop. rewrite k_running0 in Hstop by done. lia.
      * cbn. intros. congruence.
      * by exists 0%nat.
    + pose proof (c_fds _ _ _ Hs1) as Hfd. change (connector_ s1) with (connector_ s) in Hfd. rewrite Ek in Hfd. cbn in *. by rewrite Hch in *.
  - assert (count StartInLoop (functors [] s1) + retries s1 = 0)%nat as H0; [|unfold functors, retries in *; cbn in *; lia].
    destruct (count StartInLoop (functors [] s1) + retries s1)%nat eqn:E; [done|]. rewrite k_waiting0 in Hst by lia. done.
  - assert (count StartInLoop (functors [] s1) + retries s1 = 0)%nat as H0; [|unfold functors, retries in *; cbn in *; lia].
    destruct (count StartInLoop (functors [] s1) + retries s1)%nat eqn:E; [done|]. rewrite k_waiting0 in Hst by lia. done.
Qed.

(** A connection goes down. *)
Lemma core_closing s c fd x x' : core [] None s → connections s !! c = Some (fd, x) → is_up x →
  TcpConnection.inv x' → TcpConnection.state_ x' = kDisconnected →
  (∀ k, connection_ (client_ s) = Some c → connector_ s = Some k → Connector.channel_ k = None) →
  core [] (Some c) (set_connections (<[c := (fd, x')]> (connections s)) s).
Proof.
  intros [Hk Hc Hx Hcl Hd Hf Hn Hrm Hh Hfd] Hl Hup Hi Hdown Hch. split; try done.
  - cbn. destruct (connector_ s); [by destruct Hk|done].
  - cbn. intros c' Hc'. destruct (Hc c' Hc') as (? & ? & k & Ek & ? & Hcases). split; [done|]. split.
    + destruct (decide (c' = c)) as [->|]; [by rewrite lookup_insert_eq|by rewrite lookup_insert_ne].
    + exists k. split_and!; [done..|]. destruct (decide (c' = c)) as [->|Hne]; [left; by apply Hch|].
      destruct Hcases as [?|(? & ? & ?)]; [by left|right]. split_and!; [congruence|done|done].
  - cbn. intros c' fd' y Hy. destruct (decide (c' = c)) as [->|Hne].
    + rewrite lookup_insert_eq in Hy. injection Hy as <- <-. destruct (Hx c fd x Hl) as (_ & ? & Hst).
      split; [done|split; [done|]]. rewrite decide_True by done. rewrite decide_False in Hst by done.
      destruct Hst as [(_ & ? & ?)|(Hst & _ & _)]; [by split_and!|]. apply up_reports in Hup. by rewrite Hst in Hup.
    + rewrite lookup_insert_ne in Hy by done. destruct (Hx c' fd' y Hy) as (? & ? & Hst). split; [done|split; [done|]].
      rewrite decide_False in * by congruence. done.
  - cbn. intros c' [= <-]. by rewrite lookup_insert_eq.
  - cbn. intros c' Hc'. destruct (decide (c' = c)) as [->|]; [by rewrite lookup_insert_eq|]. rewrite lookup_insert_ne by done. by apply Hd.
  - cbn. by rewrite (fds_update _ _ _ _ _ Hl).
Qed.

Lemma run_calls_quiet sys rs c calls : ConnectionCallback ∉ calls → CloseCallback ∉ calls → ∀ s,
  run_calls sys rs c calls s = Done (foldl (λ s k, queue_call c k s) s calls).
Proof.
  induction calls as [|k calls IH]; intros H1 H2 s; [done|]. apply not_elem_of_cons in H1 as [? ?], H2 as [? ?].
  cbn [run_calls foldl]. rewrite <-IH by done. by destruct k.
Qed.

Lemma connection_event_core sys rs c o s : core [] None s → progress s → Forall (reaction_ok s) rs → loop_event o = true →
  (∀ fd x, connections s !! c = Some (fd, x) → TcpConnection.enabled o x) →
  (∀ k, connection_ (client_ s) = Some c → connector_ s = Some k → Connector.channel_ k = None) →
  ∃ s', connection_event sys rs c o s = Done s' ∧ core [] None s' ∧ progress s'.
Proof.
  intros Hs Hp Hrs Ho He Hch. unfold connection_event. destruct (connections s !! c) as [[fd x]|] eqn:Hl; [|by exists s].
  destruct (c_connections _ _ _ Hs c fd x Hl) as (Hi & Hc & _).
  destruct (loop_event_result o x Hi (He fd x eq_refl) Ho) as (x' & calls & -> & Hi' & Hres). rewrite bind_ret_l.
  destruct Hres as [(Hrep & H1 & H2)|(-> & Hup & Hdown)].
  - pose proof (core_update _ _ _ _ _ _ _ Hs Hl Hi' Hrep) as Hs1. rewrite run_calls_quiet by done.
    destruct (queue_calls_core [] None c calls _ Hs1) as (Hs2 & Ha & _); [cbn; lia|].
    eexists. split; [done|]. split; [exact Hs2|]. eapply progress_aside; [exact Ha|]. done.
  - pose proof (core_closing _ _ _ _ _ Hs Hl Hup Hi' Hdown Hch) as Hs1. cbn [run_calls run_call].
    edestruct (react_all_core [] (Some c) rs _ Hs1) as (s2 & -> & Hs2 & Hp2 & _); [done..|]. rewrite bind_ret_l.
    destruct (removeConnection_core sys c s2 Hs2 Hp2) as (s3 & -> & ? & ?). exists s3. by rewrite bind_ret_l.
Qed.

(** ** The end of an attempt to connect *)
Definition removed (ch : Channel.t) : Channel.t := Channel.mk 0 false (Channel.tied_ ch).
Definition failed (fd : Z) (ch : Channel.t) (k : Connector.t) : Connector.t := Connector.set_channel (Some (fd, removed ch)) (Connector.retry fd k).2.
Definition connected (fd : Z) (ch : Channel.t) (k : Connector.t) : Connector.t :=
  Connector.set_channel (Some (fd, removed ch)) (Connector.setState Connector.kConnected k).

Lemma stopInLoop_eq k fd ch : Connector.state_ k = Connector.kConnecting → Connector.channel_ k = Some (fd, ch) →
  Connector.stopInLoop k = Done (Connector.QueueReset :: (Connector.retry fd k).1, failed fd ch k).
Proof.
  intros Hst Hch. unfold Connector.stopInLoop. rewrite decide_True by done. unfold Connector.removeAndResetChannel. cbn. rewrite Hch.
  unfold failed, Connector.retry. cbn. by destruct (Connector.connect_ k).
Qed.
Lemma handleError_eq k fd ch : Connector.state_ k = Connector.kConnecting → Connector.channel_ k = Some (fd, ch) →
  Connector.handleError k = Done (Connector.QueueReset :: (Connector.retry fd k).1, failed fd ch k).
Proof.
  intros Hst Hch. unfold Connector.handleError. rewrite decide_True by done. unfold Connector.removeAndResetChannel. rewrite Hch.
  unfold failed, Connector.retry. cbn. by destruct (Connector.connect_ k).
Qed.

Inductive attempt (fd : Z) (ch : Channel.t) (k : Connector.t) : list Connector.act → Connector.t → Prop :=
  | attempt_on : attempt fd ch k [] k
  | attempt_failed : attempt fd ch k (Connector.QueueReset :: (Connector.retry fd k).1) (failed fd ch k)
  | attempt_done : Connector.connect_ k = true → attempt fd ch k [Connector.QueueReset; Connector.NewConnection fd] (connected fd ch k)
  | attempt_stopped : Connector.connect_ k = false → attempt fd ch k [Connector.QueueReset; Connector.Close fd] (connected fd ch k).

Lemma handleWrite_attempt k fd ch err self : Connector.state_ k = Connector.kConnecting → Connector.channel_ k = Some (fd, ch) →
  ∃ acts k', Connector.handleWrite err self k = Done (acts, k') ∧ attempt fd ch k acts k'.
Proof.
  intros Hst Hch. unfold Connector.handleWrite. rewrite decide_True by done. unfold Connector.removeAndResetChannel. rewrite Hch. cbn.
  assert (∃ acts k', (let '(acts, s) := Connector.retry fd (Connector.set_channel (Some (fd, Channel.mk 0 false (Channel.tied_ ch))) k) in
      Done (Connector.QueueReset :: acts, s)) = Done (acts, k') ∧ attempt fd ch k acts k') as Hfail.
  { do 2 eexists. split; [|apply attempt_failed]. unfold failed, Connector.retry. cbn. by destruct (Connector.connect_ k). }
  destruct (negb (err =? 0)); [done|]. destruct self; [done|]. destruct (Connector.connect_ k) eqn:Ec.
  - do 2 eexists. split; [done|]. by apply attempt_done.
  - do 2 eexists. split; [done|]. by apply attempt_stopped.
Qed.
Lemma handlers_after_failure k fd ch err self hs : Connector.run_handlers hs err self (failed fd ch k) = Done ([], failed fd ch k).
Proof.
  assert (Connector.state_ (failed fd ch k) = Connector.kDisconnected) as Hst.
  { unfold failed, Connector.retry. cbn. by destruct (Connector.connect_ k). }
  induction hs as [|h hs IH]; [done|]. cbn [Connector.run_handlers].
  assert (match h with
          | Channel.OnError => Connector.handleError (failed fd ch k)
          | Channel.OnWrite => Connector.handleWrite err self (failed fd ch k)
          | Channel.OnClose | Channel.OnRead => Done ([], failed fd ch k)
          end = Done ([], failed fd ch k)) as ->; [|by rewrite bind_ret_l, IH].
  destruct h; try done; unfold Connector.handleError, Connector.handleWrite; by rewrite Hst.
Qed.
Lemma handleEvent_attempt k fd ch revents err self : Connector.state_ k = Connector.kConnecting → Connector.channel_ k = Some (fd, ch) →
  ∃ acts k', Connector.handleEvent revents err self k = Done (acts, k') ∧ attempt fd ch k acts k'.
Proof.
  intros Hst Hch. unfold Connector.handleEvent, Channel.handleEventWithGuard.
  destruct (handleWrite_attempt k fd ch err self Hst Hch) as (acts & k' & Hw & Ha).
  destruct (_ && _), (negb (Z.land revents (Z.lor _ Channel.POLLNVAL) =? 0)); cbn [app Connector.run_handlers]; rewrite ?bind_ret_l;
    try (rewrite (handleError_eq k fd ch Hst Hch), bind_ret_l; cbv beta iota zeta; rewrite handlers_after_failure; cbn;
         do 2 eexists; split; [done|]; rewrite app_nil_r; apply attempt_failed);
    destruct (negb _), (negb _); cbn [app Connector.run_handlers]; rewrite ?bind_ret_l; cbn [app]; rewrite ?Hw, ?bind_ret_l;
    try (do 2 eexists; split; [done|]; rewrite ?app_nil_r; first [apply attempt_on|exact Ha]).
Qed.

Lemma fail_core hand s k fd ch peer rs : core hand None s → connector_ s = Some k → Connector.channel_ k = Some (fd, ch) →
  Connector.state_ k = Connector.kConnecting → (Connector.connect_ k = true → handling (loop_ s) = true) →
  ∃ s', do_acts peer rs (Connector.QueueReset :: (Connector.retry fd k).1) (set_connector (Some (failed fd ch k)) s) = Done s' ∧
    core hand None s' ∧ progress s' ∧ connector_ s' = Some (failed fd ch k).
Proof.
  intros Hs Ek Hch Hst Hphase.
  assert (connection_ (client_ s) = None) as Hnone.
  { destruct (connection_ (client_ s)) as [c|] eqn:E; [|done]. destruct (c_connection _ _ _ Hs c E) as (_ & _ & k' & Ek' & ? & _). congruence. }
  pose proof (c_connector _ _ _ Hs) as Hk. pose proof (c_fds _ _ _ Hs) as Hfd. pose proof (c_handling _ _ _ Hs) as Hh. rewrite Ek in Hk, Hfd.
  cbn in Hfd. rewrite Hch in Hfd. destruct Hk. unfold channel_ok in k_channel0. rewrite Hch in k_channel0.
  destruct (Channel.addedToLoop_ ch) eqn:Hadd; [|by destruct k_channel0]. destruct k_channel0 as [_ Hres].
  assert (count StartInLoop (functors hand s) + retries s = 0)%nat as Hnone0.
  { destruct (count StartInLoop (functors hand s) + retries s)%nat eqn:E; [done|]. rewrite k_waiting0 in Hst by lia. done. }
  assert (∀ w, w ∈ timers (loop_ s) → what w ≠ Retry) as Hnt by (intros w Hw Hr; pose proof (retry_timer_in _ _ Hw Hr); unfold retries in *; lia).
  unfold failed, Connector.retry. cbn. destruct (Connector.connect_ k) eqn:Ec; cbn.
  - specialize (Hphase eq_refl). destruct (Hh Hphase) as [-> Hcall]. destruct k_delay0 as (n & Hw & Hdel).
    assert (destroyed (client_ s) = false) as Hdest by (destruct (destroyed _) eqn:E; [|done]; by destruct (k_destroyed0 eq_refl); congruence).
    eexists. split; [done|]. split_and!; [|intros k' [= <-] _; right; left; counts|done].
    eapply core_connector; [exact Hs|done..| | |old_timers| |].
    + intros f Hf. counts; destruct f; done.
    + done.
    + split; cbn; try done.
      * unfold channel_ok. cbn. split; [done|]. counts.
      * counts.
      * intros H. exfalso. revert H. counts.
      * intros w [Hw'|Hw'%list_elem_of_singleton]%elem_of_app Hr; [by destruct (Hnt w)|]. subst w. right. split; [done|]. unfold current. cbn. rewrite Hphase.
        counts.
      * intros H. rewrite <-k_stop0; [done|]. revert H. counts.
      * intros H1 H2. pose proof (k_running0 H1 H2). counts.
      * intros. congruence.
      * exists (S n). by rewrite Hw, Hdel, <-delay_next, waits_snoc.
    + cbn. rewrite Hfd. solve_Permutation.
  - eexists. split; [done|]. split_and!; [|intros k' [= <-]; cbn; by rewrite Ec|done].
    eapply core_connector; [exact Hs|done..| | |old_timers| |].
    + intros f Hf. counts; destruct f; done.
    + done.
    + split; cbn; try done.
      * unfold channel_ok. cbn. split; [done|]. counts.
      * counts.
      * intros H. exfalso. revert H. counts.
      * intros w Hw' Hr. by destruct (Hnt w).
      * intros H1 H2. pose proof (k_running0 H1 H2). counts.
    + cbn. rewrite Hfd. solve_Permutation.
Qed.

(** What holds while the connector is connecting. *)
Lemma connecting_facts hand s k fd ch : core hand None s → connector_ s = Some k → Connector.channel_ k = Some (fd, ch) →
  Connector.state_ k = Connector.kConnecting →
  connection_ (client_ s) = None ∧ count ResetChannel (functors hand s) = 0%nat ∧
  count StartInLoop (functors hand s) = 0%nat ∧ retries s = 0%nat ∧ (∀ w, w ∈ timers (loop_ s) → what w ≠ Retry) ∧
  opened (log_ s) ≡ₚ closed (log_ s) ++ fd :: connection_fds (connections s).
Proof.
  intros Hs Ek Hch Hst.
  assert (connection_ (client_ s) = None) as Hnone.
  { destruct (connection_ (client_ s)) as [c|] eqn:E; [|done]. destruct (c_connection _ _ _ Hs c E) as (_ & _ & k' & Ek' & ? & _). congruence. }
  pose proof (c_connector _ _ _ Hs) as Hk. pose proof (c_fds _ _ _ Hs) as Hfd. rewrite Ek in Hk, Hfd. cbn in Hfd. rewrite Hch in Hfd.
  destruct Hk. unfold channel_ok in k_channel0. rewrite Hch in k_channel0.
  destruct (Channel.addedToLoop_ ch) eqn:Hadd; [|by destruct k_channel0]. destruct k_channel0 as [_ Hres].
  assert (count StartInLoop (functors hand s) + retries s = 0)%nat as H0.
  { destruct (count StartInLoop (functors hand s) + retries s)%nat eqn:E; [done|]. rewrite k_waiting0 in Hst by lia. done. }
  split_and!; [done|done|lia|lia| |done].
  intros w Hw Hr. pose proof (retry_timer_in _ _ Hw Hr). unfold retries in *. lia.
Qed.

Lemma stopped_core hand s k fd ch peer rs : core hand None s → connector_ s = Some k → Connector.channel_ k = Some (fd, ch) →
  Connector.state_ k = Connector.kConnecting → Connector.connect_ k = false →
  ∃ s', do_acts peer rs [Connector.QueueReset; Connector.Close fd] (set_connector (Some (connected fd ch k)) s) = Done s' ∧
    core hand None s' ∧ progress s'.
Proof.
  intros Hs Ek Hch Hst Ec. destruct (connecting_facts _ _ _ _ _ Hs Ek Hch Hst) as (Hnone & Hres & Hstart & Hret & Hnt & Hfd).
  pose proof (c_connector _ _ _ Hs) as Hk. rewrite Ek in Hk. destruct Hk. cbn. eexists. split; [done|]. split; [|intros k' [= <-]; cbn; by rewrite Ec].
  eapply core_connector; [exact Hs|done..| | |old_timers| |].
  - intros f Hf. counts; destruct f; done.
  - apply Hs.
  - split; cbn; try done.
    + unfold channel_ok. cbn. split; [done|]. counts.
    + counts.
    + intros H. exfalso. revert H. counts.
    + intros H. exfalso. revert H. counts.
    + intros w Hw' Hr. by destruct (Hnt w).
    + intros H1 H2. pose proof (k_running0 H1 H2). counts.
  - cbn. rewrite Hfd. solve_Permutation.
Qed.

Lemma established name : ∃ x, TcpConnection.connectEstablished (TcpConnection.make name) = Done (x, [ConnectionCallback]) ∧
  TcpConnection.inv x ∧ is_up x.
Proof.
  destruct (run_op_ok TcpConnection.Establish (TcpConnection.make name) (inv_make name) eq_refl) as (x & calls & Hr & [Hi _ _ _ _]).
  exists x. cbn in Hr. unfold TcpConnection.connectEstablished in *. rewrite cassert_bind in * by (by apply bool_decide_eq_true).
  injection Hr as <- <-. split_and!; [done|done|by left].
Qed.

Lemma done_core s k fd ch peer rs : core [] None s → connector_ s = Some k → Connector.channel_ k = Some (fd, ch) →
  Connector.state_ k = Connector.kConnecting → Connector.connect_ k = true → handling (loop_ s) = true →
  Forall (reaction_ok s) rs → nextConnId_ (client_ s) < INT_MAX →
  ∃ s', do_acts peer rs [Connector.QueueReset; Connector.NewConnection fd] (set_connector (Some (connected fd ch k)) s) = Done s' ∧
    core [] None s' ∧ progress s'.
Proof.
  intros Hs Ek Hch Hst Ec Hphase Hrs Hmax. destruct (connecting_facts _ _ _ _ _ Hs Ek Hch Hst) as (Hnone & Hres & Hstart & Hret & Hnt & Hfd).
  set (id := nextConnId_ (client_ s)) in *. destruct (established (connName peer (client_ s))) as (x & Hest & Hi & Hup).
  destruct Hs as [Hk Hc Hx Hcl Hd Hf Hn Hrm Hh _]. rewrite Ek in Hk. destruct Hk. destruct (Hh Hphase) as [_ Hcall].
  assert (destroyed (client_ s) = false) as Hdest by (destruct (destroyed _) eqn:E; [|done]; by destruct (k_destroyed0 eq_refl); congruence).
  assert (connections s !! id = None) as Hfresh.
  { destruct (connections s !! id) as [[fd' y]|] eqn:E; [|done]. destruct (Hx id fd' y E) as (_ & ? & _). unfold id in *. lia. }
  cbn [do_acts do_act]. rewrite bind_ret_l. unfold newConnection. cbn [client_ queueInLoop set_loop set_connector]. fold id.
  rewrite defined_if_bind by (by apply Z.ltb_lt). cbv zeta. rewrite Hest, bind_ret_l. cbv beta iota.
  set (s2 := set_connections _ _). assert (core [] None s2) as Hs2.
  { assert (Hcount : ∀ f, f ≠ ResetChannel → count f (functors [] s2) = count f (functors [] s)) by (intros f Hne; unfold s2; counts).
    assert (Hr1 : count ResetChannel (functors [] s2) = 1%nat) by (unfold s2; counts).
    assert (Hcur : current [] s2 = pendingFunctors_ (loop_ s) ++ [ResetChannel]) by (unfold current, s2; cbn; by rewrite Hphase).
    split; try done.
    - change (connector_ok [] (connected fd ch k) s2). split; rewrite ?Hr1, ?Hcount by done; change (retries s2) with (retries s); try done.
      + lia.
      + lia.
      + intros w Hw Hr. by destruct (Hnt w).
      + intros H. change (destroyed (client_ s) = true) in H. congruence.
    - intros c Hc'. change (Some id = Some c) in Hc'. injection Hc' as <-. split; [done|].
      change (connections s2) with (<[id := (fd, x)]> (connections s)). split; [by rewrite lookup_insert_eq|]. eexists. split; [done|]. split; [done|]. right.
      split; [done|]. split; [left|]. rewrite Hcur. exists (pendingFunctors_ (loop_ s)), []. split; [done|]. intros Hin.
      assert (id < nextConnId_ (client_ s)); [|unfold id in *; lia]. apply Hf. apply count_in. unfold functors. cbn. rewrite elem_of_app. by right.
    - intros c fd' y Hy. change (<[id := (fd, x)]> (connections s) !! c = Some (fd', y)) in Hy. destruct (decide (c = id)) as [->|Hne].
      + rewrite lookup_insert_eq in Hy. injection Hy as <- <-. split; [done|]. split; [cbn; unfold id; lia|]. rewrite decide_False by done. left.
        split_and!; [done|by left|]. rewrite Hcount by done. destruct (count (ConnectDestroyed id) _) eqn:E; [done|].
        destruct (Hd id) as [? ?]; [lia|]. congruence.
      + rewrite lookup_insert_ne in Hy by done. destruct (Hx c fd' y Hy) as (? & ? & Hok). split; [done|]. split; [cbn; unfold id; lia|].
        rewrite Hcount by done. rewrite decide_False in * by done. destruct Hok as [(_ & [?|?] & _)|(? & ? & ?)]; [congruence|congruence|right].
        split_and!; [done|cbn; congruence|done].
    - intros c. rewrite Hcount by done. intros Hc'%Hd. cbn. destruct (decide (c = id)) as [->|]; [by rewrite lookup_insert_eq|by rewrite lookup_insert_ne].
    - intros c. rewrite Hcount by done. intros Hc'%Hf. cbn. unfold id. lia.
    - cbn. unfold id. lia.
    - cbn. rewrite fds_insert by done. by rewrite Hfd. }
  edestruct (react_all_core [] None rs s2 Hs2) as (s' & Hr & ? & ? & _); [|done|].
  - intros k' [= <-] _. by left.
  - exists s'. by rewrite Hr.
Qed.

(** ** Functors *)

(** A functor is taken from the round. *)
Lemma core_pop s f fs : core [] None s → handling (loop_ s) = false → calling (loop_ s) = f :: fs →
  let l := loop_ s in
  core [f] None (set_loop (mkLoop (handling l) fs (pendingFunctors_ l) (timers l) (new_connections l) (new_channel l)) s).
Proof.
  intros Hs Hph Hcall. destruct s as [k c l m g], l as [h q p ts nc nch]. cbn in *. subst h q.
  destruct Hs as [Hk Hc Hx Hcl Hd Hf Hn Hrm Hh Hfd]. split; try done. cbn in *. destruct k as [k|]; [by destruct Hk|done].
Qed.

(** A functor that needs nothing more is dropped. *)
Lemma core_drop f s : core [f] None s →
  (match f with
   | StartInLoop | ForceCloseInLoop _ => True
   | StopInLoop => ∀ k, connector_ s = Some k → Connector.state_ k ≠ Connector.kConnecting
   | _ => False
   end) → core [] None s.
Proof.
  intros [Hk Hc Hx Hcl Hd Hf Hn Hrm Hh Hfd] Hcond.
  assert (Hle : ∀ g, (count g (functors [] s) ≤ count g (functors [f] s))%nat) by (intros g; counts).
  assert (Hcount : ∀ g, g ≠ f → count g (functors [f] s) = count g (functors [] s)) by (intros g Hg; counts).
  assert (Hreset : count ResetChannel (functors [f] s) = count ResetChannel (functors [] s)) by (apply Hcount; by destruct f).
  assert (Hcur : count ResetChannel (current [f] s) = count ResetChannel (current [] s)) by (counts; by destruct f).
  split; try done.
  - destruct (connector_ s) as [k|] eqn:Ek.
    + destruct Hk. pose proof (Hle StartInLoop). pose proof (Hle StopInLoop). split; try done.
      * by rewrite <-Hreset.
      * lia.
      * intros. apply k_waiting0. lia.
      * intros. apply k_start0. lia.
      * intros w Hw Hr. rewrite <-Hcur. by apply k_timer0.
      * intros. apply k_stop0. lia.
      * intros. pose proof (k_running0 ltac:(done) ltac:(done)). lia.
      * intros Hdest. destruct (k_destroyed0 Hdest) as [? Hst]. split; [done|]. intros Hst'.
        destruct (decide (f = StopInLoop)) as [->|Hne]; [by destruct (Hcond k eq_refl)|]. rewrite <-Hcount by congruence. by apply Hst.
    + destruct Hk as (? & Hno & ?). split_and!; [done| |done]. intros g Hg. apply Hno. by right.
  - intros c Hc'. destruct (Hc c Hc') as (? & ? & k & ? & ? & Hch). split_and!; [done..|]. exists k. split_and!; [done..|].
    destruct Hch as [?|(? & ? & l1 & l2 & El & Hl1)]; [by left|right]. split_and!; [done..|].
    destruct l1 as [|g l1]; [injection El as -> _; done|]. injection El as <- El. exists l1, l2. split; [done|]. set_solver.
  - intros c fd x Hl. destruct (Hx c fd x Hl) as (? & ? & Hok). split; [done|split; [done|]]. by rewrite Hcount in Hok by (by destruct f).
  - intros c Hc'. apply Hd. specialize (Hle (ConnectDestroyed c)). lia.
  - intros c Hc'. apply Hf. specialize (Hle (ForceCloseInLoop c)). lia.
  - intros H. by destruct (Hh H).
Qed.

Lemma with_hand f s : f ∈ functors [f] s.
Proof. left. Qed.
Lemma connector_in_hand f s : core [f] None s → of_connector f = true → ∃ k, connector_ s = Some k ∧ connector_ok [f] k s.
Proof.
  intros Hs Hf. pose proof (c_connector _ _ _ Hs) as Hk. destruct (connector_ s) as [k|]; [by exists k|]. destruct Hk as (_ & Hno & _).
  rewrite (Hno f (with_hand f s)) in Hf. done.
Qed.

Lemma reset_core s : core [ResetChannel] None s →
  ∃ s', with_connector (λ k, Done ([], Connector.resetChannel k)) [] [] s = Done s' ∧ core [] None s' ∧ (progress s → progress s').
Proof.
  intros Hs. destruct (connector_in_hand _ _ Hs eq_refl) as (k & Ek & Hk). unfold with_connector. rewrite Ek. cbn. eexists. split; [done|].
  split.
  2: { intros Hp k' [= <-] Hc. apply (Hp k Ek Hc). }
  destruct Hk. unfold channel_ok in k_channel0. 
  assert (Hc1 : count ResetChannel (functors [ResetChannel] s) = S (count ResetChannel (functors [] s))) by counts. rewrite Hc1 in k_channel0.
  destruct (Connector.channel_ k) as [[fd ch]|] eqn:Hch; [|lia]. destruct (Channel.addedToLoop_ ch) eqn:Hadd; [lia|].
  destruct k_channel0 as [Hst Hres]. destruct Hs as [_ Hc Hx Hcl Hd Hf Hn Hrm Hh Hfd].
  assert (Hcount : ∀ g, g ≠ ResetChannel → count g (functors [ResetChannel] s) = count g (functors [] s)) by (intros g Hg; counts).
  split; try done.
  - cbn. split; rewrite <-?Hcount by done; try done; cbn.
    + unfold channel_ok. cbn. split; [|done]. unfold functors. cbn. unfold functors in Hres. cbn in Hres. lia.
    + intros. by left.
  - cbn. intros c Hc'. destruct (Hc c Hc') as (? & ? & k' & Ek' & ? & _). rewrite Ek in Ek'. injection Ek' as <-. split_and!; [done..|].
    eexists. split_and!; [done..|]. by left.
  - cbn. intros H. by destruct (Hh H).
  - rewrite Ek in Hfd. cbn in *. by rewrite Hch, Hadd in Hfd.
Qed.

Lemma destroyed_core c s : core [ConnectDestroyed c] None s → ∃ s', connection_destroyed c s = Done s' ∧ core [] None s' ∧ (progress s → progress s').
Proof.
  intros [Hk Hc Hx Hcl Hd Hf Hn Hrm Hh Hfd].
  assert (Hcount : ∀ g, g ≠ ConnectDestroyed c → count g (functors [ConnectDestroyed c] s) = count g (functors [] s)) by (intros g Hg; counts).
  assert (Hc1 : count (ConnectDestroyed c) (functors [ConnectDestroyed c] s) = S (count (ConnectDestroyed c) (functors [] s))) by counts.
  destruct (Hd c) as [[fd x] Hl]; [lia|]. destruct (Hx c fd x Hl) as (Hi & Hrange & Hok). rewrite decide_False in Hok by done.
  destruct Hok as [(_ & _ & ?)|(Hst & Hcur & Hone)]; [lia|].
  destruct (run_op_ok TcpConnection.Destroy x Hi (or_intror Hst)) as (x' & calls & Hr & _). cbn in Hr.
  assert (TcpConnection.state_ x' = kDisconnected) as Hst'.
  { unfold TcpConnection.connectDestroyed in Hr. rewrite decide_False in Hr by congruence. destruct_done Hr. by injection Hr as <- <-. }
  unfold connection_destroyed. rewrite Hl, Hr, bind_ret_l. cbv beta iota. unfold TcpConnection.dtor. rewrite cassert_bind by (by apply bool_decide_eq_true).
  eexists. split; [done|]. split; [|done]. split; try done.
  - cbn. destruct (connector_ s) as [k|].
    + by destruct Hk.
    + destruct Hk as (? & Hno & ?). split_and!; [done| |done]. intros g Hg. apply Hno. by right.
  - cbn. intros c' Hc'. destruct (Hc c' Hc') as (? & ? & k & ? & ? & Hch). split_and!; [done| |].
    + rewrite lookup_delete_ne; [done|congruence].
    + exists k. split_and!; [done..|]. destruct Hch as [?|(? & ? & l1 & l2 & El & Hl1)]; [by left|right]. split_and!; [done..|].
      destruct l1 as [|g l1]; [done|]. injection El as <- El. exists l1, l2. split; [done|]. set_solver.
  - cbn. intros c' fd' y [Hne Hy]%lookup_delete_Some. destruct (Hx c' fd' y Hy) as (? & ? & Hok'). split; [done|split; [done|]].
    rewrite Hcount in Hok' by congruence. done.
  - intros c' Hc'. change (0 < count (ConnectDestroyed c') (functors [] s))%nat in Hc'. destruct (decide (c' = c)) as [->|Hne]; [lia|]. cbn.
    rewrite lookup_delete_ne by done. apply Hd. by rewrite Hcount by congruence.
  - cbn. intros H. by destruct (Hh H).
  - cbn. rewrite Hfd, (fds_delete _ _ _ _ Hl). solve_Permutation.
Qed.

(** ** Timers *)
Lemma holders_of_retries ws : existsb holds_connector ws = false → retry_timers ws = 0%nat.
Proof.
  intros H. destruct (retry_timers ws) eqn:E; [done|]. unfold retry_timers in E.
  destruct (filter (λ w, what w = Retry) ws) as [|w l] eqn:Ef; [done|].
  assert (w ∈ filter (λ w, what w = Retry) ws) as Hw by (rewrite Ef; left). apply list_elem_of_filter in Hw as [Hr Hw].
  assert (existsb holds_connector ws = true); [|congruence]. apply existsb_exists. exists w. split; [by apply list_elem_of_In|].
  unfold holds_connector. by rewrite Hr.
Qed.

(** The connector of a destroyed client goes when it has nothing left to do. *)
Lemma free_connector s k : core [] None s → connector_ s = Some k → destroyed (client_ s) = true → (∀ f, f ∈ functors [] s → of_connector f = false) →
  retries s = 0%nat → Connector.dtor k = Done tt ∧ core [] None (set_connector None s).
Proof.
  intros [Hk Hc Hx Hcl Hd Hf Hn Hrm Hh Hfd] Ek Hdest Hno Hret. rewrite Ek in *. destruct Hk.
  assert (Connector.channel_ k = None) as Hch.
  { unfold channel_ok in k_channel0. rewrite (count_none ResetChannel) in k_channel0 by done. destruct (Connector.channel_ k) as [[fd ch]|]; [|done].
    destruct (Channel.addedToLoop_ ch); [|lia]. destruct (k_destroyed0 Hdest) as [_ Hst]. destruct k_channel0 as [Hc0 _]. specialize (Hst Hc0).
    rewrite (count_none StopInLoop) in Hst by done. lia. }
  split; [unfold Connector.dtor; by rewrite Hch|]. split; try done.
  - cbn. intros c Hc'. destruct (Hc c Hc'). congruence.
  - cbn in *. by rewrite Hch in Hfd.
Qed.
Lemma release_core s : core [] None s → progress s →
  (destroyed (client_ s) = true → existsb holds_connector (timers (loop_ s)) = false → ∀ f, f ∈ functors [] s → of_connector f = false) →
  ∃ s', release s = Done s' ∧ core [] None s' ∧ progress s'.
Proof.
  intros Hs Hp Hno. unfold release. destruct (connector_ s) as [k|] eqn:Ek; [|by exists s].
  destruct (destroyed (client_ s)) eqn:Hdest; [|by exists s]. destruct (existsb _ _) eqn:Hw; [by exists s|]. cbn [andb negb].
  destruct (free_connector s k Hs Ek Hdest (Hno eq_refl eq_refl) (holders_of_retries _ Hw)) as [-> Hs'].
  eexists. split; [done|]. split; [done|]. by intros k' Hk'.
Qed.

Lemma core_untimer s i w : core [] None s → timers (loop_ s) !! i = Some w →
  let l := loop_ s in
  let s' := set_loop (mkLoop (handling l) (calling l) (pendingFunctors_ l) (delete i (timers l)) (new_connections l) (new_channel l)) s in
  core [] None s' ∧ retries s = ((if decide (what w = Retry) then 1 else 0) + retries s')%nat.
Proof.
  intros [Hk Hc Hx Hcl Hd Hf Hn Hrm Hh Hfd] Hi l s'.
  assert (retries s = ((if decide (what w = Retry) then 1 else 0) + retries s')%nat) as Hret by apply (retry_timers_delete _ _ _ Hi).
  assert (retries s' ≤ retries s)%nat as Hle by (rewrite Hret; case_decide; lia).
  assert (Hsub : ∀ w', w' ∈ timers (loop_ s') → w' ∈ timers (loop_ s)).
  { intros w' Hw'. cbn in Hw'. rewrite delete_take_drop in Hw'. rewrite <-(take_drop_middle _ _ _ Hi). set_solver. }
  split; [|done]. split; try done.
  - change (connector_ s') with (connector_ s). destruct (connector_ s) as [k|].
    + destruct Hk. split; try done; change (functors [] s') with (functors [] s); [lia|intros; apply k_waiting0; lia|].
      intros w' Hw' Hr. apply k_timer0; [by apply Hsub|done].
    + destruct Hk as (? & ? & ?). split_and!; [done|done|lia].
  - intros w' Hdest Hw'. apply Hrm; [done|by apply Hsub].
Qed.

(** ** The loop *)
Lemma begin_core s : core [] None s → handling (loop_ s) = true →
  core [] None (set_loop (mkLoop false (pendingFunctors_ (loop_ s)) [] (timers (loop_ s)) (new_connections (loop_ s)) (new_channel (loop_ s))) s) ∧
  functors [] s = functors [] (set_loop (mkLoop false (pendingFunctors_ (loop_ s)) [] (timers (loop_ s)) (new_connections (loop_ s)) (new_channel (loop_ s))) s).
Proof.
  intros Hs Hph. destruct (c_handling _ _ _ Hs Hph) as [_ Hcall]. destruct s as [k c l m g], l as [h q p ts nc nch]. cbn in *. subst h q.
  unfold functors. cbn. rewrite app_nil_r. split; [|done].
  destruct Hs as [Hk Hc Hx Hcl Hd Hf Hn Hrm Hh Hfd]. unfold functors in *. cbn in *. split; unfold functors; cbn; rewrite ?app_nil_r; try done.
  - destruct k as [k|]; [|done]. destruct Hk. split; unfold functors in *; cbn in *; rewrite ?app_nil_r; done.
  - intros c' fd x Hl. destruct (Hx c' fd x Hl) as (? & ? & Hok). split; [done|split; [done|]]. unfold functors. cbn. by rewrite app_nil_r.
Qed.

Lemma poll_core s : core [] None s → handling (loop_ s) = false → calling (loop_ s) = [] →
  let l := loop_ s in
  let s' := set_loop (mkLoop true [] (pendingFunctors_ l) (map (λ w, mkTimer (what w) false) (timers l)) [] false) s in
  core [] None s' ∧ functors [] s' = functors [] s ∧ retries s' = retries s.
Proof.
  intros Hs Hph Hcall l s'. assert (functors [] s' = functors [] s) as Ef by (unfold functors, s'; cbn; by rewrite Hcall).
  assert (retries s' = retries s) as Er by apply retry_timers_map. assert (current [] s = []) as Hcur by (unfold current; by rewrite Hph, Hcall).
  split; [|done]. destruct Hs as [Hk Hc Hx Hcl Hd Hf Hn Hrm Hh Hfd]. split; rewrite ?Ef; try done.
  - change (connector_ s') with (connector_ s). destruct (connector_ s) as [k|]; [|by rewrite Er]. destruct Hk. split; rewrite ?Ef, ?Er; try done.
    intros w' Hw' Hr. cbn in Hw'. apply list_elem_of_fmap in Hw' as (w & -> & Hw). cbn in Hr. destruct (k_timer0 w Hw Hr) as [?|[_ Hcur']]; [by left|].
    rewrite Hcur, count_nil in Hcur'. lia.
  - intros c Hc'. destruct (Hc c Hc') as (? & ? & k & ? & ? & Hch). split_and!; [done..|]. exists k. split_and!; [done..|]. left.
    destruct Hch as [?|(_ & _ & l1 & l2 & El & _)]; [done|]. rewrite Hcur in El. by destruct l1.
  - intros c fd x Hl. destruct (Hx c fd x Hl) as (? & ? & Hok). split; [done|split; [done|]]. by rewrite Ef.
  - intros w' Hdest Hw'. cbn in Hw'. apply list_elem_of_fmap in Hw' as (w & -> & Hw). cbn. by apply Hrm.
Qed.

(** ** Destroying the client *)

(** With a connection the connector goes at once. *)
Lemma dtor_connected s id unique : core [] None s → connection_ (client_ s) = Some id → (∀ f, f ∈ functors [] s → of_connector f = false) →
  ∃ s', dtor unique s = Done s' ∧ core [] None s' ∧ progress s'.
Proof.
  intros Hs Hid Hno. unfold dtor. rewrite Hid.
  assert (∃ s1, (if unique then on_connection id TcpConnection.ForceClose s else Done s) = Done s1 ∧ core [] None s1 ∧ aside s s1) as (s1 & -> & Hs1 & Ha).
  { destruct unique; [by apply on_connection_core|]. exists s. split_and!; [done|done|apply aside_refl]. }
  rewrite bind_ret_l. cbv zeta. clear Hs. destruct Ha as [Ek Ec El Eh _ _ Er Ef]. rewrite <-Ec in Hid.
  assert (∀ f, f ∈ functors [] s1 → of_connector f = false) as Hno1.
  { intros f Hf. destruct (of_connector f) eqn:E; [|done]. rewrite <-E. apply Hno. apply count_in. rewrite <-Ef by done. by apply count_in. }
  clear Ek Ec El Eh Er Ef Hno. destruct Hs1 as [Hk Hc Hx Hcl Hd Hf Hn Hrm Hh Hfd]. destruct (Hc id Hid) as (Hdest & [y Hy] & k & Ek & Hst & Hch).
  rewrite Ek in Hk. destruct Hk.
  assert (Connector.channel_ k = None) as Hnone.
  { destruct Hch as [?|(_ & _ & l1 & l2 & El & _)]; [done|]. specialize (Hno1 ResetChannel). exfalso.
    assert (ResetChannel ∈ functors [] s1) as Hin; [|by apply Hno1 in Hin]. unfold functors, current in *. cbn in *.
    destruct (handling (loop_ s1)); rewrite ?El; set_solver. }
  assert (retries s1 = 0%nat) as Hret by (destruct (retries s1) eqn:E; [done|]; rewrite k_waiting0 in Hst by lia; done).
  assert (existsb holds_connector (timers (loop_ s1)) = false) as Hhold.
  { apply not_true_iff_false. intros (w & Hw & Hh')%existsb_exists. apply list_elem_of_In in Hw. pose proof (Hrm w Hdest Hw).
    pose proof (retry_timer_in _ _ Hw) as Hr. unfold retries in Hret. unfold holds_connector in Hh'. destruct (what w); [|done|done]. specialize (Hr eq_refl). lia. }
  unfold release. cbn. rewrite Ek, Hhold. cbn. unfold Connector.dtor. rewrite Hnone. cbn. eexists. split; [done|]. split; [|by intros k' Hk'].
  split; try done.
  - intros c fd x Hl. destruct (Hx c fd x Hl) as (? & ? & Hok). split; [done|split; [done|]]. rewrite decide_False in * by done.
    destruct Hok as [(? & ? & ?)|(? & ? & ?)]; [left|right]; split_and!; try done. by right.
  - rewrite Ek in Hfd. cbn in *. by rewrite Hnone in Hfd.
Qed.

(** Without one the connector is stopped and kept for a while. *)
Lemma core_dead s k client' : core [] None s → connector_ s = Some k → Connector.connect_ k = false →
  (Connector.state_ k = Connector.kConnecting → 0 < count StopInLoop (functors [] s))%nat → connection_ (client_ s) = None →
  nextConnId_ client' = nextConnId_ (client_ s) → connection_ client' = None → destroyed client' = true →
  core [] None (runAfter RemoveConnector (set_client client' s)).
Proof.
  intros [Hk Hc Hx Hcl Hd Hf Hn Hrm Hh Hfd] Ek Hoff Hstop Hnone E1 E2 E3. rewrite Ek in Hk. set (s' := runAfter _ _).
  assert (retries s' = retries s) as Hret.
  { unfold retries, s'. cbn. rewrite retry_timers_app, retry_timers_one, decide_False by done. lia. }
  split; try done.
  - change (connector_ s') with (connector_ s). rewrite Ek. destruct Hk. split; rewrite ?Hret; change (functors [] s') with (functors [] s); try done.
    + intros w Hw Hr. cbn in Hw. apply elem_of_app in Hw as [?|Hw%list_elem_of_singleton]; [by apply k_timer0|by subst w].
    + cbn. intros. congruence.
  - cbn. intros c Hc'. congruence.
  - intros c fd x Hl. destruct (Hx c fd x Hl) as (? & ? & Hok). split; [done|]. change (client_ s') with client'. rewrite E1, E2, E3. split; [done|].
    rewrite decide_False in * by done. change (functors [] s') with (functors [] s). destruct Hok as [(? & ? & ?)|(? & ? & ?)]; [left|right]; split_and!; try done.
    by right.
  - cbn. by rewrite E1.
  - cbn. by rewrite E1.
  - cbn. intros. congruence.
Qed.
Lemma dtor_unconnected s unique : core [] None s → connection_ (client_ s) = None → destroyed (client_ s) = false →
  ∃ s', dtor unique s = Done s' ∧ core [] None s' ∧ progress s'.
Proof.
  intros Hs Hnone Hdest. unfold dtor. rewrite Hnone.
  pose proof (core_flags _ _ _ (set_connect false (client_ s)) Hs eq_refl eq_refl eq_refl ltac:(done)) as Hs0.
  destruct (Connector_stop_core _ _ _ Hs0 Hdest eq_refl) as (s1 & Hstop & Hs1 & _ & _). unfold Connector_stop in *. cbn [connector_ set_client] in Hstop.
  destruct (connector_ s) as [k|] eqn:Ek; [|done]. injection Hstop as <-. rewrite !bind_ret_l. cbv zeta. unfold release. cbn.
  assert (existsb holds_connector (timers (loop_ s) ++ [mkTimer RemoveConnector true]) = true) as ->.
  { apply existsb_exists. eexists. split; [apply in_or_app; right; by left|done]. }
  cbn. eexists. split; [done|]. split; [|intros k' [= <-]; done].
  set (c := client_ s) in *. set (c' := mkClient (name_ c) (retry_ c) (TcpClient.connect_ c) (nextConnId_ c) None true).
  apply (core_dead _ (Connector.set_connect false k) c') in Hs1; [exact Hs1|done..| |done|done|done|done].
  intros _. counts.
Qed.

(** ** Every operation *)
Lemma start_off s k sys : connector_ s = Some k → Connector.state_ k = Connector.kDisconnected → Connector.connect_ k = false →
  with_connector (Connector.startInLoop sys) [] [] s = Done s.
Proof.
  intros Ek Hst Hoff. unfold with_connector. rewrite Ek. unfold Connector.startInLoop. rewrite cassert_bind by (by apply bool_decide_eq_true).
  rewrite Hoff. cbn. by rewrite set_connector_same.
Qed.

Lemma connect_core in_loop sys s : core [] None s → destroyed (client_ s) = false → idle s →
  ∃ s', connect in_loop sys s = Done s' ∧ core [] None s' ∧ progress s'.
Proof.
  intros Hs Hdest (k & Ek & Hst & Hch & H1 & H2 & H3). unfold connect.
  assert (connection_ (client_ s) = None) as Hnone.
  { destruct (connection_ (client_ s)) as [c|] eqn:E; [|done]. destruct (c_connection _ _ _ Hs c E) as (_ & _ & k' & Ek' & ? & _). congruence. }
  pose proof (core_flags _ _ _ (set_connect true (client_ s)) Hs eq_refl eq_refl eq_refl ltac:(by right)) as Hs0. cbn. rewrite Ek.
  set (s0 := set_client _ _) in *. set (k1 := Connector.set_connect true k). set (s1 := set_log _ _).
  assert (core [] None s1) as Hs1.
  { pose proof (c_connector _ _ _ Hs0) as Hk. pose proof (c_fds _ _ _ Hs0) as Hfd. change (connector_ s0) with (connector_ s) in *. rewrite Ek in Hk, Hfd.
    eapply (core_connector _ _ s0 s1 k1); [exact Hs0|done..|apply Hs0|old_timers| |done].
    destruct Hk. split; try done.
    - change (functors [] s1) with (functors [] s). rewrite H2. lia.
    - cbn. intros. congruence. }
  destruct in_loop.
  - destruct (start_core None s1 k1 sys Hs1) as (s' & ? & ? & ? & _); [done..|by exists s'].
  - eexists. split; [done|].
    assert (Hcount : ∀ f, count f (functors [] (queueInLoop StartInLoop s1)) = (count f (functors [] s) + if decide (StartInLoop = f) then 1 else 0)%nat).
    { intros f. unfold s1, s0. counts. }
    split; [|intros k' _ _; right; left; rewrite Hcount, decide_True, H1 by done; change (0 + 1 + retries s = 1)%nat; lia].
    pose proof (c_connector _ _ _ Hs1) as Hk. pose proof (c_fds _ _ _ Hs1) as Hfd. cbn in Hk, Hfd. destruct Hk.
    eapply (core_connector _ _ s1 _ k1); [exact Hs1|done..| |apply Hs1|old_timers| |exact Hfd].
    + intros f Hf. rewrite Hcount, decide_False by (by intros <-). change (functors [] s1) with (functors [] s). lia.
    + split; rewrite ?Hcount, ?decide_True, ?decide_False by done; rewrite ?H1, ?H2; change (retries (queueInLoop StartInLoop s1)) with (retries s); try done.
      * revert k_channel0. unfold channel_ok. cbn. rewrite Hch, Hst. intros [Hres _]. split; [|done]. change (functors [] s1) with (functors [] s) in Hres. lia.
      * lia.
      * intros w Hw Hr. by left.
      * lia.
      * cbn. intros. congruence.
Qed.

Lemma call_functor_core sys rs f fs s : core [] None s → progress s → handling (loop_ s) = false → calling (loop_ s) = f :: fs →
  Forall (reaction_ok s) rs →
  let l := loop_ s in
  ∃ s', call_functor sys rs f (set_loop (mkLoop (handling l) fs (pendingFunctors_ l) (timers l) (new_connections l) (new_channel l)) s) = Done s' ∧
    core [] None s' ∧ progress s'.
Proof.
  intros Hs Hp Hph Hcall Hrs l. pose proof (core_pop s f fs Hs Hph Hcall) as Hs1. cbv zeta in Hs1. fold l in Hs1. set (s1 := set_loop _ s) in *.
  assert (f ≠ StartInLoop → progress s1) as Hp1.
  { intros Hne k Hk Hc. destruct (Hp k Hk Hc) as [?|[Hone|?]]; [by left|right; left|by right; right]. revert Hone. unfold s1, l. counts. rewrite Hcall, count_cons. by case_decide. }
  destruct f as [| | |c|c]; cbn [call_functor].
  - destruct (connector_in_hand _ _ Hs1 eq_refl) as (k & Ek & Hk). pose proof (core_drop _ _ Hs1 I) as Hs2. destruct Hk.
    assert (H1 : count StartInLoop (functors [StartInLoop] s1) = S (count StartInLoop (functors [] s1))) by (unfold functors; cbn; by rewrite count_cons, decide_True).
    destruct (start_core None s1 k sys Hs2 Ek) as (s' & ? & ? & ? & _); [apply k_waiting0; lia|apply k_start0; lia|lia|lia|by exists s'].
  - destruct (connector_in_hand _ _ Hs1 eq_refl) as (k & Ek & Hk). unfold with_connector. rewrite Ek.
    destruct (decide (Connector.state_ k = Connector.kConnecting)) as [Hst|Hst].
    + pose proof (k_channel _ _ _ Hk) as Hch. unfold channel_ok in Hch. destruct (Connector.channel_ k) as [[fd ch]|] eqn:Ech; [|by destruct Hch].
      rewrite (stopInLoop_eq k fd ch Hst Ech), bind_ret_l. cbv beta iota.
      destruct (fail_core _ _ _ _ _ [] [] Hs1 Ek Ech Hst) as (s' & -> & Hs' & ? & Ek').
      { intros Hc. rewrite (k_stop _ _ _ Hk) in Hc; [done|]. unfold functors. cbn. rewrite count_cons, decide_True by done. lia. }
      exists s'. split_and!; [done| |done]. apply (core_drop StopInLoop); [done|]. intros k' Ek''. rewrite Ek' in Ek''. injection Ek'' as <-.
      unfold failed, Connector.retry. cbn. by destruct (Connector.connect_ k).
    + unfold Connector.stopInLoop. rewrite decide_False by done. rewrite bind_ret_l. cbn. rewrite set_connector_same by done. eexists. split; [done|].
      split; [|by apply Hp1]. apply (core_drop StopInLoop); [done|]. intros k' Ek''. congruence.
  - destruct (reset_core s1 Hs1) as (s' & -> & ? & ?). exists s'. split_and!; [done..|]. auto.
  - destruct (destroyed_core c s1 Hs1) as (s' & -> & ? & ?). exists s'. split_and!; [done..|]. auto.
  - pose proof (core_drop _ _ Hs1 I) as Hs2. apply connection_event_core; try done.
    + by apply Hp1.
    + intros k Hc Ek. destruct (c_connection _ _ _ Hs1 c Hc) as (_ & _ & k' & Ek' & _ & [?|(_ & _ & l1 & l2 & El & Hl1)]); [congruence|].
      unfold current in El. cbn in El. destruct l1 as [|g l1]; [done|]. injection El as <- _. exfalso. apply Hl1. left.
Qed.

Lemma timer_core i sys s : core [] None s → progress s → enabled (TimerFires i sys) s →
  ∃ s', run (TimerFires i sys) s = Done s' ∧ core [] None s' ∧ progress s'.
Proof.
  intros Hs Hp (Hph & w & Hi & Hfresh & Hno). cbn [run]. rewrite Hi. destruct (core_untimer s i w Hs Hi) as [Hs1 Hret]. set (s1 := set_loop _ s) in *.
  assert (Hrel : destroyed (client_ s1) = true → existsb holds_connector (timers (loop_ s1)) = false → ∀ f, f ∈ functors [] s1 → of_connector f = false) by exact Hno.
  assert (Hw : w ∈ timers (loop_ s)) by by eapply list_elem_of_lookup_2.
  destruct (what w) as [| |c] eqn:Ew; cbn [run_task].
  - rewrite decide_True in Hret by done. pose proof (c_connector _ _ _ Hs) as Hk. destruct (connector_ s) as [k|] eqn:Ek; [|destruct Hk as (_ & _ & ?); lia].
    assert (Connector.channel_ k = None) as Hch by (destruct (k_timer _ _ _ Hk w Hw Ew) as [?|[? _]]; congruence).
    pose proof (k_tokens _ _ _ Hk) as Htok. pose proof (k_waiting _ _ _ Hk ltac:(lia)) as Hst. change (functors [] s) with (functors [] s1) in Htok.
    destruct (destroyed (client_ s)) eqn:Hdest.
    + destruct (k_destroyed _ _ _ Hk Hdest) as [Hoff _]. rewrite (start_off s1 k sys Ek Hst Hoff), bind_ret_l. apply release_core; [done| |done].
      intros k' Ek'. change (connector_ s = Some k') in Ek'. rewrite Ek in Ek'. injection Ek' as <-. congruence.
    + destruct (start_core None s1 k sys Hs1 Ek Hst Hch) as (s2 & -> & Hs2 & Hp2 & Ec2); [lia|lia|]. rewrite bind_ret_l. apply release_core; [done|done|].
      rewrite Ec2. change (client_ s1) with (client_ s). congruence.
  - rewrite decide_False in Hret by done. apply release_core; [done| |done].
    intros k Ek Hc. change (functors [] s1) with (functors [] s). rewrite <-Nat.add_0_l in Hret at 1. destruct (Hp k Ek Hc) as [?|[?|?]]; [by left|right; left; lia|by right; right].
  - rewrite decide_False in Hret by done. destruct (on_connection_core [] None s1 c TcpConnection.ForceClose Hs1 eq_refl) as (s2 & ? & ? & Ha); [done|].
    exists s2. split_and!; [done..|]. eapply progress_aside; [exact Ha|].
    intros k Ek Hc. change (functors [] s1) with (functors [] s). destruct (Hp k Ek Hc) as [?|[?|?]]; [by left|right; left; lia|by right; right].
Qed.

Lemma run_core o s : core [] None s → progress s → enabled o s → ∃ s', run o s = Done s' ∧ core [] None s' ∧ progress s'.
Proof.
  intros Hs Hp He. destruct o as [in_loop sys|r|c o|unique| |sys rs| |revents err self peer rs|c o sys rs|i sys].
  - destruct He as [Hdest Hidle]. by apply connect_core.
  - destruct (react_core [] None s r Hs Hp He) as (s' & ? & ? & ? & _). by exists s'.
  - destruct He as (Ho & fd & x & Hl & He). destruct (on_connection_core [] None s c o Hs Ho) as (s' & ? & ? & Ha).
    { intros fd' x' Hl'. rewrite Hl in Hl'. by injection Hl' as <- <-. }
    exists s'. split_and!; [done..|]. by eapply progress_aside.
  - destruct He as [Hdest Hno]. cbn [run]. destruct (connection_ (client_ s)) as [id|] eqn:E.
    + apply (dtor_connected s id); [done|done|by apply Hno].
    + by apply dtor_unconnected.
  - cbn [run]. destruct (begin_core s Hs He) as [Hs1 Ef]. eexists. split; [done|]. split; [done|]. intros k Hk Hc. pose proof (Hp k Hk Hc) as Hpk. by rewrite Ef in Hpk.
  - destruct He as (Hph & Hne & Hrs). cbn [run]. destruct (calling (loop_ s)) as [|f fs] eqn:Hcall; [done|]. by apply call_functor_core.
  - destruct He as [Hph Hcall]. cbn [run]. destruct (poll_core s Hs Hph Hcall) as (Hs1 & Ef & Er). eexists. split; [done|]. split; [done|].
    intros k Hk Hc. rewrite Ef, Er. by apply Hp.
  - destruct He as (Hph & _ & Hrs & Hmax & k & fd & ch & Ek & Ech & Hadd). cbn [run].
    pose proof (c_connector _ _ _ Hs) as Hk. rewrite Ek in Hk. pose proof (k_channel _ _ _ Hk) as Hch. unfold channel_ok in Hch. rewrite Ech, Hadd in Hch.
    destruct Hch as [Hst _]. unfold with_connector. rewrite Ek. destruct (handleEvent_attempt k fd ch revents err self Hst Ech) as (acts & k' & -> & Ha).
    rewrite bind_ret_l. cbv beta iota. destruct Ha as [| |Hon|Hoff].
    + cbn. rewrite set_connector_same by done. by exists s.
    + destruct (fail_core [] s k fd ch peer rs Hs Ek Ech Hst) as (s' & ? & ? & ? & _); [done|]. by exists s'.
    + by apply done_core.
    + by apply stopped_core.
  - destruct He as (Hph & Ho & Hrs & Hnew & fd & x & Hl & He). cbn [run]. apply connection_event_core; try done.
    + intros fd' x' Hl'. rewrite Hl in Hl'. by injection Hl' as <- <-.
    + intros k Hc Ek. destruct (c_connection _ _ _ Hs c Hc) as (_ & _ & k' & Ek' & _ & [?|(_ & ? & _)]); [congruence|done].
  - by apply timer_core.
Qed.

Lemma make_core name : core [] None (make name) ∧ progress (make name).
Proof.
  split.
  - split; try done.
    + split; try done; [by vm_compute; lia|intros; by left|by exists 0%nat].
    + intros c H. cbn in H. rewrite count_nil in H. lia.
    + intros c H. cbn in H. rewrite count_nil in H. lia.
    + intros w _ H. by apply not_elem_of_nil in H.
  - intros k [= <-]. done.
Qed.
Lemma reachable_core name s : rtc step (make name) s → core [] None s ∧ progress s.
Proof.
  intros Hr. revert s Hr. apply rtc_ind_r; [apply make_core|].
  intros s1 s2 _ [o s1' He Hrun] [Hs Hp]. destruct (run_core o s1 Hs Hp He) as (s'' & Hrun' & ? & ?). rewrite Hrun in Hrun'. by injection Hrun' as ->.
Qed.

(** ** After [stop()] *)

(** Neither the connector nor the client is going to connect. *)
Definition off s : Prop :=
  (∀ k, connector_ s = Some k → Connector.connect_ k = false) ∧
  (destroyed (client_ s) = false → TcpClient.connect_ (client_ s) = false).
(** Nothing was opened and no connection was made. *)
Record still s s' : Prop := mkStill {
  s_off : off s → off s';
  s_opened : off s → opened (log_ s') = opened (log_ s);
  s_next : off s → nextConnId_ (client_ s') = nextConnId_ (client_ s)
}.
Lemma still_trans s1 s2 s3 : still s1 s2 → still s2 s3 → still s1 s3.
Proof. intros [H1 H2 H3] [H4 H5 H6]. split; intros Ho; [by apply H4, H1|by rewrite H5, H2 by auto|by rewrite H6, H3 by auto]. Qed.
Lemma still_same s s' : connector_ s' = connector_ s → client_ s' = client_ s → opened (log_ s') = opened (log_ s) → still s s'.
Proof. intros E1 E2 E3. split; unfold off; by rewrite ?E1, ?E2, ?E3. Qed.

Lemma queue_calls_still c calls : ∀ s, still s (foldl (λ s k, queue_call c k s) s calls).
Proof.
  induction calls as [|k calls IH]; intros s; cbn [foldl]; [by apply still_same|]. eapply still_trans; [|apply IH]. by apply still_same; destruct k.
Qed.
Lemma on_connection_still c o s s' : on_connection c o s = Done s' → still s s'.
Proof.
  unfold on_connection. destruct (connections s !! c) as [[fd x]|]; [|intros [= <-]; by apply still_same].
  intros H. destruct_done H. destruct a as [x' calls]. injection H as <-. eapply still_trans; [|apply queue_calls_still]. by apply still_same.
Qed.
Lemma Connector_stop_still s s' : Connector_stop s = Done s' → still s s' ∧ ∀ k, connector_ s' = Some k → Connector.connect_ k = false.
Proof.
  unfold Connector_stop. destruct (connector_ s) as [k|] eqn:Ek; [|done]. intros [= <-]. split.
  - split; [|done..]. intros [H1 H2]. split; [|done]. by intros k' [= <-].
  - by intros k' [= <-].
Qed.
Lemma stop_off s s' : stop s = Done s' → off s' ∧ still s s'.
Proof.
  unfold stop. intros H. assert (still s (set_client (set_connect false (client_ s)) s)) as H0 by (split; [|done..]; intros [? ?]; by split).
  destruct (Connector_stop_still _ _ H) as [H1 H2]. split; [|by eapply still_trans]. split; [done|].
  unfold Connector_stop in H. cbn in H. destruct (connector_ s); [|done]. by injection H as <-.
Qed.
Lemma react_still r s s' : react r s = Done s' → still s s'.
Proof.
  destruct r; cbn [react].
  - intros H. by apply stop_off in H as [_ ?].
  - unfold disconnect. cbn. assert (still s (set_client (set_connect false (client_ s)) s)) as H0 by (split; [|done..]; intros [? ?]; by split).
    destruct (connection_ _); [|by intros [= <-]]. intros H%on_connection_still. by eapply still_trans.
  - intros [= <-]. split; [|done..]. intros [? ?]. by split.
  - apply on_connection_still.
  - apply on_connection_still.
  - apply on_connection_still.
Qed.
Lemma react_all_still rs : ∀ s s', react_all rs s = Done s' → still s s'.
Proof.
  induction rs as [|r rs IH]; intros s s' H; cbn [react_all] in H; [injection H as <-; by apply still_same|]. destruct_done H.
  eapply still_trans; [by eapply react_still|by apply IH].
Qed.

(** What a member of a connector that is off asks for. *)
Definition harmless (a : Connector.act) : bool := match a with Connector.Open _ | Connector.NewConnection _ => false | _ => true end.
Lemma do_acts_still peer rs acts : Forall harmless acts → ∀ s s', do_acts peer rs acts s = Done s' → still s s'.
Proof.
  induction 1 as [|a acts Ha Hacts IH]; intros s s' H; cbn [do_acts] in H; [injection H as <-; by apply still_same|]. destruct_done H.
  eapply still_trans; [|by apply IH]. destruct a; try done; injection E as <-; by apply still_same.
Qed.
Lemma with_connector_still f peer rs s s' :
  (∀ k acts k', Connector.connect_ k = false → f k = Done (acts, k') → Connector.connect_ k' = false ∧ Forall harmless acts) →
  with_connector f peer rs s = Done s' → still s s'.
Proof.
  intros Hf. unfold with_connector. destruct (connector_ s) as [k|] eqn:Ek; [|done]. intros H. destruct_done H. destruct a as [acts k'].
  assert (off s → off s' ∧ opened (log_ s') = opened (log_ s) ∧ nextConnId_ (client_ s') = nextConnId_ (client_ s)) as Hoff.
  { intros [Hk Hc]. destruct (Hf k acts k' (Hk k Ek) E) as [Hk' Ha]. destruct (do_acts_still _ _ _ Ha _ _ H) as [H1 H2 H3].
    assert (off (set_connector (Some k') s)) as Ho by (split; [by intros k'' [= <-]|done]). split_and!; [by apply H1|by rewrite H2|by rewrite H3]. }
  split; intros Ho; by destruct (Hoff Ho) as (? & ? & ?).
Qed.

Lemma retry_off fd k : Connector.connect_ k = false → Connector.retry fd k = ([Connector.Close fd], Connector.setState Connector.kDisconnected k).
Proof. intros H. unfold Connector.retry. cbn. by rewrite H. Qed.
Lemma removeAndReset_off k fd k' : Connector.removeAndResetChannel k = Done (fd, k') → Connector.connect_ k' = Connector.connect_ k.
Proof. unfold Connector.removeAndResetChannel. destruct (Connector.channel_ k) as [[? ?]|]; [|done]. intros H. destruct_done H. by injection H as _ <-. Qed.
Lemma start_harmless sys k acts k' : Connector.connect_ k = false → Connector.startInLoop sys k = Done (acts, k') → Connector.connect_ k' = false ∧ Forall harmless acts.
Proof. intros Hk. unfold Connector.startInLoop. intros H. destruct_done H. rewrite Hk in H. injection H as <- <-. split; [done|by constructor]. Qed.
Lemma stop_harmless k acts k' : Connector.connect_ k = false → Connector.stopInLoop k = Done (acts, k') → Connector.connect_ k' = false ∧ Forall harmless acts.
Proof.
  intros Hk. unfold Connector.stopInLoop. case_decide; intros H1; [|injection H1 as <- <-; split; [done|by constructor]].
  destruct_done H1. destruct a as [fd k1]. apply removeAndReset_off in E. cbn in E. rewrite Hk in E. rewrite retry_off in H1 by done.
  injection H1 as <- <-. split; [done|by repeat constructor].
Qed.
Lemma handlers_harmless hs err self : ∀ k acts k', Connector.connect_ k = false → Connector.run_handlers hs err self k = Done (acts, k') →
  Connector.connect_ k' = false ∧ Forall harmless acts.
Proof.
  induction hs as [|h hs IH]; intros k acts k' Hk H; cbn [Connector.run_handlers] in H; [injection H as <- <-; by split|].
  destruct_done H. destruct a as [acts1 k1]. destruct_done H. destruct a as [acts2 k2]. injection H as <- <-.
  assert (Connector.connect_ k1 = false ∧ Forall harmless acts1) as [Hk1 Ha1]; [|destruct (IH _ _ _ Hk1 E0); split; [done|by apply Forall_app]].
  clear E0. destruct h; try (injection E as <- <-; by split).
  - unfold Connector.handleError in E. case_decide; [|injection E as <- <-; by split].
    destruct_done E. destruct a as [fd k3]. apply removeAndReset_off in E0. rewrite Hk in E0. rewrite retry_off in E by done. injection E as <- <-.
    split; [done|by repeat constructor].
  - unfold Connector.handleWrite in E. case_decide; [|destruct_done E; injection E as <- <-; by split].
    destruct_done E. destruct a as [fd k3]. apply removeAndReset_off in E0. rewrite Hk in E0. rewrite retry_off in E by done. cbn in E. rewrite E0 in E.
    destruct (err =? 0), self; cbn in E; injection E as <- <-; (split; [done|by repeat constructor]).
Qed.

Lemma removeConnection_still sys c s s' : removeConnection sys c s = Done s' → still s s'.
Proof.
  unfold removeConnection. destruct (destroyed (client_ s)) eqn:Hd; [intros [= <-]; by apply still_same|]. intros H. destruct_done H. clear E.
  destruct (retry_ _ && _) eqn:Hr; [|injection H as <-; split; [|done..]; intros [? ?]; by split].
  apply andb_true_iff in Hr as [_ Hr]. cbn in Hr. assert (¬ off s) as Hn by (intros [_ Hc]; rewrite Hc in Hr by done; done). by split; intros.
Qed.
Lemma run_calls_still sys rs c ks : ∀ s s', run_calls sys rs c ks s = Done s' → still s s'.
Proof.
  induction ks as [|k ks IH]; intros s s' H; cbn [run_calls] in H; [injection H as <-; by apply still_same|]. destruct_done H.
  eapply still_trans; [|by apply IH]. destruct k; cbn [run_call] in E; try (injection E as <-; by apply still_same).
  - by eapply react_all_still.
  - by eapply removeConnection_still.
Qed.
Lemma connection_event_still sys rs c o s s' : connection_event sys rs c o s = Done s' → still s s'.
Proof.
  unfold connection_event. destruct (connections s !! c) as [[fd x]|]; [|intros [= <-]; by apply still_same].
  intros H. destruct_done H. destruct a as [x' calls]. eapply still_trans; [|by eapply run_calls_still]. by apply still_same.
Qed.
Lemma release_still s s' : release s = Done s' → still s s'.
Proof.
  unfold release. destruct (connector_ s); [|intros [= <-]; by apply still_same]. destruct (_ && _); [|intros [= <-]; by apply still_same].
  intros H. destruct_done H. injection H as <-. split; [|done..]. intros [? ?]. by split.
Qed.

(** Once off, only [connect()] starts again. *)
Lemma run_still o s s' : (match o with Connect _ _ => False | _ => True end) → run o s = Done s' → still s s'.
Proof.
  intros Ho H. destruct o as [|r|c o|unique| |sys rs| |revents err self peer rs|c o sys rs|i sys]; cbn [run] in H; try done.
  - by eapply react_still.
  - by eapply on_connection_still.
  - unfold dtor in H. destruct_done H. eapply still_trans; [|by eapply release_still].
    assert (still s a) as Ha.
    { destruct (connection_ (client_ s)); [destruct unique; [by eapply on_connection_still|injection E as <-; by apply still_same]|].
      destruct_done E. injection E as <-. destruct (Connector_stop_still _ _ E0) as [? _]. eapply still_trans; [done|by apply still_same]. }
    eapply still_trans; [exact Ha|]. split; [|done..]. intros [? ?]. by split.
  - injection H as <-. by apply still_same.
  - destruct (calling (loop_ s)) as [|f fs]; [injection H as <-; by apply still_same|]. set (s1 := set_loop _ s) in H.
    assert (still s s1) as H1 by by apply still_same. eapply still_trans; [exact H1|]. destruct f; cbn [call_functor] in H.
    + eapply with_connector_still; [|exact H]. apply start_harmless.
    + eapply with_connector_still; [|exact H]. apply stop_harmless.
    + eapply with_connector_still; [|exact H]. intros k acts k' Hk [= <- <-]. by split.
    + unfold connection_destroyed in H. destruct (connections s1 !! c) as [[fd x]|]; [|done]. destruct_done H. destruct a as [x' ?]. destruct_done H.
      injection H as <-. by apply still_same.
    + by eapply connection_event_still.
  - injection H as <-. by apply still_same.
  - eapply with_connector_still; [|exact H]. intros k acts k'. apply handlers_harmless.
  - by eapply connection_event_still.
  - destruct (timers (loop_ s) !! i) as [w|]; [|injection H as <-; by apply still_same]. set (s1 := set_loop _ s) in H.
    assert (still s s1) as H1 by by apply still_same. eapply still_trans; [exact H1|]. destruct (what w); cbn [run_task] in H.
    + destruct_done H. eapply still_trans; [|by eapply release_still]. eapply with_connector_still; [|exact E]. apply start_harmless.
    + by eapply release_still.
    + by eapply on_connection_still.
Qed.
End preservation.

(** C38. For every history of connecting, stopping, retrying, closing and
    destroying, in any order the discipline allows: every operation completes
    without a failed assertion; every descriptor opened was closed once, or is the
    connector's or a connection's; the delays between retries in a row are 500
    milliseconds doubled each time up to 30 seconds; a connector that should
    connect is connecting, connected, about to retry or has given up with an error
    it only logs; at most one connection is up; and after [stop()] nothing is
    opened and no connection is made until [connect()] is called again. *)
Theorem client_correct name s : rtc step (TcpClient.make name) s →
  (∀ o, enabled o s → ∃ s', TcpClient.run o s = Done s') ∧
  TcpClient.opened (TcpClient.log_ s) ≡ₚ
    TcpClient.closed (TcpClient.log_ s) ++ connector_fd (TcpClient.connector_ s) ++ connection_fds (TcpClient.connections s) ∧
  (TcpClient.connector_ s ≠ None → ∃ n, TcpClient.waits (TcpClient.log_ s) = map delay_of (seq 0 n)) ∧
  progress s ∧
  (∀ c fd x, TcpClient.connections s !! c = Some (fd, x) → is_up x →
    TcpClient.connection_ (TcpClient.client_ s) = Some c ∨ TcpClient.destroyed (TcpClient.client_ s) = true) ∧
  (∀ s1 s2, TcpClient.stop s = Done s1 →
    rtc (λ s s', ∃ o, (match o with TcpClient.Connect _ _ => False | _ => True end) ∧ TcpClient.run o s = Done s') s1 s2 →
    TcpClient.opened (TcpClient.log_ s2) = TcpClient.opened (TcpClient.log_ s) ∧
    TcpClient.nextConnId_ (TcpClient.client_ s2) = TcpClient.nextConnId_ (TcpClient.client_ s)).
Proof.
  intros Hr. destruct (reachable_core name s Hr) as [Hs Hp]. split_and!.
  - intros o He. destruct (run_core o s Hs Hp He) as (s' & ? & _). by exists s'.
  - apply Hs.
  - intros Hne. pose proof (c_connector _ _ _ Hs) as Hk. destruct (TcpClient.connector_ s) as [k|]; [|done].
    destruct (k_delay _ _ _ Hk) as (n & ? & _). by exists n.
  - done.
  - intros c fd x Hl Hup. destruct (c_connections _ _ _ Hs c fd x Hl) as (_ & _ & Hok). rewrite decide_False in Hok by done.
    destruct Hok as [(_ & ? & _)|(Hst & _)]; [done|]. apply up_reports in Hup. by rewrite Hst in Hup.
  - intros s1 s2 Hstop Hrun. assert (still s s1 ∧ off s1) as [H1 Hoff].
    { destruct (stop_off _ _ Hstop) as [? ?]. done. }
    assert (TcpClient.opened (TcpClient.log_ s1) = TcpClient.opened (TcpClient.log_ s) ∧
      TcpClient.nextConnId_ (TcpClient.client_ s1) = TcpClient.nextConnId_ (TcpClient.client_ s)) as [<- <-].
    { unfold TcpClient.stop, TcpClient.Connector_stop in Hstop. cbn in Hstop. destruct (TcpClient.connector_ s); [|done]. by injection Hstop as <-. }
    clear Hstop H1. induction Hrun as [|s1 s2 s3 (o & Ho & Hstep) _ IH]; [done|]. destruct (run_still o s1 s2 Ho Hstep) as [H1 H2 H3].
    destruct (IH (H1 Hoff)) as [-> ->]. by rewrite H2, H3.
Qed.

Module Sample.
Import TcpClient.
Definition history : list op :=
  [Connect true (3, 111); Poll; TimerFires 0 (4, 115); BeginCalling; Poll;
   ConnectorEvent 4 0 false (bs "1.2.3.4:80") []; BeginCalling; CallFunctor (0, 0) []; Poll].
Definition start : t := make (bs "c").
Fixpoint run_all (os : list op) (s : t) : outcome t :=
  match os with [] => Done s | o :: os => s ← run o s; run_all os s end.

(** A closed connection leaves the connector connected: connecting again fails. *)
Theorem reconnect_aborts :
  (s ← run_all (history ++ [ConnectionEvent 1 (TcpConnection.Readable (Buffer.ReadBytes [])) (0, 0) []; BeginCalling; CallFunctor (0, 0) []]) (make (bs "c"));
   run (Connect true (5, 115)) s) = Fault (AssertFailed "state_ == kDisconnected").
Proof. by vm_compute. Qed.
(** A stop that is overtaken by the next connect takes back the attempt of that. *)
Theorem stop_hits_next_connect :
  ∃ s, run_all [Connect true (3, 111); React DoStop; Poll; TimerFires 0 (0, 0); Connect true (4, 115); BeginCalling; CallFunctor (0, 0) []] (make (bs "c")) = Done s ∧
    opened (log_ s) = [3; 4] ∧ closed (log_ s) = [3; 4].
Proof. eexists. split; [by vm_compute|]. by vm_compute. Qed.

Ltac take_step o := eapply rtc_l; [apply (step_intro _ o); [|vm_compute; reflexivity]|].
Lemma history_runs : ∃ s, rtc step start s ∧ connection_ (client_ s) = Some 1 ∧ waits (log_ s) = [500] ∧ opened (log_ s) = [3; 4] ∧ closed (log_ s) = [3].
Proof.
  eexists. split.
  - take_step (Connect true (3, 111)); [split; [done|]; by eexists|].
    take_step Poll; [done|].
    take_step (TimerFires 0%nat (4, 115)); [split; [done|]; eexists; by split_and!|].
    take_step BeginCalling; [done|].
    take_step Poll; [done|].
    take_step (ConnectorEvent 4 0 false (bs "1.2.3.4:80") []); [split_and!; try done; by repeat eexists|].
    take_step BeginCalling; [done|].
    take_step (CallFunctor (0, 0) []); [by split_and!|].
    take_step Poll; [done|]. apply rtc_refl.
  - by vm_compute.
Qed.
Lemma client_correct_witness : ∃ s, rtc step start s ∧ connection_ (client_ s) = Some 1 ∧
  [3; 4] ≡ₚ [3] ++ connector_fd (connector_ s) ++ connection_fds (connections s).
Proof.
  destruct history_runs as (s & Hr & Hc & _ & Ho & Hcl). exists s. split; [exact Hr|split; [exact Hc|]].
  destruct (client_correct (bs "c") s Hr) as (_ & Hfd & _). rewrite Ho, Hcl in Hfd. exact Hfd.
Defined.
End Sample.
