(* ===== verification/Poller.v ===== *)
(** Input multiplexing: [muduo::net::Poller] with its two implementations
    [EPollPoller] and [PollPoller] (src/IMServer/src/muduo/net: Poller.h,
    Poller.cc, poller/EPollPoller.h, poller/EPollPoller.cc,
    poller/PollPoller.h, poller/PollPoller.cc; the members of Channel.h a
    poller uses).  Channels are objects in a store, known by their address.
    The epoll instance of the kernel is a parameter (class [Epoll], as
    epoll_ctl(2) documents it where memory and watches do not run out: adding and
    changing registrations then succeed, and a failure is fatal in the code); what the kernel reports is an input of [poll].
    The class [Poller] states what an event loop relies on, and both
    implementations are instances of it. *)

From S2P Require Import Prelude StdMap TcpConnection.
Local Open Scope Z_scope.

(** * Channels as a poller sees them *)

Record Chan := mkChan { fd_ : Z; events_ : Z; revents_ : Z; index_ : Z }.
Notation store := (gmap Z Chan).

Definition set_events (e : Z) (c : Chan) : Chan := mkChan (fd_ c) e (revents_ c) (index_ c).
Definition set_revents (e : Z) (c : Chan) : Chan := mkChan (fd_ c) (events_ c) e (index_ c).
Definition set_index (i : Z) (c : Chan) : Chan := mkChan (fd_ c) (events_ c) (revents_ c) i.

(** [Channel( loop, fd )] *)
Definition new_channel (fd : Z) : Chan := mkChan fd 0 0 (-1).

Definition chan (p : Z) (st : store) : outcome Chan :=
  match st !! p with
  | Some c => Done c
  | None => Fault (Undefined "use of a destroyed channel")
  end.

(** [channels_.find( fd ) != channels_.end()], then [channels_[fd] == channel] *)
Definition assert_registered (fd p : Z) (channels : list (Z * Z)) : outcome unit :=
  _ ← cassert (bool_decide (is_Some (StdMap.find fd channels))) "channels_.find(fd) != channels_.end()";
  cassert (bool_decide (StdMap.find fd channels = Some p)) "channels_[fd] == channel".

(** [Poller::hasChannel( channel )] *)
Definition hasChannel (p : Z) (st : store) (channels : list (Z * Z)) : outcome bool :=
  c ← chan p st; Done (bool_decide (StdMap.find (fd_ c) channels = Some p)).

(** * [EPollPoller] *)

Inductive ctl := EPOLL_CTL_ADD | EPOLL_CTL_MOD | EPOLL_CTL_DEL.

(** An epoll instance: its interest list gives every descriptor the requested
    events and the user data. *)
Class Epoll (E : Type) := {
  interest : E → gmap Z (Z * Z);
  epoll_create1 : E;
  epoll_ctl : ctl → Z → Z * Z → E → option E;
  interest_create : interest epoll_create1 = ∅;
  ctl_add e fd ev : interest e !! fd = None →
    ∃ e', epoll_ctl EPOLL_CTL_ADD fd ev e = Some e' ∧ interest e' = <[fd := ev]> (interest e);
  ctl_mod e fd ev : is_Some (interest e !! fd) →
    ∃ e', epoll_ctl EPOLL_CTL_MOD fd ev e = Some e' ∧ interest e' = <[fd := ev]> (interest e);
  ctl_del e fd ev : is_Some (interest e !! fd) →
    ∃ e', epoll_ctl EPOLL_CTL_DEL fd ev e = Some e' ∧ interest e' = delete fd (interest e)
}.

Module EPollPoller.
Definition kNew : Z := -1.
Definition kAdded : Z := 1.
Definition kDeleted : Z := 2.
Definition kInitEventListSize : Z := 16.

Section ops.
Context {E : Type} `{Epoll E}.

Record t := mk { channels_ : list (Z * Z); epollfd_ : E; events_size : Z }.

(** [EPollPoller( loop )] *)
Definition make : t := mk [] epoll_create1 kInitEventListSize.

(** [update( operation, channel )]: a failing removal is logged, any other
    failure is fatal. *)
Definition update (operation : ctl) (p : Z) (c : Chan) (x : t) : outcome t :=
  match epoll_ctl operation (fd_ c) (events_ c, p) (epollfd_ x) with
  | Some e => Done (mk (channels_ x) e (events_size x))
  | None =>
      match operation with
      | EPOLL_CTL_DEL => Done x
      | _ => Fault (Thrown "LOG_SYSFATAL")
      end
  end.

(** [updateChannel( channel )] *)
Definition updateChannel (p : Z) (st : store) (x : t) : outcome (store * t) :=
  c ← chan p st;
  let index := index_ c in
  if (index =? kNew) || (index =? kDeleted) then
    let fd := fd_ c in
    x ← (if index =? kNew then
           _ ← cassert (bool_decide (StdMap.find fd (channels_ x) = None))
                 "channels_.find(fd) == channels_.end()";
           Done (mk (StdMap.assign fd p (channels_ x)) (epollfd_ x) (events_size x))
         else
           _ ← assert_registered fd p (channels_ x);
           Done x);
    let st := <[p := set_index kAdded c]> st in
    x ← update EPOLL_CTL_ADD p c x;
    Done (st, x)
  else
    _ ← assert_registered (fd_ c) p (channels_ x);
    _ ← cassert (index =? kAdded) "index == kAdded";
    if events_ c =? 0 then
      x ← update EPOLL_CTL_DEL p c x;
      Done (<[p := set_index kDeleted c]> st, x)
    else
      x ← update EPOLL_CTL_MOD p c x;
      Done (st, x).

(** [removeChannel( channel )] *)
Definition removeChannel (p : Z) (st : store) (x : t) : outcome (store * t) :=
  c ← chan p st;
  let fd := fd_ c in
  _ ← assert_registered fd p (channels_ x);
  _ ← cassert (events_ c =? 0) "channel->isNoneEvent()";
  let index := index_ c in
  _ ← cassert ((index =? kAdded) || (index =? kDeleted)) "index == kAdded || index == kDeleted";
  let '(channels, n) := StdMap.erase fd (channels_ x) in
  _ ← cassert (n =? 1)%nat "n == 1";
  let x := mk channels (epollfd_ x) (events_size x) in
  x ← (if index =? kAdded then update EPOLL_CTL_DEL p c x else Done x);
  Done (<[p := set_index kNew c]> st, x).

(** The body of [fillActiveChannels]: the entries of [events_] by their user
    data and events. *)
Fixpoint fillActiveChannels (events : list (Z * Z)) (st : store) (x : t) : outcome (store * list Z) :=
  match events with
  | [] => Done (st, [])
  | (p, revents) :: events =>
      c ← chan p st;
      _ ← assert_registered (fd_ c) p (channels_ x);
      '(st, active) ← fillActiveChannels events (<[p := set_revents revents c]> st) x;
      Done (st, p :: active)
  end.

(** [poll( timeoutMs, activeChannels )] with the events [epoll_wait] reports;
    [None] is an error. *)
Definition poll (r : option (list (Z * Z))) (st : store) (x : t) : outcome (store * t * list Z) :=
  match r with
  | Some events =>
      let numEvents := szof events in
      if 0 <? numEvents then
        _ ← cassert (numEvents <=? events_size x) "numEvents <= events_.size()";
        '(st, active) ← fillActiveChannels events st x;
        let x := if numEvents =? events_size x
                 then mk (channels_ x) (epollfd_ x) (events_size x * 2) else x in
        Done (st, x, active)
      else Done (st, x, [])
  | None => Done (st, x, [])
  end.

(** [operationToString( op )] *)
Definition operationToString (op : ctl) : string :=
  match op with EPOLL_CTL_ADD => "ADD" | EPOLL_CTL_DEL => "DEL" | EPOLL_CTL_MOD => "MOD" end.

End ops.
Arguments t E : clear implicits.
End EPollPoller.

(** * [PollPoller] *)

Notation s16 := (wraps 16).

Module PollPoller.

Record pollfd := mkPfd { fd : Z; events : Z; revents : Z }.
Record t := mk { channels_ : list (Z * Z); pollfds_ : list pollfd }.

(** [PollPoller( loop )] *)
Definition make : t := mk [] [].

(** [pollfds_[idx]] *)
Definition pollfd_at (idx : Z) (x : t) : outcome pollfd :=
  match (if idx <? 0 then None else pollfds_ x !! Z.to_nat idx) with
  | Some pfd => Done pfd
  | None => Fault (Undefined "pollfds_[idx]")
  end.

(** [assert( 0 <= idx && idx < static_cast<int>( pollfds_.size() ) )] *)
Definition assert_index (idx : Z) (x : t) : outcome unit :=
  cassert ((0 <=? idx) && (idx <? szof (pollfds_ x))) "0 <= idx && idx < pollfds_.size()".

(** [updateChannel( channel )] *)
Definition updateChannel (p : Z) (st : store) (x : t) : outcome (store * t) :=
  c ← chan p st;
  if index_ c <? 0 then
    _ ← cassert (bool_decide (StdMap.find (fd_ c) (channels_ x) = None))
          "channels_.find(channel->fd()) == channels_.end()";
    let pfd := mkPfd (fd_ c) (s16 (events_ c)) 0 in
    let pollfds := pollfds_ x ++ [pfd] in
    let idx := szof pollfds - 1 in
    Done (<[p := set_index idx c]> st, mk (StdMap.assign (fd_ c) p (channels_ x)) pollfds)
  else
    _ ← assert_registered (fd_ c) p (channels_ x);
    let idx := index_ c in
    _ ← assert_index idx x;
    pfd ← pollfd_at idx x;
    _ ← cassert ((fd pfd =? fd_ c) || (fd pfd =? - fd_ c - 1))
          "pfd.fd == channel->fd() || pfd.fd == -channel->fd()-1";
    let pfd := mkPfd (if events_ c =? 0 then - fd_ c - 1 else fd_ c) (s16 (events_ c)) 0 in
    Done (st, mk (channels_ x) (<[Z.to_nat idx := pfd]> (pollfds_ x))).

(** [removeChannel( channel )]: the last entry takes the place of the removed
    one. *)
Definition removeChannel (p : Z) (st : store) (x : t) : outcome (store * t) :=
  c ← chan p st;
  _ ← assert_registered (fd_ c) p (channels_ x);
  _ ← cassert (events_ c =? 0) "channel->isNoneEvent()";
  let idx := index_ c in
  _ ← assert_index idx x;
  pfd ← pollfd_at idx x;
  _ ← cassert ((fd pfd =? - fd_ c - 1) && (events pfd =? events_ c))
        "pfd.fd == -channel->fd()-1 && pfd.events == channel->events()";
  let '(channels, n) := StdMap.erase (fd_ c) (channels_ x) in
  _ ← cassert (n =? 1)%nat "n == 1";
  if idx =? szof (pollfds_ x) - 1 then
    Done (st, mk channels (removelast (pollfds_ x)))
  else
    match last (pollfds_ x) with
    | None => Fault (Undefined "pollfds_.back()")
    | Some back =>
        let channelAtEnd := if fd back <? 0 then - fd back - 1 else fd back in
        let pollfds := <[Z.to_nat idx := back]> (pollfds_ x) in
        match StdMap.find channelAtEnd channels with
        | None => Fault (Undefined "channels_[channelAtEnd]->set_index")
        | Some q =>
            d ← chan q st;
            Done (<[q := set_index idx d]> st, mk channels (removelast pollfds))
        end
    end.

(** The loop of [fillActiveChannels], over the entries as [poll(2)] leaves
    them. *)
Fixpoint fillActiveChannels (numEvents : Z) (pfds : list pollfd) (st : store) (x : t) :
    outcome (store * list Z) :=
  match pfds with
  | [] => Done (st, [])
  | pfd :: pfds =>
      if 0 <? numEvents then
        if 0 <? revents pfd then
          match StdMap.find (fd pfd) (channels_ x) with
          | None => Fault (AssertFailed "ch != channels_.end()")
          | Some p =>
              c ← chan p st;
              _ ← cassert (fd_ c =? fd pfd) "channel->fd() == pfd->fd";
              '(st, active) ← fillActiveChannels (numEvents - 1) pfds
                                (<[p := set_revents (revents pfd) c]> st) x;
              Done (st, p :: active)
          end
        else fillActiveChannels numEvents pfds st x
      else Done (st, [])
  end.

(** [poll( timeoutMs, activeChannels )]: the kernel fills in the received
    events of the entries and returns how many have any; [None] is an error. *)
Definition polled (pfds : list pollfd) (received : list Z) : list pollfd :=
  zip_with (λ pfd r, mkPfd (fd pfd) (events pfd) r) pfds received.
Definition poll (r : option (list Z)) (st : store) (x : t) : outcome (store * t * list Z) :=
  match r with
  | Some received =>
      let x := mk (channels_ x) (polled (pollfds_ x) received) in
      let numEvents := szof (filter (λ r, r ≠ 0) received) in
      if 0 <? numEvents then
        '(st, active) ← fillActiveChannels numEvents (pollfds_ x) st x;
        Done (st, x, active)
      else Done (st, x, [])
  | None => Done (st, x, [])
  end.

End PollPoller.

(** * What an event loop relies on *)

(** The channels there are, by address, and those that are registered, by
    descriptor. *)
Record Obj := mkObj { o_fd : Z; o_events : Z; o_removed : bool }.
Record watches := mkWatches { objects : gmap Z Obj; registered : gmap Z Z }.

Definition create (p fd : Z) (w : watches) : watches :=
  mkWatches (<[p := mkObj fd 0 false]> (objects w)) (registered w).
Definition destroy (p : Z) (w : watches) : watches :=
  mkWatches (delete p (objects w)) (registered w).
Definition watch (p : Z) (o : Obj) (ev : Z) (w : watches) : watches :=
  mkWatches (<[p := mkObj (o_fd o) ev false]> (objects w)) (<[o_fd o := p]> (registered w)).
Definition unwatch (p : Z) (o : Obj) (w : watches) : watches :=
  mkWatches (<[p := mkObj (o_fd o) 0 true]> (objects w)) (delete (o_fd o) (registered w)).

(** How the members of [Channel] use a poller: the events change and [update]
    follows at once; a channel is watched for something before it is watched
    for nothing, removed when it is watched for nothing, and not used again. *)
Definition can_create (p fd : Z) (w : watches) : Prop := objects w !! p = None ∧ 0 ≤ fd.
Definition can_destroy (p : Z) (o : Obj) (w : watches) : Prop :=
  objects w !! p = Some o ∧ registered w !! o_fd o ≠ Some p.
Definition can_update (p : Z) (o : Obj) (ev : Z) (w : watches) : Prop :=
  objects w !! p = Some o ∧ o_removed o = false ∧ 0 ≤ ev < 2 ^ 15 ∧
  (registered w !! o_fd o = None ∧ ev ≠ 0 ∨
   registered w !! o_fd o = Some p ∧ (ev ≠ 0 ∨ o_events o ≠ 0)).
Definition can_remove (p : Z) (o : Obj) (w : watches) : Prop :=
  objects w !! p = Some o ∧ registered w !! o_fd o = Some p ∧ o_events o = 0.

Record watches_ok (w : watches) : Prop := mkOk {
  ok_registered fd p : registered w !! fd = Some p → ∃ o, objects w !! p = Some o ∧ o_fd o = fd ∧ o_removed o = false;
  ok_object p o : objects w !! p = Some o → 0 ≤ o_fd o ∧ 0 ≤ o_events o < 2 ^ 15
}.

Lemma ok_create p fd w : watches_ok w → can_create p fd w → watches_ok (create p fd w).
Proof.
  intros [H1 H2] [Hp Hfd]. split; cbn.
  - intros fd' p' Hr. destruct (H1 _ _ Hr) as (o & Ho & ?). exists o. rewrite lookup_insert_ne; [done|congruence].
  - intros p' o [[<- <-]|[_ Ho]]%lookup_insert_Some; [cbn; lia|eauto].
Qed.
Lemma ok_destroy p o w : watches_ok w → can_destroy p o w → watches_ok (destroy p w).
Proof.
  intros [H1 H2] [Hp Hr]. split; cbn.
  - intros fd' p' Hr'. destruct (H1 _ _ Hr') as (o' & Ho & Hfd & ?). exists o'. rewrite lookup_delete_ne; [done|].
    intros ->. congruence.
  - intros p' o' [_ Ho]%lookup_delete_Some. eauto.
Qed.
Lemma ok_watch p o ev w : watches_ok w → can_update p o ev w → watches_ok (watch p o ev w).
Proof.
  intros [H1 H2] (Hp & Hnr & Hev & Hr). split; cbn.
  - intros fd' p' [[<- <-]|[Hne Hr']]%lookup_insert_Some; [eexists; by rewrite lookup_insert_eq|].
    destruct (H1 _ _ Hr') as (o' & Ho & Hfd & ?). exists o'. rewrite lookup_insert_ne; [done|]. intros ->. congruence.
  - intros p' o' [[<- <-]|[_ Ho]]%lookup_insert_Some; [cbn; split; [by destruct (H2 _ _ Hp)|done]|eauto].
Qed.
Lemma ok_unwatch p o w : watches_ok w → can_remove p o w → watches_ok (unwatch p o w).
Proof.
  intros [H1 H2] (Hp & Hr & Hev). split; cbn.
  - intros fd' p' [Hne Hr']%lookup_delete_Some. destruct (H1 _ _ Hr') as (o' & Ho & Hfd & ?).
    exists o'. rewrite lookup_insert_ne; [done|]. intros ->. congruence.
  - intros p' o' [[<- <-]|[_ Ho]]%lookup_insert_Some; [cbn; split; [by destruct (H2 _ _ Hp)|lia]|eauto].
Qed.

(** A poller: its operations, the watches it stands for ([rep]), and what it
    activates when the kernel reports events ([reports]: addresses of channels
    and their received events). *)
Class Poller (P : Type) := {
  received : Type;
  new_poller : P;
  update_channel : Z → store → P → outcome (store * P);
  remove_channel : Z → store → P → outcome (store * P);
  poll_channels : received → store → P → outcome (store * P * list Z);
  has_channel : Z → store → P → outcome bool;
  rep : store → P → watches → Prop;
  reports : P → received → list (Z * Z) → Prop;
  rep_new : rep ∅ new_poller (mkWatches ∅ ∅);
  rep_create st x w p fd :
    rep st x w → watches_ok w → can_create p fd w → rep (<[p := new_channel fd]> st) x (create p fd w);
  rep_destroy st x w p o :
    rep st x w → watches_ok w → can_destroy p o w → rep (delete p st) x (destroy p w);
  rep_update st x w p o ev :
    rep st x w → watches_ok w → can_update p o ev w →
    ∃ c st' x', st !! p = Some c ∧ update_channel p (<[p := set_events ev c]> st) x = Done (st', x') ∧
      rep st' x' (watch p o ev w);
  rep_remove st x w p o :
    rep st x w → watches_ok w → can_remove p o w →
    ∃ st' x', remove_channel p st x = Done (st', x') ∧ rep st' x' (unwatch p o w);
  rep_poll st x w r l :
    rep st x w → watches_ok w → reports x r l →
    ∃ st' x', poll_channels r st x = Done (st', x', l.*1) ∧ rep st' x' w ∧
      (∀ p e, (p, e) ∈ l → ∃ c, st' !! p = Some c ∧ revents_ c = e);
  rep_object st x w p o :
    rep st x w → objects w !! p = Some o → ∃ c, st !! p = Some c ∧ fd_ c = o_fd o ∧ events_ c = o_events o;
  rep_has st x w p o :
    rep st x w → objects w !! p = Some o →
    has_channel p st x = Done (bool_decide (registered w !! o_fd o = Some p));
  reports_registered st x w r l :
    rep st x w → watches_ok w → reports x r l →
    NoDup l.*1 ∧ ∀ p, p ∈ l.*1 → ∃ fd, registered w !! fd = Some p;
  can_report st x w p o e :
    rep st x w → watches_ok w → registered w !! o_fd o = Some p → objects w !! p = Some o →
    o_events o ≠ 0 → 0 < e < 2 ^ 15 → ∃ r, reports x r [(p, e)]
}.

(** * [EPollPoller] is a poller *)

Section epoll.
Context {E : Type} `{Epoll E}.
Import EPollPoller.
Implicit Types (x : EPollPoller.t E) (w : watches).

Definition epoll_index (p : Z) (o : Obj) w : Z :=
  if decide (registered w !! o_fd o = Some p) then if o_events o =? 0 then kDeleted else kAdded else kNew.

(** What the kernel watches: registered channels that wait for something. *)
Definition watched w (fd : Z) : option (Z * Z) :=
  p ← registered w !! fd; o ← objects w !! p;
  if o_events o =? 0 then None else Some (o_events o, p).

Record epoll_rep (st : store) x w : Prop := mkEpollRep {
  er_wf : StdMap.wf (channels_ x);
  er_find fd : StdMap.find fd (channels_ x) = registered w !! fd;
  er_obj p o : objects w !! p = Some o →
    ∃ c, st !! p = Some c ∧ fd_ c = o_fd o ∧ events_ c = o_events o ∧ index_ c = epoll_index p o w;
  er_interest fd : interest (epollfd_ x) !! fd = watched w fd;
  er_size : 0 < events_size x
}.

Lemma registered_ok fd p channels :
  StdMap.find fd channels = Some p → assert_registered fd p channels = Done tt.
Proof.
  intros Hf. unfold assert_registered. rewrite cassert_bind by (apply bool_decide_eq_true_2; by eexists).
  by apply cassert_true, bool_decide_eq_true_2.
Qed.

Lemma chan_ok p (st : store) c : st !! p = Some c → chan p st = Done c.
Proof. unfold chan. by intros ->. Qed.

(** Other channels do not notice. *)
Lemma epoll_index_other p q o o' ev w :
  watches_ok w → can_update p o ev w → objects w !! q = Some o' → q ≠ p →
  epoll_index q o' (watch p o ev w) = epoll_index q o' w.
Proof.
  intros Hw (Hp & _ & _ & Hr) Hq Hne. unfold epoll_index. cbn.
  destruct (decide (o_fd o' = o_fd o)) as [E'|E']; [|by rewrite lookup_insert_ne].
  rewrite E', lookup_insert_eq. rewrite (decide_False (P := Some p = Some q)) by congruence.
  rewrite decide_False; [done|]. destruct Hr as [[-> _]|[-> _]]; congruence.
Qed.

Lemma epoll_update_objects st x w p o ev i :
  epoll_rep st x w → watches_ok w → can_update p o ev w →
  i = (if ev =? 0 then kDeleted else kAdded) →
  ∀ q o', objects (watch p o ev w) !! q = Some o' →
  ∃ c', <[p := mkChan (o_fd o) ev (revents_ (default (new_channel 0) (st !! p))) i]> st !! q = Some c' ∧
    fd_ c' = o_fd o' ∧ events_ c' = o_events o' ∧ index_ c' = epoll_index q o' (watch p o ev w).
Proof.
  intros Hx Hw Hu Hi q o' Hq. cbn in Hq. apply lookup_insert_Some in Hq as [[<- <-]|[Hne Ho]].
  - eexists. rewrite lookup_insert_eq. split_and!; [done..|]. unfold epoll_index. cbn.
    by rewrite lookup_insert_eq, decide_True.
  - destruct (er_obj _ _ _ Hx q o' Ho) as (c' & Hc & H1 & H2 & H3). exists c'.
    rewrite lookup_insert_ne by done. rewrite (epoll_index_other p q o o' ev w) by done. done.
Qed.

Lemma watched_update p o ev w fd :
  watches_ok w → can_update p o ev w →
  watched (watch p o ev w) fd =
    if decide (fd = o_fd o) then if ev =? 0 then None else Some (ev, p) else watched w fd.
Proof.
  intros Hw (Hp & _ & _ & Hr). unfold watched. cbn. case_decide as E'.
  - subst. rewrite lookup_insert_eq. cbn. by rewrite lookup_insert_eq.
  - rewrite lookup_insert_ne by done. destruct (registered w !! fd) as [q|] eqn:Eq; [|done]. cbn.
    rewrite lookup_insert_ne; [done|]. intros <-.
    destruct (ok_registered _ Hw _ _ Eq) as (o' & Ho' & Hfd & _). congruence.
Qed.

Lemma epoll_rep_update st x w p o ev :
  epoll_rep st x w → watches_ok w → can_update p o ev w →
  ∃ c st' x', st !! p = Some c ∧ updateChannel p (<[p := set_events ev c]> st) x = Done (st', x') ∧
    epoll_rep st' x' (watch p o ev w).
Proof.
  intros Hx Hw Hu. pose proof Hu as (Hp & Hrem & Hev & Hr).
  destruct (er_obj _ _ _ Hx p o Hp) as (c & Hc & Hfd & Hce & Hi). exists c.
  pose proof (epoll_update_objects st x w p o ev _ Hx Hw Hu eq_refl) as Hobj. rewrite Hc in Hobj. cbn in Hobj.
  pose proof (λ fd, watched_update p o ev w fd Hw Hu) as Hwatch.
  assert (Hint : ∀ e', interest e' = (if ev =? 0 then delete (o_fd o) (interest (epollfd_ x))
                        else <[o_fd o := (ev, p)]> (interest (epollfd_ x))) →
    ∀ fd, interest e' !! fd = watched (watch p o ev w) fd).
  { intros e' -> fd. rewrite Hwatch. destruct (ev =? 0).
    - case_decide; [subst; apply lookup_delete_eq|]. rewrite lookup_delete_ne by done. apply Hx.
    - case_decide; [subst; apply lookup_insert_eq|]. rewrite lookup_insert_ne by done. apply Hx. }
  unfold updateChannel. rewrite (chan_ok _ _ (set_events ev c)) by apply lookup_insert_eq. rewrite bind_ret_l.
  cbn [index_ fd_ events_ set_events]. rewrite Hi, Hfd. unfold epoll_index, update. cbn [fd_ events_ set_events]. rewrite Hfd.
  destruct Hr as [[Hnr Hev0]|[Hreg Hev0]].
  - (* a new channel *)
    rewrite decide_False by (by rewrite Hnr). cbn.
    rewrite cassert_bind by (apply bool_decide_eq_true_2; by rewrite (er_find _ _ _ Hx)). rewrite bind_ret_l. cbn.
    destruct (ctl_add (epollfd_ x) (o_fd o) (ev, p)) as (e' & -> & He').
    { rewrite (er_interest _ _ _ Hx). unfold watched. by rewrite Hnr. }
    eexists _, _. split; [done|]. split; [done|]. rewrite insert_insert_eq.
    rewrite (proj2 (Z.eqb_neq _ _) Hev0) in *. split; cbn.
    + apply StdMap.wf_assign, Hx.
    + intros fd. destruct (decide (fd = o_fd o)) as [->|Hne].
      * by rewrite StdMap.find_assign_eq, lookup_insert_eq.
      * rewrite StdMap.find_assign_ne, lookup_insert_ne by done. apply Hx.
    + intros q o' Ho'. unfold set_index. cbn. rewrite Hfd. by apply Hobj.
    + by apply Hint.
    + apply Hx.
  - rewrite decide_True by done.
    assert (Hfind : ∀ fd, StdMap.find fd (channels_ x) = registered (watch p o ev w) !! fd).
    { intros fd. cbn. rewrite (er_find _ _ _ Hx). destruct (decide (fd = o_fd o)) as [->|];
        [by rewrite lookup_insert_eq|by rewrite lookup_insert_ne]. }
    assert (Hasr : assert_registered (o_fd o) p (channels_ x) = Done tt).
    { apply registered_ok. by rewrite (er_find _ _ _ Hx). }
    assert (Hkern : interest (epollfd_ x) !! o_fd o = if o_events o =? 0 then None else Some (o_events o, p)).
    { rewrite (er_interest _ _ _ Hx). unfold watched. rewrite Hreg. cbn. by rewrite Hp. }
    destruct (Z.eqb_spec (o_events o) 0) as [Ho0|Ho0]; cbn.
    + (* watched for nothing before *)
      destruct Hev0 as [Hev0|]; [|done]. rewrite (proj2 (Z.eqb_neq _ _) Hev0) in *.
      rewrite Hasr, !bind_ret_l.
      destruct (ctl_add (epollfd_ x) (o_fd o) (ev, p) Hkern) as (e' & -> & He').
      eexists _, _. split; [done|]. split; [done|]. rewrite insert_insert_eq.
      split; cbn; [apply Hx|done| |by apply Hint|apply Hx].
      intros q o' Ho'. unfold set_index. cbn. rewrite Hfd. by apply Hobj.
    + rewrite Hasr, !bind_ret_l. cbn.
      destruct (Z.eqb_spec ev 0) as [Ev|Ev].
      * destruct (ctl_del (epollfd_ x) (o_fd o) (ev, p)) as (e' & -> & He'); [by rewrite Hkern|].
        eexists _, _. split; [done|]. split; [done|]. rewrite insert_insert_eq.
        split; cbn; [apply Hx|done| |by apply Hint|apply Hx].
        intros q o' Ho'. unfold set_index. cbn. rewrite Hfd. by apply Hobj.
      * destruct (ctl_mod (epollfd_ x) (o_fd o) (ev, p)) as (e' & -> & He'); [by rewrite Hkern|].
        eexists _, _. split; [done|]. split; [done|].
        split; cbn; [apply Hx|done| |by apply Hint|apply Hx].
        intros q o' Ho'. destruct (Hobj q o' Ho') as (c' & Hc' & Hr'). exists c'. split; [|done].
        rewrite <-Hc'. unfold set_events. rewrite Hfd, Hi. unfold epoll_index. rewrite decide_True by done.
        by rewrite (proj2 (Z.eqb_neq _ _) Ho0).
Qed.

Lemma epoll_rep_new : epoll_rep ∅ make (mkWatches ∅ ∅).
Proof.
  split; cbn; try done; [constructor|]. intros fd. by rewrite interest_create.
Qed.

(** Descriptors of other objects. *)
Lemma watched_same_registered w w' fd :
  registered w' = registered w →
  (∀ p, registered w !! fd = Some p → objects w' !! p = objects w !! p) → watched w' fd = watched w fd.
Proof.
  intros E' Ho. unfold watched. rewrite E'. destruct (registered w !! fd) as [p|]; [|done]. cbn. by rewrite Ho.
Qed.

Lemma epoll_rep_create st x w p fd :
  epoll_rep st x w → watches_ok w → can_create p fd w →
  epoll_rep (<[p := new_channel fd]> st) x (create p fd w).
Proof.
  intros Hx Hw [Hp Hfd].
  assert (Hnr : ∀ fd, registered w !! fd ≠ Some p).
  { intros fd' Hr. destruct (ok_registered _ Hw _ _ Hr) as (o & Ho & _). congruence. }
  split; cbn; try apply Hx.
  - intros q o [[<- <-]|[Hne Ho]]%lookup_insert_Some.
    + eexists. rewrite lookup_insert_eq. split_and!; [done..|]. unfold epoll_index. cbn.
      by rewrite decide_False by apply Hnr.
    + rewrite lookup_insert_ne by done. by apply Hx.
  - intros fd'. rewrite (er_interest _ _ _ Hx). symmetry. apply watched_same_registered; [done|].
    intros q Hq. cbn. rewrite lookup_insert_ne; [done|]. intros <-. by apply (Hnr fd').
Qed.

Lemma epoll_rep_destroy st x w p o :
  epoll_rep st x w → watches_ok w → can_destroy p o w → epoll_rep (delete p st) x (destroy p w).
Proof.
  intros Hx Hw [Hp Hr]. split; cbn; try apply Hx.
  - intros q o' [Hne Ho]%lookup_delete_Some. rewrite lookup_delete_ne by done. by apply Hx.
  - intros fd'. rewrite (er_interest _ _ _ Hx). symmetry. apply watched_same_registered; [done|].
    intros q Hq. cbn. rewrite lookup_delete_ne; [done|]. intros <-.
    destruct (ok_registered _ Hw _ _ Hq) as (o' & Ho' & Hfd & _). congruence.
Qed.

Lemma erase_registered fd p (m : list (Z * Z)) :
  StdMap.wf m → StdMap.find fd m = Some p →
  ∃ m', StdMap.erase fd m = (m', 1%nat) ∧ StdMap.wf m' ∧
    ∀ fd', StdMap.find fd' m' = if decide (fd' = fd) then None else StdMap.find fd' m.
Proof.
  intros Hw Hf. pose proof (StdMap.erase_count fd m) as Hc. rewrite Hf in Hc.
  pose proof (StdMap.wf_erase fd m Hw) as Hw'. pose proof (StdMap.find_erase_eq fd m Hw) as H1.
  pose proof (λ k, StdMap.find_erase_ne k fd m Hw) as H2.
  destruct (StdMap.erase fd m) as [m' n]. cbn in *. subst n. exists m'. split_and!; [done..|].
  intros fd'. case_decide; [by subst|auto].
Qed.

Lemma epoll_rep_remove st x w p o :
  epoll_rep st x w → watches_ok w → can_remove p o w →
  ∃ st' x', removeChannel p st x = Done (st', x') ∧ epoll_rep st' x' (unwatch p o w).
Proof.
  intros Hx Hw (Hp & Hr & Ho). destruct (er_obj _ _ _ Hx p o Hp) as (c & Hc & Hfd & Hev & Hi).
  unfold epoll_index in Hi. rewrite decide_True, Ho in Hi by done. cbn in Hi.
  assert (Hf : StdMap.find (o_fd o) (channels_ x) = Some p) by by rewrite (er_find _ _ _ Hx).
  destruct (erase_registered _ _ _ (er_wf _ _ _ Hx) Hf) as (m' & He & Hwf & Hfind).
  unfold removeChannel. rewrite (chan_ok _ _ _ Hc), bind_ret_l, Hfd, (registered_ok _ _ _ Hf), bind_ret_l.
  rewrite Hev, Ho, cassert_bind by done. rewrite Hi, cassert_bind by done. rewrite He, cassert_bind by done.
  cbn. eexists _, _. split; [done|].
  assert (Hw0 : watched w (o_fd o) = None) by (unfold watched; by rewrite Hr; cbn; rewrite Hp; cbn; rewrite Ho).
  split; cbn; try apply Hx; [done| | |].
  - intros fd. rewrite Hfind. case_decide; [subst; by rewrite lookup_delete_eq|].
    rewrite lookup_delete_ne by done. apply Hx.
  - intros q o' [[<- <-]|[Hne Ho']]%lookup_insert_Some.
    + eexists. rewrite lookup_insert_eq. split_and!; [done|done|cbn; congruence|]. unfold epoll_index. cbn.
      rewrite lookup_delete_eq. by rewrite decide_False.
    + rewrite lookup_insert_ne by done. destruct (er_obj _ _ _ Hx q o' Ho') as (c' & Hc' & H1 & H2 & H3).
      exists c'. split_and!; [done..|]. rewrite H3. unfold epoll_index. cbn.
      destruct (decide (o_fd o' = o_fd o)) as [E'|E']; [|by rewrite lookup_delete_ne].
      rewrite E', lookup_delete_eq, Hr. rewrite (decide_False (P := None = _)) by done.
      by rewrite decide_False by congruence.
  - intros fd. rewrite (er_interest _ _ _ Hx). destruct (decide (fd = o_fd o)) as [->|Hne].
    + rewrite Hw0. unfold watched. cbn. by rewrite lookup_delete_eq.
    + unfold watched. cbn. rewrite lookup_delete_ne by done. destruct (registered w !! fd) as [q|] eqn:Eq; [|done].
      cbn. rewrite lookup_insert_ne; [done|]. intros <-.
      destruct (ok_registered _ Hw _ _ Eq) as (o' & Ho' & Hfd' & _). congruence.
Qed.

(** Filling in received events changes nothing else. *)
Lemma epoll_rep_revents st x w p c e :
  epoll_rep st x w → st !! p = Some c → epoll_rep (<[p := set_revents e c]> st) x w.
Proof.
  intros Hx Hc. split; try apply Hx. intros q o Ho. destruct (er_obj _ _ _ Hx q o Ho) as (c' & Hc' & H').
  destruct (decide (p = q)) as [->|Hne].
  - exists (set_revents e c). rewrite lookup_insert_eq. by assert (c' = c) as -> by congruence.
  - exists c'. by rewrite lookup_insert_ne.
Qed.

Definition epoll_reports x (r : option (list (Z * Z))) (l : list (Z * Z)) : Prop :=
  match r with
  | Some events =>
      l = events ∧ NoDup events.*1 ∧ szof events ≤ events_size x ∧
      ∀ p e, (p, e) ∈ events → ∃ fd ev, interest (epollfd_ x) !! fd = Some (ev, p)
  | None => l = []
  end.

Lemma watched_Some w fd ev p :
  watched w fd = Some (ev, p) ↔
    registered w !! fd = Some p ∧ ∃ o, objects w !! p = Some o ∧ o_events o = ev ∧ ev ≠ 0.
Proof.
  unfold watched. destruct (registered w !! fd) as [q|] eqn:Er; cbn; [|naive_solver].
  destruct (objects w !! q) as [o|] eqn:Eo; cbn; [|naive_solver].
  destruct (Z.eqb_spec (o_events o) 0); naive_solver.
Qed.

Lemma fillActiveChannels_ok events st x w :
  epoll_rep st x w → watches_ok w → NoDup events.*1 →
  (∀ p e, (p, e) ∈ events → ∃ fd ev, interest (epollfd_ x) !! fd = Some (ev, p)) →
  ∃ st', fillActiveChannels events st x = Done (st', events.*1) ∧ epoll_rep st' x w ∧
    (∀ q, q ∉ events.*1 → st' !! q = st !! q) ∧
    (∀ p e, (p, e) ∈ events → ∃ c, st' !! p = Some c ∧ revents_ c = e).
Proof.
  intros Hx Hw. revert st Hx. induction events as [|[p e] events IH]; intros st Hx Hnd Hin.
  { exists st. split_and!; [done|done|done|]. by intros p e ?%elem_of_nil. }
  cbn [fmap list_fmap fst] in *. apply NoDup_cons in Hnd as [Hp Hnd].
  destruct (Hin p e) as (fd & ev & Hfd); [left|]. rewrite (er_interest _ _ _ Hx) in Hfd.
  apply watched_Some in Hfd as (Hreg & o & Ho & _).
  destruct (ok_registered _ Hw _ _ Hreg) as (o' & Ho' & Hofd & _). assert (o' = o) as -> by congruence.
  destruct (er_obj _ _ _ Hx p o Ho) as (c & Hc & Hcfd & _). cbn [fillActiveChannels].
  rewrite (chan_ok _ _ _ Hc), bind_ret_l, Hcfd, Hofd.
  rewrite registered_ok, bind_ret_l by (by rewrite (er_find _ _ _ Hx)).
  destruct (IH (<[p := set_revents e c]> st)) as (st' & Hd & Hx' & Hsame & Hrev).
  { by apply epoll_rep_revents. } { done. } { intros q e' Hq. apply (Hin q e'). by right. }
  rewrite Hd, bind_ret_l. exists st'. split_and!; [done|done| |].
  - intros q Hq. rewrite Hsame by set_solver. rewrite lookup_insert_ne; [done|]. set_solver.
  - intros q e' [[= -> ->]|Hq]%elem_of_cons; [|eauto]. exists (set_revents e c). split; [|done].
    rewrite Hsame by done. apply lookup_insert_eq.
Qed.

Lemma epoll_rep_poll st x w r l :
  epoll_rep st x w → watches_ok w → epoll_reports x r l →
  ∃ st' x', poll r st x = Done (st', x', l.*1) ∧ epoll_rep st' x' w ∧
    (∀ p e, (p, e) ∈ l → ∃ c, st' !! p = Some c ∧ revents_ c = e).
Proof.
  intros Hx Hw Hr. destruct r as [events|]; cbn in Hr.
  2: { subst l. exists st, x. split_and!; [done|done|]. by intros p e ?%elem_of_nil. }
  destruct Hr as (-> & Hnd & Hlen & Hin). unfold poll.
  destruct (fillActiveChannels_ok events st x w Hx Hw Hnd Hin) as (st' & Hd & Hx' & _ & Hrev).
  destruct (Z.ltb_spec 0 (szof events)) as [Hl|Hl].
  - rewrite cassert_bind by (by apply Z.leb_le). rewrite Hd, bind_ret_l. eexists _, _. split; [done|].
    split; [|done]. destruct (_ =? _); [|done]. pose proof (er_size _ _ _ Hx').
    split; cbn; try apply Hx'. lia.
  - destruct events; [|cbn in Hl; lia]. exists st, x. split_and!; [done|done|]. by intros p e ?%elem_of_nil.
Qed.

Lemma epoll_rep_object st x w p o :
  epoll_rep st x w → objects w !! p = Some o → ∃ c, st !! p = Some c ∧ fd_ c = o_fd o ∧ events_ c = o_events o.
Proof. intros Hx Ho. destruct (er_obj _ _ _ Hx p o Ho) as (c & Hc & H1 & H2 & _). by exists c. Qed.

Lemma epoll_rep_has st x w p o :
  epoll_rep st x w → objects w !! p = Some o →
  hasChannel p st (channels_ x) = Done (bool_decide (registered w !! o_fd o = Some p)).
Proof.
  intros Hx Ho. destruct (epoll_rep_object st x w p o Hx Ho) as (c & Hc & Hfd & _).
  unfold hasChannel. by rewrite (chan_ok _ _ _ Hc), bind_ret_l, Hfd, (er_find _ _ _ Hx).
Qed.

Lemma epoll_reports_registered st x w r l :
  epoll_rep st x w → watches_ok w → epoll_reports x r l →
  NoDup l.*1 ∧ ∀ p, p ∈ l.*1 → ∃ fd, registered w !! fd = Some p.
Proof.
  intros Hx Hw Hr. destruct r as [events|]; cbn in Hr; [|subst; split; [constructor|by intros p ?%elem_of_nil]].
  destruct Hr as (-> & Hnd & _ & Hin). split; [done|]. intros p [[q e] [-> He]]%list_elem_of_fmap.
  destruct (Hin q e He) as (fd & ev & Hi). rewrite (er_interest _ _ _ Hx) in Hi.
  apply watched_Some in Hi as [Hr _]. by exists fd.
Qed.

Lemma epoll_can_report st x w p o e :
  epoll_rep st x w → watches_ok w → registered w !! o_fd o = Some p → objects w !! p = Some o →
  o_events o ≠ 0 → 0 < e < 2 ^ 15 → ∃ r, epoll_reports x r [(p, e)].
Proof.
  intros Hx Hw Hr Ho He _. exists (Some [(p, e)]). split; [done|]. split; [apply NoDup_singleton|].
  split; [pose proof (er_size _ _ _ Hx); cbn; lia|]. intros q e' [= -> ->]%list_elem_of_singleton.
  exists (o_fd o), (o_events o). rewrite (er_interest _ _ _ Hx). apply watched_Some. by eauto.
Qed.

#[export] Instance EPollPoller_poller : Poller (EPollPoller.t E) := {|
  rep_new := epoll_rep_new;
  rep_create := epoll_rep_create;
  rep_destroy := epoll_rep_destroy;
  rep_update := epoll_rep_update;
  rep_remove := epoll_rep_remove;
  rep_poll := epoll_rep_poll;
  rep_object := epoll_rep_object;
  rep_has := epoll_rep_has;
  reports_registered := epoll_reports_registered;
  can_report := epoll_can_report
|}.
End epoll.

(** * [PollPoller] is a poller *)

Section poll.
Import PollPoller.
Implicit Types (x : PollPoller.t) (w : watches).

(** The entry of a registered channel: its descriptor is complemented while
    the channel waits for nothing. *)
Definition pfd_of (o : Obj) (r : Z) : pollfd :=
  mkPfd (if o_events o =? 0 then - o_fd o - 1 else o_fd o) (o_events o) r.

Record poll_rep (st : store) x w : Prop := mkPollRep {
  pr_wf : StdMap.wf (channels_ x);
  pr_find fd : StdMap.find fd (channels_ x) = registered w !! fd;
  pr_obj p o : objects w !! p = Some o →
    ∃ c, st !! p = Some c ∧ fd_ c = o_fd o ∧ events_ c = o_events o ∧
      (registered w !! o_fd o = Some p →
         0 ≤ index_ c ∧ ∃ r, pollfds_ x !! Z.to_nat (index_ c) = Some (pfd_of o r)) ∧
      (registered w !! o_fd o ≠ Some p → o_removed o = false → index_ c = -1);
  pr_pfd i pfd : pollfds_ x !! i = Some pfd →
    ∃ p o c r, registered w !! o_fd o = Some p ∧ objects w !! p = Some o ∧ st !! p = Some c ∧
      index_ c = Z.of_nat i ∧ pfd = pfd_of o r
}.

Lemma poll_rep_new : poll_rep ∅ make (mkWatches ∅ ∅).
Proof. split; cbn; try done. constructor. Qed.

Lemma poll_rep_create st x w p fd :
  poll_rep st x w → watches_ok w → can_create p fd w →
  poll_rep (<[p := new_channel fd]> st) x (create p fd w).
Proof.
  intros Hx Hw [Hp Hfd].
  assert (Hnr : ∀ fd, registered w !! fd ≠ Some p).
  { intros fd' Hr. destruct (ok_registered _ Hw _ _ Hr) as (o & Ho & _). congruence. }
  split; cbn; try apply Hx.
  - intros q o [[<- <-]|[Hne Ho]]%lookup_insert_Some.
    + eexists. rewrite lookup_insert_eq. split_and!; [done..|intros Hr; by apply Hnr in Hr|done].
    + rewrite lookup_insert_ne by done. by apply Hx.
  - intros i pfd Hi. destruct (pr_pfd _ _ _ Hx i pfd Hi) as (q & o & c & r & Hr & Ho & Hc & H').
    assert (p ≠ q) by congruence. exists q, o, c, r. by rewrite !lookup_insert_ne.
Qed.

Lemma poll_rep_destroy st x w p o :
  poll_rep st x w → watches_ok w → can_destroy p o w → poll_rep (delete p st) x (destroy p w).
Proof.
  intros Hx Hw [Hp Hr]. split; cbn; try apply Hx.
  - intros q o' [Hne Ho]%lookup_delete_Some. rewrite lookup_delete_ne by done. by apply Hx.
  - intros i pfd Hi. destruct (pr_pfd _ _ _ Hx i pfd Hi) as (q & o' & c & r & Hr' & Ho & Hc & H').
    assert (p ≠ q) by congruence. exists q, o', c, r. by rewrite !lookup_delete_ne.
Qed.

Lemma s16_events ev : 0 ≤ ev < 2 ^ 15 → s16 ev = ev.
Proof. intros Hev. apply wraps_small; lia. Qed.

(** The entry of a registered channel. *)
Lemma poll_entry st x w p o c :
  poll_rep st x w → registered w !! o_fd o = Some p → objects w !! p = Some o → st !! p = Some c →
  fd_ c = o_fd o ∧ events_ c = o_events o ∧ 0 ≤ index_ c ∧
  ∃ r, pollfds_ x !! Z.to_nat (index_ c) = Some (pfd_of o r) ∧ assert_index (index_ c) x = Done tt ∧
       pollfd_at (index_ c) x = Done (pfd_of o r).
Proof.
  intros Hx Hr Ho Hc. destruct (pr_obj _ _ _ Hx p o Ho) as (c' & Hc' & Hfd & Hev & Hreg & _).
  assert (c' = c) as -> by congruence. destruct (Hreg Hr) as (Hi & r & Hp). split_and!; [done..|].
  exists r. split_and!; [done| |].
  - apply cassert_true. apply andb_true_iff. split; [lia|].
    apply lookup_lt_Some in Hp. apply Z.ltb_lt. lia.
  - unfold pollfd_at. destruct (Z.ltb_spec (index_ c) 0); [lia|]. by rewrite Hp.
Qed.

Lemma poll_rep_update_new st x w p o ev c :
  poll_rep st x w → watches_ok w → can_update p o ev w → registered w !! o_fd o = None → ev ≠ 0 →
  st !! p = Some c →
  let pollfds := pollfds_ x ++ [mkPfd (o_fd o) ev 0] in
  poll_rep (<[p := mkChan (o_fd o) ev (revents_ c) (szof pollfds - 1)]> st)
    (mk (StdMap.assign (o_fd o) p (channels_ x)) pollfds) (watch p o ev w).
Proof.
  intros Hx Hw (Hp & Hrem & Hev & _) Hnr Hev0 Hc. cbv zeta.
  assert (Hlen : szof (pollfds_ x ++ [mkPfd (o_fd o) ev 0]) - 1 = szof (pollfds_ x))
    by (rewrite length_app; cbn; lia). rewrite Hlen.
  assert (Hentry : mkPfd (o_fd o) ev 0 = pfd_of (mkObj (o_fd o) ev false) 0).
  { unfold pfd_of. cbn. by rewrite (proj2 (Z.eqb_neq _ _) Hev0). }
  split; cbn.
  - apply StdMap.wf_assign, Hx.
  - intros fd. destruct (decide (fd = o_fd o)) as [->|Hne].
    + by rewrite StdMap.find_assign_eq, lookup_insert_eq.
    + rewrite StdMap.find_assign_ne, lookup_insert_ne by done. apply Hx.
  - intros q o' [[<- <-]|[Hne Ho]]%lookup_insert_Some.
    + eexists. rewrite lookup_insert_eq. split_and!; [done..| |].
      * intros _. cbn. split; [lia|]. exists 0. rewrite Nat2Z.id, <-Hentry. by rewrite lookup_app_r, Nat.sub_diag.
      * cbn. by rewrite lookup_insert_eq.
    + destruct (pr_obj _ _ _ Hx q o' Ho) as (c' & Hc' & H1 & H2 & H3 & H4). exists c'.
      rewrite lookup_insert_ne by done. split_and!; [done..| |].
      * intros Hr. rewrite lookup_insert_ne in Hr by (intros E'; rewrite E', lookup_insert_eq in Hr; congruence).
        destruct (H3 Hr) as (Hi & r & Hl). split; [done|]. exists r. by apply lookup_app_l_Some.
      * intros Hr. apply H4. intros Hr'. apply Hr. rewrite lookup_insert_ne; [done|]. congruence.
  - intros i pfd Hi. apply lookup_app_Some in Hi as [Hi|[Hge Hi]].
    + destruct (pr_pfd _ _ _ Hx i pfd Hi) as (q & o' & c' & r & Hr & Ho & Hc' & H').
      assert (Hq : registered w !! o_fd o' = Some q) by done.
      assert (p ≠ q).
      { intros <-. assert (o' = o) as -> by congruence. congruence. }
      exists q, o', c', r. rewrite !lookup_insert_ne; [done..|]. congruence.
    + apply list_lookup_singleton_Some in Hi as [Hi <-].
      exists p, (mkObj (o_fd o) ev false), (mkChan (o_fd o) ev (revents_ c) (szof (pollfds_ x))), 0.
      cbn. rewrite !lookup_insert_eq. split_and!; [done..|lia|done].
Qed.

Lemma poll_rep_update_old st x w p o ev c :
  poll_rep st x w → watches_ok w → can_update p o ev w → registered w !! o_fd o = Some p →
  st !! p = Some c →
  poll_rep (<[p := set_events ev c]> st)
    (mk (channels_ x) (<[Z.to_nat (index_ c) := pfd_of (mkObj (o_fd o) ev false) 0]> (pollfds_ x)))
    (watch p o ev w).
Proof.
  intros Hx Hw (Hp & Hrem & Hev & _) Hreg Hc.
  destruct (poll_entry st x w p o c Hx Hreg Hp Hc) as (Hfd & Hce & Hi & r & Hl & _ & _).
  pose proof (lookup_lt_Some _ _ _ Hl) as Hlt.
  assert (Hregs : <[o_fd o := p]> (registered w) = registered w) by by apply insert_id.
  split; cbn; rewrite ?Hregs; try apply Hx.
  - intros q o' [[<- <-]|[Hne Ho]]%lookup_insert_Some.
    + eexists. rewrite lookup_insert_eq. split_and!; [done..| |].
      * intros _. cbn. split; [done|]. exists 0. by rewrite list_lookup_insert_eq.
      * cbn. done.
    + destruct (pr_obj _ _ _ Hx q o' Ho) as (c' & Hc' & H1 & H2 & H3 & H4). exists c'.
      rewrite lookup_insert_ne by done. split_and!; [done..| |done].
      intros Hr. destruct (H3 Hr) as (Hi' & r' & Hl'). split; [done|]. exists r'.
      rewrite list_lookup_insert_ne; [done|]. intros Heq.
      assert (index_ c' = index_ c) as Hii by lia.
      rewrite <-Heq, Hl in Hl'. assert (Hf : fd (pfd_of o r) = fd (pfd_of o' r')) by congruence.
      unfold pfd_of in Hf. cbn in Hf.
      destruct (ok_object _ Hw _ _ Hp) as [Hfo _], (ok_object _ Hw _ _ Ho) as [Hfo' _].
      assert (o_fd o = o_fd o') by (destruct (o_events o =? 0), (o_events o' =? 0); lia).
      congruence.
  - intros i pfd Hi'. destruct (decide (i = Z.to_nat (index_ c))) as [->|Hne].
    + rewrite list_lookup_insert_eq in Hi' by done. injection Hi' as <-.
      exists p, (mkObj (o_fd o) ev false), (set_events ev c), 0. rewrite !lookup_insert_eq.
      split_and!; [done..|cbn; lia|done].
    + rewrite list_lookup_insert_ne in Hi' by done.
      destruct (pr_pfd _ _ _ Hx i pfd Hi') as (q & o' & c' & r' & Hr & Ho & Hc' & Hic & H').
      assert (p ≠ q). { intros <-. assert (c' = c) as -> by congruence. lia. }
      exists q, o', c', r'. by rewrite !lookup_insert_ne.
Qed.

Lemma poll_rep_update st x w p o ev :
  poll_rep st x w → watches_ok w → can_update p o ev w →
  ∃ c st' x', st !! p = Some c ∧ updateChannel p (<[p := set_events ev c]> st) x = Done (st', x') ∧
    poll_rep st' x' (watch p o ev w).
Proof.
  intros Hx Hw Hu. pose proof Hu as (Hp & Hrem & Hev & Hr).
  destruct (pr_obj _ _ _ Hx p o Hp) as (c & Hc & Hfd & Hce & _ & Hnew). exists c.
  unfold updateChannel. rewrite (chan_ok _ _ (set_events ev c)) by apply lookup_insert_eq. rewrite bind_ret_l.
  cbn [index_ fd_ events_ set_events]. rewrite Hfd, s16_events by done.
  destruct Hr as [[Hnr Hev0]|[Hreg Hev0]].
  - rewrite Hnew by (congruence || done). cbn.
    rewrite cassert_bind by (apply bool_decide_eq_true_2; by rewrite (pr_find _ _ _ Hx)).
    eexists _, _. split; [done|]. split; [done|]. rewrite insert_insert_eq. unfold set_index, set_events. cbn. rewrite Hfd.
    by apply poll_rep_update_new.
  - destruct (poll_entry st x w p o c Hx Hreg Hp Hc) as (_ & _ & Hi & r & Hl & Hai & Hat).
    rewrite (proj2 (Z.ltb_ge _ _) Hi). rewrite registered_ok, bind_ret_l by (by rewrite (pr_find _ _ _ Hx)).
    rewrite Hai, bind_ret_l, Hat, bind_ret_l. rewrite cassert_bind.
    2: { cbn. destruct (o_events o =? 0); [rewrite (Z.eqb_refl (- o_fd o - 1)); by rewrite orb_true_r|by rewrite Z.eqb_refl]. }
    eexists _, _. split; [done|]. split; [done|].
    exact (poll_rep_update_old st x w p o ev c Hx Hw Hu Hreg Hc).
Qed.

Lemma lookup_removelast {A} (l : list A) i :
  removelast l !! i = if decide (S i < length l)%nat then l !! i else None.
Proof.
  rewrite removelast_firstn_len. case_decide; [apply lookup_take_lt; lia|apply lookup_take_ge; lia].
Qed.

(** Two registered channels have different entries. *)
Lemma poll_entry_inj st x w p o c p' o' c' :
  poll_rep st x w → registered w !! o_fd o = Some p → objects w !! p = Some o → st !! p = Some c →
  registered w !! o_fd o' = Some p' → objects w !! p' = Some o' → st !! p' = Some c' →
  index_ c = index_ c' → p = p'.
Proof.
  intros Hx Hr Ho Hc Hr' Ho' Hc' Hi.
  destruct (poll_entry _ _ _ _ _ _ Hx Hr Ho Hc) as (_ & _ & Hnn & r & Hl & _).
  destruct (pr_pfd _ _ _ Hx _ _ Hl) as (q & oq & cq & rq & Hrq & Hoq & Hcq & Hiq & Eq).
  destruct (poll_entry _ _ _ _ _ _ Hx Hr' Ho' Hc') as (_ & _ & _ & r' & Hl' & _). rewrite <-Hi, Hl in Hl'.
  assert (Hf : events (pfd_of o r) = events (pfd_of o' r') ∧ fd (pfd_of o r) = fd (pfd_of o' r')) by (split; congruence).
  unfold pfd_of in Hf. cbn in Hf. destruct Hf as [He Hf]. rewrite He in Hf.
  assert (o_fd o = o_fd o') as E by (destruct (o_events o' =? 0); lia). congruence.
Qed.

(** Without the registration of [p], which the last entry does not stand for
    any more. *)
Lemma poll_rep_drop st x w p o m pfds st' :
  poll_rep st x w → watches_ok w → can_remove p o w →
  StdMap.wf m → (∀ fd', StdMap.find fd' m = if decide (fd' = o_fd o) then None else StdMap.find fd' (channels_ x)) →
  (∀ q oq, objects w !! q = Some oq → ∃ c c', st !! q = Some c ∧ st' !! q = Some c' ∧
     fd_ c' = fd_ c ∧ events_ c' = events_ c ∧
     (registered w !! o_fd oq = Some q → q ≠ p → 0 ≤ index_ c' ∧ pfds !! Z.to_nat (index_ c') = pollfds_ x !! Z.to_nat (index_ c)) ∧
     (registered w !! o_fd oq ≠ Some q → index_ c' = index_ c)) →
  (∀ i pfd, pfds !! i = Some pfd → ∃ q c', q ≠ p ∧ st' !! q = Some c' ∧ index_ c' = Z.of_nat i ∧
     ∃ oq r, registered w !! o_fd oq = Some q ∧ objects w !! q = Some oq ∧ pfd = pfd_of oq r) →
  poll_rep st' (mk m pfds) (unwatch p o w).
Proof.
  intros Hx Hw (Hp & Hreg & Ho0) Hm Hfind Hst Hpf. split; cbn.
  - done.
  - intros fd'. rewrite Hfind. case_decide; [subst; by rewrite lookup_delete_eq|].
    rewrite lookup_delete_ne by done. apply Hx.
  - intros q oq [[<- <-]|[Hne Hq]]%lookup_insert_Some.
    + destruct (Hst p o Hp) as (c & c' & Hc & Hc' & H1 & H2 & _).
      destruct (pr_obj _ _ _ Hx p o Hp) as (c0 & Hc0 & Hfd & Hev & _). assert (c0 = c) as -> by congruence.
      exists c'. cbn. split_and!; [done|congruence|congruence| |done]. rewrite lookup_delete_eq. done.
    + destruct (Hst q oq Hq) as (c & c' & Hc & Hc' & H1 & H2 & H3 & H4).
      destruct (pr_obj _ _ _ Hx q oq Hq) as (c0 & Hc0 & Hfd & Hev & Hr & Hn). assert (c0 = c) as -> by congruence.
      exists c'. split_and!; [done|congruence|congruence| |].
      * intros Hr'. apply lookup_delete_Some in Hr' as [Hne' Hr'].
        destruct (H3 Hr') as [Hi' Hl']; [done|]. split; [done|]. rewrite Hl'. by apply Hr.
      * intros Hr' Hrem. assert (Hnr : registered w !! o_fd oq ≠ Some q).
        { intros Hr0. apply Hr'. rewrite lookup_delete_ne; [done|]. intros E'. rewrite <-E' in Hr0. congruence. }
        rewrite H4 by done. by apply Hn.
  - intros i pfd Hi. destruct (Hpf i pfd Hi) as (q & c' & Hne & Hc' & Hic & oq & r & Hr & Hq & Epfd).
    exists q, oq, c', r. rewrite lookup_insert_ne by done. split_and!; try done.
    rewrite lookup_delete_ne; [done|]. intros E'. rewrite <-E' in Hr. congruence.
Qed.

(** The other registered channels have other entries. *)
Lemma poll_others st x w p o c q oq cq :
  poll_rep st x w → can_remove p o w → st !! p = Some c →
  objects w !! q = Some oq → registered w !! o_fd oq = Some q → q ≠ p → st !! q = Some cq →
  0 ≤ index_ cq ∧ index_ cq ≠ index_ c ∧ (Z.to_nat (index_ cq) < length (pollfds_ x))%nat.
Proof.
  intros Hx (Hp & Hreg & _) Hc Hq Hr Hne Hcq.
  destruct (poll_entry st x w q oq cq Hx Hr Hq Hcq) as (_ & _ & Hiq & rq & Hlq & _).
  split_and!; [done| |by eapply lookup_lt_Some]. intros E'. apply Hne. symmetry.
  by apply (poll_entry_inj st x w p o c q oq cq).
Qed.

(** The removed entry is the last one. *)
Lemma poll_rep_remove_last st x w p o c m :
  poll_rep st x w → watches_ok w → can_remove p o w → st !! p = Some c →
  StdMap.wf m → (∀ fd', StdMap.find fd' m = if decide (fd' = o_fd o) then None else StdMap.find fd' (channels_ x)) →
  0 ≤ index_ c → index_ c = szof (pollfds_ x) - 1 →
  poll_rep st (mk m (removelast (pollfds_ x))) (unwatch p o w).
Proof.
  intros Hx Hw Hu Hc Hm Hfind Hi Elast. apply (poll_rep_drop st x w p o); try done.
  - intros q oq Hq. destruct (pr_obj _ _ _ Hx q oq Hq) as (cq & Hcq & _). exists cq, cq.
    split_and!; try done. intros Hr Hne.
    destruct (poll_others st x w p o c q oq cq Hx Hu Hc Hq Hr Hne Hcq) as (H1 & H2 & H3).
    split; [done|]. rewrite lookup_removelast, decide_True; [done|]. lia.
  - intros i pfd Hpfd. rewrite lookup_removelast in Hpfd. case_decide; [|done].
    destruct (pr_pfd _ _ _ Hx i pfd Hpfd) as (q & oq & cq & rq & Hr & Hq & Hcq & Hiq & Epfd).
    exists q, cq. split_and!; try done; [|by exists oq, rq]. intros ->. assert (cq = c) as -> by congruence. lia.
Qed.

(** The last entry, of the channel [q], takes the place of the removed one. *)
Lemma poll_rep_remove_swap st x w p o c m q oq cq rq :
  poll_rep st x w → watches_ok w → can_remove p o w → st !! p = Some c →
  StdMap.wf m → (∀ fd', StdMap.find fd' m = if decide (fd' = o_fd o) then None else StdMap.find fd' (channels_ x)) →
  0 ≤ index_ c → (Z.to_nat (index_ c) < length (pollfds_ x))%nat → index_ c ≠ szof (pollfds_ x) - 1 →
  pollfds_ x !! pred (length (pollfds_ x)) = Some (pfd_of oq rq) →
  registered w !! o_fd oq = Some q → objects w !! q = Some oq → st !! q = Some cq →
  index_ cq = Z.of_nat (pred (length (pollfds_ x))) → q ≠ p →
  poll_rep (<[q := set_index (index_ c) cq]> st)
    (mk m (removelast (<[Z.to_nat (index_ c) := pfd_of oq rq]> (pollfds_ x)))) (unwatch p o w).
Proof.
  intros Hx Hw Hu Hc Hm Hfind Hi Hlt Elast Hback Hr Hq Hcq Hiq Hqp. apply (poll_rep_drop st x w p o); try done.
  - intros q' oq' Hq'. destruct (pr_obj _ _ _ Hx q' oq' Hq') as (cq' & Hcq' & _). exists cq'.
    destruct (decide (q' = q)) as [->|Hne'].
    + assert (cq' = cq) as -> by congruence. exists (set_index (index_ c) cq). rewrite lookup_insert_eq.
      assert (oq' = oq) as -> by congruence. split_and!; try done.
      intros _ _. cbn. split; [done|]. rewrite lookup_removelast, length_insert, decide_True by lia.
      rewrite list_lookup_insert_eq by done. rewrite Hiq, Nat2Z.id, Hback. done.
    + exists cq'. rewrite lookup_insert_ne by done. split_and!; try done. intros Hr' Hne.
      destruct (poll_others st x w p o c q' oq' cq' Hx Hu Hc Hq' Hr' Hne Hcq') as (H1 & H2 & H3). split; [done|].
      assert (index_ cq' ≠ index_ cq) as Hneq.
      { intros E'. apply Hne'. by apply (poll_entry_inj st x w q' oq' cq' q oq cq). }
      rewrite lookup_removelast, length_insert, decide_True by lia. by rewrite list_lookup_insert_ne by lia.
  - intros i pfd Hpfd. rewrite lookup_removelast, length_insert in Hpfd. case_decide; [|done].
    destruct (decide (i = Z.to_nat (index_ c))) as [->|Hni].
    + rewrite list_lookup_insert_eq in Hpfd by done. injection Hpfd as <-.
      exists q, (set_index (index_ c) cq). rewrite lookup_insert_eq. cbn. split_and!; [done..|lia|by exists oq, rq].
    + rewrite list_lookup_insert_ne in Hpfd by done.
      destruct (pr_pfd _ _ _ Hx i pfd Hpfd) as (q' & oq' & cq' & rq' & Hr' & Hq' & Hcq' & Hiq' & Epfd).
      assert (q' ≠ p). { intros ->. assert (cq' = c) as -> by congruence. lia. }
      assert (q ≠ q'). { intros <-. assert (cq' = cq) as -> by congruence. lia. }
      exists q', cq'. rewrite lookup_insert_ne by done. split_and!; try done. by exists oq', rq'.
Qed.

(** The descriptor of an entry, negated or not. *)
Lemma pfd_of_fd w p o r :
  watches_ok w → objects w !! p = Some o →
  (if fd (pfd_of o r) <? 0 then - fd (pfd_of o r) - 1 else fd (pfd_of o r)) = o_fd o.
Proof.
  intros Hw Hp. destruct (ok_object _ Hw _ _ Hp) as [H0 _]. cbn. destruct (o_events o =? 0).
  - destruct (Z.ltb_spec (- o_fd o - 1) 0); lia.
  - destruct (Z.ltb_spec (o_fd o) 0); lia.
Qed.

Lemma poll_rep_remove st x w p o :
  poll_rep st x w → watches_ok w → can_remove p o w →
  ∃ st' x', removeChannel p st x = Done (st', x') ∧ poll_rep st' x' (unwatch p o w).
Proof.
  intros Hx Hw Hu. pose proof Hu as (Hp & Hreg & Ho0).
  destruct (pr_obj _ _ _ Hx p o Hp) as (c & Hc & Hfd & Hce & _).
  destruct (poll_entry st x w p o c Hx Hreg Hp Hc) as (_ & _ & Hi & r & Hl & Hai & Hat).
  pose proof (lookup_lt_Some _ _ _ Hl) as Hlt.
  assert (Hf : StdMap.find (o_fd o) (channels_ x) = Some p) by by rewrite (pr_find _ _ _ Hx).
  destruct (erase_registered _ _ _ (pr_wf _ _ _ Hx) Hf) as (m & He & Hwf & Hfind).
  unfold removeChannel. rewrite (chan_ok _ _ _ Hc), bind_ret_l, Hfd, (registered_ok _ _ _ Hf), bind_ret_l.
  rewrite Hce, Ho0, cassert_bind by done. rewrite Hai, bind_ret_l, Hat, bind_ret_l.
  rewrite cassert_bind by (unfold pfd_of; rewrite Ho0; cbn; by rewrite Z.eqb_refl).
  rewrite He, cassert_bind by done.
  destruct (Z.eqb_spec (index_ c) (szof (pollfds_ x) - 1)) as [Elast|Elast].
  { eexists _, _. split; [done|]. by apply (poll_rep_remove_last st x w p o c). }
  destruct (last (pollfds_ x)) as [back|] eqn:Eback.
  2: { apply last_None in Eback. rewrite Eback in Hlt. cbn in Hlt. lia. }
  rewrite last_lookup in Eback.
  destruct (pr_pfd _ _ _ Hx _ _ Eback) as (q & oq & cq & rq & Hr & Hq & Hcq & Hiq & ->).
  assert (Hqp : q ≠ p). { intros ->. assert (cq = c) as -> by congruence. lia. }
  cbv zeta. rewrite (pfd_of_fd w q) by done.
  rewrite Hfind, decide_False by congruence. rewrite (pr_find _ _ _ Hx), Hr, (chan_ok _ _ _ Hcq), bind_ret_l.
  eexists _, _. split; [done|]. by apply (poll_rep_remove_swap st x w p o c m q oq cq rq).
Qed.

(** ** [poll] *)

Lemma poll_fds_distinct st x w : poll_rep st x w → watches_ok w → NoDup (fd <$> pollfds_ x).
Proof.
  intros Hx Hw. apply NoDup_alt. intros i j f Hi Hj.
  apply list_lookup_fmap_Some in Hi as (a & -> & Hi). apply list_lookup_fmap_Some in Hj as (b & E' & Hj).
  destruct (pr_pfd _ _ _ Hx _ _ Hi) as (q & o & c & r & Hr & Ho & Hc & Hic & ->).
  destruct (pr_pfd _ _ _ Hx _ _ Hj) as (q' & o' & c' & r' & Hr' & Ho' & Hc' & Hic' & ->).
  destruct (ok_object _ Hw _ _ Ho) as [H1 _], (ok_object _ Hw _ _ Ho') as [H2 _].
  unfold pfd_of in E'. cbn in E'.
  assert (o_fd o = o_fd o') as E by (destruct (o_events o =? 0), (o_events o' =? 0); lia).
  assert (q = q') by congruence. subst q'. assert (c' = c) by congruence. subst c'. lia.
Qed.

Lemma poll_rep_polled st x w rs :
  poll_rep st x w → length rs = length (pollfds_ x) →
  poll_rep st (mk (channels_ x) (polled (pollfds_ x) rs)) w.
Proof.
  intros Hx Hlen.
  assert (Hl : ∀ i pfd, pollfds_ x !! i = Some pfd →
    ∃ rv, polled (pollfds_ x) rs !! i = Some (mkPfd (fd pfd) (events pfd) rv)).
  { intros i pfd Hi. destruct (lookup_lt_is_Some_2 rs i) as [rv Hrv].
    { rewrite Hlen. by eapply lookup_lt_Some. }
    exists rv. unfold polled. rewrite lookup_zip_with, Hi. cbn. by rewrite Hrv. }
  split; cbn; try apply Hx.
  - intros p o Ho. destruct (pr_obj _ _ _ Hx p o Ho) as (c & Hc & H1 & H2 & H3 & H4). exists c.
    split_and!; [done..| |done]. intros Hr. destruct (H3 Hr) as (Hi & r & Hp). split; [done|].
    destruct (Hl _ _ Hp) as [rv Hrv]. by exists rv.
  - intros i pfd Hi. unfold polled in Hi. apply lookup_zip_with_Some in Hi as (a & rv & -> & Ha & _).
    destruct (pr_pfd _ _ _ Hx i a Ha) as (q & o & c & r & Hr & Ho & Hc & Hic & ->). by exists q, o, c, rv.
Qed.

(** What an entry activates. *)
Definition activates (channels : list (Z * Z)) (pfd : pollfd) : option (Z * Z) :=
  if revents pfd =? 0 then None
  else p ← StdMap.find (fd pfd) channels; Some (p, revents pfd).

(** What the kernel may put into an entry: nothing for one that is ignored. *)
Definition received_ok (pfd : pollfd) : Prop := revents pfd = 0 ∨ (0 < revents pfd < 2 ^ 15 ∧ 0 <= fd pfd).

Definition poll_reports x (r : option (list Z)) (l : list (Z * Z)) : Prop :=
  match r with
  | Some rs =>
      length rs = length (pollfds_ x) ∧ Forall received_ok (polled (pollfds_ x) rs) ∧
      l = omap (activates (channels_ x)) (polled (pollfds_ x) rs)
  | None => l = []
  end.

Lemma poll_rep_revents st x w p c e :
  poll_rep st x w → st !! p = Some c → poll_rep (<[p := set_revents e c]> st) x w.
Proof.
  intros Hx Hc. split; try apply Hx.
  - intros q o Ho. destruct (pr_obj _ _ _ Hx q o Ho) as (c' & Hc' & H').
    destruct (decide (p = q)) as [->|Hne].
    + exists (set_revents e c). rewrite lookup_insert_eq. by assert (c' = c) as -> by congruence.
    + exists c'. by rewrite lookup_insert_ne.
  - intros i pfd Hi. destruct (pr_pfd _ _ _ Hx i pfd Hi) as (q & o & c' & r & Hr & Ho & Hc' & Hic & E').
    destruct (decide (p = q)) as [->|Hne].
    + exists q, o, (set_revents e c), r. rewrite lookup_insert_eq. by assert (c' = c) as -> by congruence.
    + exists q, o, c', r. by rewrite lookup_insert_ne.
Qed.

Lemma poll_fill_ok pfds st x w :
  poll_rep st x w → watches_ok w → NoDup (fd <$> pfds) →
  Forall received_ok pfds →
  Forall (λ pfd, 0 ≤ fd pfd → is_Some (registered w !! fd pfd)) pfds →
  let n := szof (filter (λ pfd, revents pfd ≠ 0) pfds) in
  let l := omap (activates (channels_ x)) pfds in
  ∃ st', fillActiveChannels n pfds st x = Done (st', l.*1) ∧ poll_rep st' x w ∧
    (∀ q, q ∉ l.*1 → st' !! q = st !! q) ∧
    (∀ p e, (p, e) ∈ l → ∃ c, st' !! p = Some c ∧ revents_ c = e).
Proof.
  intros Hx Hw. revert st Hx. induction pfds as [|pfd pfds IH]; intros st Hx Hnd Hok Hreg; cbv zeta.
  { exists st. split_and!; [done|done|done|]. by intros p e ?%elem_of_nil. }
  cbn [fmap list_fmap] in Hnd. apply NoDup_cons in Hnd as [Hnin Hnd].
  apply Forall_cons in Hok as [Hok1 Hok]. apply Forall_cons in Hreg as [Hreg1 Hreg].
  rewrite filter_cons. cbn [fillActiveChannels omap list_omap].
  destruct Hok1 as [H0|[Hpos Hfd]].
  - rewrite decide_False by lia. replace (activates (channels_ x) pfd) with (@None (Z * Z))
      by (unfold activates; by rewrite (proj2 (Z.eqb_eq _ _) H0)).
    rewrite (proj2 (Z.ltb_ge 0 (revents pfd))) by lia.
    destruct (IH st Hx Hnd Hok Hreg) as (st' & Hd & Hrest). exists st'. rewrite Hd. split; [|done].
    destruct (Z.ltb_spec 0 (szof (filter (λ pfd, revents pfd ≠ 0) pfds))) as [_|Hle]; [done|].
    assert (Hnil : filter (λ pfd, revents pfd ≠ 0) pfds = []) by (destruct (filter _ pfds); [done|cbn in Hle; lia]).
    rewrite Hnil in Hd. destruct pfds as [|a pfds]; [done|]. cbn in Hd. exact Hd.
  - destruct (Hreg1 Hfd) as [p Hp]. rewrite decide_True by lia. cbn [length].
    destruct (ok_registered _ Hw _ _ Hp) as (o & Ho & Hofd & _).
    destruct (pr_obj _ _ _ Hx p o Ho) as (c & Hc & Hcfd & _).
    rewrite (proj2 (Z.ltb_lt 0 (Z.of_nat (S _)))) by lia. rewrite (proj2 (Z.ltb_lt 0 (revents pfd))) by lia.
    replace (activates (channels_ x) pfd) with (Some (p, revents pfd))
      by (unfold activates; by rewrite (proj2 (Z.eqb_neq (revents pfd) 0)), (pr_find _ _ _ Hx), Hp by lia).
    rewrite (pr_find _ _ _ Hx), Hp.
    rewrite (chan_ok _ _ _ Hc), bind_ret_l, Hcfd, Hofd, cassert_bind by by rewrite Z.eqb_refl.
    replace (Z.of_nat (S (length (filter (λ pfd, revents pfd ≠ 0) pfds))) - 1)
      with (szof (filter (λ pfd, revents pfd ≠ 0) pfds)) by lia.
    destruct (IH (<[p := set_revents (revents pfd) c]> st)) as (st' & Hd & Hx' & Hsame & Hrev);
      [by apply poll_rep_revents|done|done|done|].
    rewrite Hd, bind_ret_l. exists st'. cbn [fmap list_fmap fst].
    assert (Hpl : p ∉ (omap (activates (channels_ x)) pfds).*1).
    { intros Hin. apply list_elem_of_fmap in Hin as ([p' e] & -> & Hin). apply list_elem_of_omap in Hin as (a & Ha & Hact).
      unfold activates in Hact. destruct (revents a =? 0); [done|]. rewrite (pr_find _ _ _ Hx) in Hact.
      destruct (registered w !! fd a) as [q|] eqn:Eq; [|done]. cbn in Hact. injection Hact as -> _.
      destruct (ok_registered _ Hw _ _ Eq) as (o' & Ho' & Hofd' & _). cbn in *. assert (o' = o) by congruence. subst o'.
      apply Hnin. rewrite <-Hofd, Hofd'. by apply list_elem_of_fmap_2. }
    split_and!; [done|done| |].
    + intros q Hq. rewrite Hsame by set_solver. rewrite lookup_insert_ne; [done|]. set_solver.
    + intros q e [[= -> ->]|Hq]%elem_of_cons; [|eauto]. exists (set_revents (revents pfd) c). split; [|done].
      rewrite Hsame by done. apply lookup_insert_eq.
Qed.

Lemma count_polled pfds rs :
  length rs = length pfds →
  length (filter (λ pfd, revents pfd ≠ 0) (polled pfds rs)) = length (filter (λ r, r ≠ 0) rs).
Proof.
  revert rs. induction pfds as [|a pfds IH]; intros [|r rs] Hl; try done. cbn [polled zip_with].
  rewrite !filter_cons. cbn [revents]. injection Hl as Hl.
  destruct (decide (r ≠ 0)); cbn [length]; by rewrite IH.
Qed.

Lemma fds_polled pfds rs : length rs = length pfds → fd <$> polled pfds rs = fd <$> pfds.
Proof.
  revert rs. induction pfds as [|a pfds IH]; intros [|r rs] Hl; try done. cbn. injection Hl as Hl. by rewrite IH.
Qed.

Lemma poll_rep_poll st x w r l :
  poll_rep st x w → watches_ok w → poll_reports x r l →
  ∃ st' x', poll r st x = Done (st', x', l.*1) ∧ poll_rep st' x' w ∧
    (∀ p e, (p, e) ∈ l → ∃ c, st' !! p = Some c ∧ revents_ c = e).
Proof.
  intros Hx Hw Hr. destruct r as [rs|]; cbn in Hr.
  2: { subst l. exists st, x. split_and!; [done|done|]. by intros p e ?%elem_of_nil. }
  destruct Hr as (Hlen & Hok & ->). unfold poll. cbv zeta. rewrite <-(count_polled (pollfds_ x)) by done.
  pose proof (poll_rep_polled st x w rs Hx Hlen) as Hx1.
  set (x1 := mk (channels_ x) (polled (pollfds_ x) rs)) in *.
  assert (Hnd : NoDup (fd <$> pollfds_ x1)).
  { cbn. rewrite fds_polled by done. by eapply poll_fds_distinct. }
  assert (Hreg : Forall (λ pfd, 0 ≤ fd pfd → is_Some (registered w !! fd pfd)) (pollfds_ x1)).
  { apply Forall_forall. intros pfd Hin Hfd. apply list_elem_of_lookup in Hin as [i Hi].
    destruct (pr_pfd _ _ _ Hx1 _ _ Hi) as (q & o & c & rv & Hr & Ho & _ & _ & ->).
    destruct (ok_object _ Hw _ _ Ho) as [Hfo _]. cbn in *. destruct (o_events o =? 0); [lia|by eexists]. }
  destruct (poll_fill_ok (pollfds_ x1) st x1 w Hx1 Hw Hnd Hok Hreg) as (st' & Hd & Hx' & _ & Hrev).
  destruct (Z.ltb_spec 0 (szof (filter (λ pfd, revents pfd ≠ 0) (polled (pollfds_ x) rs)))) as [Hl|Hl].
  - change (polled (pollfds_ x) rs) with (pollfds_ x1). rewrite Hd, bind_ret_l. by exists st', x1.
  - assert (Hnil : omap (activates (channels_ x)) (polled (pollfds_ x) rs) = []).
    { clear Hd Hrev Hreg Hnd. destruct (omap _ _) as [|[p e] l] eqn:El; [done|]. exfalso.
      assert (Hin : (p, e) ∈ omap (activates (channels_ x)) (polled (pollfds_ x) rs)) by (rewrite El; left).
      apply list_elem_of_omap in Hin as (a & Ha & Hact). unfold activates in Hact.
      destruct (Z.eqb_spec (revents a) 0); [done|].
      assert (Hin : a ∈ filter (λ pfd, revents pfd ≠ 0) (polled (pollfds_ x) rs)) by by apply list_elem_of_filter.
      destruct (filter _ _); [by apply elem_of_nil in Hin|cbn in Hl; lia]. }
    rewrite Hnil. exists st, x1. split_and!; [done|done|]. by intros p e ?%elem_of_nil.
Qed.

Lemma poll_rep_object st x w p o :
  poll_rep st x w → objects w !! p = Some o → ∃ c, st !! p = Some c ∧ fd_ c = o_fd o ∧ events_ c = o_events o.
Proof. intros Hx Ho. destruct (pr_obj _ _ _ Hx p o Ho) as (c & Hc & H1 & H2 & _). by exists c. Qed.

Lemma poll_rep_has st x w p o :
  poll_rep st x w → objects w !! p = Some o →
  hasChannel p st (channels_ x) = Done (bool_decide (registered w !! o_fd o = Some p)).
Proof.
  intros Hx Ho. destruct (poll_rep_object st x w p o Hx Ho) as (c & Hc & Hfd & _).
  unfold hasChannel. by rewrite (chan_ok _ _ _ Hc), bind_ret_l, Hfd, (pr_find _ _ _ Hx).
Qed.

(** An activated channel is registered for the descriptor of its entry. *)
Lemma activates_registered st x w (pfds : list pollfd) p e :
  poll_rep st x w → (p, e) ∈ omap (activates (channels_ x)) pfds →
  ∃ pfd, pfd ∈ pfds ∧ registered w !! fd pfd = Some p.
Proof.
  intros Hx (pfd & Hin & Ha)%list_elem_of_omap. exists pfd. split; [done|]. unfold activates in Ha.
  destruct (revents pfd =? 0); [done|]. rewrite (pr_find _ _ _ Hx) in Ha.
  destruct (registered w !! fd pfd) as [q|]; [|done]. by injection Ha as -> _.
Qed.

Lemma activates_NoDup st x w (pfds : list pollfd) :
  poll_rep st x w → watches_ok w → NoDup (fd <$> pfds) → NoDup (omap (activates (channels_ x)) pfds).*1.
Proof.
  intros Hx Hw. induction pfds as [|pfd pfds IH]; intros Hnd; [constructor|].
  cbn in Hnd. apply NoDup_cons in Hnd as [Hni Hnd]. cbn.
  destruct (activates (channels_ x) pfd) as [[p e]|] eqn:Ea; [|by apply IH].
  cbn. constructor; [|by apply IH]. intros [[q e'] [-> Hq]]%list_elem_of_fmap.
  destruct (activates_registered st x w pfds q e' Hx Hq) as (pfd' & Hin & Hr').
  destruct (activates_registered st x w [pfd] q e Hx) as (pfd0 & ->%list_elem_of_singleton & Hr).
  { cbn. rewrite Ea. by left. }
  destruct (ok_registered _ Hw _ _ Hr) as (o & Ho & Ho1 & _).
  destruct (ok_registered _ Hw _ _ Hr') as (o' & Ho' & Ho2 & _).
  apply Hni, list_elem_of_fmap. exists pfd'. split; [congruence|done].
Qed.

Lemma poll_reports_registered st x w r l :
  poll_rep st x w → watches_ok w → poll_reports x r l →
  NoDup l.*1 ∧ ∀ p, p ∈ l.*1 → ∃ fd, registered w !! fd = Some p.
Proof.
  intros Hx Hw Hr. destruct r as [rs|]; cbn in Hr; [|subst; split; [constructor|by intros p ?%elem_of_nil]].
  destruct Hr as (Hlen & _ & ->). split.
  - apply (activates_NoDup st x w); [done..|]. rewrite fds_polled by done. by eapply poll_fds_distinct.
  - intros p [[q e] [-> Hq]]%list_elem_of_fmap.
    destruct (activates_registered st x w _ q e Hx Hq) as (pfd & _ & Hr). by eexists.
Qed.

(** Only the [i]-th entry receives something. *)
Lemma omap_single (m : list (Z * Z)) (pfds : list pollfd) i p e pfd :
  pfds !! i = Some pfd → StdMap.find (fd pfd) m = Some p → e ≠ 0 →
  omap (activates m) (polled pfds (<[i := e]> (replicate (length pfds) 0))) = [(p, e)].
Proof.
  intros Hi Hf He. revert i Hi.
  assert (Hz : ∀ l, omap (activates m) (polled l (replicate (length l) 0)) = []).
  { induction l as [|a l IH]; [done|]. cbn. apply IH. }
  induction pfds as [|a pfds IH]; intros [|i] Hi; [done..| |].
  - injection Hi as ->. cbn. unfold activates at 1. cbn. rewrite (proj2 (Z.eqb_neq _ _) He), Hf. cbn. f_equal. apply Hz.
  - cbn. by apply IH.
Qed.

Lemma poll_can_report st x w p o e :
  poll_rep st x w → watches_ok w → registered w !! o_fd o = Some p → objects w !! p = Some o →
  o_events o ≠ 0 → 0 < e < 2 ^ 15 → ∃ r, poll_reports x r [(p, e)].
Proof.
  intros Hx Hw Hr Ho He Hpos. destruct (pr_obj _ _ _ Hx p o Ho) as (c & Hc & _ & _ & Hi & _).
  destruct (Hi Hr) as (_ & r & Hl). set (i := Z.to_nat (index_ c)) in *.
  assert (Hfd : fd (pfd_of o r) = o_fd o) by (cbn; by rewrite (proj2 (Z.eqb_neq _ _) He)).
  exists (Some (<[i := e]> (replicate (length (pollfds_ x)) 0))). split; [by rewrite length_insert, length_replicate|].
  split.
  - apply Forall_lookup_2. intros j a Hj. unfold polled in Hj.
    apply lookup_zip_with_Some in Hj as (b & rv & -> & Hb & Hrv). unfold received_ok. cbn.
    apply list_lookup_insert_Some in Hrv as [(<- & -> & _)|[_ Hrv]].
    + right. split; [lia|]. assert (b = pfd_of o r) as -> by congruence. rewrite Hfd.
      by destruct (ok_object _ Hw _ _ Ho).
    + left. by apply lookup_replicate in Hrv as [-> _].
  - symmetry. eapply omap_single; [exact Hl| |lia]. by rewrite (pr_find _ _ _ Hx), Hfd.
Qed.

#[export] Instance PollPoller_poller : Poller PollPoller.t := {|
  rep_new := poll_rep_new;
  rep_create := poll_rep_create;
  rep_destroy := poll_rep_destroy;
  rep_update := poll_rep_update;
  rep_remove := poll_rep_remove;
  rep_poll := poll_rep_poll;
  rep_object := poll_rep_object;
  rep_has := poll_rep_has;
  reports_registered := poll_reports_registered;
  can_report := poll_can_report
|}.
End poll.

(** * Histories *)

Inductive channel_op :=
  | Create (p fd : Z)          (* Channel( loop, fd ) *)
  | Destroy (p : Z)            (* ~Channel() *)
  | Update (p ev : Z)          (* the events change, then Channel::update *)
  | Remove (p : Z).            (* Channel::remove *)

(** The operations a program may do, and the watches afterwards. *)
Inductive allowed : channel_op → watches → watches → Prop :=
  | allow_create p fd w : can_create p fd w → allowed (Create p fd) w (create p fd w)
  | allow_destroy p o w : can_destroy p o w → allowed (Destroy p) w (destroy p w)
  | allow_update p o ev w : can_update p o ev w → allowed (Update p ev) w (watch p o ev w)
  | allow_remove p o w : can_remove p o w → allowed (Remove p) w (unwatch p o w).

Section history.
Context {P : Type} `{Poller P}.

Definition do_op (o : channel_op) (s : store * P) : outcome (store * P) :=
  let '(st, x) := s in
  match o with
  | Create p fd => Done (<[p := new_channel fd]> st, x)
  | Destroy p => Done (delete p st, x)
  | Update p ev => c ← chan p st; update_channel p (<[p := set_events ev c]> st) x
  | Remove p => remove_channel p st x
  end.

(** A history of operations and polls, with the channels each poll activates. *)
Fixpoint run_history (h : list (channel_op + received)) (s : store * P) :
    outcome (store * P * list (list Z)) :=
  match h with
  | [] => Done (s, [])
  | inl o :: h => s ← do_op o s; run_history h s
  | inr r :: h =>
      '(st, x, active) ← poll_channels r s.1 s.2;
      '(s, actives) ← run_history h (st, x);
      Done (s, active :: actives)
  end.

Definition stands_for (s : store * P) (w : watches) : Prop := rep s.1 s.2 w ∧ watches_ok w.

Lemma do_op_ok o s w w' :
  stands_for s w → allowed o w w' → ∃ s', do_op o s = Done s' ∧ stands_for s' w'.
Proof.
  destruct s as [st x]. intros [Hr Hw] Ho. cbn in Hr. destruct Ho as [p fd w Hc|p o w Hc|p o ev w Hc|p o w Hc]; cbn.
  - eexists; split; [done|]. split; [by apply rep_create|by apply ok_create].
  - eexists; split; [done|]. split; [by eapply rep_destroy|by eapply ok_destroy].
  - destruct (rep_update st x w p o ev Hr Hw Hc) as (c & st' & x' & Hp & Hd & Hr').
    rewrite (chan_ok _ _ _ Hp), bind_ret_l, Hd. eexists; split; [done|]. split; [done|by apply ok_watch].
  - destruct (rep_remove st x w p o Hr Hw Hc) as (st' & x' & Hd & Hr').
    rewrite Hd. eexists; split; [done|]. split; [done|by apply ok_unwatch].
Qed.

Lemma watches_ok_empty : watches_ok (mkWatches ∅ ∅).
Proof. by split. Qed.
End history.

(** The same history on two pollers: the same operations, and polls in which
    the kernel reports the same channels with the same events, in any order. *)
Section agreement.
Context {P Q : Type} {HP : Poller P} {HQ : Poller Q}.

Inductive same_history :
    store * P → store * Q → watches → list (channel_op + @received P HP) → list (channel_op + @received Q HQ) → Prop :=
  | same_nil s t w : same_history s t w [] []
  | same_op s t w o w' h k :
      allowed o w w' →
      (∀ s' t', do_op o s = Done s' → do_op o t = Done t' → same_history s' t' w' h k) →
      same_history s t w (inl o :: h) (inl o :: k)
  | same_poll s t w r q l m h k :
      reports s.2 r l → reports t.2 q m → l ≡ₚ m →
      (∀ s' t' a b, poll_channels r s.1 s.2 = Done (s', a) → poll_channels q t.1 t.2 = Done (t', b) →
         same_history s' t' w h k) →
      same_history s t w (inr r :: h) (inr q :: k).

Lemma same_history_agree s t w h k :
  same_history s t w h k → stands_for s w → stands_for t w →
  ∃ s' t' w' actives actives',
    run_history h s = Done (s', actives) ∧ run_history k t = Done (t', actives') ∧
    Forall2 (≡ₚ) actives actives' ∧ stands_for s' w' ∧ stands_for t' w'.
Proof.
  induction 1 as [s t w|s t w o w' h k Ho _ IH|s t w r q l m h k Hr Hq Hp _ IH]; intros Hs Ht.
  - by exists s, t, w, [], [].
  - destruct (do_op_ok o s w w' Hs Ho) as (s' & Hd & Hs'). destruct (do_op_ok o t w w' Ht Ho) as (t' & Hd' & Ht').
    destruct (IH s' t' Hd Hd' Hs' Ht') as (s2 & t2 & w2 & a & b & H1 & H2 & H3).
    exists s2, t2, w2, a, b. cbn. by rewrite Hd, Hd', !bind_ret_l.
  - destruct s as [st x], t as [st' y], Hs as [Hs Hw], Ht as [Ht _]. cbn in *.
    destruct (rep_poll st x w r l Hs Hw Hr) as (s1 & x1 & Hd & Hs1 & _).
    destruct (rep_poll st' y w q m Ht Hw Hq) as (t1 & y1 & Hd' & Ht1 & _).
    destruct (IH (s1, x1) (t1, y1) l.*1 m.*1 Hd Hd') as (s2 & t2 & w2 & a & b & H1 & H2 & H3 & H4 & H5);
      [by split..|].
    exists s2, t2, w2, (l.*1 :: a), (m.*1 :: b). rewrite Hd, Hd', !bind_ret_l, H1, H2, !bind_ret_l.
    split_and!; [done|done| |done|done]. constructor; [by rewrite Hp|done].
Qed.
End agreement.

(** C25. The two pollers are interchangeable: for every history in which a
    program creates, updates, removes and destroys channels in the allowed
    ways, and the kernel reports the same readiness to both and has the memory
    for what is registered (class [Epoll]), every operation of
    the epoll and of the poll implementation completes without a failed
    assertion, every poll activates the same channels, and the received events
    and the registered channels are the same at the end. *)
Theorem pollers_agree {E} `{Epoll E}
    (h : list (channel_op + option (list (Z * Z)))) (k : list (channel_op + option (list Z))) :
  same_history (P := EPollPoller.t E) (Q := PollPoller.t)
    (∅, EPollPoller.make) (∅, PollPoller.make) (mkWatches ∅ ∅) h k →
  ∃ s t w actives actives',
    run_history (P := EPollPoller.t E) h (∅, EPollPoller.make) = Done (s, actives) ∧
    run_history (P := PollPoller.t) k (∅, PollPoller.make) = Done (t, actives') ∧
    Forall2 (≡ₚ) actives actives' ∧ stands_for s w ∧ stands_for t w.
Proof.
  intros Hh. apply (same_history_agree _ _ _ _ _ Hh).
  - split; [exact epoll_rep_new|apply watches_ok_empty].
  - split; [exact poll_rep_new|apply watches_ok_empty].
Qed.

(** An epoll instance as a finite map. *)
Definition map_ctl (op : ctl) (fd : Z) (ev : Z * Z) (e : gmap Z (Z * Z)) : option (gmap Z (Z * Z)) :=
  match op, e !! fd with
  | EPOLL_CTL_ADD, None | EPOLL_CTL_MOD, Some _ => Some (<[fd := ev]> e)
  | EPOLL_CTL_DEL, Some _ => Some (delete fd e)
  | _, _ => None
  end.

Lemma map_ctl_add (e : gmap Z (Z * Z)) fd ev :
  e !! fd = None → ∃ e', map_ctl EPOLL_CTL_ADD fd ev e = Some e' ∧ e' = <[fd := ev]> e.
Proof. intros He. unfold map_ctl. rewrite He. by eexists. Qed.
Lemma map_ctl_mod (e : gmap Z (Z * Z)) fd ev :
  is_Some (e !! fd) → ∃ e', map_ctl EPOLL_CTL_MOD fd ev e = Some e' ∧ e' = <[fd := ev]> e.
Proof. intros [x He]. unfold map_ctl. rewrite He. by eexists. Qed.
Lemma map_ctl_del (e : gmap Z (Z * Z)) fd ev :
  is_Some (e !! fd) → ∃ e', map_ctl EPOLL_CTL_DEL fd ev e = Some e' ∧ e' = delete fd e.
Proof. intros [x He]. unfold map_ctl. rewrite He. by eexists. Qed.

#[export] Instance map_epoll : Epoll (gmap Z (Z * Z)) := {|
  interest e := e;
  epoll_create1 := ∅;
  epoll_ctl := map_ctl;
  interest_create := eq_refl;
  ctl_add := map_ctl_add;
  ctl_mod := map_ctl_mod;
  ctl_del := map_ctl_del
|}.

(** Three channels, the first of which is removed between two polls: in the
    poll implementation the third takes its place. *)
Definition sample_start : list channel_op :=
  [Create 100 5; Update 100 3; Create 200 7; Update 200 3; Create 300 8; Update 300 7].
Definition sample_end : list channel_op := [Update 100 0; Remove 100; Destroy 100].
Definition sample_epoll : list (channel_op + @received (EPollPoller.t (gmap Z (Z * Z))) _) :=
  (inl <$> sample_start) ++ [inr (Some [(300, 4); (100, 1)])] ++ (inl <$> sample_end)
  ++ [inr (Some [(300, 5)])].
Definition sample_poll : list (channel_op + @received PollPoller.t _) :=
  (inl <$> sample_start) ++ [inr (Some [1; 0; 4])] ++ (inl <$> sample_end) ++ [inr (Some [5; 0])].

Definition actives_of {A B C} (m : outcome (A * B * C)) : option C :=
  match m with Done (_, c) => Some c | Fault _ => None end.

(** Outside the allowed uses they differ: a channel that never watched for
    anything can be told to watch for nothing and be removed with the epoll
    implementation, as the destructor of an acceptor that never listened does,
    but the poll implementation registers the descriptor itself and fails its
    own assertion. *)
Definition never_watched : list channel_op := [Create 100 5; Update 100 0; Remove 100].

Lemma never_watched_differs :
  (∃ s, run_history (P := EPollPoller.t (gmap Z (Z * Z))) (inl <$> never_watched) (∅, EPollPoller.make) = Done (s, [])) ∧
  run_history (P := PollPoller.t) (inl <$> never_watched) (∅, PollPoller.make)
    = Fault (AssertFailed "pfd.fd == -channel->fd()-1 && pfd.events == channel->events()").
Proof. split; [eexists|]; vm_compute; reflexivity. Qed.

(** So does a channel that is used again after its removal: the poll
    implementation leaves its index as it was. *)
Definition used_again : list channel_op :=
  [Create 100 5; Update 100 3; Update 100 0; Remove 100; Update 100 3].

Lemma used_again_differs :
  (∃ s, run_history (P := EPollPoller.t (gmap Z (Z * Z))) (inl <$> used_again) (∅, EPollPoller.make) = Done (s, [])) ∧
  run_history (P := PollPoller.t) (inl <$> used_again) (∅, PollPoller.make)
    = Fault (AssertFailed "channels_.find(fd) != channels_.end()").
Proof. split; [eexists|]; vm_compute; reflexivity. Qed.

(** A step of the sample: an allowed operation, whose results are computed. *)
Ltac sample_results :=
  let Hs := fresh in let Ht := fresh in
  intros * Hs Ht; vm_compute in Hs, Ht; injection Hs; injection Ht; intros; subst; clear Hs Ht.
Ltac sample_step :=
  refine (same_op (P := EPollPoller.t (gmap Z (Z * Z))) (Q := PollPoller.t) _ _ _ _ _ _ _ _ _);
  [econstructor; unfold can_create, can_destroy, can_update, can_remove; split_and?;
   first [lia|by vm_compute|left; split; [by vm_compute|lia]|right; split; [by vm_compute|cbn; lia]] ..
  |sample_results].
Ltac sample_poll_step l m :=
  refine (same_poll (P := EPollPoller.t (gmap Z (Z * Z))) (Q := PollPoller.t) _ _ _ _ _ l m _ _ _ _ _ _);
  [ split; [done|]; split; [by apply (bool_decide_unpack _); vm_compute|]; split; [by vm_compute|];
    let H := fresh in
    intros ? ? H; repeat (apply elem_of_cons in H as [[= -> ->]|H]; [first [exists 5, 3; by vm_compute|exists 8, 7; by vm_compute]|]);
    by apply elem_of_nil in H
  | split; [done|]; split; [by repeat (apply Forall_cons; split; [unfold received_ok; cbn; lia|])|by vm_compute]
  | cbn
  | sample_results ].

(** The sample histories are the same history, and the poll implementation
    keeps the entry of the third channel in the place of the first. *)
Theorem pollers_agree_witness :
  same_history (P := EPollPoller.t (gmap Z (Z * Z))) (Q := PollPoller.t)
    (∅, EPollPoller.make) (∅, PollPoller.make) (mkWatches ∅ ∅) sample_epoll sample_poll ∧
  (∃ s t w actives actives',
    run_history sample_epoll (∅, EPollPoller.make) = Done (s, actives) ∧
    run_history sample_poll (∅, PollPoller.make) = Done (t, actives') ∧
    Forall2 (≡ₚ) actives actives' ∧ stands_for s w ∧ stands_for t w) ∧
  actives_of (run_history sample_epoll (∅, EPollPoller.make)) = Some [[300; 100]; [300]] ∧
  actives_of (run_history sample_poll (∅, PollPoller.make)) = Some [[100; 300]; [300]].
Proof.
  assert (Hs : same_history (P := EPollPoller.t (gmap Z (Z * Z))) (Q := PollPoller.t)
    (∅, EPollPoller.make) (∅, PollPoller.make) (mkWatches ∅ ∅) sample_epoll sample_poll).
  { unfold sample_epoll, sample_poll, sample_start, sample_end. cbn [fmap list_fmap app].
    sample_step. sample_step. sample_step. sample_step. sample_step. sample_step.
    sample_poll_step [(300, 4); (100, 1)] [(100, 1); (300, 4)]; [apply Permutation_swap|].
    sample_step. sample_step. sample_step.
    sample_poll_step [(300, 5)] [(300, 5)]; [done|]. exact (same_nil (P := EPollPoller.t (gmap Z (Z * Z))) (Q := PollPoller.t) _ _ _). }
  split; [exact Hs|]. split; [exact (pollers_agree _ _ Hs)|]. split; vm_compute; reflexivity.
Defined.
