(* ===== verification/EventLoop.v ===== *)
(** The reactor: [muduo::net::EventLoop] (src/IMServer/src/muduo/net:
    EventLoop.h, EventLoop.cc), over any implementation of the class [Poller].
    The members run in several threads: the thread of the loop executes
    [loop()] and the callbacks of channels and functors, which may call any
    member; other threads queue functors and ask the loop to quit.  A step is
    what happens between two points where another thread may come in between;
    the steps of all threads interleave freely, and callbacks are arbitrary
    sequences of calls of members.  Functors are values of any type; what a
    functor does is the calls made while it runs.  The counter [iteration_],
    which nothing reads, the context and the log are left out. *)

From S2P Require Import Prelude StdMap TcpConnection Poller.
Local Open Scope Z_scope.

Module EventLoop.

Definition kPollTimeMs : Z := 10000.

(** Where the thread of the loop is. *)
Inductive phase_t (F : Type) :=
  | Outside                              (* not in [loop()] *)
  | Testing                              (* [while ( !quit_ )] *)
  | Polling                              (* in [poller_->poll] *)
  | Dispatching (rest : list Z)          (* [for ( Channel* channel : activeChannels_ )] *)
  | Handling (p : Z) (rest : list Z)     (* in [currentActiveChannel_->handleEvent] *)
  | Swapping                             (* before [functors.swap( pendingFunctors_ )] *)
  | Calling (rest : list F)              (* [for ( const Functor& functor : functors )] *)
  | InFunctor (rest : list F).           (* in [functor()] *)
Arguments Outside {F}. Arguments Testing {F}. Arguments Polling {F}. Arguments Swapping {F}.
Arguments Dispatching {F} rest. Arguments Handling {F} p rest.
Arguments Calling {F} rest. Arguments InFunctor {F} rest.

Section loop.
(** The functors, the poller, the thread the loop belongs to, its eventfd, and
    the address of [wakeupChannel_]; the timer queue's descriptor and channel. *)
Context {F P : Type} {HP : Poller P} (threadId_ wakeupFd_ wakeupChannel_ timerfd_ timerfdChannel_ : Z).

Record t := mk {
  phase : phase_t F;
  looping_ : bool; quit_ : bool; eventHandling_ : bool; callingPendingFunctors_ : bool;
  activeChannels_ : list Z; currentActiveChannel_ : option Z;
  pendingFunctors_ : list F;
  counter : Z;              (* of the eventfd *)
  waking : gset Z;          (* threads that are about to call [wakeup()] *)
  channels : store; poller_ : P
}.

Definition at_phase (f : phase_t F) (s : t) : t :=
  mk f (looping_ s) (quit_ s) (eventHandling_ s) (callingPendingFunctors_ s) (activeChannels_ s)
    (currentActiveChannel_ s) (pendingFunctors_ s) (counter s) (waking s) (channels s) (poller_ s).
Definition set_quit (q : bool) (s : t) : t :=
  mk (phase s) (looping_ s) q (eventHandling_ s) (callingPendingFunctors_ s) (activeChannels_ s)
    (currentActiveChannel_ s) (pendingFunctors_ s) (counter s) (waking s) (channels s) (poller_ s).
Definition set_looping (l : bool) (s : t) : t :=
  mk (phase s) l (quit_ s) (eventHandling_ s) (callingPendingFunctors_ s) (activeChannels_ s)
    (currentActiveChannel_ s) (pendingFunctors_ s) (counter s) (waking s) (channels s) (poller_ s).
Definition set_calling (c : bool) (s : t) : t :=
  mk (phase s) (looping_ s) (quit_ s) (eventHandling_ s) c (activeChannels_ s)
    (currentActiveChannel_ s) (pendingFunctors_ s) (counter s) (waking s) (channels s) (poller_ s).
Definition set_pending (fs : list F) (s : t) : t :=
  mk (phase s) (looping_ s) (quit_ s) (eventHandling_ s) (callingPendingFunctors_ s) (activeChannels_ s)
    (currentActiveChannel_ s) fs (counter s) (waking s) (channels s) (poller_ s).
Definition set_counter (n : Z) (s : t) : t :=
  mk (phase s) (looping_ s) (quit_ s) (eventHandling_ s) (callingPendingFunctors_ s) (activeChannels_ s)
    (currentActiveChannel_ s) (pendingFunctors_ s) n (waking s) (channels s) (poller_ s).
Definition set_waking (w : gset Z) (s : t) : t :=
  mk (phase s) (looping_ s) (quit_ s) (eventHandling_ s) (callingPendingFunctors_ s) (activeChannels_ s)
    (currentActiveChannel_ s) (pendingFunctors_ s) (counter s) w (channels s) (poller_ s).
(** [eventHandling_], [activeChannels_] and [currentActiveChannel_] *)
Definition set_active (h : bool) (a : list Z) (c : option Z) (s : t) : t :=
  mk (phase s) (looping_ s) (quit_ s) h (callingPendingFunctors_ s) a c
    (pendingFunctors_ s) (counter s) (waking s) (channels s) (poller_ s).
Definition set_poller (st : store) (x : P) (s : t) : t :=
  mk (phase s) (looping_ s) (quit_ s) (eventHandling_ s) (callingPendingFunctors_ s) (activeChannels_ s)
    (currentActiveChannel_ s) (pendingFunctors_ s) (counter s) (waking s) st x.

(** ** The eventfd *)

(** An eventfd holds an unsigned 64-bit number below its maximum; [write] adds
    to it and fails when the sum would be too large, [read] takes it and fails
    when there is none.  [wakeup()] and [handleRead()] log a failure. *)
Definition eventfd_max : Z := 2 ^ 64 - 2.
Definition wakeup (s : t) : t :=
  if counter s + 1 <=? eventfd_max then set_counter (counter s + 1) s else s.
Definition handleRead (s : t) : t := set_counter 0 s.

(** ** The members any thread may call *)

Definition isInLoopThread (thread : Z) : bool := bool_decide (thread = threadId_).

(** [assertInLoopThread()]: [LOG_FATAL] aborts. *)
Definition assertInLoopThread (thread : Z) : outcome unit :=
  if isInLoopThread thread then Done tt else Fault (Thrown "LOG_FATAL").

(** [queueInLoop( cb )]: the functor is pushed under the mutex; the call of
    [wakeup()] that may follow is a step of its own. *)
Definition queueInLoop (thread : Z) (f : F) (s : t) : t :=
  let s := set_pending (pendingFunctors_ s ++ [f]) s in
  if negb (isInLoopThread thread) || callingPendingFunctors_ s
  then set_waking ({[ thread ]} ∪ waking s) s else s.

Definition quit (thread : Z) (s : t) : t :=
  let s := set_quit true s in
  if negb (isInLoopThread thread) then set_waking ({[ thread ]} ∪ waking s) s else s.

(** [queueSize()] *)
Definition queueSize (s : t) : Z := szof (pendingFunctors_ s).

(** [updateChannel( channel )], after a change of its events *)
Definition updateChannel (thread p ev : Z) (s : t) : outcome t :=
  _ ← assertInLoopThread thread;
  c ← chan p (channels s);
  '(st, x) ← update_channel p (<[p := set_events ev c]> (channels s)) (poller_ s);
  Done (set_poller st x s).

(** [removeChannel( channel )] *)
Definition removeChannel (thread p : Z) (s : t) : outcome t :=
  _ ← assertInLoopThread thread;
  _ ← (if eventHandling_ s then
         cassert (bool_decide (currentActiveChannel_ s = Some p) || bool_decide (p ∉ activeChannels_ s))
           "currentActiveChannel_ == channel || std::find(...) == activeChannels_.end()"
       else Done tt);
  '(st, x) ← remove_channel p (channels s) (poller_ s);
  Done (set_poller st x s).

(** [hasChannel( channel )] *)
Definition hasChannel (thread p : Z) (s : t) : outcome bool :=
  _ ← assertInLoopThread thread; has_channel p (channels s) (poller_ s).

(** [~Channel()]: not while its event is handled, and not in the poller. *)
Definition destroyChannel (thread p : Z) (s : t) : outcome t :=
  _ ← cassert (match phase s with Handling q _ => bool_decide (q ≠ p) | _ => true end) "!eventHandling_";
  _ ← (if isInLoopThread thread then
         has ← hasChannel thread p s; cassert (negb has) "!loop_->hasChannel(this)"
       else Done tt);
  Done (set_poller (delete p (channels s)) (poller_ s) s).

(** [loop()] up to its first test of [quit_] *)
Definition loop (thread : Z) (s : t) : outcome t :=
  _ ← cassert (negb (looping_ s)) "!looping_";
  _ ← assertInLoopThread thread;
  Done (at_phase Testing (set_quit false (set_looping true s))).

(** [EventLoop()]: the timer queue and then the loop itself register their
    channels for reading. *)
Definition make : outcome t :=
  let register p fd (sx : store * P) :=
    update_channel p (<[p := set_events Channel.kReadEvent (new_channel fd)]> sx.1) sx.2 in
  sx ← register timerfdChannel_ timerfd_ (∅, new_poller);
  sx ← register wakeupChannel_ wakeupFd_ sx;
  Done (mk Outside false false false false [] None [] 0 ∅ sx.1 sx.2).

(** [~EventLoop()]: the channel of the eventfd is disabled and removed. *)
Definition dtor (thread : Z) (s : t) : outcome t :=
  s ← updateChannel thread wakeupChannel_ Channel.kNoneEvent s;
  removeChannel thread wakeupChannel_ s.

(** ** The thread of the loop *)

(** What the program can see of the queue: a functor is called. *)
Definition calls := list F.

(** [doPendingFunctors()] up to the swap *)
Definition doPendingFunctors (s : t) : t := at_phase Swapping (set_calling true s).

(** [wakeupChannel_->handleEvent( ... )] calls [handleRead()], the only callback
    that is set. *)
Definition readable (c : Chan) : bool :=
  negb (Z.land (revents_ c) (Z.lor (Z.lor Channel.POLLIN Channel.POLLPRI) Channel.POLLRDHUP) =? 0).

(** The next step of [loop()]: [r] is what the kernel reports when it polls.
    A callback that runs returns; what it did before was its own. *)
Definition loop_step (r : received) (s : t) : option (outcome (t * calls)) :=
  let go s := Some (Done (s, [])) in
  match phase s with
  | Outside => None
  | Testing =>
      if quit_ s then go (at_phase Outside (set_looping false s))
      else go (at_phase Polling (set_active (eventHandling_ s) [] (currentActiveChannel_ s) s))
  | Polling =>
      Some ('(st, x, active) ← poll_channels r (channels s) (poller_ s);
            let s := set_poller st x s in
            Done (at_phase (Dispatching active) (set_active true active (currentActiveChannel_ s) s), []))
  | Dispatching [] => go (doPendingFunctors (set_active false (activeChannels_ s) None s))
  | Dispatching (p :: rest) =>
      Some (c ← chan p (channels s);
            let s := set_active (eventHandling_ s) (activeChannels_ s) (Some p) s in
            if p =? wakeupChannel_ then
              Done (at_phase (Dispatching rest) (if readable c then handleRead s else s), [])
            else Done (at_phase (Handling p rest) s, []))
  | Handling p rest => go (at_phase (Dispatching rest) s)
  | Swapping => go (at_phase (Calling (pendingFunctors_ s)) (set_pending [] s))
  | Calling [] => go (at_phase Testing (set_calling false s))
  | Calling (f :: rest) => Some (Done (at_phase (InFunctor rest) s, [f]))
  | InFunctor rest => go (at_phase (Calling rest) s)
  end.

(** ** All threads *)

(** What a callback, or another thread, may call.  [runInLoop] in the thread of
    the loop calls the functor on the spot: the calls it makes are the next
    calls of that thread. *)
Inductive action :=
  | Loop | Quit | QueueInLoop (f : F) | RunInLoop (f : F) | Channel_op (o : channel_op).

Definition perform (thread : Z) (a : action) (s : t) : outcome t :=
  match a with
  | Loop => loop thread s
  | Quit => Done (quit thread s)
  | QueueInLoop f => Done (queueInLoop thread f s)
  | RunInLoop f => Done (if isInLoopThread thread then s else queueInLoop thread f s)
  | Channel_op (Create p fd) => Done (set_poller (<[p := new_channel fd]> (channels s)) (poller_ s) s)
  | Channel_op (Destroy p) => destroyChannel thread p s
  | Channel_op (Update p ev) => updateChannel thread p ev s
  | Channel_op (Remove p) => removeChannel thread p s
  end.

Inductive event :=
  | Advance (r : received)                (* the thread of the loop goes on *)
  | Do (thread : Z) (a : action)          (* a thread calls a member *)
  | Wake (thread : Z).                    (* the [wakeup()] at the end of that call *)

(** The thread of the loop makes calls outside [loop()] and in callbacks. *)
Definition in_user_code (s : t) : bool :=
  match phase s with Outside | Handling _ _ | InFunctor _ => true | _ => false end.

(** One step of one thread; [None] when that thread is elsewhere. *)
Definition step (e : event) (s : t) : option (outcome (t * calls)) :=
  match e with
  | Advance r => if bool_decide (threadId_ ∈ waking s) then None else loop_step r s
  | Do thread a =>
      if bool_decide (thread ∈ waking s) || (isInLoopThread thread && negb (in_user_code s)) then None
      else Some (s ← perform thread a s; Done (s, []))
  | Wake thread =>
      if bool_decide (thread ∈ waking s)
      then Some (Done (set_waking (waking s ∖ {[ thread ]}) (wakeup s), [])) else None
  end.

(** A run: steps of the threads in any order, and the functors called. *)
Fixpoint run (es : list event) (s : t) : option (outcome (t * calls)) :=
  match es with
  | [] => Some (Done (s, []))
  | e :: es =>
      match step e s with
      | Some (Done (s, l)) =>
          match run es s with
          | Some (Done (s, l')) => Some (Done (s, l ++ l'))
          | x => x
          end
      | x => x
      end
  end.

(** * Correctness *)

(** What a program may do, with the watches afterwards: call [loop()] outside
    it, in its thread; use channels of its own in the ways of [allowed], in the
    thread of the loop, never removing a channel that is still to be handled,
    nor destroying the one that is handled; the kernel reports what it can. *)
Definition own_channel (o : channel_op) (s : t) : Prop :=
  match o with
  | Create _ _ => True
  | Update p _ => p ≠ wakeupChannel_
  | Remove p =>
      p ≠ wakeupChannel_ ∧ (eventHandling_ s = true → currentActiveChannel_ s = Some p ∨ p ∉ activeChannels_ s)
  | Destroy p => p ≠ wakeupChannel_ ∧ ∀ rest, phase s ≠ Handling p rest
  end.

Definition may (e : event) (s : t) (w w' : watches) : Prop :=
  match e with
  | Do thread (Channel_op o) => thread = threadId_ ∧ own_channel o s ∧ allowed o w w'
  | Do thread Loop => w' = w ∧ thread = threadId_ ∧ phase s = Outside
  | Advance r => w' = w ∧ (phase s = Polling → ∃ l, reports (poller_ s) r l)
  | _ => w' = w
  end.

(** Runs in which every step also satisfies [ok]. *)
Inductive steps (ok : event → t → Prop) (s0 : t) (w0 : watches) : list event → t → watches → calls → Prop :=
  | steps_nil : steps ok s0 w0 [] s0 w0 []
  | steps_snoc es s w l e s' w' l' :
      steps ok s0 w0 es s w l → may e s w w' → ok e s → step e s = Some (Done (s', l')) →
      steps ok s0 w0 (es ++ [e]) s' w' (l ++ l').

Definition any (e : event) (s : t) : Prop := True.

(** The channels that exist after construction. *)
Definition first_watches : watches :=
  mkWatches (<[wakeupChannel_ := mkObj wakeupFd_ Channel.kReadEvent false]>
              {[timerfdChannel_ := mkObj timerfd_ Channel.kReadEvent false]})
    (<[wakeupFd_ := wakeupChannel_]> {[timerfd_ := timerfdChannel_]}).

(** ** The invariant *)

Definition is_registered (w : watches) (p : Z) : Prop := ∃ fd, registered w !! fd = Some p.

Definition active_ok (w : watches) (s : t) : Prop :=
  match phase s with
  | Dispatching rest =>
      eventHandling_ s = true ∧ NoDup (activeChannels_ s) ∧
      ∃ handled, activeChannels_ s = handled ++ rest ∧ Forall (is_registered w) rest
  | Handling p rest =>
      eventHandling_ s = true ∧ NoDup (activeChannels_ s) ∧ currentActiveChannel_ s = Some p ∧
      ∃ handled, activeChannels_ s = handled ++ p :: rest ∧ Forall (is_registered w) rest
  | _ => eventHandling_ s = false
  end.

Definition calling (f : phase_t F) : bool :=
  match f with Swapping | Calling _ | InFunctor _ => true | _ => false end.

Definition inside (f : phase_t F) : bool := match f with Outside => false | _ => true end.

Record inv (s : t) (w : watches) : Prop := mkInv {
  inv_rep : rep (channels s) (poller_ s) w;
  inv_watches : watches_ok w;
  inv_wakeup : objects w !! wakeupChannel_ = Some (mkObj wakeupFd_ Channel.kReadEvent false) ∧
               registered w !! wakeupFd_ = Some wakeupChannel_;
  inv_active : active_ok w s;
  inv_calling : callingPendingFunctors_ s = calling (phase s);
  inv_looping : looping_ s = inside (phase s)
}.

(** What an operation on another channel leaves as it was. *)
Lemma allowed_registered o w w' q :
  allowed o w w' → o ≠ Remove q → is_registered w q → is_registered w' q.
Proof.
  intros Ho Hne [fd Hfd]. destruct Ho as [p fd' w Hc|p o w Hc|p o ev w (Hp & _ & _ & Hr)|p o w (Hp & Hr & _)];
    [by exists fd|by exists fd| |].
  - destruct (decide (o_fd o = fd)) as [<-|Hd].
    + exists (o_fd o). cbn. rewrite lookup_insert_eq. f_equal. destruct Hr as [[Hr _]|[Hr _]]; congruence.
    + exists fd. cbn. by rewrite lookup_insert_ne.
  - exists fd. cbn. rewrite lookup_delete_ne; [done|]. intros E. rewrite <-E in Hfd. congruence.
Qed.

Definition about (o : channel_op) : Z :=
  match o with Create p _ | Destroy p | Update p _ | Remove p => p end.

Lemma allowed_other o w w' q x fd :
  allowed o w w' → about o ≠ q → objects w !! q = Some x → registered w !! fd = Some q →
  objects w' !! q = Some x ∧ registered w' !! fd = Some q.
Proof.
  intros Ho Hne Hq Hfd. destruct Ho as [p fd' w Hc|p o w Hc|p o ev w (Hp & _ & _ & Hr)|p o w (Hp & Hr & _)];
    cbn in *; rewrite ?lookup_insert_ne, ?lookup_delete_ne by done; try done.
  - split; [done|]. rewrite lookup_insert_ne; [done|]. intros E. rewrite <-E in Hfd. destruct Hr as [[Hr _]|[Hr _]]; congruence.
  - split; [done|]. rewrite lookup_delete_ne; [done|]. intros E. rewrite <-E in Hfd. congruence.
Qed.

Lemma own_not_wakeup o s w w' :
  inv s w → allowed o w w' → own_channel o s → about o ≠ wakeupChannel_.
Proof.
  intros Hi Ho Hown. destruct (inv_wakeup _ _ Hi) as [Hw _].
  destruct Ho as [p fd' w [Hc _]|p o w Hc|p o ev w Hc|p o w Hc]; cbn in *; try (tauto || congruence).
Qed.

Lemma channel_op_done o s w w' :
  inv s w → allowed o w w' → own_channel o s →
  ∃ st x, perform threadId_ (Channel_op o) s = Done (set_poller st x s) ∧ rep st x w' ∧ watches_ok w'.
Proof.
  intros Hi Ho Hown.
  destruct (do_op_ok o (channels s, poller_ s) w w') as ([st x] & Hd & Hs & Hw'); [split; apply Hi|done|].
  exists st, x. split; [|by split]. unfold perform.
  assert (Hthread : assertInLoopThread threadId_ = Done tt).
  { unfold assertInLoopThread, isInLoopThread. by rewrite bool_decide_eq_true_2. }
  destruct o as [p fd|p|p ev|p]; cbn [do_op] in Hd.
  - by injection Hd as -> ->.
  - inversion Ho as [|p' o w0 (Hp & Hr)| |]; subst. destruct Hown as [_ Hph]. unfold destroyChannel, hasChannel.
    rewrite cassert_bind.
    2: { destruct (phase s); try done. apply bool_decide_eq_true_2. intros ->. by eapply Hph. }
    unfold isInLoopThread. rewrite bool_decide_eq_true_2 by done.
    rewrite Hthread, bind_ret_l, (rep_has _ _ _ _ _ (inv_rep _ _ Hi) Hp), bind_ret_l.
    rewrite bool_decide_eq_false_2 by done. cbn. by injection Hd as -> ->.
  - unfold updateChannel. rewrite Hthread, bind_ret_l. destruct (chan p (channels s)) as [c|]; [|done].
    rewrite bind_ret_l. cbn in Hd. by rewrite Hd.
  - unfold removeChannel. rewrite Hthread, bind_ret_l. destruct Hown as [_ Hown]. rewrite Hd.
    destruct (eventHandling_ s); [|done]. rewrite cassert_bind; [done|].
    apply orb_true_iff. destruct (Hown eq_refl); [left|right]; by apply bool_decide_eq_true_2.
Qed.

(** The channels that are still to be handled stay registered. *)
Lemma channel_op_active o s w w' :
  inv s w → allowed o w w' → own_channel o s → active_ok w s → in_user_code s = true → active_ok w' s.
Proof.
  intros Hi Ho Hown Ha Hu. unfold active_ok, in_user_code in *. destruct (phase s) as [| | |rest|p rest| | |] eqn:Ep; try done.
  destruct Ha as (Hh & Hnd & Hcur & handled & Hact & Hreg). split_and!; [done..|].
  exists handled. split; [done|]. rewrite Forall_forall in Hreg |- *. intros q Hq.
  apply (allowed_registered _ _ _ _ Ho); [|by apply Hreg]. intros ->. destruct Hown as [_ Hown].
  rewrite Hact in Hnd. apply NoDup_app in Hnd as (_ & _ & Hnd). apply NoDup_cons in Hnd as [Hni _].
  destruct (Hown Hh) as [Hc|Hc].
  - rewrite Hcur in Hc. injection Hc as ->. done.
  - apply Hc. rewrite Hact. set_solver.
Qed.

(** Steps that leave the channels, the poller and the flags alone. *)
Lemma inv_ext s s' w :
  inv s w → channels s' = channels s → poller_ s' = poller_ s → phase s' = phase s →
  eventHandling_ s' = eventHandling_ s → callingPendingFunctors_ s' = callingPendingFunctors_ s →
  looping_ s' = looping_ s → activeChannels_ s' = activeChannels_ s →
  currentActiveChannel_ s' = currentActiveChannel_ s → inv s' w.
Proof.
  intros [Hr Hw Hwk Ha Hc Hl] E1 E2 E3 E4 E5 E6 E7 E8.
  split; unfold active_ok; rewrite ?E1, ?E2, ?E3, ?E4, ?E5, ?E6, ?E7, ?E8; done.
Qed.

Lemma channel_alive s w p : inv s w → is_registered w p → ∃ c, chan p (channels s) = Done c.
Proof.
  intros Hi [fd Hfd]. destruct (ok_registered _ (inv_watches _ _ Hi) _ _ Hfd) as (o & Ho & _).
  destruct (rep_object _ _ _ _ _ (inv_rep _ _ Hi) Ho) as (c & Hc & _). exists c. unfold chan. by rewrite Hc.
Qed.

(** The head of the channels to be handled. *)
Lemma dispatch_ok p rest s w :
  inv s w → phase s = Dispatching (p :: rest) →
  ∃ c, chan p (channels s) = Done c ∧
    inv (at_phase (if p =? wakeupChannel_ then Dispatching rest else Handling p rest)
           (set_active (eventHandling_ s) (activeChannels_ s) (Some p) s)) w.
Proof.
  intros Hi Hp. pose proof (inv_active _ _ Hi) as Ha. unfold active_ok in Ha. rewrite Hp in Ha.
  destruct Ha as (Hh & Hnd & handled & Hact & [Hreg1 Hreg]%Forall_cons).
  destruct (channel_alive s w p Hi Hreg1) as [c Hc]. exists c. split; [done|].
  destruct Hi as [Hr Hw Hwk _ Hc' Hl]. rewrite Hp in Hc', Hl. destruct (Z.eqb_spec p wakeupChannel_); split; try done.
  - split_and!; [done..|]. exists (handled ++ [p]). by rewrite <-app_assoc.
  - split_and!; [done..|]. by exists handled.
Qed.

Lemma poll_ok r l s w :
  inv s w → phase s = Polling → reports (poller_ s) r l →
  ∃ st x, poll_channels r (channels s) (poller_ s) = Done (st, x, l.*1) ∧
    inv (at_phase (Dispatching l.*1) (set_active true l.*1 (currentActiveChannel_ s) (set_poller st x s))) w ∧
    (∀ p e, (p, e) ∈ l → ∃ c, st !! p = Some c ∧ revents_ c = e).
Proof.
  intros [Hr Hw Hwk Ha Hc Hl] Hp Hrep. rewrite Hp in Hc, Hl. destruct (rep_poll _ _ _ _ _ Hr Hw Hrep) as (st & x & Hd & Hr' & Hrev).
  destruct (reports_registered _ _ _ _ _ Hr Hw Hrep) as [Hnd Hreg].
  exists st, x. split; [done|]. split; [|done]. split; try done. cbn. split_and!; [done..|]. exists [].
  split; [done|]. apply Forall_forall. intros q Hq. by apply Hreg.
Qed.

(** The steps of the loop that touch neither channels nor poller. *)
Lemma loop_step_ok r s w m :
  inv s w → (phase s = Polling → ∃ l, reports (poller_ s) r l) → loop_step r s = Some m →
  ∃ s' l, m = Done (s', l) ∧ inv s' w.
Proof.
  intros Hi Hrep Hs. pose proof Hi as [Hr Hw Hwk Ha Hc Hl]. unfold loop_step in Hs. unfold active_ok in Ha.
  destruct (phase s) as [| | |[|p rest]|p rest| |[|f rest]|rest] eqn:Ep.
  - done.
  - destruct (quit_ s); injection Hs as <-; (eexists _, _; split; [done|]; by split).
  - destruct (Hrep eq_refl) as [l Hl']. destruct (poll_ok r l s w Hi Ep Hl') as (st & x & Hd & Hi' & _).
    rewrite Hd, bind_ret_l in Hs. injection Hs as <-. eexists _, _. split; [done|exact Hi'].
  - injection Hs as <-. eexists _, _; split; [done|]; by split.
  - destruct (dispatch_ok p rest s w Hi Ep) as (c & Hc' & Hi'). rewrite Hc', bind_ret_l in Hs.
    cbv zeta in Hs. destruct (p =? wakeupChannel_); injection Hs as <-; eexists _, _; (split; [done|]); [|done].
    eapply inv_ext; [exact Hi'|by destruct (readable c)..].
  - injection Hs as <-. destruct Ha as (Hh & Hnd & Hcur & handled & Hact & Hreg). eexists _, _; split; [done|]; split; try done.
    split_and!; [done..|]. exists (handled ++ [p]). by rewrite <-app_assoc.
  - injection Hs as <-. eexists _, _; split; [done|]; by split.
  - injection Hs as <-. eexists _, _; split; [done|]; by split.
  - injection Hs as <-. eexists _, _; split; [done|]; by split.
  - injection Hs as <-. eexists _, _; split; [done|]; by split.
Qed.

Lemma perform_ok thread a s w w' :
  inv s w → may (Do thread a) s w w' → (thread = threadId_ → in_user_code s = true) →
  ∃ s', perform thread a s = Done s' ∧ inv s' w'.
Proof.
  intros Hi Hm Hu. destruct a as [| |f|f|o]; cbn in Hm.
  - destruct Hm as (-> & -> & Hp). destruct Hi as [Hr Hw Hwk Ha Hc Hl]. rewrite Hp in Hc, Hl.
    unfold active_ok in Ha. rewrite Hp in Ha. unfold perform, loop. rewrite Hl, cassert_bind by done.
    unfold assertInLoopThread, isInLoopThread. rewrite bool_decide_eq_true_2 by done.
    eexists. split; [done|]. by split.
  - subst w'. eexists. split; [done|]. unfold quit. by destruct (negb _); eapply inv_ext.
  - subst w'. eexists. split; [done|]. unfold queueInLoop. by destruct (_ || _); eapply inv_ext.
  - subst w'. eexists. split; [done|]. unfold queueInLoop. destruct (isInLoopThread thread); [done|].
    by destruct (_ || _); eapply inv_ext.
  - destruct Hm as (-> & Hown & Ho). destruct (channel_op_done o s w w' Hi Ho Hown) as (st & x & Hd & Hr & Hw).
    exists (set_poller st x s). split; [done|]. pose proof (inv_wakeup _ _ Hi) as [Hwk1 Hwk2].
    destruct (allowed_other o w w' wakeupChannel_ _ _ Ho (own_not_wakeup o s w w' Hi Ho Hown) Hwk1 Hwk2).
    pose proof (channel_op_active o s w w' Hi Ho Hown (inv_active _ _ Hi) (Hu eq_refl)).
    destruct Hi. by split.
Qed.

Lemma step_ok e s w w' m :
  inv s w → may e s w w' → step e s = Some m → ∃ s' l, m = Done (s', l) ∧ inv s' w'.
Proof.
  intros Hi Hm Hs. destruct e as [r|thread a|thread]; cbn in Hs.
  - destruct (bool_decide _); [done|]. destruct Hm as [-> Hm]. eauto using loop_step_ok.
  - destruct (bool_decide (thread ∈ waking s) || _) eqn:E; [done|]. apply orb_false_iff in E as [_ E].
    destruct (perform_ok thread a s w w' Hi Hm) as (s' & Hd & Hi').
    { intros ->. unfold isInLoopThread in E. rewrite bool_decide_eq_true_2 in E by done. by destruct (in_user_code s). }
    rewrite Hd in Hs. injection Hs as <-. by exists s', [].
  - destruct (bool_decide _); [|done]. injection Hs as <-. cbn in Hm. subst w'. eexists _, _. split; [done|].
    unfold wakeup. by destruct (_ <=? _); eapply inv_ext.
Qed.

(** ** Construction and destruction *)

Record layout_ok : Prop := mkLayout {
  distinct_channels : wakeupChannel_ ≠ timerfdChannel_;
  distinct_fds : wakeupFd_ ≠ timerfd_;
  fds_open : 0 ≤ wakeupFd_ ∧ 0 ≤ timerfd_
}.

(** A channel is created and enabled for reading. *)
Lemma register_ok p fd st x w :
  rep st x w → watches_ok w → objects w !! p = None → 0 ≤ fd → registered w !! fd = None →
  let o := mkObj fd 0 false in
  ∃ st' x', update_channel p (<[p := set_events Channel.kReadEvent (new_channel fd)]> st) x = Done (st', x') ∧
    rep st' x' (watch p o Channel.kReadEvent (create p fd w)) ∧ watches_ok (watch p o Channel.kReadEvent (create p fd w)).
Proof.
  intros Hr Hw Hp Hfd Hnr o.
  assert (Hu : can_update p o Channel.kReadEvent (create p fd w)).
  { split; [apply lookup_insert_eq|]. split_and!; [done|done|done|by left]. }
  pose proof (ok_create p fd w Hw (conj Hp Hfd)) as Hw1.
  pose proof (rep_create _ _ _ p fd Hr Hw (conj Hp Hfd)) as Hr1.
  destruct (rep_update _ _ _ _ _ _ Hr1 Hw1 Hu) as (c & st' & x' & Hc & Hd & Hr').
  rewrite lookup_insert_eq in Hc. injection Hc as <-. rewrite insert_insert_eq in Hd.
  exists st', x'. split_and!; [done..|]. by apply ok_watch.
Qed.

Lemma make_ok : layout_ok →
  ∃ st x, make = Done (mk Outside false false false false [] None [] 0 ∅ st x) ∧
    inv (mk Outside false false false false [] None [] 0 ∅ st x) first_watches.
Proof.
  intros [Hc Hf [Hw0 Ht0]].
  destruct (register_ok timerfdChannel_ timerfd_ ∅ new_poller _ rep_new watches_ok_empty) as (st & x & Hd & Hr & Hw);
    [done..|].
  destruct (register_ok wakeupChannel_ wakeupFd_ st x _ Hr Hw) as (st' & x' & Hd' & Hr' & Hw').
  { cbn. by rewrite !lookup_insert_ne. }
  { done. }
  { cbn. by rewrite lookup_insert_ne. }
  exists st', x'. unfold make. cbn [fst snd]. rewrite Hd, bind_ret_l. cbn [fst snd]. rewrite Hd', bind_ret_l.
  split; [done|]. unfold watch, create in Hr', Hw'. cbn in Hr', Hw'. rewrite !insert_insert_eq in Hr', Hw'.
  split; try done. split; apply lookup_insert_eq.
Qed.

(** The destructor, outside [loop()], completes and leaves the other watches. *)
Lemma dtor_ok s w :
  inv s w → phase s = Outside →
  ∃ s', dtor threadId_ s = Done s' ∧
    rep (channels s') (poller_ s') (unwatch wakeupChannel_ (mkObj wakeupFd_ 0 false)
      (watch wakeupChannel_ (mkObj wakeupFd_ Channel.kReadEvent false) 0 w)).
Proof.
  intros Hi Hp. destruct (inv_wakeup _ _ Hi) as [Ho Hreg]. pose proof (inv_active _ _ Hi) as Ha.
  unfold active_ok in Ha. rewrite Hp in Ha. destruct Hi as [Hr Hw _ _ _ _].
  assert (Hu : can_update wakeupChannel_ (mkObj wakeupFd_ Channel.kReadEvent false) 0 w).
  { split_and!; [done|done|lia|lia|right; split; [done|by right]]. }
  destruct (rep_update _ _ _ _ _ _ Hr Hw Hu) as (c & st & x & Hc & Hd & Hr1).
  pose proof (ok_watch _ _ _ _ Hw Hu) as Hw1.
  assert (Hm : can_remove wakeupChannel_ (mkObj wakeupFd_ 0 false)
                 (watch wakeupChannel_ (mkObj wakeupFd_ Channel.kReadEvent false) 0 w)).
  { split_and!; [apply lookup_insert_eq|apply lookup_insert_eq|done]. }
  destruct (rep_remove _ _ _ _ _ Hr1 Hw1 Hm) as (st' & x' & Hd' & Hr').
  unfold dtor, Channel.kNoneEvent, updateChannel, removeChannel, assertInLoopThread, isInLoopThread.
  rewrite !bool_decide_eq_true_2, !bind_ret_l by done. rewrite (chan_ok _ _ _ Hc), bind_ret_l.
  rewrite Hd, !bind_ret_l. cbn [eventHandling_ set_poller channels poller_]. rewrite Ha, bind_ret_l, Hd', bind_ret_l.
  eexists. split; [done|]. exact Hr'.
Qed.

Lemma loop_steps_inv ok s0 w0 es s w l :
  inv s0 w0 → steps ok s0 w0 es s w l → inv s w.
Proof.
  intros Hi. induction 1 as [|es s w l e s' w' l' _ IH Hm _ Hs]; [done|].
  destruct (step_ok _ _ _ _ _ IH Hm Hs) as (s2 & l2 & [= <- <-] & H2). done.
Qed.

(** ** The queue of functors *)







(** ** No wake-up is lost *)









(** ** Every queued functor runs *)





















(** C6. An event loop never faults, whatever poller it has: it can be
    constructed, after any interleaving of steps of its thread and of other
    threads every further step a program may take completes (no assertion of
    the loop, of a channel's destructor or of the poller fails, no destroyed
    channel is used, no member is called in the wrong thread), and outside
    [loop()] it can be destroyed. *)
Theorem event_loop_never_faults :
  layout_ok →
  ∃ s0, make = Done s0 ∧
    ∀ es s w l, steps any s0 first_watches es s w l →
      (∀ e w' m, may e s w w' → step e s = Some m → ∃ s' l', m = Done (s', l')) ∧
      (phase s = Outside → ∃ s', dtor threadId_ s = Done s').
Proof.
  intros Hlay. destruct (make_ok Hlay) as (st & x & Hm & Hi). eexists. split; [exact Hm|].
  intros es s w l Hst. pose proof (loop_steps_inv _ _ _ _ _ _ _ Hi Hst) as His. split.
  - intros e w' m Hmay Hs. destruct (step_ok _ _ _ _ _ His Hmay Hs) as (s' & l' & -> & _). eauto.
  - intros Ho. destruct (dtor_ok s w His Ho) as (s' & Hd & _). eauto.
Qed.


End loop.
Arguments action : clear implicits.
Arguments event : clear implicits.

(** * Examples *)

(** A loop of thread 1 over the poll implementation; its eventfd is 4. *)
Module Sample.
Notation poller := PollPoller.t.
Definition loop0 : outcome (t (F := Z) (P := poller)) := make 4 40 3 30.
Definition sample_run (es : list (event Z poller _)) : option (phase_t Z * bool * list Z * Z * gset Z * list Z) :=
  match loop0 with
  | Done s =>
      match run 1 40 es s with
      | Some (Done (s, l)) => Some (phase s, quit_ s, pendingFunctors_ s, counter s, waking s, l)
      | _ => None
      end
  | Fault _ => None
  end.

Notation ev := (event Z poller _).
Definition go : ev := Advance None.                 (* no event, or not a poll *)
Definition do (thread : Z) (a : action Z) : ev := Do thread a.
Definition wake (thread : Z) : ev := Wake thread.
(** The kernel reports the second entry, the eventfd. *)
Definition eventfd_ready : ev := Advance (Some [0; 1]).

(** A functor queued by another thread while the loop polls is called. *)
Definition queued : list ev := [do 1 Loop; go; do 2 (QueueInLoop 7); wake 2].
Example queued_is_pending : sample_run queued = Some (Polling, false, [7], 1, ∅, []).
Proof. vm_compute. reflexivity. Qed.
Example queued_is_called :
  sample_run (queued ++ [eventfd_ready; go; go; go; go]) = Some (InFunctor [], false, [], 0, ∅, [7]).
Proof. vm_compute. reflexivity. Qed.

(** A functor that the thread of the loop queues before [loop()] is pending
    while the loop polls, and nothing wakes it up before [kPollTimeMs]. *)
Lemma early_functor_waits :
  sample_run [do 1 (QueueInLoop 7); do 1 Loop; go] = Some (Polling, false, [7], 0, ∅, []).
Proof. vm_compute. reflexivity. Qed.

(** A thread that asks the loop to quit before [loop()] starts is not heard. *)
Lemma early_quit_lost :
  sample_run [do 2 Quit; wake 2; do 1 Loop; go; eventfd_ready; go; go; go; go; go]
    = Some (Polling, false, [], 0, ∅, []).
Proof. vm_compute. reflexivity. Qed.

(** A functor queued by a functor of the last round stays in the queue. *)
Lemma last_functors_not_called :
  sample_run (queued ++ [eventfd_ready; go; go; go; go; do 1 (QueueInLoop 8); wake 1; do 1 Quit; go; go; go])
    = Some (Outside, true, [8], 1, ∅, [7]).
Proof. vm_compute. reflexivity. Qed.

Lemma layout : layout_ok 4 40 3 30.
Proof. by split. Qed.

(** The state after [queued]. *)
Definition after_queued (s : t (F := Z) (P := poller)) : t :=
  mk Polling true false false false [] None [7] 1 ∅ (channels s) (poller_ s).

Theorem event_loop_never_faults_witness :
  layout_ok 4 40 3 30 ∧
  ∃ s0, loop0 = Done s0 ∧
    ∀ es s w l, steps 1 40 any s0 (first_watches 4 40 3 30) es s w l →
      (∀ e w' m, may 1 40 e s w w' → step 1 40 e s = Some m → ∃ s' l', m = Done (s', l')) ∧
      (phase s = Outside → ∃ s', dtor 1 40 1 s = Done s').
Proof. split; [exact layout|]. exact (event_loop_never_faults 1 4 40 3 30 layout). Defined.


End Sample.
End EventLoop.
