(* ===== verification/Server.v ===== *)
(** The server: muduo's [TcpServer] (muduo/net/TcpServer.cc) with the session
    map of [IMServer] (IMServer.cpp) as its connection callback and
    [ClientSession::onRead] as the message callback of its connections.

    Connections are objects shared by [connections_], the callbacks and the
    queued functors; they live in a store, indexed by the number the server
    gives them.  A [ClientSession] renames the connection it is made for, which
    the model does to the shared object as the code does. *)

From S2P Require Import Prelude StdMap CDouble Buffer TcpConnection Mysql.
From S2P Require Import MysqlBusiness UserManager ClientSession.
Local Open Scope Z_scope.

Module Server.
Section server.
Context {D Q : Type} `{Database D Q}.

(** A connection and the session its message callback is bound to. *)
Record conn := mkConn { tcp : TcpConnection.t; session : option ClientSession.t }.

Record t := mk {
  name_ : bytes;
  ipPort_ : bytes;
  started_ : Z;
  listening_ : bool;
  nextConnId_ : Z;
  connections_ : list (bytes * Z);
  objects : gmap Z conn;
  _mapClientSession : list (bytes * Z);
  pendingFunctors_ : list Z;
  users : UserManager.t;
  db : D
}.

Definition set_objects (o : gmap Z conn) (s : t) : t :=
  mk (name_ s) (ipPort_ s) (started_ s) (listening_ s) (nextConnId_ s) (connections_ s) o
    (_mapClientSession s) (pendingFunctors_ s) (users s) (db s).
Definition set_connections (c : list (bytes * Z)) (s : t) : t :=
  mk (name_ s) (ipPort_ s) (started_ s) (listening_ s) (nextConnId_ s) c (objects s)
    (_mapClientSession s) (pendingFunctors_ s) (users s) (db s).
Definition set_sessions (m : list (bytes * Z)) (s : t) : t :=
  mk (name_ s) (ipPort_ s) (started_ s) (listening_ s) (nextConnId_ s) (connections_ s)
    (objects s) m (pendingFunctors_ s) (users s) (db s).
Definition set_pending (p : list Z) (s : t) : t :=
  mk (name_ s) (ipPort_ s) (started_ s) (listening_ s) (nextConnId_ s) (connections_ s)
    (objects s) (_mapClientSession s) p (users s) (db s).
Definition set_backend (u : UserManager.t) (d : D) (s : t) : t :=
  mk (name_ s) (ipPort_ s) (started_ s) (listening_ s) (nextConnId_ s) (connections_ s)
    (objects s) (_mapClientSession s) (pendingFunctors_ s) u d.

(** [TcpServer( loop, listenAddr, nameArg, option )] *)
Definition make (nameArg ipPort : bytes) (u : UserManager.t) (d : D) : t :=
  mk nameArg ipPort 0 false 1 [] ∅ [] [] u d.

(** [start()]: the first call listens. *)
Definition start (s : t) : outcome t :=
  let once := started_ s =? 0 in
  let s := mk (name_ s) (ipPort_ s) 1 (listening_ s) (nextConnId_ s) (connections_ s)
             (objects s) (_mapClientSession s) (pendingFunctors_ s) (users s) (db s) in
  if once then
    _ ← cassert (negb (listening_ s)) "!acceptor_->listening()";
    Done (mk (name_ s) (ipPort_ s) (started_ s) true (nextConnId_ s) (connections_ s)
            (objects s) (_mapClientSession s) (pendingFunctors_ s) (users s) (db s))
  else Done s.

(** [IMServer::init( ip, port, loop )] once the address is resolved. *)
Definition IMServer_init (ipPort : bytes) (u : UserManager.t) (d : D) : outcome (bool * t) :=
  s ← start (make (bs "IMServer") ipPort u d); Done (true, s).

(** The object behind a pointer. *)
Definition object (c : Z) (s : t) : outcome conn :=
  match objects s !! c with
  | Some x => Done x
  | None => Fault (Undefined "TcpConnection: dangling")
  end.
Definition store (c : Z) (x : conn) (s : t) : t := set_objects (<[c := x]> (objects s)) s.

(** [IMServer::OnClose] *)
Definition OnClose (c : Z) (s : t) : outcome t :=
  x ← object c s;
  let name := TcpConnection.name_ (tcp x) in
  match StdMap.find name (_mapClientSession s) with
  | Some _ => Done (set_sessions (StdMap.erase name (_mapClientSession s)).1 s)
  | None => Done s
  end.

(** [IMServer::OnConnection]; [uuid] is what the session draws. *)
Definition OnConnection (uuid : bytes) (c : Z) (s : t) : outcome t :=
  x ← object c s;
  if TcpConnection.connected (tcp x) then
    let client := ClientSession.make uuid in
    let x := mkConn (TcpConnection.set_name (ClientSession._sessionId client) (tcp x))
                    (Some client) in
    let s := store c x s in
    Done (set_sessions
      (StdMap.insert (ClientSession.to_string client) c (_mapClientSession s)) s)
  else OnClose c s.

(** [removeConnectionInLoop]: [connectDestroyed] is queued. *)
Definition removeConnectionInLoop (c : Z) (s : t) : outcome t :=
  x ← object c s;
  let '(m, n) := StdMap.erase (TcpConnection.name_ (tcp x)) (connections_ s) in
  let s := set_connections m s in
  _ ← cassert (n =? 1)%nat "n == 1";
  Done (set_pending (pendingFunctors_ s ++ [c]) s).
(** [removeConnection]: the one loop runs it at once. *)
Definition removeConnection (c : Z) (s : t) : outcome t := removeConnectionInLoop c s.

(** The sends of a handler reach [TcpConnection::send] in order, each with the
    result of its [write]. *)
Fixpoint send_all (outs : list bytes) (writes : list write_result) (x : TcpConnection.t) :
    outcome TcpConnection.t :=
  match outs with
  | [] => Done x
  | out :: outs =>
      '(x, _) ← TcpConnection.send out (default (Wrote 0) (head writes)) x;
      send_all outs (tail writes) x
  end.

(** The message callback: [onRead] of the session it is bound to, or
    [defaultMessageCallback]. *)
Definition on_message (c : Z) (writes : list write_result) (s : t) : outcome t :=
  x ← object c s;
  match session x with
  | None =>
      let x := mkConn (TcpConnection.set_input
                         (Buffer.retrieveAll (TcpConnection.inputBuffer_ (tcp x))) (tcp x)) None in
      Done (store c x s)
  | Some client =>
      let e := ClientSession.mkEnv (users s) (db s) [] in
      r ← ClientSession.onRead true (TcpConnection.inputBuffer_ (tcp x)) client e;
      let '(buf, (client, e)) := (r : Buffer.t * (ClientSession.t * ClientSession.env D)) in
      tcp' ← send_all (ClientSession.sent e) writes (TcpConnection.set_input buf (tcp x));
      Done (set_backend (ClientSession.users e) (ClientSession.db e)
              (store c (mkConn tcp' (Some client)) s))
  end.

(** Runs the callbacks an operation of connection [c] asked for. *)
Definition run_call (uuid : bytes) (writes : list write_result) (c : Z) (k : call) (s : t) :
    outcome t :=
  match k with
  | ConnectionCallback => OnConnection uuid c s
  | MessageCallback => on_message c writes s
  | CloseCallback => removeConnection c s
  | QueueWriteComplete | QueueHighWaterMark _ | QueueForceClose | TimerForceClose => Done s
  end.
Fixpoint run_calls (uuid : bytes) (writes : list write_result) (c : Z) (ks : list call) (s : t) :
    outcome t :=
  match ks with
  | [] => Done s
  | k :: ks => s ← run_call uuid writes c k s; run_calls uuid writes c ks s
  end.

(** [newConnection]: [snprintf] into 64 bytes keeps 63 characters. *)
Definition connName (s : t) : bytes :=
  name_ s ++ take 63 (bs "-" ++ ipPort_ s ++ bs "#" ++ signed_decimal (nextConnId_ s)).
Definition newConnection (uuid : bytes) (s : t) : outcome t :=
  let c := nextConnId_ s in
  let name := connName s in
  _ ← defined_if (c <? INT_MAX) "++nextConnId_";
  let s := mk (name_ s) (ipPort_ s) (started_ s) (listening_ s) (nextConnId_ s + 1)
             (StdMap.assign name c (connections_ s)) (objects s)
             (_mapClientSession s) (pendingFunctors_ s) (users s) (db s) in
  '(x, calls) ← TcpConnection.connectEstablished (TcpConnection.make name);
  run_calls uuid [] c calls (store c (mkConn x None) s).

(** An event of connection [c] in the loop: an operation of the connection,
    then the callbacks. *)
Definition event (uuid : bytes) (writes : list write_result) (c : Z) (o : TcpConnection.op) (s : t) :
    outcome t :=
  x ← object c s;
  '(x', calls) ← TcpConnection.run_op o (tcp x);
  run_calls uuid writes c calls (store c (mkConn x' (session x)) s).

(** [connectDestroyed] of connection [c], after which the last reference to it
    goes. *)
Definition destroy (uuid : bytes) (c : Z) (s : t) : outcome t :=
  x ← object c s;
  '(x', calls) ← TcpConnection.connectDestroyed (tcp x);
  s ← run_calls uuid [] c calls (store c (mkConn x' (session x)) s);
  x ← object c s;
  _ ← TcpConnection.dtor (tcp x);
  Done (set_objects (delete c (objects s)) s).

(** One functor of [doPendingFunctors]. *)
Definition run_pending (uuid : bytes) (s : t) : outcome t :=
  match pendingFunctors_ s with
  | [] => Done s
  | c :: rest => destroy uuid c (set_pending rest s)
  end.

(** [~TcpServer()] over [connections_]. *)
Fixpoint dtor_loop (uuid : bytes) (l : list (bytes * Z)) (s : t) : outcome t :=
  match l with
  | [] => Done s
  | (_, c) :: l => s ← destroy uuid c s; dtor_loop uuid l s
  end.
Definition dtor (uuid : bytes) (s : t) : outcome t := dtor_loop uuid (connections_ s) s.

(** What happens to the server. *)
Inductive input :=
  | Accept (uuid : bytes)
  | Event (uuid : bytes) (writes : list write_result) (c : Z) (o : TcpConnection.op)
  | Functor (uuid : bytes).
Definition handle (i : input) (s : t) : outcome t :=
  match i with
  | Accept uuid => newConnection uuid s
  | Event uuid writes c o => event uuid writes c o s
  | Functor uuid => run_pending uuid s
  end.
Fixpoint handle_all (l : list input) (s : t) : outcome t :=
  match l with
  | [] => Done s
  | i :: l => s ← handle i s; handle_all l s
  end.
End server.
Arguments t : clear implicits.
End Server.

(** * Lemmas *)
Import Server.

Section invariant.
Context {D Q : Type} `{Database D Q}.
Implicit Types s : Server.t D.

(** What distinguishes the names the server gives from those a session gives. *)
Definition server_name s (n : bytes) : Prop := (name_ s ++ bs "-") `prefix_of` n.

(** [connections_] has only names of the server as keys, while every connection
    object is up and named after a session; nothing is queued. *)
Record renamed s : Prop := mkRenamed {
  renamed_keys : Forall (λ p, server_name s p.1) (connections_ s);
  renamed_objects c x : objects s !! c = Some x →
    is_up (tcp x) ∧ ¬ server_name s (TcpConnection.name_ (tcp x));
  renamed_pending : pendingFunctors_ s = []
}.

(** No connection object goes away from [s] to [s']. *)
Record extends s s' : Prop := mkExtends {
  extends_name : name_ s' = name_ s;
  extends_next : nextConnId_ s' = nextConnId_ s;
  extends_renamed : renamed s';
  extends_objects c : is_Some (objects s !! c) → is_Some (objects s' !! c)
}.

Lemma extends_refl s : renamed s → extends s s.
Proof. by split. Qed.
Lemma extends_trans s1 s2 s3 : extends s1 s2 → extends s2 s3 → extends s1 s3.
Proof. intros [? ? ? ?] [? ? ? ?]. split; [congruence..|done|auto]. Qed.

Lemma extends_store c x s :
  renamed s → is_up (tcp x) → ¬ server_name s (TcpConnection.name_ (tcp x)) →
  extends s (store c x s).
Proof.
  intros [Hk Ho Hp] Hu Hn. split; [done|done| |].
  - split; [done| |done]. cbn. intros c' x' [[<- <-]|[_ ?]]%lookup_insert_Some; eauto.
  - intros c' [x' Hx]. cbn. destruct (decide (c' = c)) as [->|Hc].
    + rewrite lookup_insert_eq. eauto.
    + rewrite lookup_insert_ne by done. eauto.
Qed.

Lemma object_done c s x : object c s = Done x → objects s !! c = Some x.
Proof. unfold object. case_match; congruence. Qed.

Lemma send_all_kept outs writes x x' :
  send_all outs writes x = Done x' →
  TcpConnection.name_ x' = TcpConnection.name_ x ∧ (is_up x → is_up x').
Proof.
  revert writes x. induction outs as [|out outs IH]; intros writes x Hd; cbn in Hd.
  - by injection Hd as <-.
  - destruct_done Hd. destruct a as [x1 ks]. apply send_kept in E as [Hn Hu _].
    destruct (IH _ _ Hd) as [Hn' Hu']. split; [congruence|auto].
Qed.

Lemma on_message_extends c writes s s' :
  renamed s → on_message c writes s = Done s' → extends s s'.
Proof.
  intros Hr Hd. unfold on_message in Hd. destruct_done Hd.
  apply object_done, (renamed_objects _ Hr) in E as [Hu Hn].
  destruct (session a) as [client|]; [|injection Hd as <-; by apply extends_store].
  destruct_done Hd. destruct a0 as [buf [client' e]]. destruct_done Hd.
  injection Hd as <-. apply send_all_kept in E0 as [Hn' Hu'].
  destruct (extends_store c (mkConn a0 (Some client')) s Hr) as [? ? [] ?];
    [by apply Hu'|by cbn; rewrite Hn'|]. by split.
Qed.

Lemma run_calls_extends uuid writes c ks s s' :
  renamed s → ConnectionCallback ∉ ks → CloseCallback ∉ ks →
  run_calls uuid writes c ks s = Done s' → extends s s'.
Proof.
  revert s. induction ks as [|k ks IH]; intros s Hr H1 H2 Hd; cbn in Hd.
  - injection Hd as <-. by apply extends_refl.
  - destruct_done Hd. assert (extends s a).
    { destruct k; cbn in E; try (injection E as <-; by apply extends_refl); [set_solver| |set_solver].
      by eapply on_message_extends. }
    eapply extends_trans; [done|]. eapply IH; [by eapply extends_renamed|set_solver..|done].
Qed.

(** The disconnect of a renamed connection ends in the failed assertion. *)
Lemma close_aborts uuid writes c x s :
  renamed s → TcpConnection.state_ (tcp x) = kDisconnected →
  ¬ server_name s (TcpConnection.name_ (tcp x)) →
  run_calls uuid writes c [ConnectionCallback; CloseCallback] (store c x s) =
    Fault (AssertFailed "n == 1").
Proof.
  intros Hr Hs Hn. cbn [run_calls run_call]. unfold OnConnection, OnClose, object.
  change (objects (store c x s)) with (<[c := x]> (objects s)).
  rewrite lookup_insert_eq, !bind_ret_l. unfold TcpConnection.connected.
  rewrite bool_decide_false by by rewrite Hs. cbn match.
  assert (Hrm : ∀ s1, connections_ s1 = connections_ s → objects s1 = <[c := x]> (objects s) →
    removeConnection c s1 = Fault (AssertFailed "n == 1")).
  { intros s1 Hc Ho. unfold removeConnection, removeConnectionInLoop, object.
    rewrite Ho, lookup_insert_eq, bind_ret_l, Hc.
    pose proof (StdMap.erase_count (TcpConnection.name_ (tcp x)) (connections_ s)) as He.
    rewrite (StdMap.find_not_key (server_name s)) in He by (done || apply Hr).
    destruct (StdMap.erase _ _) as [m n]. cbn in He. by rewrite He. }
  case_match; rewrite bind_ret_l, Hrm; done.
Qed.

Lemma event_extends uuid writes c o s s' :
  renamed s → loop_op o = true → event uuid writes c o s = Done s' → extends s s'.
Proof.
  intros Hr Ho Hd. unfold event in Hd. destruct_done Hd. destruct a0 as [x' calls].
  apply object_done in E. destruct (renamed_objects _ Hr _ _ E) as [Hu Hn].
  destruct (run_op_kept_or_closed _ _ _ _ Ho E0) as [[Hn' Hu' [H1 H2]]|(Hn' & -> & Hs)].
  - assert (Hx : extends s (store c (mkConn x' (session a)) s))
      by (apply extends_store; cbn; [done|auto|by rewrite Hn']).
    eapply extends_trans; [done|]. by eapply run_calls_extends; [by eapply extends_renamed|..].
  - rewrite close_aborts in Hd; [done|done|done|cbn; by rewrite Hn'].
Qed.

(** A new connection: the session draws [uuid], which becomes the name of the
    connection, and the session is entered in the map. *)
Lemma newConnection_eq uuid s :
  nextConnId_ s < INT_MAX →
  ∃ x, newConnection uuid s =
    Done (mk (name_ s) (ipPort_ s) (started_ s) (listening_ s) (nextConnId_ s + 1)
            (StdMap.assign (connName s) (nextConnId_ s) (connections_ s))
            (<[nextConnId_ s := x]> (objects s))
            (StdMap.insert uuid (nextConnId_ s) (_mapClientSession s))
            (pendingFunctors_ s) (users s) (db s)) ∧
    TcpConnection.name_ (tcp x) = uuid ∧ TcpConnection.state_ (tcp x) = kConnected ∧
    session x = Some (ClientSession.make uuid) ∧ inv (tcp x).
Proof.
  intros Hn. unfold newConnection. rewrite (proj2 (Z.ltb_lt _ _)) by done.
  cbn [defined_if]. rewrite bind_ret_l.
  destruct (connectEstablished_ok (TcpConnection.make (connName s))) as (x & calls & He & Hok);
    [apply inv_make|done|].
  pose proof He as He'. cbn in He'. injection He' as <- <-. rewrite He, bind_ret_l.
  set (y := TcpConnection.set_channel _ _) in *.
  exists (mkConn (TcpConnection.set_name uuid y) (Some (ClientSession.make uuid))).
  split_and!; [|done|done|done|destruct Hok as [[] _ _ _ _]; by split].
  cbn [run_calls run_call]. unfold OnConnection, object.
  change (objects (store _ _ _)) with (<[nextConnId_ s := mkConn y None]> (objects s)).
  rewrite lookup_insert_eq, bind_ret_l. unfold TcpConnection.connected.
  rewrite bool_decide_true by done. rewrite bind_ret_l.
  unfold store, set_sessions, set_objects; cbn. by rewrite insert_insert_eq.
Qed.

Lemma connName_server s : server_name s (connName s).
Proof.
  unfold server_name, connName. apply prefix_app. exists (take 62 (ipPort_ s ++ bs "#" ++ signed_decimal (nextConnId_ s))).
  done.
Qed.

Definition input_ok s (i : input) : Prop :=
  match i with
  | Accept uuid | Functor uuid => ¬ server_name s uuid
  | Event uuid _ _ o => ¬ server_name s uuid ∧ loop_op o = true
  end.
Definition accepts (l : list input) : nat :=
  sum_list_with (λ i, match i with Accept _ => 1 | _ => 0 end)%nat l.

(** Connections are numbered from 1, and all are still there. *)
Definition all_alive s (n : nat) : Prop :=
  renamed s ∧ nextConnId_ s = 1 + Z.of_nat n ∧
  ∀ c : Z, 1 ≤ c ≤ Z.of_nat n → is_Some (objects s !! c).

Lemma handle_alive i s s' n :
  all_alive s n → input_ok s i → handle i s = Done s' →
  name_ s' = name_ s ∧ all_alive s' (n + accepts [i]).
Proof.
  intros (Hr & Hn & Ha) Hi Hd. destruct i as [uuid|uuid writes c o|uuid]; cbn in Hi, Hd.
  - assert (Hlt : nextConnId_ s < INT_MAX).
    { unfold newConnection in Hd. destruct_done Hd. destruct a.
      by apply defined_if_true, Z.ltb_lt in E. }
    destruct (newConnection_eq uuid s Hlt) as (x & Hx & Hnx & Hsx & _).
    rewrite Hx in Hd. injection Hd as <-. split; [done|]. split_and!.
    + destruct Hr as [Hk Ho Hp]. split; [| |done]; cbn.
      * apply (StdMap.Forall_assign (λ p, server_name s p.1)); [apply connName_server|done|done].
      * intros c y [[<- <-]|[_ ?]]%lookup_insert_Some; [|eauto]. split; [by left|].
        unfold server_name. cbn. by rewrite Hnx.
    + cbn. rewrite Hn. lia.
    + cbn. intros c Hc. rewrite Hn. destruct (decide (c = 1 + Z.of_nat n)) as [->|].
      * rewrite lookup_insert_eq. eauto.
      * rewrite lookup_insert_ne by done. apply Ha. lia.
  - destruct Hi as [_ Ho]. destruct (event_extends _ _ _ _ _ _ Hr Ho Hd) as [H1 H2 H3 H4].
    split; [done|]. cbn. rewrite Nat.add_0_r. split_and!; [done|lia|auto].
  - unfold run_pending in Hd. rewrite (renamed_pending _ Hr) in Hd. injection Hd as <-.
    split; [done|]. cbn. by rewrite Nat.add_0_r.
Qed.

Lemma handle_all_alive l s s' n :
  all_alive s n → Forall (input_ok s) l → handle_all l s = Done s' →
  name_ s' = name_ s ∧ all_alive s' (n + accepts l).
Proof.
  revert s n. induction l as [|i l IH]; intros s n Ha Hl Hd; cbn in Hd.
  - injection Hd as <-. by rewrite Nat.add_0_r.
  - destruct_done Hd. inversion Hl as [|? ? Hi Hl']; subst.
    destruct (handle_alive _ _ _ _ Ha Hi E) as [Hn Ha'].
    destruct (IH a (n + accepts [i])%nat Ha') as [Hn' Ha'']; [|done|].
    { eapply Forall_impl; [exact Hl'|]. intros []; cbn; unfold server_name; by rewrite Hn. }
    split; [congruence|]. replace (n + accepts (i :: l))%nat with (n + accepts [i] + accepts l)%nat; [done|].
    unfold accepts. destruct i; cbn; lia.
Qed.
End invariant.

(** * Properties *)

(** A new connection is established and renamed to the identifier its
    session draws; the session is found under it and every other session stays
    under its own. *)
Theorem newConnection_registers {D Q} `{Database D Q} uuid (s : Server.t D) :
  nextConnId_ s < INT_MAX → StdMap.find uuid (_mapClientSession s) = None →
  ∃ s' x, newConnection uuid s = Done s' ∧
    objects s' !! nextConnId_ s = Some x ∧ nextConnId_ s' = nextConnId_ s + 1 ∧
    TcpConnection.name_ (tcp x) = uuid ∧ TcpConnection.state_ (tcp x) = kConnected ∧
    session x = Some (ClientSession.make uuid) ∧
    StdMap.find uuid (_mapClientSession s') = Some (nextConnId_ s) ∧
    (∀ k, k ≠ uuid → StdMap.find k (_mapClientSession s') = StdMap.find k (_mapClientSession s)) ∧
    (∀ c, c ≠ nextConnId_ s → objects s' !! c = objects s !! c).
Proof.
  intros Hn Hf. destruct (newConnection_eq uuid s Hn) as (x & He & Hx & Hs & Hse & _).
  eexists _, x. split; [exact He|]. cbn.
  rewrite lookup_insert_eq. split_and!; try done.
  - unfold StdMap.insert. rewrite Hf. apply StdMap.find_assign_eq.
  - intros k Hk. unfold StdMap.insert. rewrite Hf. by apply StdMap.find_assign_ne.
  - intros c Hc. by rewrite lookup_insert_ne.
Qed.

(** The uuids the witnesses use, and an initial server over the reference
    database. *)
Definition uuid1 : bytes := bs "d9428888-122b-11e1-b85c-61cd3cbb3210".
Definition uuid2 : bytes := bs "6fa459ea-ee8a-3ca4-894e-db77e160355e".
Definition server0 : Server.t MemDb :=
  mk (bs "IMServer") (bs "127.0.0.1:9527") 1 true 1 [] ∅ [] [] UserManager.make
    (mkMemDb true [] (λ _, None)).

Lemma newConnection_registers_witness :
  ∃ s' x, newConnection uuid1 server0 = Done s' ∧ objects s' !! 1 = Some x ∧
    TcpConnection.name_ (tcp x) = uuid1 ∧ StdMap.find uuid1 (_mapClientSession s') = Some 1.
Proof.
  destruct (newConnection_registers (D := MemDb) uuid1 server0 eq_refl eq_refl)
    as (s' & x & H1 & H2 & _ & H3 & _ & _ & H4 & _).
  exists s', x. done.
Defined.

Lemma init_all_alive {D Q} `{Database D Q} ipPort u (d : D) s0 :
  IMServer_init ipPort u d = Done (true, s0) → all_alive s0 0.
Proof.
  cbn. intros [= <-]. split_and!; [|done|lia].
  split; [constructor| |done]. intros c x. cbn. by rewrite lookup_empty.
Qed.

(** C21. The server cannot survive a disconnect.  As long as the identifiers
    drawn for the sessions do not look like names of the server, every
    connection accepted since the start is still up after any sequence of
    events that the server got through, and the first operation that closes a
    connection (the peer's end, an error, a forced close) fails the assertion
    [n == 1] of [removeConnectionInLoop], since the connection was renamed. *)
Theorem disconnect_aborts {D Q} `{Database D Q} ipPort u (d : D) s0 l s :
  IMServer_init ipPort u d = Done (true, s0) → Forall (input_ok s0) l → handle_all l s0 = Done s →
  (∀ c : Z, 1 ≤ c ≤ Z.of_nat (accepts l) → ∃ x, objects s !! c = Some x ∧ is_up (tcp x)) ∧
  (∀ uuid writes c x o x', objects s !! c = Some x →
     TcpConnection.run_op o (tcp x) = Done (x', [ConnectionCallback; CloseCallback]) →
     event uuid writes c o s = Fault (AssertFailed "n == 1")).
Proof.
  intros Hi Hl Hd. apply init_all_alive in Hi.
  destruct (handle_all_alive l s0 s 0 Hi Hl Hd) as [_ (Hr & _ & Ha)]. split.
  - intros c Hc. destruct (Ha c) as [x Hx]; [lia|]. exists x. split; [done|]. by eapply renamed_objects.
  - intros uuid writes c x o x' Hx Ho. destruct (renamed_objects _ Hr _ _ Hx) as [_ Hn].
    assert (Hlo : loop_op o = true).
    { destruct o; try done; cbn in Ho; unfold TcpConnection.connectEstablished,
        TcpConnection.connectDestroyed in Ho; destruct_done Ho; [done|].
      case_decide; destruct_done Ho; done. }
    unfold event, object. rewrite Hx, bind_ret_l, Ho, bind_ret_l.
    destruct (run_op_kept_or_closed _ _ _ _ Hlo Ho) as [[_ _ [Hno _]]|(Hn' & _ & Hs)]; [set_solver|].
    apply close_aborts; [done|done|]. cbn. by rewrite Hn'.
Qed.

(** Two clients connect, and the first one leaves. *)
Definition peer_end : TcpConnection.op := TcpConnection.Readable (Buffer.ReadBytes []).
Definition closes (c : Z) (s : outcome (Server.t MemDb)) : bool :=
  match s with
  | Done s =>
      match objects s !! c with
      | Some x => match TcpConnection.run_op peer_end (tcp x) with
                  | Done (_, calls) => bool_decide (calls = [ConnectionCallback; CloseCallback])
                  | Fault _ => false
                  end
      | None => false
      end
  | Fault _ => false
  end.

Lemma disconnect_aborts_witness :
  ∃ s, handle_all [Accept uuid1; Accept uuid2] server0 = Done s ∧
    handle (Event uuid1 [] 1 peer_end) s = Fault (AssertFailed "n == 1").
Proof.
  assert (Hc : closes 1 (handle_all [Accept uuid1; Accept uuid2] server0) = true)
    by (vm_compute; reflexivity).
  destruct (handle_all [Accept uuid1; Accept uuid2] server0) as [s|] eqn:E; [|discriminate Hc].
  exists s. split; [reflexivity|].
  destruct (disconnect_aborts (bs "127.0.0.1:9527") UserManager.make (mkMemDb true [] (λ _, None))
    server0 [Accept uuid1; Accept uuid2] s eq_refl) as [Hup Hclose].
  - repeat constructor; intros [k Hk]; discriminate Hk.
  - exact E.
  - cbn [closes] in Hc. destruct (objects s !! 1) as [x|] eqn:Hx; [|discriminate Hc].
    destruct (TcpConnection.run_op peer_end (tcp x)) as [[x' calls]|] eqn:Hr; [|discriminate Hc].
    apply bool_decide_eq_true in Hc as ->.
    exact (Hclose uuid1 [] 1 x peer_end x' Hx Hr).
Defined.
