(* ===== verification/Main.v ===== *)
(** The start of the process: main.cpp over the components it starts, and the
    singletons they live in (muduo/base/Singleton.h).

    The process is its signal handlers, its descriptors and its session; what
    [fork] and [open] do is an input.  [getopt] is modelled for the one option
    string the program gives it.  The database client is the class of Mysql.v. *)

From S2P Require Import Prelude Mysql MysqlBusiness UserManager Sockets Server.
Local Open Scope Z_scope.

(** * Singletons *)
Module Singleton.
Section Singleton.
Context {T : Type}.

(** [ponce_], [value_], and whether [destroy] is registered to run at exit. *)
Record t := mk { ponce_ : bool; value_ : option T; at_exit : bool }.
Definition make : t := mk false None false.

(** [init()] with the object of [new T()]; [has_no_destroy<T>::value]. *)
Definition init (no_destroy : bool) (x : T) (s : t) : t := mk (ponce_ s) (Some x) (negb no_destroy).
Definition instance (no_destroy : bool) (x : T) (s : t) : outcome (T * t) :=
  let s := if ponce_ s then s else init no_destroy x (mk true (value_ s) (at_exit s)) in
  match value_ s with
  | Some v => Done (v, s)
  | None => Fault (AssertFailed "value_ != NULL")
  end.
(** The object behind the reference is assigned. *)
Definition update (x : T) (s : t) : t := mk (ponce_ s) ((λ _, x) <$> value_ s) (at_exit s).
(** [destroy()], at exit. *)
Definition destroy (s : t) : t := if at_exit s then mk (ponce_ s) None (at_exit s) else s.

(** The first call makes the object, later ones find it as it was left, until
    [destroy] has run at exit: then the assertion fails. *)
Theorem singleton_one_object no_destroy x y l :
  ∃ s, instance no_destroy x make = Done (x, s) ∧
    let s' := foldl (λ s v, update v s) s l in
    instance no_destroy y s' = Done (default x (last l), s') ∧
    instance no_destroy y (destroy s') =
      if no_destroy then Done (default x (last l), s') else Fault (AssertFailed "value_ != NULL").
Proof.
  exists (mk true (Some x) (negb no_destroy)). split; [reflexivity|]. cbv zeta.
  assert (Hl : ∀ v, foldl (λ s v, update v s) (mk true (Some v) (negb no_destroy)) l =
    mk true (Some (default v (last l))) (negb no_destroy)).
  { induction l as [|w l IH]; intros v; [done|]. cbn [foldl]. unfold update at 2. cbn. rewrite IH.
    rewrite last_cons. by destruct (last l). }
  rewrite Hl. split; [done|]. by destruct no_destroy.
Qed.
End Singleton.
Arguments t : clear implicits.
End Singleton.

#[local] Existing Instances MysqlManager.manager_database PlainText.plain.

(** * The process *)
Module Main.

Inductive disposition := SIG_DFL | SIG_IGN | signal_exit.
Inductive file := DevNull | Inherited (n : nat).
(** [leader]: the process leads its process group; [session]: it leads its
    session. *)
Record process := mkProcess {
  handlers : gmap Z disposition;
  fds : gmap nat file;
  leader : bool;
  session : bool
}.

Definition SIGINT : Z := 2.
Definition SIGILL : Z := 4.
Definition SIGTRAP : Z := 5.
Definition SIGABRT : Z := 6.
Definition SIGSEGV : Z := 11.
Definition SIGPIPE : Z := 13.
Definition SIGTERM : Z := 15.
Definition SIGCHLD : Z := 17.

Definition set_fds (m : gmap nat file) (p : process) : process := mkProcess (handlers p) m (leader p) (session p).
(** [signal( signum, h )] *)
Definition signal (signum : Z) (h : disposition) (p : process) : process :=
  mkProcess (<[signum := h]> (handlers p)) (fds p) (leader p) (session p).
(** [setsid()] fails for the leader of a group, which the code does not see. *)
Definition setsid (p : process) : process :=
  if leader p then p else mkProcess (handlers p) (fds p) true true.

(** [open( "/dev/null", O_RDWR )] gives the lowest free descriptor. *)
Fixpoint lowest (fuel n : nat) (m : gmap nat file) : nat :=
  match fuel with
  | O => n
  | S fuel => match m !! n with Some _ => lowest fuel (S n) m | None => n end
  end.
Definition open_null (opens : bool) (p : process) : Z * process :=
  if opens then
    let fd := lowest (S (size (fds p))) 0 (fds p) in
    (Z.of_nat fd, set_fds (<[fd := DevNull]> (fds p)) p)
  else (-1, p).
Definition dup2 (oldfd newfd : Z) (p : process) : process :=
  match fds p !! Z.to_nat oldfd with
  | Some f => set_fds (<[Z.to_nat newfd := f]> (fds p)) p
  | None => p
  end.
Definition close (fd : Z) (p : process) : process := set_fds (delete (Z.to_nat fd) (fds p)) p.

(** [daemon()], [None] for the process that ends with [exit( 0 )]; [pid] is what
    [fork] returned, the process of the child leads no group. *)
Definition daemon (pid : Z) (opens : bool) (p : process) : option process :=
  let p := signal SIGCHLD SIG_IGN p in
  if 0 <? pid then None
  else
    let p := if pid =? 0 then mkProcess (handlers p) (fds p) false false else p in
    let p := setsid p in
    let '(fd, p) := open_null opens p in
    let p := if negb (-1 =? fd) then dup2 fd 2 (dup2 fd 1 (dup2 fd 0 p)) else p in
    Some (if 2 <? fd then close fd p else p).

(** The handlers [main] installs. *)
Definition install_handlers (p : process) : process :=
  let p := signal SIGCHLD SIG_DFL p in
  let p := signal SIGPIPE SIG_IGN p in
  let p := signal SIGINT signal_exit p in
  let p := signal SIGTERM signal_exit p in
  let p := signal SIGILL signal_exit p in
  let p := signal SIGTRAP signal_exit p in
  let p := signal SIGABRT signal_exit p in
  signal SIGILL signal_exit p.

(** ** The command line *)

(** What [getopt( argc, argv, "d" )] returns before -1, [None] for ['?']: the
    letters of the arguments that start with a dash; ["--"] ends the options,
    another argument is skipped, or ends them too if the environment asks for
    what POSIX says. *)
Definition letter (c : byte) : option unit := if bool_decide (c = x64) then Some tt else None.
Fixpoint getopt (posixly_correct : bool) (args : list bytes) : list (option unit) :=
  match args with
  | [] => []
  | a :: args =>
      if bool_decide (a = [x2d; x2d]) then []
      else
        match a with
        | x2d :: c :: cs => map letter (c :: cs) ++ getopt posixly_correct args
        | _ => if posixly_correct then [] else getopt posixly_correct args
        end
  end.
(** The loop of [main]: [isDaemon]. *)
Fixpoint options (isDaemon : bool) (l : list (option unit)) : outcome bool :=
  match l with
  | [] => Done isDaemon
  | Some _ :: l => options true l
  | None :: _ => Fault (Thrown "use -d ")
  end.

(** ** [main] *)
Section Start.
Context {W R : Type} `{MysqlClient W R} `{AddressText}.

Local Notation database := (MysqlManager.t * W)%type.
Local Notation result := (QueryResult.t R).
(** The process exits with a code, or is in [loop.loop()] with its server. *)
Inductive ending :=
  | Exited (code : Z) (p : process)
  | Serving (s : Server.t database) (p : process).

(** An uncaught exception or a failed assertion calls [abort()]: with the handler
    installed, [signal_exit] exits with 1. *)
Definition ends (p : process) (m : outcome ending) : outcome ending :=
  match m with
  | Fault (AssertFailed _ | Thrown _) as f =>
      match handlers p !! SIGABRT with Some signal_exit => Done (Exited 1 p) | _ => f end
  | m => m
  end.

(** The singletons are initialised, then the server is started; [rows] bounds the
    rows of the results of queries, [a] is the memory of the address. *)
Definition start (rows : nat) (a : bytes) (w : W) (p : process) : outcome ending :=
  '(m, _) ← Singleton.instance false MysqlManager.make Singleton.make;
  '(ok, m, w) ← MysqlManager.init rows (bs "127.0.0.1") (bs "root") (bs "wanzg666") (bs "IMServer") 3306 m w;
  if negb ok then Done (Exited (-2) p)
  else
    '(u, _) ← Singleton.instance false UserManager.make Singleton.make;
    '(ok, u, d) ← UserManager.init (D := database) (Q := result) rows u (m, w);
    if negb ok then Done (Exited (-3) p)
    else
      ipPort ← InetAddress.toIpPort (InetAddress.of_ip (bs "127.0.0.1") 9527 false a);
      '(ok, s) ← Server.IMServer_init (D := database) ipPort u d;
      if negb ok then Done (Exited (-1) p) else Done (Serving s p).

(** [main( argc, argv )], [args] without the name of the program. *)
Definition main (posixly_correct : bool) (pid : Z) (opens : bool) (rows : nat) (a : bytes)
    (args : list bytes) (w : W) (p : process) : outcome ending :=
  let p := install_handlers p in
  match options false (getopt posixly_correct args) with
  | Fault f => ends p (Fault f)
  | Done isDaemon =>
      match (if isDaemon then daemon pid opens p else Some p) with
      | None => Done (Exited 0 (signal SIGCHLD SIG_IGN p))
      | Some p => ends p (start rows a w p)
      end
  end.

(** ** Lemmas *)

(** A computation that may be undefined, but fails in no other way. *)
Definition holds {A} (P : A → Prop) (m : outcome A) : Prop :=
  match m with Done x => P x | Fault (Undefined _) => True | Fault _ => False end.
Lemma holds_bind {A B} (P : A → Prop) (Q : B → Prop) m k :
  holds P m → (∀ x, P x → holds Q (k x)) → holds Q (m ≫= k).
Proof. destruct m as [x|[]]; cbn; auto. Qed.
Lemma holds_impl {A} (P Q : A → Prop) m : holds P m → (∀ x, P x → Q x) → holds Q m.
Proof. destruct m as [x|[]]; cbn; auto. Qed.
Lemma holds_true {A} (P : A → Prop) m : holds P m → holds (λ _, True) m.
Proof. intros Hm. by apply (holds_impl P). Qed.

(** Statements that return rows, and what the library documents of them: a
    result has columns. *)
Definition returns_rows (sql : bytes) : Prop := sql = bs "show databases;" ∨ sql = UserManager.users_sql.
Definition results_have_columns : Prop :=
  ∀ w sql w1, returns_rows sql → mysql_real_query w sql = (w1, 0) → 0 < mysql_field_count (mysql_store_result w1).1.

Lemma vector_get_holds {A} (v : list A) i what : holds (λ _, True) (QueryResult.vector_get v i what).
Proof. unfold QueryResult.vector_get. by destruct (v !! i). Qed.
Lemma vector_store_holds {A} (v : list A) i x what : holds (λ _, True) (QueryResult.vector_store v i x what).
Proof. unfold QueryResult.vector_store. by destruct (v !! i). Qed.
Lemma init_columns_holds n : ∀ i fields (q : result), holds (λ _, True) (QueryResult.init_columns n i fields q).
Proof.
  induction n as [|n IH]; intros i fields q; [done|]. cbn [QueryResult.init_columns].
  eapply holds_bind; [apply vector_get_holds|intros f _]. eapply holds_bind; [apply vector_store_holds|intros names _].
  eapply holds_bind; [apply vector_get_holds|intros c _]. eapply holds_bind; [apply vector_store_holds|intros row _]. apply IH.
Qed.
Lemma make_holds (r : option R) rowCount columnCount :
  holds (λ _, columnCount ≤ 0) (QueryResult.make r rowCount columnCount).
Proof.
  unfold QueryResult.make. destruct r as [r|]; [|done]. destruct (Z.to_nat columnCount) as [|n] eqn:E; [cbn; lia|].
  cbn [QueryResult.init_columns]. eapply holds_bind with (P := λ _, True); [apply vector_get_holds|]. intros f _. done.
Qed.

Lemma connect_holds host user pwd db port m w : holds (λ _, True) (MysqlTool.connect host user pwd db port m w).
Proof.
  unfold MysqlTool.connect. destruct (MysqlTool.closeDB m w) as [m1 w1]. destruct (mysql_init w1) as [w2 []]; [|done].
  cbn. destruct (mysql_real_connect _ _ _ _ _ _) as [w3 []]; [|done]. by destruct (mysql_query _ _).
Qed.
Lemma connected_holds m w : holds (λ _, True) (MysqlTool.connected_or m w).
Proof. unfold MysqlTool.connected_or, MysqlTool.reconnect. destruct (MysqlTool._mysql m); [done|apply connect_holds]. Qed.
Lemma retry_holds run sql m w :
  holds (λ r, r.1.1.1 = true → ∃ w0, run w0 sql = (r.2, 0)) (MysqlTool.run_with_retry run sql m w).
Proof.
  unfold MysqlTool.run_with_retry. destruct (run w sql) as [w1 n] eqn:E1. destruct (Z.eqb_spec n 0) as [->|]; [cbn; by exists w|].
  destruct (_ =? _); [|done]. eapply holds_bind; [apply connect_holds|]. intros [[[] m'] w'] _; cbn [negb]; [|done].
  destruct (run w' sql) as [w2 n2] eqn:E2. destruct (Z.eqb_spec n2 0) as [->|]; [cbn; by exists w'|done].
Qed.

Lemma query_holds sql tool w : holds (λ _, True) (MysqlTool.query sql tool w).
Proof.
  unfold MysqlTool.query. eapply holds_bind; [apply connected_holds|]. intros [[[] m] w'] _; cbn [negb]; [|done].
  eapply holds_bind; [apply retry_holds|]. intros [[[[] e] m1] w1] _; cbn [negb]; [|done].
  destruct (mysql_store_result w1) as [w2 res]. destruct (_ =? 0); [done|].
  eapply holds_bind; [apply make_holds|done].
Qed.
(** No row ever reaches the program. *)
Lemma query_no_result sql tool w :
  results_have_columns → returns_rows sql → holds (λ r, r.1.1 = None) (MysqlTool.query sql tool w).
Proof.
  intros Hc Hsql. unfold MysqlTool.query. eapply holds_bind; [apply connected_holds|].
  intros [[[] m] w'] _; cbn [negb]; [|done]. eapply holds_bind; [apply retry_holds|].
  intros [[[[] e] m1] w1] Hq; cbn [negb]; [|done]. destruct Hq as [w0 Hq]; [done|]. pose proof (Hc _ _ _ Hsql Hq) as Hn. cbn in Hn.
  destruct (mysql_store_result w1) as [w2 res]. destruct (_ =? 0); [done|].
  eapply holds_bind; [apply make_holds|]. cbn in *. lia.
Qed.
Lemma execute_count_holds sql n e tool w : holds (λ _, True) (MysqlTool.execute_count sql n e tool w).
Proof.
  unfold MysqlTool.execute_count. eapply holds_bind; [apply connected_holds|]. intros [[[] m] w'] _; cbn [negb]; [|done].
  eapply holds_bind; [apply retry_holds|]. intros [[[[] e'] m1] w1] _; done.
Qed.

Lemma check_tables_holds l : ∀ m w, holds (λ _, True) (MysqlManager.check_tables l m w).
Proof.
  induction l as [|[k info] l IH]; intros m w; [done|]. cbn [MysqlManager.check_tables].
  eapply holds_bind with (P := λ _, True).
  { unfold MysqlManager.checkTable. destruct (MysqlManager._mysqlToolPtr m); [|done].
    eapply holds_bind; [apply query_holds|]. by intros [[? ?] ?]. }
  intros [[[] m1] w1] _; [apply IH|]. eapply holds_bind with (P := λ _, True).
  { unfold MysqlManager.createTable. destruct (MysqlManager._mysqlToolPtr m1); [|done]. destruct (MysqlManager.mFields info); [done|].
    eapply holds_bind with (P := λ _, True); [|by intros [[? ?] ?]].
    unfold MysqlTool.execute. eapply holds_bind; [apply execute_count_holds|]. by intros [[[[? ?] ?] ?] ?]. }
  intros [[[] m2] w2] _; [apply IH|done].
Qed.

Lemma database_holds rows host user pwd db port m w :
  results_have_columns → holds (λ _, True) (MysqlManager.init rows host user pwd db port m w).
Proof.
  intros Hc. unfold MysqlManager.init. eapply holds_bind; [apply connect_holds|]. intros [[[] tool] w1] _; cbn [negb]; [|done].
  eapply holds_bind with (P := λ _, True).
  { unfold MysqlManager.checkDatabase. cbn [MysqlManager._mysqlToolPtr MysqlManager.set_tool].
    eapply holds_bind; [apply query_no_result; [done|by left]|]. by intros [[[q|] ?] ?]. }
  intros [[[] m2] w2] _; [apply check_tables_holds|]. eapply holds_bind with (P := λ _, True).
  { unfold MysqlManager.createDataBase. destruct (MysqlManager._mysqlToolPtr m2); [|done].
    eapply holds_bind; [apply execute_count_holds|]. by intros [[[[? ?] ?] ?] ?]. }
  intros [[[] m3] w3] _; [apply check_tables_holds|done].
Qed.

Lemma users_fail rows u m w :
  results_have_columns → holds (λ r, r.1.1 = false) (UserManager.init (D := database) (Q := result) rows u (m, w)).
Proof.
  intros Hc. unfold UserManager.init, UserManager.loadUsers. eapply holds_bind with (P := λ r, r.1.1 = false).
  - eapply holds_bind with (P := λ r, r.1 = None).
    + cbn. unfold MysqlManager.Query. cbn [fst snd]. destruct (MysqlManager._mysqlToolPtr m) as [tool|]; [|done].
      eapply holds_bind with (P := λ r, r.1.1 = None).
      * eapply holds_bind; [apply query_no_result; [done|by right]|]. intros [[? ?] ?] E; cbn in E; by subst.
      * intros [[? ?] ?] E; cbn in E; by subst.
    + intros [? ?] E; cbn in E; by subst.
  - intros [[? ?] ?] E; cbn in E; by subst.
Qed.

Lemma start_holds rows a w p :
  results_have_columns → holds (λ e, e = Exited (-2) p ∨ e = Exited (-3) p) (start rows a w p).
Proof.
  intros Hc. unfold start. cbn [Singleton.instance Singleton.make]. eapply holds_bind with (P := λ _, True); [done|].
  intros [m sm] _. eapply holds_bind; [by apply database_holds|]. intros [[[] m1] w1] _; cbn [negb]; [|by left].
  eapply holds_bind with (P := λ _, True); [done|]. intros [u su] _.
  eapply holds_bind; [by apply users_fail|]. intros [[? ?] ?] E; cbn in E; subst. by right.
Qed.

Lemma options_fault l : ∀ b f, options b l = Fault f → f = Thrown "use -d ".
Proof. induction l as [|[[]|] l IH]; intros b f; cbn; [done|apply IH|by intros [= <-]]. Qed.

(** * Properties *)

(** C22. The program never serves: whatever the database server holds, so long as
    the results the client library delivers have columns, [main] ends before the
    server is started, as [QueryResult] cannot hold a row and a table without rows
    counts as a failure.  A bad option ends it with status 1 through the handler
    of SIGABRT; the parent of a daemon with 0; otherwise it returns -2 or -3, or
    its behaviour is undefined. *)
Theorem main_never_serves posixly_correct pid opens rows a args w p :
  results_have_columns →
  let p0 := install_handlers p in
  let m := main posixly_correct pid opens rows a args w p in
  match options false (getopt posixly_correct args) with
  | Fault _ => m = Done (Exited 1 p0)
  | Done isDaemon =>
      match (if isDaemon then daemon pid opens p0 else Some p0) with
      | None => ∃ p1, m = Done (Exited 0 p1)
      | Some p1 => m = Done (Exited (-2) p1) ∨ m = Done (Exited (-3) p1) ∨ ∃ what, m = Fault (Undefined what)
      end
  end.
Proof.
  intros Hc p0 m. subst m. unfold main. fold p0. destruct (options false (getopt posixly_correct args)) as [isDaemon|f] eqn:Eo.
  - destruct (if isDaemon then daemon pid opens p0 else Some p0) as [p1|]; [|by eexists].
    pose proof (start_holds rows a w p1 Hc) as Hs. destruct (start rows a w p1) as [e|[]]; cbn in Hs; try done.
    + destruct Hs as [->| ->]; [by left|by right; left].
    + right; right. by eexists.
  - apply options_fault in Eo as ->. unfold ends, p0, install_handlers, signal. cbn [handlers].
    rewrite lookup_insert_ne by done. by rewrite lookup_insert_eq.
Qed.
End Start.
Arguments ending : clear implicits.


(** ** The descriptors of a daemon *)
Lemma lowest_free (m : gmap nat file) : m !! lowest (S (size m)) 0 m = None.
Proof.
  enough (Hgen : ∀ fuel n, (∀ i, (i < n)%nat → is_Some (m !! i)) → (size m < fuel + n)%nat → m !! lowest fuel n m = None).
  { apply Hgen; [lia|]. lia. }
  induction fuel as [|fuel IH]; intros n Hn Hs; cbn [lowest].
  - exfalso. assert (Hsub : set_seq (C := gset nat) 0 n ⊆ dom m).
    { intros i Hi. apply elem_of_set_seq in Hi. apply elem_of_dom, Hn. lia. }
    apply subseteq_size in Hsub. rewrite size_set_seq, size_dom in Hsub. lia.
  - destruct (m !! n) eqn:E; [|done]. apply IH; [|lia]. intros i Hi.
    destruct (decide (i = n)) as [->|]; [by rewrite E|apply Hn; lia].
Qed.
Lemma dup2_null fd k p :
  fds p !! Z.to_nat fd = Some DevNull → dup2 fd k p = set_fds (<[Z.to_nat k := DevNull]> (fds p)) p.
Proof. unfold dup2. by intros ->. Qed.

(** Whatever descriptors the process had, and if some of the standard ones were
    closed too, the child that becomes a daemon has the null device in their place,
    all others as before, and a session of its own. *)
Theorem daemon_detached p :
  ∃ p', daemon 0 true p = Some p' ∧ session p' = true ∧ handlers p' !! SIGCHLD = Some SIG_IGN ∧
    ∀ n, fds p' !! n = if (n <? 3)%nat then Some DevNull else fds p !! n.
Proof.
  unfold daemon. change (0 <? 0) with false. change (0 =? 0) with true. cbv beta iota zeta. unfold setsid. cbn [leader]. unfold open_null. cbn [fds handlers signal].
  pose proof (lowest_free (fds p)) as Hfree. set (fd := lowest (S (size (fds p))) 0 (fds p)) in *. clearbody fd.
  rewrite (proj2 (Z.eqb_neq (-1) _)) by lia. cbn [negb].
  rewrite (dup2_null _ 0) by (cbn [fds set_fds]; rewrite Nat2Z.id, ?lookup_insert; repeat case_decide; done).
  rewrite (dup2_null _ 1) by (cbn [fds set_fds]; rewrite Nat2Z.id, ?lookup_insert; repeat case_decide; done).
  rewrite (dup2_null _ 2) by (cbn [fds set_fds]; rewrite Nat2Z.id, ?lookup_insert; repeat case_decide; done).
  eexists. split; [done|]. destruct (Z.ltb_spec 2 (Z.of_nat fd)); cbn [session handlers fds set_fds close];
    (split; [done|]; split; [apply lookup_insert_eq|]); intros n; rewrite ?Nat2Z.id, ?lookup_delete, ?lookup_insert;
    change (Z.to_nat 0) with 0%nat; change (Z.to_nat 1) with 1%nat; change (Z.to_nat 2) with 2%nat;
    destruct (Nat.ltb_spec n 3); repeat case_decide; subst; done || lia.
Qed.

(** If [fork] fails the process goes on as if it were the child: a process that
    leads its group stays in its session, without its terminal. *)
Example fork_failed :
  (λ p, (session p, fds p !! 0%nat)) <$>
    daemon (-1) true (mkProcess ∅ (<[0%nat := Inherited 0]> ∅) true false) = Some (false, Some DevNull).
Proof. vm_compute. reflexivity. Qed.

(** ** Examples *)
Module Sample.
Definition shell : process := mkProcess ∅ (<[0%nat := Inherited 0]> (<[1%nat := Inherited 1]> (<[2%nat := Inherited 2]> ∅))) true false.
(** The exit status, or 0 and the connections of a server that was started. *)
Definition status (m : outcome (ending MemServer)) : outcome (option Z) :=
  match m with
  | Done (Exited code _) => Done (Some code)
  | Done (Serving _ _) => Done None
  | Fault f => Fault f
  end.
Definition run (args : list string) (w : MemServer) : outcome (option Z) :=
  status (main false 1 true 10 (replicate 28 x00) (map bs args) w shell).

(** A server that is down; one without the database, whose tables are created and
    are empty; one that has databases; and, were there results without columns, a
    server that is started. *)
Definition down : MemServer := mkServer false (λ _ _, 0) (λ _, 0) (λ _, 0) (λ _, None) [] [].
Definition populated : MemServer :=
  mkServer true (λ _ _, 0) (λ _, 0) (λ _, 1) (λ _, Some ([(bs "Database", FIELD_TYPE_STRING)], [[Some (bs "IMServer")]])) [] [].
Definition no_columns : MemServer :=
  mkServer true (λ _ _, 0) (λ _, 0) (λ _, 1) (λ _, Some ([], [])) [] [].
Example starts :
  run [] down = Done (Some (-2)) ∧ run [] (fresh_server 1 [] []) = Done (Some (-3)) ∧
  run [] populated = Fault (Undefined "_fieldName[i]: reserve does not resize") ∧
  run [] no_columns = Done None ∧ run ["-d"%string] no_columns = Done (Some 0) ∧ run ["-x"%string] down = Done (Some 1).
Proof. vm_compute. done. Qed.

(** A client whose results have one column, on a server where no statement affects
    a row. *)
#[local] Instance one_column : MysqlClient unit unit := {|
  mysql_init w := (w, true);
  mysql_close w := w;
  mysql_real_connect w _ _ _ _ _ := (w, true);
  mysql_query w _ := (w, 0);
  mysql_real_query w _ := (w, 0);
  mysql_errno _ := 0;
  mysql_store_result w := (w, Some tt);
  mysql_affected_rows _ := 0;
  mysql_field_count _ := 1;
  mysql_fetch_fields _ := [(bs "Database", FIELD_TYPE_STRING)];
  mysql_fetch_row r := (r, None)
|}.

Lemma main_never_serves_witness :
  results_have_columns (W := unit) ∧
  ∃ p1, main (W := unit) false 1 true 10 [] [] tt shell = Done (Exited (-2) p1).
Proof.
  assert (Hc : results_have_columns (W := unit)) by (intros w sql w1 _ _; reflexivity).
  split; [exact Hc|]. destruct (main_never_serves (W := unit) false 1 true 10 [] [] tt shell Hc) as [H|[H|[what H]]].
  - eexists. exact H.
  - exfalso. vm_compute in H. discriminate H.
  - exfalso. vm_compute in H. discriminate H.
Defined.
End Sample.
End Main.
