(* ===== verification/Process.v ===== *)
(** What muduo says of its process and of the system: ProcessInfo.cc, and the
    pages of ProcessInspector.cc and SystemInspector.cc.

    What the system answers is an input, a record of the files of /proc as they
    are read, the entries of its directories and the results of the calls.  A
    string is read up to the NUL behind it and no further. *)

From Stdlib Require Import Floats.SpecFloat.
From stdpp Require Import sorting.
From S2P Require Import Prelude CDouble Calendar LogStream Mysql.
Local Open Scope Z_scope.

Definition SP : byte := x20.

(** [s.find( pat )], [s.find( c )], [s.rfind( c )], as indices. *)
Fixpoint find_text (pat s : bytes) : option nat :=
  if bool_decide (take (length pat) s = pat) then Some 0%nat
  else match s with [] => None | _ :: s => S <$> find_text pat s end.
Definition find_char (c : byte) (s : bytes) : option nat := (list_find (.= c) s) ≫= λ p, Some p.1.
Definition rfind_char (c : byte) (s : bytes) : option nat :=
  (λ i, length s - 1 - i)%nat <$> find_char c (reverse s).
(** [s[ i ]] of a string: the NUL behind it can be read. *)
Definition char_at (i : nat) (s : bytes) : outcome byte :=
  match s !! i with
  | Some c => Done c
  | None => if bool_decide (i = length s) then Done x00 else Fault (Undefined "past the end of a string")
  end.

(** The answers of the system. *)
Record system := mkSystem {
  now : Z;
  startTime : Z;
  clockTicksPerSecond : Z;
  pid : Z;
  pw_name : option bytes;
  gethostname : option bytes;
  readlink_exe : bytes;
  (** The first 65536 bytes of a file, [None] if it cannot be read. *)
  read_file : bytes → option bytes;
  fd_entries : list bytes;
  task_entries : list bytes;
  rlimit_nofile : option Z;
  times : option (Z * Z);
  uname : option (bytes * bytes * bytes * bytes * bytes)
}.

(** * ProcessInfo *)
Module ProcessInfo.
Section Info.
Context (sys : system).

Record CpuTime := mkCpuTime { userSeconds : spec_float; systemSeconds : spec_float }.
Definition no_time : CpuTime := mkCpuTime (double_of_int 0) (double_of_int 0).
Definition in_seconds (utime stime : Z) : CpuTime :=
  let hz := double_of_int (clockTicksPerSecond sys) in
  mkCpuTime (div_double (double_of_int utime) hz) (div_double (double_of_int stime) hz).

(** [FileUtil::readFile( name, 65536, &result )] of an empty [result]. *)
Definition contents (name : bytes) : bytes := default [] (read_file sys name).

Definition pidString : bytes := signed_decimal (pid sys).
Definition username : bytes := default (bs "unknownuser") (pw_name sys).
Definition hostname : bytes :=
  match gethostname sys with Some name => c_str (take 255 name) | None => bs "unknownhost" end.

(** [procname( stat )]: [None] is a piece without characters. *)
Definition procname_of (stat : bytes) : option (nat * nat) :=
  match find_char x28 stat, rfind_char x29 stat with
  | Some lp, Some rp => if (lp <? rp)%nat then Some (lp, rp) else None
  | _, _ => None
  end.
Definition piece (stat : bytes) (p : option (nat * nat)) : bytes :=
  match p with Some (lp, rp) => take (rp - lp - 1) (drop (S lp) stat) | None => [] end.
Definition procStatus : bytes := contents (bs "/proc/self/status").
Definition procStat : bytes := contents (bs "/proc/self/stat").
Definition threadStat (tid : Z) : bytes :=
  contents (take 63 (bs "/proc/self/task/" ++ signed_decimal tid ++ bs "/stat")).
Definition procname : bytes := piece procStat (procname_of procStat).
Definition exePath : bytes := take 1024 (readlink_exe sys).

(** [isdigit( d_name[0] )], and what the filters make of the entries. *)
Definition starts_with_digit (name : bytes) : bool :=
  match name with c :: _ => is_digit c | [] => false end.
Definition openedFiles : Z := szof (filter (λ name, starts_with_digit name = true) (fd_entries sys)).
Definition threads : list Z :=
  merge_sort Z.le (map atoi (filter (λ name, starts_with_digit name = true) (task_entries sys))).
Definition maxOpenFiles : Z :=
  match rlimit_nofile sys with Some n => s32 n | None => openedFiles end.
Definition cpuTime : CpuTime :=
  match times sys with Some (utime, stime) => in_seconds utime stime | None => no_time end.
Definition numThreads : Z :=
  match find_text (bs "Threads:") procStatus with Some pos => atoi (drop (pos + 8) procStatus) | None => 0 end.
End Info.
End ProcessInfo.

(** * The texts of the pages *)
Module inspect.
Import ProcessInfo.

(** Minimum width with [%d] and [%-s]. *)
Definition right_justified (w : nat) (l : bytes) : bytes := repeat SP (w - length l) ++ l.
Definition left_justified (w : nat) (l : bytes) : bytes := l ++ repeat SP (w - length l).

(** [uptime( now, start, showMicroseconds )] *)
Definition uptime (now start : Z) (showMicroseconds : bool) : outcome bytes :=
  age ← int64 (now - start);
  let two := Timestamp.zero_padded 2 in
  let seconds := s32 (Z.quot age Timestamp.kMicroSecondsPerSecond) in
  let days := Z.quot seconds 86400 in
  let hours := Z.quot (Z.rem seconds 86400) 3600 in
  let minutes := Z.quot (Z.rem seconds 3600) 60 in
  let text := signed_decimal days ++ bs " days " ++ two hours ++ bs ":" ++ two minutes ++ bs ":" ++ two (Z.rem seconds 60) in
  Done (if showMicroseconds
        then text ++ bs "." ++ Timestamp.zero_padded 6 (Z.rem age Timestamp.kMicroSecondsPerSecond)
        else text).

(** [getLong( procStatus, key )] *)
Definition getLong (procStatus key : bytes) : Z :=
  match find_text key procStatus with Some pos => strtol (drop (pos + length key) procStatus) | None => 0 end.

(** [getProcessName( procStatus )]: tabs are skipped, then the name goes on to the
    end of the line. *)
Fixpoint skip_tabs (fuel pos : nat) (s : bytes) : outcome nat :=
  match fuel with
  | O => Fault OutOfFuel
  | S fuel => c ← char_at pos s; if bool_decide (c = x09) then skip_tabs fuel (S pos) s else Done pos
  end.
Fixpoint find_eol (fuel eol : nat) (s : bytes) : outcome nat :=
  match fuel with
  | O => Fault OutOfFuel
  | S fuel => c ← char_at eol s; if bool_decide (c = x0a) then Done eol else find_eol fuel (S eol) s
  end.
Definition getProcessName (procStatus : bytes) : outcome bytes :=
  match find_text (bs "Name:") procStatus with
  | None => Done []
  | Some pos =>
      pos ← skip_tabs (length procStatus + 2) (pos + 5) procStatus;
      eol ← find_eol (length procStatus + 2) pos procStatus;
      Done (take (eol - pos) (drop pos procStatus))
  end.

(** [next( data )], over what is left of the text. *)
Definition next (data : bytes) : bytes :=
  match find_char SP data with Some i => drop (S i) data | None => [] end.
Fixpoint next_n (n : nat) (data : bytes) : bytes :=
  match n with O => data | S n => next_n n (next data) end.
Definition getCpuTime (sys : system) (data : bytes) : CpuTime :=
  let data := next_n 10 data in
  let utime := strtol data in
  let data := next data in
  let stime := strtol data in
  in_seconds sys utime stime.

(** [stringPrintf( out, ... )] of the text. *)
Definition stringPrintf (out text : bytes) : bytes := out ++ take 255 text.
End inspect.

(** * ProcessInspector *)
Module ProcessInspector.
Import ProcessInfo inspect.
Section Pages.
Context (sys : system) (debug : bool).

Definition mebibytes (kib : Z) : bytes := sprintf_f 3 (div_double (double_of_int kib) (double_of_int 1024)).

Definition overview : outcome bytes :=
  generated ← toFormattedString (now sys) true;
  started ← toFormattedString (startTime sys) true;
  up ← uptime (now sys) (startTime sys) true;
  let result := bs "Page generated at " ++ generated ++ bs " (UTC)" ++ [x0a] ++ bs "Started at " ++ started
                ++ bs " (UTC), up for " ++ up ++ [x0a] in
  let status := procStatus sys in
  name ← getProcessName status;
  let result := result ++ name ++ bs " (" ++ exePath sys ++ bs ") running as " ++ username sys ++ bs " on "
                ++ hostname sys ++ [x0a] in
  let result := if debug then result ++ bs "WARNING: debug build!" ++ [x0a] else result in
  let result := stringPrintf result (bs "pid " ++ signed_decimal (pid sys) ++ bs ", num of threads "
                ++ signed_decimal (getLong status (bs "Threads:")) ++ bs ", bits 64" ++ [x0a]) in
  let result := result ++ bs "Virtual memory: " in
  let result := stringPrintf result (mebibytes (getLong status (bs "VmSize:")) ++ bs " MiB, ") in
  let result := result ++ bs "RSS memory: " in
  let result := stringPrintf result (mebibytes (getLong status (bs "VmRSS:")) ++ bs " MiB" ++ [x0a]) in
  let result := stringPrintf result (bs "Opened files: " ++ signed_decimal (openedFiles sys) ++ bs ", limit: "
                ++ signed_decimal (maxOpenFiles sys) ++ [x0a]) in
  let t := cpuTime sys in
  Done (stringPrintf result (bs "User time: " ++ right_justified 12 (sprintf_f 3 (userSeconds t)) ++ bs "s" ++ [x0a]
        ++ bs "Sys time:  " ++ right_justified 12 (sprintf_f 3 (systemSeconds t)) ++ bs "s" ++ [x0a])).

Definition openedFiles : bytes := take 31 (signed_decimal (ProcessInfo.openedFiles sys)).

(** A line of [threads] from the text of the thread's stat file. *)
Definition thread_line (tid : Z) (stat : bytes) : outcome bytes :=
  match procname_of stat with
  | None => Fault (Undefined "the end of a null piece")
  | Some (lp, rp) =>
      c ← char_at rp stat;
      _ ← cassert (bool_decide (c = x29)) "*rp == ')'";
      let stat' := <[rp := x00]> stat in
      state ← char_at (rp + 2) stat';
      _ ← defined_if (rp + 4 <=? length stat)%nat "a piece of negative length";
      let t := getCpuTime sys (drop (rp + 4) stat') in
      Done (take 255 (right_justified 5 (signed_decimal tid) ++ bs " " ++ left_justified 16 (c_str (drop (S lp) stat'))
            ++ bs " " ++ c_str [state] ++ (if bool_decide (state = x00) then [] else
              bs " " ++ right_justified 12 (sprintf_f 3 (userSeconds t)) ++ bs " "
              ++ right_justified 12 (sprintf_f 3 (systemSeconds t)) ++ [x0a])))
  end.
Fixpoint thread_lines (tids : list Z) (result : bytes) : outcome bytes :=
  match tids with
  | [] => Done result
  | tid :: tids =>
      let name := take 255 (bs "/proc/" ++ signed_decimal (pid sys) ++ bs "/task/" ++ signed_decimal tid ++ bs "/stat") in
      match read_file sys name with
      | Some stat => line ← thread_line tid stat; thread_lines tids (result ++ line)
      | None => thread_lines tids result
      end
  end.
Definition threads : outcome bytes :=
  thread_lines (ProcessInfo.threads sys) (bs "  TID NAME             S    User Time  System Time" ++ [x0a]).
End Pages.
End ProcessInspector.

(** * SystemInspector *)
Module SystemInspector.
Import ProcessInfo inspect.
Section Pages.
Context (sys : system).

Definition line (out : bytes) (label : string) (text : bytes) : bytes := stringPrintf out (bs label ++ text ++ [x0a]).
(** [%6ld MiB] of a number of kibibytes. *)
Definition mib (kb : Z) : bytes := right_justified 6 (signed_decimal (Z.quot kb 1024)) ++ bs " MiB".

Definition overview : outcome bytes :=
  generated ← toFormattedString (now sys) true;
  let result := bs "Page generated at " ++ generated ++ bs " (UTC)" ++ [x0a] in
  let result :=
    match uname sys with
    | Some (nodename, machine, sysname, release, version) =>
        let result := line result "Hostname: " nodename in
        let result := line result "Machine: " machine in
        line result "OS: " (sysname ++ bs " " ++ release ++ bs " " ++ version)
    | None => result
    end in
  let stat := contents sys (bs "/proc/stat") in
  bootTime ← int64 (Timestamp.kMicroSecondsPerSecond * getLong stat (bs "btime "));
  booted ← toFormattedString bootTime false;
  up ← uptime (now sys) bootTime false;
  let result := result ++ bs "Boot time: " ++ booted ++ bs " (UTC)" ++ [x0a] ++ bs "Up time: " ++ up ++ [x0a] in
  let result := line result "Processes created: " (signed_decimal (getLong stat (bs "processes "))) in
  let result := line result "Loadavg: " (c_str (contents sys (bs "/proc/loadavg"))) in
  let meminfo := contents sys (bs "/proc/meminfo") in
  let total_kb := getLong meminfo (bs "MemTotal:") in
  let free_kb := getLong meminfo (bs "MemFree:") in
  let buffers_kb := getLong meminfo (bs "Buffers:") in
  let cached_kb := getLong meminfo (bs "Cached:") in
  used_kb ← int64 (total_kb - free_kb);
  used_kb ← int64 (used_kb - buffers_kb);
  used_kb ← int64 (used_kb - cached_kb);
  real_free_kb ← int64 (free_kb + buffers_kb);
  real_free_kb ← int64 (real_free_kb + cached_kb);
  let result := line result "Total Memory: " (mib total_kb) in
  let result := line result "Free Memory:  " (mib free_kb) in
  let result := line result "Buffers:      " (mib buffers_kb) in
  let result := line result "Cached:       " (mib cached_kb) in
  let result := line result "Real Used:    " (mib used_kb) in
  Done (line result "Real Free:    " (mib real_free_kb)).

(** The pages that are a file of /proc. *)
Definition loadavg : bytes := contents sys (bs "/proc/loadavg").
Definition version : bytes := contents sys (bs "/proc/version").
Definition cpuinfo : bytes := contents sys (bs "/proc/cpuinfo").
Definition meminfo : bytes := contents sys (bs "/proc/meminfo").
Definition stat : bytes := contents sys (bs "/proc/stat").
End Pages.
End SystemInspector.

(** * Lemmas *)
Import ProcessInfo inspect.

Definition no_digit (l : bytes) : Prop := match l with c :: _ => is_digit c = false | [] => True end.
Lemma c_str_app a b : x00 ∉ a → c_str (a ++ b) = a ++ c_str b.
Proof.
  induction a as [|c a IH]; intros Ha; [done|]. apply not_elem_of_cons in Ha as [Hc Ha]. cbn [app c_str].
  by rewrite decide_False, IH by done.
Qed.
Lemma no_digit_c_str l : no_digit l → no_digit (c_str l).
Proof. destruct l as [|c l]; [done|]. cbn. by case_decide. Qed.
Lemma digits_not_nul l : Forall (λ c, is_digit c = true) l → x00 ∉ l.
Proof. rewrite Forall_forall. intros Hl Hin. by apply Hl in Hin. Qed.

Lemma digits_value_app l : ∀ acc r,
  Forall (λ c, is_digit c = true) l → no_digit r → digits_value acc (l ++ r) = decimal_value_from acc l.
Proof.
  induction l as [|c l IH]; intros acc r Hl Hr; cbn [app digits_value].
  - destruct r as [|c r]; [done|]. cbn [no_digit] in Hr. cbn [digits_value]. unfold decimal_digit. unfold is_digit in Hr. by rewrite Hr.
  - apply Forall_cons in Hl as [Hc Hl]. unfold decimal_digit. unfold is_digit in Hc. rewrite Hc. by rewrite IH.
Qed.
Lemma drop_spaces_app sp l : Forall (λ c, isspace c = true) sp → drop_spaces (sp ++ l) = drop_spaces l.
Proof. induction 1 as [|c sp Hc _ IH]; [done|]. cbn [app drop_spaces]. by rewrite Hc. Qed.

(** A number behind white space is read, up to what is no digit. *)
Lemma strtol_decimal sp n r :
  Forall (λ c, isspace c = true) sp → 0 ≤ n < 2 ^ 63 → no_digit r → strtol (sp ++ decimal n ++ r) = n.
Proof.
  intros Hsp Hn Hr. assert (Hd : Forall (λ c, is_digit c = true) (decimal n)) by (apply decimal_digits; lia).
  assert (Hnul : x00 ∉ sp).
  { rewrite Forall_forall in Hsp. intros Hin. by apply Hsp in Hin. }
  unfold strtol. rewrite c_str_app, drop_spaces_app, c_str_app by (done || by apply digits_not_nul).
  pose proof (decimal_nonempty n ltac:(lia)) as Hne. pose proof (decimal_value_decimal n ltac:(lia)) as Hv.
  pose proof (no_digit_c_str _ Hr) as Hr'. destruct (decimal n) as [|c l]; [done|]. cbn [app].
  assert (Hc : is_digit c = true) by by apply Forall_cons in Hd as [? _].
  assert (Hns : isspace c = false) by by destruct c. cbn [drop_spaces]. rewrite Hns.
  rewrite !decide_False by (intros ->; done). change (c :: l ++ c_str r) with ((c :: l) ++ c_str r).
  rewrite digits_value_app by done. change (decimal_value_from 0 (c :: l)) with (decimal_value (c :: l)). rewrite Hv. lia.
Qed.

Lemma find_char_app c l r : c ∉ l → find_char c (l ++ c :: r) = Some (length l).
Proof.
  intros Hl. unfold find_char. rewrite list_find_app_r.
  - cbn. rewrite decide_True by done. cbn. by rewrite ?Nat.add_0_r.
  - apply list_find_None, Forall_forall. intros x Hx ->. done.
Qed.
Lemma rfind_char_app c l r : c ∉ r → rfind_char c (l ++ c :: r) = Some (length l).
Proof.
  intros Hr. unfold rfind_char. rewrite reverse_app, reverse_cons, <-app_assoc. cbn [app].
  rewrite find_char_app by by rewrite elem_of_reverse. cbn. rewrite length_app, length_reverse. cbn. f_equal. lia.
Qed.

Lemma next_cons f r : SP ∉ f → next (f ++ SP :: r) = r.
Proof.
  intros Hf. unfold next. rewrite find_char_app by done.
  replace (f ++ SP :: r) with ((f ++ [SP]) ++ r) by by rewrite <-app_assoc. apply drop_app_length'.
  rewrite length_app. cbn. lia.
Qed.
(** Fields with a space behind each. *)
Definition spaced (l : list bytes) : bytes := concat (map (λ f, f ++ [SP]) l).
Lemma next_n_spaced l r : Forall (λ f, SP ∉ f) l → next_n (length l) (spaced l ++ r) = r.
Proof.
  induction 1 as [|f l Hf _ IH]; [done|]. cbn [length next_n]. unfold spaced. cbn [map concat].
  rewrite <-!app_assoc. cbn [app]. rewrite next_cons by done. apply IH.
Qed.

(** The text around the name of a thread. *)
Lemma digits_no_char c n : 0 ≤ n → is_digit c = false → c ∉ decimal n.
Proof. intros Hn Hc Hin. pose proof (decimal_digits n Hn) as Hd. rewrite Forall_forall in Hd. apply Hd in Hin. congruence. Qed.
Lemma procname_of_parts a name b :
  x28 ∉ a → x29 ∉ b →
  procname_of (a ++ x28 :: name ++ x29 :: b) = Some (length a, length a + 1 + length name)%nat.
Proof.
  intros Ha Hb. unfold procname_of. rewrite find_char_app by done.
  replace (a ++ x28 :: name ++ x29 :: b) with ((a ++ x28 :: name) ++ x29 :: b) by by rewrite <-app_assoc.
  rewrite rfind_char_app, length_app by done. cbn [length]. rewrite (proj2 (Nat.ltb_lt _ _)) by lia. do 2 f_equal. lia.
Qed.
Lemma piece_parts a name b :
  piece (a ++ x28 :: name ++ b) (Some (length a, length a + 1 + length name)%nat) = name.
Proof.
  cbn [piece]. replace (a ++ x28 :: name ++ b) with ((a ++ [x28]) ++ name ++ b) by by rewrite <-app_assoc.
  rewrite drop_app_length' by (rewrite length_app; cbn; lia). apply take_app_length'. lia.
Qed.
Lemma parts_at a name b i :
  drop (length a + 1 + length name + i) (a ++ x28 :: name ++ b) = drop i b.
Proof.
  replace (a ++ x28 :: name ++ b) with ((a ++ x28 :: name) ++ b) by by rewrite <-app_assoc.
  rewrite drop_app_ge by (rewrite length_app; cbn; lia). f_equal. rewrite length_app. cbn. lia.
Qed.
Lemma char_at_parts a name b i c :
  b !! i = Some c → char_at (length a + 1 + length name + i) (a ++ x28 :: name ++ b) = Done c.
Proof. intros Hb. unfold char_at. rewrite <-(Nat.add_0_r (_ + i)), <-lookup_drop, parts_at, lookup_drop, Nat.add_0_r. by rewrite Hb. Qed.
Lemma spaced_app l l' : spaced (l ++ l') = spaced l ++ spaced l'.
Proof. unfold spaced. by rewrite map_app, concat_app. Qed.

Lemma cpu_time_of_fields sys before utime stime rest :
  length before = 10%nat → Forall (λ f, SP ∉ f) before → 0 ≤ utime < 2 ^ 63 → 0 ≤ stime < 2 ^ 63 →
  getCpuTime sys (spaced (before ++ [decimal utime; decimal stime]) ++ rest) = in_seconds sys utime stime.
Proof.
  intros Hlen Hb Hu Hs. unfold getCpuTime. rewrite spaced_app, <-app_assoc, <-Hlen, next_n_spaced by done.
  unfold spaced. cbn [map concat]. rewrite app_nil_r, <-!app_assoc. cbn [app].
  rewrite next_cons by (apply digits_no_char; [lia|done]).
  pose proof (strtol_decimal [] utime) as Eu. pose proof (strtol_decimal [] stime) as Es. cbn [app] in Eu, Es.
  by rewrite Eu, Es by done.
Qed.

Lemma find_text_here pat r : find_text pat (pat ++ r) = Some 0%nat.
Proof. destruct (pat ++ r) eqn:E; cbn; rewrite <-E, take_app_length, bool_decide_true by done; done. Qed.

Lemma skip_tabs_app tabs : ∀ fuel pre l,
  Forall (λ c, c = x09) tabs → head l ≠ Some x09 → (length tabs < fuel)%nat →
  skip_tabs fuel (length pre) (pre ++ tabs ++ l) = Done (length pre + length tabs)%nat.
Proof.
  induction tabs as [|c tabs IH]; intros fuel pre l Ht Hl Hf; (destruct fuel as [|fuel]; [cbn in Hf; lia|]); cbn [skip_tabs app].
  - unfold char_at. rewrite lookup_app_r, Nat.sub_diag by done. destruct l as [|c l]; cbn [lookup list_lookup].
    + rewrite bool_decide_true by by rewrite app_nil_r. cbn. f_equal. lia.
    + rewrite bind_ret_l, bool_decide_false by (intros ->; done). cbn. f_equal. lia.
  - apply Forall_cons in Ht as [-> Ht]. unfold char_at. rewrite lookup_app_r, Nat.sub_diag by done. cbn [lookup list_lookup].
    rewrite bind_ret_l, bool_decide_true by done. specialize (IH fuel (pre ++ [x09]) l Ht Hl ltac:(cbn in Hf; lia)).
    rewrite length_app, <-app_assoc in IH. cbn [app length] in IH. rewrite Nat.add_1_r in IH. rewrite IH. cbn. f_equal. lia.
Qed.
Lemma find_eol_app name : ∀ fuel pre l,
  x0a ∉ name → (length name < fuel)%nat →
  find_eol fuel (length pre) (pre ++ name ++ x0a :: l) = Done (length pre + length name)%nat.
Proof.
  induction name as [|c name IH]; intros fuel pre l Hn Hf; (destruct fuel as [|fuel]; [cbn in Hf; lia|]); cbn [find_eol app];
    unfold char_at; rewrite lookup_app_r, Nat.sub_diag by done; cbn [lookup list_lookup]; rewrite bind_ret_l.
  - rewrite bool_decide_true by done. cbn. f_equal. lia.
  - apply not_elem_of_cons in Hn as [Hc Hn]. rewrite bool_decide_false by congruence.
    specialize (IH fuel (pre ++ [c]) l Hn ltac:(cbn in Hf; lia)).
    rewrite length_app, <-app_assoc in IH. cbn [app length] in IH. rewrite Nat.add_1_r in IH. rewrite IH. cbn. f_equal. lia.
Qed.
Lemma find_eol_none l : ∀ fuel pre,
  x0a ∉ l → (S (length l) < fuel)%nat → find_eol fuel (length pre) (pre ++ l) = Fault (Undefined "past the end of a string").
Proof.
  induction l as [|c l IH]; intros fuel pre Hl Hf; (destruct fuel as [|fuel]; [simpl in Hf; lia|]); cbn [find_eol]; unfold char_at.
  - rewrite app_nil_r, lookup_ge_None_2, bool_decide_true by done. cbn. destruct fuel as [|fuel]; [simpl in Hf; lia|].
    cbn [find_eol]. unfold char_at. rewrite (lookup_ge_None_2 pre (S (length pre))) by lia.
    rewrite bool_decide_false by done. rewrite bool_decide_false by lia. done.
  - apply not_elem_of_cons in Hl as [Hc Hl]. rewrite lookup_app_r, Nat.sub_diag by done. cbn [lookup list_lookup].
    rewrite bind_ret_l, bool_decide_false by congruence.
    specialize (IH fuel (pre ++ [c]) Hl ltac:(cbn in Hf; lia)). rewrite length_app, <-app_assoc in IH. cbn [app length] in IH.
    by rewrite Nat.add_1_r in IH.
Qed.

(** * Properties *)

(** The name of the process is what follows the tabs behind [Name:] up to the end
    of the line; without one the search runs past the text. *)
Theorem process_name_read tabs name rest :
  Forall (λ c, c = x09) tabs → head name ≠ Some x09 → x0a ∉ name →
  getProcessName (bs "Name:" ++ tabs ++ name ++ x0a :: rest) = Done name ∧
  getProcessName (bs "Name:" ++ tabs ++ name) = Fault (Undefined "past the end of a string").
Proof.
  intros Ht Hh Hn. pose proof (find_text_here (bs "Name:")) as Hfind. unfold getProcessName. rewrite !Hfind.
  change (0 + 5)%nat with (length (bs "Name:")). set (pre := bs "Name:").
  assert (Htn : x0a ∉ tabs) by (intros Hin; rewrite Forall_forall in Ht; by apply Ht in Hin).
  split.
  - rewrite (skip_tabs_app tabs _ pre (name ++ x0a :: rest)); [|done|by destruct name|rewrite !length_app; lia].
    rewrite bind_ret_l, app_assoc, <-length_app.
    rewrite find_eol_app; [|done|rewrite !length_app; cbn; lia]. rewrite bind_ret_l, drop_app_length.
    rewrite Nat.add_comm, Nat.add_sub, take_app_length. done.
  - rewrite (skip_tabs_app tabs _ pre name); [|done|done|rewrite !length_app; lia].
    rewrite bind_ret_l, app_assoc, <-length_app. rewrite find_eol_none; [done|done|]. rewrite !length_app. lia.
Qed.

(** A key is read as the number behind it, at its first occurrence. *)
Theorem number_behind_key key sp n rest :
  Forall (λ c, isspace c = true) sp → 0 ≤ n < 2 ^ 63 → no_digit rest →
  getLong (key ++ sp ++ decimal n ++ rest) key = n.
Proof.
  intros Hsp Hn Hr. unfold getLong. rewrite find_text_here. cbn [Nat.add]. rewrite drop_app_length. by apply strtol_decimal.
Qed.

(** The parts of an age under 2^31 seconds read back to it. *)
Theorem uptime_reads_back now start :
  0 ≤ now - start < 2 ^ 31 * 1000000 →
  ∃ d h m s us,
    uptime now start true = Done (signed_decimal d ++ bs " days " ++ Timestamp.zero_padded 2 h ++ bs ":" ++
      Timestamp.zero_padded 2 m ++ bs ":" ++ Timestamp.zero_padded 2 s ++ bs "." ++ Timestamp.zero_padded 6 us) ∧
    now - start = (((d * 24 + h) * 60 + m) * 60 + s) * 1000000 + us ∧
    0 ≤ d ∧ 0 ≤ h < 24 ∧ 0 ≤ m < 60 ∧ 0 ≤ s < 60 ∧ 0 ≤ us < 1000000.
Proof.
  intros Hage. unfold uptime. set (age := now - start) in *. rewrite int64_ok, bind_ret_l by lia. cbv zeta.
  change Timestamp.kMicroSecondsPerSecond with 1000000. set (q := Z.quot age 1000000).
  assert (Hq : 0 ≤ q < 2 ^ 31) by (subst q; Z.to_euclidean_division_equations; lia).
  rewrite wraps_small by (cbn; lia).
  exists (Z.quot q 86400), (Z.quot (Z.rem q 86400) 3600), (Z.quot (Z.rem q 3600) 60), (Z.rem q 60), (Z.rem age 1000000).
  split; [f_equal; by rewrite <-!app_assoc|]. subst q. Z.to_euclidean_division_equations. lia.
Qed.

(** After 68 years the seconds wrap. *)
Example uptime_wraps : uptime (2 ^ 31 * 1000000) 0 false = Done (bs "-24855 days -3:-14:-8").
Proof. vm_compute. reflexivity. Qed.

(** ** The line of a thread *)
Definition stat_text (tid : Z) (name : bytes) (state : byte) (fields : list bytes) (rest : bytes) : bytes :=
  decimal tid ++ bs " (" ++ name ++ bs ") " ++ state :: SP :: spaced fields ++ rest.

(** The stat file of a thread is read right whatever the name of the thread,
    parentheses and spaces included: the name, the state, and the times, fields
    11 and 12 behind the state; the line is cut at 255 characters. *)
Theorem thread_line_of_stat sys tid name state before utime stime rest :
  0 ≤ tid → x00 ∉ name → state ≠ x00 → state ≠ x29 →
  length before = 10%nat → Forall (λ f, SP ∉ f ∧ x29 ∉ f) before → 0 ≤ utime < 2 ^ 63 → 0 ≤ stime < 2 ^ 63 → x29 ∉ rest →
  let stat := stat_text tid name state (before ++ [decimal utime; decimal stime]) rest in
  let t := in_seconds sys utime stime in
  piece stat (procname_of stat) = name ∧
  ProcessInspector.thread_line sys tid stat =
    Done (take 255 (right_justified 5 (signed_decimal tid) ++ [SP] ++ left_justified 16 name ++ [SP; state; SP] ++
      right_justified 12 (sprintf_f 3 (userSeconds t)) ++ [SP] ++ right_justified 12 (sprintf_f 3 (systemSeconds t)) ++ [x0a])).
Proof.
  intros Htid Hname Hstate Hstate' Hlen Hbefore Hu Hs Hrest stat t. rewrite Forall_forall in Hbefore.
  set (fields := spaced (before ++ [decimal utime; decimal stime])) in *.
  set (a := decimal tid ++ [SP]). set (b := SP :: state :: SP :: fields ++ rest).
  assert (Hstat : stat = a ++ x28 :: name ++ x29 :: b).
  { subst stat a b. unfold stat_text. rewrite <-!app_assoc. reflexivity. }
  assert (Ha : x28 ∉ a).
  { subst a. rewrite elem_of_app, list_elem_of_singleton. intros [H|H]; [by apply digits_no_char in H|done]. }
  assert (Hfields : x29 ∉ fields).
  { subst fields. unfold spaced. intros Hin. apply list_elem_of_In, in_concat in Hin as (f & Hf & Hin).
    apply in_map_iff in Hf as (g & <- & Hg). apply list_elem_of_In in Hin, Hg.
    rewrite elem_of_app, list_elem_of_singleton in Hin. destruct Hin as [Hin|]; [|done].
    rewrite elem_of_app, !elem_of_cons in Hg. destruct Hg as [Hg|[->|[->|Hg]]]; [by apply Hbefore in Hg as []| | |by apply not_elem_of_nil in Hg];
      apply digits_no_char in Hin; done || lia. }
  assert (Hb : x29 ∉ b).
  { subst b. rewrite !elem_of_cons, elem_of_app. intros [|[|[|[|]]]]; congruence || done. }
  rewrite Hstat, procname_of_parts by done. split; [by rewrite piece_parts|].
  unfold ProcessInspector.thread_line. rewrite procname_of_parts by done.
  rewrite <-(Nat.add_0_r (length a + 1 + length name)) at 1. rewrite (char_at_parts _ _ _ _ x29), bind_ret_l by done.
  rewrite bool_decide_true, cassert_bind by done.
  assert (Hins : <[(length a + 1 + length name)%nat := x00]> (a ++ x28 :: name ++ x29 :: b) = a ++ x28 :: name ++ x00 :: b).
  { replace (a ++ x28 :: name ++ x29 :: b) with ((a ++ x28 :: name) ++ x29 :: b) by by rewrite <-app_assoc.
    rewrite insert_app_r_alt by (rewrite length_app; cbn; lia). rewrite length_app. cbn [length].
    replace (_ - _)%nat with 0%nat by lia. cbn. by rewrite <-app_assoc. }
  cbv zeta. rewrite Hins. rewrite (char_at_parts _ _ _ _ state), bind_ret_l by done.
  rewrite defined_if_bind by (apply Nat.leb_le; subst b; rewrite length_app; cbn; rewrite !length_app; cbn; lia).
  rewrite parts_at. change (drop 4 (x00 :: b)) with (fields ++ rest). subst fields.
  rewrite cpu_time_of_fields by (done || by apply Forall_forall; intros f Hf; apply Hbefore in Hf as []). fold t.
  rewrite bool_decide_false by done.
  assert (Hc : c_str (drop (S (length a)) (a ++ x28 :: name ++ x00 :: b)) = name).
  { replace (a ++ x28 :: name ++ x00 :: b) with ((a ++ [x28]) ++ name ++ x00 :: b) by by rewrite <-app_assoc.
    rewrite drop_app_length' by (rewrite length_app; cbn; lia). rewrite c_str_app by done. apply app_nil_r. }
  rewrite Hc. cbn [c_str]. rewrite decide_False by done. reflexivity.
Qed.

(** ** Examples *)
Module Sample.
Definition linux : system :=
  mkSystem 0 0 100 7 (Some (bs "root")) (Some (bs "host")) (bs "/bin/im") (λ _, None)
    [bs "."; bs ".."; bs "0"; bs "1"] [bs "."; bs ".."; bs "9"; bs "7"; bs "12"] (Some 1024) (Some (150, 25)) None.

Lemma thread_line_of_stat_witness :
  ProcessInspector.thread_line linux 9
      (stat_text 9 (bs "a) (b") x53 (replicate 10 (bs "0") ++ [decimal 150; decimal 25]) (bs "0 0")) =
    Done (bs "    9 a) (b            S        1.500        0.250" ++ [x0a]).
Proof.
  destruct (thread_line_of_stat linux 9 (bs "a) (b") x53 (replicate 10 (bs "0")) 150 25 (bs "0 0")) as [_ H].
  - lia.
  - apply (bool_decide_unpack _). vm_compute. exact I.
  - discriminate.
  - discriminate.
  - reflexivity.
  - apply (bool_decide_unpack _). vm_compute. exact I.
  - split; [discriminate|reflexivity].
  - split; [discriminate|reflexivity].
  - apply (bool_decide_unpack _). vm_compute. exact I.
  - etransitivity; [exact H|]. vm_compute. reflexivity.
Defined.

Lemma process_name_read_witness :
  getProcessName (bs "Name:" ++ [x09] ++ bs "im" ++ x0a :: bs "State") = Done (bs "im").
Proof.
  apply (process_name_read [x09] (bs "im") (bs "State")).
  - by repeat constructor.
  - discriminate.
  - apply (bool_decide_unpack _). vm_compute. exact I.
Defined.

(** Threads are listed in numerical order, files counted by their names. *)
Example entries :
  ProcessInfo.threads linux = [7; 9; 12] ∧ ProcessInfo.openedFiles linux = 2.
Proof. vm_compute. done. Qed.

(** A thread whose stat file has no parentheses is looked up behind a null pointer. *)
Example no_name : ProcessInspector.thread_line linux 9 (bs "9 im S") = Fault (Undefined "the end of a null piece").
Proof. vm_compute. reflexivity. Qed.

(** The key of a number is found wherever it stands first: the name of a process
    comes before the lines proper. *)
Example name_read_as_number : getLong (bs "Name: Threads:9" ++ [x0a] ++ bs "Threads: 1") (bs "Threads:") = 9.
Proof. vm_compute. reflexivity. Qed.
End Sample.
