(* ===== verification/Inspector.v ===== *)
(** muduo's inspector (net/inspect/Inspector.h and Inspector.cc): the commands
    other parts register, and the pages its HTTP server answers with.

    A command is any value [C]; running it gives the text of its page.  The
    commands the program registers are those of Process.v. *)

From S2P Require Import Prelude StdMap Http Process.
Local Open Scope Z_scope.

Definition slash : byte := x2f.

(** * Paths *)

(** [str.find( '/', start )] *)
Definition find_slash (str : bytes) (start : nat) : option nat :=
  (λ i, start + i)%nat <$> find_char slash (drop start str).
Fixpoint split_loop (fuel : nat) (str : bytes) (start : nat) (pos : option nat) (result : list bytes) : outcome (list bytes) :=
  match pos with
  | None => Done (if (start <? length str)%nat then result ++ [drop start str] else result)
  | Some pos =>
      match fuel with
      | O => Fault OutOfFuel
      | S fuel =>
          let result := if (start <? pos)%nat then result ++ [take (pos - start) (drop start str)] else result in
          let start := S pos in
          split_loop fuel str start (find_slash str start) result
      end
  end.
Definition split (str : bytes) : outcome (list bytes) := split_loop (S (length str)) str 0 (find_slash str 0) [].

(** * The inspector *)
Module Inspector.
Section Commands.
Context {C : Type} (run : C → HttpRequest.Method → list bytes → outcome bytes).

(** [modules_] and [helps_]; a callback may be empty. *)
Record t := mk {
  modules_ : list (bytes * list (bytes * option C));
  helps_ : list (bytes * list (bytes * bytes))
}.
Definition make : t := mk [] [].

(** [m[ module ][ command ] = x] *)
Definition put {X} (module command : bytes) (x : X) (m : list (bytes * list (bytes * X))) : list (bytes * list (bytes * X)) :=
  StdMap.update (StdMap.assign command x) module (StdMap.subscript module [] m).
Definition add (module command : bytes) (cb : option C) (help : bytes) (s : t) : t :=
  mk (put module command cb (modules_ s)) (put module command help (helps_ s)).
Definition remove (module command : bytes) (s : t) : t :=
  match StdMap.find module (modules_ s) with
  | None => s
  | Some _ =>
      mk (StdMap.update (λ l, (StdMap.erase command l).1) module (modules_ s))
         (StdMap.update (λ l, (StdMap.erase command l).1) module (StdMap.subscript module [] (helps_ s)))
  end.

(** A line of the index, and all of them. *)
Definition help_line (module command help : bytes) : bytes :=
  let len := (length module + length command)%nat in
  slash :: module ++ slash :: command ++ repeat x20 (if (25 <=? len)%nat then 1 else 25 - len) ++ help ++ [x0a].
Definition index (s : t) : bytes :=
  concat (map (λ m, concat (map (λ c, help_line m.1 c.1 c.2) m.2)) (helps_ s)).

Definition ok_page (contentType : string) (body : bytes) (resp : HttpResponse.t) : HttpResponse.t :=
  HttpResponse.setBody body (HttpResponse.setContentType (bs contentType)
    (HttpResponse.setStatusMessage (bs "OK") (HttpResponse.setStatusCode HttpResponse.k200Ok resp))).
Definition not_found (resp : HttpResponse.t) : HttpResponse.t :=
  HttpResponse.setStatusMessage (bs "Not Found") (HttpResponse.setStatusCode HttpResponse.k404NotFound resp).

(** [favicon] *)
Definition favicon : bytes := [
   x89; x50; x4e; x47; x0d; x0a; x1a; x0a; x00; x00; x00; x0d; x49; x48; x44; x52;
   x00; x00; x00; x10; x00; x00; x00; x10; x08; x06; x00; x00; x00; x1f; xf3; xff;
   x61; x00; x00; x00; x04; x73; x42; x49; x54; x08; x08; x08; x08; x7c; x08; x64;
   x88; x00; x00; x00; x09; x70; x48; x59; x73; x00; x00; x0b; x12; x00; x00; x0b;
   x12; x01; xd2; xdd; x7e; xfc; x00; x00; x00; x1c; x74; x45; x58; x74; x53; x6f;
   x66; x74; x77; x61; x72; x65; x00; x41; x64; x6f; x62; x65; x20; x46; x69; x72;
   x65; x77; x6f; x72; x6b; x73; x20; x43; x53; x33; x98; xd6; x46; x03; x00; x00;
   x00; x15; x74; x45; x58; x74; x43; x72; x65; x61; x74; x69; x6f; x6e; x20; x54;
   x69; x6d; x65; x00; x32; x2f; x31; x37; x2f; x30; x38; x20; x9c; xaa; x58; x00;
   x00; x04; x11; x74; x45; x58; x74; x58; x4d; x4c; x3a; x63; x6f; x6d; x2e; x61;
   x64; x6f; x62; x65; x2e; x78; x6d; x70; x00; x3c; x3f; x78; x70; x61; x63; x6b;
   x65; x74; x20; x62; x65; x67; x69; x6e; x3d; x22; x20; x20; x20; x22; x20; x69;
   x64; x3d; x22; x57; x35; x4d; x30; x4d; x70; x43; x65; x68; x69; x48; x7a; x72;
   x65; x53; x7a; x4e; x54; x63; x7a; x6b; x63; x39; x64; x22; x3f; x3e; x0a; x3c;
   x78; x3a; x78; x6d; x70; x6d; x65; x74; x61; x20; x78; x6d; x6c; x6e; x73; x3a;
   x78; x3d; x22; x61; x64; x6f; x62; x65; x3a; x6e; x73; x3a; x6d; x65; x74; x61;
   x2f; x22; x20; x78; x3a; x78; x6d; x70; x74; x6b; x3d; x22; x41; x64; x6f; x62;
   x65; x20; x58; x4d; x50; x20; x43; x6f; x72; x65; x20; x34; x2e; x31; x2d; x63;
   x30; x33; x34; x20; x34; x36; x2e; x32; x37; x32; x39; x37; x36; x2c; x20; x53;
   x61; x74; x20; x4a; x61; x6e; x20; x32; x37; x20; x32; x30; x30; x37; x20; x32;
   x32; x3a; x31; x31; x3a; x34; x31; x20; x20; x20; x20; x20; x20; x20; x20; x22;
   x3e; x0a; x20; x20; x20; x3c; x72; x64; x66; x3a; x52; x44; x46; x20; x78; x6d;
   x6c; x6e; x73; x3a; x72; x64; x66; x3d; x22; x68; x74; x74; x70; x3a; x2f; x2f;
   x77; x77; x77; x2e; x77; x33; x2e; x6f; x72; x67; x2f; x31; x39; x39; x39; x2f;
   x30; x32; x2f; x32; x32; x2d; x72; x64; x66; x2d; x73; x79; x6e; x74; x61; x78;
   x2d; x6e; x73; x23; x22; x3e; x0a; x20; x20; x20; x20; x20; x20; x3c; x72; x64;
   x66; x3a; x44; x65; x73; x63; x72; x69; x70; x74; x69; x6f; x6e; x20; x72; x64;
   x66; x3a; x61; x62; x6f; x75; x74; x3d; x22; x22; x0a; x20; x20; x20; x20; x20;
   x20; x20; x20; x20; x20; x20; x20; x78; x6d; x6c; x6e; x73; x3a; x78; x61; x70;
   x3d; x22; x68; x74; x74; x70; x3a; x2f; x2f; x6e; x73; x2e; x61; x64; x6f; x62;
   x65; x2e; x63; x6f; x6d; x2f; x78; x61; x70; x2f; x31; x2e; x30; x2f; x22; x3e;
   x0a; x20; x20; x20; x20; x20; x20; x20; x20; x20; x3c; x78; x61; x70; x3a; x43;
   x72; x65; x61; x74; x6f; x72; x54; x6f; x6f; x6c; x3e; x41; x64; x6f; x62; x65;
   x20; x46; x69; x72; x65; x77; x6f; x72; x6b; x73; x20; x43; x53; x33; x3c; x2f;
   x78; x61; x70; x3a; x43; x72; x65; x61; x74; x6f; x72; x54; x6f; x6f; x6c; x3e;
   x0a; x20; x20; x20; x20; x20; x20; x20; x20; x20; x3c; x78; x61; x70; x3a; x43;
   x72; x65; x61; x74; x65; x44; x61; x74; x65; x3e; x32; x30; x30; x38; x2d; x30;
   x32; x2d; x31; x37; x54; x30; x32; x3a; x33; x36; x3a; x34; x35; x5a; x3c; x2f;
   x78; x61; x70; x3a; x43; x72; x65; x61; x74; x65; x44; x61; x74; x65; x3e; x0a;
   x20; x20; x20; x20; x20; x20; x20; x20; x20; x3c; x78; x61; x70; x3a; x4d; x6f;
   x64; x69; x66; x79; x44; x61; x74; x65; x3e; x32; x30; x30; x38; x2d; x30; x33;
   x2d; x32; x34; x54; x31; x39; x3a; x30; x30; x3a; x34; x32; x5a; x3c; x2f; x78;
   x61; x70; x3a; x4d; x6f; x64; x69; x66; x79; x44; x61; x74; x65; x3e; x0a; x20;
   x20; x20; x20; x20; x20; x3c; x2f; x72; x64; x66; x3a; x44; x65; x73; x63; x72;
   x69; x70; x74; x69; x6f; x6e; x3e; x0a; x20; x20; x20; x20; x20; x20; x3c; x72;
   x64; x66; x3a; x44; x65; x73; x63; x72; x69; x70; x74; x69; x6f; x6e; x20; x72;
   x64; x66; x3a; x61; x62; x6f; x75; x74; x3d; x22; x22; x0a; x20; x20; x20; x20;
   x20; x20; x20; x20; x20; x20; x20; x20; x78; x6d; x6c; x6e; x73; x3a; x64; x63;
   x3d; x22; x68; x74; x74; x70; x3a; x2f; x2f; x70; x75; x72; x6c; x2e; x6f; x72;
   x67; x2f; x64; x63; x2f; x65; x6c; x65; x6d; x65; x6e; x74; x73; x2f; x31; x2e;
   x31; x2f; x22; x3e; x0a; x20; x20; x20; x20; x20; x20; x20; x20; x20; x3c; x64;
   x63; x3a; x66; x6f; x72; x6d; x61; x74; x3e; x69; x6d; x61; x67; x65; x2f; x70;
   x6e; x67; x3c; x2f; x64; x63; x3a; x66; x6f; x72; x6d; x61; x74; x3e; x0a; x20;
   x20; x20; x20; x20; x20; x3c; x2f; x72; x64; x66; x3a; x44; x65; x73; x63; x72;
   x69; x70; x74; x69; x6f; x6e; x3e; x0a; x20; x20; x20; x3c; x2f; x72; x64; x66;
   x3a; x52; x44; x46; x3e; x0a; x3c; x2f; x78; x3a; x78; x6d; x70; x6d; x65; x74;
   x61; x3e; x0a; x20; x20; x20; x20; x20; x20; x20; x20; x20; x20; x20; x20; x20;
   x20; x20; x20; x20; x20; x20; x20; x20; x20; x20; x20; x20; x20; x20; x20; x20;
   x20; x20; x20; x20; x20; x20; x20; x20; x20; x20; x20; x20; x20; x20; x20; x20;
   x20; x20; x20; x20; x20; x20; x20; x20; x20; x20; x20; x20; x20; x20; x20; x20;
   x20; x20; x20; x20; x20; x20; x20; x20; x20; x20; x20; x20; x20; x20; x20; x20;
   x20; x20; x20; x20; x20; x20; x20; x20; x20; x20; x20; x20; x20; x20; x20; x20;
   x20; x20; x20; x20; x20; x20; x20; x0a; x20; x20; x20; x20; x20; x20; x20; x20;
   x20; x20; x20; x20; x20; x20; x20; x20; x20; x20; x20; x20; x20; x20; x20; x20;
   x20; x20; x20; x20; x20; x20; x20; x20; x20; x20; x20; x20; x20; x20; x20; x20;
   x20; x20; x20; x20; x20; x20; x20; x20; x20; x20; x20; x20; x20; x20; x20; x20;
   x20; x20; x20; x20; x20; x20; x20; x20; x20; x20; x20; x20; x20; x20; x20; x20;
   x20; x20; x20; x20; x20; x20; x20; x20; x20; x20; x20; x20; x20; x20; x20; x20;
   x20; x20; x20; x20; x20; x20; x20; x20; x20; x20; x20; x20; x0a; x20; x20; x20;
   x20; x20; x20; x20; x20; x20; x20; x20; x20; x20; x20; x20; x20; x20; x20; x20;
   x20; x20; x20; x20; x20; x20; x20; x20; x20; x20; x20; x20; x20; x20; x20; x20;
   x20; x20; x20; x20; x20; x20; x20; x20; x20; x20; x20; x20; x20; x20; x20; x20;
   x20; x20; x20; x20; x20; x20; x20; x20; x20; x20; x20; x20; x20; x20; x20; x20;
   x20; x20; x20; x20; x20; x20; x20; x20; x20; x20; x20; x20; x20; x20; x20; x20;
   x20; x20; x20; x20; x20; x20; x20; x20; x35; x1d; x52; x64; x00; x00; x02; x0b;
   x49; x44; x41; x54; x38; x8d; xa5; x93; x41; x6b; x1a; x41; x18; x86; x9f; x89;
   x06; x23; x2e; x74; xf5; x20; x4a; x0e; x6b; x20; xe4; xe2; xa5; x78; xc8; xa1;
   x78; x89; x82; x17; x85; x82; x82; x3d; x26; x62; x58; x72; xcd; x4f; xf1; x18;
   x4b; x1b; x2f; xa5; x32; xe0; xb5; x9e; x35; x1a; x58; x2f; xe9; x0f; xe8; x65;
   x6d; x84; xa2; x84; x2c; x0a; x6b; x58; x62; xa7; x87; x68; x68; x13; xa1; xa5;
   x79; xe1; x3b; x0c; xc3; xfb; xcc; x37; xef; x7c; x23; x94; x52; xbc; x44; x7e;
   x00; x21; x04; x00; xad; x56; xcb; x18; x8f; xc7; x0d; xdb; xb6; xd3; x8e; xe3;
   xf8; x83; xc1; xa0; x8a; xc7; xe3; x3f; x12; x89; x44; xb9; x5c; x2e; xf7; x56;
   xa6; xdf; x0f; x15; x4a; x29; x84; x10; x34; x9b; xcd; x77; x96; x65; x7d; x36;
   x0c; x43; xe4; x72; x39; xe2; xf1; x38; xb7; xb7; xb7; xf4; xfb; x7d; x06; x83;
   x01; xa9; x54; xea; x43; xa5; x52; x39; x7e; x0a; x40; x29; x45; xab; xd5; x32;
   x4e; x4f; x4f; x7f; x4a; x29; xd5; xdd; xdd; xdd; xb3; xea; xf5; x7a; xea; xe4;
   xe4; x44; x49; x29; xd3; x2b; xcf; xaa; x36; x00; xc6; xe3; x71; x63; x67; x67;
   x47; xe4; xf3; x79; x00; x3c; xcf; xa3; x50; x28; xe0; xba; x2e; x9e; xe7; x91;
   x4a; xa5; xd8; xdb; xdb; x63; x34; x1a; x7d; x7c; x9a; xc1; x06; x80; x6d; xdb;
   xe9; x6c; x36; x8b; xcf; xe7; xc3; xf3; x3c; x5c; xd7; x05; x60; x36; x9b; xe1;
   xba; x2e; x8b; xc5; x82; x4c; x26; x83; x6d; xdb; xbb; x6b; x43; x74; x1c; xc7;
   x1f; x8b; xc5; x00; x28; x16; x8b; x8f; x9b; xd5; x6a; x15; x00; x29; x25; x9a;
   xa6; x31; x9f; xcf; xc5; x5a; xc0; xd6; xd6; x96; x9a; x4c; x26; x22; x14; x0a;
   x21; xa5; x64; x36; x9b; x51; xad; x56; xa9; xd5; x6a; x68; x9a; x06; xc0; xf5;
   xf5; x35; xba; xae; xdf; xaf; xbd; x82; x61; x18; xdf; x2c; xcb; x7a; x20; xfa;
   xfd; x04; x02; x01; x00; x34; x4d; x23; x10; x08; xb0; x58; x2c; xe8; x76; xbb;
   x24; x12; x89; x8b; xb5; x1d; x6c; x6f; x6f; x1f; x75; x3a; x9d; x7e; x38; x1c;
   x26; x97; xcb; x21; x84; x40; x4a; x09; xc0; xe6; xe6; x26; xed; x76; x9b; xc9;
   x64; xa2; xa6; xd3; xe9; x27; x78; x98; x9b; xd5; x53; x3e; xce; xc1; xf9; xf9;
   xf9; xfb; xc1; x60; x70; x9c; x4c; x26; xd9; xdf; xdf; x27; x12; x89; x30; x1c;
   x0e; xb9; xbc; xbc; xe4; xe6; xe6; x46; xf9; x7c; xbe; x2f; xd3; xe9; x34; x0f;
   x34; xea; xf5; x7a; xe5; x19; x60; x19; xd6; x9b; xd1; x68; xd4; x18; x0e; x87;
   xbb; xf3; xf9; x5c; xe8; xba; x7e; x6f; x18; xc6; x45; x34; x1a; x3d; x2c; x95;
   x4a; xdf; x4d; xd3; xbc; x02; x5e; x03; x5f; x81; x83; xb3; xb3; x33; xe7; x0f;
   xc0; xdf; x64; x9a; xa6; xb1; x34; xeb; x80; x03; x1c; x6c; xfc; x93; x73; xa9;
   x7a; xbd; x6e; x03; x47; xcb; xa5; x0e; xbc; xe2; x7f; x7e; xa3; x69; x9a; x87;
   xa6; x69; xbe; x55; x4a; x3d; x64; xf0; x12; xfd; x02; x0d; x53; x06; x24; x88;
   x3f; xe1; x69; x00; x00; x00; x00; x49; x45; x4e; x44; xae; x42; x60; x82].

(** [onRequest( req, resp )] *)
Definition onRequest (req : HttpRequest.t) (resp : HttpResponse.t) (s : t) : outcome HttpResponse.t :=
  if bool_decide (HttpRequest.path_ req = [slash]) then Done (ok_page "text/plain" (index s) resp)
  else
    result ← split (HttpRequest.path_ req);
    match result with
    | [] => Done (not_found resp)
    | [module] =>
        Done (if bool_decide (module = bs "favicon.ico") then ok_page "image/png" favicon resp else not_found resp)
    | module :: command :: args =>
        match StdMap.find module (modules_ s) with
        | None => Done (not_found resp)
        | Some commList =>
            match StdMap.find command commList with
            | Some (Some cb) =>
                body ← run cb (HttpRequest.method_ req) args;
                Done (ok_page "text/plain" body resp)
            | _ => Done (not_found resp)
            end
        end
    end.
End Commands.
Arguments t : clear implicits.
End Inspector.

(** * The commands of the program *)
Inductive command :=
  | proc_overview | proc_pid | proc_status | proc_threads
  | sys_overview | sys_loadavg | sys_version | sys_cpuinfo | sys_meminfo | sys_stat.

Section Run.
Context (sys : system) (debug : bool).
Definition run_command (c : command) (_ : HttpRequest.Method) (_ : list bytes) : outcome bytes :=
  match c with
  | proc_overview => ProcessInspector.overview sys debug
  | proc_pid => Done (take 31 (ProcessInfo.pidString sys))
  | proc_status => Done (ProcessInfo.procStatus sys)
  | proc_threads => ProcessInspector.threads sys
  | sys_overview => SystemInspector.overview sys
  | sys_loadavg => Done (SystemInspector.loadavg sys)
  | sys_version => Done (SystemInspector.version sys)
  | sys_cpuinfo => Done (SystemInspector.cpuinfo sys)
  | sys_meminfo => Done (SystemInspector.meminfo sys)
  | sys_stat => Done (SystemInspector.stat sys)
  end.
End Run.

(** [ProcessInspector::registerCommands], [SystemInspector::registerCommands] and
    the constructor, which calls them in this order. *)
Definition register (module cmd : string) (cb : command) (help : string) (s : Inspector.t _) : Inspector.t _ :=
  Inspector.add (bs module) (bs cmd) (Some cb) (bs help) s.
Definition ProcessInspector_registerCommands (s : Inspector.t command) : Inspector.t command :=
  let s := register "proc" "overview" proc_overview "print basic overview" s in
  let s := register "proc" "pid" proc_pid "print pid" s in
  let s := register "proc" "status" proc_status "print /proc/self/status" s in
  register "proc" "threads" proc_threads "list /proc/self/task" s.
Definition SystemInspector_registerCommands (s : Inspector.t command) : Inspector.t command :=
  let s := register "sys" "overview" sys_overview "print system overview" s in
  let s := register "sys" "loadavg" sys_loadavg "print /proc/loadavg" s in
  let s := register "sys" "version" sys_version "print /proc/version" s in
  let s := register "sys" "cpuinfo" sys_cpuinfo "print /proc/cpuinfo" s in
  let s := register "sys" "meminfo" sys_meminfo "print /proc/meminfo" s in
  register "sys" "stat" sys_stat "print /proc/stat" s.
Definition Inspector_make : Inspector.t command := SystemInspector_registerCommands (ProcessInspector_registerCommands Inspector.make).

(** * Lemmas on paths *)

(** The parts of a path: the texts between slashes that are not empty. *)
Fixpoint fields (s : bytes) : list bytes :=
  match s with
  | [] => [[]]
  | c :: s =>
      if bool_decide (c = slash) then [] :: fields s
      else match fields s with f :: fs => (c :: f) :: fs | [] => [[c]] end
  end.
Definition components (s : bytes) : list bytes := filter (λ f, f ≠ []) (fields s).

Lemma fields_no_slash f : slash ∉ f → fields f = [f].
Proof.
  induction f as [|c f IH]; intros Hf; [done|]. apply not_elem_of_cons in Hf as [Hc Hf]. cbn [fields].
  by rewrite bool_decide_false, IH by congruence.
Qed.
Lemma fields_slash f r : slash ∉ f → fields (f ++ slash :: r) = f :: fields r.
Proof.
  induction f as [|c f IH]; intros Hf; [done|]. apply not_elem_of_cons in Hf as [Hc Hf]. cbn [fields app].
  by rewrite bool_decide_false, IH by congruence.
Qed.

Lemma find_char_some c s i : find_char c s = Some i → ∃ l r, s = l ++ c :: r ∧ length l = i ∧ c ∉ l.
Proof.
  unfold find_char. destruct (list_find _ s) as [[j x]|] eqn:E; [|done]. intros [= <-].
  apply list_find_Some in E as (Hj & -> & Hlt). exists (take j s), (drop (S j) s).
  split; [symmetry; by apply take_drop_middle|]. split; [apply length_take_le; apply lookup_lt_Some in Hj; lia|].
  intros Hin. apply list_elem_of_lookup in Hin as [k Hk]. apply lookup_take_Some in Hk as [Hk Hkj]. by eapply Hlt.
Qed.
Lemma find_char_none c s : find_char c s = None → c ∉ s.
Proof.
  unfold find_char. destruct (list_find _ s) as [[]|] eqn:E; [done|]. intros _ Hin. apply list_find_None in E.
  rewrite Forall_forall in E. by eapply E.
Qed.

Lemma split_loop_components str : ∀ fuel start result,
  (start ≤ length str)%nat → (length str - start < fuel)%nat →
  split_loop fuel str start (find_slash str start) result = Done (result ++ components (drop start str)).
Proof.
  induction fuel as [|fuel IH]; intros start result Hs Hf; [lia|]. unfold find_slash.
  destruct (find_char slash (drop start str)) as [i|] eqn:E; cbn [fmap option_fmap option_map split_loop].
  - apply find_char_some in E as (l & r & Hd & Hl & Hn). rewrite Hd. unfold components. rewrite fields_slash by done.
    assert (Hlen : (start + i < length str)%nat).
    { apply (f_equal length) in Hd. rewrite length_drop, length_app in Hd. cbn [length] in Hd. lia. }
    rewrite IH by lia. replace (drop (S (start + i)) str) with r.
    2: { replace (S (start + i)) with (start + S i)%nat by lia. rewrite <-drop_drop, Hd.
         replace (l ++ slash :: r) with ((l ++ [slash]) ++ r) by by rewrite <-app_assoc.
         symmetry. apply drop_app_length'. rewrite length_app. cbn. lia. }
    replace (start + i - start)%nat with i by lia. rewrite take_app_length' by done. rewrite filter_cons.
    destruct l as [|c l]; cbn [length] in Hl; subst i.
    + rewrite (proj2 (Nat.ltb_ge _ _)), decide_False by (lia || (intros H; by apply H)). done.
    + rewrite (proj2 (Nat.ltb_lt _ _)), decide_True by (done || lia). by rewrite <-app_assoc.
  - apply find_char_none in E. unfold components. rewrite fields_no_slash by done. rewrite filter_cons.
    destruct (Nat.ltb_spec start (length str)) as [Hlt|Hge].
    + rewrite decide_True; [done|]. intros Hd. apply (f_equal length) in Hd. rewrite length_drop in Hd. cbn in Hd. lia.
    + rewrite drop_ge, decide_False by (lia || (intros H; by apply H)). by rewrite app_nil_r.
Qed.

Lemma components_cons f r : slash ∉ f → components (slash :: f ++ r) = components (f ++ r).
Proof. intros Hf. unfold components. cbn [fields]. rewrite bool_decide_true by done. rewrite filter_cons, decide_False; [done|auto]. Qed.
Definition path_of (cs : list bytes) : bytes := concat (map (cons slash) cs).
Definition component (f : bytes) : Prop := f ≠ [] ∧ slash ∉ f.
Lemma components_path cs : Forall component cs → components (path_of cs) = cs.
Proof.
  induction 1 as [|f cs [Hne Hf] Hcs IH]; [done|]. change (path_of (f :: cs)) with (slash :: f ++ path_of cs).
  rewrite components_cons by done. unfold components in *. destruct cs as [|g cs].
  - change (path_of []) with (@nil byte). rewrite app_nil_r, fields_no_slash by done. rewrite filter_cons, decide_True by done. done.
  - change (path_of (g :: cs)) with (slash :: g ++ path_of cs) in *. rewrite fields_slash by done.
    rewrite filter_cons, decide_True by done. f_equal. rewrite <-IH. cbn [fields]. rewrite bool_decide_true by done.
    by rewrite filter_cons, decide_False by auto.
Qed.

(** * Lemmas on the registered commands *)
Section Tables.
Context {X : Type}.
Implicit Types (M : list (bytes * list (bytes * X))).

Definition good M : Prop := StdMap.wf M ∧ Forall (λ p, StdMap.wf p.2) M.
Definition look M (k : bytes * bytes) : option X := StdMap.find k.1 M ≫= StdMap.find k.2.

Lemma good_find M module l : good M → StdMap.find module M = Some l → StdMap.wf l.
Proof. intros [_ Hi] Hf. apply StdMap.find_elem in Hf. rewrite Forall_forall in Hi. by apply (Hi _ Hf). Qed.
Lemma good_subscript M module : good M → good (StdMap.subscript module [] M).
Proof.
  intros [Ho Hi]. unfold StdMap.subscript. split; [by apply StdMap.wf_insert|]. unfold StdMap.insert.
  destruct (StdMap.find module M); [done|]. apply StdMap.Forall_assign; [apply StdMap.wf_nil|done|]. intros. apply StdMap.wf_nil.
Qed.
Lemma Forall_updated {K V} `{KeyOrder K} (P : K * V → Prop) g k (m : list (K * V)) :
  (∀ k' v, P (k', v) → P (k', g v)) → Forall P m → Forall P (StdMap.update g k m).
Proof.
  intros Hg. induction 1 as [|[k' v] m Hp Hm IH]; [done|]. cbn [StdMap.update].
  destruct (key_lt k' k); [by constructor|]. destruct (key_lt k k'); constructor; auto.
Qed.
Lemma good_update g M module : good M → (∀ l, StdMap.wf l → StdMap.wf (g l)) → good (StdMap.update g module M).
Proof. intros [Ho Hi] Hg. split; [by apply StdMap.wf_update|]. apply Forall_updated; [|done]. intros k v. apply Hg. Qed.

Lemma find_subscript module m' M :
  StdMap.find m' (StdMap.subscript module [] M) =
    if decide (m' = module) then Some (default [] (StdMap.find module M)) else StdMap.find m' M.
Proof.
  unfold StdMap.subscript. destruct (StdMap.find module M) as [l|] eqn:E.
  - unfold StdMap.insert. rewrite E. by destruct (decide (m' = module)) as [->|].
  - by rewrite StdMap.find_insert_fresh.
Qed.
Lemma look_subscript module M k : look (StdMap.subscript module [] M) k = look M k.
Proof.
  unfold look. rewrite find_subscript. destruct (decide (k.1 = module)) as [->|]; [|done]. by destruct (StdMap.find module M).
Qed.
Lemma look_update g module M k :
  look (StdMap.update g module M) k =
    if decide (k.1 = module) then StdMap.find module M ≫= λ l, StdMap.find k.2 (g l) else look M k.
Proof.
  unfold look. destruct (decide (k.1 = module)) as [->|Hne].
  - rewrite StdMap.find_update_eq. by destruct (StdMap.find module M).
  - by rewrite StdMap.find_update_ne.
Qed.

Lemma good_put M module cmd (x : X) : good M → good (Inspector.put module cmd x M).
Proof. intros Hg. apply good_update; [by apply good_subscript|]. intros l. apply StdMap.wf_assign. Qed.
Lemma look_put M module cmd (x : X) k :
  look (Inspector.put module cmd x M) k = if decide (k = (module, cmd)) then Some x else look M k.
Proof.
  unfold Inspector.put. rewrite look_update, find_subscript, (decide_True (P := module = module)) by done. cbn. destruct k as [m' c']. cbn.
  destruct (decide (m' = module)) as [->|Hm].
  - destruct (decide (c' = cmd)) as [->|Hc].
    + by rewrite decide_True, StdMap.find_assign_eq.
    + rewrite decide_False, StdMap.find_assign_ne by congruence. unfold look. cbn. by destruct (StdMap.find module M).
  - rewrite decide_False by congruence. by rewrite look_subscript.
Qed.
Lemma look_erase M module cmd k :
  good M → look (StdMap.update (λ l, (StdMap.erase cmd l).1) module M) k =
    if decide (k = (module, cmd)) then None else look M k.
Proof.
  intros Hg. rewrite look_update. destruct k as [m' c']. cbn. destruct (decide (m' = module)) as [->|Hm].
  - destruct (StdMap.find module M) as [l|] eqn:E.
    + pose proof (good_find _ _ _ Hg E) as Hl. cbn. destruct (decide (c' = cmd)) as [->|Hc].
      * by rewrite decide_True, StdMap.find_erase_eq.
      * rewrite decide_False, StdMap.find_erase_ne by congruence. unfold look. cbn. by rewrite E.
    + cbn. unfold look. cbn. rewrite E. by case_decide.
  - by rewrite decide_False by congruence.
Qed.

(** All entries, in the order of the modules and their commands. *)
Definition listing M : list ((bytes * bytes) * X) := concat (map (λ m, map (λ c, ((m.1, c.1), c.2)) m.2) M).
Definition pair_lt (a b : bytes * bytes) : Prop :=
  key_lt a.1 b.1 = true ∨ a.1 = b.1 ∧ key_lt a.2 b.2 = true.
Lemma StronglySorted_app_2 {A} (R : A → A → Prop) l l' :
  StronglySorted R l → StronglySorted R l' → (∀ x y, x ∈ l → y ∈ l' → R x y) → StronglySorted R (l ++ l').
Proof.
  induction 1 as [|x l Hl IH Hx]; intros Hl' Hr; [done|]. cbn. constructor.
  - apply IH; [done|]. intros y z Hy. apply Hr. by right.
  - apply Forall_app. split; [done|]. apply Forall_forall. intros y Hy. apply Hr; [by left|done].
Qed.
Lemma listing_sorted M : good M → StronglySorted (λ a b, pair_lt a.1 b.1) (listing M).
Proof.
  induction M as [|[module l] M IH]; intros [Ho Hi]; [constructor|]. apply StdMap.wf_cons in Ho as [Ho Hf].
  apply Forall_cons in Hi as [Hl Hi]. unfold listing. cbn [map concat fst snd]. apply StronglySorted_app_2.
  - clear -Hl. unfold StdMap.wf in Hl. cbn in Hl. induction Hl as [|[c x] l1 Hl IH Hx]; [constructor|]. cbn. constructor; [done|].
    apply Forall_fmap. eapply Forall_impl; [exact Hx|]. intros [c' x'] Hlt. right. done.
  - by apply IH.
  - intros [[m1 c1] x1] y H1 H2. apply list_elem_of_fmap in H1 as ([c x] & [= -> -> ->] & _).
    apply list_elem_of_In, in_concat in H2 as (q & Hq & H2). apply in_map_iff in Hq as ([m2 l2] & <- & Hm).
    apply list_elem_of_In in H2, Hm. apply list_elem_of_fmap in H2 as ([c2 x2] & -> & _). left. cbn.
    rewrite Forall_forall in Hf. apply (Hf _ Hm).
Qed.
Lemma listing_look M k x : good M → (k, x) ∈ listing M ↔ look M k = Some x.
Proof.
  intros Hg. pose proof Hg as [Ho Hi]. destruct k as [m' c']. unfold look, listing. cbn. split.
  - intros H2. apply list_elem_of_In, in_concat in H2 as (q & Hq & H2). apply in_map_iff in Hq as ([m2 l2] & <- & Hm).
    apply list_elem_of_In in H2, Hm. apply list_elem_of_fmap in H2 as ([c2 x2] & [= -> -> ->] & Hc). cbn in *.
    rewrite (proj2 (StdMap.find_In _ _ _ Ho) Hm). cbn. apply StdMap.find_In; [|done].
    rewrite Forall_forall in Hi. apply (Hi _ Hm).
  - destruct (StdMap.find m' M) as [l|] eqn:E; [|done]. cbn. intros Hc. apply StdMap.find_elem in E, Hc.
    apply list_elem_of_In, in_concat. exists (map (λ c, ((m', c.1), c.2)) l). split.
    + apply in_map_iff. exists (m', l). split; [done|]. by apply list_elem_of_In.
    + apply list_elem_of_In, list_elem_of_fmap. by exists (c', x).
Qed.
End Tables.

(** ** Histories *)
Section History.
Context {C : Type} (run : C → HttpRequest.Method → list bytes → outcome bytes).

Inductive call := Add (module cmd : bytes) (cb : option C) (help : bytes) | Remove (module cmd : bytes).
Definition do (s : Inspector.t C) (c : call) : Inspector.t C :=
  match c with
  | Add module cmd cb help => Inspector.add module cmd cb help s
  | Remove module cmd => Inspector.remove module cmd s
  end.
(** What is registered: the callback and the help of each command. *)
Definition registered (R : gmap (bytes * bytes) (option C * bytes)) (c : call) : gmap (bytes * bytes) (option C * bytes) :=
  match c with
  | Add module cmd cb help => <[(module, cmd) := (cb, help)]> R
  | Remove module cmd => delete (module, cmd) R
  end.

Record rep (s : Inspector.t C) (R : gmap (bytes * bytes) (option C * bytes)) : Prop := {
  rep_modules : good (Inspector.modules_ s);
  rep_helps : good (Inspector.helps_ s);
  rep_callback k : look (Inspector.modules_ s) k = fst <$> R !! k;
  rep_help k : look (Inspector.helps_ s) k = snd <$> R !! k
}.
Lemma rep_empty : rep Inspector.make ∅.
Proof. by split; [split; constructor|split; constructor|..]; intros k; rewrite lookup_empty. Qed.

Lemma do_rep s R c : rep s R → rep (do s c) (registered R c).
Proof.
  intros [Hm Hh Hc Hl]. destruct c as [module cmd cb help|module cmd]; cbn [do registered].
  - split; cbn [Inspector.modules_ Inspector.helps_ Inspector.add]; [by apply good_put|by apply good_put|..]; intros k; rewrite look_put, lookup_insert, ?Hc, ?Hl;
      repeat case_decide; congruence || done.
  - unfold Inspector.remove. destruct (StdMap.find module (Inspector.modules_ s)) as [l|] eqn:E.
    + pose proof (good_subscript _ module Hh) as Hs. split; cbn [Inspector.modules_ Inspector.helps_].
      * apply good_update; [done|]. intros ?. apply StdMap.wf_erase.
      * apply good_update; [done|]. intros ?. apply StdMap.wf_erase.
      * intros k. rewrite look_erase, lookup_delete, Hc by done. repeat case_decide; congruence || done.
      * intros k. rewrite look_erase, look_subscript, lookup_delete, Hl by done. repeat case_decide; congruence || done.
    + assert (HR : delete (module, cmd) R = R).
      { apply delete_id. specialize (Hc (module, cmd)). unfold look in Hc. cbn in Hc. rewrite E in Hc.
        by destruct (R !! (module, cmd)). }
      by rewrite HR.
Qed.
Lemma calls_rep l : rep (foldl do Inspector.make l) (foldl registered ∅ l).
Proof.
  enough (H : ∀ s R, rep s R → rep (foldl do s l) (foldl registered R l)) by apply H, rep_empty.
  induction l as [|c l IH]; intros s R Hr; [done|]. cbn. apply IH, do_rep, Hr.
Qed.

(** The index prints the listing. *)
Lemma index_listing (s : Inspector.t C) :
  Inspector.index s = concat (map (λ e, Inspector.help_line e.1.1 e.1.2 e.2) (listing (Inspector.helps_ s))).
Proof.
  unfold Inspector.index, listing. induction (Inspector.helps_ s) as [|[module l] M IH]; [done|].
  cbn [map concat fst snd]. rewrite map_app, concat_app, <-IH. f_equal. by rewrite map_map.
Qed.

(** After any calls of [add] and [remove], a request for /module/command is
    answered with what the callback registered last for it gives for the method
    and the further parts of the path, however many slashes stand between them,
    and everything else with 404 but the icon and the index, which lists exactly
    the commands registered, with their help, in order. *)
Theorem inspector_answers l req resp :
  let s := foldl do Inspector.make l in
  let R := foldl registered ∅ l in
  let answer := Inspector.onRequest run req resp s in
  (HttpRequest.path_ req = [slash] →
    ∃ es, answer = Done (Inspector.ok_page "text/plain" (concat (map (λ e, Inspector.help_line e.1.1 e.1.2 e.2) es)) resp) ∧
      StronglySorted (λ a b, pair_lt a.1 b.1) es ∧ ∀ k help, (k, help) ∈ es ↔ ∃ cb, R !! k = Some (cb, help)) ∧
  (∀ module cmd args, components (HttpRequest.path_ req) = module :: cmd :: args →
    answer = match R !! (module, cmd) with
             | Some (Some cb, _) =>
                 body ← run cb (HttpRequest.method_ req) args; Done (Inspector.ok_page "text/plain" body resp)
             | _ => Done (Inspector.not_found resp)
             end) ∧
  (∀ module, components (HttpRequest.path_ req) = [module] →
    answer = Done (if bool_decide (module = bs "favicon.ico") then Inspector.ok_page "image/png" Inspector.favicon resp
                   else Inspector.not_found resp)) ∧
  (components (HttpRequest.path_ req) = [] → HttpRequest.path_ req ≠ [slash] → answer = Done (Inspector.not_found resp)).
Proof.
  intros s R answer. pose proof (calls_rep l : rep s R) as [Hm Hh Hc Hl]. subst answer. unfold Inspector.onRequest.
  assert (Hsplit : split (HttpRequest.path_ req) = Done (components (HttpRequest.path_ req))).
  { unfold split. by rewrite split_loop_components by lia. }
  rewrite Hsplit, bind_ret_l.
  assert (Hroot : ∀ c cs, components (HttpRequest.path_ req) = c :: cs → HttpRequest.path_ req ≠ [slash]).
  { intros c cs Hcs Hp. rewrite Hp in Hcs. discriminate Hcs. }
  split; [|split; [|split]].
  - intros Hp. rewrite bool_decide_true by done. exists (listing (Inspector.helps_ s)). rewrite index_listing.
    split; [done|]. split; [by apply listing_sorted|]. intros k help. rewrite listing_look, Hl by done.
    destruct (R !! k) as [[cb h]|]; cbn; [|naive_solver]. split; [intros [= ->]; by exists cb|by intros [? [= _ ->]]].
  - intros module cmd args Hp. rewrite bool_decide_false by (by eapply Hroot). rewrite Hp.
    specialize (Hc (module, cmd)). unfold look in Hc. cbn in Hc. destruct (StdMap.find module (Inspector.modules_ s)) as [cl|].
    + cbn in Hc. rewrite Hc. by destruct (R !! (module, cmd)) as [[[cb|] h]|].
    + by destruct (R !! (module, cmd)) as [[[cb|] h]|].
  - intros module Hp. rewrite bool_decide_false by (by eapply Hroot). by rewrite Hp.
  - intros Hp Hne. rewrite bool_decide_false by done. by rewrite Hp.
Qed.
End History.

(** Extra slashes do not matter, and paths are read back. *)
Theorem path_roundtrip_split cs : Forall component cs → split (path_of cs) = Done cs.
Proof. intros Hcs. unfold split. rewrite split_loop_components by lia. cbn [app]. by rewrite drop_0, components_path. Qed.

(** * Examples *)
Module Sample.
Definition request (path : string) : HttpRequest.t := HttpRequest.setPath (bs path) HttpRequest.make.
Definition page (path : string) : outcome (Z * bytes) :=
  r ← Inspector.onRequest (run_command Process.Sample.linux true) (request path) (HttpResponse.make false) Inspector_make;
  Done (HttpResponse.statusCode_ r, HttpResponse.body_ r).

Example pages :
  page "/proc/pid" = Done (200, bs "7") ∧ page "//proc///pid/x/" = Done (200, bs "7") ∧
  page "/proc" = Done (404, []) ∧ page "/proc/opened_files" = Done (404, []) ∧ page "//" = Done (404, []).
Proof. vm_compute. repeat split. Qed.
Example first_line :
  (r ← page "/"; Done (r.1, take 48 r.2)) = Done (200, bs "/proc/overview             print basic overview" ++ [x0a]).
Proof. vm_compute. reflexivity. Qed.

Lemma path_roundtrip_split_witness : split (bs "/proc/pid") = Done [bs "proc"; bs "pid"].
Proof.
  apply (path_roundtrip_split [bs "proc"; bs "pid"]).
  repeat (apply Forall_cons; split; [split; [discriminate|apply (bool_decide_unpack _); vm_compute; exact I]|]). by apply Forall_nil.
Defined.
End Sample.
