(* ===== verification/Base.v ===== *)
(** Small classes of muduo/base: StringPiece.h and Atomic.h. *)

From S2P Require Import Prelude.
Local Open Scope Z_scope.

(** * StringPiece

    A pointer into a block of memory and a length, which is an [int] and may
    become negative.  The piece of a null pointer is one of an empty memory.  Of
    the result of [memcmp] only the sign is known: it is taken as -1, 0 or 1. *)
Module StringPiece.

Record t := mk { memory : bytes; ptr_ : Z; length_ : Z }.

(** [StringPiece()], of a C string, of a [std::string], of a buffer. *)
Definition make : t := mk [] 0 0.
Definition of_c_str (str : bytes) : t := mk (str ++ [x00]) 0 (s32 (szof (c_str str))).
Definition of_string (str : bytes) : t := mk str 0 (s32 (szof str)).
Definition of_buffer (mem : bytes) (offset len : Z) : t := mk mem offset len.

Definition size (p : t) : Z := length_ p.
Definition empty (p : t) : bool := length_ p =? 0.
Definition clear (p : t) : t := make.
Definition set (mem : bytes) (len : Z) (p : t) : t := mk mem 0 len.
Definition set_c_str (str : bytes) (p : t) : t := of_c_str str.
Definition remove_prefix (n : Z) (p : t) : outcome t :=
  len ← int32 (length_ p - n); Done (mk (memory p) (ptr_ p + n) len).
Definition remove_suffix (n : Z) (p : t) : outcome t :=
  len ← int32 (length_ p - n); Done (mk (memory p) (ptr_ p) len).
Definition char_at (i : Z) (p : t) : outcome byte :=
  match (if ptr_ p + i <? 0 then None else memory p !! Z.to_nat (ptr_ p + i)) with
  | Some c => Done c
  | None => Fault (Undefined "outside of the memory")
  end.

(** [n] bytes from the pointer on: [n] is converted to [size_t]. *)
Definition read (n : Z) (p : t) : outcome bytes :=
  _ ← defined_if ((0 <=? ptr_ p) && (ptr_ p + u64 n <=? szof (memory p))) "outside of the memory";
  Done (take (Z.to_nat n) (drop (Z.to_nat (ptr_ p)) (memory p))).
Fixpoint compare_bytes (a b : bytes) : Z :=
  match a, b with
  | x :: a, y :: b => if ub x <? ub y then -1 else if ub y <? ub x then 1 else compare_bytes a b
  | _, _ => 0
  end.
Definition memcmp (p x : t) (n : Z) : outcome Z :=
  a ← read n p; b ← read n x; Done (compare_bytes a b).

Definition op_eq (p x : t) : outcome bool :=
  if length_ p =? length_ x then r ← memcmp p x (length_ p); Done (r =? 0) else Done false.
Definition op_ne (p x : t) : outcome bool := b ← op_eq p x; Done (negb b).

(** [STRINGPIECE_BINARY_PREDICATE( cmp, auxcmp )] *)
Definition predicate (cmp auxcmp : Z → Z → bool) (p x : t) : outcome bool :=
  r ← memcmp p x (if length_ p <? length_ x then length_ p else length_ x);
  Done (auxcmp r 0 || (r =? 0) && cmp (length_ p) (length_ x)).
Definition op_lt : t → t → outcome bool := predicate Z.ltb Z.ltb.
Definition op_le : t → t → outcome bool := predicate Z.leb Z.ltb.
Definition op_ge : t → t → outcome bool := predicate Z.geb Z.gtb.
Definition op_gt : t → t → outcome bool := predicate Z.gtb Z.gtb.

Definition compare (p x : t) : outcome Z :=
  r ← memcmp p x (if length_ p <? length_ x then length_ p else length_ x);
  Done (if r =? 0 then
          if length_ p <? length_ x then -1 else if length_ x <? length_ p then 1 else r
        else r).
(** Constructing and assigning a string throw for a negative length, which
    becomes a huge [size_t]. *)
Definition as_string (p : t) : outcome bytes :=
  if length_ p <? 0 then Fault (Thrown "std::length_error") else read (length_ p) p.
Definition CopyToString (p : t) (target : bytes) : outcome bytes := as_string p.
Definition starts_with (p x : t) : outcome bool :=
  if length_ x <=? length_ p then r ← memcmp p x (length_ x); Done (r =? 0) else Done false.

(** ** Lemmas *)

(** The piece lies in its memory; the text it stands for. *)
Definition valid (p : t) : Prop :=
  0 ≤ ptr_ p ∧ 0 ≤ length_ p ≤ INT_MAX ∧ ptr_ p + length_ p ≤ szof (memory p).
Definition text (p : t) : bytes := take (Z.to_nat (length_ p)) (drop (Z.to_nat (ptr_ p)) (memory p)).

Lemma text_length p : valid p → szof (text p) = length_ p.
Proof. intros (Hp & Hl & Hm). unfold text. rewrite length_take, length_drop. lia. Qed.
Lemma read_text n p : valid p → 0 ≤ n ≤ length_ p → read n p = Done (take (Z.to_nat n) (text p)).
Proof.
  intros (Hp & Hl & Hm) Hn. unfold read, text, INT_MAX in *. rewrite wrapu_small by lia.
  rewrite defined_if_bind by (apply andb_true_intro; split; apply Z.leb_le; lia). by rewrite take_take, Nat.min_l by lia.
Qed.
Lemma memcmp_text p x n :
  valid p → valid x → 0 ≤ n → n ≤ length_ p → n ≤ length_ x →
  memcmp p x n = Done (compare_bytes (take (Z.to_nat n) (text p)) (take (Z.to_nat n) (text x))).
Proof. intros Hp Hx Hn H1 H2. unfold memcmp. by rewrite !read_text by (done || lia). Qed.

Lemma compare_bytes_zero a : ∀ b, length a = length b → compare_bytes a b = 0 ↔ a = b.
Proof.
  induction a as [|x a IH]; intros [|y b] Hl; try done. cbn [compare_bytes]. injection Hl as Hl.
  destruct (Z.ltb_spec (ub x) (ub y)), (Z.ltb_spec (ub y) (ub x)); try (split; [lia|intros [= -> _]; lia]).
  assert (x = y) as -> by (apply ub_inj; lia). rewrite IH by done. naive_solver.
Qed.
Lemma compare_bytes_cases a : ∀ b,
  let n := Nat.min (length a) (length b) in
  let r := compare_bytes (take n a) (take n b) in
  (r = -1 ∨ r = 0 ∨ r = 1) ∧
  bytes_lt a b = (r <? 0) || (r =? 0) && (szof a <? szof b) ∧ bytes_lt b a = (r >? 0) || (r =? 0) && (szof b <? szof a).
Proof.
  induction a as [|x a IH]; intros [|y b]; cbn [length Nat.min take compare_bytes bytes_lt];
    [split; [auto|done]|split; [auto|done]|split; [auto|done]|].
  destruct (Z.ltb_spec (ub x) (ub y)), (Z.ltb_spec (ub y) (ub x)); try lia; try (by split; [auto|]).
  specialize (IH b). cbv zeta in IH. destruct IH as (Hr & H1 & H2). split; [done|]. rewrite H1, H2.
  rewrite !Nat2Z.inj_succ. split; f_equal; f_equal; apply eq_iff_eq_true; rewrite !Z.ltb_lt; lia.
Qed.

(** [memcmp] over the shorter length, as the operators use it. *)
Lemma shorter_memcmp p x :
  valid p → valid x →
  ∃ r, memcmp p x (if length_ p <? length_ x then length_ p else length_ x) = Done r ∧ (r = -1 ∨ r = 0 ∨ r = 1) ∧
    bytes_lt (text p) (text x) = (r <? 0) || (r =? 0) && (length_ p <? length_ x) ∧
    bytes_lt (text x) (text p) = (r >? 0) || (r =? 0) && (length_ x <? length_ p).
Proof.
  intros Hp Hx. pose proof (text_length p Hp) as Lp. pose proof (text_length x Hx) as Lx.
  rewrite memcmp_text by (done || destruct Hp as (_ & ? & _), Hx as (_ & ? & _); destruct (Z.ltb_spec (length_ p) (length_ x)); lia).
  pose proof (compare_bytes_cases (text p) (text x)) as (Hr & H1 & H2).
  replace (Z.to_nat _) with (Nat.min (length (text p)) (length (text x))) by (destruct (Z.ltb_spec (length_ p) (length_ x)); lia).
  eexists. split; [done|]. rewrite <-Lp, <-Lx. done.
Qed.

(** * Properties *)

(** The operators of pieces compare their texts: equality, the order of
    [std::string] with its reverse and negations, the sign of [compare], and
    prefixes; none reads outside of the memory of its pieces. *)
Theorem pieces_compare_texts p x :
  valid p → valid x →
  as_string p = Done (text p) ∧
  op_eq p x = Done (bool_decide (text p = text x)) ∧
  op_lt p x = Done (bytes_lt (text p) (text x)) ∧ op_gt p x = Done (bytes_lt (text x) (text p)) ∧
  op_le p x = Done (negb (bytes_lt (text x) (text p))) ∧ op_ge p x = Done (negb (bytes_lt (text p) (text x))) ∧
  compare p x = Done (if bytes_lt (text p) (text x) then -1 else if bytes_lt (text x) (text p) then 1 else 0) ∧
  starts_with p x = Done (bool_decide (text x `prefix_of` text p)).
Proof.
  intros Hp Hx. destruct (shorter_memcmp p x Hp Hx) as (r & Hm & Hr & H1 & H2).
  pose proof (text_length p Hp) as Lp. pose proof (text_length x Hx) as Lx.
  unfold op_lt, op_gt, op_le, op_ge, predicate, compare. rewrite Hm, !bind_ret_l, H1, H2, Z.gtb_ltb, Z.geb_leb.
  split; [|split; [|split_and!]].
  - unfold as_string. rewrite (proj2 (Z.ltb_ge _ _)) by lia. rewrite read_text by (done || lia). by rewrite take_ge by lia.
  - unfold op_eq. destruct (Z.eqb_spec (length_ p) (length_ x)) as [E|E].
    + rewrite memcmp_text by (done || lia). rewrite !take_ge, bind_ret_l by lia. f_equal. apply eq_iff_eq_true.
      rewrite Z.eqb_eq, bool_decide_eq_true. apply compare_bytes_zero. lia.
    + rewrite bool_decide_false; [done|]. intros Ht. rewrite Ht in Lp. lia.
  - done.
  - by rewrite Z.gtb_ltb.
  - rewrite Z.leb_antisym. by destruct Hr as [->|[->| ->]]; cbn.
  - rewrite Z.leb_antisym. by destruct Hr as [->|[->| ->]]; cbn.
  - destruct Hr as [->|[->| ->]]; cbn; [done| |done]. by repeat case_match.
  - unfold starts_with. destruct (Z.leb_spec (length_ x) (length_ p)) as [E|E].
    + rewrite memcmp_text by (done || lia). rewrite bind_ret_l, (take_ge (text x)) by lia. f_equal. apply eq_iff_eq_true.
      rewrite Z.eqb_eq, bool_decide_eq_true, compare_bytes_zero by (rewrite length_take; lia). split.
      * intros Ht. exists (drop (Z.to_nat (length_ x)) (text p)). by rewrite <-Ht, take_drop.
      * intros [k Hk]. rewrite Hk. apply take_app_length'. lia.
    + rewrite bool_decide_false; [done|]. intros Hpre. apply prefix_length in Hpre. lia.
Qed.

(** Shortening a piece by no more than its length shortens its text. *)
Theorem pieces_shortened n p :
  valid p → 0 ≤ n ≤ length_ p →
  ∃ a b, remove_prefix n p = Done a ∧ valid a ∧ text a = drop (Z.to_nat n) (text p) ∧
    remove_suffix n p = Done b ∧ valid b ∧ text b = take (Z.to_nat (length_ p - n)) (text p).
Proof.
  intros (Hp & Hl & Hm) Hn. unfold INT_MAX in Hl. unfold valid, text, remove_prefix, remove_suffix.
  rewrite int32_ok, !bind_ret_l by (unfold INT_MIN, INT_MAX; lia). do 2 eexists. split; [done|]. cbn. unfold INT_MAX.
  split; [lia|]. split; [|split; [done|cbn; split; [lia|]]].
  - rewrite skipn_firstn_comm, drop_drop. f_equal; [lia|]. f_equal. lia.
  - by rewrite take_take, Nat.min_l by lia.
Qed.

Lemma pieces_compare_texts_witness :
  op_lt (of_string (bs "ab")) (of_string (bs "b")) = Done true ∧ starts_with (of_string (bs "ab")) (of_c_str (bs "a")) = Done true.
Proof.
  assert (Hv : valid (of_string (bs "ab")) ∧ valid (of_string (bs "b")) ∧ valid (of_c_str (bs "a"))).
  { unfold valid. vm_compute. repeat split; discriminate. }
  destruct Hv as (H1 & H2 & H3). split.
  - apply (pieces_compare_texts _ _ H1 H2).
  - apply (pieces_compare_texts _ _ H1 H3).
Defined.

(** A prefix longer than the piece leaves a negative length: the piece is not
    empty, has no string and cannot be compared. *)
Example negative_length :
  ∃ p, remove_prefix 3 (of_string (bs "ab")) = Done p ∧ size p = -1 ∧ empty p = false ∧
    as_string p = Fault (Thrown "std::length_error") ∧ op_lt p make = Fault (Undefined "outside of the memory").
Proof. eexists. split; [reflexivity|]. by vm_compute. Qed.
End StringPiece.

(** * AtomicIntegerT *)
Module AtomicIntegerT.
Section Atomic.
Context (w : Z).

(** The value, of [w] bits; each member is one step on it and its result. *)
Definition make : Z := 0.
Definition get (v : Z) : Z * Z := (v, v).
Definition getAndAdd (x v : Z) : Z * Z := (v, wraps w (v + x)).
(** The sum of the result is one of signed integers again. *)
Definition addAndGet (x v : Z) : outcome (Z * Z) :=
  let '(r, v) := getAndAdd x v in
  _ ← defined_if ((- 2 ^ (w - 1) <=? r + x) && (r + x <? 2 ^ (w - 1))) "signed overflow";
  Done (r + x, v).
Definition incrementAndGet : Z → outcome (Z * Z) := addAndGet 1.
Definition decrementAndGet : Z → outcome (Z * Z) := addAndGet (-1).
Definition add (x v : Z) : Z := (getAndAdd x v).2.
Definition increment (v : Z) : outcome Z := '(_, v) ← incrementAndGet v; Done v.
Definition decrement (v : Z) : outcome Z := '(_, v) ← decrementAndGet v; Done v.
Definition getAndSet (newValue v : Z) : Z * Z := (v, newValue).

(** [n] calls of [incrementAndGet], of any threads, one after the other. *)
Fixpoint draw (n : nat) (v : Z) : outcome (list Z * Z) :=
  match n with
  | O => Done ([], v)
  | S n => '(r, v) ← incrementAndGet v; '(l, v) ← draw n v; Done (r :: l, v)
  end.

(** The numbers drawn are consecutive, as long as they fit. *)
Theorem numbers_drawn n v :
  0 < w → - 2 ^ (w - 1) ≤ v → v + Z.of_nat n < 2 ^ (w - 1) →
  draw n v = Done ((λ i, v + Z.of_nat i) <$> seq 1 n, v + Z.of_nat n).
Proof.
  intros Hw. revert v. induction n as [|n IH]; intros v Hv Hn; [cbn; by rewrite Z.add_0_r|].
  cbn [draw]. unfold incrementAndGet, addAndGet, getAndAdd.
  rewrite defined_if_bind by (apply andb_true_intro; split; [apply Z.leb_le|apply Z.ltb_lt]; lia). rewrite bind_ret_l.
  rewrite wraps_small by lia. rewrite IH by lia. rewrite bind_ret_l. f_equal. f_equal; [|lia].
  change (seq 1 (S n)) with (1%nat :: seq 2 n). rewrite fmap_cons. f_equal. rewrite <-(fmap_S_seq 1 n), <-list_fmap_compose.
  apply list_fmap_ext. intros i j _. cbn. lia.
Qed.
End Atomic.

(** At the largest value the addition wraps, but [addAndGet] adds once more
    without wrapping. *)
Example overflow : add 32 1 (2 ^ 31 - 1) = - 2 ^ 31 ∧ incrementAndGet 32 (2 ^ 31 - 1) = Fault (Undefined "signed overflow").
Proof. vm_compute. done. Qed.
End AtomicIntegerT.
